(* ===== verification/_CoqProject ===== *)
-Q . S2P
Prelude.v
Word.v
Env.v
Segment.v
Queue.v
RingBuffer.v
Heap.v
KcpState.v
KcpSend.v
KcpFlush.v
KcpInput.v
KcpInv.v
KcpWriter.v
KcpFlushInv.v
KcpSink.v
KcpDelivery.v
KcpStream.v
KcpNaive.v
KcpScan.v
KcpOracle.v
KcpSpec.v
KcpTimer.v
KcpSource.v
KcpAcked.v
KcpPeers.v
KcpTheorems.v
KcpOpTheorems.v
Galois.v
GfVector.v
Matrix.v
Gauss.v
Codec.v
CodecSpec.v
RsDecode.v
CodecTheorems.v
GoSort.v
GoSortSpec.v
AutoTune.v
Fec.v
FecLayout.v
FecEncoderSpec.v
FecDecoderSpec.v
FecRun.v
FecTheorems.v
Qpp.v
QppSpec.v
QppTheorems.v
SmuxFrame.v
Shaper.v
ShaperSpec.v
ShaperTheorems.v
SmuxStream.v
SmuxSession.v
SmuxInv.v
SmuxRun.v
SmuxWire.v
SmuxFlow.v
SmuxTheorems.v
CipherWord.v
Cfb.v
Tea.v
Sm4.v
Twofish.v
Des.v
DesSpec.v
Crypt.v
BufPool.v
Packet.v
CryptTheorems.v
Tx.v
TxSpec.v
Session.v
SessionSpec.v
SessionPeers.v
SessionTheorems.v
Listener.v
ListenerSpec.v
Tcp.v
TcpSpec.v
DataTheorems.v
