(* ===== verification/Prelude.v ===== *)
(** * A verification library for kcptun-rust

    The repository is a Rust port of kcptun: a client and a server carry TCP connections over
    UDP by a reliable protocol with forward error correction and encryption.  This library
    models the protocol core, under [src/crates/kcp/src], [src/crates/smux/src],
    [src/crates/qpp/src] and [src/crates/tcpraw/src], as executable definitions named after the
    source, and proves what makes them correct.

    ** How the parts fit

    An application's bytes go through [smux] (streams over one connection), optionally [qpp]
    (an obfuscation of the byte stream), a [UdpSession] ([session.rs]), which feeds them to the
    KCP state machine ([kcp.rs]); KCP writes packets into the session's channel ([tx.rs]), whose
    task adds FEC headers and parity packets ([fec.rs]), encrypts ([crypt/]) and writes batches
    to the socket.  A datagram goes the other way: decryption, FEC, KCP, the reader.

    - Foundations: [Prelude] (record update, tactics, lists, results), [Word] (w-bit integers as
      [Z] with the wrap-around written out, little-endian bytes), [Env] (the clock, the packet
      sink, the bounded channel, the counters).
    - KCP ([segment.rs], [ringbuffer.rs], [heap.rs], [kcp.rs]): [Segment], [RingBuffer] with
      [Queue] (the list it implements), [Heap], [KcpState] (the fields of [struct Kcp], in
      [Kcp]), [KcpSend], [KcpFlush], [KcpInput] (one function per method, [kcp_step] for any
      call).  [KcpInv], [KcpWriter], [KcpFlushInv] hold the invariant [kcp_wf] and that every call
      keeps it; [KcpSink] what is written to the sink; [KcpDelivery], [KcpStream], [KcpSource],
      [KcpAcked] the receive side, the send side's history and acknowledgements; [KcpNaive],
      [KcpScan], [KcpOracle] the equivalence of the optimised scan of the send buffer with the
      plain one; [KcpSpec], [KcpTimer] send, windows and timers; [KcpPeers] two ends and a
      network between them.  The theorems are in [KcpTheorems] and [KcpOpTheorems].
    - Reed-Solomon ([rs/]): [Galois], [GfVector], [Matrix], [Gauss], [Codec], [CodecSpec],
      [RsDecode], [CodecTheorems].
    - FEC ([gosort.rs], [autotune.rs], [fec.rs]): [GoSort], [GoSortSpec], [AutoTune], [Fec],
      [FecLayout], [FecEncoderSpec], [FecDecoderSpec], [FecRun], [FecTheorems].
    - QPP ([qpp/]): [Qpp], [QppSpec], [QppTheorems].
    - smux ([smux/]): [SmuxFrame], [Shaper] with [ShaperSpec], [ShaperTheorems],
      [SmuxStream], [SmuxSession] with [SmuxInv], [SmuxRun], [SmuxWire], [SmuxFlow],
      [SmuxTheorems].
    - Encryption ([crypt/], [bufpool.rs]): [CipherWord], [Cfb], [Tea], [Sm4], [Twofish], [Des],
      [DesSpec], [Crypt], [BufPool], [Packet] (sealing and opening a datagram), [CryptTheorems].
    - The session ([tx.rs], [session.rs], [addr.rs]): [Tx], [Session], [TxSpec] (what
      the task puts on the wire), [SessionSpec] (a session's sections as moves of its machine),
      [SessionPeers] (two sessions, their tasks and the network), [SessionTheorems];
      the server's side ([listener.rs]): [Listener] (routing datagrams, the indexes of
      sessions, the accept queue), [ListenerSpec].
    - Raw TCP ([tcpraw/]): [Tcp] (segments, checksum, the flow table, the locked sections of a
      connection that carries datagrams in imitated TCP segments), [TcpSpec].
    - [DataTheorems]: the codec of headers and the ring buffer.

    ** What the theorems show

    - [kcp_reliable]: two ends of a conversation, whatever calls they run in whatever
      interleaving, over a network that loses, duplicates and reorders packets, carry a byte
      stream each way: what was read is a prefix of what was written, all of it has arrived when
      nothing is unacknowledged, nothing panics.
    - [session_reliable]: the same end to end, for two sessions with their packet tasks, with or
      without FEC and encryption, over a network that carries datagrams; [batch_bounded]: the
      bounds of the task's batch.
    - [listener_total]: a listener survives any datagrams and calls, its indexes hold exactly its
      live sessions; [listener_routes]: where a datagram goes.  Both take closing a session as
      one step; [close_race_orphan] shows what a datagram between its two halves does.
    - The optimised flush equals the naive one; a flush admits what the window allows; timers
      meet their deadlines; packets are whole segments and fit an MTU that is never lowered; the
      session's channel never drops one; messages keep their boundaries; nothing panics on any
      input.
    - The Reed-Solomon code is MDS and its decoder recovers every erasure pattern it can; the FEC
      layer repairs the losses of every group whose shards come before a group more than three
      newer, and survives arbitrary packets; shard counts are detected in bounds.
    - The sort permutes for every comparison; the ring buffer is a queue.
    - The smux shaper refines a round-robin scheduler and keeps each stream's order; the tokens
      bound memory; what is written arrives and is read in order ([eof_hides_data]: an end of the
      stream answered while data comes in may hide it); flow control keeps the window and lets
      the writer go on.
    - Ciphers invert; the batched feedback mode is the textbook one; a sealed packet opens, and
      with a whole-packet cipher nothing else does; the pads of QPP keep two ends in step.
    - A TCP segment the raw transport builds verifies and parses back, and the peer that captures
      it delivers the datagram and stays in step with the sender's numbers.

    ** Conventions, bounds and fuel

    An integer of the source is a [Z] kept in its range by the wrapping operations of [Word];
    lengths and indexes are [nat] where the source has [usize] that cannot wrap.  A function that
    can panic returns [Panic] of [result] (or sets [k_panic], for the state machine), and the
    theorems prove that it does not.  Loops that are not structural take fuel, chosen from the
    data (the length of a packet, a buffer or a queue), and a lemma shows that more fuel changes
    nothing or that the loop ends within it.  The stream theorems assume less than 2 GiB written
    in a conversation's history, below the wrap of the 32-bit sequence numbers' half range;
    [session_reliable] also that FEC's 32-bit packet numbers do not wrap.

    What is not under [src/] is a parameter with its documented laws: AES, Blowfish, CAST5,
    Salsa20, GCM and PBKDF2 ([Crates], [CratesLaw], [CratesBytes]), CRC-32 ([Crc]), randomness ([Rng]), the
    lock-free queue of the buffer pool ([ArrayQueue]), HMAC and PBKDF2 of QPP ([Crypto]), the
    clock, the socket.

    ** Not modelled

    Waiting: deadlines, wake-ups and the tasks around the modelled pieces belong to the
    asynchronous runtime; the models leave open which piece runs next.  A piece that takes several
    locks in a row is one step, but for the looks of a smux reader at its buffer and then at the
    flags, between which anything may run.  Dialling, name
    resolution, batched and raw sockets, the rate limiter (floating point and time), memory
    advice, the vector kernels of the Reed-Solomon coder (intrinsics; the
    split-nibble identity they use is proved), spare capacity of queues, logging, Debug and
    Display output, option parsing, the programs' entry points, and the test tooling. *)
From Stdlib Require Export ZArith Lia Permutation.
From stdpp Require Export base tactics option numbers list.

(** ** Functional record update

    [r <| f := v |>] is the record [r] with field [f] replaced by [v], the way
    an assignment [self.f = v] of the source changes a struct.  A record type
    opts in with an [EtaRecord] instance, its eta expansion. *)

Class EtaRecord (R : Type) := eta_record : R -> R.

Class FieldUpdate {R T : Type} (proj : R -> T) := field_update : (T -> T) -> R -> R.

Ltac solve_field_update :=
  match goal with
  | |- @FieldUpdate ?R ?T ?proj =>
      let inst := constr:(_ : EtaRecord R) in
      let e := eval hnf in inst in
      match eval pattern proj in e with
      | ?setter _ => exact (fun f => setter (fun r => f (proj r)))
      end
  end.

#[export] Hint Extern 1 (FieldUpdate _) => solve_field_update : typeclass_instances.

Declare Scope record_update_scope.
Delimit Scope record_update_scope with upd.
Open Scope record_update_scope.

Notation "r <| f := v |>" := (field_update (proj := f) (fun _ => v) r)
  (at level 1, left associativity, f at level 9) : record_update_scope.

(** ** Tactics *)

(** Case analysis on the scrutinee of the first [if] or [match] of the goal,
    remembering the equation. *)
Ltac case_goal :=
  match goal with
  | |- context [if ?b then _ else _] => destruct b eqn:?
  | |- context [match ?x with _ => _ end] => destruct x eqn:?
  end.

(** [lia] with the Euclidean equations of [/] and [mod] exposed. *)
Ltac zlia := Z.div_mod_to_equations; lia.

(** Turns boolean comparisons in the context into propositions. *)
Ltac to_prop :=
  repeat match goal with
  | H : (_ <? _)%Z = true |- _ => apply Z.ltb_lt in H
  | H : (_ <? _)%Z = false |- _ => apply Z.ltb_ge in H
  | H : (_ <=? _)%Z = true |- _ => apply Z.leb_le in H
  | H : (_ <=? _)%Z = false |- _ => apply Z.leb_gt in H
  | H : (_ =? _)%Z = true |- _ => apply Z.eqb_eq in H
  | H : (_ =? _)%Z = false |- _ => apply Z.eqb_neq in H
  | H : (_ <? _)%nat = true |- _ => apply Nat.ltb_lt in H
  | H : (_ <? _)%nat = false |- _ => apply Nat.ltb_ge in H
  | H : (_ <=? _)%nat = true |- _ => apply Nat.leb_le in H
  | H : (_ <=? _)%nat = false |- _ => apply Nat.leb_gt in H
  | H : (_ =? _)%nat = true |- _ => apply Nat.eqb_eq in H
  | H : (_ =? _)%nat = false |- _ => apply Nat.eqb_neq in H
  | H : _ && _ = true |- _ => apply andb_true_iff in H as [? ?]
  | H : _ || _ = false |- _ => apply orb_false_iff in H as [? ?]
  | H : negb _ = true |- _ => apply negb_true_iff in H
  | H : negb _ = false |- _ => apply negb_false_iff in H
  end.

(** ** Lists *)

Section Lists.
Context {A : Type}.
Implicit Types (l : list A) (x : A).

(** The length of a list as an integer, for comparisons with the [u32] and
    [isize] quantities of the source. *)
Definition zlen (l : list A) : Z := Z.of_nat (length l).

Lemma zlen_nonneg l : (0 <= zlen l)%Z.
Proof. unfold zlen; lia. Qed.

Lemma zlen_nil : zlen [] = 0%Z.
Proof. reflexivity. Qed.

Lemma zlen_cons x l : zlen (x :: l) = (zlen l + 1)%Z.
Proof. unfold zlen; cbn [length]; lia. Qed.

Lemma zlen_app l l' : zlen (l ++ l') = (zlen l + zlen l')%Z.
Proof. unfold zlen; rewrite length_app; lia. Qed.

(** Splits a list whose length is known to be positive. *)
Lemma nonempty_cons l : (0 < length l)%nat -> exists x l', l = x :: l'.
Proof. destruct l as [|x l']; cbn [length]; [lia | eauto]. Qed.

(** Altering past the end changes nothing. *)
Lemma alter_past_end (f : A -> A) l (i : nat) : (length l <= i)%nat -> alter f i l = l.
Proof.
  intros Hi. apply list_eq. intros j. destruct (decide (i = j)) as [<-|].
  - rewrite list_lookup_alter_eq. by rewrite lookup_ge_None_2.
  - by apply list_lookup_alter_ne.
Qed.

Lemma take_drop_split n l : l = take n l ++ drop n l.
Proof. symmetry. apply take_drop. Qed.
End Lists.

Create HintDb kcp.
Create Rewrite HintDb lens.
#[export] Hint Rewrite @zlen_nil @zlen_cons @zlen_app : lens.
#[export] Hint Resolve zlen_nonneg : kcp.

(** ** Fallible operations

    The outcome of a Rust function that returns [Result<A, E>] and may panic. *)
Inductive result (E A : Type) :=
| Ok (a : A)
| Err (e : E)
| Panic.
Arguments Ok {E A} a.
Arguments Err {E A} e.
Arguments Panic {E A}.

#[export] Instance result_ret {E} : MRet (result E) := fun A a => Ok a.
#[export] Instance result_bind {E} : MBind (result E) := fun A B f m =>
  match m with Ok a => f a | Err e => Err e | Panic => Panic end.

(** The outcome of a function that cannot fail but may panic. *)
Abbreviation io := (result Empty_set).

(** [x - y] on [usize]. *)
Definition usize_sub (x y : nat) : io nat := if (y <=? x)%nat then Ok (x - y)%nat else Panic.

(** An [Option] whose [None] is a panic ([unwrap], an index out of range). *)
Definition unwrap {E A} (o : option A) : result E A :=
  match o with Some a => Ok a | None => Panic end.

(** A sequence that succeeds: each part did. *)
Lemma bind_Ok {E A B} (m : result E A) (f : A -> result E B) y :
  (m ≫= f) = Ok y -> exists x, m = Ok x /\ f x = Ok y.
Proof. destruct m; cbn; intros H; by eauto. Qed.

Lemma unwrap_Ok {E A} (o : option A) (y : A) : unwrap (E := E) o = Ok y -> o = Some y.
Proof. destruct o; cbn; congruence. Qed.

(** Takes a successful run [H : _ = Ok _] apart. *)
Ltac ok_inv :=
  repeat first
    [ match goal with
      | H : mbind _ _ = Ok _ |- _ => let x := fresh "x" in let E := fresh "E" in apply bind_Ok in H as (x & E & H)
      | H : unwrap _ = Ok _ |- _ => apply unwrap_Ok in H
      | H : Ok _ = Ok _ |- _ => injection H as H
      | H : (_, _) = (_, _) |- _ => injection H as ? ?
      | H : Some _ = Some _ |- _ => injection H as H
      end
    | case_match ]; try discriminate; subst.

(** [if !b { return Err(e) }]. *)
Definition check_ok {E} (b : bool) (e : E) : result E () := if b then Ok () else Err e.

Section Loops.
Context {E St : Type}.
Implicit Types (f : nat -> St -> result E St) (s : St).

(** [for i in lo..lo + n { f(i) }] over the state [s]. *)
Fixpoint for_loop (n lo : nat) f s : result E St :=
  match n with
  | 0%nat => Ok s
  | S n => s ← f lo s; for_loop n (S lo) f s
  end.

(** [for i in lo..hi]. *)
Definition for_range (lo hi : nat) f s : result E St := for_loop (hi - lo) lo f s.

(** A loop whose body succeeds and keeps an invariant. *)
Lemma for_range_inv (P : nat -> St -> Prop) (lo hi : nat) f s :
  (lo <= hi)%nat -> P lo s ->
  (forall i s, (lo <= i < hi)%nat -> P i s -> exists s', f i s = Ok s' /\ P (i + 1)%nat s') ->
  exists s', for_range lo hi f s = Ok s' /\ P hi s'.
Proof.
  unfold for_range. intros Hle HP Hf. remember (hi - lo)%nat as n eqn:En.
  revert lo s Hle HP Hf En; induction n as [|n IH]; intros lo s Hle HP Hf En; cbn [for_loop].
  - exists s. split; [done|]. by replace hi with lo by lia.
  - destruct (Hf lo s ltac:(lia) HP) as (s1 & E1 & HP1). rewrite E1. cbn.
    apply IH; [lia| |intros; apply Hf; [lia|done] |lia]. by rewrite <- Nat.add_1_r.
Qed.

(** A loop whose body keeps an invariant or returns an error that satisfies [Q]. *)
Lemma for_range_fail (P : nat -> St -> Prop) (Q : E -> Prop) (lo hi : nat) f s :
  (lo <= hi)%nat -> P lo s ->
  (forall i s, (lo <= i < hi)%nat -> P i s ->
     match f i s with Ok s' => P (i + 1)%nat s' | Err e => Q e | Panic => False end) ->
  match for_range lo hi f s with Ok s' => P hi s' | Err e => Q e | Panic => False end.
Proof.
  unfold for_range. intros Hle HP Hf. remember (hi - lo)%nat as n eqn:En.
  revert lo s Hle HP Hf En; induction n as [|n IH]; intros lo s Hle HP Hf En; cbn [for_loop].
  - by replace hi with lo by lia.
  - specialize (Hf lo s ltac:(lia) HP) as Hb. destruct (f lo s) as [s1|e|]; cbn; try done.
    apply IH; [lia| |intros; apply Hf; [lia|done] |lia]. by rewrite <- Nat.add_1_r.
Qed.
End Loops.
