(* ===== verification/Word.v ===== *)
(** * Machine words of the source

    The unsigned and signed integer types of the Rust code as [Z], with the
    wrap-around written out; the wrapping sequence-number comparison
    [_itimediff] of [kcp.rs] (also [shaper.rs]); the little-endian
    [to_le_bytes]/[from_le_bytes] conversions as byte lists; and the
    [ikcp_encode*]/[ikcp_decode*] slice helpers of [kcp.rs]. *)
From S2P Require Import Prelude.
Local Open Scope Z_scope.

(** ** Casts *)

(** [x as u8], [x as u16], [x as u32], [x as u64]. *)
Definition u8 (z : Z) : Z := z mod 256.
Definition u16 (z : Z) : Z := z mod 65536.
Definition u32 (z : Z) : Z := z mod 4294967296.
Definition u64 (z : Z) : Z := z mod 18446744073709551616.

(** [x as i32]: two's complement. *)
Definition i32 (z : Z) : Z := (z + 2147483648) mod 4294967296 - 2147483648.

Definition is_u8 (z : Z) : Prop := 0 <= z < 256.
Definition is_u16 (z : Z) : Prop := 0 <= z < 65536.
Definition is_u32 (z : Z) : Prop := 0 <= z < 4294967296.
Definition is_i32 (z : Z) : Prop := -2147483648 <= z < 2147483648.

(** [wrapping_add], [wrapping_sub], [wrapping_mul] on [u32]. *)
Definition wadd32 (a b : Z) : Z := u32 (a + b).
Definition wsub32 (a b : Z) : Z := u32 (a - b).
Definition wmul32 (a b : Z) : Z := u32 (a * b).

Lemma u8_range z : is_u8 (u8 z).
Proof. unfold is_u8, u8. zlia. Qed.
Lemma u16_range z : is_u16 (u16 z).
Proof. unfold is_u16, u16. zlia. Qed.
Lemma u32_range z : is_u32 (u32 z).
Proof. unfold is_u32, u32. zlia. Qed.
Lemma i32_range z : is_i32 (i32 z).
Proof. unfold is_i32, i32. zlia. Qed.

Lemma u8_id z : is_u8 z -> u8 z = z.
Proof. unfold is_u8, u8. intros. zlia. Qed.
Lemma u16_id z : is_u16 z -> u16 z = z.
Proof. unfold is_u16, u16. intros. zlia. Qed.
Lemma u32_id z : is_u32 z -> u32 z = z.
Proof. unfold is_u32, u32. intros. zlia. Qed.
Lemma i32_id z : is_i32 z -> i32 z = z.
Proof. unfold is_i32, i32. intros. zlia. Qed.

Lemma u32_div a m : is_u32 a -> 0 < m -> is_u32 (a / m).
Proof.
  unfold is_u32. intros [Ha Hb] Hm. split; [by apply Z.div_pos|].
  apply Z.div_lt_upper_bound; nia.
Qed.

Lemma lxor_byte a b : is_u8 a -> is_u8 b -> is_u8 (Z.lxor a b).
Proof.
  unfold is_u8. intros Ha Hb. assert (0 <= Z.lxor a b) by by apply Z.lxor_nonneg; lia. split; [done|].
  destruct (decide (Z.lxor a b = 0)) as [->|]; [lia|].
  change 256 with (2 ^ 8). apply Z.log2_lt_pow2; [lia|].
  eapply Z.le_lt_trans; [by apply Z.log2_lxor; lia|].
  apply Z.max_lub_lt.
  - destruct (decide (a = 0)) as [->|]; [done|]. apply Z.log2_lt_pow2; lia.
  - destruct (decide (b = 0)) as [->|]; [done|]. apply Z.log2_lt_pow2; lia.
Qed.

(** Removing an inner reduction: [u32 (u32 a + b) = u32 (a + b)]. *)
Lemma u32_idem z : u32 (u32 z) = u32 z.
Proof. unfold u32. zlia. Qed.
Lemma u32_add_l a b : u32 (u32 a + b) = u32 (a + b).
Proof. unfold u32. rewrite Z.add_mod_idemp_l; lia. Qed.
Lemma u32_add_r a b : u32 (a + u32 b) = u32 (a + b).
Proof. unfold u32. rewrite Z.add_mod_idemp_r; lia. Qed.
Lemma u32_sub_l a b : u32 (u32 a - b) = u32 (a - b).
Proof. unfold u32. rewrite Zminus_mod_idemp_l; lia. Qed.
Lemma u32_sub_r a b : u32 (a - u32 b) = u32 (a - b).
Proof. unfold u32. rewrite Zminus_mod_idemp_r; lia. Qed.

(** Two words are equal iff they differ by a multiple of [2^32]. *)
Lemma u32_eq a b : u32 a = u32 b <-> u32 (a - b) = 0.
Proof. unfold u32. split; intros; zlia. Qed.

(** ** Wrapping comparison *)

(** [kcp.rs:_itimediff]: [later.wrapping_sub(earlier) as i32]. *)
Definition _itimediff (later earlier : Z) : Z := i32 (wsub32 later earlier).

(** [kcp.rs:_imin_], [_imax_], [_ibound_]. *)
Definition _imin_ (a b : Z) : Z := if a <=? b then a else b.
Definition _imax_ (a b : Z) : Z := if a >=? b then a else b.
Definition _ibound_ (lower middle upper : Z) : Z := _imin_ (_imax_ lower middle) upper.

Lemma imin_min a b : _imin_ a b = Z.min a b.
Proof. unfold _imin_. destruct (Z.leb_spec a b); lia. Qed.
Lemma imax_max a b : _imax_ a b = Z.max a b.
Proof. unfold _imax_. rewrite Z.geb_leb. destruct (Z.leb_spec b a); lia. Qed.

(** When the two operands are within [2^31] of each other (as unbounded
    integers, before reduction), the wrapping difference is the true one. *)
Lemma itimediff_exact a b :
  -2147483648 <= a - b < 2147483648 -> _itimediff (u32 a) (u32 b) = a - b.
Proof. unfold _itimediff, i32, wsub32, u32. intros. zlia. Qed.

Lemma itimediff_range a b : is_i32 (_itimediff a b).
Proof. apply i32_range. Qed.

Lemma itimediff_u32 a b : u32 (_itimediff a b) = u32 (a - b).
Proof. unfold _itimediff, i32, wsub32, u32. zlia. Qed.

Lemma itimediff_refl a : _itimediff a a = 0.
Proof. unfold _itimediff, wsub32. rewrite Z.sub_diag. reflexivity. Qed.

(** The difference only depends on the operands modulo [2^32]. *)
Lemma itimediff_l a b : _itimediff (u32 a) b = _itimediff a b.
Proof. unfold _itimediff, wsub32. now rewrite u32_sub_l. Qed.
Lemma itimediff_r a b : _itimediff a (u32 b) = _itimediff a b.
Proof. unfold _itimediff, wsub32. now rewrite u32_sub_r. Qed.

Lemma itimediff_intro a b d :
  is_i32 d -> u32 (a - b) = u32 d -> _itimediff a b = d.
Proof. unfold _itimediff, i32, wsub32, u32, is_i32. intros. zlia. Qed.

(** Distances add up as long as the sum stays in range. *)
Lemma itimediff_trans a b c :
  is_i32 (_itimediff a b + _itimediff b c) ->
  _itimediff a c = _itimediff a b + _itimediff b c.
Proof. unfold _itimediff, i32, wsub32, u32, is_i32. intros. zlia. Qed.

Lemma itimediff_add a d : is_i32 d -> _itimediff (wadd32 a d) a = d.
Proof. unfold _itimediff, i32, wsub32, wadd32, u32, is_i32. intros. zlia. Qed.

(** ** Little-endian bytes *)

Definition bytes (l : list Z) : Prop := Forall is_u8 l.

(** The [n] low bytes of [z], least significant first ([to_le_bytes]). *)
Fixpoint le_bytes (n : nat) (z : Z) : list Z :=
  match n with
  | O => []
  | S n => u8 z :: le_bytes n (z / 256)
  end.

(** The number with little-endian bytes [l] ([from_le_bytes]). *)
Fixpoint le_val (l : list Z) : Z :=
  match l with
  | [] => 0
  | b :: l => b + 256 * le_val l
  end.

Lemma length_le_bytes n z : length (le_bytes n z) = n.
Proof. revert z; induction n; intros; cbn; congruence. Qed.

Lemma le_bytes_bytes n z : bytes (le_bytes n z).
Proof.
  revert z; induction n; intros; cbn; constructor; [apply u8_range | apply IHn].
Qed.

Lemma le_val_le_bytes n z : le_val (le_bytes n z) = z mod 256 ^ Z.of_nat n.
Proof.
  revert z; induction n; intros; cbn [le_bytes le_val]; [now rewrite Z.mod_1_r |].
  rewrite IHn, Nat2Z.inj_succ, Z.pow_succ_r by lia.
  rewrite Z.rem_mul_r; unfold u8; lia.
Qed.

Lemma le_bytes_le_val l : bytes l -> le_bytes (length l) (le_val l) = l.
Proof.
  induction 1 as [|b l Hb Hl IH]; [reflexivity|].
  cbn [length le_bytes le_val]. f_equal; unfold u8, is_u8 in *.
  - zlia.
  - replace ((b + 256 * le_val l) / 256) with (le_val l) by zlia. exact IH.
Qed.

Lemma le_val_range l : bytes l -> 0 <= le_val l < 256 ^ Z.of_nat (length l).
Proof.
  induction 1 as [|b l Hb Hl IH]; cbn [length le_val]; [cbn; lia|].
  rewrite Nat2Z.inj_succ, Z.pow_succ_r by lia. unfold is_u8 in Hb. lia.
Qed.

(** ** The slice helpers of [kcp.rs]

    [ikcp_encode*] take a mutable slice, write at its front and return the
    rest.  The slice is modelled by a cursor [(written, rest)]: the bytes of
    the caller's buffer already written through it, and those still free.
    [None] is the slice-index panic of a slice that is too short. *)

Abbreviation cursor := (list Z * list Z)%type.

Definition write_bytes (bs : list Z) (p : cursor) : option cursor :=
  let '(w, r) := p in
  if Nat.ltb (length r) (length bs) then None
  else Some (w ++ bs, drop (length bs) r).

Definition ikcp_encode8u (p : cursor) (c : Z) : option cursor := write_bytes [u8 c] p.
Definition ikcp_encode16u (p : cursor) (w : Z) : option cursor := write_bytes (le_bytes 2 w) p.
Definition ikcp_encode32u (p : cursor) (l : Z) : option cursor := write_bytes (le_bytes 4 l) p.

(** [ikcp_decode*]: the value at the front of [p] and the rest of [p]. *)
Definition ikcp_decode8u (p : list Z) : option (Z * list Z) :=
  if Nat.ltb (length p) 1 then None else Some (le_val (take 1 p), drop 1 p).
Definition ikcp_decode16u (p : list Z) : option (Z * list Z) :=
  if Nat.ltb (length p) 2 then None else Some (le_val (take 2 p), drop 2 p).
Definition ikcp_decode32u (p : list Z) : option (Z * list Z) :=
  if Nat.ltb (length p) 4 then None else Some (le_val (take 4 p), drop 4 p).

Lemma write_bytes_ok bs w r :
  (length bs <= length r)%nat -> write_bytes bs (w, r) = Some (w ++ bs, drop (length bs) r).
Proof. unfold write_bytes. intros. destruct (Nat.ltb_spec (length r) (length bs)); [lia|done]. Qed.

Lemma write_bytes_short bs w r :
  (length r < length bs)%nat -> write_bytes bs (w, r) = None.
Proof. unfold write_bytes. intros. destruct (Nat.ltb_spec (length r) (length bs)); [done|lia]. Qed.
