(* ===== verification/Env.v ===== *)
(** * The environment of the state machines

    What [Kcp] is generic over - the packet sink ([kcp.rs:Output]) and the
    millisecond clock ([clock.rs:Clock]) - as type classes, the instances the
    concrete runs use, the law that describes the session's bounded packet
    channel, and the process-wide statistics counters ([snmp.rs]). *)
From stdpp Require Import countable.
From S2P Require Import Prelude Word.
Local Open Scope Z_scope.

(** ** [clock.rs]: the clock trait

    [now_ms] returns a wrapping [u32] timestamp; the clock moves on its own, so
    a reading also yields the clock the next reading is taken from. *)
Class Clock (C : Type) := {
  now_ms : C -> Z * C;
  now_ms_u32 : forall c, is_u32 (fst (now_ms c));
}.

(** The clock after [n] readings. *)
Fixpoint clock_after {C} `{Clock C} (n : nat) (c : C) : C :=
  match n with
  | O => c
  | S n => clock_after n (snd (now_ms c))
  end.

(** The value the [n]-th following reading will have. *)
Definition reading {C} `{Clock C} (n : nat) (c : C) : Z := fst (now_ms (clock_after n c)).

Lemma reading_S {C} `{Clock C} n (c : C) : reading (S n) c = reading n (snd (now_ms c)).
Proof. reflexivity. Qed.

Lemma reading_0 {C} `{Clock C} (c : C) : reading 0 c = fst (now_ms c).
Proof. reflexivity. Qed.

(** A virtual clock given by its remaining readings; the last one repeats. *)
Definition list_now_ms (c : list Z) : Z * list Z :=
  match c with
  | [] => (0, [])
  | [t] => (u32 t, [t])
  | t :: c => (u32 t, c)
  end.

Lemma list_now_ms_u32 c : is_u32 (fst (list_now_ms c)).
Proof. destruct c as [|t [|t' c]]; cbn [list_now_ms fst]; try apply u32_range. done. Qed.

#[export] Instance list_clock : Clock (list Z) := {
  now_ms := list_now_ms;
  now_ms_u32 := list_now_ms_u32;
}.

(** [clock.rs:MonotonicMs]: a clock extended to a non-wrapping [i64] counter. *)
Record MonotonicMs (C : Type) := mkMonotonicMs { mm_clock : C; mm_last : Z; mm_elapsed : Z }.
Arguments mkMonotonicMs {C}.
Arguments mm_clock {C}.
Arguments mm_last {C}.
Arguments mm_elapsed {C}.

Definition i64_max : Z := 9223372036854775807.

Definition monotonic_new {C} `{Clock C} (c : C) : MonotonicMs C :=
  let '(last, c) := now_ms c in mkMonotonicMs c last 0.

Definition monotonic_now_ms {C} `{Clock C} (m : MonotonicMs C) : Z * MonotonicMs C :=
  let '(now, c) := now_ms (mm_clock m) in
  let elapsed := Z.min i64_max (mm_elapsed m + wsub32 now (mm_last m)) in
  (elapsed, mkMonotonicMs c now elapsed).

(** ** [kcp.rs:Output]: the packet sink trait

    [output] takes one packet; [capacity] is how many more packets the sink
    takes before it starts dropping them.  The sink is drained by another task,
    so asking for the capacity may find it changed: [capacity] also returns the
    sink as it was found. *)
Class Output (O : Type) := {
  output : O -> list Z -> O;
  capacity : O -> Z * O;
}.

(** [usize::MAX], the default capacity: a sink that never drops. *)
Definition usize_max : Z := 18446744073709551615.

(** A closure that collects every packet (the [FnMut(&[u8])] instance). *)
#[export] Instance collector : Output (list (list Z)) := {
  output o p := o ++ [p];
  capacity o := (usize_max, o);
}.

(** The session's packet channel ([tx.rs:TxHandle]), a bounded queue with
    [ch_room] free slots, until the tx task is gone ([ch_closed]).  [ch_drained]
    schedules how many slots the consumer has freed when the capacity is asked
    for.  A message is a packet's bytes after the room left in front for the
    crypto and FEC headers, and whether it is out of band ([tx.rs:SendRequest]). *)
Inductive SendOutcome := Queued | Dropped | Closed.

Record ChannelMessage := mkMessage { cm_oob : bool; cm_body : list Z }.

Record Channel := mkChannel {
  ch_closed : bool;
  ch_room : nat;
  ch_sent : list ChannelMessage;
  ch_dropped : list ChannelMessage;
  ch_drained : list nat;
}.

Definition channel_send (m : ChannelMessage) (o : Channel) : SendOutcome * Channel :=
  if ch_closed o then (Closed, o)
  else
    match ch_room o with
    | O => (Dropped, mkChannel false 0 (ch_sent o) (ch_dropped o ++ [m]) (ch_drained o))
    | S r => (Queued, mkChannel false r (ch_sent o ++ [m]) (ch_dropped o) (ch_drained o))
    end.

Definition channel_capacity (o : Channel) : Z * Channel :=
  if ch_closed o then (usize_max, o)
  else
    let r := (ch_room o + hd 0%nat (ch_drained o))%nat in
    (Z.of_nat r, mkChannel false r (ch_sent o) (ch_dropped o) (tl (ch_drained o))).

#[export] Instance channel_output : Output Channel := {
  output o p := snd (channel_send (mkMessage false p) o);
  capacity := channel_capacity;
}.

(** The session's sink ([session.rs:KcpOutput]) in front of the channel. *)
Definition MTU_LIMIT : nat := 1500.

Record KcpOutput := mkKcpOutput { ko_header_size : nat; ko_tx : Channel }.

Definition kcp_output_output (o : KcpOutput) (buf : list Z) : KcpOutput :=
  if (length buf <? 24)%nat then o
  else if (MTU_LIMIT <? ko_header_size o + length buf)%nat then o
  else mkKcpOutput (ko_header_size o) (snd (channel_send (mkMessage false buf) (ko_tx o))).

Definition kcp_output_capacity (o : KcpOutput) : Z * KcpOutput :=
  let '(c, tx) := channel_capacity (ko_tx o) in (c, mkKcpOutput (ko_header_size o) tx).

#[export] Instance kcp_output : Output KcpOutput := {
  output := kcp_output_output;
  capacity := kcp_output_capacity;
}.

(** A sink that remembers the packets it took.  It may refuse one. *)
Class SentLog (O : Type) `{Output O} := {
  sent : O -> list (list Z);
  sent_output : forall o p, sent (output o p) = sent o \/ sent (output o p) = sent o ++ [p];
  sent_capacity : forall o, sent (snd (capacity o)) = sent o;
}.

#[export] Program Instance collector_log : SentLog (list (list Z)) := { sent o := o }.
Next Obligation. intros o p. by right. Qed.
Next Obligation. done. Qed.

(** The KCP packets among the messages of a channel. *)
Definition kcp_packets (ms : list ChannelMessage) : list (list Z) :=
  omap (fun m => if cm_oob m then None else Some (cm_body m)) ms.

#[export] Program Instance channel_log : SentLog Channel := { sent o := kcp_packets (ch_sent o) }.
Next Obligation.
  intros o p. cbn. unfold channel_send, kcp_packets. destruct (ch_closed o), (ch_room o); cbn; try (by left). right. by rewrite omap_app.
Qed.
Next Obligation. intros o. cbn. unfold channel_capacity. by destruct (ch_closed o). Qed.

#[export] Program Instance kcp_output_log : SentLog KcpOutput := { sent o := sent (ko_tx o) }.
Next Obligation.
  intros o p. change (output o p) with (kcp_output_output o p). unfold kcp_output_output. repeat case_goal; [by left..|]. exact (sent_output (ko_tx o) p).
Qed.
Next Obligation.
  intros o. change (capacity o) with (kcp_output_capacity o). unfold kcp_output_capacity.
  pose proof (sent_capacity (ko_tx o)) as E. change (capacity (ko_tx o)) with (channel_capacity (ko_tx o)) in E. by destruct (channel_capacity (ko_tx o)).
Qed.

(** What a bounded sink promises: [free] bounds the slots left, [drops] counts
    the packets it discarded.  Sending into a free slot loses nothing and uses
    at most that slot; the capacity reported is really there; only the
    producer uses slots up. *)
Class BoundedSink (O : Type) `{Output O} := {
  free : O -> Z;
  drops : O -> nat;
  output_room : forall o p, 0 < free o -> free (output o p) >= free o - 1 /\ drops (output o p) = drops o;
  capacity_sound : forall o c o', capacity o = (c, o') ->
    c <= free o' /\ free o <= free o' /\ drops o' = drops o;
}.

#[export] Program Instance channel_bounded : BoundedSink Channel := {
  free o := if ch_closed o then usize_max else Z.of_nat (ch_room o);
  drops o := length (ch_dropped o);
}.
Next Obligation.
  intros o p. change (output o p) with (snd (channel_send (mkMessage false p) o)). unfold channel_send.
  destruct (ch_closed o) eqn:Ec; cbn [snd]; rewrite ?Ec; [lia|]. destruct (ch_room o) eqn:E; cbn; lia.
Qed.
Next Obligation.
  intros o c o' E. change (channel_capacity o = (c, o')) in E. unfold channel_capacity in E.
  destruct (ch_closed o) eqn:Ec; injection E as <- <-; rewrite ?Ec; cbn [ch_closed ch_room ch_dropped]; lia.
Qed.

#[export] Program Instance kcp_output_bounded : BoundedSink KcpOutput := {
  free o := free (ko_tx o);
  drops o := drops (ko_tx o);
}.
Next Obligation.
  intros o p Hr. cbn [output kcp_output]. unfold kcp_output_output.
  pose proof (output_room (ko_tx o) p Hr). repeat case_goal; (split; [|done]) || done; lia.
Qed.
Next Obligation.
  intros o c o' E. cbn [capacity kcp_output] in E. unfold kcp_output_capacity in E.
  pose proof (capacity_sound (ko_tx o)) as Hs. cbn [capacity channel_output] in Hs.
  destruct (channel_capacity (ko_tx o)) as [c1 tx]. injection E as <- <-. by apply Hs.
Qed.

(** The sink that collects everything is unbounded. *)
#[export] Program Instance collector_bounded : BoundedSink (list (list Z)) := {
  free _ := usize_max;
  drops _ := 0%nat;
}.
Next Obligation. intros. split; [|done]. cbv. congruence. Qed.
Next Obligation. intros o c o' E. injection E as <- <-. split_and!; done || reflexivity. Qed.

(** ** [snmp.rs]: the statistics counters *)

Record Snmp := mkSnmp {
  bytes_sent : Z;
  bytes_received : Z;
  max_conn : Z;
  active_opens : Z;
  passive_opens : Z;
  curr_estab : Z;
  in_errs : Z;
  in_csum_errors : Z;
  kcp_in_errors : Z;
  in_pkts : Z;
  out_pkts : Z;
  in_segs : Z;
  out_segs : Z;
  in_bytes : Z;
  out_bytes : Z;
  retrans_segs : Z;
  fast_retrans_segs : Z;
  early_retrans_segs : Z;
  lost_segs : Z;
  repeat_segs : Z;
  fec_full_shard_set : Z;
  fec_recovered : Z;
  fec_errs : Z;
  fec_parity_shards : Z;
  fec_shard_set : Z;
  fec_shard_min : Z;
  ring_buffer_snd_queue : Z;
  ring_buffer_rcv_queue : Z;
  ring_buffer_snd_buffer : Z;
  oob_packets : Z;
}.

#[export] Instance eta_snmp : EtaRecord Snmp := fun s =>
  mkSnmp (bytes_sent s) (bytes_received s) (max_conn s) (active_opens s)
    (passive_opens s) (curr_estab s) (in_errs s) (in_csum_errors s)
    (kcp_in_errors s) (in_pkts s) (out_pkts s) (in_segs s)
    (out_segs s) (in_bytes s) (out_bytes s) (retrans_segs s)
    (fast_retrans_segs s) (early_retrans_segs s) (lost_segs s) (repeat_segs s)
    (fec_full_shard_set s) (fec_recovered s) (fec_errs s) (fec_parity_shards s)
    (fec_shard_set s) (fec_shard_min s) (ring_buffer_snd_queue s) (ring_buffer_rcv_queue s)
    (ring_buffer_snd_buffer s) (oob_packets s).

(** [Snmp::new]: every counter 0. *)
Definition snmp_new : Snmp :=
  mkSnmp 0 0 0 0 0 0 0 0 0 0 0 0 0 0 0 0 0 0 0 0 0 0 0 0 0 0 0 0 0 0.

(** [AtomicU64::fetch_add], which wraps. *)
Definition fetch_add (counter n : Z) : Z := u64 (counter + n).

(** ** [std::net]'s addresses

    An address is its number; [sa_flowinfo] and [sa_scope] are those of an IPv6 address, 0 for
    IPv4. *)
Inductive IpAddr := IpV4 (a : Z) | IpV6 (a : Z).
Record SocketAddr := mkSocketAddr { sa_ip : IpAddr; sa_port : Z; sa_flowinfo : Z; sa_scope : Z }.

#[export] Instance ip_addr_eq_dec : EqDecision IpAddr.
Proof. solve_decision. Defined.
#[export] Instance socket_addr_eq_dec : EqDecision SocketAddr.
Proof. solve_decision. Defined.

#[export] Program Instance ip_addr_countable : Countable IpAddr :=
  inj_countable' (fun ip => match ip with IpV4 a => inl a | IpV6 a => inr a end)
    (fun s => match s with inl a => IpV4 a | inr a => IpV6 a end) _.
Next Obligation. by intros []. Qed.
#[export] Program Instance socket_addr_countable : Countable SocketAddr :=
  inj_countable' (fun a => (sa_ip a, sa_port a, sa_flowinfo a, sa_scope a))
    (fun '(ip, port, flowinfo, scope) => mkSocketAddr ip port flowinfo scope) _.
Next Obligation. by intros []. Qed.

(** [Ipv6Addr::to_ipv4_mapped]: [::ffff:a.b.c.d]. *)
Definition to_ipv4_mapped (a : Z) : option Z := if a / 4294967296 =? 65535 then Some (u32 a) else None.
