(* ===== verification/Segment.v ===== *)
(** * [segment.rs]: KCP segments and their 24-byte header codec

    The [Segment] and [SegmentHeader] structs, [Segment::encode] and
    [SegmentHeader::decode]; the wire constants of [kcp.rs] they use. *)
From S2P Require Import Prelude Word Env.
Local Open Scope Z_scope.

(** Segment header size in bytes ([kcp.rs]). *)
Definition IKCP_OVERHEAD : Z := 24.
Definition OVERHEAD : nat := 24.

Definition IKCP_CMD_PUSH : Z := 81.
Definition IKCP_CMD_ACK : Z := 82.
Definition IKCP_CMD_WASK : Z := 83.
Definition IKCP_CMD_WINS : Z := 84.

(** [segment.rs:Segment]: the header fields sent on the wire plus the sender's
    retransmission state.  Field [f] of the source is [sg_f]. *)
Record Segment := mkSegment {
  sg_conv : Z;
  sg_cmd : Z;
  sg_frg : Z;
  sg_wnd : Z;
  sg_ts : Z;
  sg_sn : Z;
  sg_una : Z;
  sg_rto : Z;
  sg_xmit : Z;
  sg_resendts : Z;
  sg_fastack : Z;
  sg_acked : Z;
  sg_data : list Z;
}.

#[export] Instance eta_segment : EtaRecord Segment := fun s =>
  mkSegment (sg_conv s) (sg_cmd s) (sg_frg s) (sg_wnd s) (sg_ts s) (sg_sn s) (sg_una s)
    (sg_rto s) (sg_xmit s) (sg_resendts s) (sg_fastack s) (sg_acked s) (sg_data s).

#[export] Instance segment_eq_dec : EqDecision Segment.
Proof. solve_decision. Defined.

(** [Segment::default()]. *)
Definition segment_default : Segment := mkSegment 0 0 0 0 0 0 0 0 0 0 0 0 [].

#[export] Instance segment_inhabited : Inhabited Segment := populate segment_default.

(** The types of the wire fields. *)
Definition wire_segment (s : Segment) : Prop :=
  is_u32 (sg_conv s) /\ is_u8 (sg_cmd s) /\ is_u8 (sg_frg s) /\ is_u16 (sg_wnd s) /\
  is_u32 (sg_ts s) /\ is_u32 (sg_sn s) /\ is_u32 (sg_una s) /\
  bytes (sg_data s) /\ is_u32 (zlen (sg_data s)).

(** [Segment::encode]: writes the header into the slice and counts the segment
    in [out_segs]; [None] is the panic on a slice shorter than the header. *)
Definition encode (s : Segment) (ptr : cursor) (snmp : Snmp) : option (cursor * Snmp) :=
  ptr ← ikcp_encode32u ptr (sg_conv s);
  ptr ← ikcp_encode8u ptr (sg_cmd s);
  ptr ← ikcp_encode8u ptr (sg_frg s);
  ptr ← ikcp_encode16u ptr (sg_wnd s);
  ptr ← ikcp_encode32u ptr (sg_ts s);
  ptr ← ikcp_encode32u ptr (sg_sn s);
  ptr ← ikcp_encode32u ptr (sg_una s);
  ptr ← ikcp_encode32u ptr (u32 (zlen (sg_data s)));
  Some (ptr, snmp <| out_segs := fetch_add (out_segs snmp) 1 |>).

(** [segment.rs:SegmentHeader]. *)
Record SegmentHeader := mkHeader {
  h_conv : Z;
  h_cmd : Z;
  h_frg : Z;
  h_wnd : Z;
  h_ts : Z;
  h_sn : Z;
  h_una : Z;
  h_len : Z;
}.

(** [SegmentHeader::decode]: the header at the front of [data] and the bytes
    after it, [None] below 24 bytes. *)
Definition decode (data : list Z) : option (SegmentHeader * list Z) :=
  if Nat.ltb (length data) OVERHEAD then None
  else
    '(conv, data) ← ikcp_decode32u data;
    '(cmd, data) ← ikcp_decode8u data;
    '(frg, data) ← ikcp_decode8u data;
    '(wnd, data) ← ikcp_decode16u data;
    '(ts, data) ← ikcp_decode32u data;
    '(sn, data) ← ikcp_decode32u data;
    '(una, data) ← ikcp_decode32u data;
    '(len, data) ← ikcp_decode32u data;
    Some (mkHeader conv cmd frg wnd ts sn una len, data).

(** ** The header bytes in one piece *)

Definition header_bytes (s : Segment) : list Z :=
  le_bytes 4 (sg_conv s) ++ [u8 (sg_cmd s)] ++ [u8 (sg_frg s)] ++ le_bytes 2 (sg_wnd s) ++
  le_bytes 4 (sg_ts s) ++ le_bytes 4 (sg_sn s) ++ le_bytes 4 (sg_una s) ++
  le_bytes 4 (u32 (zlen (sg_data s))).

(** The header a receiver reads back from an encoded segment. *)
Definition header_of (s : Segment) : SegmentHeader :=
  mkHeader (sg_conv s) (sg_cmd s) (sg_frg s) (sg_wnd s) (sg_ts s) (sg_sn s) (sg_una s)
    (zlen (sg_data s)).

Lemma length_header_bytes s : length (header_bytes s) = OVERHEAD.
Proof. unfold header_bytes. rewrite !length_app, !length_le_bytes. reflexivity. Qed.

Lemma header_bytes_bytes s : bytes (header_bytes s).
Proof.
  unfold header_bytes, bytes.
  rewrite !Forall_app. split_and!; try apply le_bytes_bytes; repeat constructor; apply u8_range.
Qed.

(** [encode] writes exactly the header bytes when there is room, and panics
    otherwise. *)
Lemma encode_spec s w r snmp :
  (OVERHEAD <= length r)%nat ->
  encode s (w, r) snmp =
    Some ((w ++ header_bytes s, drop OVERHEAD r), snmp <| out_segs := fetch_add (out_segs snmp) 1 |>).
Proof.
  unfold OVERHEAD. intros Hr. unfold encode, ikcp_encode32u, ikcp_encode16u, ikcp_encode8u.
  repeat (rewrite write_bytes_ok by (rewrite ?length_drop, ?length_le_bytes; cbn [length]; lia);
          cbn [mbind option_bind]).
  rewrite !drop_drop, !length_le_bytes. unfold header_bytes. cbn [length].
  rewrite <- !app_assoc. reflexivity.
Qed.

Lemma encode_short s w r snmp : (length r < OVERHEAD)%nat -> encode s (w, r) snmp = None.
Proof.
  unfold OVERHEAD. intros Hr.
  destruct (encode s (w, r) snmp) as [[p' snmp']|] eqn:E; [exfalso|done].
  unfold encode, ikcp_encode32u, ikcp_encode16u, ikcp_encode8u in E.
  assert (Hlen : forall bs w r p, write_bytes bs (w, r) = Some p ->
            (length bs + length (snd p) = length r)%nat).
  { intros bs w0 r0 p Ep. unfold write_bytes in Ep.
    destruct (Nat.ltb_spec (length r0) (length bs)); [done|].
    injection Ep as <-. cbn. rewrite length_drop. lia. }
  repeat match type of E with
  | (write_bytes ?bs (?w, ?r) ≫= _) = _ =>
      let p := fresh "p" in let Ep := fresh "Ep" in
      destruct (write_bytes bs (w, r)) as [[? ?]|] eqn:Ep; [|done];
      apply Hlen in Ep; cbn [mbind option_bind] in E; cbn [snd] in Ep
  end.
  rewrite ?length_le_bytes in *. cbn [length] in *. lia.
Qed.

(** Reading an [n]-byte little-endian field that [le_bytes] wrote. *)
Lemma decode_field n z (rest : list Z) :
  le_val (take n (le_bytes n z ++ rest)) = z mod 256 ^ Z.of_nat n /\
  drop n (le_bytes n z ++ rest) = rest.
Proof.
  split.
  - rewrite take_app_length' by now rewrite length_le_bytes. apply le_val_le_bytes.
  - rewrite drop_app_length' by now rewrite length_le_bytes. done.
Qed.

Lemma decode32_le z rest :
  ikcp_decode32u (le_bytes 4 z ++ rest) = Some (u32 z, rest).
Proof.
  unfold ikcp_decode32u. rewrite length_app, length_le_bytes. cbn [Nat.ltb Nat.leb Nat.add].
  destruct (decode_field 4 z rest) as [-> ->]. reflexivity.
Qed.
Lemma decode16_le z rest :
  ikcp_decode16u (le_bytes 2 z ++ rest) = Some (u16 z, rest).
Proof.
  unfold ikcp_decode16u. rewrite length_app, length_le_bytes. cbn [Nat.ltb Nat.leb Nat.add].
  destruct (decode_field 2 z rest) as [-> ->]. reflexivity.
Qed.
Lemma decode8_byte z rest :
  ikcp_decode8u ([u8 z] ++ rest) = Some (u8 z, rest).
Proof.
  unfold ikcp_decode8u. cbn [length app Nat.ltb Nat.leb take drop le_val].
  now rewrite Z.mul_0_r, Z.add_0_r.
Qed.

(** Decoding an encoded header gives its fields back, and the payload after it. *)
Lemma decode_header_bytes s rest :
  wire_segment s -> decode (header_bytes s ++ rest) = Some (header_of s, rest).
Proof.
  intros (Hc & Hm & Hf & Hw & Ht & Hs & Hu & _ & Hl). unfold decode.
  rewrite length_app, length_header_bytes. cbn [Nat.ltb Nat.leb OVERHEAD Nat.add].
  unfold header_bytes. rewrite <- !app_assoc.
  repeat (first [rewrite decode32_le | rewrite decode8_byte | rewrite decode16_le];
          cbn [mbind option_bind]).
  rewrite u32_idem, !u32_id, !u8_id, !u16_id by assumption. reflexivity.
Qed.

Lemma decode_short data : (length data < OVERHEAD)%nat -> decode data = None.
Proof. intros. unfold decode. destruct (Nat.ltb_spec (length data) OVERHEAD); [done|lia]. Qed.

Lemma decode_long data : (OVERHEAD <= length data)%nat ->
  exists h, decode data = Some (h, drop OVERHEAD data).
Proof.
  unfold OVERHEAD. intros Hl. unfold decode, OVERHEAD.
  destruct (Nat.ltb_spec (length data) 24); [lia|].
  unfold ikcp_decode32u, ikcp_decode16u, ikcp_decode8u.
  repeat match goal with
  | |- context [if Nat.ltb (length ?d) ?n then _ else _] =>
      destruct (Nat.ltb_spec (length d) n);
        [rewrite ?length_drop in *; lia | cbn [mbind option_bind]]
  end.
  eexists. rewrite !drop_drop. reflexivity.
Qed.
