(* ===== verification/Queue.v ===== *)
(** * What KCP asks of its queues

    [kcp.rs] keeps [snd_queue], [rcv_queue] and [snd_buf] in [RingBuffer]s and
    only uses them as sequences.  This file states the sequence behaviour of
    each operation the way the KCP model uses it (a queue is the list of its
    elements, head first) and the class [QueueImpl] of data structures that
    provide it; [RingBuffer.v] discharges the class. *)
From S2P Require Import Prelude.

Section Queue.
Context {T : Type}.
Implicit Types (q : list T).

(** [push]: append at the tail. *)
Definition q_push (v : T) (q : list T) : list T := q ++ [v].

(** [pop]: remove the head. *)
Definition q_pop (q : list T) : option (T * list T) :=
  match q with
  | [] => None
  | x :: q => Some (x, q)
  end.

(** [for_each]: run the callback on each element, head to tail, until it
    returns [false].  The callback may change the element and its captured
    state [S]. *)
Fixpoint q_for_each {S : Type} (f : S -> T -> S * T * bool) (s : S) (q : list T) : S * list T :=
  match q with
  | [] => (s, [])
  | x :: q =>
      let '(s, x, go_on) := f s x in
      if go_on then
        let '(s, q) := q_for_each f s q in (s, x :: q)
      else (s, x :: q)
  end.

(** A [for] loop over a mutable iterator: every element is visited. *)
Fixpoint q_iter_mut {S : Type} (f : S -> T -> S * T) (s : S) (q : list T) : S * list T :=
  match q with
  | [] => (s, [])
  | x :: q =>
      let '(s, x) := f s x in
      let '(s, q) := q_iter_mut f s q in
      (s, x :: q)
  end.

(** [for x in q.iter_mut_from(skip)]: the first [skip] elements are not touched. *)
Definition q_iter_mut_from {S : Type} (skip : nat) (f : S -> T -> S * T) (s : S) (q : list T)
    : S * list T :=
  let '(s, q') := q_iter_mut f s (drop skip q) in (s, take skip q ++ q').

(** [for x in q.iter_mut_to(n)]: only the first [n] elements are visited. *)
Definition q_iter_mut_to {S : Type} (n : nat) (f : S -> T -> S * T) (s : S) (q : list T)
    : S * list T :=
  let '(s, q') := q_iter_mut f s (take n q) in (s, q' ++ drop n q).

Lemma q_iter_mut_app {S} (f : S -> T -> S * T) s q1 q2 :
  q_iter_mut f s (q1 ++ q2) =
    let '(s, q1') := q_iter_mut f s q1 in
    let '(s, q2') := q_iter_mut f s q2 in (s, q1' ++ q2').
Proof.
  revert s; induction q1 as [|x q1 IH]; intros s; cbn.
  - destruct (q_iter_mut f s q2); done.
  - destruct (f s x) as [s1 x1]. rewrite IH.
    destruct (q_iter_mut f s1 q1) as [s2 q1']. destruct (q_iter_mut f s2 q2). done.
Qed.

Lemma q_iter_mut_length {S} (f : S -> T -> S * T) s q :
  length (snd (q_iter_mut f s q)) = length q.
Proof.
  revert s; induction q as [|x q IH]; intros s; cbn; [done|].
  destruct (f s x) as [s1 x1]. specialize (IH s1). destruct (q_iter_mut f s1 q). cbn in *. lia.
Qed.

Lemma q_for_each_length {S} (f : S -> T -> S * T * bool) s q :
  length (snd (q_for_each f s q)) = length q.
Proof.
  revert s; induction q as [|x q IH]; intros s; cbn; [done|].
  destruct (f s x) as [[s1 x1] []]; [|done].
  specialize (IH s1). destruct (q_for_each f s1 q). cbn in *. lia.
Qed.

(** Running a callback that stops on [q1 ++ q2]: [q2] is reached only if no
    element of [q1] stopped it.  [q_stopped] tells which. *)
Fixpoint q_stopped {S : Type} (f : S -> T -> S * T * bool) (s : S) (q : list T) : bool :=
  match q with
  | [] => false
  | x :: q => let '(s, _, go_on) := f s x in if go_on then q_stopped f s q else true
  end.

Lemma q_for_each_app {S} (f : S -> T -> S * T * bool) s q1 q2 :
  q_for_each f s (q1 ++ q2) =
    let '(s1, q1') := q_for_each f s q1 in
    if q_stopped f s q1 then (s1, q1' ++ q2)
    else let '(s2, q2') := q_for_each f s1 q2 in (s2, q1' ++ q2').
Proof.
  revert s; induction q1 as [|x q1 IH]; intros s; cbn.
  - destruct (q_for_each f s q2); done.
  - destruct (f s x) as [[s1 x1] []]; [|done]. rewrite IH.
    destruct (q_for_each f s1 q1) as [s2 q1'].
    destruct (q_stopped f s1 q1); [done|]. destruct (q_for_each f s2 q2). done.
Qed.

(** A relation every visited element keeps to itself holds pointwise between
    the queue before and after. *)
Lemma q_iter_mut_Forall2 {S} (R : T -> T -> Prop) (f : S -> T -> S * T) s q :
  (forall s x, R x (snd (f s x))) -> Forall2 R q (snd (q_iter_mut f s q)).
Proof.
  intros HR. revert s; induction q as [|x q IH]; intros s; cbn; [done|].
  pose proof (HR s x) as Hx. destruct (f s x) as [s1 x1]. specialize (IH s1).
  destruct (q_iter_mut f s1 q). by constructor.
Qed.

Lemma q_for_each_Forall2 {S} (R : T -> T -> Prop) `{!Reflexive R} (f : S -> T -> S * T * bool) s q :
  (forall s x, R x (snd (fst (f s x)))) -> Forall2 R q (snd (q_for_each f s q)).
Proof.
  intros HR. revert s; induction q as [|x q IH]; intros s; cbn; [done|].
  pose proof (HR s x) as Hx. destruct (f s x) as [[s1 x1] []].
  - specialize (IH s1). destruct (q_for_each f s1 q). by constructor.
  - constructor; [done|]. reflexivity.
Qed.

Lemma q_iter_mut_to_Forall2 {S} (R : T -> T -> Prop) `{!Reflexive R} n (f : S -> T -> S * T) s q :
  (forall s x, R x (snd (f s x))) -> Forall2 R q (snd (q_iter_mut_to n f s q)).
Proof.
  intros HR. unfold q_iter_mut_to.
  pose proof (q_iter_mut_Forall2 R f s (take n q) HR) as Hq. destruct (q_iter_mut f s (take n q)).
  rewrite <- (take_drop n q) at 1. apply Forall2_app; [done|]. reflexivity.
Qed.

Lemma q_iter_mut_from_Forall2 {S} (R : T -> T -> Prop) `{!Reflexive R} n (f : S -> T -> S * T) s q :
  (forall s x, R x (snd (f s x))) -> Forall2 R q (snd (q_iter_mut_from n f s q)).
Proof.
  intros HR. unfold q_iter_mut_from.
  pose proof (q_iter_mut_Forall2 R f s (drop n q) HR) as Hq. destruct (q_iter_mut f s (drop n q)).
  rewrite <- (take_drop n q) at 1. apply Forall2_app; [|done]. reflexivity.
Qed.

Lemma alter_Forall2 (R : T -> T -> Prop) `{!Reflexive R} (f : T -> T) i q :
  (forall x, R x (f x)) -> Forall2 R q (alter f i q).
Proof.
  intros HR. revert i; induction q as [|x q IH]; intros [|i]; cbn; try done.
  - constructor; [done|]. reflexivity.
  - constructor; [done|]. apply IH.
Qed.

(** A flag the callback can only raise: if it stayed down, [R] held for every
    visited element. *)
Lemma q_for_each_flag {S} (flag : S -> bool) (R : T -> T -> Prop) `{!Reflexive R}
    (f : S -> T -> S * T * bool) s q :
  (forall s x, flag s = true -> flag (fst (fst (f s x))) = true) ->
  (forall s x, flag (fst (fst (f s x))) = false -> R x (snd (fst (f s x)))) ->
  flag (fst (q_for_each f s q)) = false -> Forall2 R q (snd (q_for_each f s q)).
Proof.
  intros Hup HR. revert s.
  assert (forall s q, flag s = true -> flag (fst (q_for_each f s q)) = true) as Hmono.
  { clear - Hup. intros s q. revert s; induction q as [|x q IH]; intros s Hs; cbn [q_for_each]; [done|].
    specialize (Hup s x Hs). destruct (f s x) as [[s1 x1] []]; [|done]. specialize (IH s1 Hup).
    by destruct (q_for_each f s1 q). }
  induction q as [|x q IH]; intros s; cbn [q_for_each]; [constructor|].
  specialize (HR s x). destruct (f s x) as [[s1 x1] go] eqn:Ef. cbn [fst snd] in *.
  destruct go.
  - specialize (IH s1). specialize (Hmono s1 q). destruct (q_for_each f s1 q) as [s2 q2]. cbn [fst snd] in *.
    intros Hfl. constructor; [|by apply IH]. apply HR. destruct (flag s1); [|done]. by rewrite Hmono in Hfl.
  - cbn [fst snd]. intros Hfl. constructor; [by apply HR|reflexivity].
Qed.

(** A property of the captured state and one of the elements, kept by every
    visit. *)
Lemma q_iter_mut_inv {S} (P : S -> Prop) (Q Q' : T -> Prop) (f : S -> T -> S * T) s q :
  (forall s x, P s -> Q x -> P (fst (f s x)) /\ Q' (snd (f s x))) ->
  P s -> Forall Q q -> P (fst (q_iter_mut f s q)) /\ Forall Q' (snd (q_iter_mut f s q)).
Proof.
  intros Hf HP HQ. revert s HP; induction HQ as [|x q Hx Hq IH]; intros s HP; cbn; [done|].
  destruct (Hf s x HP Hx) as [HP1 HQ1]. destruct (f s x) as [s1 x1]. cbn in HP1, HQ1.
  destruct (IH s1 HP1). destruct (q_iter_mut f s1 q). cbn in *. split; [done|by constructor].
Qed.
End Queue.

(** ** Implementations *)

(** A queue data structure [Q] of elements [T]: its well-formedness, the list
    it stands for, and for every operation the list operation it performs. *)
Class QueueImpl (T Q : Type) := {
  qi_wf : Q -> Prop;
  qi_list : Q -> list T;
  qi_new : nat -> Q;
  qi_push : Q -> T -> Q;
  qi_pop : Q -> option T * Q;
  qi_peek : Q -> option T;
  qi_discard : Q -> nat -> nat * Q;
  qi_clear : Q -> Q;
  qi_shrink_to : Q -> nat -> bool * Q;
  qi_len : Q -> nat;
  qi_get : Q -> nat -> option T;
  qi_alter : Q -> nat -> (T -> T) -> Q;
  qi_for_each : forall {S}, (S -> T -> S * T * bool) -> S -> Q -> S * Q;
  qi_iter_mut_to : forall {S}, nat -> (S -> T -> S * T) -> S -> Q -> S * Q;
  qi_iter_mut_from : forall {S}, nat -> (S -> T -> S * T) -> S -> Q -> S * Q;
  qi_new_spec : forall n, qi_wf (qi_new n) /\ qi_list (qi_new n) = [];
  qi_push_spec : forall q v, qi_wf q -> qi_wf (qi_push q v) /\ qi_list (qi_push q v) = q_push v (qi_list q);
  qi_pop_spec : forall q, qi_wf q ->
    match q_pop (qi_list q) with
    | None => qi_pop q = (None, q)
    | Some (x, l) => exists q', qi_pop q = (Some x, q') /\ qi_wf q' /\ qi_list q' = l
    end;
  qi_peek_spec : forall q, qi_wf q -> qi_peek q = head (qi_list q);
  qi_discard_spec : forall q n, qi_wf q ->
    exists q', qi_discard q n = (Nat.min n (length (qi_list q)), q') /\ qi_wf q' /\
      qi_list q' = drop n (qi_list q);
  qi_clear_spec : forall q, qi_wf q -> qi_wf (qi_clear q) /\ qi_list (qi_clear q) = [];
  qi_shrink_to_spec : forall q n, qi_wf q ->
    qi_wf (snd (qi_shrink_to q n)) /\ qi_list (snd (qi_shrink_to q n)) = qi_list q;
  qi_len_spec : forall q, qi_wf q -> qi_len q = length (qi_list q);
  qi_get_spec : forall q i, qi_wf q -> qi_get q i = qi_list q !! i;
  qi_alter_spec : forall q i f, qi_wf q ->
    qi_wf (qi_alter q i f) /\ qi_list (qi_alter q i f) = alter f i (qi_list q);
  qi_for_each_spec : forall S (f : S -> T -> S * T * bool) s q, qi_wf q ->
    qi_wf (snd (qi_for_each f s q)) /\
    (fst (qi_for_each f s q), qi_list (snd (qi_for_each f s q))) = q_for_each f s (qi_list q);
  qi_iter_mut_to_spec : forall S n (f : S -> T -> S * T) s q, qi_wf q ->
    qi_wf (snd (qi_iter_mut_to n f s q)) /\
    (fst (qi_iter_mut_to n f s q), qi_list (snd (qi_iter_mut_to n f s q))) =
      q_iter_mut_to n f s (qi_list q);
  qi_iter_mut_from_spec : forall S n (f : S -> T -> S * T) s q, qi_wf q ->
    qi_wf (snd (qi_iter_mut_from n f s q)) /\
    (fst (qi_iter_mut_from n f s q), qi_list (snd (qi_iter_mut_from n f s q))) =
      q_iter_mut_from n f s (qi_list q);
}.
