(* ===== verification/RingBuffer.v ===== *)
(** * [ringbuffer.rs]: the growable ring buffer

    The ring as the source has it (head, tail, backing array with one slot
    always empty), every operation, the invariant that vacated slots hold the
    default value, and the refinement of each operation to the list operation
    of [Queue.v]. *)
From S2P Require Import Prelude Queue.

(** The [T: Default] bound. *)
Class Default (T : Type) := default : T.

(** Minimum capacity, and the size from which the ring grows by 10 %. *)
Definition RINGBUFFER_MIN : nat := 8.
Definition RINGBUFFER_EXP : nat := 1024.

Record RingBuffer (T : Type) := mkRing {
  rb_head : nat;
  rb_tail : nat;
  rb_elements : list T;
}.
Arguments mkRing {T}.
Arguments rb_head {T}.
Arguments rb_tail {T}.
Arguments rb_elements {T}.

#[export] Instance eta_ring T : EtaRecord (RingBuffer T) := fun r =>
  mkRing (rb_head r) (rb_tail r) (rb_elements r).

Section Ring.
Context {T : Type} `{Default T}.
Implicit Types (r : RingBuffer T) (l : list T) (v : T).

(** ** Operations *)

(** [RingBuffer::new]. *)
Definition rb_new (size : nat) : RingBuffer T :=
  mkRing 0 0 (replicate (Nat.max size RINGBUFFER_MIN) default).

(** [len]. *)
Definition rb_len r : nat :=
  if rb_head r <=? rb_tail r then rb_tail r - rb_head r
  else length (rb_elements r) - rb_head r + rb_tail r.

(** [is_empty], [max_len], [is_full]. *)
Definition rb_is_empty r : bool := rb_head r =? rb_tail r.
Definition rb_max_len r : nat := length (rb_elements r) - 1.
Definition rb_is_full r : bool :=
  (rb_tail r + 1) mod length (rb_elements r) =? rb_head r.

(** [as_slices]: the elements as two slices, head to tail. *)
Definition rb_as_slices r : list T * list T :=
  if rb_head r <=? rb_tail r then
    (take (rb_tail r - rb_head r) (drop (rb_head r) (rb_elements r)), [])
  else (drop (rb_head r) (rb_elements r), take (rb_tail r) (rb_elements r)).

(** Writing back through [as_mut_slices]: the two slices replaced. *)
Definition rb_put_slices r (a b : list T) : RingBuffer T :=
  if rb_head r <=? rb_tail r then
    r <| rb_elements := take (rb_head r) (rb_elements r) ++ a ++ drop (rb_tail r) (rb_elements r) |>
  else
    r <| rb_elements :=
      b ++ take (rb_head r - rb_tail r) (drop (rb_tail r) (rb_elements r)) ++ a |>.

(** [grow]: a larger array with the elements moved to its front. *)
Definition rb_grow_size (current_size : nat) : nat :=
  if current_size <? RINGBUFFER_MIN then RINGBUFFER_MIN
  else if current_size <? RINGBUFFER_EXP then current_size * 2
  else current_size + (current_size + 9) / 10.

Definition rb_resize r (new_size : nat) : RingBuffer T :=
  let '(a, b) := rb_as_slices r in
  let moved := a ++ b in
  mkRing 0 (rb_len r) (moved ++ replicate (new_size - length moved) default).

Definition rb_grow r : RingBuffer T := rb_resize r (rb_grow_size (length (rb_elements r))).

(** [push]. *)
Definition rb_push r v : RingBuffer T :=
  let r := if rb_is_full r then rb_grow r else r in
  mkRing (rb_head r) ((rb_tail r + 1) mod length (rb_elements r)) (<[rb_tail r := v]> (rb_elements r)).

(** [pop]: the slot is reset to the default value. *)
Definition rb_pop r : option T * RingBuffer T :=
  if rb_is_empty r then (None, r)
  else
    (rb_elements r !! rb_head r,
     mkRing ((rb_head r + 1) mod length (rb_elements r)) (rb_tail r)
       (<[rb_head r := default]> (rb_elements r))).

(** [peek]. *)
Definition rb_peek r : option T :=
  if rb_is_empty r then None else rb_elements r !! rb_head r.

(** [peek_mut], then a write through the reference. *)
Definition rb_peek_mut r (f : T -> T) : RingBuffer T :=
  if rb_is_empty r then r else r <| rb_elements := alter f (rb_head r) (rb_elements r) |>.

(** [elements[lo..hi].fill_with(T::default)]. *)
Definition fill_default (lo hi : nat) l : list T :=
  take lo l ++ replicate (hi - lo) default ++ drop hi l.

(** [clear]: every slot reset, head and tail rewound, capacity kept. *)
Definition rb_clear r : RingBuffer T :=
  let els :=
    if rb_head r <=? rb_tail r then fill_default (rb_head r) (rb_tail r) (rb_elements r)
    else
      fill_default 0 (rb_tail r)
        (fill_default (rb_head r) (length (rb_elements r)) (rb_elements r)) in
  mkRing 0 0 els.

(** [discard]: up to [n] elements from the head; returns how many. *)
Definition rb_discard r (n : nat) : nat * RingBuffer T :=
  let current_len := rb_len r in
  let n := Nat.min n current_len in
  if n =? current_len then (n, rb_clear r)
  else
    let cap := length (rb_elements r) in
    let e := rb_head r + n in
    if e <? cap then
      (n, mkRing e (rb_tail r) (fill_default (rb_head r) e (rb_elements r)))
    else
      (n, mkRing (e - cap) (rb_tail r)
            (fill_default 0 (e - cap) (fill_default (rb_head r) cap (rb_elements r)))).

(** [shrink_to]: gives capacity back, never below what the ring holds. *)
Definition rb_shrink_to r (size : nat) : bool * RingBuffer T :=
  let new_size := Nat.max (Nat.max size RINGBUFFER_MIN) (rb_len r + 1) in
  if length (rb_elements r) <=? new_size then (false, r) else (true, rb_resize r new_size).

(** [get] and [get_mut]: the element [index] places after the head. *)
Definition rb_slot r (index : nat) : nat :=
  let i := rb_head r + index in
  if length (rb_elements r) <=? i then i - length (rb_elements r) else i.

Definition rb_get r (index : nat) : option T :=
  if rb_len r <=? index then None else rb_elements r !! rb_slot r index.

Definition rb_get_mut r (index : nat) (f : T -> T) : RingBuffer T :=
  if rb_len r <=? index then r
  else r <| rb_elements := alter f (rb_slot r index) (rb_elements r) |>.

(** [for_each] over [iter_mut]: the callback runs on the first slice, and on
    the second if it was not stopped there. *)
Definition rb_for_each {S} (f : S -> T -> S * T * bool) (s : S) r : S * RingBuffer T :=
  let '(a, b) := rb_as_slices r in
  let '(s1, a') := q_for_each f s a in
  if q_stopped f s a then (s1, rb_put_slices r a' b)
  else let '(s2, b') := q_for_each f s1 b in (s2, rb_put_slices r a' b').

(** [iter_mut_to]: the first [n] elements. *)
Definition rb_iter_mut_to {S} (n : nat) (f : S -> T -> S * T) (s : S) r : S * RingBuffer T :=
  let n := Nat.min n (rb_len r) in
  let '(a, b) := rb_as_slices r in
  if n <=? length a then
    let '(s, a') := q_iter_mut f s (take n a) in
    (s, rb_put_slices r (a' ++ drop n a) b)
  else
    let '(s, a') := q_iter_mut f s a in
    let '(s, b') := q_iter_mut f s (take (n - length a) b) in
    (s, rb_put_slices r a' (b' ++ drop (n - length a) b)).

(** [iter_mut_from]: the elements from the [skip]-th on. *)
Definition rb_iter_mut_from {S} (skip : nat) (f : S -> T -> S * T) (s : S) r : S * RingBuffer T :=
  let '(a, b) := rb_as_slices r in
  if skip <=? length a then
    let '(s, a') := q_iter_mut f s (drop skip a) in
    let '(s, b') := q_iter_mut f s b in
    (s, rb_put_slices r (take skip a ++ a') b')
  else
    let k := Nat.min (skip - length a) (length b) in
    let '(s, b') := q_iter_mut f s (drop k b) in
    (s, rb_put_slices r a (take k b ++ b')).

(** ** Invariant and abstraction *)

(** Head and tail are inside the array. *)
Definition rb_wf r : Prop :=
  RINGBUFFER_MIN <= length (rb_elements r) /\
  rb_head r < length (rb_elements r) /\ rb_tail r < length (rb_elements r).

(** Slot [j] of the array is between head and tail (circularly). *)
Definition rb_live r (j : nat) : Prop :=
  if rb_head r <=? rb_tail r then rb_head r <= j < rb_tail r
  else rb_head r <= j \/ j < rb_tail r.

(** Every slot outside the live range holds the default value: nothing that
    left the ring is retained by it. *)
Definition rb_vacated r : Prop :=
  forall j, j < length (rb_elements r) -> rb_live r j \/ rb_elements r !! j = Some default.

(** The elements from head to tail ([iter]). *)
Definition rb_list r : list T := let '(a, b) := rb_as_slices r in a ++ b.

(** ** Lookup characterisation *)

Lemma mod_step n c : n < c -> (n + 1) mod c = if n + 1 =? c then 0 else n + 1.
Proof.
  intros. destruct (Nat.eqb_spec (n + 1) c) as [->|].
  - apply Nat.Div0.mod_same.
  - apply Nat.mod_small. lia.
Qed.

Ltac ring_cases :=
  repeat match goal with
  | |- context [if ?a <=? ?b then _ else _] => destruct (Nat.leb_spec a b)
  | |- context [if ?a <? ?b then _ else _] => destruct (Nat.ltb_spec a b)
  | |- context [if ?a =? ?b then _ else _] => destruct (Nat.eqb_spec a b)
  | H : context [if ?a <=? ?b then _ else _] |- _ => destruct (Nat.leb_spec a b)
  | H : context [if ?a <? ?b then _ else _] |- _ => destruct (Nat.ltb_spec a b)
  | H : context [if ?a =? ?b then _ else _] |- _ => destruct (Nat.eqb_spec a b)
  end.

Lemma rb_len_lt r : rb_wf r -> rb_len r < length (rb_elements r).
Proof. intros (?&?&?). unfold rb_len. ring_cases; lia. Qed.

Lemma rb_slot_lt r i : rb_wf r -> i < length (rb_elements r) -> rb_slot r i < length (rb_elements r).
Proof. intros (?&?&?) ?. unfold rb_slot. ring_cases; lia. Qed.

Lemma rb_slot_inj r i j :
  rb_wf r -> i < length (rb_elements r) -> j < length (rb_elements r) ->
  rb_slot r i = rb_slot r j -> i = j.
Proof. intros (?&?&?) ? ?. unfold rb_slot. ring_cases; lia. Qed.

Lemma rb_slot_len r : rb_wf r -> rb_slot r (rb_len r) = rb_tail r.
Proof. intros (?&?&?). unfold rb_slot, rb_len. ring_cases; lia. Qed.

Lemma rb_slot_surj r j : rb_wf r -> j < length (rb_elements r) ->
  exists i, i < length (rb_elements r) /\ rb_slot r i = j.
Proof.
  intros (?&?&?) ?.
  exists (if rb_head r <=? j then j - rb_head r else length (rb_elements r) - rb_head r + j).
  unfold rb_slot. ring_cases; lia.
Qed.

Lemma rb_list_length r : rb_wf r -> length (rb_list r) = rb_len r.
Proof.
  intros (?&?&?). unfold rb_list, rb_as_slices, rb_len.
  ring_cases; rewrite length_app, ?length_take, ?length_drop; cbn [length]; lia.
Qed.

Lemma rb_list_lookup r i :
  rb_wf r -> i < rb_len r -> rb_list r !! i = rb_elements r !! rb_slot r i.
Proof.
  intros (?&?&?). unfold rb_list, rb_as_slices, rb_len, rb_slot. intros.
  destruct (Nat.leb_spec (rb_head r) (rb_tail r)).
  - rewrite app_nil_r. rewrite lookup_take_lt by lia. rewrite lookup_drop.
    ring_cases; [lia|done].
  - destruct (Nat.leb_spec (length (rb_elements r)) (rb_head r + i)).
    + rewrite lookup_app_r by (rewrite length_drop; lia).
      rewrite length_drop, lookup_take_lt by lia. f_equal. lia.
    + rewrite lookup_app_l by (rewrite length_drop; lia). by rewrite lookup_drop.
Qed.

(** Two rings stand for the same list when their slots agree. *)
Lemma rb_list_eq r l :
  rb_wf r -> length l = rb_len r ->
  (forall i, i < rb_len r -> rb_elements r !! rb_slot r i = l !! i) ->
  rb_list r = l.
Proof.
  intros Hwf Hlen Hi. apply list_eq. intros i.
  destruct (decide (i < rb_len r)).
  - by rewrite rb_list_lookup, Hi.
  - rewrite !lookup_ge_None_2; [done | lia | rewrite rb_list_length by done; lia].
Qed.

(** ** Each operation *)

Lemma rb_new_wf n : rb_wf (rb_new n).
Proof. unfold rb_wf, rb_new. cbn. rewrite length_replicate. unfold RINGBUFFER_MIN. lia. Qed.

Lemma rb_new_list n : rb_list (rb_new n) = [].
Proof. reflexivity. Qed.

Lemma rb_is_empty_spec r : rb_wf r -> rb_is_empty r = true <-> rb_list r = [].
Proof.
  intros Hwf. rewrite <- length_zero_iff_nil, rb_list_length by done.
  destruct Hwf as (?&?&?). unfold rb_is_empty, rb_len. ring_cases;
    destruct (Nat.eqb_spec (rb_head r) (rb_tail r)); split; intros; try done; lia.
Qed.

(** A ring is full exactly when only the always-empty slot is left. *)
Lemma rb_is_full_spec r : rb_wf r -> rb_is_full r = true <-> rb_len r = rb_max_len r.
Proof.
  intros (?&?&?). unfold rb_is_full, rb_max_len, rb_len. rewrite mod_step by lia.
  split; [intros Hb%Nat.eqb_eq; revert Hb|intros Hb; apply Nat.eqb_eq; revert Hb];
    ring_cases; lia.
Qed.

Lemma rb_resize_wf r n :
  rb_wf r -> RINGBUFFER_MIN <= n -> rb_len r < n -> rb_wf (rb_resize r n).
Proof.
  intros Hwf Hm Hn. pose proof (rb_list_length r Hwf) as Hl. unfold rb_list in Hl.
  unfold rb_resize. destruct (rb_as_slices r) as [a b].
  unfold rb_wf; cbn. rewrite length_app, length_replicate. lia.
Qed.

Lemma rb_resize_list r n : rb_wf r -> rb_len r < n -> rb_list (rb_resize r n) = rb_list r.
Proof.
  intros Hwf Hn. pose proof (rb_list_length r Hwf) as Hl.
  unfold rb_resize, rb_list in *. destruct (rb_as_slices r) as [a b].
  unfold rb_as_slices; cbn. rewrite Nat.sub_0_r, drop_0, app_nil_r.
  by rewrite take_app_length'.
Qed.

Lemma rb_resize_cap r n : rb_wf r -> rb_len r < n -> length (rb_elements (rb_resize r n)) = n.
Proof.
  intros Hwf Hn. pose proof (rb_list_length r Hwf) as Hl.
  unfold rb_resize, rb_list in *. destruct (rb_as_slices r) as [a b]. cbn.
  rewrite length_app, length_replicate. lia.
Qed.

Lemma rb_grow_size_gt n : RINGBUFFER_MIN <= n -> n < rb_grow_size n.
Proof.
  unfold RINGBUFFER_MIN, rb_grow_size, RINGBUFFER_MIN, RINGBUFFER_EXP. intros.
  ring_cases; [lia|lia|]. assert (1 <= (n + 9) / 10); [|lia].
  apply Nat.div_le_lower_bound; lia.
Qed.

(** What [push] does once there is room. *)
Lemma rb_push_room r v :
  rb_wf r -> rb_len r < rb_max_len r ->
  let r' := mkRing (rb_head r) ((rb_tail r + 1) mod length (rb_elements r))
              (<[rb_tail r := v]> (rb_elements r)) in
  rb_wf r' /\ rb_list r' = q_push v (rb_list r).
Proof.
  intros Hwf Hroom r'. pose proof Hwf as (?&?&?).
  assert (Hc : length (rb_elements r') = length (rb_elements r)) by apply length_insert.
  assert (Hlen : rb_len r' = S (rb_len r)).
  { revert Hroom. unfold rb_len, rb_max_len. rewrite Hc. subst r'; cbn.
    rewrite mod_step by lia. ring_cases; lia. }
  assert (Hwf' : rb_wf r').
  { unfold rb_wf. rewrite Hc. subst r'; cbn. rewrite mod_step by lia. ring_cases; lia. }
  split; [done|]. apply rb_list_eq; [done| |].
  - unfold q_push. rewrite length_app, rb_list_length, Hlen by done. cbn. lia.
  - intros i Hi. unfold q_push.
    assert (Hs : rb_slot r' i = rb_slot r i) by (unfold rb_slot; rewrite Hc; done).
    rewrite Hs. subst r'; cbn.
    pose proof (rb_len_lt r Hwf).
    destruct (decide (i = rb_len r)) as [->|].
    + rewrite rb_slot_len by done. rewrite list_lookup_insert_eq by lia.
      rewrite lookup_app_r by (rewrite rb_list_length by done; lia).
      rewrite rb_list_length, Nat.sub_diag by done. done.
    + rewrite list_lookup_insert_ne.
      * rewrite lookup_app_l by (rewrite rb_list_length by done; lia).
        by rewrite rb_list_lookup by (done || lia).
      * rewrite <- rb_slot_len by done. intros E. apply rb_slot_inj in E; [lia|done|lia|lia].
Qed.

Lemma rb_push_spec r v : rb_wf r -> rb_wf (rb_push r v) /\ rb_list (rb_push r v) = q_push v (rb_list r).
Proof.
  intros Hwf. pose proof (rb_len_lt r Hwf). pose proof Hwf as (?&?&?).
  unfold rb_push. destruct (rb_is_full r) eqn:E.
  - apply rb_is_full_spec in E; [|done].
    pose proof (rb_grow_size_gt (length (rb_elements r)) ltac:(lia)).
    assert (Hw' : rb_wf (rb_grow r)) by (apply rb_resize_wf; lia || done).
    assert (Hl' : rb_list (rb_grow r) = rb_list r) by (apply rb_resize_list; lia || done).
    rewrite <- Hl'. apply rb_push_room; [done|].
    unfold rb_max_len, rb_grow. rewrite rb_resize_cap by (done || lia).
    rewrite <- rb_list_length by done. fold (rb_grow r). rewrite Hl', rb_list_length by done. lia.
  - apply rb_push_room; [done|].
    assert (rb_len r <> rb_max_len r) by (intros F; apply rb_is_full_spec in F; congruence).
    unfold rb_max_len in *. lia.
Qed.

(** Dropping [n < len] elements from the head: the common part of [pop] and
    [discard]. *)
Lemma rb_advance_spec r n els :
  rb_wf r -> n <= rb_len r -> length els = length (rb_elements r) ->
  (forall i, n <= i < rb_len r -> els !! rb_slot r i = rb_elements r !! rb_slot r i) ->
  n < rb_len r \/ rb_slot r n = rb_tail r ->
  let r' := mkRing (rb_slot r n) (rb_tail r) els in
  rb_wf r' /\ rb_list r' = drop n (rb_list r).
Proof.
  intros Hwf Hn Hc Hels Hne r'. pose proof Hwf as (?&?&?). pose proof (rb_len_lt r Hwf).
  assert (Hlen : rb_len r' = rb_len r - n).
  { revert Hn Hne. unfold rb_len, rb_slot. subst r'; cbn. unfold rb_slot. rewrite Hc.
    ring_cases; lia. }
  assert (Hwf' : rb_wf r').
  { unfold rb_wf. subst r'; cbn. rewrite Hc. pose proof (rb_slot_lt r n Hwf). lia. }
  split; [done|]. apply rb_list_eq; [done| |].
  - rewrite length_drop, rb_list_length by done. lia.
  - intros i Hi. rewrite lookup_drop, rb_list_lookup by (done || lia).
    rewrite <- Hels by lia. f_equal. unfold rb_slot. subst r'; cbn. rewrite Hc.
    unfold rb_slot. ring_cases; lia.
Qed.

Lemma rb_pop_spec r : rb_wf r ->
  match q_pop (rb_list r) with
  | None => rb_pop r = (None, r)
  | Some (x, l) => exists r', rb_pop r = (Some x, r') /\ rb_wf r' /\ rb_list r' = l
  end.
Proof.
  intros Hwf. pose proof Hwf as (?&?&?). unfold rb_pop.
  destruct (rb_is_empty r) eqn:E.
  - apply rb_is_empty_spec in E; [|done]. by rewrite E.
  - destruct (rb_list r) as [|x l] eqn:El.
    { apply rb_is_empty_spec in El; [congruence|done]. }
    assert (Hlen : rb_len r = S (length l)) by (rewrite <- rb_list_length, El by done; done).
    assert (Hx : rb_elements r !! rb_head r = Some x).
    { pose proof (rb_list_lookup r 0 Hwf ltac:(lia)) as Hx0. rewrite El in Hx0. cbn in Hx0.
      rewrite Hx0. f_equal. unfold rb_slot. ring_cases; lia. }
    cbn [q_pop]. rewrite Hx. eexists. split; [done|].
    replace ((rb_head r + 1) mod length (rb_elements r)) with (rb_slot r 1)
      by (rewrite mod_step by lia; unfold rb_slot; ring_cases; lia).
    pose proof (rb_len_lt r Hwf).
    destruct (rb_advance_spec r 1 (<[rb_head r := default]> (rb_elements r))) as [? Hl'].
    + done. + lia. + by rewrite length_insert.
    + intros i Hi. rewrite list_lookup_insert_ne; [done|].
      assert (Hh : rb_slot r 0 = rb_head r) by (unfold rb_slot; ring_cases; lia).
      rewrite <- Hh. intros F. apply rb_slot_inj in F; lia || done.
    + destruct (decide (rb_len r = 1)) as [E1|]; [right|left; lia].
      rewrite <- E1. by apply rb_slot_len.
    + split; [done|]. rewrite Hl', El. done.
Qed.

Lemma rb_peek_spec r : rb_wf r -> rb_peek r = head (rb_list r).
Proof.
  intros Hwf. pose proof (rb_pop_spec r Hwf) as Hp. unfold rb_pop, rb_peek in *.
  destruct (rb_is_empty r).
  - destruct (rb_list r); [done|]. destruct Hp as (?&Hp&_). discriminate.
  - destruct (rb_list r); [exact (f_equal fst Hp)|]. destruct Hp as (?&Hp&_). exact (f_equal fst Hp).
Qed.

Lemma length_fill_default lo hi l :
  lo <= hi -> hi <= length l -> length (fill_default lo hi l) = length l.
Proof.
  intros. unfold fill_default. rewrite !length_app, length_take, length_replicate, length_drop. lia.
Qed.

Lemma lookup_fill_default lo hi l i :
  lo <= hi -> hi <= length l ->
  fill_default lo hi l !! i =
    if lo <=? i then if i <? hi then Some default else l !! i else l !! i.
Proof.
  intros. unfold fill_default.
  destruct (Nat.leb_spec lo i).
  - rewrite lookup_app_r by (rewrite length_take; lia). rewrite length_take, Nat.min_l by lia.
    destruct (Nat.ltb_spec i hi).
    + rewrite lookup_app_l by (rewrite length_replicate; lia). apply lookup_replicate_2. lia.
    + rewrite lookup_app_r by (rewrite length_replicate; lia).
      rewrite length_replicate, lookup_drop. f_equal. lia.
  - rewrite lookup_app_l by (rewrite length_take; lia). apply lookup_take_lt. lia.
Qed.

Lemma rb_clear_spec r : rb_wf r -> rb_wf (rb_clear r) /\ rb_list (rb_clear r) = [].
Proof.
  intros (?&?&?). unfold rb_clear, rb_wf, rb_list, rb_as_slices. cbn.
  split; [|done].
  ring_cases; rewrite !length_fill_default; rewrite ?length_fill_default; lia.
Qed.

Lemma rb_discard_spec r n : rb_wf r ->
  exists r', rb_discard r n = (Nat.min n (length (rb_list r)), r') /\ rb_wf r' /\
    rb_list r' = drop n (rb_list r).
Proof.
  intros Hwf. pose proof Hwf as (?&?&?). pose proof (rb_len_lt r Hwf). unfold rb_discard.
  rewrite rb_list_length by done.
  destruct (Nat.eqb_spec (Nat.min n (rb_len r)) (rb_len r)) as [E|E].
  - destruct (rb_clear_spec r Hwf) as [Hw Hl]. eexists. split_and!; [done..|].
    rewrite Hl, drop_ge; [done|]. rewrite rb_list_length by done. lia.
  - replace (Nat.min n (rb_len r)) with n by lia.
    assert (Hel : forall els, length els = length (rb_elements r) ->
      (forall i, n <= i < rb_len r -> els !! rb_slot r i = rb_elements r !! rb_slot r i) ->
      rb_wf (mkRing (rb_slot r n) (rb_tail r) els) /\
      rb_list (mkRing (rb_slot r n) (rb_tail r) els) = drop n (rb_list r))
      by (intros; apply rb_advance_spec; [done|lia|done|done|left; lia]).
    unfold rb_slot in Hel at 3 4.
    destruct (Nat.ltb_spec (rb_head r + n) (length (rb_elements r))) as [Hlt|Hge];
      destruct (Nat.leb_spec (length (rb_elements r)) (rb_head r + n)); try lia;
      (eexists; split; [reflexivity|]); apply Hel; clear Hel;
      rewrite ?length_fill_default by (rewrite ?length_fill_default; lia); try done.
    + intros i Hi. rewrite lookup_fill_default by lia.
      unfold rb_slot, rb_len in *. ring_cases; done || lia.
    + intros i Hi. rewrite !lookup_fill_default by (rewrite ?length_fill_default; lia).
      unfold rb_slot, rb_len in *. ring_cases; done || lia.
Qed.

Lemma rb_shrink_to_spec r n : rb_wf r ->
  rb_wf (snd (rb_shrink_to r n)) /\ rb_list (snd (rb_shrink_to r n)) = rb_list r.
Proof.
  intros Hwf. unfold rb_shrink_to. ring_cases; cbn; [done|].
  split; [apply rb_resize_wf | apply rb_resize_list]; lia || done.
Qed.

Lemma rb_get_spec r i : rb_wf r -> rb_get r i = rb_list r !! i.
Proof.
  intros Hwf. unfold rb_get. destruct (Nat.leb_spec (rb_len r) i).
  - by rewrite lookup_ge_None_2 by (rewrite rb_list_length by done; lia).
  - by rewrite rb_list_lookup.
Qed.

(** Rewriting the array in place, head and tail kept. *)
Lemma rb_update_list r els l :
  rb_wf r -> length els = length (rb_elements r) -> length l = rb_len r ->
  (forall i, i < rb_len r -> els !! rb_slot r i = l !! i) ->
  rb_wf (r <| rb_elements := els |>) /\ rb_list (r <| rb_elements := els |>) = l.
Proof.
  intros Hwf Hc Hl Hi. set (r' := r <| rb_elements := els |>).
  assert (Hlen : rb_len r' = rb_len r) by (unfold rb_len, r'; cbn; rewrite Hc; done).
  assert (Hwf' : rb_wf r') by (unfold rb_wf, r' in *; cbn; rewrite Hc; done).
  split; [done|]. apply rb_list_eq; [done|lia|]. intros i Hlt. rewrite Hlen in Hlt.
  rewrite <- Hi by done. unfold rb_slot, r'. cbn. by rewrite Hc.
Qed.

Lemma rb_get_mut_spec r i f : rb_wf r ->
  rb_wf (rb_get_mut r i f) /\ rb_list (rb_get_mut r i f) = alter f i (rb_list r).
Proof.
  intros Hwf. pose proof (rb_len_lt r Hwf). unfold rb_get_mut.
  destruct (Nat.leb_spec (rb_len r) i).
  - split; [done|]. rewrite alter_past_end; [done|]. rewrite rb_list_length by done; lia.
  - apply rb_update_list; [done | by rewrite length_alter | by rewrite length_alter, rb_list_length |].
    intros j Hj. destruct (decide (i = j)) as [<-|Hne].
    + rewrite !list_lookup_alter_eq. by rewrite rb_list_lookup.
    + rewrite !list_lookup_alter_ne; [by rewrite rb_list_lookup|done|].
      intros E. apply rb_slot_inj in E; lia || done.
Qed.

(** Writing slices of the same lengths back. *)
Lemma rb_put_slices_spec r a b a' b' :
  rb_wf r -> rb_as_slices r = (a, b) -> length a' = length a -> length b' = length b ->
  rb_wf (rb_put_slices r a' b') /\ rb_list (rb_put_slices r a' b') = a' ++ b'.
Proof.
  intros Hwf Hs Ha Hb. pose proof Hwf as (?&?&?).
  unfold rb_put_slices, rb_wf, rb_list, rb_as_slices in *. cbn.
  destruct (Nat.leb_spec (rb_head r) (rb_tail r)); cbn;
    injection Hs as <- <-; rewrite ?length_take, ?length_drop in *; cbn [length] in *.
  - destruct b'; [|discriminate]. rewrite !length_app, length_take, length_drop.
    destruct (Nat.leb_spec (rb_head r) (rb_tail r)); [|lia].
    split; [lia|]. rewrite app_nil_r. rewrite drop_app_length' by (rewrite length_take; lia).
    by rewrite take_app_length', app_nil_r by lia.
  - rewrite !length_app, length_take, length_drop.
    destruct (Nat.leb_spec (rb_head r) (rb_tail r)); [lia|].
    split; [lia|]. f_equal.
    + rewrite drop_app_ge, drop_app_ge; rewrite ?length_take, ?length_drop; [|lia..].
      replace (_ - _ - _) with 0 by lia. done.
    + rewrite take_app_length'; [done|lia].
Qed.

Lemma rb_for_each_spec S (f : S -> T -> S * T * bool) s r : rb_wf r ->
  rb_wf (snd (rb_for_each f s r)) /\
  (fst (rb_for_each f s r), rb_list (snd (rb_for_each f s r))) = q_for_each f s (rb_list r).
Proof.
  intros Hwf. unfold rb_for_each.
  destruct (rb_as_slices r) as [a b] eqn:Es.
  assert (El : rb_list r = a ++ b) by (unfold rb_list; by rewrite Es).
  rewrite El, q_for_each_app.
  pose proof (q_for_each_length f s a) as La.
  destruct (q_for_each f s a) as [s1 a'].
  destruct (q_stopped f s a).
  - cbn. destruct (rb_put_slices_spec r a b a' b) as [? ->]; done.
  - pose proof (q_for_each_length f s1 b) as Lb.
    destruct (q_for_each f s1 b) as [s2 b'].
    cbn. destruct (rb_put_slices_spec r a b a' b') as [? ->]; done.
Qed.

Lemma rb_iter_mut_to_spec S n (f : S -> T -> S * T) s r : rb_wf r ->
  rb_wf (snd (rb_iter_mut_to n f s r)) /\
  (fst (rb_iter_mut_to n f s r), rb_list (snd (rb_iter_mut_to n f s r))) =
    q_iter_mut_to n f s (rb_list r).
Proof.
  intros Hwf. unfold rb_iter_mut_to, q_iter_mut_to.
  rewrite <- (rb_list_length r) by done.
  destruct (rb_as_slices r) as [a b] eqn:Es.
  assert (El : rb_list r = a ++ b) by (unfold rb_list; by rewrite Es).
  rewrite El.
  assert (Ht : take n (a ++ b) = take (Nat.min n (length (a ++ b))) (a ++ b))
    by (destruct (Nat.min_spec n (length (a ++ b))) as [[? ->]|[? ->]];
        [done | by rewrite !take_ge by lia]).
  assert (Hd : drop n (a ++ b) = drop (Nat.min n (length (a ++ b))) (a ++ b))
    by (destruct (Nat.min_spec n (length (a ++ b))) as [[? ->]|[? ->]];
        [done | by rewrite !drop_ge by lia]).
  rewrite Ht, Hd. set (m := Nat.min n (length (a ++ b))).
  assert (Hm : m <= length a + length b) by (subst m; rewrite length_app; lia).
  clearbody m. clear Ht Hd.
  destruct (Nat.leb_spec m (length a)).
  - rewrite take_app_le, drop_app_le by lia.
    pose proof (q_iter_mut_length f s (take m a)) as La.
    destruct (q_iter_mut f s (take m a)) as [s1 a'] eqn:E. cbn in La |- *.
    destruct (rb_put_slices_spec r a b (a' ++ drop m a) b) as [? ->]; try done.
    + rewrite length_app, length_drop, La, length_take. lia.
    + by rewrite <- app_assoc.
  - rewrite take_app_ge, drop_app_ge, q_iter_mut_app by lia.
    pose proof (q_iter_mut_length f s a) as La. destruct (q_iter_mut f s a) as [s1 a'].
    pose proof (q_iter_mut_length f s1 (take (m - length a) b)) as Lb.
    destruct (q_iter_mut f s1 (take (m - length a) b)) as [s2 b']. cbn in La, Lb |- *.
    destruct (rb_put_slices_spec r a b a' (b' ++ drop (m - length a) b)) as [? ->]; try done.
    + rewrite length_app, length_drop, Lb, length_take. lia.
    + by rewrite <- app_assoc.
Qed.

Lemma rb_iter_mut_from_spec S n (f : S -> T -> S * T) s r : rb_wf r ->
  rb_wf (snd (rb_iter_mut_from n f s r)) /\
  (fst (rb_iter_mut_from n f s r), rb_list (snd (rb_iter_mut_from n f s r))) =
    q_iter_mut_from n f s (rb_list r).
Proof.
  intros Hwf. unfold rb_iter_mut_from, q_iter_mut_from.
  destruct (rb_as_slices r) as [a b] eqn:Es.
  assert (El : rb_list r = a ++ b) by (unfold rb_list; by rewrite Es).
  rewrite El.
  destruct (Nat.leb_spec n (length a)).
  - rewrite drop_app_le, take_app_le, q_iter_mut_app by lia.
    pose proof (q_iter_mut_length f s (drop n a)) as La.
    destruct (q_iter_mut f s (drop n a)) as [s1 a'].
    pose proof (q_iter_mut_length f s1 b) as Lb.
    destruct (q_iter_mut f s1 b) as [s2 b']. cbn in La, Lb |- *.
    destruct (rb_put_slices_spec r a b (take n a ++ a') b') as [? ->]; try done.
    + rewrite length_app, length_take, La, length_drop. lia.
    + by rewrite <- app_assoc.
  - set (k := Nat.min (n - length a) (length b)).
    assert (Hd : drop n (a ++ b) = drop k b).
    { rewrite drop_app_ge by lia. subst k.
      destruct (Nat.min_spec (n - length a) (length b)) as [[? ->]|[? ->]];
        [done | by rewrite !drop_ge by lia]. }
    assert (Ht : take n (a ++ b) = a ++ take k b).
    { rewrite take_app_ge by lia. subst k.
      destruct (Nat.min_spec (n - length a) (length b)) as [[? ->]|[? ->]];
        [done | by rewrite !take_ge by lia]. }
    rewrite Hd, Ht.
    pose proof (q_iter_mut_length f s (drop k b)) as Lb.
    destruct (q_iter_mut f s (drop k b)) as [s1 b']. cbn in Lb |- *.
    destruct (rb_put_slices_spec r a b a (take k b ++ b')) as [? ->]; try done.
    + rewrite length_app, length_take, Lb, length_drop. lia.
    + by rewrite <- app_assoc.
Qed.

(** ** Vacated slots *)

Lemma rb_new_vacated n : rb_vacated (rb_new n).
Proof.
  intros j Hj. right. unfold rb_new in *; cbn in *. rewrite length_replicate in Hj.
  by apply lookup_replicate_2.
Qed.

Lemma rb_resize_vacated r n : rb_wf r -> rb_len r < n -> rb_vacated (rb_resize r n).
Proof.
  intros Hwf Hn. pose proof (rb_list_length r Hwf) as Hl.
  unfold rb_resize, rb_list in *. destruct (rb_as_slices r) as [a b].
  intros j. unfold rb_live; cbn. rewrite length_app, length_replicate. intros Hj.
  destruct (decide (j < rb_len r)); [left; lia|right].
  rewrite lookup_app_r by lia. apply lookup_replicate_2. lia.
Qed.

Lemma rb_push_vacated r v : rb_wf r -> rb_vacated r -> rb_vacated (rb_push r v).
Proof.
  intros Hwf Hv. unfold rb_push.
  assert (Hg : forall r, rb_wf r -> rb_vacated r -> rb_len r < rb_max_len r ->
    rb_vacated (mkRing (rb_head r) ((rb_tail r + 1) mod length (rb_elements r))
                  (<[rb_tail r := v]> (rb_elements r)))).
  { clear. intros r (?&?&?) Hv Hroom j. cbn. rewrite length_insert. intros Hj.
    destruct (decide (j = rb_tail r)) as [->|Hne].
    - left. revert Hroom. unfold rb_live, rb_len, rb_max_len; cbn.
      rewrite mod_step by lia. ring_cases; lia.
    - rewrite list_lookup_insert_ne by done. destruct (Hv j Hj) as [Hl|]; [left|by right].
      revert Hl Hroom. unfold rb_live, rb_len, rb_max_len; cbn.
      rewrite mod_step by lia. ring_cases; lia. }
  pose proof (rb_len_lt r Hwf). pose proof Hwf as (?&?&?).
  destruct (rb_is_full r) eqn:E.
  - apply rb_is_full_spec in E; [|done].
    pose proof (rb_grow_size_gt (length (rb_elements r)) ltac:(lia)).
    assert (Hw' : rb_wf (rb_grow r)) by (apply rb_resize_wf; lia || done).
    apply Hg; [done | apply rb_resize_vacated; lia || done |].
    unfold rb_max_len. rewrite <- rb_list_length by done.
    unfold rb_grow at 1. rewrite rb_resize_list, rb_list_length by (done || lia).
    unfold rb_grow. rewrite rb_resize_cap by (done || lia). lia.
  - apply Hg; [done..|].
    assert (rb_len r <> rb_max_len r) by (intros F; apply rb_is_full_spec in F; congruence).
    unfold rb_max_len in *. lia.
Qed.

Lemma rb_pop_vacated r : rb_wf r -> rb_vacated r -> rb_vacated (snd (rb_pop r)).
Proof.
  intros (?&?&?) Hv. unfold rb_pop, rb_is_empty. ring_cases; [done|].
  intros j. cbn. rewrite length_insert. intros Hj.
  destruct (decide (j = rb_head r)) as [->|Hne].
  - right. by apply list_lookup_insert_eq.
  - rewrite list_lookup_insert_ne by done. destruct (Hv j Hj) as [Hl|]; [left|by right].
    revert Hl. unfold rb_live; cbn. rewrite mod_step by lia. ring_cases; lia.
Qed.

Lemma rb_clear_vacated r : rb_wf r -> rb_vacated r -> rb_vacated (rb_clear r).
Proof.
  intros (?&?&?) Hv j. unfold rb_clear; cbn. intros Hj. right.
  specialize (Hv j). unfold rb_live in Hv.
  destruct (Nat.leb_spec (rb_head r) (rb_tail r));
    rewrite ?length_fill_default in Hj by (rewrite ?length_fill_default; lia);
    rewrite !lookup_fill_default by (rewrite ?length_fill_default; lia);
    ring_cases; try done; destruct Hv; done || lia.
Qed.

Lemma rb_discard_vacated r n : rb_wf r -> rb_vacated r -> rb_vacated (snd (rb_discard r n)).
Proof.
  intros Hwf Hv. pose proof Hwf as (?&?&?). unfold rb_discard.
  destruct (Nat.eqb_spec (Nat.min n (rb_len r)) (rb_len r)) as [E|E];
    [by apply rb_clear_vacated|].
  replace (Nat.min n (rb_len r)) with n by lia.
  assert (Hn : n < rb_len r) by lia. clear E. unfold rb_len in Hn.
  destruct (Nat.ltb_spec (rb_head r + n) (length (rb_elements r)));
    intros j; cbn; rewrite ?length_fill_default by (rewrite ?length_fill_default; revert Hn; ring_cases; lia);
    intros Hj; specialize (Hv j Hj); revert Hv Hn; unfold rb_live; cbn; intros Hv Hn.
  - rewrite lookup_fill_default by lia. ring_cases; destruct Hv; auto; lia.
  - destruct (Nat.leb_spec (rb_head r) (rb_tail r)); [lia|].
    rewrite !lookup_fill_default by (rewrite ?length_fill_default; lia).
    ring_cases; destruct Hv; auto; lia.
Qed.

Lemma rb_shrink_to_vacated r n : rb_wf r -> rb_vacated r -> rb_vacated (snd (rb_shrink_to r n)).
Proof.
  intros Hwf Hv. unfold rb_shrink_to. ring_cases; [done|].
  apply rb_resize_vacated; done || lia.
Qed.

(** Writes to live slots. *)
Lemma rb_get_mut_vacated r i f : rb_wf r -> rb_vacated r -> rb_vacated (rb_get_mut r i f).
Proof.
  intros Hwf Hv. pose proof (rb_len_lt r Hwf). pose proof Hwf as (?&?&?). unfold rb_get_mut.
  destruct (Nat.leb_spec (rb_len r) i) as [|Hi]; [done|].
  intros j. cbn. rewrite length_alter. intros Hj. destruct (Hv j Hj) as [Hl|Hd]; [by left|].
  destruct (decide (j = rb_slot r i)) as [->|Hne]; [left|right; by rewrite list_lookup_alter_ne].
  revert Hi. unfold rb_live, rb_slot, rb_len. cbn. ring_cases; lia.
Qed.

Lemma rb_put_slices_vacated r a b a' b' :
  rb_wf r -> rb_vacated r -> rb_as_slices r = (a, b) -> length a' = length a -> length b' = length b ->
  rb_vacated (rb_put_slices r a' b').
Proof.
  intros (?&?&?) Hv Hs Ha Hb. unfold rb_as_slices, rb_put_slices in *.
  intros j. specialize (Hv j). unfold rb_live in *.
  destruct (Nat.leb_spec (rb_head r) (rb_tail r)) as [Hle|Hgt]; cbn; injection Hs as <- <-;
    rewrite ?length_app, ?length_take, ?length_drop in *; cbn [length] in *; intros Hj;
    (destruct Hv as [|Hd]; [lia|left|]);
    destruct (Nat.leb_spec (rb_head r) (rb_tail r)); try lia.
  - destruct (decide (j < rb_head r)).
    + right. rewrite lookup_app_l, lookup_take_lt by (rewrite ?length_take; lia). done.
    + destruct (decide (j < rb_tail r)); [left; lia|right].
      rewrite lookup_app_r, lookup_app_r, lookup_drop by (rewrite ?length_take; lia).
      rewrite length_take, <- Hd. f_equal. lia.
  - destruct (decide (j < rb_tail r)); [left; lia|]. destruct (decide (rb_head r <= j)); [left; lia|right].
    rewrite lookup_app_r, lookup_app_l, lookup_take_lt, lookup_drop
      by (rewrite ?length_take, ?length_drop; lia).
    rewrite <- Hd. f_equal. lia.
Qed.

Lemma rb_for_each_vacated S (f : S -> T -> S * T * bool) s r :
  rb_wf r -> rb_vacated r -> rb_vacated (snd (rb_for_each f s r)).
Proof.
  intros Hwf Hv. unfold rb_for_each. destruct (rb_as_slices r) as [a b] eqn:Es.
  pose proof (q_for_each_length f s a) as La. destruct (q_for_each f s a) as [s1 a'].
  destruct (q_stopped f s a); [by apply (rb_put_slices_vacated r a b)|].
  pose proof (q_for_each_length f s1 b) as Lb. destruct (q_for_each f s1 b) as [s2 b'].
  by apply (rb_put_slices_vacated r a b).
Qed.

Lemma rb_iter_mut_to_vacated S n (f : S -> T -> S * T) s r :
  rb_wf r -> rb_vacated r -> rb_vacated (snd (rb_iter_mut_to n f s r)).
Proof.
  intros Hwf Hv. unfold rb_iter_mut_to. destruct (rb_as_slices r) as [a b] eqn:Es.
  set (m := Nat.min n (rb_len r)). destruct (Nat.leb_spec m (length a)).
  - pose proof (q_iter_mut_length f s (take m a)) as La. destruct (q_iter_mut f s (take m a)) as [s1 a'].
    apply (rb_put_slices_vacated r a b); try done.
    rewrite length_app, length_drop. cbn in La. rewrite La, length_take. lia.
  - pose proof (q_iter_mut_length f s a) as La. destruct (q_iter_mut f s a) as [s1 a'].
    pose proof (q_iter_mut_length f s1 (take (m - length a) b)) as Lb.
    destruct (q_iter_mut f s1 (take (m - length a) b)) as [s2 b'].
    apply (rb_put_slices_vacated r a b); try done.
    rewrite length_app, length_drop. cbn in Lb. rewrite Lb, length_take. lia.
Qed.

Lemma rb_iter_mut_from_vacated S n (f : S -> T -> S * T) s r :
  rb_wf r -> rb_vacated r -> rb_vacated (snd (rb_iter_mut_from n f s r)).
Proof.
  intros Hwf Hv. unfold rb_iter_mut_from. destruct (rb_as_slices r) as [a b] eqn:Es.
  destruct (Nat.leb_spec n (length a)).
  - pose proof (q_iter_mut_length f s (drop n a)) as La. destruct (q_iter_mut f s (drop n a)) as [s1 a'].
    pose proof (q_iter_mut_length f s1 b) as Lb. destruct (q_iter_mut f s1 b) as [s2 b'].
    apply (rb_put_slices_vacated r a b); try done.
    rewrite length_app, length_take. cbn in La. rewrite La, length_drop. lia.
  - set (k := Nat.min (n - length a) (length b)).
    pose proof (q_iter_mut_length f s (drop k b)) as Lb. destruct (q_iter_mut f s (drop k b)) as [s2 b'].
    apply (rb_put_slices_vacated r a b); try done.
    rewrite length_app, length_take. cbn in Lb. rewrite Lb, length_drop. lia.
Qed.

(** ** The ring implements KCP's queue interface *)

#[export] Program Instance ring_queue : QueueImpl T (RingBuffer T) := {
  qi_wf := rb_wf;
  qi_list := rb_list;
  qi_new := rb_new;
  qi_push := rb_push;
  qi_pop := rb_pop;
  qi_peek := rb_peek;
  qi_discard := rb_discard;
  qi_clear := rb_clear;
  qi_shrink_to := rb_shrink_to;
  qi_len := rb_len;
  qi_get := rb_get;
  qi_alter := rb_get_mut;
  qi_for_each _ := rb_for_each;
  qi_iter_mut_to _ := rb_iter_mut_to;
  qi_iter_mut_from _ := rb_iter_mut_from;
  qi_push_spec := rb_push_spec;
  qi_pop_spec := rb_pop_spec;
  qi_peek_spec := rb_peek_spec;
  qi_discard_spec := rb_discard_spec;
  qi_clear_spec := rb_clear_spec;
  qi_shrink_to_spec := rb_shrink_to_spec;
  qi_get_spec := rb_get_spec;
  qi_alter_spec := rb_get_mut_spec;
  qi_for_each_spec := rb_for_each_spec;
  qi_iter_mut_to_spec := rb_iter_mut_to_spec;
  qi_iter_mut_from_spec := rb_iter_mut_from_spec;
}.
Next Obligation. intros. split; [apply rb_new_wf | apply rb_new_list]. Qed.
Next Obligation. intros. symmetry. by apply rb_list_length. Qed.

(** ** Whole runs

    The operations as data, with what each one returns. *)

Inductive ring_op :=
| OpPush (v : T)
| OpPop
| OpPeek
| OpDiscard (n : nat)
| OpClear
| OpShrinkTo (size : nat)
| OpLen
| OpGet (index : nat)
| OpGetMut (index : nat) (f : T -> T)
| OpForEach (f : T -> T * bool)
| OpIterMutTo (n : nat) (f : T -> T)
| OpIterMutFrom (skip : nat) (f : T -> T).

Inductive ring_obs :=
| ObsUnit
| ObsElem (v : option T)
| ObsNat (n : nat).

Definition ring_step (op : ring_op) r : ring_obs * RingBuffer T :=
  match op with
  | OpPush v => (ObsUnit, rb_push r v)
  | OpPop => let '(v, r) := rb_pop r in (ObsElem v, r)
  | OpPeek => (ObsElem (rb_peek r), r)
  | OpDiscard n => let '(k, r) := rb_discard r n in (ObsNat k, r)
  | OpClear => (ObsUnit, rb_clear r)
  | OpShrinkTo n => (ObsUnit, snd (rb_shrink_to r n))
  | OpLen => (ObsNat (rb_len r), r)
  | OpGet i => (ObsElem (rb_get r i), r)
  | OpGetMut i f => (ObsUnit, rb_get_mut r i f)
  | OpForEach f => (ObsUnit, snd (rb_for_each (fun _ x => let '(x, b) := f x in (tt, x, b)) tt r))
  | OpIterMutTo n f => (ObsUnit, snd (rb_iter_mut_to n (fun _ x => (tt, f x)) tt r))
  | OpIterMutFrom n f => (ObsUnit, snd (rb_iter_mut_from n (fun _ x => (tt, f x)) tt r))
  end.

Definition list_step (op : ring_op) l : ring_obs * list T :=
  match op with
  | OpPush v => (ObsUnit, q_push v l)
  | OpPop => match q_pop l with Some (x, l) => (ObsElem (Some x), l) | None => (ObsElem None, []) end
  | OpPeek => (ObsElem (head l), l)
  | OpDiscard n => (ObsNat (Nat.min n (length l)), drop n l)
  | OpClear => (ObsUnit, [])
  | OpShrinkTo _ => (ObsUnit, l)
  | OpLen => (ObsNat (length l), l)
  | OpGet i => (ObsElem (l !! i), l)
  | OpGetMut i f => (ObsUnit, alter f i l)
  | OpForEach f => (ObsUnit, snd (q_for_each (fun _ x => let '(x, b) := f x in (tt, x, b)) tt l))
  | OpIterMutTo n f => (ObsUnit, snd (q_iter_mut_to n (fun _ x => (tt, f x)) tt l))
  | OpIterMutFrom n f => (ObsUnit, snd (q_iter_mut_from n (fun _ x => (tt, f x)) tt l))
  end.

Fixpoint run_ops {Q : Type} (step : ring_op -> Q -> ring_obs * Q) (ops : list ring_op) (q : Q)
    : list ring_obs * Q :=
  match ops with
  | [] => ([], q)
  | op :: ops =>
      let '(o, q) := step op q in
      let '(os, q) := run_ops step ops q in (o :: os, q)
  end.

Lemma ring_step_refines op r : rb_wf r ->
  rb_wf (snd (ring_step op r)) /\
  list_step op (rb_list r) = (fst (ring_step op r), rb_list (snd (ring_step op r))).
Proof.
  intros Hwf. destruct op as [v| | |n| |n| |i|i f|f|n f|n f]; cbn [ring_step list_step fst snd].
  - destruct (rb_push_spec r v Hwf) as [? ->]. done.
  - pose proof (rb_pop_spec r Hwf) as Hp. destruct (rb_list r) as [|x l] eqn:E; cbn in Hp.
    + rewrite Hp. cbn. by rewrite E.
    + destruct Hp as (r'&->&?&<-). done.
  - by rewrite rb_peek_spec.
  - destruct (rb_discard_spec r n Hwf) as (r'&->&?&<-). done.
  - destruct (rb_clear_spec r Hwf) as [? ->]. done.
  - destruct (rb_shrink_to_spec r n Hwf) as [? ->]. done.
  - by rewrite rb_list_length.
  - by rewrite rb_get_spec.
  - destruct (rb_get_mut_spec r i f Hwf) as [? ->]. done.
  - destruct (rb_for_each_spec _ (fun _ x => let '(x, b) := f x in (tt, x, b)) tt r Hwf) as [? <-]. done.
  - destruct (rb_iter_mut_to_spec _ n (fun _ x => (tt, f x)) tt r Hwf) as [? <-]. done.
  - destruct (rb_iter_mut_from_spec _ n (fun _ x => (tt, f x)) tt r Hwf) as [? <-]. done.
Qed.

Lemma ring_step_vacated op r : rb_wf r -> rb_vacated r -> rb_vacated (snd (ring_step op r)).
Proof.
  intros Hwf Hv. destruct op as [v| | |n| |n| |i|i f|f|n f|n f]; cbn [ring_step snd]; try done.
  - by apply rb_push_vacated.
  - pose proof (rb_pop_vacated r Hwf Hv). by destruct (rb_pop r).
  - pose proof (rb_discard_vacated r n Hwf Hv). by destruct (rb_discard r n).
  - by apply rb_clear_vacated.
  - by apply rb_shrink_to_vacated.
  - by apply rb_get_mut_vacated.
  - apply rb_for_each_vacated; done.
  - apply rb_iter_mut_to_vacated; done.
  - apply rb_iter_mut_from_vacated; done.
Qed.

Lemma ring_run_vacated ops r : rb_wf r -> rb_vacated r -> rb_vacated (snd (run_ops ring_step ops r)).
Proof.
  revert r; induction ops as [|op ops IH]; intros r Hwf Hv; cbn; [done|].
  destruct (ring_step_refines op r Hwf) as [Hwf' _]. pose proof (ring_step_vacated op r Hwf Hv) as Hv'.
  destruct (ring_step op r) as [o r']. cbn in Hwf', Hv'. specialize (IH r' Hwf' Hv').
  by destruct (run_ops ring_step ops r').
Qed.

Lemma ring_run_refines_from ops r : rb_wf r ->
  rb_wf (snd (run_ops ring_step ops r)) /\
  run_ops list_step ops (rb_list r) =
    (fst (run_ops ring_step ops r), rb_list (snd (run_ops ring_step ops r))).
Proof.
  revert r; induction ops as [|op ops IH]; intros r Hwf; cbn; [done|].
  destruct (ring_step_refines op r Hwf) as [Hwf' ->].
  destruct (ring_step op r) as [o r']. cbn in Hwf' |- *.
  destruct (IH r' Hwf') as [? ->]. destruct (run_ops ring_step ops r'). done.
Qed.
End Ring.
