(* ===== verification/Heap.v ===== *)
(** * Go's [container/heap], the way the source transcribes it

    [heap.rs:SegmentHeap] and [shaper.rs:ShaperHeap] both contain the same
    sift-up and sift-down loops over an array; this file has the loops once,
    over an arbitrary comparison [less], with their theory: the loops permute
    the array, keep the heap order, and never run out of fuel.  The second half is
    [heap.rs:SegmentHeap], the reordering buffer of KCP with its set of marks. *)
From stdpp Require Import gmap.
From S2P Require Import Prelude Word Segment.

Section Loops.
Context {A : Type} (less : A -> A -> bool).
Implicit Types (l : list A) (i j n : nat).

(** [Vec::swap]. *)
Definition swap l i j : list A :=
  match l !! i, l !! j with
  | Some a, Some b => <[i := b]> (<[j := a]> l)
  | _, _ => l
  end.

(** [less(i, j)] on array positions. *)
Definition less_at l i j : bool :=
  match l !! i, l !! j with
  | Some a, Some b => less a b
  | _, _ => false
  end.

(** [up]: sift element [j] towards the root.  [fuel] bounds the iterations;
    [j] of them are enough, since each one moves to the parent. *)
Fixpoint up_loop (fuel : nat) l j : list A :=
  match fuel with
  | O => l
  | S fuel =>
      if j =? 0 then l
      else
        let i := (j - 1) / 2 in
        if negb (less_at l j i) then l else up_loop fuel (swap l i j) i
  end.

Definition up l j : list A := up_loop j l j.

(** [down]: sift element [i] towards the leaves of the first [n] elements.
    Each iteration at least doubles [i], so [n] iterations are enough. *)
Fixpoint down_loop (fuel : nat) l i n : list A * nat :=
  match fuel with
  | O => (l, i)
  | S fuel =>
      let j1 := 2 * i + 1 in
      if n <=? j1 then (l, i)
      else
        let j2 := j1 + 1 in
        let j := if (j2 <? n) && less_at l j2 j1 then j2 else j1 in
        if negb (less_at l j i) then (l, i) else down_loop fuel (swap l i j) j n
  end.

(** The source returns whether anything moved. *)
Definition down l (i0 n : nat) : list A * bool :=
  let '(l, i) := down_loop n l i0 n in (l, i0 <? i).

(** [heap.Push]: append, then sift up. *)
Definition heap_push l (x : A) : list A := up (l ++ [x]) (length l).

(** [heap.Pop]: swap the root with the last element, sift down, remove the
    last element; [None] on an empty heap. *)
Definition heap_pop l : option (A * list A) :=
  match length l with
  | O => None
  | S n =>
      let l := swap l 0 n in
      let l := fst (down l 0 n) in
      x ← last l; Some (x, take n l)
  end.

(** ** The loops terminate by themselves *)

Lemma parent_lt j : j <> 0 -> (j - 1) / 2 < j.
Proof. intros. apply Nat.Div0.div_lt_upper_bound; lia. Qed.

(** More fuel than the index changes nothing. *)
Lemma up_loop_fuel f1 f2 l j : j <= f1 -> j <= f2 -> up_loop f1 l j = up_loop f2 l j.
Proof.
  revert f2 l j. induction f1 as [|f1 IH]; intros f2 l j H1 H2.
  - destruct f2; [done|]. replace j with 0 by lia. done.
  - destruct f2 as [|f2]; cbn [up_loop].
    + replace j with 0 by lia. done.
    + destruct (Nat.eqb_spec j 0) as [|Hj]; [done|].
      destruct (negb _); [done|]. pose proof (parent_lt j Hj). apply IH; lia.
Qed.

Lemma down_loop_fuel f1 f2 l i n : n <= i + f1 -> n <= i + f2 ->
  down_loop f1 l i n = down_loop f2 l i n.
Proof.
  revert f2 l i. induction f1 as [|f1 IH]; intros f2 l i H1 H2.
  - destruct f2; [done|]. cbn [down_loop].
    destruct (Nat.leb_spec n (2 * i + 1)); [done|lia].
  - destruct f2 as [|f2]; cbn [down_loop];
      (destruct (Nat.leb_spec n (2 * i + 1)); [done|]); [lia|].
    set (j := if _ && _ then _ else _).
    assert (i < j) by (subst j; case_match; lia).
    destruct (negb _); [done|]. apply IH; lia.
Qed.

(** ** Swapping *)

Lemma length_swap l i j : length (swap l i j) = length l.
Proof. unfold swap. repeat case_match; rewrite ?length_insert; done. Qed.

Lemma swap_comm l i j : swap l i j = swap l j i.
Proof.
  unfold swap. destruct (l !! i) as [a|] eqn:Ei, (l !! j) as [b|] eqn:Ej; try done.
  destruct (decide (i = j)) as [->|].
  - congruence.
  - by rewrite list_insert_insert_ne.
Qed.

Lemma swap_lookup l i j k : i < length l -> j < length l ->
  swap l i j !! k = if decide (k = i) then l !! j else if decide (k = j) then l !! i else l !! k.
Proof.
  intros Hi Hj. unfold swap.
  destruct (lookup_lt_is_Some_2 l i Hi) as [a Ha], (lookup_lt_is_Some_2 l j Hj) as [b Hb].
  rewrite Ha, Hb. repeat case_decide; subst.
  - rewrite list_lookup_insert_eq; [done|]. by rewrite length_insert.
  - rewrite list_lookup_insert_ne by done. by rewrite list_lookup_insert_eq.
  - by rewrite !list_lookup_insert_ne.
Qed.

Lemma swap_perm_lt l i j : i < j -> swap l i j ≡ₚ l.
Proof.
  intros Hij. unfold swap.
  destruct (l !! i) as [a|] eqn:Ei, (l !! j) as [b|] eqn:Ej; try done.
  rewrite <- (take_drop_middle l i a Ei) in Ej |- *.
  set (l1 := take i l) in *. set (l2 := drop (S i) l) in *.
  assert (H1 : length l1 = i) by (subst l1; rewrite length_take; apply lookup_lt_Some in Ei; lia).
  clearbody l1 l2. clear Ei l.
  rewrite lookup_app_r in Ej by lia. rewrite H1 in Ej.
  destruct (j - i) as [|m] eqn:Em; [lia|]. cbn in Ej.
  replace j with (length l1 + S m) by lia. replace i with (length l1 + 0) by lia.
  rewrite !insert_app_r. csimpl.
  rewrite insert_take_drop by (eapply lookup_lt_Some; done).
  apply Permutation_app_head.
  trans (a :: take m l2 ++ b :: drop (S m) l2); [|by rewrite take_drop_middle].
  rewrite <- !Permutation_middle. constructor.
Qed.

Lemma swap_perm l i j : swap l i j ≡ₚ l.
Proof.
  destruct (Nat.lt_trichotomy i j) as [?|[->|?]].
  - by apply swap_perm_lt.
  - unfold swap. destruct (l !! j) eqn:E; [|done]. by rewrite !list_insert_id by (by rewrite ?list_insert_id).
  - rewrite swap_comm. by apply swap_perm_lt.
Qed.

Lemma length_up_loop f l j : length (up_loop f l j) = length l.
Proof.
  revert l j; induction f as [|f IH]; intros; cbn [up_loop]; [done|].
  repeat (case_match; try done). by rewrite IH, length_swap.
Qed.

Lemma length_down_loop f l i n : length (fst (down_loop f l i n)) = length l.
Proof.
  revert l i; induction f as [|f IH]; intros; cbn [down_loop]; [done|].
  destruct (n <=? _); [done|]. destruct (negb _); [done|]. by rewrite IH, length_swap.
Qed.

Lemma up_loop_perm f l j : up_loop f l j ≡ₚ l.
Proof.
  revert l j; induction f as [|f IH]; intros; cbn [up_loop]; [done|].
  repeat (case_match; try done). by rewrite IH, swap_perm.
Qed.

Lemma down_loop_perm f l i n : fst (down_loop f l i n) ≡ₚ l.
Proof.
  revert l i; induction f as [|f IH]; intros; cbn [down_loop]; [done|].
  destruct (n <=? _); [done|]. destruct (negb _); [done|]. by rewrite IH, swap_perm.
Qed.

Lemma heap_push_perm l x : heap_push l x ≡ₚ x :: l.
Proof. unfold heap_push, up. rewrite up_loop_perm. by rewrite <- Permutation_cons_append. Qed.

(** [down] does not touch what lies behind the first [n] elements. *)
Lemma down_loop_behind f l i n k : n <= k -> n <= length l -> i <= n ->
  fst (down_loop f l i n) !! k = l !! k.
Proof.
  intros Hk Hn. revert l i Hn. induction f as [|f IH]; intros l i Hn Hi; cbn [down_loop]; [done|].
  destruct (Nat.leb_spec n (2 * i + 1)); [done|].
  set (j := if _ && _ then _ else _).
  assert (j < n).
  { subst j. destruct (Nat.ltb_spec (2 * i + 1 + 1) n); cbn [andb]; [case_match; lia|lia]. }
  destruct (negb _); [done|].
  rewrite IH by (rewrite ?length_swap; lia).
  rewrite swap_lookup by lia. repeat case_decide; lia || done.
Qed.

(** Popping returns the root and keeps the other elements. *)
Lemma heap_pop_spec l :
  match l with
  | [] => heap_pop l = None
  | x :: _ => exists l', heap_pop l = Some (x, l') /\ x :: l' ≡ₚ l
  end.
Proof.
  destruct l as [|x l0]; [done|]. unfold heap_pop.
  set (l := x :: l0). set (n := length l0).
  assert (Hlen : length l = S n) by done. rewrite Hlen.
  unfold down. pose proof (down_loop_perm n (swap l 0 n) 0 n) as Hp.
  pose proof (length_down_loop n (swap l 0 n) 0 n) as Hl. rewrite length_swap, Hlen in Hl.
  pose proof (down_loop_behind n (swap l 0 n) 0 n n) as Hb. rewrite length_swap in Hb.
  specialize (Hb ltac:(lia) ltac:(lia) ltac:(lia)).
  rewrite swap_lookup in Hb by lia.
  destruct (down_loop n (swap l 0 n) 0 n) as [l' i']. cbn [fst] in *.
  assert (Hlast : l' !! n = Some x).
  { rewrite Hb. destruct (decide (n = 0)) as [E|]; [|rewrite decide_True by done; done].
    rewrite E. done. }
  rewrite last_lookup, Hl. cbn [Nat.pred]. rewrite Hlast. cbn.
  eexists; split; [done|].
  rewrite <- (swap_perm l 0 n), <- Hp.
  rewrite <- (take_drop_middle l' n x Hlast) at 2.
  rewrite (drop_ge l' (S n)) by lia. by rewrite <- Permutation_cons_append.
Qed.
End Loops.

(** ** The heap order

    The comparison is only assumed to agree with a linear order of integer keys
    on the elements that satisfy [P]: [kcp.rs] and [shaper.rs] compare wrapping
    sequence numbers, which is an order only inside a window. *)
Section Order.
Context {A : Type} `{Inhabited A} (less : A -> A -> bool) (key : A -> Z) (P : A -> Prop).
Implicit Types (l : list A) (i j n : nat).

Definition less_by_key : Prop :=
  forall x y, P x -> P y -> less x y = (key x <? key y)%Z.

(** Every element of the first [n] is at least its parent. *)
Definition heap_ordered_upto l n : Prop :=
  forall c, 0 < c < n -> (key (l !!! ((c - 1) / 2)%nat) <= key (l !!! c))%Z.

Definition heap_ordered l : Prop := heap_ordered_upto l (length l).

Context (Hless : less_by_key).

Lemma less_at_key l i j : Forall P l -> i < length l -> j < length l ->
  less_at less l i j = (key (l !!! i) <? key (l !!! j))%Z.
Proof.
  intros HP Hi Hj. unfold less_at.
  destruct (lookup_lt_is_Some_2 l i Hi) as [a Ha], (lookup_lt_is_Some_2 l j Hj) as [b Hb].
  rewrite Ha, Hb. rewrite !list_lookup_total_alt, Ha, Hb. cbn.
  apply Hless; eapply Forall_lookup_1; done.
Qed.

Lemma swap_lookup_total l i j k : i < length l -> j < length l ->
  swap l i j !!! k =
    if decide (k = i) then l !!! j else if decide (k = j) then l !!! i else l !!! k.
Proof.
  intros. rewrite !list_lookup_total_alt, swap_lookup by done. by repeat case_decide.
Qed.

Lemma Forall_swap l i j : Forall P l -> Forall P (swap l i j).
Proof. intros. by rewrite swap_perm. Qed.

(** Heap order everywhere except between [j] and its parent, with [j]'s
    children already above [j]'s parent. *)
Definition heap_but_up l j : Prop :=
  (forall c, 0 < c < length l -> c <> j -> (key (l !!! ((c - 1) / 2)%nat) <= key (l !!! c))%Z) /\
  (forall c, 0 < c < length l -> 0 < j -> ((c - 1) / 2)%nat = j ->
     (key (l !!! ((j - 1) / 2)%nat) <= key (l !!! c))%Z).

Lemma up_loop_ordered f l j :
  Forall P l -> j < length l -> j <= f -> heap_but_up l j -> heap_ordered (up_loop less f l j).
Proof.
  revert l j. induction f as [|f IH]; intros l j HP Hj Hf [H1 H2]; cbn [up_loop].
  - intros c Hc. apply H1; lia.
  - destruct (Nat.eqb_spec j 0) as [|Hj0]; [intros c Hc; apply H1; lia|].
    pose proof (parent_lt j Hj0) as Hpar. set (i := (j - 1) / 2) in *.
    rewrite less_at_key by (done || lia).
    destruct (Z.ltb_spec (key (l !!! j)) (key (l !!! i))) as [Hlt|Hge]; cbn [negb].
    + apply IH; [by apply Forall_swap | rewrite length_swap; lia | lia |].
      split; rewrite length_swap.
      * intros c Hc Hci. rewrite !swap_lookup_total by lia.
        destruct (decide (c = i)); [done|].
        destruct (decide (c = j)) as [->|]; fold i.
        { rewrite decide_True by done. lia. }
        destruct (decide ((c - 1) / 2 = i)) as [E|].
        { specialize (H1 c Hc ltac:(done)). rewrite E in H1. lia. }
        destruct (decide ((c - 1) / 2 = j)) as [E|].
        { specialize (H2 c Hc ltac:(lia) E). fold i in H2. lia. }
        by apply H1.
      * intros c Hc Hi E.
        pose proof (parent_lt i ltac:(lia)) as Hpi.
        rewrite !swap_lookup_total by lia.
        rewrite (decide_False (P := ((i - 1) / 2 = i)%nat)) by lia.
        rewrite (decide_False (P := ((i - 1) / 2 = j)%nat)) by lia.
        pose proof (H1 i ltac:(lia) ltac:(lia)) as Hi1.
        pose proof (parent_lt c ltac:(lia)) as Hpc.
        destruct (decide (c = i)); [lia|].
        destruct (decide (c = j)); [done|].
        specialize (H1 c Hc ltac:(done)). rewrite E in H1. lia.
    + intros c Hc. destruct (decide (c = j)) as [->|]; [fold i; lia | by apply H1].
Qed.

Lemma heap_push_ordered l x :
  Forall P l -> P x -> heap_ordered l -> heap_ordered (heap_push less l x).
Proof.
  intros HP Hx Ho. unfold heap_push, up.
  apply up_loop_ordered; [by apply Forall_app_2; [|repeat constructor] | rewrite length_app; cbn; lia | done |].
  split; rewrite length_app; cbn [length].
  - intros c Hc Hne. pose proof (parent_lt c ltac:(lia)).
    rewrite !lookup_total_app_l by lia. apply Ho. lia.
  - intros c Hc Hl E. pose proof (parent_lt c ltac:(lia)). lia.
Qed.

(** Heap order among the first [n], except between [i] and its children, with
    [i]'s children already above [i]'s parent. *)
Definition heap_but_down l i n : Prop :=
  (forall c, 0 < c < n -> (c - 1) / 2 <> i -> (key (l !!! ((c - 1) / 2)%nat) <= key (l !!! c))%Z) /\
  (forall c, 0 < c < n -> 0 < i -> ((c - 1) / 2)%nat = i ->
     (key (l !!! ((i - 1) / 2)%nat) <= key (l !!! c))%Z).

Lemma children c i : 0 < c -> (c - 1) / 2 = i <-> c = 2 * i + 1 \/ c = 2 * i + 2.
Proof.
  intros Hc. split.
  - intros E. pose proof (Nat.div_mod_eq (c - 1) 2). pose proof (Nat.mod_upper_bound (c - 1) 2). lia.
  - intros [->| ->].
    + replace (2 * i + 1 - 1) with (i * 2) by lia. by apply Nat.div_mul.
    + replace (2 * i + 2 - 1) with (i * 2 + 1) by lia. rewrite Nat.div_add_l by lia. cbn. lia.
Qed.

Lemma down_loop_ordered f l i n :
  Forall P l -> n <= length l -> i < length l -> n <= i + f ->
  heap_but_down l i n -> heap_ordered_upto (fst (down_loop less f l i n)) n.
Proof.
  revert l i. induction f as [|f IH]; intros l i HP Hn Hi Hf [H1 H2]; cbn [down_loop].
  - intros c Hc. apply H1; [done|]. pose proof (parent_lt c ltac:(lia)). lia.
  - destruct (Nat.leb_spec n (2 * i + 1)).
    { intros c Hc. apply H1; [done|]. intros E%children; lia. }
    set (j := if _ && _ then _ else _).
    assert (Hj : (j = 2 * i + 1 \/ j = 2 * i + 2) /\ j < n /\
      forall c, 0 < c < n -> (c - 1) / 2 = i -> (key (l !!! j) <= key (l !!! c))%Z).
    { subst j. destruct (Nat.ltb_spec (2 * i + 1 + 1) n) as [Hj2|Hj2]; cbn [andb].
      - rewrite less_at_key by (done || lia).
        destruct (Z.ltb_spec (key (l !!! (2 * i + 1 + 1)%nat)) (key (l !!! (2 * i + 1)%nat))) as [Hk|Hk];
          split_and!; try lia;
          intros c Hc [->| ->]%children; try lia; replace (2 * i + 2) with (2 * i + 1 + 1) by lia; lia.
      - split_and!; try lia. intros c Hc [->| ->]%children; lia. }
    clearbody j. destruct Hj as (Hj & Hjn & Hmin).
    assert (Hpj : (j - 1) / 2 = i) by (apply children; lia).
    rewrite less_at_key by (done || lia).
    destruct (Z.ltb_spec (key (l !!! j)) (key (l !!! i))) as [Hlt|Hge]; cbn [negb fst].
    + apply IH; [by apply Forall_swap | rewrite length_swap; lia | rewrite length_swap; lia | lia |].
      split.
      * intros c Hc Hcj. rewrite !swap_lookup_total by lia.
        pose proof (parent_lt c ltac:(lia)).
        destruct (decide ((c - 1) / 2 = i)) as [E|].
        { destruct (decide (c = i)); [lia|].
          destruct (decide (c = j)) as [->|]; [lia|]. by apply Hmin. }
        rewrite (decide_False (P := ((c - 1) / 2 = j)%nat)) by done.
        destruct (decide (c = i)) as [->|].
        { apply H2; lia. }
        destruct (decide (c = j)) as [->|]; [done|]. by apply H1.
      * intros c Hc Hj0 E. rewrite !swap_lookup_total by lia. rewrite Hpj.
        rewrite (decide_True (P := (i = i)%nat)) by done.
        pose proof (parent_lt c ltac:(lia)).
        rewrite (decide_False (P := (c = i)%nat)) by lia.
        rewrite (decide_False (P := (c = j)%nat)) by lia.
        rewrite <- E. apply H1; [done|]. lia.
    + intros c Hc. destruct (decide ((c - 1) / 2 = i)) as [E|]; [|by apply H1].
      rewrite E. specialize (Hmin c Hc E). lia.
Qed.

Lemma heap_root_min l c :
  heap_ordered l -> c < length l -> (key (l !!! 0%nat) <= key (l !!! c))%Z.
Proof.
  intros Ho. induction c as [c IH] using lt_wf_ind. intros Hc.
  destruct (decide (c = 0)) as [->|]; [lia|].
  pose proof (parent_lt c ltac:(lia)). specialize (IH ((c - 1) / 2) ltac:(lia) ltac:(lia)).
  specialize (Ho c ltac:(lia)). lia.
Qed.

(** Popping a heap gives a smallest element and leaves a heap. *)
Lemma heap_pop_min l x l' :
  Forall P l -> heap_ordered l -> heap_pop less l = Some (x, l') ->
  heap_ordered l' /\ Forall (fun y => (key x <= key y)%Z) l' /\ x :: l' ≡ₚ l.
Proof.
  intros HP Ho Hpop. pose proof (heap_pop_spec less l) as Hs.
  destruct l as [|x0 l0] eqn:El; [congruence|]. destruct Hs as (l1 & Hs & Hperm).
  rewrite Hs in Hpop. injection Hpop as <- <-. rewrite <- El in *.
  split_and!; [|  | done].
  - unfold heap_pop in Hs. rewrite El in Hs at 1. cbn [length] in Hs.
    set (n := length l0) in *. assert (Hl : length l = S n) by (by rewrite El).
    unfold down in Hs.
    pose proof (down_loop_ordered n (swap l 0 n) 0 n) as Hd.
    pose proof (length_down_loop less n (swap l 0 n) 0 n) as Hdl.
    rewrite !length_swap in Hd, Hdl.
    destruct (down_loop less n (swap l 0 n) 0 n) as [l2 i2]. cbn [fst] in *.
    destruct (last l2); [|done]. injection Hs as _ <-.
    unfold heap_ordered. rewrite length_take, Nat.min_l by lia.
    intros c Hc. rewrite !lookup_total_take_lt; try lia.
    2: { pose proof (parent_lt c ltac:(lia)). lia. }
    apply Hd; [by apply Forall_swap | lia | lia | lia | | done].
    split; [|lia]. intros c' Hc' Hp0.
    rewrite !swap_lookup_total by lia.
    pose proof (parent_lt c' ltac:(lia)).
    do 4 (rewrite decide_False by lia). apply Ho. lia.
  - apply Forall_forall. intros y Hy.
    assert (Hin : y ∈ l) by (rewrite <- Hperm; by apply list_elem_of_further).
    apply list_elem_of_lookup in Hin as [c Hc].
    pose proof (heap_root_min l c Ho (lookup_lt_Some _ _ _ Hc)) as Hm.
    rewrite !list_lookup_total_alt, Hc in Hm. rewrite El in Hm at 1. exact Hm.
Qed.

Lemma heap_ordered_nil : heap_ordered [].
Proof. intros c Hc. cbn in Hc. lia. Qed.
End Order.

(** ** [heap.rs]: the receive-side segment heap

    [SegmentHeap]: the array of out-of-order segments ordered by wrapping
    sequence number, and the set of the sequence numbers it holds.  The array
    loops are those of [BinHeap.v]; the theory is relative to a window: as long
    as every held sequence number is less than [2^31] past some [base], the
    wrapping comparison is the order of the distances from [base]. *)
Local Open Scope Z_scope.

Record SegmentHeap := mkSegmentHeap {
  sh_segments : list Segment;
  sh_marks : gset Z;
}.

(** [SegmentHeap::new]. *)
Definition sh_new : SegmentHeap := mkSegmentHeap [] ∅.

(** [len], [is_empty], [peek], [has]. *)
Definition sh_len (h : SegmentHeap) : nat := length (sh_segments h).
Definition sh_is_empty (h : SegmentHeap) : bool :=
  match sh_segments h with [] => true | _ => false end.
Definition sh_peek (h : SegmentHeap) : option Segment := head (sh_segments h).
Definition sh_has (h : SegmentHeap) (sn : Z) : bool := bool_decide (sn ∈ sh_marks h).

(** [less(i, j)]: [_itimediff(segments[j].sn, segments[i].sn) > 0]. *)
Definition sh_less (a b : Segment) : bool := 0 <? _itimediff (sg_sn b) (sg_sn a).

(** [push] and [pop]. *)
Definition sh_push (h : SegmentHeap) (seg : Segment) : SegmentHeap :=
  mkSegmentHeap (heap_push sh_less (sh_segments h) seg) ({[sg_sn seg]} ∪ sh_marks h).

Definition sh_pop (h : SegmentHeap) : option (Segment * SegmentHeap) :=
  '(x, segs) ← heap_pop sh_less (sh_segments h);
  Some (x, mkSegmentHeap segs (sh_marks h ∖ {[sg_sn x]})).

(** ** Invariant *)

(** The distance of a sequence number past [base]. *)
Definition sn_off (base sn : Z) : Z := u32 (sn - base).

Definition seg_off (base : Z) (s : Segment) : Z := sn_off base (sg_sn s).

(** The segment is a word less than [2^31] past [base]. *)
Definition seg_in_window (base : Z) (s : Segment) : Prop :=
  is_u32 (sg_sn s) /\ seg_off base s < 2147483648.

(** The marks are the sequence numbers held, each once; everything lies in the
    half of the number space after [base]; the array is heap-ordered by the
    distance from [base]. *)
Record sh_inv (base : Z) (h : SegmentHeap) : Prop := {
  shi_window : Forall (seg_in_window base) (sh_segments h);
  shi_nodup : NoDup (sg_sn <$> sh_segments h);
  shi_marks : sh_marks h = list_to_set (sg_sn <$> sh_segments h);
  shi_order : heap_ordered (seg_off base) (sh_segments h);
}.

Lemma sh_less_key base : less_by_key sh_less (seg_off base) (seg_in_window base).
Proof.
  intros x y [Hx Hx'] [Hy Hy']. unfold sh_less, seg_off, sn_off in *.
  unfold _itimediff, i32, wsub32, u32, is_u32 in *.
  apply eq_true_iff_eq. rewrite !Z.ltb_lt. zlia.
Qed.

Lemma seg_off_inj base x y :
  is_u32 (sg_sn x) -> is_u32 (sg_sn y) -> seg_off base x = seg_off base y -> sg_sn x = sg_sn y.
Proof. unfold seg_off, sn_off, u32, is_u32. intros. zlia. Qed.

Lemma sh_new_inv base : sh_inv base sh_new.
Proof. split; [constructor|constructor|done|apply heap_ordered_nil]. Qed.

Lemma sh_has_spec base h sn : sh_inv base h ->
  sh_has h sn = true <-> sn ∈ sg_sn <$> sh_segments h.
Proof.
  intros Hi. unfold sh_has. rewrite bool_decide_eq_true, (shi_marks _ _ Hi). set_solver.
Qed.

Lemma sh_push_perm h seg : sh_segments (sh_push h seg) ≡ₚ seg :: sh_segments h.
Proof. apply heap_push_perm. Qed.

Lemma sh_push_inv base h seg :
  sh_inv base h -> seg_in_window base seg -> sh_has h (sg_sn seg) = false ->
  sh_inv base (sh_push h seg).
Proof.
  intros Hi Hw Hn. pose proof (sh_push_perm h seg) as Hp.
  split.
  - rewrite Hp. constructor; [done | apply Hi].
  - rewrite Hp. cbn. apply NoDup_cons. split; [|apply Hi].
    rewrite <- (sh_has_spec base h) by done. congruence.
  - cbn [sh_push sh_marks]. rewrite (shi_marks _ _ Hi).
    apply set_eq. intros sn. rewrite !elem_of_union, !elem_of_list_to_set, Hp. set_solver.
  - apply (heap_push_ordered _ _ _ (sh_less_key base)); try apply Hi; done.
Qed.

(** Popping takes a segment with the smallest distance from [base]. *)
Lemma sh_pop_spec base h : sh_inv base h ->
  match sh_pop h with
  | None => sh_segments h = []
  | Some (x, h') =>
      sh_inv base h' /\ x :: sh_segments h' ≡ₚ sh_segments h /\
      Forall (fun y => seg_off base x < seg_off base y) (sh_segments h')
  end.
Proof.
  intros Hi. unfold sh_pop. pose proof (heap_pop_spec sh_less (sh_segments h)) as Hs.
  destruct (sh_segments h) as [|x l] eqn:El.
  { by rewrite Hs. }
  destruct Hs as (l' & Hs & Hp). rewrite Hs. cbn [mbind option_bind sh_segments].
  assert (Hw : Forall (seg_in_window base) (sh_segments h)) by apply Hi.
  destruct (heap_pop_min sh_less (seg_off base) (seg_in_window base) (sh_less_key base)
              (sh_segments h) x l') as (Ho & Hmin & _); [done | apply Hi | by rewrite El |].
  assert (Hnd : NoDup (sg_sn <$> x :: l')) by (rewrite Hp, <- El; apply Hi).
  apply NoDup_cons in Hnd as [Hx Hnd].
  rewrite El, <- Hp in Hw. apply Forall_cons in Hw as [Hwx Hw].
  split_and!; [|done|].
  - split; cbn; [done|done| |done].
    rewrite (shi_marks _ _ Hi), El, <- Hp. cbn. apply set_eq. set_solver.
  - rewrite Forall_forall in *. intros y Hy.
    assert (seg_off base x <> seg_off base y).
    { intros E. apply Hx. apply seg_off_inj in E; [|apply Hwx | by apply Hw].
      cbn in E. rewrite E. by apply list_elem_of_fmap_2. }
    specialize (Hmin y Hy). lia.
Qed.

(** Pushing back the segment just popped. *)
Lemma sh_pop_push_inv base h x h' :
  sh_inv base h -> sh_pop h = Some (x, h') -> sh_inv base (sh_push h' x).
Proof.
  intros Hi E. pose proof (sh_pop_spec base h Hi) as Hs. rewrite E in Hs.
  destruct Hs as (Hi' & Hp & Hmin).
  pose proof (shi_window _ _ Hi) as Hw. rewrite <- Hp in Hw. apply Forall_cons in Hw as [Hw _].
  apply sh_push_inv; [done..|].
  apply not_true_iff_false. rewrite (sh_has_spec base) by done.
  intros (y & Ey & Hy)%list_elem_of_fmap. rewrite Forall_forall in Hmin.
  specialize (Hmin y Hy). unfold seg_off in Hmin. rewrite Ey in Hmin. lia.
Qed.

(** The invariant moves to a later base as long as nothing is left behind. *)
Lemma sh_inv_advance base base' h :
  sh_inv base h ->
  0 <= base' - base < 2147483648 ->
  Forall (fun s => base' - base <= seg_off base s) (sh_segments h) ->
  sh_inv base' h.
Proof.
  intros Hi Hb Ha. pose proof (shi_window _ _ Hi) as Hw.
  assert (Hoff : forall s, s ∈ sh_segments h -> seg_off base' s = seg_off base s - (base' - base)).
  { intros s Hs. rewrite Forall_forall in Ha, Hw.
    specialize (Ha s Hs). destruct (Hw s Hs) as [? Ho].
    unfold seg_off, sn_off, u32 in *. zlia. }
  split.
  - rewrite Forall_forall in *. intros s Hs. destruct (Hw s Hs) as [? Ho].
    split; [done|]. rewrite Hoff by done. lia.
  - apply Hi.
  - apply Hi.
  - intros c Hc. pose proof (shi_order _ _ Hi c Hc) as Ho.
    pose proof (parent_lt c ltac:(lia)).
    assert (Hin : forall i, (i < length (sh_segments h))%nat -> sh_segments h !!! i ∈ sh_segments h)
      by (intros; by apply list_elem_of_lookup_total_2).
    rewrite !Hoff by (apply Hin; lia). lia.
Qed.

(** The base matters only modulo [2^32]. *)
Lemma sh_inv_u32 base h : sh_inv (u32 base) h <-> sh_inv base h.
Proof.
  assert (Hoff : forall s, seg_off (u32 base) s = seg_off base s)
    by (intros; unfold seg_off, sn_off; by rewrite u32_sub_r).
  split; intros [H1 H2 H3 H4]; split; try done.
  - eapply Forall_impl; [exact H1|]. intros s [? Ho]. split; [done|]. by rewrite <- Hoff.
  - intros c Hc. specialize (H4 c Hc). by rewrite !Hoff in H4.
  - eapply Forall_impl; [exact H1|]. intros s [? Ho]. split; [done|]. by rewrite Hoff.
  - intros c Hc. specialize (H4 c Hc). by rewrite !Hoff.
Qed.
