(* ===== verification/KcpState.v ===== *)
(** * [kcp.rs]: the state of the ARQ state machine

    The constants, the [Kcp] struct with its parts ([AckItem], [ScanBound],
    [FlushScan]), the constructor and the operations that only read or set
    options.  Field [f] of the source's [Kcp] is [k_f]. *)
From S2P Require Import Prelude Word Env Segment Queue Heap.
Local Open Scope Z_scope.

(** ** Constants *)

Definition IKCP_RTO_NDL : Z := 30.
Definition IKCP_RTO_MIN : Z := 100.
Definition IKCP_RTO_DEF : Z := 200.
Definition IKCP_RTO_MAX : Z := 60000.
Definition IKCP_ASK_SEND : Z := 1.
Definition IKCP_ASK_TELL : Z := 2.
Definition IKCP_WND_SND : Z := 32.
Definition IKCP_WND_RCV : Z := 32.
Definition IKCP_MTU_DEF : Z := 1400.
Definition IKCP_INTERVAL : Z := 100.
Definition IKCP_DEADLINK : Z := 20.
Definition IKCP_THRESH_INIT : Z := 2.
Definition IKCP_THRESH_MIN : Z := 2.
Definition IKCP_PROBE_INIT : Z := 500.
Definition IKCP_PROBE_LIMIT : Z := 120000.
Definition OUTPUT_ROOM : Z := 2.

(** [u32::MAX]: the [fastack] of a segment that must wait for its RTO, the
    [state] of a dead link, the threshold of a disabled fast retransmit. *)
Definition FFFFFFFF : Z := 4294967295.
Definition i32_MAX : Z := 2147483647.

Inductive PacketType := Regular | Fec.

Definition is_regular (p : PacketType) : bool := match p with Regular => true | Fec => false end.

Inductive FlushType := AckOnly | Full.

Definition is_full (f : FlushType) : bool := match f with AckOnly => false | Full => true end.

Record AckItem := mkAck { ack_sn : Z; ack_ts : Z }.

(** ** What a flush remembers about [snd_buf] *)

Inductive ScanBound :=
| Unknown
| Nothing
| NotBefore (ts : Z).

(** [ScanBound::merge]. *)
Definition merge (self other : ScanBound) : ScanBound :=
  match self, other with
  | Unknown, _ | _, Unknown => Unknown
  | Nothing, b => b
  | a, Nothing => a
  | NotBefore a, NotBefore b => NotBefore (if _itimediff b a <? 0 then b else a)
  end.

Record FlushScan := mkFlushScan {
  fs_due : ScanBound;
  fs_no_fastack : bool;
  fs_unsent : nat;
  fs_enabled : bool;
}.

#[export] Instance eta_flush_scan : EtaRecord FlushScan := fun s =>
  mkFlushScan (fs_due s) (fs_no_fastack s) (fs_unsent s) (fs_enabled s).

Definition flush_scan_default : FlushScan := mkFlushScan Unknown false 0 true.

(** [FlushScan::can_skip]. *)
Definition can_skip (self : FlushScan) (current interval : Z) : bool :=
  if negb (fs_enabled self) || negb (fs_no_fastack self) then false
  else
    match fs_due self with
    | Unknown => false
    | Nothing => true
    | NotBefore ts =>
        let rto := _itimediff ts current in
        (0 <? rto) && (interval <=? u32 rto)
    end.

(** ** The state

    Queues are the lists of their elements ([Queue.v]); [k_buffer] is the flush
    buffer, [k_snmp] the process-wide counters the operations update, and
    [k_panic] records that an index, slice or division panicked: the value of
    the other fields then means nothing. *)
Record Kcp (O C : Type) := mkKcp {
  k_conv : Z;
  k_mtu : Z;
  k_mss : Z;
  k_state : Z;
  k_snd_una : Z;
  k_snd_nxt : Z;
  k_rcv_nxt : Z;
  k_ssthresh : Z;
  k_rx_rttvar : Z;
  k_rx_srtt : Z;
  k_rx_rto : Z;
  k_rx_minrto : Z;
  k_snd_wnd : Z;
  k_rcv_wnd : Z;
  k_rmt_wnd : Z;
  k_cwnd : Z;
  k_probe : Z;
  k_interval : Z;
  k_ts_flush : Z;
  k_nodelay : Z;
  k_updated : Z;
  k_ts_probe : Z;
  k_probe_wait : Z;
  k_dead_link : Z;
  k_incr : Z;
  k_fastresend : Z;
  k_nocwnd : Z;
  k_stream : Z;
  k_snd_queue : list Segment;
  k_rcv_queue : list Segment;
  k_snd_buf : list Segment;
  k_rcv_buf : SegmentHeap;
  k_acklist : list AckItem;
  k_buffer : list Z;
  k_output : O;
  k_clock : C;
  k_flush_scan : FlushScan;
  k_snmp : Snmp;
  k_panic : bool;
}.
Arguments mkKcp {O C}.
Arguments k_conv {O C}.
Arguments k_mtu {O C}.
Arguments k_mss {O C}.
Arguments k_state {O C}.
Arguments k_snd_una {O C}.
Arguments k_snd_nxt {O C}.
Arguments k_rcv_nxt {O C}.
Arguments k_ssthresh {O C}.
Arguments k_rx_rttvar {O C}.
Arguments k_rx_srtt {O C}.
Arguments k_rx_rto {O C}.
Arguments k_rx_minrto {O C}.
Arguments k_snd_wnd {O C}.
Arguments k_rcv_wnd {O C}.
Arguments k_rmt_wnd {O C}.
Arguments k_cwnd {O C}.
Arguments k_probe {O C}.
Arguments k_interval {O C}.
Arguments k_ts_flush {O C}.
Arguments k_nodelay {O C}.
Arguments k_updated {O C}.
Arguments k_ts_probe {O C}.
Arguments k_probe_wait {O C}.
Arguments k_dead_link {O C}.
Arguments k_incr {O C}.
Arguments k_fastresend {O C}.
Arguments k_nocwnd {O C}.
Arguments k_stream {O C}.
Arguments k_snd_queue {O C}.
Arguments k_rcv_queue {O C}.
Arguments k_snd_buf {O C}.
Arguments k_rcv_buf {O C}.
Arguments k_acklist {O C}.
Arguments k_buffer {O C}.
Arguments k_output {O C}.
Arguments k_clock {O C}.
Arguments k_flush_scan {O C}.
Arguments k_snmp {O C}.
Arguments k_panic {O C}.

#[export] Instance eta_kcp {O C} : EtaRecord (Kcp O C) := fun k =>
  mkKcp (k_conv k) (k_mtu k) (k_mss k) (k_state k) (k_snd_una k) (k_snd_nxt k) (k_rcv_nxt k)
    (k_ssthresh k) (k_rx_rttvar k) (k_rx_srtt k) (k_rx_rto k) (k_rx_minrto k) (k_snd_wnd k)
    (k_rcv_wnd k) (k_rmt_wnd k) (k_cwnd k) (k_probe k) (k_interval k) (k_ts_flush k)
    (k_nodelay k) (k_updated k) (k_ts_probe k) (k_probe_wait k) (k_dead_link k) (k_incr k)
    (k_fastresend k) (k_nocwnd k) (k_stream k) (k_snd_queue k) (k_rcv_queue k) (k_snd_buf k)
    (k_rcv_buf k) (k_acklist k) (k_buffer k) (k_output k) (k_clock k) (k_flush_scan k)
    (k_snmp k) (k_panic k).

#[export] Instance eta_ack : EtaRecord AckItem := fun a => mkAck (ack_sn a) (ack_ts a).

(** Reads fields of updated records: [ksimpl] in the goal, [ksimpl in H]. *)
Tactic Notation "ksimpl" :=
  cbn [field_update eta_kcp eta_segment eta_flush_scan fst snd
    k_conv k_mtu k_mss k_state k_snd_una k_snd_nxt k_rcv_nxt k_ssthresh
    k_rx_rttvar k_rx_srtt k_rx_rto k_rx_minrto k_snd_wnd k_rcv_wnd k_rmt_wnd k_cwnd
    k_probe k_interval k_ts_flush k_nodelay k_updated k_ts_probe k_probe_wait k_dead_link
    k_incr k_fastresend k_nocwnd k_stream k_snd_queue k_rcv_queue k_snd_buf k_rcv_buf
    k_acklist k_buffer k_output k_clock k_flush_scan k_snmp k_panic
    sg_conv sg_cmd sg_frg sg_wnd sg_ts sg_sn sg_una sg_rto sg_xmit sg_resendts sg_fastack sg_acked sg_data fs_due fs_no_fastack fs_unsent fs_enabled].
Tactic Notation "ksimpl" "in" hyp(H) :=
  cbn [field_update eta_kcp eta_segment eta_flush_scan fst snd
    k_conv k_mtu k_mss k_state k_snd_una k_snd_nxt k_rcv_nxt k_ssthresh
    k_rx_rttvar k_rx_srtt k_rx_rto k_rx_minrto k_snd_wnd k_rcv_wnd k_rmt_wnd k_cwnd
    k_probe k_interval k_ts_flush k_nodelay k_updated k_ts_probe k_probe_wait k_dead_link
    k_incr k_fastresend k_nocwnd k_stream k_snd_queue k_rcv_queue k_snd_buf k_rcv_buf
    k_acklist k_buffer k_output k_clock k_flush_scan k_snmp k_panic
    sg_conv sg_cmd sg_frg sg_wnd sg_ts sg_sn sg_una sg_rto sg_xmit sg_resendts sg_fastack sg_acked sg_data fs_due fs_no_fastack fs_unsent fs_enabled] in H.

Section Kcp.
Context {O C : Type} `{Output O, Clock C}.
Implicit Types (k : Kcp O C).

(** [Kcp::with_clock]; the counters are those of the process so far. *)
Definition with_clock (conv : Z) (output : O) (clock : C) (snmp : Snmp) : Kcp O C := {|
  k_conv := conv;
  k_mtu := IKCP_MTU_DEF;
  k_mss := IKCP_MTU_DEF - IKCP_OVERHEAD;
  k_state := 0;
  k_snd_una := 0;
  k_snd_nxt := 0;
  k_rcv_nxt := 0;
  k_ssthresh := IKCP_THRESH_INIT;
  k_rx_rttvar := 0;
  k_rx_srtt := 0;
  k_rx_rto := IKCP_RTO_DEF;
  k_rx_minrto := IKCP_RTO_MIN;
  k_snd_wnd := IKCP_WND_SND;
  k_rcv_wnd := IKCP_WND_RCV;
  k_rmt_wnd := IKCP_WND_RCV;
  k_cwnd := 0;
  k_probe := 0;
  k_interval := IKCP_INTERVAL;
  k_ts_flush := IKCP_INTERVAL;
  k_nodelay := 0;
  k_updated := 0;
  k_ts_probe := 0;
  k_probe_wait := 0;
  k_dead_link := IKCP_DEADLINK;
  k_incr := 0;
  k_fastresend := 0;
  k_nocwnd := 0;
  k_stream := 0;
  k_snd_queue := [];
  k_rcv_queue := [];
  k_snd_buf := [];
  k_rcv_buf := sh_new;
  k_acklist := [];
  k_buffer := replicate (Z.to_nat ((IKCP_MTU_DEF + IKCP_OVERHEAD) * 3)) 0;
  k_output := output;
  k_clock := clock;
  k_flush_scan := flush_scan_default;
  k_snmp := snmp;
  k_panic := false;
|}.

(** [isize::MAX], where [saturating_add] and [saturating_mul] stop. *)
Definition isize_max : Z := 9223372036854775807.

(** [Kcp::set_mtu]: the code returned and the new state. *)
Definition set_mtu (mtu : Z) k : Z * Kcp O C :=
  if (mtu <? 50) || (mtu <? IKCP_OVERHEAD) then (-1, k)
  else
    let k := k <| k_mtu := u32 mtu |> in
    let k := k <| k_mss := wsub32 (k_mtu k) IKCP_OVERHEAD |> in
    let size := Z.min isize_max (Z.min isize_max (mtu + IKCP_OVERHEAD) * 3) in
    (0, k <| k_buffer := replicate (Z.to_nat size) 0 |>).

(** [isize::clamp]. *)
Definition clamp (x lo hi : Z) : Z := if x <? lo then lo else if hi <? x then hi else x.

(** [Kcp::nodelay]. *)
Definition nodelay (nodelay interval resend nc : Z) k : Z * Kcp O C :=
  let k :=
    if 0 <=? nodelay then
      let k := k <| k_nodelay := u32 nodelay |> in
      if negb (nodelay =? 0) then k <| k_rx_minrto := IKCP_RTO_NDL |>
      else k <| k_rx_minrto := IKCP_RTO_MIN |>
    else k in
  let k :=
    if 0 <=? interval then k <| k_interval := u32 (clamp interval 10 5000) |> else k in
  let k := if 0 <=? resend then k <| k_fastresend := i32 resend |> else k in
  let k := if 0 <=? nc then k <| k_nocwnd := i32 nc |> else k in
  (0, k).

(** [Kcp::wnd_size]. *)
Definition wnd_size (sndwnd rcvwnd : Z) k : Z * Kcp O C :=
  let k := if 0 <? sndwnd then k <| k_snd_wnd := u32 sndwnd |> else k in
  let k := if 0 <? rcvwnd then k <| k_rcv_wnd := u32 rcvwnd |> else k in
  (0, k).

(** [Kcp::wait_snd]. *)
Definition wait_snd k : nat := length (k_snd_buf k) + length (k_snd_queue k).

(** [Kcp::wnd_unused]: the advertised window, a [u16]. *)
Definition wnd_unused k : Z :=
  if zlen (k_rcv_queue k) <? k_rcv_wnd k then u16 (k_rcv_wnd k - zlen (k_rcv_queue k)) else 0.

End Kcp.
