(* ===== verification/KcpSend.v ===== *)
(** * [kcp.rs]: queueing data for sending and reading received data

    [Kcp::new_segment], [Kcp::send], [Kcp::peek_size], [Kcp::recv] and
    [Kcp::parse_data] with the loop the last two share, which moves the in-order
    head of [rcv_buf] to [rcv_queue]; then the acknowledgements: [parse_ack],
    [parse_una], [parse_fastack], [shrink_buf], [update_ack]. *)
From S2P Require Import Prelude Word Env Segment Queue Heap KcpState.
Local Open Scope Z_scope.

(** [usize::div_ceil]. *)
Definition div_ceil (n d : nat) : nat := ((n + d - 1) / d)%nat.

Definition is_nil {A} (l : list A) : bool := match l with [] => true | _ => false end.

Section Kcp.
Context {O C : Type} `{Output O, Clock C}.
Implicit Types (k : Kcp O C).

(** ** Sending *)

(** [Kcp::new_segment]: a default segment with [size] zero bytes. *)
Definition new_segment (size : nat) : Segment :=
  segment_default <| sg_data := replicate size 0 |>.

(** The streaming-mode step of [Kcp::send]: the front of [buffer] is appended to
    the last queued segment, up to [mss]; what is left of [buffer] and the
    queue. *)
Definition send_extend (mss : nat) (buffer : list Z) (q : list Segment) : list Z * list Segment :=
  match last q with
  | Some seg =>
      if (length (sg_data seg) <? mss)%nat then
        let capacity := (mss - length (sg_data seg))%nat in
        let extend := Nat.min (length buffer) capacity in
        (drop extend buffer,
         alter (fun seg => seg <| sg_data := sg_data seg ++ take extend buffer |>) (length q - 1)%nat q)
      else (buffer, q)
  | None => (buffer, q)
  end.

(** The [for i in 0..count] loop of [Kcp::send], with [n] iterations left. *)
Fixpoint send_loop (stream : Z) (mss count i n : nat) (buffer : list Z) (q : list Segment)
    : list Segment :=
  match n with
  | 0%nat => q
  | S n =>
      let size := Nat.min (length buffer) mss in
      let seg := (new_segment size) <| sg_data := take size buffer |> in
      let seg :=
        if stream =? 0 then seg <| sg_frg := u8 (Z.of_nat (count - i - 1)) |>
        else seg <| sg_frg := 0 |> in
      send_loop stream mss count (S i) n (drop size buffer) (q_push seg q)
  end.

(** [Kcp::send]. *)
Definition send (buffer : list Z) k : Z * Kcp O C :=
  if is_nil buffer then (-1, k)
  else
    let mss := Z.to_nat (k_mss k) in
    let '(buffer, k) :=
      if negb (k_stream k =? 0) then
        let '(buffer, q) := send_extend mss buffer (k_snd_queue k) in
        (buffer, k <| k_snd_queue := q |>)
      else (buffer, k) in
    if negb (k_stream k =? 0) && is_nil buffer then (0, k)
    else if negb (length buffer <=? mss)%nat && (mss =? 0)%nat then
      (0, k <| k_panic := true |>) (* division by zero *)
    else
      let count := if (length buffer <=? mss)%nat then 1%nat else div_ceil (length buffer) mss in
      if (255 <? count)%nat then (-2, k)
      else
        let count := if (count =? 0)%nat then 1%nat else count in
        (0, k <| k_snd_queue := send_loop (k_stream k) mss count 0 count buffer (k_snd_queue k) |>).

(** ** Receiving *)

(** The [for] loop of [peek_size]: payload bytes up to the first [frg == 0]. *)
Fixpoint peek_sum (q : list Segment) : Z :=
  match q with
  | [] => 0
  | seg :: q => zlen (sg_data seg) + (if sg_frg seg =? 0 then 0 else peek_sum q)
  end.

(** [Kcp::peek_size]. *)
Definition peek_size k : Z :=
  match head (k_rcv_queue k) with
  | None => -1
  | Some seg =>
      if sg_frg seg =? 0 then zlen (sg_data seg)
      else if zlen (k_rcv_queue k) <? u8 (sg_frg seg + 1) then -1
      else peek_sum (k_rcv_queue k)
  end.

(** The "merge fragment" loop of [recv]: pops segments and copies their payload
    to [buffer] from offset [n]; [None] is the panic of a slice out of range. *)
Fixpoint recv_merge (q : list Segment) (buffer : list Z) (n : nat)
    : option (list Segment * list Z * nat) :=
  match q with
  | [] => Some (q, buffer, n)
  | seg :: q =>
      let len := length (sg_data seg) in
      if (length buffer <? n + len)%nat then None
      else
        let buffer := take n buffer ++ sg_data seg ++ drop (n + len) buffer in
        if sg_frg seg =? 0 then Some (q, buffer, n + len)%nat
        else recv_merge q buffer (n + len)
  end.

(** The loop "move available data from rcv_buf -> rcv_queue" of [recv] and
    [parse_data]: pops the heap; the segment goes to the queue if it is the next
    one and there is room, and back into the heap (ending the loop) if not. *)
Fixpoint move_available (fuel : nat) k : Kcp O C :=
  match fuel with
  | 0%nat => k
  | S fuel =>
      match sh_pop (k_rcv_buf k) with
      | None => k
      | Some (seg, h) =>
          if (sg_sn seg =? k_rcv_nxt k) && (zlen (k_rcv_queue k) <? k_rcv_wnd k) then
            move_available fuel
              (k <| k_rcv_buf := h |> <| k_rcv_queue := q_push seg (k_rcv_queue k) |>
                 <| k_rcv_nxt := wadd32 (k_rcv_nxt k) 1 |>)
          else k <| k_rcv_buf := sh_push h seg |>
      end
  end.

(** Each round that goes on takes one segment out of the heap. *)
Definition move_fuel k : nat := S (sh_len (k_rcv_buf k)).

(** [Kcp::recv]: the code returned, the caller's buffer and the new state. *)
Definition recv (buffer : list Z) k : Z * list Z * Kcp O C :=
  let peeksize := peek_size k in
  if peeksize <? 0 then (-1, buffer, k)
  else if zlen buffer <? peeksize then (-2, buffer, k)
  else
    let fast_recover := k_rcv_wnd k <=? zlen (k_rcv_queue k) in
    match recv_merge (k_rcv_queue k) buffer 0 with
    | None => (0, buffer, k <| k_panic := true |>)
    | Some (q, buffer, n) =>
        let k := k <| k_rcv_queue := q |> in
        let k := move_available (move_fuel k) k in
        let k :=
          if (zlen (k_rcv_queue k) <? k_rcv_wnd k) && fast_recover then
            k <| k_probe := Z.lor (k_probe k) IKCP_ASK_TELL |>
          else k in
        (Z.of_nat n, buffer, k)
    end.

(** [Kcp::parse_data]: whether the segment was a repeat, and the new state. *)
Definition parse_data (newseg : Segment) (data : list Z) k : bool * Kcp O C :=
  let sn := sg_sn newseg in
  if (0 <=? _itimediff sn (wadd32 (k_rcv_nxt k) (k_rcv_wnd k)))
     || (_itimediff sn (k_rcv_nxt k) <? 0)
  then (true, k)
  else
    let '(repeat, k) :=
      if negb (sh_has (k_rcv_buf k) sn) then
        (false, k <| k_rcv_buf := sh_push (k_rcv_buf k) (newseg <| sg_data := data |>) |>)
      else (true, k) in
    (repeat, move_available (move_fuel k) k).

End Kcp.

(** ** [kcp.rs]: acknowledgements

    The RTT estimator [update_ack], the send buffer's search by sequence number
    ([snd_buf_offset], [scan_for_sn]; Decision D31), and [parse_ack],
    [parse_fastack], [parse_una], [shrink_buf], [ack_push]. *)
(** [i32::wrapping_add], [wrapping_sub]; [>>] on [i32] is [Z.shiftr]; [<<] on
    [u32] drops the high bits. *)
Definition iadd (a b : Z) : Z := i32 (a + b).
Definition isub (a b : Z) : Z := i32 (a - b).
Definition ushl (a n : Z) : Z := u32 (Z.shiftl a n).

Section Kcp.
Context {O C : Type} `{Output O, Clock C}.
Implicit Types (k : Kcp O C).

(** [Kcp::update_ack]. *)
Definition update_ack (rtt : Z) k : Kcp O C :=
  let k :=
    if k_rx_srtt k =? 0 then
      k <| k_rx_srtt := rtt |> <| k_rx_rttvar := Z.shiftr rtt 1 |>
    else
      let delta := isub rtt (k_rx_srtt k) in
      let k := k <| k_rx_srtt := iadd (k_rx_srtt k) (Z.shiftr delta 3) |> in
      let delta := if delta <? 0 then i32 (- delta) else delta in
      if rtt <? isub (k_rx_srtt k) (k_rx_rttvar k) then
        k <| k_rx_rttvar := iadd (k_rx_rttvar k) (Z.shiftr (isub delta (k_rx_rttvar k)) 5) |>
      else
        k <| k_rx_rttvar := iadd (k_rx_rttvar k) (Z.shiftr (isub delta (k_rx_rttvar k)) 2) |> in
  let rto := wadd32 (u32 (k_rx_srtt k)) (_imax_ (k_interval k) (ushl (u32 (k_rx_rttvar k)) 2)) in
  k <| k_rx_rto := _ibound_ (k_rx_minrto k) rto IKCP_RTO_MAX |>.

(** [Kcp::shrink_buf]. *)
Definition shrink_buf k : Kcp O C :=
  match head (k_snd_buf k) with
  | Some seg => k <| k_snd_una := sg_sn seg |>
  | None => k <| k_snd_una := k_snd_nxt k |>
  end.

(** [Kcp::scan_for_sn] from index [i] on. *)
Fixpoint scan_for_sn (sn : Z) (i : nat) (q : list Segment) : option nat :=
  match q with
  | [] => None
  | seg :: q =>
      if sn =? sg_sn seg then Some i
      else if _itimediff sn (sg_sn seg) <? 0 then None
      else scan_for_sn sn (S i) q
  end.

(** [Kcp::snd_buf_offset]. *)
Definition snd_buf_offset (sn : Z) k : option nat :=
  if negb (fs_enabled (k_flush_scan k)) then None
  else
    let offset := Z.to_nat (wsub32 sn (k_snd_una k)) in
    match k_snd_buf k !! offset with
    | Some seg => if sg_sn seg =? sn then Some offset else None
    | None => None
    end.

(** [Kcp::recycle_segment]. *)
Definition recycle_segment (seg : Segment) : Segment := seg <| sg_data := [] |>.

(** The guard of [parse_ack] and [parse_fastack]: [sn] is not in flight. *)
Definition out_of_flight (sn : Z) k : bool :=
  (_itimediff sn (k_snd_una k) <? 0) || (0 <=? _itimediff sn (k_snd_nxt k)).

(** [Kcp::parse_ack]. *)
Definition parse_ack (sn : Z) k : Kcp O C :=
  if out_of_flight sn k then k
  else
    let at_ :=
      match snd_buf_offset sn k with
      | Some offset => Some offset
      | None => scan_for_sn sn 0 (k_snd_buf k)
      end in
    match at_ with
    | Some i => k <| k_snd_buf := alter (fun seg => recycle_segment (seg <| sg_acked := 1 |>)) i (k_snd_buf k) |>
    | None => k
    end.

(** [Kcp::bump_fastack]: the captured [should_fast_ack] and [bumped], and the
    segment. *)
Definition bump_fastack (ts fastresend : Z) (s : Z * bool) (seg : Segment) : (Z * bool) * Segment :=
  let '(should_fast_ack, bumped) := s in
  if (_itimediff (sg_ts seg) ts <=? 0) && negb (sg_fastack seg =? FFFFFFFF) then
    let seg := seg <| sg_fastack := wadd32 (sg_fastack seg) 1 |> in
    let bumped := bumped || (sg_acked seg =? 0) in
    let should_fast_ack := if fastresend <=? sg_fastack seg then 1 else should_fast_ack in
    ((should_fast_ack, bumped), seg)
  else (s, seg).

(** The fallback callback of [parse_fastack]. *)
Definition fastack_visit (sn ts fastresend : Z) (s : Z * bool) (seg : Segment)
    : (Z * bool) * Segment * bool :=
  if _itimediff sn (sg_sn seg) <? 0 then (s, seg, false)
  else if negb (sn =? sg_sn seg) then
    let '(s, seg) := bump_fastack ts fastresend s seg in (s, seg, true)
  else (s, seg, true).

(** [Kcp::parse_fastack]. *)
Definition parse_fastack (sn ts : Z) k : Z * Kcp O C :=
  if out_of_flight sn k then (0, k)
  else
    let fastresend := u32 (k_fastresend k) in
    let '((should_fast_ack, bumped), q) :=
      match snd_buf_offset sn k with
      | Some offset => q_iter_mut_to offset (bump_fastack ts fastresend) (0, false) (k_snd_buf k)
      | None => q_for_each (fastack_visit sn ts fastresend) (0, false) (k_snd_buf k)
      end in
    let k := k <| k_snd_buf := q |> in
    let k :=
      if bumped then k <| k_flush_scan := (k_flush_scan k) <| fs_no_fastack := false |> |>
      else k in
    (should_fast_ack, k).

(** The callback of [parse_una]: counts the segments before [una]. *)
Definition una_visit (una : Z) (count : nat) (seg : Segment) : nat * Segment * bool :=
  if 0 <? _itimediff una (sg_sn seg) then (S count, recycle_segment seg, true)
  else (count, seg, false).

(** [Kcp::parse_una]. *)
Definition parse_una (una : Z) k : nat * Kcp O C :=
  let '(count, q) := q_for_each (una_visit una) 0%nat (k_snd_buf k) in
  let k := k <| k_snd_buf := drop count q |> in
  let unsent := Nat.min (fs_unsent (k_flush_scan k)) (length (k_snd_buf k)) in
  (count, k <| k_flush_scan := (k_flush_scan k) <| fs_unsent := unsent |> |>).

(** [Kcp::ack_push]. *)
Definition ack_push (sn ts : Z) k : Kcp O C := k <| k_acklist := k_acklist k ++ [mkAck sn ts] |>.

End Kcp.
