(* ===== verification/KcpFlush.v ===== *)
(** * [kcp.rs]: [Kcp::flush]

    The function in the stages its comments mark: acknowledgements, probe timer
    and probe commands, admission of queued segments to the window, the
    (re)transmission scan with the skip of Decision D29, the bookkeeping of what
    the scan learnt, the congestion window and the final packet.  The locals
    every stage shares (the packet being built) are a [Writer]; those of the
    scan loop are a [Scan]. *)
From S2P Require Import Prelude Word Env Segment Queue Heap KcpState.
Local Open Scope Z_scope.

(** ** The packet writer: [make_space!], [flush_buffer!], [encode!], [has_room!] *)

Record Writer (O : Type) := mkWriter {
  w_out : O;            (** [self.output] *)
  w_buffer : list Z;    (** [self.buffer] *)
  w_size : nat;         (** the local [size]: bytes written *)
  w_snmp : Snmp;
  w_panic : bool;
}.
Arguments mkWriter {O}.
Arguments w_out {O}.
Arguments w_buffer {O}.
Arguments w_size {O}.
Arguments w_snmp {O}.
Arguments w_panic {O}.

#[export] Instance eta_writer {O} : EtaRecord (Writer O) := fun w =>
  mkWriter (w_out w) (w_buffer w) (w_size w) (w_snmp w) (w_panic w).

(** The locals of the scan loop. *)
Record Scan (O C : Type) := mkScan {
  sc_w : Writer O;
  sc_clock : C;
  sc_state : Z;            (** [self.state] *)
  sc_current : Z;
  sc_change : Z;
  sc_lost : Z;             (** [lost_segs] *)
  sc_fast : Z;             (** [fast_retrans_segs] *)
  sc_early : Z;            (** [early_retrans_segs] *)
  sc_next_update : Z;
  sc_backpressured : bool;
  sc_min_rto : Z;
  sc_fastack : bool;       (** [scan_fastack] *)
  sc_unsent : nat;         (** [scan_unsent] *)
}.
Arguments mkScan {O C}.
Arguments sc_w {O C}.
Arguments sc_clock {O C}.
Arguments sc_state {O C}.
Arguments sc_current {O C}.
Arguments sc_change {O C}.
Arguments sc_lost {O C}.
Arguments sc_fast {O C}.
Arguments sc_early {O C}.
Arguments sc_next_update {O C}.
Arguments sc_backpressured {O C}.
Arguments sc_min_rto {O C}.
Arguments sc_fastack {O C}.
Arguments sc_unsent {O C}.

#[export] Instance eta_scan {O C} : EtaRecord (Scan O C) := fun s =>
  mkScan (sc_w s) (sc_clock s) (sc_state s) (sc_current s) (sc_change s) (sc_lost s)
    (sc_fast s) (sc_early s) (sc_next_update s) (sc_backpressured s) (sc_min_rto s)
    (sc_fastack s) (sc_unsent s).

(** What the scan loop only reads. *)
Record ScanCtx := mkScanCtx {
  cx_mtu : Z;
  cx_wnd : Z;          (** [seg.wnd] *)
  cx_una : Z;          (** [seg.una] *)
  cx_rx_rto : Z;
  cx_nodelay : Z;
  cx_dead_link : Z;
  cx_resent : Z;
  cx_new_segs : nat;   (** [new_segs_count] *)
}.

Section Kcp.
Context {O C : Type} `{Output O, Clock C}.
Implicit Types (k : Kcp O C) (w : Writer O) (s : Scan O C).

(** [&self.buffer[..size]] handed to the sink; slicing past the end panics. *)
Definition emit w : Writer O :=
  if (length (w_buffer w) <? w_size w)%nat then w <| w_panic := true |>
  else w <| w_out := output (w_out w) (take (w_size w) (w_buffer w)) |>.

Definition make_space (mtu : Z) (space : nat) w : Writer O :=
  if mtu <? Z.of_nat (w_size w + space) then (emit w) <| w_size := 0%nat |> else w.

Definition flush_buffer w : Writer O := if (0 <? w_size w)%nat then emit w else w.

(** [encode!]: the header into [buffer[size..]]. *)
Definition put_header (seg : Segment) w : Writer O :=
  if (length (w_buffer w) <? w_size w)%nat then w <| w_panic := true |>
  else
    match encode seg (take (w_size w) (w_buffer w), drop (w_size w) (w_buffer w)) (w_snmp w) with
    | None => w <| w_panic := true |>
    | Some ((written, rest), snmp) =>
        w <| w_buffer := written ++ rest |>
          <| w_size := (length (w_buffer w) - length rest)%nat |>
          <| w_snmp := snmp |>
    end.

(** [if size + need > buffer.len() { buffer.resize(size + need, 0) }]. *)
Definition reserve (need : nat) w : Writer O :=
  if (length (w_buffer w) <? w_size w + need)%nat then
    w <| w_buffer := w_buffer w ++ replicate (w_size w + need - length (w_buffer w)) 0 |>
  else w.

(** [self.buffer[size..size + data.len()].copy_from_slice(data); size += data.len()]. *)
Definition put_data (data : list Z) w : Writer O :=
  if (length (w_buffer w) <? w_size w + length data)%nat then w <| w_panic := true |>
  else
    w <| w_buffer := take (w_size w) (w_buffer w) ++ data
                       ++ drop (w_size w + length data) (w_buffer w) |>
      <| w_size := (w_size w + length data)%nat |>.

(** [has_room!]. *)
Definition has_room w : bool * Writer O :=
  let '(c, o) := capacity (w_out w) in (OUTPUT_ROOM <=? c, w <| w_out := o |>).

(** ** Acknowledgements *)

(** The loop over [acklist]: the template [seg] (it keeps the [sn] and [ts] of
    the last ACK written), the writer and [acks_done]. *)
Fixpoint flush_acks_loop (mtu rcv_nxt : Z) (acklist_len i : nat) (acks : list AckItem)
    (seg : Segment) w (acks_done : nat) : Segment * Writer O * nat :=
  match acks with
  | [] => (seg, w, acks_done)
  | ack :: acks =>
      let '(room, w) := has_room w in
      if negb room then (seg, w, acks_done)
      else
        let w := make_space mtu OVERHEAD w in
        let '(seg, w) :=
          if (0 <=? _itimediff (ack_sn ack) rcv_nxt) || (acklist_len - 1 =? i)%nat then
            let seg := seg <| sg_sn := ack_sn ack |> <| sg_ts := ack_ts ack |> in
            (seg, put_header seg w)
          else (seg, w) in
        flush_acks_loop mtu rcv_nxt acklist_len (S i) acks seg w (i + 1)%nat
  end.

Definition flush_acks (seg : Segment) w k : Segment * Writer O * Kcp O C :=
  let acklist_len := length (k_acklist k) in
  let '(seg, w, acks_done) :=
    flush_acks_loop (k_mtu k) (k_rcv_nxt k) acklist_len 0 (k_acklist k) seg w 0 in
  let k :=
    if (acks_done =? acklist_len)%nat then k <| k_acklist := [] |>
    else k <| k_acklist := drop acks_done (k_acklist k) |> in
  (seg, w, k).

(** ** Window probes *)

(** "probe window size (if remote window size equals zero)". *)
Definition probe_timer k : Kcp O C :=
  if k_rmt_wnd k =? 0 then
    let '(current, clock) := now_ms (k_clock k) in
    let k := k <| k_clock := clock |> in
    if k_probe_wait k =? 0 then
      let k := k <| k_probe_wait := IKCP_PROBE_INIT |> in
      k <| k_ts_probe := wadd32 current (k_probe_wait k) |>
    else if 0 <=? _itimediff current (k_ts_probe k) then
      let k :=
        if k_probe_wait k <? IKCP_PROBE_INIT then k <| k_probe_wait := IKCP_PROBE_INIT |> else k in
      let k := k <| k_probe_wait := u32 (k_probe_wait k + k_probe_wait k / 2) |> in
      let k :=
        if IKCP_PROBE_LIMIT <? k_probe_wait k then k <| k_probe_wait := IKCP_PROBE_LIMIT |> else k in
      let k := k <| k_ts_probe := wadd32 current (k_probe_wait k) |> in
      k <| k_probe := Z.lor (k_probe k) IKCP_ASK_SEND |>
    else k
  else k <| k_ts_probe := 0 |> <| k_probe_wait := 0 |>.

(** One probe command: [if (probe & ask) != 0 && has_room!()]. *)
Definition flush_probe (mtu probe ask cmd : Z) (seg : Segment) w (probe_done : Z)
    : Segment * Writer O * Z :=
  if Z.land probe ask =? 0 then (seg, w, probe_done)
  else
    let '(room, w) := has_room w in
    if negb room then (seg, w, probe_done)
    else
      let seg := seg <| sg_cmd := cmd |> in
      let w := make_space mtu OVERHEAD w in
      (seg, put_header seg w, Z.lor probe_done ask).

Definition flush_probes (seg : Segment) w k : Segment * Writer O * Kcp O C :=
  let '(seg, w, probe_done) :=
    flush_probe (k_mtu k) (k_probe k) IKCP_ASK_SEND IKCP_CMD_WASK seg w 0 in
  let '(seg, w, probe_done) :=
    flush_probe (k_mtu k) (k_probe k) IKCP_ASK_TELL IKCP_CMD_WINS seg w probe_done in
  (seg, w, k <| k_probe := Z.ldiff (k_probe k) probe_done |>).

(** ** Admission *)

(** "calculate window size". *)
Definition flush_cwnd k : Z :=
  let cwnd := _imin_ (k_snd_wnd k) (k_rmt_wnd k) in
  if k_nocwnd k =? 0 then _imin_ (k_cwnd k) cwnd else cwnd.

(** The sliding-window loop: [snd_queue], [snd_buf], [snd_nxt] and
    [new_segs_count]. *)
Fixpoint admit_loop (conv snd_una cwnd : Z) (snd_queue snd_buf : list Segment) (snd_nxt : Z)
    (new_segs_count : nat) : list Segment * list Segment * Z * nat :=
  if 0 <=? _itimediff snd_nxt (wadd32 snd_una cwnd) then
    (snd_queue, snd_buf, snd_nxt, new_segs_count)
  else
    match snd_queue with
    | [] => ([], snd_buf, snd_nxt, new_segs_count)
    | newseg :: snd_queue =>
        let newseg := newseg <| sg_conv := conv |> <| sg_cmd := IKCP_CMD_PUSH |>
                             <| sg_sn := snd_nxt |> in
        admit_loop conv snd_una cwnd snd_queue (q_push newseg snd_buf) (wadd32 snd_nxt 1)
          (S new_segs_count)
    end.

Definition admit_new (cwnd : Z) k : nat * Kcp O C :=
  let '(snd_queue, snd_buf, snd_nxt, new_segs_count) :=
    admit_loop (k_conv k) (k_snd_una k) cwnd (k_snd_queue k) (k_snd_buf k) (k_snd_nxt k) 0 in
  (new_segs_count,
   k <| k_snd_queue := snd_queue |> <| k_snd_buf := snd_buf |> <| k_snd_nxt := snd_nxt |>).

(** "calculate resent". *)
Definition flush_resent k : Z :=
  if k_fastresend k <=? 0 then FFFFFFFF else u32 (k_fastresend k).

(** ** The scan of [snd_buf] *)

(** The local [would_send]. *)
Definition would_send (cx : ScanCtx) s (segment : Segment) : bool :=
  negb (sc_backpressured s) &&
  ((sg_xmit segment =? 0)
   || ((cx_resent cx <=? sg_fastack segment) && negb (sg_fastack segment =? FFFFFFFF))
   || ((0 <? sg_fastack segment) && negb (sg_fastack segment =? FFFFFFFF)
       && (cx_new_segs cx =? 0)%nat)
   || (0 <=? _itimediff (sc_current s) (sg_resendts segment))).

(** [note_tail!] and [note_scanned!]. *)
Definition note_tail (segment : Segment) s : Scan O C :=
  s <| sc_unsent := (sc_unsent s + (if (sg_xmit segment =? 0)%Z then 1 else 0))%nat |>.

Definition note_scanned (segment : Segment) (rto : Z) s : Scan O C :=
  let s := note_tail segment s in
  let s := s <| sc_fastack := sc_fastack s || (wsub32 (sg_fastack segment) 1 <? 4294967294) |> in
  s <| sc_min_rto := Z.min (sc_min_rto s) rto |>.

(** "get the nearest rto". *)
Definition nearest_rto (rto : Z) s : Scan O C :=
  if (0 <? rto) && (u32 rto <? sc_next_update s) then s <| sc_next_update := u32 rto |> else s.

(** The chain of the four retransmission branches: [needsend], the locals and
    the segment. *)
Definition retransmit (cx : ScanCtx) s (segment : Segment) : bool * Scan O C * Segment :=
  let restart segment :=
    let segment := segment <| sg_rto := cx_rx_rto cx |> in
    segment <| sg_resendts := wadd32 (sc_current s) (sg_rto segment) |> in
  if sg_xmit segment =? 0 then (true, s, restart segment)
  else if (cx_resent cx <=? sg_fastack segment) && negb (sg_fastack segment =? FFFFFFFF) then
    (true, s <| sc_change := sc_change s + 1 |> <| sc_fast := sc_fast s + 1 |>,
     restart (segment <| sg_fastack := FFFFFFFF |>))
  else if (0 <? sg_fastack segment) && negb (sg_fastack segment =? FFFFFFFF)
          && (cx_new_segs cx =? 0)%nat then
    (true, s <| sc_change := sc_change s + 1 |> <| sc_early := sc_early s + 1 |>,
     restart (segment <| sg_fastack := FFFFFFFF |>))
  else if 0 <=? _itimediff (sc_current s) (sg_resendts segment) then
    let segment :=
      if cx_nodelay cx =? 0 then segment <| sg_rto := wadd32 (sg_rto segment) (cx_rx_rto cx) |>
      else segment <| sg_rto := wadd32 (sg_rto segment) (cx_rx_rto cx / 2) |> in
    let segment := segment <| sg_fastack := 0 |> in
    (true, s <| sc_lost := sc_lost s + 1 |>,
     segment <| sg_resendts := wadd32 (sc_current s) (sg_rto segment) |>)
  else (false, s, segment).

(** The body of [if needsend]: a fresh timestamp, the header and the payload. *)
Definition transmit (cx : ScanCtx) s (segment : Segment) : Scan O C * Segment :=
  let '(current, clock) := now_ms (sc_clock s) in
  let s := s <| sc_current := current |> <| sc_clock := clock |> in
  let segment := segment <| sg_xmit := wadd32 (sg_xmit segment) 1 |> <| sg_ts := current |>
                         <| sg_wnd := cx_wnd cx |> <| sg_una := cx_una cx |> in
  let need := (OVERHEAD + length (sg_data segment))%nat in
  let w := put_data (sg_data segment)
             (put_header segment (reserve need (make_space (cx_mtu cx) need (sc_w s)))) in
  let s := s <| sc_w := w |> in
  let s := if cx_dead_link cx <=? sg_xmit segment then s <| sc_state := FFFFFFFF |> else s in
  (s, segment).

(** The body of the loop [for segment in self.snd_buf.iter_mut_from(skipped)]. *)
Definition scan_segment (cx : ScanCtx) s (segment : Segment) : Scan O C * Segment :=
  if sg_acked segment =? 1 then (note_tail segment s, segment)
  else
    let s :=
      if would_send cx s segment then
        let '(room, w) := has_room (sc_w s) in
        let s := s <| sc_w := w |> in
        if negb room then s <| sc_backpressured := true |> else s
      else s in
    if sc_backpressured s then
      let rto := _itimediff (sg_resendts segment) (sc_current s) in
      let s := nearest_rto rto s in
      (note_scanned segment (if sg_xmit segment =? 0 then i32_MAX else rto) s, segment)
    else
      let '(needsend, s, segment) := retransmit cx s segment in
      let '(s, segment) := if (needsend : bool) then transmit cx s segment else (s, segment) in
      let rto := _itimediff (sg_resendts segment) (sc_current s) in
      let s := nearest_rto rto s in
      (note_scanned segment rto s, segment).

(** The never-transmitted run at the tail: [snd_buf.iter().rev()] up to the
    first transmitted segment. *)
Fixpoint unsent_run (q : list Segment) : nat :=
  match q with
  | [] => 0
  | seg :: q => if negb (sg_xmit seg =? 0)%Z then 0 else S (unsent_run q)
  end%nat.

Definition unsent_tail (snd_buf : list Segment) : nat := unsent_run (rev snd_buf).

(** What is remembered after a full scan that started at [skipped]. *)
Definition finish_scan (skipped : nat) (scan_base : Z) s (snd_buf : list Segment)
    (fs : FlushScan) : FlushScan :=
  let head := if (0 <? skipped)%nat then fs_due fs else Nothing in
  let scan_due :=
    if sc_min_rto s =? i32_MAX then Nothing else NotBefore (wadd32 scan_base (sc_min_rto s)) in
  let fs := fs <| fs_due := merge head scan_due |> in
  let fs := fs <| fs_no_fastack := negb (sc_fastack s) |> in
  let tail := unsent_tail snd_buf in
  let fs := fs <| fs_unsent := tail |> in
  if negb (sc_unsent s =? tail)%nat then fs <| fs_due := Unknown |> <| fs_unsent := 0%nat |>
  else fs.

(** How many segments at the head of [snd_buf] a flush leaves untouched. *)
Definition flush_skipped (flush_type : FlushType) (current : Z) (unsent_now : nat) k : nat :=
  if is_full flush_type && can_skip (k_flush_scan k) current (k_interval k) then
    (length (k_snd_buf k) - unsent_now)%nat
  else 0%nat.

Definition scan_ctx (wnd una resent : Z) (new_segs : nat) k : ScanCtx := {|
  cx_mtu := k_mtu k; cx_wnd := wnd; cx_una := una; cx_rx_rto := k_rx_rto k;
  cx_nodelay := k_nodelay k; cx_dead_link := k_dead_link k; cx_resent := resent;
  cx_new_segs := new_segs;
|}.

Definition scan_start w (clock : C) (current : Z) k : Scan O C := {|
  sc_w := w; sc_clock := clock; sc_state := k_state k; sc_current := current;
  sc_change := 0; sc_lost := 0; sc_fast := 0; sc_early := 0;
  sc_next_update := k_interval k; sc_backpressured := false;
  sc_min_rto := i32_MAX; sc_fastack := false; sc_unsent := 0%nat;
|}.

(** "flush segments": the whole stage, from reading the clock to updating
    [flush_scan].  [seg] is the template whose [wnd] and [una] are stamped. *)
Definition flush_segments (flush_type : FlushType) (seg : Segment) (resent : Z)
    (unsent_before new_segs_count : nat) w k : Scan O C * Kcp O C :=
  let '(current, clock) := now_ms (k_clock k) in
  let unsent_now := (unsent_before + new_segs_count)%nat in
  let skipped := flush_skipped flush_type current unsent_now k in
  let s := scan_start w clock current k in
  if is_full flush_type then
    let cx := scan_ctx (sg_wnd seg) (sg_una seg) resent new_segs_count k in
    let '(s, q) := q_iter_mut_from skipped (scan_segment cx) s (k_snd_buf k) in
    (s, k <| k_snd_buf := q |>
          <| k_flush_scan := finish_scan skipped current s q (k_flush_scan k) |>)
  else (s, k <| k_flush_scan := (k_flush_scan k) <| fs_unsent := unsent_now |> |>).

(** "counter updates". *)
Definition count_retrans (s : Scan O C) (snmp : Snmp) : Snmp :=
  let sum := sc_lost s in
  let snmp :=
    if 0 <? sc_lost s then snmp <| lost_segs := fetch_add (lost_segs snmp) (sc_lost s) |>
    else snmp in
  let '(snmp, sum) :=
    if 0 <? sc_fast s then
      (snmp <| fast_retrans_segs := fetch_add (fast_retrans_segs snmp) (sc_fast s) |>,
       sum + sc_fast s)
    else (snmp, sum) in
  let '(snmp, sum) :=
    if 0 <? sc_early s then
      (snmp <| early_retrans_segs := fetch_add (early_retrans_segs snmp) (sc_early s) |>,
       sum + sc_early s)
    else (snmp, sum) in
  if 0 <? sum then snmp <| retrans_segs := fetch_add (retrans_segs snmp) sum |> else snmp.

(** "cwnd update": rate halving on a fast retransmit, collapse on a loss. *)
Definition flush_cwnd_update (cwnd resent change lost_segs : Z) k : Kcp O C :=
  if negb (k_nocwnd k =? 0) then k
  else
    let k :=
      if 0 <? change then
        let inflight := wsub32 (k_snd_nxt k) (k_snd_una k) in
        let k := k <| k_ssthresh := Z.max (inflight / 2) IKCP_THRESH_MIN |> in
        let k := k <| k_cwnd := wadd32 (k_ssthresh k) resent |> in
        k <| k_incr := wmul32 (k_cwnd k) (k_mss k) |>
      else k in
    let k :=
      if 0 <? lost_segs then
        k <| k_ssthresh := Z.max (cwnd / 2) IKCP_THRESH_MIN |> <| k_cwnd := 1 |>
          <| k_incr := k_mss k |>
      else k in
    if k_cwnd k <? 1 then k <| k_cwnd := 1 |> <| k_incr := k_mss k |> else k.

(** The gauges stored at the end of every flush. *)
Definition flush_gauges k (snmp : Snmp) : Snmp :=
  snmp <| ring_buffer_snd_queue := zlen (k_snd_queue k) |>
       <| ring_buffer_rcv_queue := zlen (k_rcv_queue k) |>
       <| ring_buffer_snd_buffer := zlen (k_snd_buf k) |>.

(** The template segment every flush starts from. *)
Definition flush_template k : Segment :=
  segment_default <| sg_conv := k_conv k |> <| sg_cmd := IKCP_CMD_ACK |>
    <| sg_wnd := wnd_unused k |> <| sg_una := k_rcv_nxt k |>.

(** Everything before the scan: acknowledgements, probes, admission. *)
Definition flush_head k : Segment * Writer O * nat * Kcp O C :=
  let seg := flush_template k in
  let w := mkWriter (k_output k) (k_buffer k) 0 (k_snmp k) (k_panic k) in
  let '(seg, w, k) := flush_acks seg w k in
  let k := probe_timer k in
  let '(seg, w, k) := flush_probes seg w k in
  let '(new_segs_count, k) := admit_new (flush_cwnd k) k in
  (seg, w, new_segs_count, k).

(** Everything after it: counters, congestion window, the last packet. *)
Definition flush_tail (cwnd resent : Z) (s : Scan O C) k : Z * Kcp O C :=
  let w := sc_w s in
  let w := w <| w_snmp := count_retrans s (w_snmp w) |> in
  let k := k <| k_state := sc_state s |> <| k_clock := sc_clock s |> in
  let k := flush_cwnd_update cwnd resent (sc_change s) (sc_lost s) k in
  let w := flush_buffer w in
  let w := w <| w_snmp := flush_gauges k (w_snmp w) |> in
  (sc_next_update s,
   k <| k_output := w_out w |> <| k_buffer := w_buffer w |> <| k_snmp := w_snmp w |>
     <| k_panic := w_panic w |>).

(** [Kcp::flush]: the time until the nearest retransmission, and the state. *)
Definition flush (flush_type : FlushType) k : Z * Kcp O C :=
  let '(seg, w, new_segs_count, k) := flush_head k in
  let cwnd := flush_cwnd k in
  let resent := flush_resent k in
  let '(s, k) :=
    flush_segments flush_type seg resent (fs_unsent (k_flush_scan k)) new_segs_count w k in
  flush_tail cwnd resent s k.

End Kcp.
