(* ===== verification/KcpInput.v ===== *)
(** * [kcp.rs]: feeding packets and driving the timer

    [Kcp::input] (the loop over the segments of a packet, the RTT sample, the
    congestion window and the flush it triggers), [Kcp::update] and
    [Kcp::check]. *)
From S2P Require Import Prelude Word Env Segment Queue Heap KcpState KcpSend KcpFlush.
Local Open Scope Z_scope.

(** The locals of [input]. *)
Record InputLocals := mkInput {
  in_latest : Z;
  in_update_rtt : bool;
  in_segs_count : Z;        (** [in_segs] *)
  in_flush_segments : Z;
}.

#[export] Instance eta_input : EtaRecord InputLocals := fun l =>
  mkInput (in_latest l) (in_update_rtt l) (in_segs_count l) (in_flush_segments l).

Definition input_start : InputLocals := mkInput 0 false 0 0.

Definition known_cmd (cmd : Z) : bool :=
  (cmd =? IKCP_CMD_PUSH) || (cmd =? IKCP_CMD_ACK) || (cmd =? IKCP_CMD_WASK) || (cmd =? IKCP_CMD_WINS).

Section Kcp.
Context {O C : Type} `{Output O, Clock C}.
Implicit Types (k : Kcp O C).

(** The [IKCP_CMD_PUSH] arm. *)
Definition input_push (pkt_type : PacketType) (h : SegmentHeader) (payload : list Z) k : Kcp O C :=
  let '(repeat, k) :=
    if _itimediff (h_sn h) (wadd32 (k_rcv_nxt k) (k_rcv_wnd k)) <? 0 then
      let k := ack_push (h_sn h) (h_ts h) k in
      if 0 <=? _itimediff (h_sn h) (k_rcv_nxt k) then
        let seg := segment_default <| sg_conv := h_conv h |> <| sg_cmd := h_cmd h |>
                     <| sg_frg := h_frg h |> <| sg_wnd := h_wnd h |> <| sg_ts := h_ts h |>
                     <| sg_sn := h_sn h |> <| sg_una := h_una h |> in
        parse_data seg payload k
      else (true, k)
    else (true, k) in
  if is_regular pkt_type && (repeat : bool) then
    k <| k_snmp := (k_snmp k) <| repeat_segs := fetch_add (repeat_segs (k_snmp k)) 1 |> |>
  else k.

(** One segment of the packet: header [h], the bytes after it in [data].  [inl]
    is an early return with its code, [inr] the locals, the rest of the packet
    and the state the loop goes on with. *)
Definition input_segment (pkt_type : PacketType) (h : SegmentHeader) (data : list Z)
    (l : InputLocals) k : (Z * Kcp O C) + (InputLocals * list Z * Kcp O C) :=
  if negb (h_conv h =? k_conv k) then inl (-1, k)
  else if zlen data <? h_len h then inl (-2, k)
  else if negb (known_cmd (h_cmd h)) then inl (-3, k)
  else
    let k := if is_regular pkt_type then k <| k_rmt_wnd := h_wnd h |> else k in
    let '(removed, k) := parse_una (h_una h) k in
    let l :=
      if (0 <? removed)%nat then l <| in_flush_segments := Z.lor (in_flush_segments l) 1 |> else l in
    let k := shrink_buf k in
    let length := Z.to_nat (h_len h) in
    let '(l, k) :=
      if h_cmd h =? IKCP_CMD_ACK then
        let k := parse_ack (h_sn h) k in
        let '(fast, k) := parse_fastack (h_sn h) (h_ts h) k in
        (l <| in_flush_segments := Z.lor (in_flush_segments l) fast |>
           <| in_update_rtt := true |> <| in_latest := h_ts h |>, k)
      else if h_cmd h =? IKCP_CMD_PUSH then
        (l, input_push pkt_type h (take length data) k)
      else if h_cmd h =? IKCP_CMD_WASK then
        (l, k <| k_probe := Z.lor (k_probe k) IKCP_ASK_TELL |>)
      else (l, k) in
    inr (l <| in_segs_count := in_segs_count l + 1 |>, drop length data, k).

(** [while let Some((h, rest)) = SegmentHeader::decode(data)]. *)
Fixpoint input_loop (fuel : nat) (pkt_type : PacketType) (data : list Z) (l : InputLocals) k
    : (Z * Kcp O C) + (InputLocals * Kcp O C) :=
  match fuel with
  | 0%nat => inr (l, k)
  | S fuel =>
      match decode data with
      | None => inr (l, k)
      | Some (h, data) =>
          match input_segment pkt_type h data l k with
          | inl ret => inl ret
          | inr (l, data, k) => input_loop fuel pkt_type data l k
          end
      end
  end.

(** Each round consumes a header at least. *)
Definition input_fuel (data : list Z) : nat := S (length data).

(** "update rtt with the latest ts". *)
Definition input_rtt (pkt_type : PacketType) (l : InputLocals) k : Kcp O C :=
  if in_update_rtt l && is_regular pkt_type then
    let '(current, clock) := now_ms (k_clock k) in
    let k := k <| k_clock := clock |> in
    if 0 <=? _itimediff current (in_latest l) then update_ack (_itimediff current (in_latest l)) k
    else k
  else k.

(** "cwnd update when packet arrived"; [snd_una] is its value on entry. *)
Definition input_cwnd (snd_una : Z) k : Kcp O C :=
  if (k_nocwnd k =? 0) && (0 <? _itimediff (k_snd_una k) snd_una) && (k_cwnd k <? k_rmt_wnd k) then
    let mss := k_mss k in
    let k :=
      if k_cwnd k <? k_ssthresh k then
        k <| k_cwnd := wadd32 (k_cwnd k) 1 |> <| k_incr := wadd32 (k_incr k) mss |>
      else
        let k := if k_incr k <? mss then k <| k_incr := mss |> else k in
        let k := if k_incr k =? 0 then k <| k_panic := true |> else k in (* division by zero *)
        let k := k <| k_incr := wadd32 (k_incr k) (wadd32 (wmul32 mss mss / k_incr k) (mss / 16)) |> in
        if wmul32 (wadd32 (k_cwnd k) 1) mss <=? k_incr k then
          if 0 <? mss then k <| k_cwnd := wsub32 (wadd32 (k_incr k) mss) 1 / mss |>
          else k <| k_cwnd := wsub32 (wadd32 (k_incr k) mss) 1 |>
        else k in
    if k_rmt_wnd k <? k_cwnd k then
      k <| k_cwnd := k_rmt_wnd k |> <| k_incr := wmul32 (k_rmt_wnd k) mss |>
    else k
  else k.

(** "Determine if we need to flush data segments or acks". *)
Definition input_flush (ack_no_delay : bool) (l : InputLocals) k : Kcp O C :=
  if negb (in_flush_segments l =? 0) then snd (flush Full k)
  else if k_mtu k / IKCP_OVERHEAD <=? zlen (k_acklist k) then snd (flush AckOnly k)
  else if ack_no_delay && negb (is_nil (k_acklist k)) then snd (flush AckOnly k)
  else k.

(** [Kcp::input]. *)
Definition input (data : list Z) (pkt_type : PacketType) (ack_no_delay : bool) k : Z * Kcp O C :=
  let snd_una := k_snd_una k in
  if zlen data <? IKCP_OVERHEAD then (-1, k)
  else
    match input_loop (input_fuel data) pkt_type data input_start k with
    | inl ret => ret
    | inr (l, k) =>
        let k := k <| k_snmp := (k_snmp k) <| in_segs := fetch_add (in_segs (k_snmp k)) (in_segs_count l) |> |> in
        let k := input_rtt pkt_type l k in
        let k := input_cwnd snd_una k in
        (0, input_flush ack_no_delay l k)
    end.

(** ** The timer *)

(** [Kcp::update]. *)
Definition update k : Kcp O C :=
  let '(current, clock) := now_ms (k_clock k) in
  let k := k <| k_clock := clock |> in
  let k := if k_updated k =? 0 then k <| k_updated := 1 |> <| k_ts_flush := current |> else k in
  let slap := _itimediff current (k_ts_flush k) in
  let '(slap, k) :=
    if negb ((-10000 <=? slap) && (slap <? 10000)) then (0, k <| k_ts_flush := current |>)
    else (slap, k) in
  if 0 <=? slap then
    let k := k <| k_ts_flush := wadd32 (k_ts_flush k) (k_interval k) |> in
    let k :=
      if 0 <=? _itimediff current (k_ts_flush k) then
        k <| k_ts_flush := wadd32 current (k_interval k) |>
      else k in
    snd (flush Full k)
  else k.

(** The loop of [check] over [snd_buf]: [inl] is the early return. *)
Fixpoint check_loop (current tm_packet : Z) (q : list Segment) : Z + Z :=
  match q with
  | [] => inr tm_packet
  | seg :: q =>
      let diff := _itimediff (sg_resendts seg) current in
      if diff <=? 0 then inl current
      else check_loop current (if diff <? tm_packet then diff else tm_packet) q
  end.

(** [Kcp::check]: the time returned, and the state (only its clock was read). *)
Definition check k : Z * Kcp O C :=
  let '(current, clock) := now_ms (k_clock k) in
  let k := k <| k_clock := clock |> in
  let ts_flush := k_ts_flush k in
  if k_updated k =? 0 then (current, k)
  else
    let ts_flush :=
      if (10000 <=? _itimediff current ts_flush) || (_itimediff current ts_flush <? -10000)
      then current else ts_flush in
    if 0 <=? _itimediff current ts_flush then (current, k)
    else
      let tm_flush := _itimediff ts_flush current in
      match check_loop current i32_MAX (k_snd_buf k) with
      | inl t => (t, k)
      | inr tm_packet =>
          let minimal := if tm_flush <=? tm_packet then u32 tm_flush else u32 tm_packet in
          let minimal := if k_interval k <=? minimal then k_interval k else minimal in
          (wadd32 current minimal, k)
      end.

(** ** Whole runs: every public operation as a step *)

Inductive kcp_op :=
| OpSend (buffer : list Z)
| OpRecv (buffer : list Z)
| OpInput (data : list Z) (pkt_type : PacketType) (ack_no_delay : bool)
| OpFlush (flush_type : FlushType)
| OpUpdate
| OpCheck
| OpSetMtu (mtu : Z)
| OpNodelay (nodelay interval resend nc : Z)
| OpWndSize (sndwnd rcvwnd : Z).

(** What the caller of an operation sees. *)
Inductive kcp_ret :=
| RetUnit
| RetCode (code : Z)
| RetRecv (code : Z) (buffer : list Z).

Definition kcp_step (op : kcp_op) k : kcp_ret * Kcp O C :=
  match op with
  | OpSend buffer => let '(c, k) := send buffer k in (RetCode c, k)
  | OpRecv buffer => let '(c, buffer, k) := recv buffer k in (RetRecv c buffer, k)
  | OpInput data pkt_type nd => let '(c, k) := input data pkt_type nd k in (RetCode c, k)
  | OpFlush ft => let '(t, k) := flush ft k in (RetCode t, k)
  | OpUpdate => (RetUnit, update k)
  | OpCheck => let '(t, k) := check k in (RetCode t, k)
  | OpSetMtu mtu => let '(c, k) := set_mtu mtu k in (RetCode c, k)
  | OpNodelay a b c d => let '(c, k) := nodelay a b c d k in (RetCode c, k)
  | OpWndSize a b => let '(c, k) := wnd_size a b k in (RetCode c, k)
  end.

Fixpoint kcp_run (ops : list kcp_op) k : list kcp_ret * Kcp O C :=
  match ops with
  | [] => ([], k)
  | op :: ops =>
      let '(r, k) := kcp_step op k in
      let '(rs, k) := kcp_run ops k in (r :: rs, k)
  end.

End Kcp.

(** A run with explicit parameters, for closed examples. *)
Example two_peers_exchange :
  let a : Kcp (list (list Z)) (list Z) := with_clock 7 [] [5] snmp_new in
  let b : Kcp (list (list Z)) (list Z) := with_clock 7 [] [9] snmp_new in
  let a := snd (send [1; 2; 3] a) in
  let a := snd (flush Full a) in
  let a := snd (flush Full a) in
  match k_output a with
  | [p] => match input p Regular false b with
           | (c, b) => let '(n, buf, b) := recv [0;0;0;0] b in (length p, c, n, buf, k_panic b)
           end
  | _ => (0%nat, 9, 9, [], true)
  end = (27%nat, 0, 3, [1; 2; 3; 0], false).
Proof. vm_compute. reflexivity. Qed.
