(* ===== verification/KcpInv.v ===== *)
(** * The well-formedness invariant of [Kcp]

    The types of the fields, the relation between MTU, segment size and flush
    buffer, the contiguity of the send buffer ("[snd_buf] holds the segments
    [snd_una ..< snd_nxt] in ascending order with no gaps"), the receive heap
    and the absence of panics, with the lemmas that the operations other than
    [flush] preserve it. *)
From S2P Require Import Prelude Word Env Segment Queue Heap KcpState KcpSend KcpFlush KcpInput.
Local Open Scope Z_scope.

(** ** Segments in the queues *)

(** A segment [send] made and no flush has looked at. *)
Definition queued_seg (s : Segment) : Prop :=
  is_u8 (sg_frg s) /\ bytes (sg_data s) /\ is_u32 (zlen (sg_data s)) /\
  sg_xmit s = 0 /\ sg_acked s = 0 /\ sg_fastack s = 0 /\ sg_resendts s = 0 /\ sg_rto s = 0.

(** A segment in the send buffer. *)
Definition snd_seg (conv : Z) (s : Segment) : Prop :=
  sg_conv s = conv /\ sg_cmd s = IKCP_CMD_PUSH /\ is_u8 (sg_frg s) /\
  bytes (sg_data s) /\ is_u32 (zlen (sg_data s)) /\
  (sg_acked s = 0 \/ sg_acked s = 1) /\ is_u32 (sg_xmit s) /\ is_u32 (sg_fastack s) /\
  is_u32 (sg_rto s) /\ is_u32 (sg_resendts s).

(** Consecutive sequence numbers from [base] on. *)
Definition sn_chain (base : Z) (q : list Segment) : Prop :=
  forall i s, q !! i = Some s -> sg_sn s = u32 (base + Z.of_nat i).

(** What every operation but [parse_una] does to a segment of the send buffer:
    its identity stays, its well-formedness is kept. *)
Definition seg_kept (s s' : Segment) : Prop :=
  sg_sn s' = sg_sn s /\ forall conv, snd_seg conv s -> snd_seg conv s'.

#[export] Instance seg_kept_refl : Reflexive seg_kept.
Proof. by intros s. Qed.

#[export] Instance seg_kept_trans : Transitive seg_kept.
Proof. intros s1 s2 s3 [E1 H1] [E2 H2]. split; [congruence|]. intros. by apply H2, H1. Qed.

Lemma sn_chain_nil base : sn_chain base [].
Proof. intros i s Hi. by rewrite lookup_nil in Hi. Qed.

Lemma sn_chain_u32 base q : sn_chain (u32 base) q <-> sn_chain base q.
Proof. unfold sn_chain. split; intros Hc i s Hi; rewrite (Hc i s Hi); [|symmetry]; apply u32_add_l. Qed.

Lemma sn_chain_kept base q q' : Forall2 seg_kept q q' -> sn_chain base q -> sn_chain base q'.
Proof.
  intros Hk Hc i s' Hi. destruct (Forall2_lookup_r _ _ _ _ _ Hk Hi) as (s & Hs & [-> _]). by apply Hc.
Qed.

Lemma sn_chain_drop base q n : sn_chain base q -> sn_chain (base + Z.of_nat n) (drop n q).
Proof.
  intros Hc i s Hi. rewrite lookup_drop in Hi. rewrite (Hc _ _ Hi). f_equal. lia.
Qed.

Lemma sn_chain_snoc base q s :
  sn_chain base q -> sg_sn s = u32 (base + zlen q) -> sn_chain base (q ++ [s]).
Proof.
  intros Hc Hs i x Hi. apply lookup_app_Some in Hi as [Hi|[Hl Hi]]; [by apply Hc|].
  destruct (i - length q)%nat eqn:E; [|done]. injection Hi as <-.
  rewrite Hs. unfold zlen. do 2 f_equal. lia.
Qed.

Lemma Forall_kept conv q q' : Forall2 seg_kept q q' -> Forall (snd_seg conv) q -> Forall (snd_seg conv) q'.
Proof. induction 1 as [|s s' q q' [_ Hk] Hq IH]; [done|]. rewrite !Forall_cons. naive_solver. Qed.

Lemma zlen_kept q q' : Forall2 seg_kept q q' -> zlen q' = zlen q.
Proof. intros Hk. unfold zlen. by rewrite (Forall2_length _ _ _ Hk). Qed.

(** ** The invariant *)

(** Closes the fields an operation does not touch. *)
Ltac wf_same := constructor; ksimpl; try done.

(** The fields of the invariant as hypotheses. *)
Ltac wf_open H :=
  destruct H as [wf_conv0 wf_mtu0 wf_mss0 wf_buffer0 wf_snd0 wf_snd_queue0
    wf_rcv_nxt0 wf_rcv_buf0 wf_rcv_wnd0 wf_snd_wnd0 wf_rmt_wnd0 wf_cwnd0 wf_acks0 wf_interval0 wf_minrto0 wf_rto0 wf_fastresend0 wf_no_panic0].


Section Kcp.
Context {O C : Type} `{Output O, Clock C}.
Implicit Types (k : Kcp O C).

(** The send buffer: [snd_una ..< snd_nxt] without gaps, at most a [u16] of
    segments. *)
Record snd_wf k : Prop := {
  wf_una : is_u32 (k_snd_una k);
  wf_nxt : k_snd_nxt k = u32 (k_snd_una k + zlen (k_snd_buf k));
  wf_chain : sn_chain (k_snd_una k) (k_snd_buf k);
  wf_snd_len : zlen (k_snd_buf k) <= 65535;
  wf_snd_buf : Forall (snd_seg (k_conv k)) (k_snd_buf k);
}.

Record kcp_wf k : Prop := {
  wf_conv : is_u32 (k_conv k);
  wf_mtu : 50 <= k_mtu k < 4294967296;
  wf_mss : k_mss k = k_mtu k - IKCP_OVERHEAD;
  wf_buffer : k_mtu k + IKCP_OVERHEAD <= zlen (k_buffer k);
  wf_snd : snd_wf k;
  wf_snd_queue : Forall queued_seg (k_snd_queue k);
  wf_rcv_nxt : is_u32 (k_rcv_nxt k);
  wf_rcv_buf : sh_inv (k_rcv_nxt k) (k_rcv_buf k);
  wf_rcv_wnd : is_u32 (k_rcv_wnd k);
  wf_snd_wnd : is_u32 (k_snd_wnd k);
  wf_rmt_wnd : is_u16 (k_rmt_wnd k);
  wf_cwnd : is_u32 (k_cwnd k);
  wf_acks : Forall (fun a => is_u32 (ack_sn a) /\ is_u32 (ack_ts a)) (k_acklist k);
  wf_interval : 10 <= k_interval k <= 5000;
  wf_minrto : IKCP_RTO_NDL <= k_rx_minrto k <= IKCP_RTO_MIN;
  wf_rto : IKCP_RTO_NDL <= k_rx_rto k <= IKCP_RTO_MAX;
  wf_fastresend : is_i32 (k_fastresend k);
  wf_no_panic : k_panic k = false;
}.

Lemma with_clock_wf conv (o : O) (c : C) snmp : is_u32 conv -> kcp_wf (with_clock conv o c snmp).
Proof.
  intros Hc. constructor; unfold with_clock; ksimpl; try done;
    try (unfold is_u32, is_u16, IKCP_MTU_DEF, IKCP_RTO_NDL, IKCP_RTO_MIN, IKCP_RTO_DEF, IKCP_RTO_MAX,
           IKCP_INTERVAL, IKCP_WND_RCV, IKCP_WND_SND; lia).
  apply sh_new_inv.
Qed.

(** ** Options *)

Lemma set_mtu_wf mtu k : mtu < 4294967296 -> kcp_wf k -> kcp_wf (snd (set_mtu mtu k)).
Proof.
  intros Hm Hwf. unfold set_mtu. destruct (mtu <? 50) eqn:E; [done|]. to_prop. cbn [orb].
  destruct (mtu <? IKCP_OVERHEAD) eqn:E2; unfold IKCP_OVERHEAD in *; to_prop; [lia|].
  assert (Hu : u32 mtu = mtu) by (apply u32_id; unfold is_u32; lia).
  wf_open Hwf. wf_same; rewrite ?Hu; try lia.
  - unfold wsub32. rewrite u32_id; unfold is_u32, IKCP_OVERHEAD; lia.
  - unfold zlen. rewrite length_replicate. unfold isize_max, IKCP_OVERHEAD. lia.
  - destruct wf_snd0. by constructor.
Qed.

Lemma clamp_range x lo hi : lo <= hi -> lo <= clamp x lo hi <= hi.
Proof. unfold clamp. repeat case_goal; to_prop; lia. Qed.

Lemma nodelay_wf a b c d k : kcp_wf k -> kcp_wf (snd (nodelay a b c d k)).
Proof.
  intros Hwf. unfold nodelay. cbn [snd].
  set (k1 := if 0 <=? a then _ else k).
  assert (kcp_wf k1) as Hwf1.
  { subst k1. repeat case_goal; try done; wf_open Hwf; wf_same; try (unfold IKCP_RTO_NDL, IKCP_RTO_MIN; lia);
      destruct wf_snd0; by constructor. }
  clearbody k1. clear Hwf k.
  set (k2 := if 0 <=? b then _ else k1).
  assert (kcp_wf k2) as Hwf2.
  { subst k2. pose proof (clamp_range b 10 5000 ltac:(lia)).
    case_goal; [|done]. wf_open Hwf1; wf_same.
    - destruct wf_snd0; by constructor.
    - rewrite u32_id; unfold is_u32; lia. }
  clearbody k2. clear Hwf1 k1.
  repeat case_goal; try done; wf_open Hwf2; wf_same; try apply i32_range; destruct wf_snd0; by constructor.
Qed.

Lemma wnd_size_wf a b k : kcp_wf k -> kcp_wf (snd (wnd_size a b k)).
Proof.
  intros Hwf. unfold wnd_size. cbn [snd].
  repeat case_goal; try done; wf_open Hwf; wf_same; try apply u32_range;
    destruct wf_snd0; by constructor.
Qed.

(** ** Sending *)

(** The payload of the next [n] segments cut from [buffer]. *)
Fixpoint chunks (mss n : nat) (buffer : list Z) : list (list Z) :=
  match n with
  | 0%nat => []
  | S n => take mss buffer :: chunks mss n (drop mss buffer)
  end.

(** The segment [send] queues for the payload [data] with [left] fragments
    after it. *)
Definition frag_seg (stream : Z) (left : nat) (data : list Z) : Segment :=
  segment_default <| sg_data := data |>
    <| sg_frg := if stream =? 0 then u8 (Z.of_nat left) else 0 |>.

Lemma send_loop_spec stream mss count i n buffer q :
  send_loop stream mss count i n buffer q =
    q ++ imap (fun j data => frag_seg stream (count - (i + j) - 1) data) (chunks mss n buffer).
Proof.
  revert i buffer q; induction n as [|n IH]; intros i buffer q; cbn [send_loop chunks imap].
  { by rewrite app_nil_r. }
  rewrite IH. unfold q_push. rewrite <- app_assoc. f_equal. cbn [app].
  assert (take (Nat.min (length buffer) mss) buffer = take mss buffer) as ->.
  { destruct (Nat.min_spec (length buffer) mss) as [[? ->]|[? ->]]; [|done].
    rewrite !take_ge by lia. done. }
  assert (drop (Nat.min (length buffer) mss) buffer = drop mss buffer) as ->.
  { destruct (Nat.min_spec (length buffer) mss) as [[? ->]|[? ->]]; [|done].
    rewrite !drop_ge by lia. done. }
  f_equal.
  - unfold frag_seg. rewrite Nat.add_0_r. destruct (stream =? 0); done.
  - apply imap_ext. intros j d _. cbn. do 2 f_equal. lia.
Qed.

Lemma length_chunks mss n buffer : length (chunks mss n buffer) = n.
Proof. revert buffer; induction n; intros; cbn; auto. Qed.

Lemma concat_chunks mss n buffer : mjoin (chunks mss n buffer) = take (n * mss) buffer.
Proof.
  revert buffer; induction n as [|n IH]; intros buffer; csimpl; [done|].
  rewrite IH. symmetry. rewrite <- (take_drop mss buffer) at 1.
  destruct (decide (length buffer <= mss)%nat).
  - rewrite (drop_ge buffer mss) by lia. rewrite app_nil_r, take_nil, app_nil_r.
    rewrite take_take. f_equal. lia.
  - rewrite take_app, length_take, take_take. f_equal; f_equal; lia.
Qed.

Lemma chunks_Forall (P : Z -> Prop) mss n buffer :
  Forall P buffer -> Forall (fun d => Forall P d /\ (length d <= mss)%nat) (chunks mss n buffer).
Proof.
  revert buffer; induction n as [|n IH]; intros buffer HP; cbn [chunks]; constructor.
  - split; [by apply Forall_take | rewrite length_take; lia].
  - apply IH. by apply Forall_drop.
Qed.

Lemma frag_seg_queued stream left data :
  bytes data -> is_u32 (zlen data) -> queued_seg (frag_seg stream left data).
Proof.
  intros Hb Hl. unfold queued_seg, frag_seg. ksimpl. split_and!; try done.
  destruct (stream =? 0); [apply u8_range | done].
Qed.

Lemma send_loop_queued stream mss count i n buffer q :
  bytes buffer -> Z.of_nat mss < 4294967296 -> Forall queued_seg q ->
  Forall queued_seg (send_loop stream mss count i n buffer q).
Proof.
  intros Hb Hm Hq. rewrite send_loop_spec. apply Forall_app. split; [done|].
  rewrite Forall_lookup. intros j s Hj. rewrite list_lookup_imap in Hj.
  apply fmap_Some in Hj as (d & Hd & ->).
  destruct (Forall_lookup_1 _ _ _ _ (chunks_Forall is_u8 mss n buffer Hb) Hd).
  apply frag_seg_queued; [done|]. unfold is_u32, zlen. lia.
Qed.

Lemma send_extend_spec mss buffer q :
  let '(rest, q') := send_extend mss buffer q in
  exists n, rest = drop n buffer /\
    ((q' = q /\ n = 0%nat) \/
     exists q0 seg, q = q0 ++ [seg] /\ q' = q0 ++ [seg <| sg_data := sg_data seg ++ take n buffer |>] /\
       (length (sg_data seg) + n <= mss)%nat /\
       n = Nat.min (length buffer) (mss - length (sg_data seg))).
Proof.
  unfold send_extend. destruct (last q) as [seg|] eqn:El; [|exists 0%nat; eauto].
  destruct (Nat.ltb_spec (length (sg_data seg)) mss); [|exists 0%nat; eauto].
  eexists. split; [done|]. right.
  apply last_Some in El as (q0 & ->). exists q0, seg. split; [done|].
  split; [|lia].
  rewrite length_app. cbn [length]. replace (length q0 + 1 - 1)%nat with (length q0 + 0)%nat by lia.
  rewrite alter_app_r. done.
Qed.

Lemma send_wf buffer k : bytes buffer -> kcp_wf k -> kcp_wf (snd (send buffer k)).
Proof.
  intros Hb Hwf. unfold send. destruct (is_nil buffer); [done|].
  pose proof (wf_mtu _ Hwf) as Hmtu. pose proof (wf_mss _ Hwf) as Hmss. unfold IKCP_OVERHEAD in Hmss.
  set (p := if negb (k_stream k =? 0) then _ else (buffer, k)).
  assert (bytes (fst p) /\ kcp_wf (snd p) /\ k_mss (snd p) = k_mss k) as (Hb' & Hwf' & Emss).
  { subst p. destruct (negb (k_stream k =? 0)); [|done].
    pose proof (send_extend_spec (Z.to_nat (k_mss k)) buffer (k_snd_queue k)) as Hs.
    destruct (send_extend _ buffer (k_snd_queue k)) as [rest q]. destruct Hs as (n & -> & Hq).
    ksimpl. split_and!; [by apply Forall_drop| |done].
    wf_open Hwf; wf_same; [destruct wf_snd0; by constructor|].
    destruct Hq as [[-> _]|(q0 & seg & Eq & -> & Hl & _)]; [done|].
    rewrite Eq in *. apply Forall_app in wf_snd_queue0 as [Hq0 Hseg].
    apply Forall_app. split; [done|]. rewrite Forall_singleton in Hseg |- *.
    destruct Hseg as (Hf & Hd & _ & Hrest). unfold queued_seg. ksimpl. split_and!; try done; try apply Hrest.
    - apply Forall_app. split; [done|]. by apply Forall_take.
    - unfold is_u32, zlen. rewrite length_app, length_take. lia. }
  destruct p as [rest k1]. cbn [fst snd] in *.
  destruct (_ && _); [done|].
  destruct (Nat.eqb_spec (Z.to_nat (k_mss k)) 0); [lia|]. rewrite andb_false_r.
  case_goal; [done|].
  destruct Hwf'; wf_same; [destruct wf_snd0; by constructor|].
  apply send_loop_queued; try done. lia.
Qed.

(** ** The receive side *)

(** One round of [move_available]: the heap's head is the next segment. *)
Lemma sh_pop_next_inv base h x h' :
  is_u32 base -> sh_inv base h -> sh_pop h = Some (x, h') -> sg_sn x = base ->
  sh_inv (wadd32 base 1) h'.
Proof.
  intros Hb Hi E Ex. pose proof (sh_pop_spec base h Hi) as Hs. rewrite E in Hs.
  destruct Hs as (Hi' & Hp & Hmin). apply sh_inv_u32. apply sh_inv_advance with base; [done|lia|].
  eapply Forall_impl; [exact Hmin|]. intros y Hy. cbn beta in Hy.
  unfold seg_off at 1 in Hy. unfold sn_off in Hy.
  rewrite Ex, Z.sub_diag in Hy. change (u32 0) with 0 in Hy. lia.
Qed.

Lemma move_available_ind (P : Kcp O C -> Prop) :
  (forall k seg h, kcp_wf k -> P k -> sh_pop (k_rcv_buf k) = Some (seg, h) ->
     sg_sn seg = k_rcv_nxt k -> zlen (k_rcv_queue k) < k_rcv_wnd k ->
     P (k <| k_rcv_buf := h |> <| k_rcv_queue := q_push seg (k_rcv_queue k) |>
          <| k_rcv_nxt := wadd32 (k_rcv_nxt k) 1 |>)) ->
  (forall k seg h, kcp_wf k -> P k -> sh_pop (k_rcv_buf k) = Some (seg, h) ->
     P (k <| k_rcv_buf := sh_push h seg |>)) ->
  forall fuel k, kcp_wf k -> P k -> kcp_wf (move_available fuel k) /\ P (move_available fuel k).
Proof.
  intros Hnext Hback fuel. induction fuel as [|fuel IH]; intros k Hwf HP; cbn [move_available]; [done|].
  destruct (sh_pop (k_rcv_buf k)) as [[seg h]|] eqn:Epop; [|done].
  pose proof (wf_rcv_nxt _ Hwf) as Hn. pose proof (wf_rcv_buf _ Hwf) as Hb.
  destruct (_ && _) eqn:E.
  - apply andb_true_iff in E as [E1 E2]. to_prop. apply IH; [|by apply Hnext].
    pose proof (sh_pop_next_inv _ _ _ _ Hn Hb Epop E1).
    wf_open Hwf; wf_same; [destruct wf_snd0; by constructor | apply u32_range].
  - split; [|by apply Hback].
    pose proof (sh_pop_push_inv _ _ _ _ Hb Epop).
    wf_open Hwf; wf_same. destruct wf_snd0; by constructor.
Qed.

Lemma move_available_wf fuel k : kcp_wf k -> kcp_wf (move_available fuel k).
Proof. intros Hwf. by apply (move_available_ind (fun _ => True)). Qed.

Lemma parse_data_wf newseg data k :
  is_u32 (sg_sn newseg) -> kcp_wf k -> kcp_wf (snd (parse_data newseg data k)).
Proof.
  intros Hsn Hwf. unfold parse_data. destruct (_ || _) eqn:E; [done|].
  apply orb_false_iff in E as [E1 E2]. to_prop.
  destruct (negb (sh_has _ _)) eqn:Eh; cbn [snd]; [|by apply move_available_wf].
  apply move_available_wf. to_prop.
  assert (sh_inv (k_rcv_nxt k) (sh_push (k_rcv_buf k) (newseg <| sg_data := data |>))).
  { apply sh_push_inv; [apply Hwf | | by ksimpl]. split; ksimpl; [done|].
    unfold seg_off, sn_off. ksimpl. pose proof (wf_rcv_nxt _ Hwf).
    unfold _itimediff, i32, wsub32, u32, is_u32 in *. zlia. }
  wf_open Hwf; wf_same. destruct wf_snd0; by constructor.
Qed.

(** The head of a queue up to its first [frg == 0]: one message. *)
Fixpoint first_message (q : list Segment) : list Segment :=
  match q with
  | [] => []
  | seg :: q => if sg_frg seg =? 0 then [seg] else seg :: first_message q
  end.

Lemma first_message_prefix q : q = first_message q ++ drop (length (first_message q)) q.
Proof.
  induction q as [|s q IH]; cbn [first_message]; [done|]. case_goal; cbn [length drop app]; [done|].
  by rewrite <- IH.
Qed.

Lemma peek_sum_first q : peek_sum q = zlen (mjoin (sg_data <$> first_message q)).
Proof.
  induction q as [|s q IH]; cbn [peek_sum first_message]; [done|].
  case_goal; csimpl; rewrite zlen_app; [done|by rewrite IH].
Qed.

(** The merge loop takes the first message and copies its bytes after the [n]
    bytes already there, when they fit. *)
Lemma recv_merge_spec q buffer n :
  (n <= length buffer)%nat -> Z.of_nat n + peek_sum q <= zlen buffer ->
  let m := mjoin (sg_data <$> first_message q) in
  recv_merge q buffer n =
    Some (drop (length (first_message q)) q,
          take n buffer ++ m ++ drop (n + length m) buffer, (n + length m)%nat).
Proof.
  cbn zeta. rewrite peek_sum_first.
  revert buffer n; induction q as [|seg q IH]; intros buffer n Hn Hs; cbn [recv_merge first_message] in *.
  { cbn. by rewrite Nat.add_0_r, take_drop. }
  destruct (sg_frg seg =? 0) eqn:Ef; csimpl in Hs; rewrite zlen_app in Hs; unfold zlen in Hs; csimpl.
  - destruct (Nat.ltb_spec (length buffer) (n + length (sg_data seg))); [cbn in Hs; lia|].
    by rewrite app_nil_r.
  - set (m := mjoin _) in *.
    destruct (Nat.ltb_spec (length buffer) (n + length (sg_data seg))); [lia|].
    set (b := take n buffer ++ sg_data seg ++ drop (n + length (sg_data seg)) buffer).
    assert (length b = length buffer) as Hlb.
    { subst b. rewrite !length_app, length_take, length_drop. lia. }
    rewrite (IH b (n + length (sg_data seg))%nat) by (unfold zlen; fold m; lia). fold m.
    rewrite length_app, Nat.add_assoc. do 3 f_equal.
    subst b. rewrite (assoc_L (++) (take n buffer)).
    rewrite (take_app_length' (take n buffer ++ sg_data seg)) by (rewrite length_app, length_take; lia).
    rewrite <- !app_assoc. do 3 f_equal.
    rewrite (assoc_L (++) (take n buffer)), drop_app_ge by (rewrite length_app, length_take; lia).
    rewrite drop_drop, length_app, length_take. f_equal. lia.
Qed.

Lemma peek_size_sum k : 0 <= peek_size k -> peek_size k = peek_sum (k_rcv_queue k).
Proof.
  unfold peek_size. destruct (k_rcv_queue k) as [|seg q]; cbn [head]; [lia|].
  cbn [peek_sum]. destruct (sg_frg seg =? 0); [lia|]. case_goal; lia.
Qed.

Lemma recv_wf buffer k : kcp_wf k -> kcp_wf (snd (recv buffer k)).
Proof.
  intros Hwf. unfold recv. destruct (peek_size k <? 0) eqn:E1; [done|].
  destruct (zlen buffer <? peek_size k) eqn:E2; [done|]. to_prop.
  rewrite peek_size_sum in E2 by done.
  rewrite recv_merge_spec by lia. cbn [snd].
  set (k1 := k <| k_rcv_queue := _ |>).
  assert (kcp_wf k1) as Hwf1.
  { subst k1. wf_open Hwf; wf_same. destruct wf_snd0; by constructor. }
  pose proof (move_available_wf (move_fuel k1) k1 Hwf1) as Hwf2.
  destruct (_ && _); [|done].
  clear - Hwf2. wf_open Hwf2; wf_same. destruct wf_snd0; by constructor.
Qed.

(** ** Acknowledgements *)

Lemma ibound_range lo x hi : lo <= hi -> lo <= _ibound_ lo x hi <= hi.
Proof. unfold _ibound_. rewrite imin_min, imax_max. lia. Qed.

Lemma update_ack_wf rtt k : kcp_wf k -> kcp_wf (update_ack rtt k).
Proof.
  intros Hwf. unfold update_ack. set (k1 := if k_rx_srtt k =? 0 then _ else _).
  assert (kcp_wf k1) as Hwf1.
  { subst k1. cbn zeta. repeat case_goal; wf_open Hwf; wf_same; destruct wf_snd0; by constructor. }
  clearbody k1. cbn zeta.
  pose proof (ibound_range (k_rx_minrto k1)
    (wadd32 (u32 (k_rx_srtt k1)) (_imax_ (k_interval k1) (ushl (u32 (k_rx_rttvar k1)) 2))) IKCP_RTO_MAX) as Hb.
  wf_open Hwf1; wf_same; [destruct wf_snd0; by constructor|].
  unfold IKCP_RTO_NDL, IKCP_RTO_MIN, IKCP_RTO_MAX in *. lia.
Qed.

(** How many segments at the head of the send buffer [una] acknowledges. *)
Fixpoint una_count (una : Z) (q : list Segment) : nat :=
  match q with
  | [] => 0
  | seg :: q => if (0 <? _itimediff una (sg_sn seg))%Z then S (una_count una q) else 0
  end%nat.

Lemma una_count_le una q : (una_count una q <= length q)%nat.
Proof. induction q as [|s q IH]; cbn; [lia|]. case_goal; lia. Qed.

Lemma una_visit_spec una c q :
  exists q', q_for_each (una_visit una) c q = ((c + una_count una q)%nat, q') /\
    drop (una_count una q) q' = drop (una_count una q) q.
Proof.
  revert c; induction q as [|s q IH]; intros c; cbn [q_for_each una_count].
  - exists []. split; [by rewrite Nat.add_0_r|done].
  - unfold una_visit at 1. destruct (0 <? _itimediff una (sg_sn s)) eqn:E.
    + destruct (IH (S c)) as (q' & -> & Hd). exists (recycle_segment s :: q').
      split; [f_equal; lia|exact Hd].
    + eexists. split; [|done]. by rewrite Nat.add_0_r.
Qed.

(** [parse_una] drops the prefix [una] acknowledges. *)
Lemma parse_una_spec una k :
  let n := una_count una (k_snd_buf k) in
  parse_una una k =
    (n, k <| k_snd_buf := drop n (k_snd_buf k) |>
          <| k_flush_scan := (k_flush_scan k) <| fs_unsent :=
               Nat.min (fs_unsent (k_flush_scan k)) (length (drop n (k_snd_buf k))) |> |>).
Proof.
  intros n. unfold parse_una. destruct (una_visit_spec una 0 (k_snd_buf k)) as (q' & -> & Hd).
  cbn [Nat.add]. ksimpl. fold n in Hd |- *. rewrite Hd. done.
Qed.

(** The send buffer after [parse_una] and [shrink_buf]. *)
Lemma una_shrink_wf una k :
  kcp_wf k -> kcp_wf (shrink_buf (snd (parse_una una k))).
Proof.
  intros Hwf. rewrite parse_una_spec. cbn [snd]. set (n := una_count una (k_snd_buf k)).
  pose proof (una_count_le una (k_snd_buf k)) as Hn. fold n in Hn.
  destruct (wf_snd _ Hwf) as [Hu Hnx Hc Hl Hb].
  pose proof (sn_chain_drop _ _ n Hc) as Hc'.
  assert (zlen (k_snd_buf k) = Z.of_nat n + zlen (drop n (k_snd_buf k))) as Hz.
  { unfold zlen. rewrite length_drop. lia. }
  pose proof (zlen_nonneg (drop n (k_snd_buf k))) as Hnn.
  pose proof (Forall_drop _ n _ Hb) as Hb'.
  unfold shrink_buf. ksimpl.
  remember (drop n (k_snd_buf k)) as l eqn:El.
  assert (Hs : forall una', is_u32 una' -> una' = u32 (k_snd_una k + Z.of_nat n) ->
    snd_wf (k <| k_snd_buf := l |>
      <| k_flush_scan := (k_flush_scan k) <| fs_unsent := Nat.min (fs_unsent (k_flush_scan k)) (length l) |> |>
      <| k_snd_una := una' |>)).
  { intros una' Hu' ->. constructor; ksimpl; try done; [|by apply sn_chain_u32|lia].
    rewrite Hnx, u32_add_l. f_equal. lia. }
  destruct l as [|s l]; cbn [head].
  - rewrite zlen_nil in *. wf_open Hwf; wf_same. apply Hs.
    + rewrite Hnx. apply u32_range.
    + rewrite Hnx. f_equal. lia.
  - pose proof (Hc' 0%nat s eq_refl) as Hsn. rewrite Z.add_0_r in Hsn.
    wf_open Hwf; wf_same. apply Hs; [rewrite Hsn; apply u32_range|done].
Qed.

(** Replacing the send buffer by one with the same segments. *)
Lemma snd_buf_kept_wf k q :
  kcp_wf k -> Forall2 seg_kept (k_snd_buf k) q -> kcp_wf (k <| k_snd_buf := q |>).
Proof.
  intros Hwf Hq. wf_open Hwf; wf_same. destruct wf_snd0. constructor; ksimpl; try done.
  - by rewrite (zlen_kept _ _ Hq).
  - by eapply sn_chain_kept.
  - by rewrite (zlen_kept _ _ Hq).
  - by eapply Forall_kept.
Qed.

Lemma parse_ack_kept seg : seg_kept seg (recycle_segment (seg <| sg_acked := 1 |>)).
Proof.
  split; [done|]. unfold snd_seg, recycle_segment. ksimpl. intros conv (?&?&?&?&?&?&?&?&?&?).
  split_and!; try done; [constructor | by right].
Qed.

Lemma parse_ack_wf sn k : kcp_wf k -> kcp_wf (parse_ack sn k).
Proof.
  intros Hwf. unfold parse_ack. case_goal; [done|]. case_goal; [|done].
  apply snd_buf_kept_wf; [done|]. apply alter_Forall2; [apply _|]. apply parse_ack_kept.
Qed.

Lemma bump_fastack_kept ts r s seg : seg_kept seg (snd (bump_fastack ts r s seg)).
Proof.
  unfold bump_fastack. destruct s as [f b]. case_goal; cbn [snd]; [|done].
  split; [done|]. unfold snd_seg. ksimpl. intros conv Hs. split_and!; try apply Hs. apply u32_range.
Qed.

Lemma fastack_visit_kept sn ts r s seg : seg_kept seg (snd (fst (fastack_visit sn ts r s seg))).
Proof.
  unfold fastack_visit. case_goal; [done|]. case_goal; [|done].
  pose proof (bump_fastack_kept ts r s seg). destruct (bump_fastack ts r s seg). done.
Qed.

Lemma parse_fastack_wf sn ts k : kcp_wf k -> kcp_wf (snd (parse_fastack sn ts k)).
Proof.
  intros Hwf. unfold parse_fastack. case_goal; [done|].
  set (p := match snd_buf_offset sn k with Some _ => _ | None => _ end).
  assert (Forall2 seg_kept (k_snd_buf k) (snd p)) as Hq.
  { subst p. destruct (snd_buf_offset sn k).
    - apply q_iter_mut_to_Forall2; [apply _|]. intros. apply bump_fastack_kept.
    - apply q_for_each_Forall2; [apply _|]. intros. apply fastack_visit_kept. }
  destruct p as [[f b] q]. cbn [snd] in *.
  pose proof (snd_buf_kept_wf k q Hwf Hq) as Hwf'.
  destruct b; [|done]. clear - Hwf'. destruct Hwf'; wf_same. destruct wf_snd0; by constructor.
Qed.

End Kcp.
