(* ===== verification/KcpWriter.v ===== *)
(** * The packet writer of [flush]

    What the writer's primitives do to the packet being built, and a lifting
    principle: a property of the writer kept by the three ways [flush] uses it
    (asking for room, making space, writing a segment) holds at the end of
    every flush. *)
From S2P Require Import Prelude Word Env Segment Queue Heap KcpState KcpSend KcpFlush KcpInput KcpInv.
Local Open Scope Z_scope.

(** The bytes of a segment on the wire. *)
Definition wire_bytes (s : Segment) : list Z := header_bytes s ++ sg_data s.

Lemma length_wire_bytes s : length (wire_bytes s) = (OVERHEAD + length (sg_data s))%nat.
Proof. unfold wire_bytes. by rewrite length_app, length_header_bytes. Qed.

(** A segment the peer of [conv] accepts. *)
Definition sendable (conv : Z) (s : Segment) : Prop :=
  wire_segment s /\ sg_conv s = conv /\ known_cmd (sg_cmd s) = true.

Ltac wsimpl :=
  cbn [field_update eta_writer w_out w_buffer w_size w_snmp w_panic].
Tactic Notation "wsimpl" "in" hyp(H) :=
  cbn [field_update eta_writer w_out w_buffer w_size w_snmp w_panic] in H.

Ltac ssimpl :=
  cbn [field_update eta_scan sc_w sc_clock sc_state sc_current sc_change sc_lost sc_fast sc_early
    sc_next_update sc_backpressured sc_min_rto sc_fastack sc_unsent].

Section Writer.
Context {O : Type} `{Output O}.
Implicit Types (w : Writer O).

(** The bytes written so far. *)
Definition w_packet w : list Z := take (w_size w) (w_buffer w).

(** The writer is inside its buffer, which holds a packet of [mtu] bytes and one
    header more. *)
Definition w_ok (mtu : Z) w : Prop :=
  w_panic w = false /\ (w_size w <= length (w_buffer w))%nat /\
  mtu + IKCP_OVERHEAD <= zlen (w_buffer w).

Lemma emit_ok w : (w_size w <= length (w_buffer w))%nat ->
  emit w = w <| w_out := output (w_out w) (w_packet w) |>.
Proof. intros Hs. unfold emit. destruct (Nat.ltb_spec (length (w_buffer w)) (w_size w)); [lia|done]. Qed.

Lemma make_space_cases mtu space w : (w_size w <= length (w_buffer w))%nat ->
  (Z.of_nat (w_size w + space) <= mtu /\ make_space mtu space w = w) \/
  (mtu < Z.of_nat (w_size w + space) /\
   make_space mtu space w = w <| w_out := output (w_out w) (w_packet w) |> <| w_size := 0%nat |>).
Proof.
  intros Hs. unfold make_space. destruct (mtu <? Z.of_nat (w_size w + space)) eqn:E; to_prop.
  - right. rewrite emit_ok by done. done.
  - left. done.
Qed.

Lemma make_space_ok mtu space w : w_ok mtu w -> w_ok mtu (make_space mtu space w).
Proof.
  intros (Hp & Hs & Hl). destruct (make_space_cases mtu space w Hs) as [[_ ->]|[_ ->]]; [done|].
  unfold w_ok. wsimpl. split_and!; [done|lia|done].
Qed.

Lemma put_header_spec seg w : w_panic w = false ->
  (w_size w + OVERHEAD <= length (w_buffer w))%nat ->
  put_header seg w =
    w <| w_buffer := w_packet w ++ header_bytes seg ++ drop (w_size w + OVERHEAD) (w_buffer w) |>
      <| w_size := (w_size w + OVERHEAD)%nat |>
      <| w_snmp := (w_snmp w) <| out_segs := fetch_add (out_segs (w_snmp w)) 1 |> |>.
Proof.
  intros Hp Hs. unfold put_header.
  destruct (Nat.ltb_spec (length (w_buffer w)) (w_size w)); [lia|].
  rewrite encode_spec by (rewrite length_drop; lia).
  rewrite <- app_assoc, drop_drop. wsimpl.
  replace (length (w_buffer w) - length (drop (w_size w + OVERHEAD) (w_buffer w)))%nat
    with (w_size w + OVERHEAD)%nat by (rewrite length_drop; lia).
  reflexivity.
Qed.

(** Writing a whole segment appends its wire bytes to the packet. *)
Definition put_segment (seg : Segment) w : Writer O :=
  put_data (sg_data seg) (put_header seg (reserve (OVERHEAD + length (sg_data seg)) w)).

Lemma put_segment_spec seg w : w_panic w = false -> (w_size w <= length (w_buffer w))%nat ->
  let w' := put_segment seg w in
  w_out w' = w_out w /\ w_panic w' = false /\
  w_size w' = (w_size w + length (wire_bytes seg))%nat /\
  (length (w_buffer w) <= length (w_buffer w'))%nat /\
  (w_size w' <= length (w_buffer w'))%nat /\
  w_packet w' = w_packet w ++ wire_bytes seg.
Proof.
  intros Hp Hs. unfold put_segment. rewrite length_wire_bytes.
  set (need := (OVERHEAD + length (sg_data seg))%nat).
  assert (exists tail, reserve need w = w <| w_buffer := w_buffer w ++ tail |> /\
            (w_size w + need <= length (w_buffer w ++ tail))%nat) as (tail & -> & Hl).
  { unfold reserve. destruct (Nat.ltb_spec (length (w_buffer w)) (w_size w + need)).
    - eexists. split; [done|]. rewrite length_app, length_replicate. lia.
    - exists []. rewrite app_nil_r. split; [by destruct w|lia]. }
  set (w1 := w <| w_buffer := w_buffer w ++ tail |>).
  assert (w_packet w1 = w_packet w) as Epk.
  { unfold w_packet, w1. wsimpl. rewrite take_app_le by lia. done. }
  rewrite (put_header_spec seg w1) by (subst w1 need; wsimpl; lia || done).
  unfold put_data. subst w1. wsimpl. wsimpl in Epk. rewrite Epk.
  assert (length (w_packet w) = w_size w) as Elp by (unfold w_packet; rewrite length_take; lia).
  rewrite !length_app, !length_header_bytes, length_drop, !length_app.
  rewrite length_app in Hl.
  destruct (Nat.ltb_spec (length (w_packet w) + (OVERHEAD + (length (w_buffer w) + length tail
      - (w_size w + OVERHEAD)))) (w_size w + OVERHEAD + length (sg_data seg))); [subst need; lia|].
  wsimpl. unfold wire_bytes.
  rewrite (assoc_L (++) (w_packet w) (header_bytes seg)).
  rewrite (take_app_length' (w_packet w ++ header_bytes seg))
    by (rewrite length_app, length_header_bytes; lia).
  rewrite !length_app, !length_drop, !length_app, length_header_bytes, length_drop, length_app.
  split_and!; try done; try (subst need; lia).
  unfold w_packet at 1. wsimpl. rewrite !(assoc_L (++)).
  rewrite take_app_length' by (rewrite !length_app, length_header_bytes; lia).
  by rewrite <- !app_assoc.
Qed.

Lemma put_header_segment mtu seg w : w_ok mtu w -> 0 <= mtu -> sg_data seg = [] ->
  (Z.of_nat (w_size w) <= mtu) -> put_header seg w = put_segment seg w.
Proof.
  intros (Hp & Hs & Hl) Hm Hd Hz. unfold put_segment. rewrite Hd. cbn [length].
  assert (w_size w + OVERHEAD <= length (w_buffer w))%nat as Hs'.
  { unfold zlen, IKCP_OVERHEAD in Hl. unfold OVERHEAD. lia. }
  unfold reserve. destruct (Nat.ltb_spec (length (w_buffer w)) (w_size w + (OVERHEAD + 0))); [lia|].
  rewrite put_header_spec by done. unfold put_data. wsimpl.
  rewrite !length_app, length_header_bytes, length_drop. unfold w_packet. rewrite length_take. cbn [length].
  destruct (Nat.ltb_spec (w_size w `min` length (w_buffer w) + (OVERHEAD +
    (length (w_buffer w) - (w_size w + OVERHEAD)))) (w_size w + OVERHEAD + 0)); [lia|].
  rewrite !Nat.add_0_r. cbn [app]. rewrite take_drop. reflexivity.
Qed.

End Writer.

(** ** Lifting a property of the writer to a flush *)

Section Lift.
Context {O C : Type} `{Output O, Clock C}.
Implicit Types (w : Writer O) (k : Kcp O C).

(** [I] holds between two uses of the writer, [J] once room was granted. *)
Record writer_inv (I J : Writer O -> Prop) (mtu : Z) (ok : Segment -> Prop) : Prop := {
  wi_ok : forall w, I w -> w_ok mtu w;
  wi_granted : forall w, J w -> I w;
  wi_room : forall w b w', I w -> has_room w = (b, w') -> I w' /\ (b = true -> J w');
  wi_space : forall w, J w -> I (make_space mtu OVERHEAD w);
  wi_put : forall w seg, J w -> ok seg ->
    I (put_segment seg (make_space mtu (OVERHEAD + length (sg_data seg)) w));
}.

Section WithInv.
Context (I J : Writer O -> Prop) (mtu : Z) (ok : Segment -> Prop) (conv una : Z).
Context (Hinv : writer_inv I J mtu ok) (Hmtu : 50 <= mtu).
Context (Hok : forall s, sendable conv s -> sg_una s = una -> sg_cmd s <> IKCP_CMD_PUSH -> sg_data s = [] -> ok s).

(** Writing a header-only segment. *)
Lemma put_header_inv w seg : J w -> sendable conv seg /\ sg_una seg = una /\ sg_cmd seg <> IKCP_CMD_PUSH -> sg_data seg = [] ->
  I (put_header seg (make_space mtu OVERHEAD w)).
Proof.
  intros Hj (Hs & Hu & Hc) Hd.
  pose proof (wi_ok _ _ _ _ Hinv _ (wi_granted _ _ _ _ Hinv _ Hj)) as Hw.
  pose proof (wi_put _ _ _ _ Hinv w seg Hj) as Hp. rewrite Hd, Nat.add_0_r in Hp.
  rewrite put_header_segment with (mtu := mtu); [|by apply make_space_ok|lia|done|].
  - apply Hp. by apply Hok.
  - destruct Hw as (? & Hs' & ?). unfold OVERHEAD.
    destruct (make_space_cases mtu 24 w Hs') as [[? ->]|[? ->]]; wsimpl; lia.
Qed.

(** The template segment of the acknowledgements and probes. *)
Definition template (seg : Segment) : Prop :=
  (sendable conv seg /\ sg_una seg = una /\ sg_cmd seg <> IKCP_CMD_PUSH) /\ sg_data seg = [].

Lemma template_ack seg sn ts : is_u32 sn -> is_u32 ts -> template seg ->
  template (seg <| sg_sn := sn |> <| sg_ts := ts |>).
Proof.
  intros ?? [[[(?&?&?&?&?&?&?&?&?) [??]] [??]] ?]. split; [|done]. unfold sendable, wire_segment. ksimpl.
  split_and!; done.
Qed.

Lemma template_cmd seg cmd : is_u8 cmd -> known_cmd cmd = true -> cmd <> IKCP_CMD_PUSH -> template seg ->
  template (seg <| sg_cmd := cmd |>).
Proof.
  intros ??? [[[(?&?&?&?&?&?&?&?&?) [??]] [??]] ?]. split; [|done]. unfold sendable, wire_segment. ksimpl.
  split_and!; done.
Qed.

Lemma flush_acks_loop_inv rcv_nxt n i acks seg w done_ :
  Forall (fun a => is_u32 (ack_sn a) /\ is_u32 (ack_ts a)) acks ->
  template seg -> I w ->
  let '(seg', w', done') := flush_acks_loop mtu rcv_nxt n i acks seg w done_ in
  template seg' /\ I w'.
Proof.
  intros Ha. revert i seg w done_. induction Ha as [|a acks [Hsn Hts] Ha IH]; intros i seg w d Hs Hw;
    cbn [flush_acks_loop]; [done|].
  destruct (has_room w) as [room w1] eqn:Er.
  destruct (wi_room _ _ _ _ Hinv w room w1 Hw Er) as [Hw1 Hj].
  destruct room; cbn [negb]; [|done]. specialize (Hj eq_refl).
  destruct ((_ || _)%bool).
  - pose proof (template_ack _ _ _ Hsn Hts Hs) as Hs'. apply IH; [done|].
    apply put_header_inv; [done|apply Hs'..].
  - apply IH; [done|]. by apply (wi_space _ _ _ _ Hinv).
Qed.

Lemma flush_probe_inv probe ask cmd seg w d :
  is_u8 cmd -> known_cmd cmd = true -> cmd <> IKCP_CMD_PUSH -> template seg -> I w ->
  let '(seg', w', _) := flush_probe mtu probe ask cmd seg w d in template seg' /\ I w'.
Proof.
  intros Hc Hkc Hnp Hs Hw. unfold flush_probe. destruct (Z.land probe ask =? 0); [done|].
  destruct (has_room w) as [room w1] eqn:Er.
  destruct (wi_room _ _ _ _ Hinv w room w1 Hw Er) as [Hw1 Hj].
  destruct room; cbn [negb]; [|done].
  pose proof (template_cmd _ _ Hc Hkc Hnp Hs) as Hs'. split; [done|].
  apply put_header_inv; [by apply Hj|apply Hs'..].
Qed.

(** [needsend] is the predicate the backpressure check evaluated before the
    chain (the [debug_assert_eq!] of the source). *)
Lemma retransmit_needsend cx (s : Scan O C) seg :
  sc_backpressured s = false -> fst (fst (retransmit cx s seg)) = would_send cx s seg.
Proof.
  intros Hb. unfold retransmit, would_send. rewrite Hb. cbn [negb andb].
  destruct (sg_xmit seg =? 0); cbn [orb]; [done|].
  destruct ((cx_resent cx <=? sg_fastack seg) && negb (sg_fastack seg =? FFFFFFFF)); cbn [orb]; [done|].
  destruct ((0 <? sg_fastack seg) && negb (sg_fastack seg =? FFFFFFFF) && (cx_new_segs cx =? 0)%nat);
    cbn [orb]; [done|].
  destruct (0 <=? _itimediff (sc_current s) (sg_resendts seg)); done.
Qed.

(** The chain leaves the writer, the flags and the identity of the segment. *)
Lemma retransmit_frame cx (s : Scan O C) seg :
  let '(_, s', seg') := retransmit cx s seg in
  sc_w s' = sc_w s /\ sc_backpressured s' = sc_backpressured s /\ sc_clock s' = sc_clock s /\
  sc_current s' = sc_current s /\ sc_next_update s' = sc_next_update s /\ sc_state s' = sc_state s /\
  sc_min_rto s' = sc_min_rto s /\ sc_fastack s' = sc_fastack s /\ sc_unsent s' = sc_unsent s /\
  sg_xmit seg' = sg_xmit seg /\ sg_data seg' = sg_data seg.
Proof. unfold retransmit. repeat case_goal; done. Qed.

(** What a peer that keeps segments can tell of one: not the stamps of a transmission. *)
Definition same_wire (s s' : Segment) : Prop :=
  sg_data s' = sg_data s /\ sg_sn s' = sg_sn s /\ sg_frg s' = sg_frg s /\ sg_cmd s' = sg_cmd s.

#[export] Instance same_wire_refl : Reflexive same_wire.
Proof. by intros s. Qed.
#[export] Instance same_wire_trans : Transitive same_wire.
Proof. intros s1 s2 s3 (?&?&?&?) (?&?&?&?). split_and!; congruence. Qed.

Lemma retransmit_wire cx (s : Scan O C) seg :
  same_wire seg (snd (retransmit cx s seg)) /\ sg_acked (snd (retransmit cx s seg)) = sg_acked seg.
Proof. unfold retransmit. by repeat case_goal. Qed.

Lemma transmit_wire cx (s : Scan O C) seg :
  same_wire seg (snd (transmit cx s seg)) /\ sg_acked (snd (transmit cx s seg)) = sg_acked seg.
Proof. unfold transmit. by destruct (now_ms (sc_clock s)). Qed.

Lemma FFFFFFFF_u32 : is_u32 FFFFFFFF.
Proof. unfold is_u32, FFFFFFFF. lia. Qed.

Lemma retransmit_kept cx (s : Scan O C) seg :
  is_u32 (cx_rx_rto cx) -> seg_kept seg (snd (retransmit cx s seg)).
Proof.
  intros Hr. pose proof FFFFFFFF_u32. unfold retransmit, seg_kept, snd_seg. repeat case_goal; ksimpl; split;
    intros; destruct_and?; split_and?; try done; try apply u32_range.
Qed.

Lemma transmit_kept cx (s : Scan O C) seg : seg_kept seg (snd (transmit cx s seg)).
Proof.
  unfold transmit. destruct (now_ms (sc_clock s)) as [t c]. cbn [snd].
  unfold seg_kept, snd_seg. ksimpl. split; [done|].
  intros; destruct_and?; split_and?; try done; try apply u32_range.
Qed.

Lemma scan_segment_kept cx (s : Scan O C) seg :
  is_u32 (cx_rx_rto cx) -> seg_kept seg (snd (scan_segment cx s seg)).
Proof.
  intros Hr. unfold scan_segment. case_goal; [done|].
  set (s1 := if would_send cx s seg then _ else s). clearbody s1.
  destruct (sc_backpressured s1); [done|].
  pose proof (retransmit_kept cx s1 seg Hr) as Hk.
  destruct (retransmit cx s1 seg) as [[needsend s2] seg2]. cbn [snd] in Hk.
  destruct needsend; [|done]. pose proof (transmit_kept cx s2 seg2) as Hk2.
  destruct (transmit cx s2 seg2) as [s3 seg3]. cbn [snd] in *. by etrans.
Qed.

(** A segment of the send buffer that [ok] covers whatever is stamped on it, unless it is
    acknowledged and not sent any more. *)
Definition scannable (seg : Segment) : Prop :=
  snd_seg conv seg /\ is_u32 (sg_sn seg) /\
  (sg_acked seg = 0 -> forall seg', sendable conv seg' -> sg_una seg' = una -> same_wire seg seg' -> ok seg').

(** What the scan context must provide. *)
Definition ctx_ok (cx : ScanCtx) : Prop :=
  cx_mtu cx = mtu /\ is_u16 (cx_wnd cx) /\ is_u32 (cx_una cx) /\ is_u32 (cx_rx_rto cx) /\ cx_una cx = una.

Lemma transmit_inv cx (s : Scan O C) seg :
  is_u32 conv -> ctx_ok cx -> J (sc_w s) -> scannable seg -> sg_acked seg = 0 ->
  I (sc_w (fst (transmit cx s seg))).
Proof.
  intros Hcv (Hm & Hwnd & Hu & _ & Eu) Hj (Hs & Hsn & Hsok) Ha. unfold transmit.
  pose proof (now_ms_u32 (sc_clock s)) as Ht. destruct (now_ms (sc_clock s)) as [t c]. cbn [fst] in *.
  set (seg' := _ <| sg_una := cx_una cx |>).
  assert (ok seg') as Hok'.
  { apply Hsok; [done| |exact Eu|done]. destruct Hs as (?&Hcmd&?&?&?&_).
    unfold sendable, wire_segment, seg', known_cmd. ksimpl. rewrite Hcmd.
    split_and?; try done. congruence. }
  pose proof (wi_put _ _ _ _ Hinv (sc_w s) seg' Hj Hok') as Hp.
  rewrite <- Hm in Hp. destruct (cx_dead_link cx <=? _); exact Hp.
Qed.

Lemma nearest_rto_w rto (s : Scan O C) : sc_w (nearest_rto rto s) = sc_w s.
Proof. unfold nearest_rto. by case_goal. Qed.

Lemma note_scanned_w seg rto (s : Scan O C) : sc_w (note_scanned seg rto s) = sc_w s.
Proof. done. Qed.

Lemma scannable_kept cx (s : Scan O C) seg :
  is_u32 (cx_rx_rto cx) -> scannable seg -> scannable (snd (retransmit cx s seg)).
Proof.
  intros Hr (Hs & Hsn & Hsok).
  destruct (retransmit_kept cx s seg Hr) as [Esn Hk].
  destruct (retransmit_wire cx s seg) as [Ew Ea].
  destruct (retransmit cx s seg) as [[b s'] seg']. cbn [snd] in *.
  split_and!; [by apply Hk | by rewrite Esn |]. intros E0 seg2 H2 Hu2 Hw. apply Hsok; [congruence|done|done|by etrans].
Qed.

Lemma scan_segment_inv cx (s : Scan O C) seg :
  is_u32 conv -> ctx_ok cx -> I (sc_w s) -> scannable seg ->
  I (sc_w (fst (scan_segment cx s seg))).
Proof.
  intros Hcv Hcx Hi Hseg. unfold scan_segment. destruct (Z.eqb_spec (sg_acked seg) 1) as [|Hna]; [done|].
  assert (Ha : sg_acked seg = 0) by (destruct Hseg as ((_&_&_&_&_&[?|?]&_)&_); done).
  destruct (would_send cx s seg) eqn:Ews.
  - destruct (has_room (sc_w s)) as [room w] eqn:Er.
    destruct (wi_room _ _ _ _ Hinv _ _ _ Hi Er) as [Hi1 Hj1].
    destruct room; cbn [negb].
    + specialize (Hj1 eq_refl). ssimpl.
      assert (sc_backpressured s = false) as -> by (unfold would_send in Ews; by destruct (sc_backpressured s)).
      set (s1 := s <| sc_w := w |>).
      pose proof (retransmit_frame cx s1 seg) as Hf.
      pose proof (scannable_kept cx s1 seg ltac:(apply Hcx) Hseg) as Hsk.
      destruct (retransmit_wire cx s1 seg) as [_ Ea]. rewrite Ha in Ea.
      destruct (retransmit cx s1 seg) as [[needsend s2] seg2]. cbn [snd] in Hsk, Ea.
      destruct Hf as (Hw2 & _). destruct needsend.
      * pose proof (transmit_inv cx s2 seg2 Hcv Hcx ltac:(by rewrite Hw2) Hsk Ea) as Ht.
        destruct (transmit cx s2 seg2). cbn [fst] in *. by rewrite note_scanned_w, nearest_rto_w.
      * cbn [fst]. rewrite note_scanned_w, nearest_rto_w, Hw2. done.
    + ssimpl. cbn [fst]. rewrite note_scanned_w, nearest_rto_w. done.
  - destruct (sc_backpressured s) eqn:Eb.
    + cbn [fst]. by rewrite note_scanned_w, nearest_rto_w.
    + pose proof (retransmit_needsend cx s seg Eb) as Hn. rewrite Ews in Hn.
      pose proof (retransmit_frame cx s seg) as Hf.
      destruct (retransmit cx s seg) as [[needsend s2] seg2]. cbn [fst] in Hn. subst needsend.
      cbn [fst]. rewrite note_scanned_w, nearest_rto_w. destruct Hf as (-> & _). done.
Qed.

End WithInv.
End Lift.
