(* ===== verification/KcpFlushInv.v ===== *)
(** * [flush] as a whole

    The admission loop, the lifting of writer properties through [Kcp::flush]
    ([flush_lift]), and that [flush], [input] and every other call preserve the
    well-formedness invariant. *)
From S2P Require Import Prelude Word Env Segment Queue Heap KcpState KcpSend KcpFlush KcpInput KcpInv.
From S2P Require Import KcpWriter.
Local Open Scope Z_scope.

Section Kcp.
Context {O C : Type} `{Output O, Clock C}.
Implicit Types (w : Writer O) (k : Kcp O C).

(** ** Admission *)

(** A queued segment entering the send buffer. *)
Definition admitted (conv sn : Z) (s : Segment) : Segment :=
  s <| sg_conv := conv |> <| sg_cmd := IKCP_CMD_PUSH |> <| sg_sn := sn |>.

(** How many segments the loop moves: until the window is full or the queue is
    empty. *)
Fixpoint admit_count (una_cwnd snd_nxt : Z) (q : list Segment) : nat :=
  if 0 <=? _itimediff snd_nxt una_cwnd then 0%nat
  else match q with [] => 0%nat | _ :: q => S (admit_count una_cwnd (wadd32 snd_nxt 1) q) end.

Lemma admit_loop_spec conv una cwnd q buf nxt c :
  is_u32 nxt ->
  let n := admit_count (wadd32 una cwnd) nxt q in
  admit_loop conv una cwnd q buf nxt c =
    (drop n q, buf ++ imap (fun i s => admitted conv (u32 (nxt + Z.of_nat i)) s) (take n q),
     u32 (nxt + Z.of_nat n), (c + n)%nat).
Proof.
  cbn zeta. revert buf nxt c; induction q as [|s q IH]; intros buf nxt c Hn;
    cbn [admit_loop admit_count]; destruct (0 <=? _) eqn:E;
    try (cbn [drop take imap]; by rewrite app_nil_r, Z.add_0_r, u32_id, Nat.add_0_r).
  rewrite IH by apply u32_range. cbn [drop take imap]. unfold q_push. rewrite <- app_assoc. cbn [app].
  assert (forall m, u32 (wadd32 nxt 1 + Z.of_nat m) = u32 (nxt + Z.of_nat (S m))) as Em.
  { intros m. unfold wadd32. rewrite u32_add_l. f_equal. lia. }
  rewrite Em. f_equal; [|lia]. f_equal. f_equal. f_equal. f_equal.
  - unfold admitted. by rewrite Z.add_0_r, u32_id.
  - apply imap_ext. intros i x _. cbn. by rewrite Em.
Qed.

Lemma admit_count_le lim nxt q : (admit_count lim nxt q <= length q)%nat.
Proof.
  revert nxt; induction q as [|s q IH]; intros nxt; cbn [admit_count length]; case_goal; try lia.
  specialize (IH (wadd32 nxt 1)). lia.
Qed.

(** Everything admitted was inside the window when it was. *)
Lemma admit_count_window lim nxt q i :
  (i < admit_count lim nxt q)%nat -> _itimediff (u32 (nxt + Z.of_nat i)) lim < 0.
Proof.
  revert nxt i; induction q as [|s q IH]; intros nxt i; cbn [admit_count]; destruct (0 <=? _) eqn:E; try lia.
  to_prop. intros Hi. destruct i as [|i].
  - rewrite Z.add_0_r, itimediff_l. lia.
  - replace (nxt + Z.of_nat (S i)) with ((nxt + 1) + Z.of_nat i) by lia.
    rewrite <- (u32_add_l (nxt + 1)). apply IH. unfold wadd32 in Hi. lia.
Qed.

(** Admission stops only at the window or at the end of the queue. *)
Lemma admit_count_stop lim nxt q :
  admit_count lim nxt q = length q \/
  0 <= _itimediff (u32 (nxt + Z.of_nat (admit_count lim nxt q))) lim.
Proof.
  revert nxt; induction q as [|s q IH]; intros nxt; cbn [admit_count length]; destruct (0 <=? _) eqn:E; to_prop;
    try (left; done); try (right; rewrite Z.add_0_r, itimediff_l; done).
  destruct (IH (wadd32 nxt 1)) as [->|Hw]; [by left|right].
  unfold wadd32 at 1 in Hw. rewrite u32_add_l in Hw.
  replace (nxt + Z.of_nat (S (admit_count lim (wadd32 nxt 1) q)))
    with (nxt + 1 + Z.of_nat (admit_count lim (wadd32 nxt 1) q)) by lia. exact Hw.
Qed.

Lemma flush_cwnd_le k : kcp_wf k -> 0 <= flush_cwnd k <= 65535.
Proof.
  intros Hwf. wf_open Hwf. unfold flush_cwnd, is_u32, is_u16 in *. rewrite !imin_min. case_goal; lia.
Qed.

(** The send buffer never outgrows the window. *)
Lemma admit_window k : kcp_wf k ->
  let n := admit_count (wadd32 (k_snd_una k) (flush_cwnd k)) (k_snd_nxt k) (k_snd_queue k) in
  n = 0%nat \/ zlen (k_snd_buf k) + Z.of_nat n <= flush_cwnd k.
Proof.
  intros Hwf n. pose proof (flush_cwnd_le k Hwf). destruct (wf_snd _ Hwf) as [_ Hnx _ Hl _].
  pose proof (zlen_nonneg (k_snd_buf k)).
  set (i := Z.to_nat (flush_cwnd k - zlen (k_snd_buf k))).
  destruct (decide (n <= i)%nat) as [|Hn]; [lia|].
  pose proof (admit_count_window (wadd32 (k_snd_una k) (flush_cwnd k)) (k_snd_nxt k) (k_snd_queue k) i
                ltac:(fold n; lia)) as Hw.
  rewrite Hnx, u32_add_l in Hw. unfold wadd32 in Hw. rewrite itimediff_exact in Hw; lia.
Qed.

Lemma admitted_snd_seg conv sn s : queued_seg s -> snd_seg conv (admitted conv sn s).
Proof.
  intros (?&?&?&Ex&Ea&Ef&Er&Eo). unfold snd_seg, admitted. ksimpl. rewrite Ex, Ea, Ef, Er, Eo.
  split_and!; try done. by left.
Qed.

Lemma sn_chain_admitted conv base nxt buf q :
  nxt = u32 (base + zlen buf) -> sn_chain base buf ->
  sn_chain base (buf ++ imap (fun i s => admitted conv (u32 (nxt + Z.of_nat i)) s) q).
Proof.
  intros -> Hc i s Hi. apply lookup_app_Some in Hi as [Hi|[Hl Hi]]; [by apply Hc|].
  rewrite list_lookup_imap in Hi. apply fmap_Some in Hi as (x & _ & ->). unfold admitted. ksimpl.
  rewrite u32_add_l. unfold zlen. f_equal. lia.
Qed.

Lemma admit_wf cwnd k : cwnd = flush_cwnd k -> kcp_wf k -> kcp_wf (snd (admit_new cwnd k)).
Proof.
  intros -> Hwf. unfold admit_new.
  rewrite admit_loop_spec by (rewrite (wf_nxt _ (wf_snd _ Hwf)); apply u32_range).
  cbn [snd]. pose proof (admit_window k Hwf) as Hw. cbn zeta in Hw.
  pose proof (admit_count_le (wadd32 (k_snd_una k) (flush_cwnd k)) (k_snd_nxt k) (k_snd_queue k)) as Hle.
  set (n := admit_count _ _ _) in *. pose proof (flush_cwnd_le k Hwf).
  wf_open Hwf; wf_same.
  - destruct wf_snd0 as [? Hnx Hc Hl Hb]. constructor; ksimpl; try done.
    + rewrite Hnx, u32_add_l. f_equal. unfold zlen. rewrite length_app, length_imap, length_take. lia.
    + by apply sn_chain_admitted.
    + unfold zlen in *. rewrite length_app, length_imap, length_take. lia.
    + apply Forall_app. split; [done|]. rewrite Forall_lookup. intros i s Hi.
      rewrite list_lookup_imap in Hi. apply fmap_Some in Hi as (x & Hx & ->).
      apply admitted_snd_seg. apply lookup_take_Some in Hx as [Hx _].
      by eapply Forall_lookup_1 in wf_snd_queue0.
  - by apply Forall_drop.
Qed.

(** ** Before the scan *)

Lemma probe_timer_wf k : kcp_wf k -> kcp_wf (probe_timer k).
Proof.
  intros Hwf. unfold probe_timer. destruct (now_ms (k_clock k)).
  repeat case_goal; wf_open Hwf; wf_same; destruct wf_snd0; by constructor.
Qed.

(** What [flush_head] changes: the acknowledgement list, the probe fields, the
    clock, and what [admit_new] does. *)
Lemma flush_acks_frame seg w k :
  exists acks, snd (flush_acks seg w k) = k <| k_acklist := acks |> /\
    (exists n, acks = drop n (k_acklist k)).
Proof.
  unfold flush_acks. destruct (flush_acks_loop _ _ _ _ _ _ _ _) as [[seg' w'] n]. cbn [snd].
  destruct (n =? length (k_acklist k))%nat.
  - exists []. split; [done|]. exists (length (k_acklist k)). by rewrite drop_all.
  - eauto.
Qed.

Lemma flush_probes_frame seg w k :
  exists p, snd (flush_probes seg w k) = k <| k_probe := p |>.
Proof.
  unfold flush_probes. destruct (flush_probe _ _ IKCP_ASK_SEND _ _ _ _) as [[seg1 w1] d1].
  destruct (flush_probe _ _ IKCP_ASK_TELL _ _ _ _) as [[seg2 w2] d2]. eauto.
Qed.

(** The template is a sendable header. *)
Lemma flush_template_ok k : kcp_wf k -> template (k_conv k) (k_rcv_nxt k) (flush_template k).
Proof.
  intros Hwf. split; [|done]. unfold sendable, wire_segment, flush_template, wnd_unused, known_cmd.
  ksimpl. wf_open Hwf. split_and!; try done; [|by constructor].
  destruct (zlen (k_rcv_queue k) <? k_rcv_wnd k); [apply u16_range|done].
Qed.

Lemma acks_wf acks k : (exists n, acks = drop n (k_acklist k)) -> kcp_wf k -> kcp_wf (k <| k_acklist := acks |>).
Proof.
  intros [n ->] Hwf. wf_open Hwf; wf_same; [destruct wf_snd0; by constructor | by apply Forall_drop].
Qed.

Lemma probe_wf p k : kcp_wf k -> kcp_wf (k <| k_probe := p |>).
Proof. intros Hwf. wf_open Hwf; wf_same. destruct wf_snd0; by constructor. Qed.

(** The fields no stage before [flush_tail] writes. *)
Definition same_env k k' : Prop :=
  k_conv k' = k_conv k /\ k_mtu k' = k_mtu k /\ k_output k' = k_output k /\
  k_buffer k' = k_buffer k /\ k_snmp k' = k_snmp k /\ k_panic k' = k_panic k.

Lemma probe_timer_frame k :
  same_env k (probe_timer k) /\ k_snd_buf (probe_timer k) = k_snd_buf k /\
  k_snd_queue (probe_timer k) = k_snd_queue k /\ k_acklist (probe_timer k) = k_acklist k /\
  k_snd_una (probe_timer k) = k_snd_una k /\ k_snd_nxt (probe_timer k) = k_snd_nxt k /\
  flush_cwnd (probe_timer k) = flush_cwnd k /\ k_flush_scan (probe_timer k) = k_flush_scan k.
Proof.
  unfold probe_timer. destruct (now_ms (k_clock k)). repeat case_goal; unfold same_env; split_and!; reflexivity.
Qed.

Lemma admit_frame cwnd k :
  same_env k (snd (admit_new cwnd k)) /\
  k_flush_scan (snd (admit_new cwnd k)) = k_flush_scan k.
Proof. unfold admit_new. destruct (admit_loop _ _ _ _ _ _ _) as [[[? ?] ?] ?]. done. Qed.

Lemma admit_data (P : list Z -> Prop) cwnd k : kcp_wf k ->
  Forall (fun s => P (sg_data s)) (k_snd_buf k ++ k_snd_queue k) ->
  Forall (fun s => P (sg_data s)) (k_snd_buf (snd (admit_new cwnd k)) ++ k_snd_queue (snd (admit_new cwnd k))).
Proof.
  intros Hwf HP. unfold admit_new.
  rewrite admit_loop_spec by (rewrite (wf_nxt _ (wf_snd _ Hwf)); apply u32_range).
  ksimpl. apply Forall_app in HP as [HP1 HP2].
  rewrite !Forall_app. split_and!; [done| |by apply Forall_drop].
  rewrite Forall_lookup. intros i s Hi. rewrite list_lookup_imap in Hi.
  apply fmap_Some in Hi as (x & Hx & ->). apply lookup_take_Some in Hx as [Hx _].
  by eapply (Forall_lookup_1 _ _ _ _ HP2) in Hx.
Qed.

(** The part of the send queue a flush admits, as it enters the send buffer. *)
Definition admit_room k : nat :=
  admit_count (wadd32 (k_snd_una k) (flush_cwnd k)) (k_snd_nxt k) (k_snd_queue k).
Definition to_admit k : list Segment :=
  imap (fun i s => admitted (k_conv k) (u32 (k_snd_nxt k + Z.of_nat i)) s) (take (admit_room k) (k_snd_queue k)).

Lemma to_admit_data (P : list Z -> Prop) k : Forall (fun s => P (sg_data s)) (k_snd_queue k) ->
  Forall (fun s => P (sg_data s)) (to_admit k).
Proof.
  intros HP. rewrite Forall_lookup. intros i s Hi. unfold to_admit in Hi. rewrite list_lookup_imap in Hi.
  apply fmap_Some in Hi as (x & Hx & ->). apply lookup_take_Some in Hx as [Hx _].
  by eapply (Forall_lookup_1 _ _ _ _ HP) in Hx.
Qed.

Lemma admit_buf k : kcp_wf k -> k_snd_buf (snd (admit_new (flush_cwnd k) k)) = k_snd_buf k ++ to_admit k.
Proof.
  intros Hwf. unfold admit_new. rewrite admit_loop_spec by (rewrite (wf_nxt _ (wf_snd _ Hwf)); apply u32_range). reflexivity.
Qed.

Section Lift.
Context (I J : Writer O -> Prop) (ok : Segment -> Prop) (P : Segment -> Prop) (k : Kcp O C).
Context (Hwf : kcp_wf k) (Hinv : writer_inv I J (k_mtu k) ok).
Context (Hsnmp : forall w snmp, I w -> I (w <| w_snmp := snmp |>)).
Context (Hok : forall s s', sendable (k_conv k) s' -> sg_una s' = k_rcv_nxt k -> P s -> same_wire s s' -> ok s').
Context (Hheader : forall s, sendable (k_conv k) s -> sg_una s = k_rcv_nxt k -> sg_cmd s <> IKCP_CMD_PUSH -> sg_data s = [] -> ok s).
Context (Hdata : Forall (fun s => sg_acked s = 0 -> P s) (k_snd_buf k ++ to_admit k)).
Context (Hstart : I (mkWriter (k_output k) (k_buffer k) 0 (k_snmp k) (k_panic k))).

Lemma flush_head_lift :
  let '(seg, w, n, k1) := flush_head k in
  template (k_conv k) (k_rcv_nxt k) seg /\ I w /\ kcp_wf k1 /\ same_env k k1 /\
  k_flush_scan k1 = k_flush_scan k /\
  Forall (fun s => sg_acked s = 0 -> P s) (k_snd_buf k1).
Proof using All.
  unfold flush_head.
  pose proof (flush_acks_loop_inv I J (k_mtu k) ok (k_conv k) (k_rcv_nxt k) Hinv ltac:(apply Hwf) Hheader
    (k_rcv_nxt k) (length (k_acklist k)) 0 (k_acklist k) (flush_template k)
    (mkWriter (k_output k) (k_buffer k) 0 (k_snmp k) (k_panic k)) 0
    (wf_acks _ Hwf) (flush_template_ok k Hwf) Hstart) as Ha.
  pose proof (flush_acks_frame (flush_template k)
    (mkWriter (k_output k) (k_buffer k) 0 (k_snmp k) (k_panic k)) k) as (acks & Ek & Hn).
  unfold flush_acks in Ek |- *.
  destruct (flush_acks_loop _ _ _ _ _ _ _ _) as [[seg1 w1] done1]. destruct Ha as [Ht1 Hi1].
  cbn [snd] in Ek. rewrite Ek. clear Ek.
  set (k1 := k <| k_acklist := acks |>).
  assert (kcp_wf k1) as Hwf1 by (by apply acks_wf).
  destruct (probe_timer_frame k1) as (Hs2 & Eb2 & Eq2 & _ & Eu2 & En2 & Ew2 & Ef2).
  pose proof (probe_timer_wf k1 Hwf1) as Hwf2. set (k2 := probe_timer k1) in *.
  destruct Hs2 as (Ec2 & Em2 & Eo2 & Ebf2 & Es2 & Ep2).
  pose proof (flush_probes_frame seg1 w1 k2) as (p & Ek3).
  unfold flush_probes in Ek3 |- *.
  pose proof (flush_probe_inv I J (k_mtu k) ok (k_conv k) (k_rcv_nxt k) Hinv ltac:(apply Hwf) Hheader
    (k_probe k2) IKCP_ASK_SEND IKCP_CMD_WASK seg1 w1 0 ltac:(done) eq_refl ltac:(done) Ht1 Hi1) as Hp1.
  assert (k_mtu k2 = k_mtu k) as Em by (rewrite Em2; done). rewrite Em in *.
  destruct (flush_probe _ _ IKCP_ASK_SEND _ _ _ _) as [[seg2 w2] d2]. destruct Hp1 as [Ht2 Hi2].
  pose proof (flush_probe_inv I J (k_mtu k) ok (k_conv k) (k_rcv_nxt k) Hinv ltac:(apply Hwf) Hheader
    (k_probe k2) IKCP_ASK_TELL IKCP_CMD_WINS seg2 w2 d2 ltac:(done) eq_refl ltac:(done) Ht2 Hi2) as Hp2.
  destruct (flush_probe _ _ IKCP_ASK_TELL _ _ _ _) as [[seg3 w3] d3]. destruct Hp2 as [Ht3 Hi3].
  cbn [snd] in Ek3. rewrite Ek3. clear Ek3.
  set (k3 := k2 <| k_probe := p |>).
  assert (kcp_wf k3) as Hwf3 by (by apply probe_wf).
  pose proof (admit_wf _ k3 eq_refl Hwf3) as Hwf4.
  pose proof (admit_buf k3 Hwf3) as Hd4.
  destruct (admit_frame (flush_cwnd k3) k3) as (Hs4 & Ef4).
  destruct (admit_new (flush_cwnd k3) k3) as [n k4]. cbn [snd] in *.
  destruct Hs4 as (Ec4 & Em4 & Eo4 & Ebf4 & Es4 & Ep4).
  split_and!; try done.
  - unfold same_env. rewrite Ec4, Em4, Eo4, Ebf4, Es4, Ep4. subst k3. ksimpl.
    rewrite Ec2, Em2, Eo2, Ebf2, Es2, Ep2. subst k1. ksimpl. done.
  - rewrite Ef4. subst k3. ksimpl. by rewrite Ef2.
  - assert (Ea : to_admit k3 = to_admit k).
    { unfold to_admit, admit_room. change (flush_cwnd k3) with (flush_cwnd k2). rewrite Ew2. unfold k3. ksimpl.
      rewrite Ec2, En2, Eq2, Eu2. done. }
    rewrite Hd4, Ea. change (k_snd_buf k3) with (k_snd_buf k2). rewrite Eb2. change (k_snd_buf k1) with (k_snd_buf k).
    exact Hdata.
Qed.

(** The segments of the send buffer are scannable. *)
Lemma snd_buf_scannable k1 :
  kcp_wf k1 -> k_conv k1 = k_conv k ->
  Forall (fun s => sg_acked s = 0 -> P s) (k_snd_buf k1) ->
  Forall (scannable ok (k_conv k) (k_rcv_nxt k)) (k_snd_buf k1).
Proof using Hok.
  intros Hwf1 Ec HP. destruct (wf_snd _ Hwf1) as [_ _ Hc _ Hb].
  rewrite Forall_lookup in HP. rewrite Forall_lookup in Hb. rewrite Forall_lookup. intros i s Hi.
  split_and!; [rewrite <- Ec; by apply (Hb i) | rewrite (Hc i s Hi); apply u32_range |].
  intros Ea seg' Hs Eu Ew. apply (Hok s); [done|done| |done]. by apply (HP i).
Qed.

Lemma scan_ctx_ok k1 seg resent n :
  kcp_wf k1 -> k_mtu k1 = k_mtu k -> template (k_conv k) (k_rcv_nxt k) seg ->
  ctx_ok (k_mtu k) (k_rcv_nxt k) (scan_ctx (sg_wnd seg) (sg_una seg) resent n k1).
Proof.
  intros Hwf1 Em [[[(?&?&?&?&?&?&?&?&?) _] [? _]] _]. unfold ctx_ok, scan_ctx. cbn [cx_mtu cx_wnd cx_una cx_rx_rto].
  split_and!; try done. pose proof (wf_rto _ Hwf1).
  unfold is_u32, IKCP_RTO_NDL, IKCP_RTO_MAX in *. lia.
Qed.

Lemma flush_segments_lift ft seg resent ub n w k1 :
  kcp_wf k1 -> same_env k k1 -> template (k_conv k) (k_rcv_nxt k) seg -> I w ->
  Forall (fun s => sg_acked s = 0 -> P s) (k_snd_buf k1) ->
  let '(s, k2) := flush_segments ft seg resent ub n w k1 in
  I (sc_w s) /\ kcp_wf k2 /\ same_env k k2.
Proof using All.
  intros Hwf1 (Ec & Em & He) Ht Hw HP. unfold flush_segments.
  destruct (now_ms (k_clock k1)) as [t c]. set (skipped := flush_skipped _ _ _ _).
  destruct (is_full ft).
  - set (cx := scan_ctx _ _ _ _ _).
    assert (ctx_ok (k_mtu k) (k_rcv_nxt k) cx) as Hcx by by apply scan_ctx_ok.
    pose proof (snd_buf_scannable k1 Hwf1 Ec HP) as Hsc.
    pose proof (q_iter_mut_inv (fun s => I (sc_w s)) (scannable ok (k_conv k) (k_rcv_nxt k)) (fun _ => True)
      (scan_segment cx) (scan_start w c t k1) (drop skipped (k_snd_buf k1))) as Hi.
    pose proof (q_iter_mut_from_Forall2 seg_kept skipped (scan_segment cx) (scan_start w c t k1)
      (k_snd_buf k1) ltac:(intros; apply scan_segment_kept; apply Hcx)) as Hk.
    unfold q_iter_mut_from in Hk |- *.
    destruct (q_iter_mut (scan_segment cx) (scan_start w c t k1) (drop skipped (k_snd_buf k1))) as [s q].
    cbn [fst snd] in *. split_and!.
    + apply Hi; [|done|by apply Forall_drop].
      intros s1 x Hs1 Hx. split; [|done].
      apply (scan_segment_inv I J (k_mtu k) ok (k_conv k) (k_rcv_nxt k)); try done. apply Hwf.
    + pose proof (snd_buf_kept_wf k1 _ Hwf1 Hk) as Hwf2. wf_open Hwf2; wf_same.
      destruct wf_snd0; by constructor.
    + done.
  - split_and!; [done| |done]. wf_open Hwf1; wf_same. destruct wf_snd0; by constructor.
Qed.

Lemma flush_cwnd_update_wf cwnd resent change lost k1 :
  kcp_wf k1 -> kcp_wf (flush_cwnd_update cwnd resent change lost k1).
Proof.
  intros Hwf1. unfold flush_cwnd_update. case_goal; [done|].
  set (k2 := if 0 <? change then _ else k1).
  assert (kcp_wf k2) as Hwf2.
  { subst k2. case_goal; [|done]. wf_open Hwf1; wf_same; [destruct wf_snd0; by constructor|apply u32_range]. }
  clearbody k2.
  set (k3 := if 0 <? lost then _ else k2).
  assert (kcp_wf k3) as Hwf3.
  { subst k3. case_goal; [|done]. wf_open Hwf2; wf_same. destruct wf_snd0; by constructor. }
  clearbody k3.
  case_goal; [|done]. wf_open Hwf3; wf_same. destruct wf_snd0; by constructor.
Qed.

(** The writer at the end of a flush, and the flushed state. *)
Lemma flush_lift ft :
  exists w, I w /\
    k_output (snd (flush ft k)) = w_out (flush_buffer w) /\
    k_buffer (snd (flush ft k)) = w_buffer (flush_buffer w) /\
    k_panic (snd (flush ft k)) = w_panic (flush_buffer w) /\
    (w_panic (flush_buffer w) = false ->
     k_mtu k + IKCP_OVERHEAD <= zlen (w_buffer (flush_buffer w)) -> kcp_wf (snd (flush ft k))).
Proof using All.
  unfold flush. pose proof flush_head_lift as Hh.
  destruct (flush_head k) as [[[seg w] n] k1]. destruct Hh as (Ht & Hw & Hwf1 & He & _ & HP).
  pose proof (flush_segments_lift ft seg (flush_resent k1) (fs_unsent (k_flush_scan k1)) n w k1
    Hwf1 He Ht Hw HP) as Hs.
  destruct (flush_segments _ _ _ _ _ _ _) as [s k2]. destruct Hs as (Hi & Hwf2 & He2).
  unfold flush_tail. cbn zeta.
  set (w2 := (sc_w s) <| w_snmp := _ |>).
  exists w2. split; [by apply Hsnmp|].
  set (w3 := flush_buffer w2). clearbody w3.
  set (k3 := flush_cwnd_update _ _ _ _ _).
  assert (kcp_wf k3 /\ k_mtu k3 = k_mtu k) as [Hwf3 Em3].
  { split.
    - apply flush_cwnd_update_wf. clear - Hwf2. wf_open Hwf2; wf_same. destruct wf_snd0; by constructor.
    - subst k3. destruct He2 as (_ & <- & _). unfold flush_cwnd_update. repeat case_goal; done. }
  ksimpl. wsimpl. split_and!; try done.
  intros Hp Hl. wf_open Hwf3; wf_same; try (destruct wf_snd0; by constructor). by rewrite Em3.
Qed.
End Lift.

Lemma flush_cwnd_update_frame cwnd resent change lost k :
  let k' := flush_cwnd_update cwnd resent change lost k in
  k_conv k' = k_conv k /\ k_mtu k' = k_mtu k /\ k_snd_buf k' = k_snd_buf k /\
  k_snd_queue k' = k_snd_queue k /\ k_snd_una k' = k_snd_una k /\ k_snd_nxt k' = k_snd_nxt k /\
  k_rcv_nxt k' = k_rcv_nxt k /\ k_flush_scan k' = k_flush_scan k /\
  k_clock k' = k_clock k.
Proof. unfold flush_cwnd_update. cbn zeta. repeat case_goal; done. Qed.

(** ** Safety *)

Lemma has_room_frame w b w' : has_room w = (b, w') ->
  w_buffer w' = w_buffer w /\ w_size w' = w_size w /\ w_panic w' = w_panic w /\
  w_out w' = snd (capacity (w_out w)) /\ (b = (OUTPUT_ROOM <=? fst (capacity (w_out w)))).
Proof. unfold has_room. destruct (capacity (w_out w)). intros [= <- <-]. done. Qed.

Lemma has_room_ok mtu w b w' : w_ok mtu w -> has_room w = (b, w') -> w_ok mtu w'.
Proof. intros Hw (E1 & E2 & E3 & _)%has_room_frame. unfold w_ok. by rewrite E1, E2, E3. Qed.

Lemma put_segment_ok mtu seg w : w_ok mtu w -> w_ok mtu (put_segment seg w).
Proof.
  intros (Hp & Hs & Hl). destruct (put_segment_spec seg w Hp Hs) as (_ & Hp' & _ & Hl' & Hs' & _).
  unfold w_ok, zlen in *. split_and!; [done|done|lia].
Qed.

Lemma safe_writer mtu : writer_inv (w_ok mtu) (w_ok mtu) mtu (fun _ => True).
Proof.
  split; try done.
  - intros w b w' Hw E. pose proof (has_room_ok _ _ _ _ Hw E). done.
  - intros. by apply make_space_ok.
  - intros. apply put_segment_ok. by apply make_space_ok.
Qed.

Lemma flush_buffer_ok mtu w : w_ok mtu w -> w_ok mtu (flush_buffer w).
Proof. intros Hw. unfold flush_buffer. case_goal; [|done]. rewrite emit_ok by apply Hw. done. Qed.

Lemma writer_start_ok k : kcp_wf k ->
  w_ok (k_mtu k) (mkWriter (k_output k) (k_buffer k) 0 (k_snmp k) (k_panic k)).
Proof. intros Hwf. wf_open Hwf. unfold w_ok. wsimpl. split_and!; [done|lia|done]. Qed.

Lemma Forall_True {A} (l : list A) : Forall (fun _ => True) l.
Proof. by apply Forall_forall. Qed.

Lemma flush_wf ft k : kcp_wf k -> kcp_wf (snd (flush ft k)).
Proof.
  intros Hwf.
  destruct (flush_lift (w_ok (k_mtu k)) (w_ok (k_mtu k)) (fun _ => True) (fun _ => True) k Hwf
    (safe_writer _) ltac:(done) ltac:(done) ltac:(done) ltac:(by apply Forall_forall) (writer_start_ok k Hwf) ft)
    as (w & Hw & _ & _ & _ & Hk).
  apply flush_buffer_ok in Hw as (Hp & _ & Hl). by apply Hk.
Qed.

(** ** The other operations that flush *)

Lemma clock_wf c k : kcp_wf k -> kcp_wf (k <| k_clock := c |>).
Proof. intros Hwf. wf_open Hwf; wf_same. destruct wf_snd0; by constructor. Qed.

Lemma update_wf k : kcp_wf k -> kcp_wf (update k).
Proof.
  intros Hwf. unfold update. destruct (now_ms (k_clock k)) as [t c].
  apply (clock_wf c) in Hwf. set (k0 := k <| k_clock := c |>) in *. clearbody k0. clear k.
  set (k1 := if k_updated k0 =? 0 then _ else k0).
  assert (kcp_wf k1) as Hwf1.
  { subst k1. case_goal; [|done]. wf_open Hwf; wf_same. destruct wf_snd0; by constructor. }
  clearbody k1.
  set (p := if negb _ then _ else (_, k1)).
  assert (kcp_wf (snd p)) as Hwf2.
  { subst p. case_goal; [|done]. wf_open Hwf1; wf_same. destruct wf_snd0; by constructor. }
  destruct p as [slap k2]. cbn [snd] in Hwf2.
  case_goal; [|done]. apply flush_wf.
  case_goal; wf_open Hwf2; wf_same; destruct wf_snd0; by constructor.
Qed.

Lemma check_frame k : exists t c, check k = (t, k <| k_clock := c |>).
Proof. unfold check. destruct (now_ms (k_clock k)). cbn zeta. repeat case_goal; eauto. Qed.

Lemma snmp_wf s k : kcp_wf k -> kcp_wf (k <| k_snmp := s |>).
Proof. intros Hwf. wf_open Hwf; wf_same. destruct wf_snd0; by constructor. Qed.

Lemma ack_push_wf sn ts k : is_u32 sn -> is_u32 ts -> kcp_wf k -> kcp_wf (ack_push sn ts k).
Proof.
  intros ?? Hwf. wf_open Hwf; wf_same; [destruct wf_snd0; by constructor|].
  apply Forall_app. split; [done|]. by apply Forall_singleton.
Qed.

(** A decoded header has word-sized fields. *)
Definition header_wf (h : SegmentHeader) : Prop :=
  is_u32 (h_conv h) /\ is_u16 (h_wnd h) /\ is_u32 (h_ts h) /\ is_u32 (h_sn h) /\
  is_u32 (h_una h) /\ is_u32 (h_len h) /\ is_u8 (h_frg h).

Lemma le_val_take_range n l : bytes l -> (n <= length l)%nat -> 0 <= le_val (take n l) < 256 ^ Z.of_nat n.
Proof.
  intros Hb Hn. pose proof (le_val_range (take n l) (Forall_take _ _ _ Hb)) as Hr.
  rewrite length_take in Hr. replace (n `min` length l)%nat with n in Hr by lia. done.
Qed.

Lemma decode_wf data h rest : bytes data -> decode data = Some (h, rest) ->
  header_wf h /\ bytes rest /\ rest = drop OVERHEAD data.
Proof.
  intros Hb. unfold decode, OVERHEAD, ikcp_decode32u, ikcp_decode16u, ikcp_decode8u.
  destruct (Nat.ltb_spec (length data) 24) as [|Hl]; [done|].
  repeat match goal with
  | |- context [if Nat.ltb (length ?d) ?n then _ else _] =>
      destruct (Nat.ltb_spec (length d) n);
        [rewrite ?length_drop in *; lia | cbn [mbind option_bind]]
  end.
  intros [= <- <-]. rewrite !drop_drop.
  split; [|split; [by apply Forall_drop|done]].
  unfold header_wf. cbn [h_conv h_wnd h_ts h_sn h_una h_len h_frg].
  split_and!; apply le_val_take_range; try by repeat apply Forall_drop.
  all: rewrite ?length_drop; lia.
Qed.

Lemma input_push_wf pt h payload k : header_wf h -> kcp_wf k -> kcp_wf (input_push pt h payload k).
Proof.
  intros (_&_&Hts&Hsn&_) Hwf. unfold input_push.
  set (p := if _ <? 0 then _ else (true, k)).
  assert (kcp_wf (snd p)) as Hp.
  { subst p. case_goal; [|done].
    pose proof (ack_push_wf _ _ k Hsn Hts Hwf) as Hwf1. case_goal; [|done]. by apply parse_data_wf. }
  destruct p as [b k1]. cbn [snd] in Hp. case_goal; [|done]. by apply snmp_wf.
Qed.

Lemma input_segment_wf pt h data l k :
  header_wf h -> bytes data -> kcp_wf k ->
  match input_segment pt h data l k with
  | inl (_, k') => kcp_wf k'
  | inr (_, data', k') => bytes data' /\ kcp_wf k'
  end.
Proof.
  intros Hh Hb Hwf. unfold input_segment.
  destruct (negb (h_conv h =? _)); [done|]. destruct (zlen data <? h_len h); [done|].
  destruct (negb (known_cmd _)); [done|].
  set (k0 := if is_regular pt then _ else k).
  assert (kcp_wf k0) as Hwf0.
  { subst k0. case_goal; [|done]. wf_open Hwf; wf_same; [destruct wf_snd0; by constructor|apply Hh]. }
  clearbody k0.
  pose proof (una_shrink_wf (h_una h) k0 Hwf0) as Hwf1.
  destruct (parse_una (h_una h) k0) as [n k1]. cbn [snd] in Hwf1.
  set (k2 := shrink_buf k1) in *. clearbody k2.
  set (l1 := if (0 <? n)%nat then _ else l). clearbody l1.
  destruct (h_cmd h =? IKCP_CMD_ACK).
  - pose proof (parse_fastack_wf (h_sn h) (h_ts h) _ (parse_ack_wf (h_sn h) k2 Hwf1)) as Hwf2.
    destruct (parse_fastack _ _ _). split; [by apply Forall_drop|done].
  - destruct (h_cmd h =? IKCP_CMD_PUSH).
    { split; [by apply Forall_drop|]. by apply input_push_wf. }
    destruct (h_cmd h =? IKCP_CMD_WASK); (split; [by apply Forall_drop|]); [by apply probe_wf|done].
Qed.

Lemma input_loop_wf fuel pt data l k : bytes data -> kcp_wf k ->
  match input_loop fuel pt data l k with inl (_, k') => kcp_wf k' | inr (_, k') => kcp_wf k' end.
Proof.
  revert data l k; induction fuel as [|fuel IH]; intros data l k Hb Hwf; cbn [input_loop]; [done|].
  destruct (decode data) as [[h rest]|] eqn:Ed; [|done].
  destruct (decode_wf _ _ _ Hb Ed) as (Hh & Hb' & _).
  pose proof (input_segment_wf pt h rest l k Hh Hb' Hwf) as Hs.
  destruct (input_segment pt h rest l k) as [[c k']|[[l' data'] k']]; [done|].
  destruct Hs. by apply IH.
Qed.

Lemma cwnd_incr_wf cw incr k : is_u32 cw -> kcp_wf k -> kcp_wf (k <| k_cwnd := cw |> <| k_incr := incr |>).
Proof. intros ? Hwf. wf_open Hwf; wf_same. destruct wf_snd0; by constructor. Qed.
End Kcp.

(** ** Runs of the state machine

    Every public operation of [Kcp] preserves the invariant, for any sink and
    clock: no sequence of calls with well-typed arguments panics. *)
(** The arguments an operation can be called with: bytes are bytes, and the MTU
    fits a [u32]. *)
Definition op_ok (op : kcp_op) : Prop :=
  match op with
  | OpSend buffer => bytes buffer
  | OpInput data _ _ => bytes data
  | OpSetMtu mtu => mtu < 4294967296
  | _ => True
  end.

Section Kcp.
Context {O C : Type} `{Output O, Clock C}.
Implicit Types (k : Kcp O C).

Lemma input_cwnd_wf una k : kcp_wf k -> kcp_wf (input_cwnd una k).
Proof.
  intros Hwf. unfold input_cwnd. case_goal; [|done]. cbn zeta.
  pose proof (wf_mss _ Hwf) as Hmss. pose proof (wf_mtu _ Hwf) as Hmtu. unfold IKCP_OVERHEAD in Hmss.
  set (k1 := if k_cwnd k <? k_ssthresh k then _ else _).
  assert (kcp_wf k1) as Hwf1.
  { subst k1. case_goal; [apply cwnd_incr_wf; [apply u32_range|done]|].
    set (k2 := if k_incr k <? k_mss k then _ else k).
    assert (kcp_wf k2 /\ 0 < k_incr k2 /\ k_mss k2 = k_mss k) as (Hwf2 & Hi2 & Em2).
    { subst k2. case_goal; to_prop; [|split_and!; [done|lia|done]].
      split_and!; [|ksimpl; lia|done]. wf_open Hwf; wf_same. destruct wf_snd0; by constructor. }
    clearbody k2. destruct (Z.eqb_spec (k_incr k2) 0); [lia|].
    ksimpl. destruct (wmul32 _ _ <=? _).
    - destruct (0 <? k_mss k) eqn:E; to_prop; [|lia]. wf_open Hwf2; wf_same.
      + destruct wf_snd0; by constructor.
      + apply u32_div; [apply u32_range|lia].
    - wf_open Hwf2; wf_same. destruct wf_snd0; by constructor. }
  clearbody k1. case_goal; [|done]. apply cwnd_incr_wf; [|done].
  wf_open Hwf1. unfold is_u16, is_u32 in *. lia.
Qed.

Lemma input_rtt_wf pt l k : kcp_wf k -> kcp_wf (input_rtt pt l k).
Proof.
  intros Hwf. unfold input_rtt. case_goal; [|done]. destruct (now_ms (k_clock k)) as [t c].
  apply (clock_wf c) in Hwf. case_goal; [by apply update_ack_wf|done].
Qed.

Lemma input_flush_wf nd l k : kcp_wf k -> kcp_wf (input_flush nd l k).
Proof. intros Hwf. unfold input_flush. repeat case_goal; try done; by apply flush_wf. Qed.

Lemma input_wf data pt nd k : bytes data -> kcp_wf k -> kcp_wf (snd (input data pt nd k)).
Proof.
  intros Hb Hwf. unfold input. case_goal; [done|].
  pose proof (input_loop_wf (input_fuel data) pt data input_start k Hb Hwf) as Hl.
  destruct (input_loop _ _ _ _ _) as [[c k']|[l k']]; [done|].
  cbn [snd]. apply input_flush_wf, input_cwnd_wf, input_rtt_wf. by apply snmp_wf.
Qed.

Lemma kcp_step_wf op k : op_ok op -> kcp_wf k -> kcp_wf (snd (kcp_step op k)).
Proof.
  intros Hop Hwf. destruct op as [b|b|d pt nd|ft| | |m|a b c d|a b]; cbn [kcp_step op_ok] in *.
  - pose proof (send_wf b k Hop Hwf). by destruct (send b k).
  - pose proof (recv_wf b k Hwf). by destruct (recv b k) as [[? ?] ?].
  - pose proof (input_wf d pt nd k Hop Hwf). by destruct (input d pt nd k).
  - pose proof (flush_wf ft k Hwf). by destruct (flush ft k).
  - by apply update_wf.
  - destruct (check_frame k) as (t & c & ->). by apply clock_wf.
  - pose proof (set_mtu_wf m k Hop Hwf). by destruct (set_mtu m k).
  - pose proof (nodelay_wf a b c d k Hwf). by destruct (nodelay a b c d k).
  - pose proof (wnd_size_wf a b k Hwf). by destruct (wnd_size a b k).
Qed.

Lemma kcp_run_wf ops k : Forall op_ok ops -> kcp_wf k -> kcp_wf (snd (kcp_run ops k)).
Proof.
  intros Hops. revert k; induction Hops as [|op ops Hop Hops IH]; intros k Hwf; cbn; [done|].
  pose proof (kcp_step_wf op k Hop Hwf). destruct (kcp_step op k) as [r k1].
  specialize (IH k1 ltac:(done)). by destruct (kcp_run ops k1).
Qed.
End Kcp.
