(* ===== verification/KcpSink.v ===== *)
(** * What reaches the packet sink

    Only [flush] writes to the sink.  For a bounded sink it never writes a
    packet that is dropped (Deviation V18 of the source); every packet is a
    sequence of complete segments of the connection and fits the MTU.  Both are
    instances of [flush_lift], carried to whole runs. *)
From S2P Require Import Prelude Word Env Segment Queue Heap KcpState KcpSend KcpFlush KcpInput KcpInv.
From S2P Require Import KcpWriter KcpFlushInv.
Local Open Scope Z_scope.

Section Quiet.
Context {O C : Type} `{Output O, Clock C}.
Implicit Types (k : Kcp O C).

(** The payloads waiting to be sent or acknowledged hold [P]. *)
Definition payloads (P : list Z -> Prop) k : Prop :=
  Forall (fun s => P (sg_data s)) (k_snd_buf k ++ k_snd_queue k).

(** What becomes of a segment of the send buffer: it is acknowledged and its payload
    released, or the peer would not see a difference. *)
Definition data_kept (s s' : Segment) : Prop :=
  (same_wire s s' /\ sg_acked s' = sg_acked s) \/ (sg_data s' = [] /\ sg_acked s' = 1).

#[export] Instance data_kept_refl : Reflexive data_kept.
Proof. intros s. by left. Qed.
#[export] Instance data_kept_trans : Transitive data_kept.
Proof.
  intros s1 s2 s3 [[W1 A1]|[D1 A1]] [[W2 A2]|[D2 A2]]; try (by right); [left; split; [by etrans|congruence]|].
  right. destruct W2 as (D2 & _). split; congruence.
Qed.

(** The send buffer lost segments, and kept the others. *)
Definition left_of (q q' : list Segment) : Prop := Forall (fun s' => exists s, s ∈ q /\ data_kept s s') q'.

Lemma left_of_refl q : left_of q q.
Proof. apply Forall_forall. intros s Hs. by exists s. Qed.

Lemma Forall2_left_of q q' : Forall2 data_kept q q' -> left_of q q'.
Proof.
  intros Hq. apply Forall_lookup. intros i s' Hi. destruct (Forall2_lookup_r _ _ _ _ _ Hq Hi) as (s & Hs & Hk).
  exists s. split; [by eapply list_elem_of_lookup_2|done].
Qed.

Lemma drop_left_of n q : left_of q (drop n q).
Proof. apply Forall_drop, left_of_refl. Qed.

(** A step that sends nothing, keeps the configuration and queues nothing. *)
Definition quiet k k' : Prop :=
  k_conv k' = k_conv k /\ k_mtu k' = k_mtu k /\ k_mss k' = k_mss k /\ k_output k' = k_output k /\
  k_snd_nxt k' = k_snd_nxt k /\ k_snd_queue k' = k_snd_queue k /\ left_of (k_snd_buf k) (k_snd_buf k').

Lemma quiet_payloads k k' P : quiet k k' -> P [] -> payloads P k -> payloads P k'.
Proof.
  intros (_ & _ & _ & _ & _ & Eq & Hb) HP. unfold payloads. rewrite Eq, !Forall_app. intros [H1 H2]. split; [|done].
  eapply Forall_impl; [exact Hb|]. cbv beta. intros s' (s & Hs & [[(-> & _) _]|[-> _]]); [|done].
  by eapply (proj1 (Forall_forall _ _) H1).
Qed.

#[export] Instance quiet_refl : Reflexive quiet.
Proof. intros k. split_and!; try done. apply left_of_refl. Qed.

#[export] Instance quiet_trans : Transitive quiet.
Proof.
  intros k1 k2 k3 (?&?&?&?&?&?&Ha) (?&?&?&?&?&?&Hb). split_and!; try congruence.
  eapply Forall_impl; [exact Hb|]. cbv beta. intros s3 (s2 & Hs2 & Hk2).
  destruct (proj1 (Forall_forall _ _) Ha s2 Hs2) as (s1 & Hs1 & Hk1). exists s1. split; [done|by etrans].
Qed.

(** A step that only changes the send buffer. *)
Lemma quiet_snd_buf k k' :
  k_conv k' = k_conv k -> k_mtu k' = k_mtu k -> k_mss k' = k_mss k -> k_output k' = k_output k ->
  k_snd_nxt k' = k_snd_nxt k -> k_snd_queue k' = k_snd_queue k -> left_of (k_snd_buf k) (k_snd_buf k') -> quiet k k'.
Proof. intros. unfold quiet. by split_and!. Qed.

(** A step that does not touch the two send queues. *)
Lemma quiet_same k k' :
  k_conv k' = k_conv k -> k_mtu k' = k_mtu k -> k_mss k' = k_mss k -> k_output k' = k_output k ->
  k_snd_nxt k' = k_snd_nxt k -> k_snd_buf k' = k_snd_buf k -> k_snd_queue k' = k_snd_queue k -> quiet k k'.
Proof. intros ? ? ? ? ? Eb ?. apply quiet_snd_buf; try done. rewrite Eb. apply left_of_refl. Qed.

Ltac quiet_same := apply quiet_same; reflexivity.

Lemma parse_una_quiet una k : quiet k (snd (parse_una una k)).
Proof.
  rewrite parse_una_spec. cbn [snd]. apply quiet_snd_buf; try reflexivity.
  apply drop_left_of.
Qed.

Lemma shrink_buf_quiet k : quiet k (shrink_buf k).
Proof. unfold shrink_buf. destruct (head (k_snd_buf k)); quiet_same. Qed.

Lemma parse_ack_quiet sn k : quiet k (parse_ack sn k).
Proof.
  unfold parse_ack. case_goal; [done|]. case_goal; [|done].
  apply quiet_snd_buf; try reflexivity. apply Forall2_left_of.
  apply (alter_Forall2 data_kept). intros x. by right.
Qed.

Lemma bump_fastack_data ts r s seg : data_kept seg (snd (bump_fastack ts r s seg)).
Proof. unfold bump_fastack. destruct s. left. by case_goal. Qed.

Lemma fastack_visit_data sn ts r s seg : data_kept seg (snd (fst (fastack_visit sn ts r s seg))).
Proof.
  unfold fastack_visit. case_goal; [done|]. case_goal; [|done].
  pose proof (bump_fastack_data ts r s seg) as Hd. by destruct (bump_fastack _ _ _ _).
Qed.

Lemma parse_fastack_buf sn ts k :
  Forall2 data_kept (k_snd_buf k) (k_snd_buf (snd (parse_fastack sn ts k))) /\
  k_snd_una (snd (parse_fastack sn ts k)) = k_snd_una k.
Proof.
  unfold parse_fastack. case_goal; [done|].
  set (p := match snd_buf_offset sn k with Some _ => _ | None => _ end).
  assert (Forall2 data_kept (k_snd_buf k) (snd p)) as Hq.
  { subst p. destruct (snd_buf_offset sn k).
    - apply q_iter_mut_to_Forall2; [apply _|]. intros s x. apply bump_fastack_data.
    - apply q_for_each_Forall2; [apply _|]. intros s x. apply fastack_visit_data. }
  by destruct p as [[f []] q].
Qed.

Lemma parse_fastack_quiet sn ts k : quiet k (snd (parse_fastack sn ts k)).
Proof.
  destruct (parse_fastack_buf sn ts k) as [Hb _]. apply Forall2_left_of in Hb. unfold parse_fastack in *.
  case_goal; [done|]. set (p := match snd_buf_offset sn k with Some _ => _ | None => _ end) in *.
  destruct p as [[f b] q]. destruct b; by apply quiet_snd_buf.
Qed.

Lemma move_available_quiet fuel k : quiet k (move_available fuel k).
Proof.
  revert k; induction fuel as [|fuel IH]; intros k; cbn [move_available]; [done|].
  destruct (sh_pop (k_rcv_buf k)) as [[seg h]|]; [|done]. case_goal; [|quiet_same].
  etrans; [|apply IH]. quiet_same.
Qed.

Lemma parse_data_quiet seg data k : quiet k (snd (parse_data seg data k)).
Proof.
  unfold parse_data. case_goal; [done|]. destruct (negb (sh_has _ _)); cbn [snd];
    (etrans; [|apply move_available_quiet]); [quiet_same|done].
Qed.

Lemma input_push_quiet pt h payload k : quiet k (input_push pt h payload k).
Proof.
  unfold input_push. set (p := if _ <? 0 then _ else (true, k)).
  assert (quiet k (snd p)) as Hp.
  { subst p. case_goal; [|done]. case_goal; [|quiet_same].
    etrans; [|apply parse_data_quiet]. quiet_same. }
  destruct p as [b k1]. cbn [snd] in Hp. case_goal; [|done]. etrans; [exact Hp|quiet_same].
Qed.

Lemma input_segment_quiet pt h data l k :
  match input_segment pt h data l k with
  | inl (_, k') => quiet k k'
  | inr (_, _, k') => quiet k k'
  end.
Proof.
  unfold input_segment.
  destruct (negb (h_conv h =? _)); [done|]. destruct (zlen data <? h_len h); [done|].
  destruct (negb (known_cmd _)); [done|].
  set (k0 := if is_regular pt then _ else k).
  assert (quiet k k0) as Hq0 by (subst k0; case_goal; [quiet_same|done]).
  clearbody k0.
  pose proof (parse_una_quiet (h_una h) k0) as Hq1. destruct (parse_una (h_una h) k0) as [n k1]. cbn [snd] in Hq1.
  pose proof (shrink_buf_quiet k1) as Hq2.
  assert (quiet k (shrink_buf k1)) as Hq3 by (etrans; [exact Hq0|]; etrans; [exact Hq1|exact Hq2]).
  set (k2 := shrink_buf k1) in *. clearbody k2.
  destruct (h_cmd h =? IKCP_CMD_ACK).
  - pose proof (parse_fastack_quiet (h_sn h) (h_ts h) (parse_ack (h_sn h) k2)) as Hq4.
    pose proof (parse_ack_quiet (h_sn h) k2).
    destruct (parse_fastack _ _ _). cbn [snd] in *. etrans; [exact Hq3|]. by etrans.
  - destruct (h_cmd h =? IKCP_CMD_PUSH); [etrans; [exact Hq3|apply input_push_quiet]|].
    destruct (h_cmd h =? IKCP_CMD_WASK); [etrans; [exact Hq3|quiet_same]|done].
Qed.

Lemma input_loop_quiet fuel pt data l k :
  match input_loop fuel pt data l k with inl (_, k') => quiet k k' | inr (_, k') => quiet k k' end.
Proof.
  revert data l k; induction fuel as [|fuel IH]; intros data l k; cbn [input_loop]; [done|].
  destruct (decode data) as [[h rest]|]; [|done].
  pose proof (input_segment_quiet pt h rest l k) as Hs.
  destruct (input_segment pt h rest l k) as [[c k']|[[l' data'] k']]; [done|].
  specialize (IH data' l' k'). destruct (input_loop fuel pt data' l' k') as [[? ?]|[? ?]]; by etrans.
Qed.

Lemma update_ack_quiet rtt k : quiet k (update_ack rtt k).
Proof. unfold update_ack. cbn zeta. repeat case_goal; quiet_same. Qed.

Lemma input_rtt_quiet pt l k : quiet k (input_rtt pt l k).
Proof.
  unfold input_rtt. case_goal; [|done]. destruct (now_ms (k_clock k)) as [t c].
  case_goal; [etrans; [|apply update_ack_quiet]|]; quiet_same.
Qed.

Lemma input_cwnd_quiet una k : quiet k (input_cwnd una k).
Proof. unfold input_cwnd. cbn zeta. repeat case_goal; try done; quiet_same. Qed.

Lemma recv_quiet buffer k : quiet k (snd (recv buffer k)).
Proof.
  unfold recv. case_goal; [done|]. case_goal; [done|].
  destruct (recv_merge _ _ _) as [[[q b] n]|]; [|quiet_same]. cbn [snd].
  set (k1 := k <| k_rcv_queue := q |>).
  assert (quiet k (move_available (move_fuel k1) k1)) as Hq.
  { etrans; [|apply move_available_quiet]. quiet_same. }
  case_goal; [etrans; [exact Hq|]; quiet_same|done].
Qed.
End Quiet.

Ltac quiet_same := apply quiet_same; reflexivity.

(** ** Induction over runs for properties of the sink *)

Section Induction.
Context {O C : Type} `{Output O, Clock C}.
Implicit Types (k : Kcp O C).
Context (Q : Kcp O C -> Prop) (ok : kcp_op -> Prop).
Context (Hquiet : forall k k', quiet k k' -> Q k -> Q k').
Context (Hflush : forall ft k, kcp_wf k -> Q k -> Q (snd (flush ft k))).

Lemma input_ind data pt nd k : bytes data -> kcp_wf k -> Q k -> Q (snd (input data pt nd k)).
Proof using Hquiet Hflush.
  intros Hb Hwf HQ. unfold input. case_goal; [done|].
  pose proof (input_loop_wf (input_fuel data) pt data input_start k Hb Hwf) as Hl.
  pose proof (input_loop_quiet (input_fuel data) pt data input_start k) as Hq.
  destruct (input_loop _ _ _ _ _) as [[c k1]|[l k1]]; [by apply (Hquiet k)|].
  apply (Hquiet _ _ Hq) in HQ. clear Hq.
  set (k2 := k1 <| k_snmp := _ |>).
  assert (kcp_wf k2) as Hwf2 by by apply snmp_wf.
  assert (Q k2) as HQ2 by (apply (Hquiet k1); [quiet_same|done]). clearbody k2. clear HQ Hl k1.
  pose proof (input_cwnd_wf (k_snd_una k) _ (input_rtt_wf pt l k2 Hwf2)) as Hwf3.
  apply (Hquiet _ _ (input_rtt_quiet pt l k2)), (Hquiet _ _ (input_cwnd_quiet (k_snd_una k) _)) in HQ2.
  cbn [snd]. unfold input_flush. repeat case_goal; try done; by apply Hflush.
Qed.

Lemma update_ind k : kcp_wf k -> Q k -> Q (update k).
Proof using Hquiet Hflush.
  intros Hwf HQ. unfold update. destruct (now_ms (k_clock k)) as [t c]. cbn zeta.
  set (k0 := k <| k_clock := c |>).
  assert (quiet k k0) as H0' by quiet_same. apply (clock_wf c) in Hwf. fold k0 in Hwf. clearbody k0.
  apply (Hquiet _ _ H0') in HQ. clear H0' k.
  set (k1 := if k_updated k0 =? 0 then _ else k0).
  assert (quiet k0 k1 /\ kcp_wf k1) as [H1' Hwf1].
  { subst k1. case_goal; [|done]. split; [quiet_same|]. wf_open Hwf; wf_same; destruct wf_snd0; by constructor. }
  clearbody k1. apply (Hquiet _ _ H1') in HQ.
  set (p := if negb _ then _ else (_, k1)).
  assert (quiet k1 (snd p) /\ kcp_wf (snd p)) as [H2' Hwf2].
  { subst p. case_goal; [|done]. split; [quiet_same|]. wf_open Hwf1; wf_same; destruct wf_snd0; by constructor. }
  destruct p as [slap k2]. cbn [snd] in *. apply (Hquiet _ _ H2') in HQ.
  case_goal; [|done]. apply Hflush.
  - case_goal; wf_open Hwf2; wf_same; destruct wf_snd0; by constructor.
  - eapply Hquiet; [|exact HQ]. case_goal; quiet_same.
Qed.

Lemma nodelay_quiet a b c d k : quiet k (snd (nodelay a b c d k)).
Proof. unfold nodelay. cbn [snd]. repeat case_goal; quiet_same. Qed.

Lemma wnd_size_quiet a b k : quiet k (snd (wnd_size a b k)).
Proof. unfold wnd_size. cbn [snd]. repeat case_goal; quiet_same. Qed.

(** Every operation, given the two that are neither quiet nor flush. *)
Lemma kcp_step_ind op k : (forall b, op = OpSend b -> Q (snd (send b k))) ->
  (forall m, op = OpSetMtu m -> Q (snd (set_mtu m k))) -> op_ok op -> kcp_wf k -> Q k -> Q (snd (kcp_step op k)).
Proof using Hquiet Hflush.
  intros Hsend Hm Hop Hwf HQ. destruct op as [b|b|d pt nd|ft| | |m|a b c d|a b]; cbn [kcp_step op_ok] in *.
  - pose proof (Hsend b eq_refl). by destruct (send b k).
  - pose proof (Hquiet _ _ (recv_quiet b k) HQ). by destruct (recv b k) as [[? ?] ?].
  - pose proof (input_ind d pt nd k Hop Hwf HQ). by destruct (input d pt nd k).
  - pose proof (Hflush ft k Hwf HQ). by destruct (flush ft k).
  - by apply update_ind.
  - destruct (check_frame k) as (t & c & ->). eapply Hquiet; [|exact HQ]. quiet_same.
  - pose proof (Hm m eq_refl). by destruct (set_mtu m k).
  - pose proof (Hquiet _ _ (nodelay_quiet a b c d k) HQ). by destruct (nodelay a b c d k).
  - pose proof (Hquiet _ _ (wnd_size_quiet a b k) HQ). by destruct (wnd_size a b k).
Qed.

End Induction.

(** ** Deviation V18: no packet is dropped *)

Section NoDrop.
Context {O C : Type} {HO : Output O} `{Clock C} {HB : BoundedSink O}.
Implicit Types (w : Writer O) (k : Kcp O C).

(** Between two segments, a non-empty packet has a free slot for it; once room
    was granted, there are two. *)
Definition slot_inv (mtu : Z) (d : nat) w : Prop :=
  w_ok mtu w /\ drops (w_out w) = d /\ ((0 < w_size w)%nat -> 1 <= free (w_out w)).
Definition slot_granted (mtu : Z) (d : nat) w : Prop :=
  w_ok mtu w /\ drops (w_out w) = d /\ 2 <= free (w_out w).

Lemma make_space_slot mtu d space w : slot_granted mtu d w ->
  w_ok mtu (make_space mtu space w) /\ drops (w_out (make_space mtu space w)) = d /\
  1 <= free (w_out (make_space mtu space w)).
Proof.
  intros (Hw & Hd & Hf). split; [by apply make_space_ok|].
  destruct (make_space_cases mtu space w ltac:(apply Hw)) as [[_ ->]|[_ ->]]; [split; [done|lia]|].
  wsimpl. destruct (output_room (w_out w) (w_packet w)) as [Hf' Hd']; [lia|]. split; [congruence|lia].
Qed.

Lemma slot_writer mtu d : writer_inv (slot_inv mtu d) (slot_granted mtu d) mtu (fun _ => True).
Proof.
  split.
  - by intros w (? & _).
  - intros w (? & ? & ?). split_and!; [done|done|lia].
  - intros w b w' (Hw & Hd & Hf) E. pose proof (has_room_ok _ _ _ _ Hw E) as Hw'.
    apply has_room_frame in E as (_ & Es & _ & Eo & Eb).
    destruct (capacity (w_out w)) as [c o'] eqn:Ec. cbn [fst snd] in *.
    destruct (capacity_sound _ _ _ Ec) as (H1' & H2' & H3'). rewrite <- Eo in *.
    split; [split_and!; [done|congruence|rewrite Es; lia]|].
    intros ->. unfold OUTPUT_ROOM in Eb. symmetry in Eb. to_prop. split_and!; [done|congruence|lia].
  - intros w Hj. destruct (make_space_slot mtu d OVERHEAD w Hj) as (?&?&?). by split_and!.
  - intros w seg Hj _.
    destruct (make_space_slot mtu d (OVERHEAD + length (sg_data seg)) w Hj) as (Hw & Hd & Hf).
    set (w' := make_space _ _ w) in *. clearbody w'.
    pose proof (put_segment_ok mtu seg w' Hw).
    destruct (put_segment_spec seg w') as (Eo & _); [apply Hw..|].
    unfold slot_inv. rewrite Eo. done.
Qed.

Lemma flush_drops ft k : kcp_wf k -> drops (k_output (snd (flush ft k))) = drops (k_output k).
Proof.
  intros Hwf. set (d := drops (k_output k)).
  destruct (flush_lift (slot_inv (k_mtu k) d) (slot_granted (k_mtu k) d) (fun _ => True) (fun _ => True) k Hwf
    (slot_writer _ _)) with (ft := ft) as (w & (Hw & Hd & Hf) & -> & _).
  - by intros w snmp (?&?&?).
  - done.
  - done.
  - by apply Forall_forall.
  - split_and!; [by apply writer_start_ok|done|]. wsimpl. lia.
  - unfold flush_buffer. destruct (Nat.ltb_spec 0 (w_size w)); [|done].
    rewrite emit_ok by apply Hw. wsimpl. destruct (output_room (w_out w) (w_packet w)); [|congruence].
    specialize (Hf ltac:(done)). lia.
Qed.

Lemma set_mtu_output m k : k_output (snd (set_mtu m k)) = k_output k.
Proof. unfold set_mtu. by case_goal. Qed.

Lemma send_frame b k : k_output (snd (send b k)) = k_output k /\ k_mtu (snd (send b k)) = k_mtu k /\
  k_conv (snd (send b k)) = k_conv k /\ k_mss (snd (send b k)) = k_mss k /\
  k_snd_buf (snd (send b k)) = k_snd_buf k.
Proof.
  unfold send. case_goal; [done|]. cbn zeta.
  set (p := if negb (k_stream k =? 0) then _ else (b, k)).
  assert (k_output (snd p) = k_output k /\ k_mtu (snd p) = k_mtu k /\ k_conv (snd p) = k_conv k /\
    k_mss (snd p) = k_mss k /\ k_snd_buf (snd p) = k_snd_buf k) as Hp.
  { subst p. case_goal; [|done]. by destruct (send_extend _ _ _). }
  destruct p as [rest k1]. cbn [snd] in *.
  repeat case_goal; exact Hp.
Qed.

Lemma kcp_step_drops op k : op_ok op -> kcp_wf k ->
  drops (k_output (snd (kcp_step op k))) = drops (k_output k).
Proof.
  intros Hop Hwf. set (d := drops (k_output k)).
  apply (kcp_step_ind (fun k => drops (k_output k) = d)); try done.
  - intros k1 k2 (_&_&_&->&_). done.
  - intros ft k1 Hwf1 <-. by apply flush_drops.
  - intros b _. unfold d. f_equal. apply send_frame.
  - intros m _. by rewrite set_mtu_output.
Qed.

Lemma kcp_run_drops ops k : Forall op_ok ops -> kcp_wf k ->
  drops (k_output (snd (kcp_run ops k))) = drops (k_output k).
Proof.
  intros Hops. revert k; induction Hops as [|op ops Hop Hops IH]; intros k Hwf; cbn; [done|].
  pose proof (kcp_step_wf op k Hop Hwf) as Hwf1. pose proof (kcp_step_drops op k Hop Hwf) as Hd.
  destruct (kcp_step op k) as [r k1]. cbn [snd] in *.
  specialize (IH k1 Hwf1). destruct (kcp_run ops k1). cbn [snd] in *. congruence.
Qed.
End NoDrop.

(** ** The packets written *)

(** The bytes of a run of segments. *)
Definition wire (segs : list Segment) : list Z := mjoin (wire_bytes <$> segs).

Lemma wire_snoc segs s : wire (segs ++ [s]) = wire segs ++ wire_bytes s.
Proof. unfold wire. rewrite fmap_app, join_app. csimpl. by rewrite app_nil_r. Qed.

(** A packet: complete segments of a kind; when [fit], one or more in at most [mtu] bytes.
    (A payload above the MTU, of a segment cut before the MTU was lowered, makes a flush
    write an empty packet in front of it.) *)
Definition packet_of (good : Segment -> Prop) (fit : Prop) (mtu : Z) (p : list Z) : Prop :=
  (fit -> zlen p <= mtu) /\ exists segs, (fit -> segs <> []) /\ Forall good segs /\ p = wire segs.
Definition packet_ok (conv mtu : Z) (p : list Z) : Prop := packet_of (sendable conv) True mtu p.

Lemma packet_ok_mtu conv mtu mtu' p : mtu <= mtu' -> packet_ok conv mtu p -> packet_ok conv mtu' p.
Proof. intros Hm [Hl Hs]. split; [intros _; specialize (Hl I); lia|done]. Qed.

Section Packets.
Context {O C : Type} `{Output O, Clock C}.
Implicit Types (w : Writer O) (k : Kcp O C).
Context (Sok : O -> Prop) (good : Segment -> Prop) (fit : Prop) (mtu : Z).
Context (Hout : forall o p, packet_of good fit mtu p -> Sok o -> Sok (output o p)).
Context (Hcap : forall o, Sok o -> Sok (snd (capacity o))).

Definition packet_inv w : Prop :=
  w_ok mtu w /\ Sok (w_out w) /\ (fit -> Z.of_nat (w_size w) <= mtu) /\
  exists segs, Forall good segs /\ w_packet w = wire segs.

Definition fits (s : Segment) : Prop :=
  good s /\ (fit -> Z.of_nat (OVERHEAD + length (sg_data s)) <= mtu).

Lemma packet_inv_emit w : packet_inv w -> (fit -> (0 < w_size w)%nat) -> Sok (output (w_out w) (w_packet w)).
Proof using Hout.
  intros ((_ & Hs & _) & Ho & Hm & segs & Hsegs & Ep) Hz. apply Hout; [|done].
  assert (length (w_packet w) = w_size w) as El by (unfold w_packet; rewrite length_take; lia).
  split; [unfold zlen; by rewrite El|]. exists segs. split_and!; [|done|done].
  intros Hf ->. rewrite Ep in El. cbn in El. specialize (Hz Hf). lia.
Qed.

Lemma make_space_packet space w : 0 <= mtu -> (fit -> Z.of_nat space <= mtu) -> packet_inv w ->
  packet_inv (make_space mtu space w) /\ (fit -> Z.of_nat (w_size (make_space mtu space w) + space) <= mtu).
Proof using Hout.
  intros Hm Hsp Hw. pose proof Hw as (Hok & Ho & Hl & Hsegs).
  destruct (make_space_cases mtu space w ltac:(apply Hok)) as [[Hle E]|[Hgt E]]; rewrite E; [split; [done|intros _; lia]|].
  split; [|wsimpl; exact Hsp]. rewrite <- E. split; [by apply make_space_ok|]. rewrite E. wsimpl.
  split_and!; [apply packet_inv_emit; [done|]; intros Hf; specialize (Hsp Hf); lia | intros; lia | by exists []].
Qed.

Lemma put_segment_packet seg w : packet_inv w -> good seg ->
  (fit -> Z.of_nat (w_size w + (OVERHEAD + length (sg_data seg))) <= mtu) -> packet_inv (put_segment seg w).
Proof.
  intros (Hok & Ho & Hl & segs & Hsegs & Ep) Hs Hfit.
  destruct (put_segment_spec seg w) as (Eo & _ & Esz & _ & _ & Epk); [apply Hok..|].
  split; [by apply put_segment_ok|]. rewrite Eo, Esz, length_wire_bytes. split_and!; [done|done|].
  exists (segs ++ [seg]). rewrite Epk, Ep, wire_snoc. split; [|done].
  apply Forall_app. split; [done|]. by apply Forall_singleton.
Qed.

Lemma packet_writer : 50 <= mtu -> writer_inv packet_inv packet_inv mtu fits.
Proof using Hout Hcap.
  intros Hm. split; try done.
  - by intros w (? & _).
  - intros w b w' Hw E. pose proof Hw as (Hok & Ho & Hl & Hsegs).
    assert (packet_inv w') as Hw'; [|done].
    split; [by eapply has_room_ok|].
    apply has_room_frame in E as (Eb & Es & _ & Eo & _). unfold w_packet in *. rewrite Eo, Es, Eb.
    split_and!; auto.
  - intros w Hw. apply make_space_packet; [lia|unfold OVERHEAD; lia|done].
  - intros w seg Hw [Hs Hf].
    destruct (make_space_packet (OVERHEAD + length (sg_data seg)) w) as [Hw' Hl]; [lia|done|done|].
    by apply put_segment_packet.
Qed.

(** Payloads within the segment size. *)
Definition small_payload (data : list Z) : Prop := Z.of_nat (OVERHEAD + length data) <= mtu.

Lemma small_header s : 50 <= mtu -> sg_data s = [] -> Z.of_nat (OVERHEAD + length (sg_data s)) <= mtu.
Proof. intros ? ->. unfold OVERHEAD. cbn [length]. lia. Qed.

(** [P] of the segments that are left, whatever they are stamped with. *)
Lemma flush_packets (P : Segment -> Prop) ft k : kcp_wf k -> k_mtu k = mtu -> (fit -> payloads small_payload k) ->
  (forall s s', sendable (k_conv k) s' -> sg_una s' = k_rcv_nxt k -> P s -> same_wire s s' -> good s') ->
  (forall s, sendable (k_conv k) s -> sg_una s = k_rcv_nxt k -> sg_cmd s <> IKCP_CMD_PUSH -> sg_data s = [] -> good s) ->
  Forall (fun s => sg_acked s = 0 -> P s) (k_snd_buf k ++ to_admit k) ->
  Sok (k_output k) -> Sok (k_output (snd (flush ft k))).
Proof using Hout Hcap.
  intros Hwf Em Hp Hgood Hhead HP Ho. pose proof (wf_mtu _ Hwf) as Hm.
  destruct (flush_lift packet_inv packet_inv fits (fun s => (fit -> small_payload (sg_data s)) /\ P s) k Hwf) with (ft := ft)
    as (w & Hw & -> & _).
  - rewrite Em. apply packet_writer. lia.
  - intros w snmp Hw. exact Hw.
  - intros s s' Hs Hu [Hsm HPs] Hsw. split; [by apply (Hgood s)|]. destruct Hsw as (-> & _). exact Hsm.
  - intros s Hs Hu Hc Hd. split; [by apply Hhead|]. intros _. apply small_header; [lia|done].
  - assert (Hsm : Forall (fun s => fit -> small_payload (sg_data s)) (k_snd_buf k ++ to_admit k)).
    { apply Forall_forall. intros s Hs Hf. specialize (Hp Hf). unfold payloads in Hp.
      apply Forall_app in Hp as [Hp1 Hp2]. apply (to_admit_data small_payload) in Hp2.
      apply elem_of_app in Hs as [Hs|Hs]; [by eapply (proj1 (Forall_forall _ _) Hp1)|by eapply (proj1 (Forall_forall _ _) Hp2)]. }
    clear - HP Hsm. induction HP as [|s l Hs _ IH]; [done|]. apply Forall_cons in Hsm as [H1 H2]. constructor; [auto|by apply IH].
  - pose proof (writer_start_ok k Hwf) as Hs. rewrite Em in Hs. split; [done|]. wsimpl.
    split_and!; [done|intros _; lia|by exists []].
  - unfold flush_buffer. destruct (Nat.ltb_spec 0 (w_size w)); [|apply Hw].
    rewrite emit_ok by apply Hw. by apply packet_inv_emit.
Qed.
End Packets.

(** ** A flush keeps payloads *)
Section FlushPayloads.
Context {O C : Type} `{Output O, Clock C}.
Implicit Types (k : Kcp O C).

Lemma scan_segment_wire cx (s : Scan O C) seg :
  same_wire seg (snd (scan_segment cx s seg)) /\ sg_acked (snd (scan_segment cx s seg)) = sg_acked seg.
Proof.
  unfold scan_segment. case_goal; [done|].
  set (s1 := if would_send cx s seg then _ else s). clearbody s1.
  destruct (sc_backpressured s1); [done|].
  destruct (retransmit_wire cx s1 seg) as [W1 A1]. destruct (retransmit cx s1 seg) as [[b s2] seg2].
  destruct b; [|done]. destruct (transmit_wire cx s2 seg2) as [W2 A2].
  destruct (transmit cx s2 seg2). cbn [snd] in *. split; [by etrans|congruence].
Qed.

Lemma scan_segment_data cx (s : Scan O C) seg : sg_data (snd (scan_segment cx s seg)) = sg_data seg.
Proof. by destruct (scan_segment_wire cx s seg) as [(? & _) _]. Qed.

Lemma flush_head_payloads (P : list Z -> Prop) k : kcp_wf k -> payloads P k ->
  let '(_, _, _, k1) := flush_head k in k_conv k1 = k_conv k /\ k_mtu k1 = k_mtu k /\ payloads P k1.
Proof.
  intros Hwf HP. unfold flush_head. set (w0 := mkWriter _ _ _ _ _).
  destruct (flush_acks_frame (flush_template k) w0 k) as (acks & Ek & Hn).
  destruct (flush_acks (flush_template k) w0 k) as [[seg1 w1] k1]. cbn [snd] in Ek. subst k1.
  set (k1 := k <| k_acklist := acks |>). pose proof (acks_wf acks k Hn Hwf) as Hwf1.
  pose proof (probe_timer_wf k1 Hwf1) as Hwf2.
  destruct (probe_timer_frame k1) as ((Ec & Em & _) & Eb & Eq & _). set (k2 := probe_timer k1) in *. clearbody k2.
  destruct (flush_probes_frame seg1 w1 k2) as (p & Ek3). destruct (flush_probes seg1 w1 k2) as [[seg3 w3] k3].
  cbn [snd] in Ek3. subst k3. pose proof (probe_wf p k2 Hwf2) as Hwf3. set (k3 := k2 <| k_probe := p |>) in *.
  pose proof (admit_data P (flush_cwnd k3) k3 Hwf3) as Hd. destruct (admit_frame (flush_cwnd k3) k3) as ((Ec4 & Em4 & _) & _).
  destruct (admit_new (flush_cwnd k3) k3) as [n k4]. cbn [snd] in *. rewrite Ec4, Em4. split_and!; [done|done|].
  apply Hd. change (k_snd_buf k3) with (k_snd_buf k2). change (k_snd_queue k3) with (k_snd_queue k2). by rewrite Eb, Eq.
Qed.

Lemma flush_keeps ft k (P : list Z -> Prop) : kcp_wf k -> P [] -> payloads P k ->
  k_conv (snd (flush ft k)) = k_conv k /\ k_mtu (snd (flush ft k)) = k_mtu k /\
  payloads P (snd (flush ft k)).
Proof.
  intros Hwf HP0 HP. unfold flush.
  pose proof (flush_head_payloads P k Hwf HP) as Hh.
  destruct (flush_head k) as [[[seg w] n] k1]. destruct Hh as (Ec & Em & HP1).
  apply Forall_app in HP1 as [HPb HPq].
  unfold flush_segments. destruct (now_ms (k_clock k1)) as [t c].
  set (skipped := flush_skipped _ _ _ _). set (cx := scan_ctx _ _ _ _ _).
  set (p := if is_full ft then _ else _).
  assert (k_conv (snd p) = k_conv k /\ k_mtu (snd p) = k_mtu k /\ payloads P (snd p)) as Hp.
  { subst p. destruct (is_full ft); [|split_and!; [done|done|by apply Forall_app]].
    pose proof (q_iter_mut_from_Forall2 data_kept skipped (scan_segment cx) (scan_start w c t k1)
      (k_snd_buf k1)) as Hq.
    destruct (q_iter_mut_from skipped (scan_segment cx) _ _) as [s q]. split_and!; [done|done|].
    apply Forall_app. split; [|done]. assert (Hl : left_of (k_snd_buf k1) q).
    { apply Forall2_left_of, Hq. intros s1 x. left. apply scan_segment_wire. }
    eapply Forall_impl; [exact Hl|]. cbv beta. intros s' (s0 & Hs0 & [[(-> & _) _]|[-> _]]); [|done].
    by eapply (proj1 (Forall_forall _ _) HPb). }
  destruct p as [s k2]. cbn [snd] in Hp. unfold flush_tail. cbn zeta. unfold payloads. ksimpl.
  set (k3 := k2 <| k_state := _ |> <| k_clock := _ |>).
  destruct (flush_cwnd_update_frame (flush_cwnd k1) (flush_resent k1) (sc_change s) (sc_lost s) k3)
    as (-> & -> & -> & -> & _). exact Hp.
Qed.
End FlushPayloads.

(** ** Runs into a sink that collects every packet *)

(** The operations of a run whose MTU never shrinks from [mtu] on: the segments
    already cut still fit. *)
Fixpoint ops_mtu (mtu : Z) (ops : list kcp_op) : Prop :=
  match ops with
  | [] => True
  | OpSetMtu m :: ops => if m <? 50 then ops_mtu mtu ops else mtu <= m /\ ops_mtu m ops
  | _ :: ops => ops_mtu mtu ops
  end.

Section Collect.
Context {C : Type} `{Clock C}.
Implicit Types (k : Kcp (list (list Z)) C).

(** Every packet so far is good, and every payload fits a packet. *)
Definition sent_ok (conv mtu : Z) k : Prop :=
  k_conv k = conv /\ k_mtu k = mtu /\ payloads (small_payload mtu) k /\
  Forall (packet_ok conv mtu) (k_output k).

Lemma flush_sent_ok conv mtu ft k : kcp_wf k -> sent_ok conv mtu k -> sent_ok conv mtu (snd (flush ft k)).
Proof.
  intros Hwf (Ec & Em & Hp & Ho). pose proof (wf_mtu _ Hwf).
  destruct (flush_keeps ft k (small_payload mtu)) as (Ec' & Em' & Hp'); [done| |done|].
  { unfold small_payload, OVERHEAD. cbn [length]. lia. }
  split_and!; [congruence|congruence|done|].
  apply (flush_packets (Forall (packet_ok conv mtu)) (sendable conv) True mtu) with (P := fun _ => True); try done.
  - intros o p Hpk Ho'. apply Forall_app. split; [done|]. by apply Forall_singleton.
  - by rewrite Ec.
  - by rewrite Ec.
  - by apply Forall_forall.
Qed.

Lemma quiet_sent_ok conv mtu k k' : 50 <= mtu -> quiet k k' -> sent_ok conv mtu k -> sent_ok conv mtu k'.
Proof.
  intros Hm Hq (<- & <- & Hp & Ho). pose proof (quiet_payloads _ _ (small_payload (k_mtu k)) Hq) as HP.
  destruct Hq as (Ec & Em & _ & Eo & _). unfold sent_ok. rewrite Ec, Em, Eo.
  split_and!; try done. apply HP; [|done].
  unfold small_payload, OVERHEAD. cbn [length]. lia.
Qed.

Lemma send_small b k : kcp_wf k -> payloads (small_payload (k_mtu k)) k ->
  payloads (small_payload (k_mtu k)) (snd (send b k)).
Proof.
  intros Hwf HP. pose proof (wf_mtu _ Hwf) as Hmtu. pose proof (wf_mss _ Hwf) as Hmss.
  unfold IKCP_OVERHEAD in Hmss.
  unfold send. destruct (is_nil b); [done|]. cbn zeta.
  set (p := if negb (k_stream k =? 0) then _ else (b, k)).
  assert (payloads (small_payload (k_mtu k)) (snd p) /\ k_mss (snd p) = k_mss k) as [HP1 Em].
  { subst p. case_goal; [|done].
    pose proof (send_extend_spec (Z.to_nat (k_mss k)) b (k_snd_queue k)) as Hs.
    destruct (send_extend _ b (k_snd_queue k)) as [rest q]. destruct Hs as (n & -> & Hq).
    split; [|done]. destruct Hq as [[-> _]|(q0 & seg & Eq & -> & Hl & _)]; [done|].
    unfold payloads in *. ksimpl. rewrite Eq, (assoc_L (++)) in HP. rewrite (assoc_L (++)).
    apply Forall_app in HP as [HP0 HP1]. apply Forall_app. split; [done|].
    apply Forall_singleton. ksimpl. unfold small_payload, OVERHEAD.
    rewrite length_app, length_take. lia. }
  destruct p as [rest k1]. cbn [snd] in *. repeat case_goal; try done.
  all: unfold payloads in *; ksimpl; rewrite send_loop_spec, (assoc_L (++)); apply Forall_app; (split; [done|]);
    rewrite Forall_lookup; intros j s Hj; rewrite list_lookup_imap in Hj;
    apply fmap_Some in Hj as (d & Hd & ->);
    destruct (Forall_lookup_1 _ _ _ _ (chunks_Forall (fun _ => True) _ _ _ ltac:(by apply Forall_forall)) Hd);
    unfold small_payload, OVERHEAD, frag_seg; ksimpl; lia.
Qed.

Lemma step_sent_ok conv mtu op k : (forall m, op <> OpSetMtu m) -> op_ok op -> kcp_wf k ->
  sent_ok conv mtu k -> sent_ok conv mtu (snd (kcp_step op k)).
Proof.
  intros Hnm Hop Hwf Hs.
  assert (50 <= mtu) as Hm by (destruct Hs as (_ & <- & _); apply Hwf).
  apply (kcp_step_ind (sent_ok conv mtu)); try done.
  - intros k1 k2. by apply quiet_sent_ok.
  - intros. by apply flush_sent_ok.
  - intros b ->. destruct Hs as (Ec & Em & Hp & Ho).
    destruct (send_frame b k) as (Eo & Em' & Ec' & _ & _). unfold sent_ok. rewrite Eo, Em', Ec'.
    split_and!; try done. rewrite <- Em in *. by apply send_small.
  - intros m Em. by destruct (Hnm m).
Qed.

Lemma kcp_run_sent_ok ops k conv mtu : Forall op_ok ops -> ops_mtu mtu ops -> kcp_wf k ->
  sent_ok conv mtu k ->
  exists mtu', mtu <= mtu' /\ sent_ok conv mtu' (snd (kcp_run ops k)).
Proof.
  intros Hops. revert k mtu; induction Hops as [|op ops Hop Hops IH]; intros k mtu Hm Hwf Hs; cbn.
  { exists mtu. done. }
  pose proof (kcp_step_wf op k Hop Hwf) as Hwf1.
  assert (exists m, mtu <= m /\ ops_mtu m ops /\ sent_ok conv m (snd (kcp_step op k))) as (m & Hle & Hm' & Hs').
  { assert ((exists m, op = OpSetMtu m) \/ (forall m, op <> OpSetMtu m)) as [[m ->]|Hnm].
    { destruct op; eauto; right; discriminate. }
    - cbn [kcp_step ops_mtu op_ok] in *. unfold set_mtu in *. destruct (m <? 50) eqn:E.
      { exists mtu. done. }
      to_prop. destruct Hm as [Hle Hm]. exists m. split_and!; [done|done|].
      destruct (m <? IKCP_OVERHEAD) eqn:E2; unfold IKCP_OVERHEAD in E2; to_prop; [lia|].
      cbn [orb snd]. destruct Hs as (Ec & Em & Hp & Ho).
      assert (u32 m = m) as Eu by (apply u32_id; unfold is_u32; lia).
      split_and!; [done|exact Eu| |].
      + unfold payloads in *. ksimpl. eapply Forall_impl; [exact Hp|].
        intros s. unfold small_payload. cbn beta. lia.
      + ksimpl. eapply Forall_impl; [exact Ho|]. intros p. by apply packet_ok_mtu.
    - exists mtu. split; [done|]. split.
      { destruct op; try done. by destruct (Hnm mtu0). }
      by apply step_sent_ok. }
  destruct (kcp_step op k) as [r k1]. cbn [snd] in *.
  destruct (IH k1 m Hm' Hwf1 Hs') as (m' & ? & ?). exists m'. destruct (kcp_run ops k1). split; [lia|done].
Qed.
End Collect.

(** ** The peer accepts them *)

Section Accept.
Context {O C : Type} `{Output O, Clock C}.
Implicit Types (k : Kcp O C).

(** A round of the input loop consumes at least a header: more fuel than bytes
    changes nothing. *)
Lemma input_loop_fuel f1 f2 pt data l k :
  (length data < f1)%nat -> (length data < f2)%nat ->
  input_loop f1 pt data l k = input_loop f2 pt data l k.
Proof.
  revert f2 data l k; induction f1 as [|f1 IH]; intros [|f2] data l k Hf1 Hf2; try lia.
  cbn [input_loop]. destruct (decide (length data < OVERHEAD)%nat) as [Hl|Hl].
  { by rewrite decode_short. }
  destruct (decode_long data ltac:(lia)) as [h ->].
  destruct (input_segment pt h (drop OVERHEAD data) l k) as [?|[[l' data'] k']] eqn:Es; [done|].
  assert (length data' < length data)%nat; [|apply IH; lia].
  enough (exists n, data' = drop n (drop OVERHEAD data)) as [n ->].
  { rewrite !length_drop. unfold OVERHEAD in *. lia. }
  unfold input_segment in Es.
  destruct (negb (h_conv h =? _)); [done|]. destruct (_ <? h_len h); [done|].
  destruct (negb (known_cmd _)); [done|]. destruct (parse_una _ _) as [n k1].
  destruct (h_cmd h =? IKCP_CMD_ACK); [destruct (parse_fastack _ _ _)|
    destruct (h_cmd h =? IKCP_CMD_PUSH); [|destruct (h_cmd h =? IKCP_CMD_WASK)]];
    injection Es as _ <- _; eauto.
Qed.

Lemma input_segment_accepts pt s rest l k :
  sendable (k_conv k) s ->
  exists l' k', input_segment pt (header_of s) (sg_data s ++ rest) l k = inr (l', rest, k') /\
    k_conv k' = k_conv k.
Proof.
  intros (Hw & Ec & Hc).
  pose proof (input_segment_quiet pt (header_of s) (sg_data s ++ rest) l k) as Hq.
  unfold input_segment in *. cbn [h_conv h_len h_cmd h_una h_sn h_ts header_of] in *.
  rewrite Ec, Z.eqb_refl, Hc in *. cbn [negb] in *.
  assert ((zlen (sg_data s ++ rest) <? zlen (sg_data s)) = false) as E.
  { apply Z.ltb_ge. rewrite zlen_app. pose proof (zlen_nonneg rest). lia. }
  rewrite E in *.
  assert (drop (Z.to_nat (zlen (sg_data s))) (sg_data s ++ rest) = rest) as Ed.
  { unfold zlen. rewrite Nat2Z.id. by rewrite drop_app_length. }
  destruct (parse_una _ _) as [n k1].
  destruct (sg_cmd s =? IKCP_CMD_ACK); [destruct (parse_fastack _ _ _)|
    destruct (sg_cmd s =? IKCP_CMD_PUSH); [|destruct (sg_cmd s =? IKCP_CMD_WASK)]];
    do 2 eexists; (split; [rewrite Ed; reflexivity|apply Hq]).
Qed.

Lemma input_loop_accepts pt segs fuel l k :
  Forall (sendable (k_conv k)) segs -> (length segs < fuel)%nat ->
  (exists l' k', input_loop fuel pt (wire segs) l k = inr (l', k')).
Proof.
  intros Hs. revert fuel l k Hs; induction segs as [|s segs IH]; intros [|fuel] l k Hs Hf;
    cbn [length] in Hf; try lia; cbn [input_loop].
  - rewrite decode_short by (cbn; unfold OVERHEAD; lia). eauto.
  - apply Forall_cons in Hs as [H1' H2'].
    change (wire (s :: segs)) with (wire_bytes s ++ wire segs). unfold wire_bytes at 1.
    rewrite <- app_assoc, decode_header_bytes by apply H1'.
    destruct (input_segment_accepts pt s (wire segs) l k H1') as (l' & k' & -> & Ec).
    apply IH; [by rewrite Ec|lia].
Qed.

Lemma length_wire segs : (length segs <= length (wire segs))%nat.
Proof.
  induction segs as [|s segs IH]; [done|].
  change (wire (s :: segs)) with (wire_bytes s ++ wire segs).
  rewrite length_app, length_wire_bytes. unfold OVERHEAD. cbn [length]. lia.
Qed.

Lemma input_accepts conv mtu p pt nd k :
  packet_ok conv mtu p -> k_conv k = conv -> fst (input p pt nd k) = 0.
Proof.
  intros (_ & segs & Hne & Hs & ->) <-. unfold input.
  destruct (zlen (wire segs) <? IKCP_OVERHEAD) eqn:E.
  { exfalso. to_prop. destruct segs as [|s segs]; [by destruct (Hne I)|].
    change (wire (s :: segs)) with (wire_bytes s ++ wire segs) in E.
    rewrite zlen_app in E. unfold zlen in E. rewrite length_wire_bytes in E.
    unfold IKCP_OVERHEAD, OVERHEAD in E. lia. }
  destruct (input_loop_accepts pt segs (input_fuel (wire segs)) input_start k Hs) as (l & k' & ->); [|done].
  pose proof (length_wire segs). unfold input_fuel. lia.
Qed.
End Accept.
