(* ===== verification/KcpDelivery.v ===== *)
(** * In-order, exactly-once delivery

    The receive path ([parse_data], [recv] and the loop they share) against its
    specification: whatever order, duplication or loss the network applies to
    the segments the peer numbered, what [recv] hands out is the peer's segment
    sequence from the beginning, each segment once.  Segment indices are
    unbounded ([src i] is the [i]-th segment the peer ever sent); the code only
    sees them modulo [2^32]. *)
From S2P Require Import Prelude Word Env Segment Queue Heap KcpState KcpSend KcpFlush KcpInput KcpInv.
Local Open Scope Z_scope.

(** What the application can tell of a segment. *)
Definition content (s : Segment) : Z * list Z := (sg_frg s, sg_data s).

Section Delivery.
Context {O C : Type} `{Output O, Clock C}.
Implicit Types (k : Kcp O C).

(** ** The specification *)

(** A receiver with the contents it has handed out so far. *)
Definition Receiver : Type := list (Z * list Z) * Kcp O C.

(** How many segments have left the reordering buffer: the index of the next
    one expected. *)
Definition rx_next (r : Receiver) : Z := zlen (fst r) + zlen (k_rcv_queue (snd r)).

(** What the application has, and will read next. *)
Definition rx_stream (r : Receiver) : list (Z * list Z) :=
  fst r ++ (content <$> k_rcv_queue (snd r)).

(** The segments a successful [recv] into [buffer] consumes. *)
Definition recv_taken (buffer : list Z) k : list Segment :=
  if (peek_size k <? 0) || (zlen buffer <? peek_size k) then [] else first_message (k_rcv_queue k).

Inductive rx_op :=
| RxData (seg : Segment) (data : list Z)
| RxRecv (buffer : list Z).

(** The bytes the operation returned to the application, and the receiver. *)
Definition rx_step (op : rx_op) (r : Receiver) : list Z * Receiver :=
  let '(log, k) := r in
  match op with
  | RxData seg data => let '(_, k) := parse_data seg data k in ([], (log, k))
  | RxRecv buffer =>
      let taken := recv_taken buffer k in
      let '(n, buffer, k) := recv buffer k in
      (take (Z.to_nat n) buffer, (log ++ (content <$> taken), k))
  end.

Fixpoint rx_run (ops : list rx_op) (r : Receiver) : list Z * Receiver :=
  match ops with
  | [] => ([], r)
  | op :: ops =>
      let '(out, r) := rx_step op r in
      let '(outs, r) := rx_run ops r in (out ++ outs, r)
  end.

(** The segment is a copy of the peer's [i]-th, for an [i] less than [2^31] away
    from the next index: old copies and early ones are allowed. *)
Definition genuine (src : Z -> Z * list Z) (next : Z) (seg : Segment) (data : list Z) : Prop :=
  exists i, next - 2147483648 <= i < next + 2147483648 /\
    sg_sn seg = u32 i /\ src i = (sg_frg seg, data).

Fixpoint rx_genuine (src : Z -> Z * list Z) (ops : list rx_op) (r : Receiver) : Prop :=
  match ops with
  | [] => True
  | op :: ops =>
      match op with
      | RxData seg data => genuine src (rx_next r) seg data
      | RxRecv _ => True
      end /\ rx_genuine src ops (snd (rx_step op r))
  end.

(** The invariant: the stream is the peer's from the start, and the reordering
    buffer holds its later segments. *)
Definition rx_inv (src : Z -> Z * list Z) (r : Receiver) : Prop :=
  k_rcv_nxt (snd r) = u32 (rx_next r) /\
  rx_stream r = src <$> seqZ 0 (rx_next r) /\
  Forall (fun s => content s = src (rx_next r + seg_off (rx_next r) s)) (sh_segments (k_rcv_buf (snd r))).

(** ** The loop moving in-order segments *)

Lemma rx_move_inv src log k fuel :
  kcp_wf k -> rx_inv src (log, k) -> rx_inv src (log, move_available fuel k).
Proof.
  intros Hwf Hi.
  destruct (move_available_ind (fun k => rx_inv src (log, k))) with (fuel := fuel) (k := k) as [_ Hr];
    try done; clear dependent k fuel.
  - intros k seg h Hwf (Hn & Hs & Hb) Epop Esn _.
    pose proof (sh_pop_spec (k_rcv_nxt k) (k_rcv_buf k) (wf_rcv_buf _ Hwf)) as Hp. rewrite Epop in Hp.
    destruct Hp as (_ & Hperm & Hmin).
    unfold rx_inv, rx_next, rx_stream, q_push in *. cbn [fst snd] in *. ksimpl.
    rewrite zlen_app, zlen_cons, zlen_nil. set (n := zlen log + zlen (k_rcv_queue k)) in *.
    replace (zlen log + (zlen (k_rcv_queue k) + (0 + 1))) with (n + 1) by lia.
    assert (0 <= n) by (subst n; pose proof (zlen_nonneg log); pose proof (zlen_nonneg (k_rcv_queue k)); lia).
    rewrite <- Hperm in Hb. apply Forall_cons in Hb as [Hseg Hb].
    assert (seg_off n seg = 0) as E0.
    { unfold seg_off, sn_off. rewrite Esn, Hn, u32_sub_l, Z.sub_diag. done. }
    rewrite E0, Z.add_0_r in Hseg.
    split_and!.
    + rewrite Hn. unfold wadd32. by rewrite u32_add_l.
    + rewrite fmap_app, (assoc_L (++)), Hs, seqZ_app, fmap_app by lia. cbn [seqZ]. csimpl. by rewrite Hseg.
    + rewrite Forall_forall in *. intros x Hx. rewrite (Hb x Hx). f_equal.
      specialize (Hmin x Hx). unfold seg_off, sn_off in *.
      rewrite Esn, Z.sub_diag, Hn, u32_sub_r in Hmin. change (u32 0) with 0 in Hmin.
      unfold u32 in *. zlia.
  - intros k seg h Hwf (Hn & Hs & Hb) Epop.
    pose proof (sh_pop_spec (k_rcv_nxt k) (k_rcv_buf k) (wf_rcv_buf _ Hwf)) as Hp. rewrite Epop in Hp.
    destruct Hp as (_ & Hperm & _). split_and!; [done|done|].
    cbn [snd]. ksimpl. rewrite sh_push_perm, Hperm. exact Hb.
Qed.

Lemma parse_data_rx src log k seg data :
  kcp_wf k -> is_u32 (sg_sn seg) -> rx_inv src (log, k) -> genuine src (rx_next (log, k)) seg data ->
  rx_inv src (log, snd (parse_data seg data k)).
Proof.
  intros Hwf Hsn Hi (i & Hrange & Esn & Esrc). unfold parse_data.
  destruct (_ || _) eqn:E; [done|]. apply orb_false_iff in E as [E1 E2]. to_prop.
  destruct (negb (sh_has _ _)) eqn:Eh; cbn [snd]; [|by apply rx_move_inv].
  pose proof (parse_data_wf seg data k Hsn Hwf) as Hwf'. unfold parse_data in Hwf'.
  to_prop. destruct Hi as (Hn & Hs & Hb). set (n := rx_next (log, k)) in *. cbn [snd] in Hn.
  assert (sh_inv (k_rcv_nxt k) (sh_push (k_rcv_buf k) (seg <| sg_data := data |>))) as Hpush.
  { apply sh_push_inv; [apply Hwf | | by ksimpl]. split; ksimpl; [done|].
    unfold seg_off, sn_off. ksimpl. pose proof (wf_rcv_nxt _ Hwf).
    unfold _itimediff, i32, wsub32, u32, is_u32 in *. zlia. }
  apply rx_move_inv.
  { wf_open Hwf; wf_same. destruct wf_snd0; by constructor. }
  split_and!; [done|done|]. change (rx_next (log, _)) with n. cbn [snd]. ksimpl.
  rewrite sh_push_perm. constructor; [|exact Hb].
  unfold content, seg_off, sn_off. ksimpl. rewrite <- Esrc. f_equal.
  rewrite Hn, Esn, itimediff_l, itimediff_r in E2. rewrite Esn, u32_sub_l.
  unfold _itimediff, i32, wsub32, u32 in *. zlia.
Qed.

(** [recv] hands out the first message, and moves on. *)
Lemma recv_spec buffer k :
  kcp_wf k ->
  let taken := recv_taken buffer k in
  let m := mjoin (sg_data <$> taken) in
  (peek_size k < 0 /\ recv buffer k = (-1, buffer, k)) \/
  (zlen buffer < peek_size k /\ recv buffer k = (-2, buffer, k)) \/
  (0 <= peek_size k <= zlen buffer /\ taken = first_message (k_rcv_queue k) /\
   exists probe,
     let k1 := k <| k_rcv_queue := drop (length taken) (k_rcv_queue k) |> in
     recv buffer k =
       (zlen m, m ++ drop (length m) buffer, (move_available (move_fuel k1) k1) <| k_probe := probe |>)).
Proof.
  intros Hwf taken m. unfold recv, recv_taken in *.
  destruct (peek_size k <? 0) eqn:E1; to_prop; [by left|]. right.
  destruct (zlen buffer <? peek_size k) eqn:E2; to_prop; [by left|]. right.
  split; [lia|]. cbn [orb] in taken. split; [done|].
  pose proof (peek_size_sum k ltac:(lia)) as Ep.
  rewrite recv_merge_spec by lia. fold taken. fold m. cbn [Nat.add take app].
  set (k1 := k <| k_rcv_queue := _ |>). set (k2 := move_available (move_fuel k1) k1).
  exists (if (zlen (k_rcv_queue k2) <? k_rcv_wnd k2) && (k_rcv_wnd k <=? zlen (k_rcv_queue k))
          then Z.lor (k_probe k2) IKCP_ASK_TELL else k_probe k2).
  clearbody k2. f_equal. case_goal; [done|by destruct k2].
Qed.

Lemma rx_next_nonneg r : 0 <= rx_next r.
Proof. unfold rx_next. pose proof (zlen_nonneg (fst r)). pose proof (zlen_nonneg (k_rcv_queue (snd r))). lia. Qed.

Lemma rx_inv_probe src log k p : rx_inv src (log, k) -> rx_inv src (log, k <| k_probe := p |>).
Proof. done. Qed.

Lemma recv_rx src log k buffer :
  kcp_wf k -> rx_inv src (log, k) ->
  let '(out, r') := rx_step (RxRecv buffer) (log, k) in
  rx_inv src r' /\ out = mjoin (snd <$> drop (length log) (fst r')) /\
  take (length log) (fst r') = log.
Proof.
  intros Hwf Hi. cbn [rx_step].
  pose proof (recv_spec buffer k Hwf) as Hr. cbn zeta in Hr.
  set (taken := recv_taken buffer k) in *.
  assert (forall l : list (Z * list Z), drop (length log) (log ++ l) = l /\ take (length log) (log ++ l) = log) as Htd.
  { intros l. by rewrite drop_app_length, take_app_length. }
  assert (mjoin (snd <$> (content <$> taken)) = mjoin (sg_data <$> taken)) as Em.
  { rewrite <- list_fmap_compose. done. }
  destruct (Htd (content <$> taken)) as [Hd Ht].
  destruct Hr as [[Hp Er]|[[Hp Er]|(Hp & Et & probe & Er)]]; rewrite Er; cbn [fst].
  - assert (taken = []) as E0.
    { subst taken. unfold recv_taken. destruct (Z.ltb_spec (peek_size k) 0); [done|lia]. }
    rewrite E0 in *. cbn [fmap list_fmap]. rewrite app_nil_r, drop_all, firstn_all. done.
  - assert (taken = []) as E0.
    { subst taken. unfold recv_taken. destruct (Z.ltb_spec (zlen buffer) (peek_size k)); [by rewrite orb_true_r|lia]. }
    rewrite E0 in *. cbn [fmap list_fmap]. rewrite app_nil_r, drop_all, firstn_all. done.
  - rewrite Hd, Ht, Em. split_and!; [|by unfold zlen; rewrite Nat2Z.id, take_app_length|done].
    set (k1 := k <| k_rcv_queue := _ |>).
    apply rx_inv_probe, rx_move_inv.
    { subst k1. wf_open Hwf; wf_same. destruct wf_snd0; by constructor. }
    pose proof (first_message_prefix (k_rcv_queue k)) as Eq. rewrite <- Et in Eq.
    destruct Hi as (Hn & Hs & Hb).
    assert (rx_next (log ++ (content <$> taken), k1) = rx_next (log, k)) as En.
    { pose proof (f_equal zlen Eq) as El. rewrite zlen_app in El.
      unfold rx_next, k1. cbn [fst snd]. ksimpl. rewrite zlen_app, El.
      unfold zlen at 2. rewrite length_fmap. unfold zlen. lia. }
    unfold rx_inv. rewrite En. split_and!; [done| |done].
    rewrite <- Hs. unfold rx_stream, k1. cbn [fst snd]. ksimpl.
    rewrite <- (assoc_L (++)), <- fmap_app, <- Eq. done.
Qed.

Definition receiver_wf (src : Z -> Z * list Z) (r : Receiver) : Prop :=
  kcp_wf (snd r) /\ rx_inv src r.

Lemma rx_run_inv src ops r :
  receiver_wf src r -> rx_genuine src ops r ->
  let '(out, r') := rx_run ops r in
  receiver_wf src r' /\ out = mjoin (snd <$> drop (length (fst r)) (fst r')) /\
  take (length (fst r)) (fst r') = fst r.
Proof.
  revert r; induction ops as [|op ops IH]; intros [log k] [Hwf Hi] Hg; cbn [rx_run rx_genuine] in *.
  { cbn [fst]. by rewrite drop_all, firstn_all. }
  destruct Hg as [Hop Hg].
  assert (let '(out, r') := rx_step op (log, k) in receiver_wf src r' /\
    out = mjoin (snd <$> drop (length log) (fst r')) /\ take (length log) (fst r') = log) as Hstep.
  { destruct op as [seg data|buffer].
    - cbn [rx_step]. assert (is_u32 (sg_sn seg)) as Hsn by (destruct Hop as (i & _ & -> & _); apply u32_range).
      pose proof (parse_data_rx src log k seg data Hwf Hsn Hi Hop).
      pose proof (parse_data_wf seg data k Hsn Hwf).
      destruct (parse_data seg data k). cbn [fst snd] in *. rewrite drop_all, firstn_all. done.
    - pose proof (recv_rx src log k buffer Hwf Hi) as Hr. pose proof (recv_wf buffer k Hwf) as Hw.
      cbn [rx_step] in *. destruct (recv buffer k) as [[n b] k']. destruct Hr as (?&?&?).
      split_and!; done. }
  destruct (rx_step op (log, k)) as [out1 r1]. destruct Hstep as (Hr1 & -> & Ht1). cbn [snd] in Hg.
  specialize (IH r1 Hr1 Hg). destruct (rx_run ops r1) as [out2 r2]. destruct IH as (Hr2 & -> & Ht2).
  cbn [fst]. split; [done|].
  assert (fst r1 = log ++ drop (length log) (fst r1)) as E1.
  { rewrite <- Ht1 at 1. rewrite Ht1. rewrite <- Ht1 at 1. by rewrite take_drop. }
  assert (length log <= length (fst r1))%nat as Hl by (rewrite E1, length_app; lia).
  split.
  - rewrite <- join_app, <- fmap_app. f_equal. f_equal.
    rewrite <- (take_drop (length (fst r1)) (fst r2)) at 2. rewrite Ht2.
    rewrite drop_app_le by lia. done.
  - rewrite <- Ht1 at 2. rewrite <- Ht2, take_take. f_equal. lia.
Qed.

(** What has been handed out, and what waits to be. *)
Lemma rx_split_src src log k : rx_inv src (log, k) ->
  log = src <$> seqZ 0 (zlen log) /\ content <$> k_rcv_queue k = src <$> seqZ (zlen log) (zlen (k_rcv_queue k)).
Proof.
  intros (_ & Hs & _). unfold rx_stream, rx_next in Hs. cbn [fst snd] in Hs.
  rewrite seqZ_app, fmap_app in Hs by apply zlen_nonneg.
  apply app_inj_1 in Hs; [done|]. rewrite length_fmap, length_seqZ. unfold zlen. lia.
Qed.

Lemma rx_log_src src log k : rx_inv src (log, k) -> log = src <$> seqZ 0 (zlen log).
Proof. apply rx_split_src. Qed.

Lemma rx_queue_src src log k : rx_inv src (log, k) ->
  content <$> k_rcv_queue k = src <$> seqZ (zlen log) (zlen (k_rcv_queue k)).
Proof. apply rx_split_src. Qed.

(** ** No head-of-line stall *)

(** The loop stops only when the next segment is missing or the queue is full. *)
Definition not_stalled k : Prop :=
  sh_has (k_rcv_buf k) (k_rcv_nxt k) = false \/ k_rcv_wnd k <= zlen (k_rcv_queue k).

Lemma move_available_not_stalled fuel k :
  kcp_wf k -> (sh_len (k_rcv_buf k) < fuel)%nat -> not_stalled (move_available fuel k).
Proof.
  revert k; induction fuel as [|fuel IH]; intros k Hwf Hf; [lia|]. cbn [move_available].
  pose proof (wf_rcv_buf _ Hwf) as Hb. pose proof (wf_rcv_nxt _ Hwf) as Hn.
  pose proof (sh_pop_spec _ _ Hb) as Hp.
  destruct (sh_pop (k_rcv_buf k)) as [[seg h]|] eqn:Epop.
  - destruct Hp as (Hh & Hperm & Hmin). destruct (_ && _) eqn:E.
    + apply IH.
      * apply andb_true_iff in E as [E1 E2]. to_prop.
        pose proof (sh_pop_next_inv _ _ _ _ Hn Hb Epop E1).
        wf_open Hwf; wf_same; [destruct wf_snd0; by constructor | apply u32_range].
      * ksimpl. apply Permutation_length in Hperm. cbn [length] in Hperm. unfold sh_len in *. lia.
    + unfold not_stalled. ksimpl. pose proof (sh_pop_push_inv _ _ _ _ Hb Epop) as Hpush.
      apply andb_false_iff in E as [E|E]; to_prop; [left|right; lia].
      apply not_true_iff_false. rewrite (sh_has_spec (k_rcv_nxt k)) by done.
      rewrite sh_push_perm, fmap_cons, elem_of_cons. intros [Ex|Hx]; [by apply E|].
      apply list_elem_of_fmap in Hx as (y & Ey & Hy). rewrite Forall_forall in Hmin.
      specialize (Hmin y Hy). unfold seg_off, sn_off in Hmin. rewrite <- Ey, Z.sub_diag in Hmin.
      change (u32 0) with 0 in Hmin.
      pose proof (u32_range (sg_sn seg - k_rcv_nxt k)) as [? _]. lia.
  - left. apply not_true_iff_false. rewrite (sh_has_spec (k_rcv_nxt k)) by done. rewrite Hp.
    cbn. apply not_elem_of_nil.
Qed.

Lemma parse_data_not_stalled seg data k :
  kcp_wf k -> is_u32 (sg_sn seg) ->
  not_stalled k -> not_stalled (snd (parse_data seg data k)).
Proof.
  intros Hwf Hsn Hns. unfold parse_data. destruct (_ || _) eqn:E; [done|].
  apply orb_false_iff in E as [E1 E2]. to_prop.
  destruct (negb (sh_has _ _)) eqn:Eh; cbn [snd].
  - apply move_available_not_stalled; [|unfold move_fuel; lia]. to_prop.
    assert (sh_inv (k_rcv_nxt k) (sh_push (k_rcv_buf k) (seg <| sg_data := data |>))).
    { apply sh_push_inv; [apply Hwf | | by ksimpl]. split; ksimpl; [done|].
      unfold seg_off, sn_off. ksimpl. pose proof (wf_rcv_nxt _ Hwf).
      unfold _itimediff, i32, wsub32, u32, is_u32 in *. zlia. }
    wf_open Hwf; wf_same. destruct wf_snd0; by constructor.
  - apply move_available_not_stalled; [done|unfold move_fuel; lia].
Qed.

Lemma recv_not_stalled buffer k :
  kcp_wf k -> not_stalled k -> not_stalled (snd (recv buffer k)).
Proof.
  intros Hwf Hns. destruct (recv_spec buffer k Hwf) as [[_ ->]|[[_ ->]|(_ & _ & p & ->)]]; [done..|].
  cbn [snd]. set (k1 := k <| k_rcv_queue := _ |>).
  assert (kcp_wf k1) as Hwf1.
  { subst k1. wf_open Hwf; wf_same. destruct wf_snd0; by constructor. }
  pose proof (move_available_not_stalled (move_fuel k1) k1 Hwf1 ltac:(unfold move_fuel; lia)) as Hm.
  exact Hm.
Qed.

Lemma rx_run_not_stalled src ops r :
  receiver_wf src r -> not_stalled (snd r) -> rx_genuine src ops r -> not_stalled (snd (snd (rx_run ops r))).
Proof.
  revert r; induction ops as [|op ops IH]; intros [log k] Hr Hns Hg; cbn [rx_run rx_genuine] in *; [done|].
  destruct Hg as [Hop Hg]. pose proof (rx_run_inv src [op] (log, k) Hr) as Hstep. cbn [rx_run rx_genuine] in Hstep.
  specialize (Hstep (conj Hop I)).
  assert (not_stalled (snd (snd (rx_step op (log, k))))) as Hns1.
  { destruct op as [seg data|buffer]; cbn [rx_step].
    - assert (is_u32 (sg_sn seg)) as Hsn by (destruct Hop as (i & _ & -> & _); apply u32_range).
      pose proof (parse_data_not_stalled seg data k (proj1 Hr) Hsn Hns). by destruct (parse_data seg data k).
    - pose proof (recv_not_stalled buffer k (proj1 Hr) Hns). by destruct (recv buffer k) as [[? ?] ?]. }
  destruct (rx_step op (log, k)) as [out1 r1]. cbn [snd] in *.
  specialize (IH r1 (proj1 Hstep) Hns1 Hg). by destruct (rx_run ops r1).
Qed.

End Delivery.
