(* ===== verification/KcpStream.v ===== *)
(** * The receive side under whole operations

    [KcpDelivery] follows [parse_data] and [recv].  Here the same invariant is carried
    through every public operation: a datagram may hold any segments, of which the data
    segments of the conversation are copies of the peer's, and flushes, probes, sends and
    option changes may happen in between.  The peer's stream is [src] of fewer than [2^31]
    segments, so that a sequence number names one of them. *)
From S2P Require Import Prelude Word Env Segment Queue Heap KcpState KcpSend KcpFlush KcpInput KcpInv.
From S2P Require Import KcpWriter KcpFlushInv KcpSink KcpDelivery.
Local Open Scope Z_scope.

Section Stream.
Context {O C : Type} `{Output O, Clock C}.
Implicit Types (k : Kcp O C).

(** ** What the receive side is *)

Definition rcv_part k : Z * list Segment * SegmentHeap := (k_rcv_nxt k, k_rcv_queue k, k_rcv_buf k).

(** A step that leaves it alone. *)
Definition rcv_same k k' : Prop := rcv_part k' = rcv_part k.

#[export] Instance rcv_same_refl : Reflexive rcv_same.
Proof. by intros k. Qed.
#[export] Instance rcv_same_trans : Transitive rcv_same.
Proof. unfold rcv_same. congruence. Qed.

Lemma parse_una_rcv una k : rcv_same k (snd (parse_una una k)).
Proof. by rewrite parse_una_spec. Qed.
Lemma shrink_buf_rcv k : rcv_same k (shrink_buf k).
Proof. unfold shrink_buf. by destruct (head (k_snd_buf k)). Qed.
Lemma parse_ack_rcv sn k : rcv_same k (parse_ack sn k).
Proof. unfold parse_ack. by repeat case_goal. Qed.
Lemma parse_fastack_rcv sn ts k : rcv_same k (snd (parse_fastack sn ts k)).
Proof.
  unfold parse_fastack. case_goal; [done|]. set (p := match snd_buf_offset sn k with Some _ => _ | None => _ end).
  by destruct p as [[f []] q].
Qed.
Lemma update_ack_rcv rtt k : rcv_same k (update_ack rtt k).
Proof. unfold update_ack. cbn zeta. by repeat case_goal. Qed.
Lemma input_rtt_rcv pt l k : rcv_same k (input_rtt pt l k).
Proof.
  unfold input_rtt. case_goal; [|done]. destruct (now_ms (k_clock k)) as [t c]. case_goal; [|done].
  etrans; [|apply update_ack_rcv]. done.
Qed.
Lemma input_cwnd_rcv una k : rcv_same k (input_cwnd una k).
Proof. unfold input_cwnd. cbn zeta. by repeat case_goal. Qed.

Lemma probe_timer_rcv k : rcv_same k (probe_timer k).
Proof. unfold probe_timer. destruct (now_ms (k_clock k)). by repeat case_goal. Qed.
Lemma admit_rcv cwnd k : rcv_same k (snd (admit_new cwnd k)).
Proof. unfold admit_new. by destruct (admit_loop _ _ _ _ _ _ _) as [[[? ?] ?] ?]. Qed.
Lemma flush_segments_rcv ft seg resent ub n w k : rcv_same k (snd (flush_segments ft seg resent ub n w k)).
Proof.
  unfold flush_segments. destruct (now_ms (k_clock k)). case_goal; [|done]. by destruct (q_iter_mut_from _ _ _ _).
Qed.
Lemma flush_tail_rcv cwnd resent s k : rcv_same k (snd (flush_tail cwnd resent s k)).
Proof.
  unfold flush_tail. cbn zeta. cbn [snd].
  assert (E : forall c r ch l k, rcv_same k (flush_cwnd_update c r ch l k)).
  { intros c r ch l k1. unfold flush_cwnd_update. cbn zeta. by repeat case_goal. }
  exact (E cwnd resent (sc_change s) (sc_lost s) (k <| k_state := sc_state s |> <| k_clock := sc_clock s |>)).
Qed.

Lemma flush_rcv ft k : rcv_same k (snd (flush ft k)).
Proof.
  unfold flush, flush_head.
  destruct (flush_acks _ _ _) as [[seg1 w1] k1] eqn:E1.
  assert (R1 : rcv_same k k1).
  { destruct (flush_acks_frame (flush_template k) (mkWriter (k_output k) (k_buffer k) 0 (k_snmp k) (k_panic k)) k) as (a & Ea & _).
    rewrite E1 in Ea. cbn [snd] in Ea. by rewrite Ea. }
  destruct (flush_probes _ _ _) as [[seg2 w2] k2] eqn:E2.
  assert (R2 : rcv_same (probe_timer k1) k2).
  { destruct (flush_probes_frame seg1 w1 (probe_timer k1)) as (p & Ep). rewrite E2 in Ep. cbn [snd] in Ep. by rewrite Ep. }
  pose proof (admit_rcv (flush_cwnd k2) k2) as R3. destruct (admit_new _ _) as [n k3]. cbn [snd] in R3.
  pose proof (flush_segments_rcv ft seg2 (flush_resent k3) (fs_unsent (k_flush_scan k3)) n w2 k3) as R4.
  destruct (flush_segments _ _ _ _ _ _ _) as [s k4]. cbn [snd] in R4.
  etrans; [exact R1|]. etrans; [apply probe_timer_rcv|]. etrans; [exact R2|]. etrans; [exact R3|].
  etrans; [exact R4|]. apply flush_tail_rcv.
Qed.

Lemma send_rcv b k : rcv_same k (snd (send b k)).
Proof.
  unfold send. case_goal; [done|]. cbn zeta.
  set (p := if negb (k_stream k =? 0) then _ else (b, k)).
  assert (R : rcv_same k (snd p)) by (subst p; case_goal; [by destruct (send_extend _ _ _)|done]).
  destruct p as [b' k1]. cbn [snd] in R. repeat case_goal; exact R.
Qed.
Lemma set_mtu_rcv m k : rcv_same k (snd (set_mtu m k)).
Proof. unfold set_mtu. by repeat case_goal. Qed.
Lemma nodelay_rcv a b c d k : rcv_same k (snd (nodelay a b c d k)).
Proof. unfold nodelay. cbn zeta. by repeat case_goal. Qed.
Lemma wnd_size_rcv a b k : rcv_same k (snd (wnd_size a b k)).
Proof. unfold wnd_size. cbn zeta. by repeat case_goal. Qed.
Lemma check_rcv k : rcv_same k (snd (check k)).
Proof. destruct (check_frame k) as (t & c & ->). done. Qed.
Lemma update_rcv k : rcv_same k (update k).
Proof.
  unfold update. destruct (now_ms (k_clock k)) as [t c]. cbn zeta.
  set (k1 := if k_updated _ =? 0 then _ else _).
  assert (R1 : rcv_same k k1) by (subst k1; by case_goal).
  set (p := if negb _ then _ else (_, k1)).
  assert (R2 : rcv_same k (snd p)) by (subst p; case_goal; [|done]; exact R1).
  destruct p as [slap k2]. cbn [snd] in R2. case_goal; [|done]. etrans; [exact R2|]. etrans; [|apply flush_rcv]. by case_goal.
Qed.

(** ** Genuine datagrams *)

(** The segments of a datagram: headers with their payloads, up to the first one cut short. *)
Fixpoint datagram_segments (fuel : nat) (data : list Z) : list (SegmentHeader * list Z) :=
  match fuel with
  | 0%nat => []
  | S fuel =>
      match decode data with
      | None => []
      | Some (h, rest) =>
          if zlen rest <? h_len h then []
          else (h, take (Z.to_nat (h_len h)) rest) :: datagram_segments fuel (drop (Z.to_nat (h_len h)) rest)
      end
  end.

Context (src : Z -> Z * list Z) (total low : Z).
Context (Htotal : 0 <= total <= 2147483648) (Hfrg : forall i, 0 <= i < total -> 0 <= fst (src i)).

(** A data segment of the conversation is a copy of one the peer sent. *)
Definition genuine_segment (conv : Z) (s : SegmentHeader * list Z) : Prop :=
  h_conv (fst s) = conv -> h_cmd (fst s) = IKCP_CMD_PUSH ->
  exists i, 0 <= i < total /\ h_sn (fst s) = i /\ src i = (h_frg (fst s), snd s).
Definition genuine_datagram (conv : Z) (data : list Z) : Prop :=
  Forall (genuine_segment conv) (datagram_segments (input_fuel data) data).

(** Beyond the stream's end no segment can be a copy. *)
Definition closed_src (i : Z) : Z * list Z := if (0 <=? i) && (i <? total) then src i else (-1, []).

(** The segments the receive side holds. *)
Definition held k : list Segment := k_rcv_queue k ++ sh_segments (k_rcv_buf k).

Definition stream_inv (log : list (Z * list Z)) k : Prop :=
  kcp_wf k /\ rx_inv closed_src (log, k) /\ Forall (fun c => 0 <= fst c) log /\
  Forall (fun s => 0 <= sg_frg s) (held k) /\ low <= rx_next (log, k).

Lemma stream_inv_same log k k' : kcp_wf k' -> rcv_same k k' -> stream_inv log k -> stream_inv log k'.
Proof.
  intros Hwf Hs (_ & Hr & Hl & Hh & Hlow). unfold rcv_same, rcv_part in Hs. injection Hs as En Eq Eb.
  split_and!; [done| |done|unfold held; by rewrite Eq, Eb|by unfold rx_next in *; cbn [fst snd] in *; rewrite Eq].
  unfold rx_inv, rx_next, rx_stream in *. cbn [fst snd] in *. by rewrite En, Eq, Eb.
Qed.

Lemma stream_next log k : stream_inv log k -> rx_next (log, k) <= total.
Proof.
  intros (_ & (_ & Hs & _) & Hl & Hh & _). unfold rx_stream in Hs. cbn [fst snd] in Hs.
  destruct (decide (rx_next (log, k) <= total)) as [|Hgt]; [done|]. exfalso. apply Forall_app in Hh as [Hq _].
  assert (Hin : (-1, []) ∈ log ++ (content <$> k_rcv_queue k)).
  { rewrite Hs. apply list_elem_of_fmap. exists total. split; [|apply elem_of_seqZ; lia].
    unfold closed_src. destruct (Z.ltb_spec total total); [lia|]. by rewrite andb_false_r. }
  assert (Hall : Forall (fun c => 0 <= fst c) (log ++ (content <$> k_rcv_queue k))).
  { apply Forall_app. split; [done|]. rewrite Forall_fmap. exact Hq. }
  rewrite Forall_forall in Hall. specialize (Hall _ Hin). cbn [fst] in Hall. lia.
Qed.

(** ** Segments that move keep their kind *)

Lemma move_available_held (P : Segment -> Prop) fuel k : kcp_wf k -> Forall P (held k) -> Forall P (held (move_available fuel k)).
Proof.
  intros Hwf HP. destruct (move_available_ind (fun k => Forall P (held k))) with (fuel := fuel) (k := k) as [_ Hr]; try done;
    clear dependent k fuel; unfold held.
  - intros k seg h Hwf HP Epop Esn _. pose proof (sh_pop_spec (k_rcv_nxt k) (k_rcv_buf k) (wf_rcv_buf _ Hwf)) as Hp.
    rewrite Epop in Hp. destruct Hp as (_ & Hperm & _). ksimpl. unfold q_push. rewrite <- Hperm in HP.
    rewrite !Forall_app, ?Forall_cons in *. naive_solver.
  - intros k seg h Hwf HP Epop. pose proof (sh_pop_spec (k_rcv_nxt k) (k_rcv_buf k) (wf_rcv_buf _ Hwf)) as Hp.
    rewrite Epop in Hp. destruct Hp as (_ & Hperm & _). ksimpl. rewrite sh_push_perm, Hperm. done.
Qed.

Lemma parse_data_held (P : Segment -> Prop) seg data k : kcp_wf k -> is_u32 (sg_sn seg) ->
  P (seg <| sg_data := data |>) -> Forall P (held k) -> Forall P (held (snd (parse_data seg data k))).
Proof.
  intros Hwf Hsn Hseg HP. pose proof (parse_data_wf seg data k Hsn Hwf) as Hwf'. unfold parse_data in *.
  destruct (_ || _) eqn:E; [done|]. apply orb_false_iff in E as [E1 E2]. to_prop.
  destruct (negb (sh_has _ _)) eqn:Eh; cbn [snd] in *; [|by apply move_available_held].
  assert (sh_inv (k_rcv_nxt k) (sh_push (k_rcv_buf k) (seg <| sg_data := data |>))) as Hpush.
  { apply sh_push_inv; [apply Hwf| |by to_prop; ksimpl]. split; ksimpl; [done|].
    unfold seg_off, sn_off. ksimpl. pose proof (wf_rcv_nxt _ Hwf).
    unfold _itimediff, i32, wsub32, u32, is_u32 in *. zlia. }
  apply move_available_held.
  - wf_open Hwf; wf_same. destruct wf_snd0; by constructor.
  - unfold held in *. ksimpl. rewrite sh_push_perm. rewrite !Forall_app, ?Forall_cons in *. naive_solver.
Qed.

(** ** Nothing is taken back *)

Lemma move_available_next fuel k (log : list (Z * list Z)) : rx_next (log, k) <= rx_next (log, move_available fuel k).
Proof.
  revert k; induction fuel as [|fuel IH]; intros k; cbn [move_available]; [done|].
  destruct (sh_pop (k_rcv_buf k)) as [[seg h]|]; [|done]. case_goal; [|done].
  etrans; [|apply IH]. unfold rx_next. cbn [fst snd]. ksimpl. unfold q_push. rewrite zlen_app, zlen_cons. pose proof (zlen_nonneg ([] : list Segment)). lia.
Qed.

Lemma parse_data_next seg data k log : rx_next (log, k) <= rx_next (log, snd (parse_data seg data k)).
Proof.
  unfold parse_data. case_goal; [done|]. destruct (negb (sh_has _ _)); cbn [snd]; (etrans; [|apply move_available_next]); done.
Qed.

(** ** One segment of a datagram *)

Lemma parse_data_stream log k seg data i : stream_inv log k -> 0 <= i < total -> sg_sn seg = i ->
  src i = (sg_frg seg, data) -> stream_inv log (snd (parse_data seg data k)).
Proof using Htotal Hfrg.
  intros Hi Hrange Esn Esrc. pose proof (stream_next log k Hi) as Hnext. pose proof (rx_next_nonneg (log, k)) as Hpos.
  destruct Hi as (Hwf & Hrx & Hl & Hh & Hlow). assert (Hsn : is_u32 (sg_sn seg)) by (unfold is_u32; lia).
  split_and!; [by apply parse_data_wf| |done| |].
  - apply parse_data_rx; try done. exists i. split_and!; [lia|lia|rewrite Esn; symmetry; apply u32_id; unfold is_u32; lia|].
    unfold closed_src. destruct (Z.leb_spec 0 i), (Z.ltb_spec i total); cbn [andb]; done || lia.
  - apply parse_data_held; try done. ksimpl. specialize (Hfrg i Hrange). by rewrite Esrc in Hfrg.
  - pose proof (parse_data_next seg data k log). lia.
Qed.

Lemma input_push_stream log pt h payload k : header_wf h -> h_cmd h = IKCP_CMD_PUSH -> h_conv h = k_conv k ->
  genuine_segment (k_conv k) (h, payload) -> stream_inv log k -> stream_inv log (input_push pt h payload k).
Proof using Htotal Hfrg.
  intros Hh Hcmd Hconv Hg Hi. destruct (Hg Hconv Hcmd) as (i & Hrange & Esn & Esrc). cbn [fst snd] in Esn, Esrc.
  assert (Hs : forall k', kcp_wf k' -> rcv_same k k' -> stream_inv log k') by (intros; by eapply stream_inv_same).
  pose proof Hh as (_ & _ & Hts & Hsn & _). unfold input_push.
  set (p := if _ <? 0 then _ else (true, k)).
  assert (Hp : stream_inv log (snd p)).
  { subst p. case_goal; [|done]. assert (Ha : stream_inv log (ack_push (h_sn h) (h_ts h) k)).
    { apply Hs; [|done]. apply ack_push_wf; try done. apply Hi. }
    case_goal; [|done]. by apply (parse_data_stream log _ _ _ i). }
  destruct p as [b k1]. cbn [snd] in Hp. case_goal; [|done].
  apply (stream_inv_same log k1); [apply snmp_wf, Hp|done|exact Hp].
Qed.

Lemma input_segment_stream log pt h data l k : header_wf h -> bytes data -> zlen data < h_len h \/
  genuine_segment (k_conv k) (h, take (Z.to_nat (h_len h)) data) -> stream_inv log k ->
  match input_segment pt h data l k with
  | inl (_, k') => stream_inv log k'
  | inr (_, data', k') => stream_inv log k' /\ k_conv k' = k_conv k /\ h_len h <= zlen data /\
      data' = drop (Z.to_nat (h_len h)) data
  end.
Proof using Htotal Hfrg.
  intros Hh Hb Hg Hi. pose proof (input_segment_quiet pt h data l k) as Hq.
  pose proof (input_segment_wf pt h data l k Hh Hb (proj1 Hi)) as Hw. unfold input_segment in *.
  destruct (Z.eqb_spec (h_conv h) (k_conv k)) as [Hconv|]; cbn [negb] in *; [|done].
  destruct (Z.ltb_spec (zlen data) (h_len h)) as [|Hlen]; [done|]. destruct Hg as [|Hg]; [lia|].
  destruct (negb (known_cmd _)); [done|].
  set (k0 := if is_regular pt then _ else k) in *.
  assert (H0' : rcv_same k k0 /\ kcp_wf k0 /\ k_conv k0 = k_conv k).
  { subst k0. case_goal; [|split; [done|split; [apply Hi|done]]]. split; [done|split; [|done]]. destruct Hi as [Hwf _].
    wf_open Hwf; wf_same; [destruct wf_snd0; by constructor|apply Hh]. }
  clearbody k0. destruct H0' as (R0 & W0 & C0).
  pose proof (una_shrink_wf (h_una h) k0 W0) as W1. pose proof (parse_una_rcv (h_una h) k0) as R1.
  pose proof (parse_una_quiet (h_una h) k0) as (C1 & _).
  destruct (parse_una (h_una h) k0) as [n k1]. cbn [snd] in W1, R1, C1.
  pose proof (shrink_buf_rcv k1) as R2. pose proof (shrink_buf_quiet k1) as (C2 & _).
  set (k2 := shrink_buf k1) in *. clearbody k2.
  assert (R : rcv_same k k2) by (etrans; [exact R0|]; etrans; [exact R1|exact R2]).
  assert (Hi2 : stream_inv log k2) by by eapply stream_inv_same.
  assert (Cv : k_conv k2 = k_conv k) by congruence.
  set (l1 := if (0 <? n)%nat then _ else l) in *. clearbody l1.
  destruct (h_cmd h =? IKCP_CMD_ACK) eqn:Eack.
  - pose proof (parse_ack_rcv (h_sn h) k2) as R3. pose proof (parse_fastack_rcv (h_sn h) (h_ts h) (parse_ack (h_sn h) k2)) as R4.
    destruct (parse_fastack _ _ _) as [f k3]. cbn [snd] in R4. destruct Hw as [_ Hw], Hq as [Hq _].
    split_and!; try done. eapply stream_inv_same; [exact Hw|etrans; [exact R3|exact R4]|exact Hi2].
  - destruct (Z.eqb_spec (h_cmd h) IKCP_CMD_PUSH) as [Hcmd|].
    { destruct Hq as [Hq _]. split_and!; try done. apply input_push_stream; try done; by rewrite Cv. }
    destruct (h_cmd h =? IKCP_CMD_WASK); destruct Hw as [_ Hw], Hq as [Hq _]; split_and!; try done.
    eapply stream_inv_same; [exact Hw| |exact Hi2]. done.
Qed.

Lemma input_loop_stream log pt fuel : forall data l k, bytes data ->
  Forall (genuine_segment (k_conv k)) (datagram_segments fuel data) -> stream_inv log k ->
  match input_loop fuel pt data l k with inl (_, k') => stream_inv log k' | inr (_, k') => stream_inv log k' end.
Proof using Htotal Hfrg.
  induction fuel as [|fuel IH]; intros data l k Hb Hg Hi; cbn [input_loop datagram_segments] in *; [done|].
  destruct (decode data) as [[h rest]|] eqn:Ed; [|done]. destruct (decode_wf _ _ _ Hb Ed) as (Hh & Hb' & _).
  assert (Hseg : zlen rest < h_len h \/ genuine_segment (k_conv k) (h, take (Z.to_nat (h_len h)) rest)).
  { destruct (Z.ltb_spec (zlen rest) (h_len h)); [by left|]. apply Forall_cons in Hg as [Hg _]. by right. }
  pose proof (input_segment_stream log pt h rest l k Hh Hb' Hseg Hi) as Hs.
  destruct (input_segment pt h rest l k) as [[c k']|[[l' data'] k']]; [done|]. destruct Hs as (Hi' & Hc & Hl & ->).
  destruct (Z.ltb_spec (zlen rest) (h_len h)); [lia|]. apply Forall_cons in Hg as [_ Hg].
  apply IH; [by apply Forall_drop|by rewrite Hc|done].
Qed.

Lemma input_stream log data pt nd k : bytes data -> genuine_datagram (k_conv k) data -> stream_inv log k ->
  stream_inv log (snd (input data pt nd k)).
Proof using Htotal Hfrg.
  intros Hb Hg Hi. pose proof (input_wf data pt nd k Hb (proj1 Hi)) as Hw. unfold input in *. case_goal; [done|].
  pose proof (input_loop_stream log pt (input_fuel data) data input_start k Hb Hg Hi) as Hl.
  destruct (input_loop _ _ _ _ _) as [[c k']|[l k']]; [done|]. cbn [snd] in *.
  eapply stream_inv_same; [exact Hw| |exact Hl].
  etrans; [|unfold input_flush; repeat case_goal; try apply flush_rcv; reflexivity].
  etrans; [|apply input_cwnd_rcv]. etrans; [|apply input_rtt_rcv]. done.
Qed.

(** ** Every operation *)

(** The bytes an operation hands to the application. *)
Definition ret_bytes (r : kcp_ret) : list Z :=
  match r with RetRecv n buffer => take (Z.to_nat n) buffer | _ => [] end.
Definition op_genuine (conv : Z) (op : kcp_op) : Prop :=
  match op with OpInput data _ _ => genuine_datagram conv data | _ => True end.

Lemma recv_stream log buffer k : stream_inv log k ->
  let '(n, b, k') := recv buffer k in
  exists taken, stream_inv (log ++ taken) k' /\ take (Z.to_nat n) b = mjoin (snd <$> taken) /\
    (n < 0 -> taken = [] /\ k' = k).
Proof using Htotal Hfrg.
  intros (Hwf & Hrx & Hl & Hh & Hlow). pose proof (recv_rx closed_src log k buffer Hwf Hrx) as Hr.
  pose proof (recv_wf buffer k Hwf) as Hw. pose proof (recv_spec buffer k Hwf) as Hspec. cbn zeta in Hspec. cbn [rx_step] in Hr.
  set (taken := recv_taken buffer k) in *. destruct (recv buffer k) as [[n b] k'] eqn:E. destruct Hr as (Hr & Eout & _).
  cbn [fst snd] in *. rewrite drop_app_length in Eout. exists (content <$> taken).
  assert (Hq : Forall (fun s => 0 <= sg_frg s) taken /\ Forall (fun s => 0 <= sg_frg s) (held k') /\
    low <= rx_next (log ++ (content <$> taken), k')).
  { unfold held in Hh. apply Forall_app in Hh as [Hq Hb].
    destruct Hspec as [[Hp Er]|[[Hp Er]|(Hp & Et & probe & Er)]]; injection Er as -> -> ->.
    - assert (taken = []) as -> by (subst taken; unfold recv_taken; by destruct (Z.ltb_spec (peek_size k) 0); [|lia]).
      split_and!; [done|unfold held; by apply Forall_app|]. cbn. by rewrite app_nil_r.
    - assert (taken = []) as ->.
      { subst taken. unfold recv_taken. destruct (Z.ltb_spec (zlen buffer) (peek_size k)); [by rewrite orb_true_r|lia]. }
      split_and!; [done|unfold held; by apply Forall_app|]. cbn. by rewrite app_nil_r.
    - pose proof (first_message_prefix (k_rcv_queue k)) as Eq. rewrite <- Et in Eq.
      rewrite Eq in Hq. apply Forall_app in Hq as [Hq1 Hq2].
      set (k1 := k <| k_rcv_queue := _ |>). split_and!; [done| |].
      2: { etrans; [exact Hlow|]. transitivity (rx_next (log ++ (content <$> taken), k1)).
        - unfold rx_next, k1. cbn [fst snd]. ksimpl. rewrite zlen_app. rewrite Eq at 1. rewrite zlen_app.
          unfold zlen at 5. rewrite length_fmap. unfold zlen. lia.
        - exact (move_available_next (move_fuel k1) k1 (log ++ (content <$> taken))). }
      change (held _) with (held (move_available (move_fuel k1) k1)). apply move_available_held.
      { subst k1. wf_open Hwf; wf_same. destruct wf_snd0; by constructor. }
      unfold held, k1. ksimpl. by apply Forall_app. }
  destruct Hq as (Hq1 & Hq2 & Hq3). split_and!.
  - split_and!; [done|done| |done|done]. apply Forall_app. split; [done|]. rewrite Forall_fmap. exact Hq1.
  - done.
  - intros Hn. destruct Hspec as [[Hp Er]|[[Hp Er]|(Hp & Et & probe & Er)]]; injection Er as -> -> ->.
    + subst taken. unfold recv_taken. by destruct (Z.ltb_spec (peek_size k) 0); [|lia].
    + subst taken. unfold recv_taken. destruct (Z.ltb_spec (zlen buffer) (peek_size k)); [by rewrite orb_true_r|lia].
    + pose proof (zlen_nonneg (mjoin (sg_data <$> taken))). lia.
Qed.

Lemma kcp_step_stream log op k : op_ok op -> op_genuine (k_conv k) op -> stream_inv log k ->
  exists taken, stream_inv (log ++ taken) (snd (kcp_step op k)) /\ ret_bytes (fst (kcp_step op k)) = mjoin (snd <$> taken).
Proof using Htotal Hfrg.
  intros Hop Hg Hi. pose proof (kcp_step_wf op k Hop (proj1 Hi)) as Hw.
  assert (Hsame : rcv_same k (snd (kcp_step op k)) -> ret_bytes (fst (kcp_step op k)) = [] ->
    exists taken, stream_inv (log ++ taken) (snd (kcp_step op k)) /\ ret_bytes (fst (kcp_step op k)) = mjoin (snd <$> taken)).
  { intros Hr Hb. exists []. rewrite app_nil_r. split; [by eapply stream_inv_same|done]. }
  destruct op as [b|b|d pt nd|ft| | |m|a b c d|a b]; cbn [kcp_step op_ok op_genuine] in *.
  - pose proof (send_rcv b k). destruct (send b k). by apply Hsame.
  - pose proof (recv_stream log b k Hi) as Hr. destruct (recv b k) as [[n b'] k']. destruct Hr as (t & H1 & H2 & _). by exists t.
  - pose proof (input_stream log d pt nd k Hop Hg Hi) as Hr. destruct (input d pt nd k). cbn [fst snd] in *.
    exists []. by rewrite app_nil_r.
  - pose proof (flush_rcv ft k). destruct (flush ft k). by apply Hsame.
  - apply Hsame; [apply update_rcv|done].
  - pose proof (check_rcv k). destruct (check k). by apply Hsame.
  - pose proof (set_mtu_rcv m k). destruct (set_mtu m k). by apply Hsame.
  - pose proof (nodelay_rcv a b c d k). destruct (nodelay a b c d k). by apply Hsame.
  - pose proof (wnd_size_rcv a b k). destruct (wnd_size a b k). by apply Hsame.
Qed.

Lemma with_clock_stream conv (o : O) (c : C) snmp : is_u32 conv -> low <= 0 -> stream_inv [] (with_clock conv o c snmp).
Proof. intros Hc Hl. split_and!; [by apply with_clock_wf|split_and!; [done|done|constructor]|done|done|exact Hl]. Qed.

(** What the application got is the beginning of the peer's stream. *)
Lemma stream_log log k : stream_inv log k -> log = src <$> seqZ 0 (zlen log) /\ zlen log <= total /\
  content <$> k_rcv_queue k = src <$> seqZ (zlen log) (zlen (k_rcv_queue k)).
Proof.
  intros Hi. pose proof (stream_next log k Hi) as Hn. destruct Hi as (_ & Hrx & _). unfold rx_next in Hn. cbn [fst snd] in Hn.
  pose proof (zlen_nonneg log). pose proof (zlen_nonneg (k_rcv_queue k)).
  assert (Hmap : forall a n, 0 <= a -> 0 <= n -> a + n <= total -> closed_src <$> seqZ a n = src <$> seqZ a n).
  { intros a n Ha Hn0 Hb. apply list_fmap_ext. intros j i Hj. apply list_elem_of_lookup_2, elem_of_seqZ in Hj.
    unfold closed_src. by destruct (Z.leb_spec 0 i), (Z.ltb_spec i total); try lia. }
  destruct (rx_split_src closed_src log k Hrx) as [El Eq]. rewrite El at 1. rewrite Eq, !Hmap by lia. split_and!; done || lia.
Qed.
End Stream.
