(* ===== verification/KcpScan.v ===== *)
(** * Decision D29: what a flush may skip

    The summary [flush_scan] is conservative: every segment it lets a flush skip
    is one the naive scan would leave untouched.  Times are offsets from a base
    [b] on a monotonic clock that covers less than [2^29] milliseconds, so that
    the wrapping comparisons are those of the offsets. *)
From S2P Require Import Prelude Word Env Segment Queue Heap KcpState KcpSend KcpFlush KcpInput KcpInv.
From S2P Require Import KcpWriter.
Local Open Scope Z_scope.

(** ** Time *)

(** The readings of a clock from now on, as offsets from [b]: from [lo] on,
    never backwards, below [2^29]. *)
Definition clock_window {C} `{Clock C} (b lo : Z) (c : C) : Prop :=
  exists f : nat -> Z, forall n, lo <= f n <= f (S n) /\ f n < 536870912 /\ reading n c = u32 (b + f n).

(** A clock reading at offset [t]. *)
Lemma clock_window_step {C} `{Clock C} b lo (c : C) :
  clock_window b lo c ->
  exists t, lo <= t < 536870912 /\ fst (now_ms c) = u32 (b + t) /\ clock_window b t (snd (now_ms c)).
Proof.
  intros [f Hf]. exists (f 0%nat). destruct (Hf 0%nat) as (H1 & H2 & H3). rewrite reading_0 in H3.
  split_and!; [lia|lia|done|]. exists (fun n => f (S n)). intros n.
  destruct (Hf (S n)) as (H4 & H5 & H6). rewrite <- reading_S. split_and!; try done; [|lia].
  clear - Hf. induction n as [|n IH]; [apply (Hf 0%nat)|]. pose proof (proj1 (Hf (S n))). lia.
Qed.

Lemma clock_window_weaken {C} `{Clock C} b lo lo' (c : C) :
  lo' <= lo -> clock_window b lo c -> clock_window b lo' c.
Proof. intros Hl [f Hf]. exists f. intros n. destruct (Hf n) as (?&?&?). split_and!; try done; lia. Qed.

(** Timestamps at known offsets compare as the offsets do. *)
Lemma offset_diff b x y : -2147483648 <= x - y < 2147483648 -> _itimediff (u32 (b + x)) (u32 (b + y)) = x - y.
Proof. intros. rewrite itimediff_exact; lia. Qed.

(** A live retransmission timer: started at [t], running [rto], due at
    [resendts]. *)
Definition timer_near (b : Z) (s : Segment) : Prop :=
  exists t, 0 <= t < 536870912 /\ 0 <= sg_rto s <= 536930912 /\ sg_resendts s = u32 (b + t + sg_rto s).

(** The segment is acknowledged, was never sent, or has a live timer. *)
Definition seg_near (b : Z) (s : Segment) : Prop :=
  sg_acked s = 1 \/ sg_xmit s = 0 \/ timer_near b s.

Lemma timer_offset b s : timer_near b s ->
  exists r, 0 <= r < 1073872896 /\ sg_resendts s = u32 (b + r).
Proof. intros (t & Ht & Hr & E). exists (t + sg_rto s). split; [lia|]. by rewrite Z.add_assoc. Qed.

(** ** What the summary claims *)

Definition quiet_fastack (s : Segment) : Prop := sg_fastack s = 0 \/ sg_fastack s = FFFFFFFF.

(** [due] is not after the segment's retransmission time. *)
Definition due_bounds (b : Z) (due : ScanBound) (s : Segment) : Prop :=
  match due with
  | Unknown => False
  | Nothing => False
  | NotBefore ts =>
      exists d r, -536870912 <= d <= r /\ r < 1073872896 /\ ts = u32 (b + d) /\ sg_resendts s = u32 (b + r)
  end.

Definition covered (b : Z) (due : ScanBound) (s : Segment) : Prop :=
  sg_acked s = 1 \/ (sg_xmit s <> 0 /\ quiet_fastack s /\ due_bounds b due s).

(** The segments a flush may skip: all but the unsent tail. *)
Definition covered_part (fs : FlushScan) (q : list Segment) : list Segment :=
  take (length q - fs_unsent fs) q.

Definition scan_sound (b : Z) (fs : FlushScan) (q : list Segment) : Prop :=
  fs_due fs = Unknown \/ fs_no_fastack fs = false \/ Forall (covered b (fs_due fs)) (covered_part fs q).

(** A covered segment is due no earlier than the bound says. *)
Lemma covered_due b ts s c :
  covered b (NotBefore ts) s -> sg_acked s <> 1 -> 0 <= c < 536870912 ->
  0 < _itimediff ts (u32 (b + c)) ->
  _itimediff ts (u32 (b + c)) <= _itimediff (sg_resendts s) (u32 (b + c)).
Proof.
  intros [?|(_ & _ & d & r & Hd & Hr & -> & ->)] Ha Hc Hpos; [done|].
  rewrite !offset_diff in * by lia. lia.
Qed.

(** [merge] weakens both bounds. *)
Lemma merge_l b x y s : covered b x s -> (y <> Unknown) ->
  (forall ts, y = NotBefore ts -> exists d, -536870912 <= d < 1073872896 /\ ts = u32 (b + d)) ->
  covered b (merge x y) s.
Proof.
  intros [Ha|(Hx & Hf & Hd)] Hy Hys; [by left|]. right. split_and!; [done|done|].
  destruct x as [| |tx]; [done|done|]. destruct y as [| |ty]; [done|done|].
  cbn [merge due_bounds] in *. destruct Hd as (d & r & Hd & Hr & -> & Er).
  destruct (Hys ty eq_refl) as (d' & Hd' & ->).
  rewrite offset_diff by lia. destruct (Z.ltb_spec (d' - d) 0).
  - exists d', r. split_and!; [lia|lia|done..].
  - exists d, r. split_and!; [lia|lia|done..].
Qed.

(** ** A covered segment is left alone *)

Section Kcp.
Context {O C : Type} `{Output O, Clock C}.
Implicit Types (w : Writer O) (k : Kcp O C) (s : Scan O C).

(** Two scans that differ only in the summary they gather. *)
Definition scan_sim (s s' : Scan O C) : Prop :=
  exists m f u, s' = s <| sc_min_rto := m |> <| sc_fastack := f |> <| sc_unsent := u |>.

#[export] Instance scan_sim_refl : Reflexive scan_sim.
Proof. intros s. exists (sc_min_rto s), (sc_fastack s), (sc_unsent s). by destruct s. Qed.

Lemma scan_sim_note_tail s seg : scan_sim s (note_tail seg s).
Proof. eexists (sc_min_rto s), (sc_fastack s), _. unfold note_tail. destruct s. reflexivity. Qed.

Lemma scan_sim_note_scanned s seg rto : scan_sim s (note_scanned seg rto s).
Proof. eexists _, _, _. unfold note_scanned, note_tail. destruct s. reflexivity. Qed.

Lemma scan_sim_trans s1 s2 s3 : scan_sim s1 s2 -> scan_sim s2 s3 -> scan_sim s1 s3.
Proof. intros (m & f & u & ->) (m' & f' & u' & ->). exists m', f', u'. by destruct s1. Qed.

Lemma nearest_rto_sim rto s s' : scan_sim s s' -> scan_sim (nearest_rto rto s) (nearest_rto rto s').
Proof.
  intros (m & f & u & ->). exists m, f, u. unfold nearest_rto. ssimpl. by case_goal.
Qed.

Lemma note_scanned_sim seg rto s s' : scan_sim s s' -> scan_sim (note_scanned seg rto s) (note_scanned seg rto s').
Proof.
  intros (m & f & u & ->). destruct s. unfold note_scanned, note_tail. do 3 eexists. reflexivity.
Qed.

Lemma set_sim m f u s : scan_sim s (s <| sc_min_rto := m |> <| sc_fastack := f |> <| sc_unsent := u |>).
Proof. by exists m, f, u. Qed.

Lemma can_skip_spec fs current interval :
  can_skip fs current interval = true ->
  fs_enabled fs = true /\ fs_no_fastack fs = true /\
  (fs_due fs = Nothing \/ exists ts, fs_due fs = NotBefore ts /\
     0 < _itimediff ts current /\ interval <= _itimediff ts current).
Proof.
  unfold can_skip. destruct (fs_enabled fs), (fs_no_fastack fs); cbn; try done.
  destruct (fs_due fs) as [| |ts]; try done; [by eauto|].
  intros [H1 H2]%andb_true_iff. to_prop. split_and!; try done. right. exists ts.
  rewrite u32_id in H2; [done|]. pose proof (itimediff_range ts current). unfold is_i32, is_u32 in *. lia.
Qed.

(** The scan body on a covered segment, at the start of the scan: nothing but
    the summary changes. *)
Lemma scan_segment_covered b c fs cx s seg interval :
  can_skip fs (u32 (b + c)) interval = true -> 0 <= c < 536870912 -> 0 < interval ->
  covered b (fs_due fs) seg -> 0 < cx_resent cx ->
  sc_current s = u32 (b + c) -> sc_backpressured s = false -> sc_next_update s = interval ->
  is_u32 (sg_fastack seg) ->
  snd (scan_segment cx s seg) = seg /\ scan_sim s (fst (scan_segment cx s seg)).
Proof.
  intros Hskip Hc Hint Hcov Hres Ecur Ebp Enu Hfa.
  apply can_skip_spec in Hskip as (_ & _ & Hdue).
  unfold scan_segment. destruct (sg_acked seg =? 1) eqn:Ea.
  { split; [done|apply scan_sim_note_tail]. }
  to_prop. destruct Hcov as [?|(Hx & Hq & Hd)]; [done|].
  destruct Hdue as [Edue|(ts & Edue & Hpos & Hge)]; rewrite Edue in Hd; [done|].
  assert (interval <= _itimediff (sg_resendts seg) (u32 (b + c)) /\
          _itimediff (u32 (b + c)) (sg_resendts seg) < 0) as [Hrto Hneg].
  { destruct Hd as (d & r & Hd & Hr & -> & ->). rewrite !offset_diff in * by lia. lia. }
  assert (would_send cx s seg = false) as Ews.
  { unfold would_send. rewrite Ebp, Ecur. cbn [negb andb].
    destruct (Z.eqb_spec (sg_xmit seg) 0); [done|].
    destruct (Z.leb_spec 0 (_itimediff (u32 (b + c)) (sg_resendts seg))); [lia|].
    destruct Hq as [-> | ->].
    - destruct (Z.leb_spec (cx_resent cx) 0); [lia|]. done.
    - rewrite Z.eqb_refl. cbn [negb]. by rewrite !andb_false_r. }
  rewrite Ews, Ebp.
  pose proof (retransmit_needsend cx s seg Ebp) as Hn. rewrite Ews in Hn.
  assert (retransmit cx s seg = (false, s, seg)) as ->.
  { unfold retransmit in *.
    destruct (sg_xmit seg =? 0); [done|].
    destruct ((cx_resent cx <=? sg_fastack seg) && negb (sg_fastack seg =? FFFFFFFF)); [done|].
    destruct ((0 <? sg_fastack seg) && negb (sg_fastack seg =? FFFFFFFF) && (cx_new_segs cx =? 0)%nat); [done|].
    destruct (0 <=? _itimediff (sc_current s) (sg_resendts seg)); done. }
  rewrite Ecur. cbn [snd fst]. split; [done|].
  assert (nearest_rto (_itimediff (sg_resendts seg) (u32 (b + c))) s = s) as ->.
  { unfold nearest_rto. rewrite Enu. pose proof (itimediff_range (sg_resendts seg) (u32 (b + c))).
    set (d := _itimediff (sg_resendts seg) (u32 (b + c))) in *.
    rewrite (u32_id d) by (unfold is_u32, is_i32 in *; lia).
    destruct (Z.ltb_spec d interval); [lia|by rewrite andb_false_r]. }
  apply scan_sim_note_scanned.
Qed.

(** The scan body does not look at the summary. *)
Lemma scan_segment_sim cx s s' seg : scan_sim s s' ->
  snd (scan_segment cx s' seg) = snd (scan_segment cx s seg) /\
  scan_sim (fst (scan_segment cx s seg)) (fst (scan_segment cx s' seg)).
Proof.
  intros (m & f & u & ->). unfold scan_segment.
  destruct (sg_acked seg =? 1).
  { split; [done|]. cbn [fst]. destruct s. do 3 eexists. reflexivity. }
  set (s1 := if would_send cx s seg then _ else s).
  set (s1' := if would_send cx (s <| sc_min_rto := m |> <| sc_fastack := f |> <| sc_unsent := u |>) seg then _ else _).
  assert (s1' = s1 <| sc_min_rto := m |> <| sc_fastack := f |> <| sc_unsent := u |>) as ->.
  { subst s1 s1'.
    change (would_send cx (s <| sc_min_rto := m |> <| sc_fastack := f |> <| sc_unsent := u |>) seg)
      with (would_send cx s seg). destruct (would_send cx s seg); [|done]. ssimpl.
    destruct (has_room (sc_w s)) as [[] w]; reflexivity. }
  clearbody s1. ssimpl. destruct (sc_backpressured s1).
  { split; [done|]. apply note_scanned_sim, nearest_rto_sim, set_sim. }
  set (s2 := s1 <| sc_min_rto := m |> <| sc_fastack := f |> <| sc_unsent := u |>).
  assert (retransmit cx s2 seg = let '(n, r, seg') := retransmit cx s1 seg in
     (n, r <| sc_min_rto := m |> <| sc_fastack := f |> <| sc_unsent := u |>, seg')) as ->.
  { subst s2. unfold retransmit. ssimpl. repeat case_goal; reflexivity. }
  clear s2. destruct (retransmit cx s1 seg) as [[n s2] seg2].
  set (p := if n then transmit cx s2 seg2 else (s2, seg2)).
  set (p' := if n then _ else _).
  assert (p' = ((fst p) <| sc_min_rto := m |> <| sc_fastack := f |> <| sc_unsent := u |>, snd p)) as ->.
  { subst p p'. destruct n; [|done]. unfold transmit. ssimpl. destruct (now_ms (sc_clock s2)).
    cbn [fst snd]. case_goal; reflexivity. }
  clearbody p. destruct p as [s3 seg3]. cbn [fst snd].
  split; [done|]. apply note_scanned_sim, nearest_rto_sim, set_sim.
Qed.

Lemma q_iter_mut_sim cx s s' q : scan_sim s s' ->
  snd (q_iter_mut (scan_segment cx) s' q) = snd (q_iter_mut (scan_segment cx) s q) /\
  scan_sim (fst (q_iter_mut (scan_segment cx) s q)) (fst (q_iter_mut (scan_segment cx) s' q)).
Proof.
  revert s s'; induction q as [|x q IH]; intros s s' Hs; cbn [q_iter_mut]; [done|].
  destruct (scan_segment_sim cx s s' x Hs) as [Ex Hs1].
  destruct (scan_segment cx s x) as [s1 x1], (scan_segment cx s' x) as [s1' x1']. cbn [fst snd] in *.
  subst x1'. destruct (IH s1 s1' Hs1) as [Eq Hs2].
  destruct (q_iter_mut _ s1 q), (q_iter_mut _ s1' q). cbn [fst snd] in *. by subst.
Qed.

(** Scanning covered segments changes nothing but the summary. *)
Lemma q_iter_mut_covered b c fs cx s q interval :
  can_skip fs (u32 (b + c)) interval = true -> 0 <= c < 536870912 -> 0 < interval ->
  Forall (fun x => covered b (fs_due fs) x /\ is_u32 (sg_fastack x)) q -> 0 < cx_resent cx ->
  sc_current s = u32 (b + c) -> sc_backpressured s = false -> sc_next_update s = interval ->
  snd (q_iter_mut (scan_segment cx) s q) = q /\ scan_sim s (fst (q_iter_mut (scan_segment cx) s q)).
Proof.
  intros Hskip Hc Hint Hq Hres. revert s; induction Hq as [|x q [Hcov Hfa] Hq IH]; intros s Ec Eb En;
    cbn [q_iter_mut]; [done|].
  destruct (scan_segment_covered b c fs cx s x interval) as [Ex Hs]; try done.
  destruct (scan_segment cx s x) as [s1 x1]. cbn [fst snd] in *. subst x1.
  destruct (IH s1) as [Eq Hs2]; try (destruct Hs as (m & f & u & ->); done).
  destruct (q_iter_mut _ s1 q) as [s2 q2]. cbn [fst snd] in *. subst q2. split; [done|].
  by eapply scan_sim_trans.
Qed.

(** A scan that skips a covered front is the scan of the whole buffer. *)
Lemma skip_is_naive b c fs cx s q interval n :
  can_skip fs (u32 (b + c)) interval = true -> 0 <= c < 536870912 -> 0 < interval ->
  Forall (fun x => covered b (fs_due fs) x /\ is_u32 (sg_fastack x)) (take n q) -> 0 < cx_resent cx ->
  sc_current s = u32 (b + c) -> sc_backpressured s = false -> sc_next_update s = interval ->
  let '(s1, q1) := q_iter_mut_from n (scan_segment cx) s q in
  let '(s0, q0) := q_iter_mut_from 0 (scan_segment cx) s q in
  q0 = q1 /\ scan_sim s1 s0.
Proof.
  intros Hskip Hc Hint Hq Hres Ec Eb En. unfold q_iter_mut_from. cbn [take drop app].
  destruct (q_iter_mut_covered b c fs cx s (take n q) interval) as [Et Hs]; try done.
  replace (q_iter_mut (scan_segment cx) s q) with (q_iter_mut (scan_segment cx) s (take n q ++ drop n q))
    by (by rewrite take_drop).
  rewrite q_iter_mut_app.
  destruct (q_iter_mut (scan_segment cx) s (take n q)) as [s1 t1]. cbn [fst snd] in *. subst t1.
  destruct (q_iter_mut_sim cx s s1 (drop n q) Hs) as [Eq Hs2].
  destruct (q_iter_mut (scan_segment cx) s1 (drop n q)), (q_iter_mut (scan_segment cx) s (drop n q)).
  cbn [fst snd] in *. by subst.
Qed.

(** ** What a scan learns is sound *)

(** The scan's clock and its [current], at or after the offset [c0] it started at. *)
Definition scan_time (b c0 : Z) s : Prop :=
  exists c, c0 <= c < 536870912 /\ sc_current s = u32 (b + c) /\ clock_window b c (sc_clock s).

Definition min_ok (c0 : Z) s : Prop :=
  sc_min_rto s = i32_MAX \/ (-536870912 <= sc_min_rto s /\ c0 + sc_min_rto s < 1073872896).

(** The summary accounts for a scanned segment. *)
Definition noted (b c0 : Z) s (x : Segment) : Prop :=
  sg_acked x = 1 \/
  ((sc_fastack s = true \/ quiet_fastack x) /\
   (sg_xmit x = 0 \/
    exists r, 0 <= r < 1073872896 /\ sg_resendts x = u32 (b + r) /\ c0 + sc_min_rto s <= r)).

Definition unsent_one (x : Segment) : nat := if sg_xmit x =? 0 then 1%nat else 0%nat.
Definition count_unsent (q : list Segment) : nat := foldr (fun x n => (unsent_one x + n)%nat) 0%nat q.

(** Later notes only lower the bound and raise the flag. *)
Definition scan_grows s s' : Prop :=
  sc_min_rto s' <= sc_min_rto s /\ (sc_fastack s = true -> sc_fastack s' = true).

Lemma noted_grows b c0 s s' x : scan_grows s s' -> noted b c0 s x -> noted b c0 s' x.
Proof.
  intros [Hm Hf] [?|[Hq Ht]]; [by left|]. right. split; [naive_solver|].
  destruct Ht as [?|(r & Hr & E & Hle)]; [by left|]. right. exists r. split_and!; try done; lia.
Qed.

Lemma note_scanned_fields x rto s :
  sc_min_rto (note_scanned x rto s) = Z.min (sc_min_rto s) rto /\
  sc_fastack (note_scanned x rto s) = sc_fastack s || (wsub32 (sg_fastack x) 1 <? 4294967294) /\
  sc_unsent (note_scanned x rto s) = (sc_unsent s + unsent_one x)%nat /\
  sc_current (note_scanned x rto s) = sc_current s /\ sc_clock (note_scanned x rto s) = sc_clock s.
Proof. done. Qed.

Lemma nearest_rto_fields rto s :
  sc_min_rto (nearest_rto rto s) = sc_min_rto s /\ sc_fastack (nearest_rto rto s) = sc_fastack s /\
  sc_unsent (nearest_rto rto s) = sc_unsent s /\ sc_current (nearest_rto rto s) = sc_current s /\
  sc_clock (nearest_rto rto s) = sc_clock s.
Proof. unfold nearest_rto. by case_goal. Qed.

Lemma quiet_of_flag x : is_u32 (sg_fastack x) -> (wsub32 (sg_fastack x) 1 <? 4294967294) = false -> quiet_fastack x.
Proof.
  unfold is_u32, quiet_fastack, wsub32, FFFFFFFF. intros Hf Hw. to_prop. unfold u32 in Hw. zlia.
Qed.

(** Noting a segment whose timer is at [r] (or that has none to contribute). *)
Lemma note_ok b c0 c x rto s :
  is_u32 (sg_fastack x) -> min_ok c0 s -> c0 <= c < 536870912 -> 0 <= c0 ->
  (sg_xmit x = 0 /\ rto = i32_MAX \/ exists r, 0 <= r < 1073872896 /\ sg_resendts x = u32 (b + r) /\ rto = r - c) ->
  min_ok c0 (note_scanned x rto s) /\ noted b c0 (note_scanned x rto s) x /\ scan_grows s (note_scanned x rto s).
Proof.
  intros Hf Hm Hc Hc0 Hr. destruct (note_scanned_fields x rto s) as (Em & Ef & _).
  unfold min_ok, noted, scan_grows. rewrite Em, Ef.
  assert (sc_fastack s || (wsub32 (sg_fastack x) 1 <? 4294967294) = true \/ quiet_fastack x) as Hq.
  { destruct (sc_fastack s); [by left|]. cbn [orb].
    destruct (wsub32 (sg_fastack x) 1 <? 4294967294) eqn:E; [by left|right]. by apply quiet_of_flag. }
  unfold min_ok, i32_MAX in *. destruct Hr as [[Hx ->]|(r & Hr & E & ->)].
  - split_and!; [destruct Hm; lia| |lia|by intros ->]. right. split; [done|by left].
  - split_and!; [right; destruct Hm as [Hm|Hm]; unfold i32_MAX in *; lia | |lia|by intros ->].
    right. split; [done|]. right. exists r. split_and!; try done; lia.
Qed.

(** What the scan keeps about the segments behind it. *)
Definition scan_ok_ctx (cx : ScanCtx) : Prop := 0 <= cx_rx_rto cx <= 60000.

Lemma restart_near b c x rto : 0 <= rto <= 60000 -> 0 <= c < 536870912 ->
  timer_near b (x <| sg_rto := rto |> <| sg_resendts := wadd32 (u32 (b + c)) rto |>).
Proof.
  intros Hr Hc. exists c. ksimpl. split_and!; [lia..|]. unfold wadd32. by rewrite u32_add_l.
Qed.

Lemma retransmit_near b c cx s x :
  scan_ok_ctx cx -> 0 <= c < 536870912 -> sc_current s = u32 (b + c) ->
  seg_near b x -> sg_acked x <> 1 -> is_u32 (sg_rto x) ->
  timer_near b (snd (retransmit cx s x)).
Proof.
  intros Hcx Hc Ec Hx Ha Hrto. unfold retransmit, scan_ok_ctx in *. rewrite Ec.
  destruct (Z.eqb_spec (sg_xmit x) 0); [by apply restart_near|].
  destruct Hx as [?|[?|Ht]]; [done..|].
  destruct (_ && _); [by apply restart_near|].
  destruct (_ && _ && _); [by apply restart_near|].
  destruct Ht as (t & Ht & Hr & Er). rewrite Er.
  replace (b + t + sg_rto x) with (b + (t + sg_rto x)) by lia. rewrite offset_diff by lia.
  destruct (Z.leb_spec 0 (c - (t + sg_rto x))); cbn [snd].
  - assert (forall inc, 0 <= inc <= 60000 -> wadd32 (sg_rto x) inc = sg_rto x + inc) as Ei.
    { intros inc Hi. unfold wadd32. apply u32_id. unfold is_u32. lia. }
    assert (0 <= cx_rx_rto cx / 2 <= 60000) as Hd by zlia.
    exists c. destruct (cx_nodelay cx =? 0); ksimpl; rewrite Ei by lia; split_and!; try lia;
      unfold wadd32; rewrite u32_add_l; f_equal; lia.
  - exists t. split_and!; lia.
Qed.

(** The transmission keeps the timer and the summary; time moves on. *)
Lemma transmit_notes b c0 cx s x :
  scan_time b c0 s -> timer_near b x ->
  let '(s', x') := transmit cx s x in
  scan_time b c0 s' /\ timer_near b x' /\ sc_min_rto s' = sc_min_rto s /\
  sc_fastack s' = sc_fastack s /\ sc_unsent s' = sc_unsent s /\ sg_fastack x' = sg_fastack x /\
  sg_acked x' = sg_acked x.
Proof.
  intros (c & Hc & Ec & Hw) Ht. unfold transmit.
  destruct (clock_window_step b c (sc_clock s) Hw) as (t & Hct & Et & Hw').
  destruct (now_ms (sc_clock s)) as [now clock]. cbn [fst snd] in *. subst now.
  assert (forall s' : Scan O C, sc_current s' = u32 (b + t) -> sc_clock s' = clock -> scan_time b c0 s') as Hst.
  { intros s' E1 E2. exists t. rewrite E1, E2. split_and!; try done; lia. }
  split_and!; try done; case_goal; try done; by apply Hst.
Qed.

(** Closing a scan step: the nearest RTO, then the notes. *)
Lemma notes_close b c0 s x rto : 0 <= c0 ->
  is_u32 (sg_fastack x) -> scan_time b c0 s -> min_ok c0 s ->
  (forall c, c0 <= c < 536870912 -> sc_current s = u32 (b + c) ->
     sg_xmit x = 0 /\ rto = i32_MAX \/ exists r, 0 <= r < 1073872896 /\ sg_resendts x = u32 (b + r) /\ rto = r - c) ->
  forall rto0, let s' := note_scanned x rto (nearest_rto rto0 s) in
  scan_time b c0 s' /\ min_ok c0 s' /\ noted b c0 s' x /\ scan_grows s s' /\
  sc_unsent s' = (sc_unsent s + unsent_one x)%nat.
Proof.
  intros Hc0 Hf (c & Hc & Ec & Hw) Hm Hr rto0 s'. subst s'.
  destruct (nearest_rto_fields rto0 s) as (Em2 & Ef2 & Eu2 & Ec2 & Ek2).
  destruct (note_scanned_fields x rto (nearest_rto rto0 s)) as (_ & _ & Eu3 & Ec3 & Ek3).
  destruct (note_ok b c0 c x rto (nearest_rto rto0 s)) as (Hm3 & Hn3 & Hg3); try done.
  { unfold min_ok. by rewrite Em2. }
  { by apply Hr. }
  split_and!; try done.
  - exists c. rewrite Ec3, Ek3, Ec2, Ek2. done.
  - unfold scan_grows in *. by rewrite Em2, Ef2 in Hg3.
  - by rewrite Eu3, Eu2.
Qed.

Lemma scan_grows_trans s1 s2 s3 : scan_grows s1 s2 -> scan_grows s2 s3 -> scan_grows s1 s3.
Proof. intros [? ?] [? ?]. split; [lia|auto]. Qed.

Lemma scan_grows_refl s : scan_grows s s.
Proof. split; [lia|done]. Qed.

(** One segment of the scan. *)
Lemma scan_segment_notes b c0 cx conv s x :
  0 <= c0 -> scan_ok_ctx cx -> scan_time b c0 s -> min_ok c0 s -> snd_seg conv x -> seg_near b x ->
  let '(s', x') := scan_segment cx s x in
  scan_time b c0 s' /\ min_ok c0 s' /\ noted b c0 s' x' /\ scan_grows s s' /\
  sc_unsent s' = (sc_unsent s + unsent_one x')%nat /\ seg_near b x'.
Proof.
  intros Hc0 Hcx Ht Hm Hx Hn. unfold scan_segment.
  assert (is_u32 (sg_fastack x) /\ is_u32 (sg_rto x)) as [Hfa Hrt] by (destruct Hx; naive_solver).
  destruct (sg_acked x =? 1) eqn:Ea; to_prop.
  { split_and!; try done; by left. }
  set (s1 := if would_send cx s x then _ else s).
  assert (scan_time b c0 s1 /\ min_ok c0 s1 /\ scan_grows s s1 /\ sc_unsent s1 = sc_unsent s) as (Ht1 & Hm1 & Hg1 & Eu1).
  { subst s1. case_goal; [|split_and!; try done; apply scan_grows_refl].
    destruct (has_room (sc_w s)) as [[] w]; cbn [negb]; (split_and!; try done; apply scan_grows_refl). }
  clearbody s1. clear Ht Hm. destruct (sc_backpressured s1) eqn:Ebp.
  - set (rto := _itimediff (sg_resendts x) (sc_current s1)).
    destruct (notes_close b c0 s1 x (if sg_xmit x =? 0 then i32_MAX else rto) Hc0 Hfa Ht1 Hm1) with (rto0 := rto)
      as (Ht3 & Hm3 & Hn3 & Hg3 & Eu3).
    { intros c Hc Ec. destruct (Z.eqb_spec (sg_xmit x) 0); [by left|right].
      destruct Hn as [?|[?|Hn]]; [done..|]. destruct (timer_offset _ _ Hn) as (r & Hr & E).
      exists r. split_and!; try done; try lia. subst rto. rewrite E, Ec. apply offset_diff. lia. }
    split_and!; try done; [by eapply scan_grows_trans|]. by rewrite Eu3, Eu1.
  - assert (timer_near b (snd (retransmit cx s1 x))) as Hnear.
    { destruct Ht1 as (c & Hc & Ec & _). by apply (retransmit_near b c); try done; lia. }
    pose proof (retransmit_frame cx s1 x) as Hfr.
    pose proof (retransmit_kept cx s1 x ltac:(unfold scan_ok_ctx, is_u32 in *; lia)) as [_ Hk].
    specialize (Hk conv Hx). destruct (retransmit cx s1 x) as [[n s2] x2]. cbn [snd] in *.
    destruct Hfr as (_ & _ & Ek2 & Ec2 & _ & _ & Em2 & Ef2 & Eu2 & Ex2 & _).
    assert (scan_time b c0 s2 /\ min_ok c0 s2 /\ scan_grows s s2) as (Ht2 & Hm2 & Hg2).
    { split_and!; [unfold scan_time; by rewrite Ek2, Ec2|unfold min_ok; by rewrite Em2|].
      unfold scan_grows in *. by rewrite Em2, Ef2. }
    assert (is_u32 (sg_fastack x2)) as Hf2 by (destruct Hk; naive_solver).
    set (p := if n then transmit cx s2 x2 else (s2, x2)).
    assert (scan_time b c0 (fst p) /\ min_ok c0 (fst p) /\ scan_grows s (fst p) /\
      sc_unsent (fst p) = sc_unsent s /\ timer_near b (snd p) /\ is_u32 (sg_fastack (snd p))) as Hp.
    { subst p. destruct n; [|cbn [fst snd]; split_and!; try done; try congruence].
      pose proof (transmit_notes b c0 cx s2 x2 Ht2 Hnear) as Htr. destruct (transmit cx s2 x2) as [s3 x3].
      destruct Htr as (?&?&Em3&Ef3&Eu3&Ea3&_). cbn [fst snd]. unfold min_ok, scan_grows in *.
      rewrite Em3, Ef3, Eu3, Ea3. split_and!; try done; [apply Hg2..|congruence]. }
    destruct p as [s3 x3]. cbn [fst snd] in Hp. destruct Hp as (Ht3 & Hm3 & Hg3 & Eu3 & Hnear3 & Hf3).
    set (rto := _itimediff (sg_resendts x3) (sc_current s3)).
    destruct (notes_close b c0 s3 x3 rto Hc0 Hf3 Ht3 Hm3) with (rto0 := rto) as (Ht4 & Hm4 & Hn4 & Hg4 & Eu4).
    { intros c Hc Ec. right. destruct (timer_offset _ _ Hnear3) as (r & Hr & E).
      exists r. split_and!; try done; try lia. subst rto. rewrite E, Ec. apply offset_diff. lia. }
    split_and!; try done; [by eapply scan_grows_trans|by rewrite Eu4, Eu3|by right; right].
Qed.

(** The whole scan. *)
Lemma scan_notes b c0 cx conv s q :
  0 <= c0 -> scan_ok_ctx cx -> scan_time b c0 s -> min_ok c0 s ->
  Forall (fun x => snd_seg conv x /\ seg_near b x) q ->
  let '(s', q') := q_iter_mut (scan_segment cx) s q in
  scan_time b c0 s' /\ min_ok c0 s' /\ scan_grows s s' /\ Forall (noted b c0 s') q' /\
  sc_unsent s' = (sc_unsent s + count_unsent q')%nat /\ Forall (seg_near b) q'.
Proof.
  intros Hc0 Hcx Ht Hm Hq. revert s Ht Hm. induction Hq as [|x q [Hx Hn] Hq IH]; intros s Ht Hm; cbn [q_iter_mut].
  { split_and!; try done. }
  pose proof (scan_segment_notes b c0 cx conv s x Hc0 Hcx Ht Hm Hx Hn) as Hs.
  destruct (scan_segment cx s x) as [s1 x1]. destruct Hs as (Ht1 & Hm1 & Hn1 & Hg1 & Eu1 & Hx1).
  specialize (IH s1 Ht1 Hm1). destruct (q_iter_mut (scan_segment cx) s1 q) as [s2 q2].
  destruct IH as (Ht2 & Hm2 & Hg2 & Hn2 & Eu2 & Hq2).
  split_and!; try done; [by eapply scan_grows_trans| | |by constructor].
  - constructor; [by eapply noted_grows|done].
  - rewrite Eu2, Eu1. cbn [count_unsent foldr]. fold (count_unsent q2). lia.
Qed.

(** *** The unsent tail *)

Lemma unsent_run_spec q : (unsent_run q <= length q)%nat /\
  Forall (fun x => sg_xmit x = 0) (take (unsent_run q) q).
Proof.
  induction q as [|x q [IHl IHq]]; cbn [unsent_run length take]; [split; [lia|constructor]|].
  destruct (Z.eqb_spec (sg_xmit x) 0); cbn [negb take]; [|split; [lia|constructor]].
  split; [lia|by constructor].
Qed.

Lemma unsent_tail_spec q : (unsent_tail q <= length q)%nat /\
  Forall (fun x => sg_xmit x = 0) (drop (length q - unsent_tail q) q).
Proof.
  unfold unsent_tail. destruct (unsent_run_spec (rev q)) as [Hl Hq]. rewrite length_rev in Hl.
  split; [done|]. rewrite firstn_rev in Hq. apply Forall_rev in Hq. by rewrite rev_involutive in Hq.
Qed.

Lemma count_unsent_app q1 q2 : count_unsent (q1 ++ q2) = (count_unsent q1 + count_unsent q2)%nat.
Proof. unfold count_unsent. induction q1 as [|x q1 IH]; cbn [foldr app]; [done|]. rewrite IH. lia. Qed.

Lemma count_unsent_all q : Forall (fun x => sg_xmit x = 0) q -> count_unsent q = length q.
Proof. induction 1 as [|x q Hx Hq IH]; cbn; [done|]. unfold unsent_one. rewrite Hx. cbn. f_equal. exact IH. Qed.

Lemma count_unsent_none q : count_unsent q = 0%nat -> Forall (fun x => sg_xmit x <> 0) q.
Proof.
  induction q as [|x q IH]; cbn; intros E; constructor.
  - unfold unsent_one in E. destruct (Z.eqb_spec (sg_xmit x) 0); [lia|done].
  - apply IH. unfold count_unsent. lia.
Qed.

Lemma count_unsent_le q : (count_unsent q <= length q)%nat.
Proof. unfold count_unsent. induction q as [|x q IH]; cbn [foldr length]; [lia|]. unfold unsent_one at 1. case_goal; lia. Qed.

(** When the count agrees with the tail, everything scanned before the tail has
    been transmitted. *)
Lemma tail_split front p :
  count_unsent p = unsent_tail (front ++ p) ->
  exists p1 p2, p = p1 ++ p2 /\ Forall (fun x => sg_xmit x <> 0) p1 /\
    take (length (front ++ p) - unsent_tail (front ++ p)) (front ++ p) = front ++ p1.
Proof.
  intros E. destruct (unsent_tail_spec (front ++ p)) as [Hl Hz].
  pose proof (count_unsent_le p) as Hle. set (t := unsent_tail (front ++ p)) in *.
  rewrite length_app in *.
  replace (length front + length p - t)%nat with (length front + (length p - t))%nat in * by lia.
  rewrite drop_app_add' in Hz by done. rewrite take_app_add' by done.
  exists (take (length p - t) p), (drop (length p - t) p). split_and!; [by rewrite take_drop| |done].
  apply count_unsent_none.
  pose proof (count_unsent_app (take (length p - t) p) (drop (length p - t) p)) as Ec.
  rewrite take_drop, (count_unsent_all _ Hz), length_drop in Ec. lia.
Qed.

(** ** The summary after a scan *)

Definition near_due (b : Z) (fs : FlushScan) : Prop :=
  forall ts, fs_due fs = NotBefore ts -> exists d, -536870912 <= d < 1073872896 /\ ts = u32 (b + d).

(** The bound the scan itself established covers what it noted. *)
Definition scan_due (b c0 : Z) s : ScanBound :=
  if sc_min_rto s =? i32_MAX then Nothing else NotBefore (wadd32 (u32 (b + c0)) (sc_min_rto s)).

Lemma scan_due_near b c0 s : 0 <= c0 -> min_ok c0 s ->
  scan_due b c0 s <> Unknown /\
  forall ts, scan_due b c0 s = NotBefore ts -> exists d, -536870912 <= d < 1073872896 /\ ts = u32 (b + d).
Proof.
  intros Hc0 Hm. unfold scan_due. destruct (Z.eqb_spec (sc_min_rto s) i32_MAX); [done|].
  split; [done|]. intros ts [= <-]. destruct Hm as [?|Hm]; [done|].
  exists (c0 + sc_min_rto s). split; [lia|]. unfold wadd32. rewrite u32_add_l. f_equal. lia.
Qed.

Lemma noted_covered b c0 s x : 0 <= c0 -> min_ok c0 s ->
  noted b c0 s x -> sc_fastack s = false -> sg_xmit x <> 0 -> covered b (scan_due b c0 s) x.
Proof.
  intros Hc0 Hm [?|[[Hq|Hq] Ht]] Hf Hx; [by left|congruence|]. right. split_and!; [done..|].
  destruct Ht as [?|(r & Hr & E & Hle)]; [done|]. unfold scan_due.
  destruct (Z.eqb_spec (sc_min_rto s) i32_MAX) as [Em|Em]; [unfold i32_MAX in *; lia|].
  destruct Hm as [?|Hm]; [done|].
  exists (c0 + sc_min_rto s), r. split_and!; try done; try lia.
  unfold wadd32. rewrite u32_add_l. f_equal. lia.
Qed.

Lemma merge_comm_covered b x y (s : Segment) : covered b y s -> x <> Unknown ->
  (forall ts, x = NotBefore ts -> exists d, -536870912 <= d < 1073872896 /\ ts = u32 (b + d)) ->
  covered b (merge x y) s.
Proof.
  intros [Ha|(Hx & Hf & Hd)] Hy Hys; [by left|]. right. split_and!; [done|done|].
  destruct y as [| |ty]; [done|done|]. destruct x as [| |tx]; [done|done|].
  cbn [merge due_bounds] in *. destruct Hd as (d & r & Hd & Hr & -> & Er).
  destruct (Hys tx eq_refl) as (d' & Hd' & ->).
  rewrite offset_diff by lia. destruct (Z.ltb_spec (d - d') 0).
  - exists d, r. split_and!; try done; lia.
  - exists d', r. split_and!; try done; lia.
Qed.

Lemma merge_near b x y :
  (forall ts, x = NotBefore ts -> exists d, -536870912 <= d < 1073872896 /\ ts = u32 (b + d)) ->
  (forall ts, y = NotBefore ts -> exists d, -536870912 <= d < 1073872896 /\ ts = u32 (b + d)) ->
  forall ts, merge x y = NotBefore ts -> exists d, -536870912 <= d < 1073872896 /\ ts = u32 (b + d).
Proof.
  intros Hx Hy ts E. destruct x, y; cbn [merge] in E; try done; try (injection E as <-); eauto.
  case_goal; eauto.
Qed.

(** A full scan of everything after a covered front leaves a sound summary. *)
Lemma finish_scan_sound b c0 s fs front p :
  0 <= c0 -> min_ok c0 s -> Forall (noted b c0 s) p -> sc_unsent s = count_unsent p ->
  (length front = 0%nat \/ (fs_due fs <> Unknown /\ Forall (covered b (fs_due fs)) front)) ->
  near_due b fs ->
  let fs' := finish_scan (length front) (u32 (b + c0)) s (front ++ p) fs in
  scan_sound b fs' (front ++ p) /\ near_due b fs' /\ fs_enabled fs' = fs_enabled fs.
Proof.
  intros Hc0 Hm Hn Eu Hfront Hnear. cbn zeta. unfold finish_scan. fold (scan_due b c0 s).
  destruct (scan_due_near b c0 s Hc0 Hm) as [Hnu Hsd].
  set (head := if (0 <? length front)%nat then fs_due fs else Nothing).
  assert (head <> Unknown /\ (forall ts, head = NotBefore ts ->
    exists d, -536870912 <= d < 1073872896 /\ ts = u32 (b + d)) /\ Forall (covered b head) front) as (Hh1 & Hh2 & Hh3).
  { subst head. destruct (Nat.ltb_spec 0 (length front)); [destruct Hfront as [?|[??]]; [lia|done]|].
    split_and!; try done. destruct front; [constructor|cbn in *; lia]. }
  clearbody head. rewrite Eu.
  destruct (Nat.eqb_spec (count_unsent p) (unsent_tail (front ++ p))) as [Et|Et]; cbn [negb].
  - split_and!; [|intros ts; ksimpl; by apply merge_near|done].
    destruct (tail_split front p Et) as (p1 & p2 & Ep & Hp1 & Etake).
    unfold scan_sound, covered_part. ksimpl. rewrite Etake.
    destruct (sc_fastack s) eqn:Ef; [by right; left|]. right. right.
    apply Forall_app. split.
    + eapply Forall_impl; [exact Hh3|]. intros x Hx. by apply merge_l.
    + rewrite Ep in Hn. apply Forall_app in Hn as [Hn1 _].
      rewrite Forall_forall in *. intros x Hx. apply merge_comm_covered; [|done..].
      apply noted_covered; auto.
  - split_and!; [by left|done|done].
Qed.
End Kcp.
