(* ===== verification/KcpOracle.v ===== *)
(** * The optimised state machine against its oracle

    The step-by-step simulation: an invariant that makes the summary of the send
    buffer sound, its preservation by every operation, and the equality of all
    results with those of the naive machine. *)
From S2P Require Import Prelude Word Env Segment Queue Heap KcpState KcpSend KcpFlush KcpInput KcpInv.
From S2P Require Import KcpWriter KcpFlushInv KcpNaive KcpScan.
Local Open Scope Z_scope.

Section Oracle.
Context {O C : Type} `{Output O, Clock C}.
Implicit Types (w : Writer O) (k : Kcp O C) (s : Scan O C).
Context (b : Z).

(** The clock's offset, the timers and the summary. *)
Record time_inv k : Prop := {
  ti_clock : clock_window b 0 (k_clock k);
  ti_timers : Forall (seg_near b) (k_snd_buf k);
  ti_due : near_due b (k_flush_scan k);
  ti_sound : scan_sound b (k_flush_scan k) (k_snd_buf k);
}.

(** A step that does not touch clock, send buffer or summary. *)
Lemma time_inv_same k k' :
  k_clock k' = k_clock k -> k_snd_buf k' = k_snd_buf k -> k_flush_scan k' = k_flush_scan k ->
  time_inv k -> time_inv k'.
Proof. intros E1 E2 E3 [? ? ? ?]. constructor; rewrite ?E1, ?E2, ?E3; done. Qed.

(** A reading of the clock. *)
Lemma clock_tick k : time_inv k ->
  exists t, 0 <= t < 536870912 /\ fst (now_ms (k_clock k)) = u32 (b + t) /\
    clock_window b t (snd (now_ms (k_clock k))).
Proof. intros Hi. apply clock_window_step. apply Hi. Qed.

Lemma time_inv_tick k : time_inv k -> time_inv (k <| k_clock := snd (now_ms (k_clock k)) |>).
Proof.
  intros Hi. destruct (clock_tick k Hi) as (t & Ht & _ & Hw). destruct Hi. constructor; ksimpl; try done.
  eapply clock_window_weaken; [|exact Hw]. lia.
Qed.

(** ** Before the scan *)

Lemma probe_timer_time k : time_inv k -> time_inv (probe_timer k).
Proof.
  intros Hi. unfold probe_timer. destruct (k_rmt_wnd k =? 0); [|by apply (time_inv_same k)].
  pose proof (time_inv_tick k Hi) as Hi'. destruct (now_ms (k_clock k)) as [t c]. cbn [snd] in Hi'.
  repeat case_goal; try done; eapply time_inv_same; try exact Hi'; reflexivity.
Qed.

(** The sum of what [flush_head] does to the send buffer and the clock. *)
Lemma flush_head_time k : kcp_wf k -> time_inv k ->
  let '(seg, w, n, k1) := flush_head k in
  exists new, k_snd_buf k1 = k_snd_buf k ++ new /\ length new = n /\
    Forall (fun x => sg_xmit x = 0) new /\ k_flush_scan k1 = k_flush_scan k /\
    clock_window b 0 (k_clock k1).
Proof.
  intros Hwf Hi. unfold flush_head.
  set (w0 := mkWriter _ _ _ _ _).
  destruct (flush_acks_frame (flush_template k) w0 k) as (acks & Ek & Hn).
  destruct (flush_acks (flush_template k) w0 k) as [[seg1 w1] k1]. cbn [snd] in Ek. subst k1.
  set (k1 := k <| k_acklist := acks |>).
  assert (kcp_wf k1 /\ time_inv k1) as [Hwf1 Hi1] by (split; [by apply acks_wf|by apply (time_inv_same k)]).
  pose proof (probe_timer_wf k1 Hwf1) as Hwf2. pose proof (probe_timer_time k1 Hi1) as Hi2.
  destruct (probe_timer_frame k1) as (_ & Eb2 & _ & _ & _ & _ & _ & Ef2).
  set (k2 := probe_timer k1) in *. clearbody k2.
  destruct (flush_probes_frame seg1 w1 k2) as (p & Ek3).
  destruct (flush_probes seg1 w1 k2) as [[seg3 w3] k3]. cbn [snd] in Ek3. subst k3.
  set (k3 := k2 <| k_probe := p |>).
  assert (kcp_wf k3) as Hwf3 by by apply probe_wf.
  unfold admit_new.
  rewrite admit_loop_spec by (rewrite (wf_nxt _ (wf_snd _ Hwf3)); apply u32_range).
  set (n := admit_count _ _ _).
  pose proof (admit_count_le (wadd32 (k_snd_una k3) (flush_cwnd k3)) (k_snd_nxt k3) (k_snd_queue k3)) as Hle.
  fold n in Hle. ksimpl.
  exists (imap (fun i x => admitted (k_conv k3) (u32 (k_snd_nxt k3 + Z.of_nat i)) x) (take n (k_snd_queue k3))).
  split_and!.
  - subst k3. ksimpl. rewrite Eb2. done.
  - rewrite length_imap, length_take. lia.
  - rewrite Forall_lookup. intros i x Hx. rewrite list_lookup_imap in Hx.
    apply fmap_Some in Hx as (y & Hy & ->). apply lookup_take_Some in Hy as [Hy _].
    pose proof (Forall_lookup_1 _ _ _ _ (wf_snd_queue _ Hwf3) Hy) as (_&_&_&Ex&_). exact Ex.
  - subst k3. ksimpl. by rewrite Ef2.
  - subst k3. ksimpl. apply Hi2.
Qed.

(** ** The scan *)

Lemma finish_scan_unsent_admitted fs q new :
  scan_sound b fs q ->
  scan_sound b (fs <| fs_unsent := (fs_unsent fs + length new)%nat |>) (q ++ new).
Proof.
  intros [?|[?|Hs]]; [by left|by right; left|right; right]. unfold covered_part in *. ksimpl.
  rewrite length_app.
  replace (length q + length new - (fs_unsent fs + length new))%nat with (length q - fs_unsent fs)%nat by lia.
  by rewrite take_app_le by lia.
Qed.

(** The scan, given a buffer whose summary is sound up to [n] new segments. *)
Lemma flush_segments_oracle ft seg resent n w k1 f new q0 :
  kcp_wf k1 -> clock_window b 0 (k_clock k1) -> k_snd_buf k1 = q0 ++ new -> length new = n ->
  Forall (fun x => sg_xmit x = 0) new -> Forall (seg_near b) q0 ->
  near_due b (k_flush_scan k1) -> scan_sound b (k_flush_scan k1) q0 ->
  fs_enabled f = false -> 0 < resent ->
  let '(s, k2) := flush_segments ft seg resent (fs_unsent (k_flush_scan k1)) n w k1 in
  let '(s', k2') := flush_segments ft seg resent (fs_unsent f) n w (setfs f k1) in
  scan_sim s s' /\ naive_of k2 k2' /\
  clock_window b 0 (sc_clock s) /\ Forall (seg_near b) (k_snd_buf k2) /\
  near_due b (k_flush_scan k2) /\ scan_sound b (k_flush_scan k2) (k_snd_buf k2).
Proof.
  intros Hwf Hw Eb En Hnew Hq0 Hdue Hsound Hf Hres. unfold flush_segments. setfs_simpl.
  destruct (clock_window_step b 0 (k_clock k1) Hw) as (c0 & Hc0 & Et & Hw').
  destruct (now_ms (k_clock k1)) as [t clock]. cbn [fst snd] in *. subst t.
  pose proof (finish_scan_unsent_admitted _ _ new Hsound) as Hsound'. rewrite <- Eb, En in Hsound'.
  assert (Forall (seg_near b) (k_snd_buf k1)) as Hnear.
  { rewrite Eb. apply Forall_app. split; [done|]. eapply Forall_impl; [exact Hnew|]. intros x Hx. by right; left. }
  destruct ft; cbn [is_full].
  { split_and!; try done; [by eexists; split; [|reflexivity]|]. cbn [sc_clock scan_start].
    eapply clock_window_weaken; [|exact Hw']. lia. }
  set (cx := scan_ctx (sg_wnd seg) (sg_una seg) resent n k1).
  change (scan_ctx (sg_wnd seg) (sg_una seg) resent n (setfs f k1)) with cx.
  change (scan_start w clock (u32 (b + c0)) (setfs f k1)) with (scan_start w clock (u32 (b + c0)) k1).
  set (s0 := scan_start w clock (u32 (b + c0)) k1).
  assert (flush_skipped Full (u32 (b + c0)) (fs_unsent f + n) (setfs f k1) = 0%nat) as ->.
  { unfold flush_skipped, can_skip, setfs. ksimpl. by rewrite Hf. }
  set (skipped := flush_skipped _ _ _ k1).
  set (q := k_snd_buf k1) in *.
  assert (skipped = 0%nat \/
    (skipped <= length q)%nat /\ fs_due (k_flush_scan k1) <> Unknown /\
    can_skip (k_flush_scan k1) (u32 (b + c0)) (k_interval k1) = true /\
    Forall (covered b (fs_due (k_flush_scan k1))) (take skipped q)) as Hskip.
  { subst skipped. unfold flush_skipped. cbn [is_full andb].
    destruct (can_skip (k_flush_scan k1) (u32 (b + c0)) (k_interval k1)) eqn:E; [right|by left].
    destruct (can_skip_spec _ _ _ E) as (_ & Hnf & Hd).
    split_and!; [unfold q; lia|destruct Hd as [->|(?&->&_)]; done|done|].
    destruct Hsound' as [Hu|[Hu|Hs]]; ksimpl in Hu || idtac.
    - rewrite Hu in Hd. destruct Hd as [?|(?&?&_)]; done.
    - congruence.
    - exact Hs. }
  assert (is_u32 (cx_rx_rto cx) /\ scan_ok_ctx cx) as [Hrto Hcx].
  { subst cx. pose proof (wf_rto _ Hwf). unfold scan_ok_ctx, is_u32, IKCP_RTO_NDL, IKCP_RTO_MAX in *.
    cbn [scan_ctx cx_rx_rto]. lia. }
  destruct (wf_snd _ Hwf) as [_ _ _ _ Hsegs]. fold q in Hsegs.
  assert (let '(s1, q1) := q_iter_mut_from skipped (scan_segment cx) s0 q in
          let '(s2, q2) := q_iter_mut_from 0 (scan_segment cx) s0 q in q2 = q1 /\ scan_sim s1 s2) as Hsim.
  { destruct Hskip as [->|(Hl & Hu & Hcs & Hcov)].
    - destruct (q_iter_mut_from 0 (scan_segment cx) s0 q). done.
    - apply (skip_is_naive b c0 (k_flush_scan k1) cx s0 q (k_interval k1)); try done.
      + pose proof (wf_interval _ Hwf). lia.
      + apply Forall_and. split; [done|]. apply Forall_take. eapply Forall_impl; [exact Hsegs|].
        intros x Hx. destruct Hx; naive_solver. }
  assert (scan_time b c0 s0 /\ min_ok c0 s0) as [Ht0 Hm0].
  { split; [exists c0; split_and!; try done; lia|by left]. }
  pose proof (scan_notes b c0 cx (k_conv k1) s0 (drop skipped q) ltac:(lia) Hcx Ht0 Hm0
    ltac:(apply Forall_and; split; by apply Forall_drop)) as Hnotes.
  unfold q_iter_mut_from in Hsim |- *.
  destruct (q_iter_mut (scan_segment cx) s0 (drop skipped q)) as [s1 p].
  destruct (q_iter_mut (scan_segment cx) s0 (drop 0 q)) as [s2 q2].
  destruct Hsim as [-> Hsim]. destruct Hnotes as (Ht1 & Hm1 & _ & Hn1 & Eu1 & Hnear1).
  assert (length (take skipped q) = skipped) as El.
  { rewrite length_take. destruct Hskip as [->|[? _]]; lia. }
  pose proof (finish_scan_sound b c0 s1 (k_flush_scan k1) (take skipped q) p ltac:(lia) Hm1 Hn1 Eu1) as Hfin.
  rewrite El in Hfin. destruct Hfin as (Hs1 & Hd1 & _).
  { destruct Hskip as [->|(?&?&?&?)]; [by left|by right]. }
  { done. }
  split_and!; try done.
  - exists (finish_scan 0 (u32 (b + c0)) s2 (take skipped q ++ p) f). split; [|reflexivity].
    unfold finish_scan. case_goal; ksimpl; done.
  - destruct Ht1 as (c & Hc & _ & Hwc). eapply clock_window_weaken; [|exact Hwc]. lia.
  - ksimpl. apply Forall_app. split; [by apply Forall_take|done].
Qed.

(** ** A whole flush *)

Lemma flush_tail_sim cwnd resent s s' k : scan_sim s s' ->
  flush_tail cwnd resent s' k = flush_tail cwnd resent s k.
Proof. by intros (m & f & u & ->). Qed.

Lemma flush_tail_time cwnd resent s k :
  clock_window b 0 (sc_clock s) -> Forall (seg_near b) (k_snd_buf k) ->
  near_due b (k_flush_scan k) -> scan_sound b (k_flush_scan k) (k_snd_buf k) ->
  time_inv (snd (flush_tail cwnd resent s k)).
Proof.
  intros Hc Hq Hd Hs. unfold flush_tail. cbn zeta. cbn [snd].
  set (k1 := k <| k_state := _ |> <| k_clock := _ |>).
  destruct (flush_cwnd_update_frame cwnd resent (sc_change s) (sc_lost s) k1)
    as (_ & _ & Eb & _ & _ & _ & _ & Ef & Ec).
  set (k2 := flush_cwnd_update cwnd resent (sc_change s) (sc_lost s) k1) in *. clearbody k2.
  constructor; ksimpl; rewrite ?Eb, ?Ef, ?Ec; subst k1; ksimpl; done.
Qed.

Lemma flush_resent_pos k : kcp_wf k -> 0 < flush_resent k.
Proof.
  intros Hwf. unfold flush_resent, FFFFFFFF. pose proof (wf_fastresend _ Hwf) as Hf. case_goal; to_prop; [lia|].
  rewrite u32_id; unfold is_u32, is_i32 in *; lia.
Qed.

Lemma flush_setfs ft f k :
  flush ft (setfs f k) =
    let '(seg, w, n, k1) := flush_head k in
    let '(s, k2) := flush_segments ft seg (flush_resent k1) (fs_unsent f) n w (setfs f k1) in
    flush_tail (flush_cwnd k1) (flush_resent k1) s k2.
Proof.
  unfold flush. rewrite flush_head_setfs. destruct (flush_head k) as [[[seg w] n] k1].
  setfs_simpl. reflexivity.
Qed.

Lemma flush_tail_oracle cwnd resent s s' k k' :
  scan_sim s s' -> naive_of k k' ->
  clock_window b 0 (sc_clock s) -> Forall (seg_near b) (k_snd_buf k) ->
  near_due b (k_flush_scan k) -> scan_sound b (k_flush_scan k) (k_snd_buf k) ->
  fst (flush_tail cwnd resent s' k') = fst (flush_tail cwnd resent s k) /\
  naive_of (snd (flush_tail cwnd resent s k)) (snd (flush_tail cwnd resent s' k')) /\
  time_inv (snd (flush_tail cwnd resent s k)).
Proof.
  intros Hsim (f & Hf & ->) Hc Hq Hd Hs. rewrite (flush_tail_sim _ _ _ _ _ Hsim), flush_tail_setfs.
  generalize (flush_tail_time cwnd resent s k Hc Hq Hd Hs).
  generalize (flush_tail cwnd resent s k). intros [t k2] Ht. cbn [fst snd] in *.
  split; [reflexivity|]. split; [by exists f|done].
Qed.

Lemma flush_oracle ft k kn :
  kcp_wf k -> time_inv k -> naive_of k kn ->
  fst (flush ft kn) = fst (flush ft k) /\ naive_of (snd (flush ft k)) (snd (flush ft kn)) /\
  time_inv (snd (flush ft k)).
Proof.
  intros Hwf Hi (f & Hf & ->). rewrite flush_setfs. unfold flush.
  pose proof (flush_head_time k Hwf Hi) as Hh.
  pose proof (flush_head_lift (w_ok (k_mtu k)) (w_ok (k_mtu k)) (fun _ => True) (fun _ => True) k Hwf
    (safe_writer _) ltac:(done) ltac:(done) ltac:(done) ltac:(by apply Forall_forall) (writer_start_ok k Hwf)) as Hl.
  destruct (flush_head k) as [[[seg w] n] k1].
  destruct Hh as (new & Eb & En & Hnew & Efs & Hw). destruct Hl as (_ & _ & Hwf1 & _).
  destruct Hi as [_ Htm Hdue Hso]. rewrite <- Efs in Hdue, Hso.
  pose proof (flush_segments_oracle ft seg (flush_resent k1) n w k1 f new (k_snd_buf k) Hwf1 Hw Eb En Hnew Htm
    Hdue Hso Hf (flush_resent_pos k1 Hwf1)) as Hs.
  destruct (flush_segments ft seg (flush_resent k1) (fs_unsent (k_flush_scan k1)) n w k1) as [s k2].
  destruct (flush_segments ft seg (flush_resent k1) (fs_unsent f) n w (setfs f k1)) as [s' k2'].
  destruct Hs as (Hsim & Hna & Hc & Hq & Hd & Hss).
  by apply flush_tail_oracle.
Qed.

(** ** Acknowledgements *)

(** What an ACK may do to a segment: mark it, or raise its [fastack]. *)
Definition timer_kept (x x' : Segment) : Prop :=
  sg_xmit x' = sg_xmit x /\ sg_rto x' = sg_rto x /\ sg_resendts x' = sg_resendts x /\
  (sg_acked x' = 1 \/ sg_acked x' = sg_acked x).

(** The same, for a segment the summary still covers. *)
Definition cover_kept (x x' : Segment) : Prop :=
  timer_kept x x' /\ (sg_acked x' = 1 \/ sg_fastack x' = sg_fastack x).

#[local] Instance timer_kept_refl : Reflexive timer_kept.
Proof. intros x. split_and!; try done. by right. Qed.
#[local] Instance cover_kept_refl : Reflexive cover_kept.
Proof. intros x. split; [done|by right]. Qed.

Lemma near_kept q q' : Forall2 timer_kept q q' -> Forall (seg_near b) q -> Forall (seg_near b) q'.
Proof.
  induction 1 as [|x x' q q' (Ex & Er & Et & Ha) _ IH]; [done|]. rewrite !Forall_cons. intros [Hx Hq].
  split; [|by apply IH]. unfold seg_near, timer_near in *. rewrite Ex, Er, Et.
  destruct Hx as [Hx|Hx]; [left; destruct Ha; congruence|by right].
Qed.

Lemma covered_kept due x x' : cover_kept x x' -> covered b due x -> covered b due x'.
Proof.
  intros [(Ex & Er & Et & Ha) Hf] [Hx|(Hx & Hq & Hd)]; [left; destruct Ha; congruence|].
  destruct Hf as [?|Hf]; [by left|]. right. unfold quiet_fastack, due_bounds in *. by rewrite Ex, Et, Hf.
Qed.

Lemma scan_sound_kept fs q q' : Forall2 cover_kept q q' -> scan_sound b fs q -> scan_sound b fs q'.
Proof.
  intros Hk [?|[?|Hs]]; [by left|by right; left|right; right]. unfold covered_part in *.
  rewrite <- (Forall2_length _ _ _ Hk).
  pose proof (Forall2_take _ _ _ (length q - fs_unsent fs) Hk) as Ht.
  clear Hk. revert Hs. induction Ht as [|x x' l l' Hx Hl IH]; [done|]. rewrite !Forall_cons.
  intros [? ?]. split; [by eapply covered_kept|by apply IH].
Qed.

Lemma Forall2_impl_kept q q' : Forall2 cover_kept q q' -> Forall2 timer_kept q q'.
Proof. intros Hk. eapply Forall2_impl; [exact Hk|]. by intros x y []. Qed.

Lemma parse_una_time una k : time_inv k -> time_inv (snd (parse_una una k)).
Proof.
  intros [Hc Ht Hd Hs]. rewrite parse_una_spec. cbn [snd].
  pose proof (una_count_le una (k_snd_buf k)) as Hn. set (n := una_count una (k_snd_buf k)) in *.
  constructor; ksimpl; [done|by apply Forall_drop|done|].
  destruct Hs as [?|[?|Hs]]; [by left|by right; left|right; right]. unfold covered_part in *. ksimpl.
  rewrite length_drop.
  replace (length (k_snd_buf k) - n - Nat.min (fs_unsent (k_flush_scan k)) (length (k_snd_buf k) - n))%nat
    with (length (k_snd_buf k) - fs_unsent (k_flush_scan k) - n)%nat by lia.
  rewrite <- skipn_firstn_comm. by apply Forall_drop.
Qed.

Lemma shrink_buf_time k : time_inv k -> time_inv (shrink_buf k).
Proof. intros Hi. unfold shrink_buf. destruct (head (k_snd_buf k)); by apply (time_inv_same k). Qed.

Lemma parse_ack_time sn k : time_inv k -> time_inv (parse_ack sn k).
Proof.
  intros Hi. unfold parse_ack. case_goal; [done|]. case_goal; [|done].
  assert (Forall2 cover_kept (k_snd_buf k)
    (alter (fun seg => recycle_segment (seg <| sg_acked := 1 |>)) n (k_snd_buf k))) as Hk.
  { apply alter_Forall2; [apply _|]. intros x. split; [split_and!; try done; by left|by left]. }
  destruct Hi. constructor; ksimpl; try done.
  - eapply near_kept; [by apply Forall2_impl_kept|done].
  - by eapply scan_sound_kept.
Qed.

Lemma bump_fastack_timer ts r st x : timer_kept x (snd (bump_fastack ts r st x)).
Proof. unfold bump_fastack. destruct st. case_goal; [|done]. split_and!; try done. by right. Qed.

Lemma fastack_visit_timer sn ts r st x : timer_kept x (snd (fst (fastack_visit sn ts r st x))).
Proof.
  unfold fastack_visit. case_goal; [done|]. case_goal; [|done].
  pose proof (bump_fastack_timer ts r st x). by destruct (bump_fastack ts r st x).
Qed.

(** Without a bump of an unacknowledged segment, the cover is kept. *)
Definition bump_rel (x x' : Segment) : Prop :=
  timer_kept x x' /\ sg_acked x' = sg_acked x /\ (sg_acked x <> 0 \/ sg_fastack x' = sg_fastack x).

#[local] Instance bump_rel_refl : Reflexive bump_rel.
Proof. intros x. split_and!; try done. by right. Qed.

Lemma fastack_visit_flag sn ts r st x :
  (snd st = true -> snd (fst (fst (fastack_visit sn ts r st x))) = true) /\
  (snd (fst (fst (fastack_visit sn ts r st x))) = false -> bump_rel x (snd (fst (fastack_visit sn ts r st x)))).
Proof.
  unfold fastack_visit. case_goal; [done|]. case_goal; [|done]. unfold bump_fastack. destruct st as [f bm].
  case_goal; [|done]. cbn [fst snd]. split; [by intros ->|]. intros [-> Ha]%orb_false_iff. to_prop.
  split; [split_and!; try done; by right|]. split; [done|by left].
Qed.

Lemma parse_fastack_time sn ts k : kcp_wf k -> is_u32 sn -> time_inv k -> time_inv (snd (parse_fastack sn ts k)).
Proof.
  intros Hwf Hsn Hi. unfold parse_fastack. destruct (out_of_flight sn k) eqn:E; [done|].
  rewrite (fastack_walk sn ts _ _ k Hwf Hsn E). set (f := fastack_visit sn ts _).
  pose proof (q_for_each_Forall2 timer_kept f (0, false) (k_snd_buf k)
    ltac:(intros; apply fastack_visit_timer)) as Ht.
  pose proof (q_for_each_flag snd bump_rel f (0, false) (k_snd_buf k)
    ltac:(intros s x; apply fastack_visit_flag) ltac:(intros s x; apply fastack_visit_flag)) as Hb.
  destruct (q_for_each f (0, false) (k_snd_buf k)) as [[sfa bumped] q]. cbn [fst snd] in *.
  destruct Hi as [Hc Hn Hd Hs]. destruct bumped.
  - constructor; ksimpl; try done; [by eapply near_kept|]. by right; left.
  - specialize (Hb eq_refl). constructor; ksimpl; try done; [by eapply near_kept|].
    eapply scan_sound_kept; [|exact Hs].
    pose proof (wf_snd_buf _ (wf_snd _ Hwf)) as Hsegs.
    clear - Hb Hsegs. revert Hsegs. induction Hb as [|x x' l l' (Hx & Ea & Hf) Hl IH]; [constructor|].
    rewrite Forall_cons. intros [Hx1 Hx2]. constructor; [|by apply IH].
    split; [done|]. destruct Hf as [Hf|Hf]; [left|by right]. rewrite Ea.
    destruct Hx1 as (_&_&_&_&_&[?|?]&_); congruence.
Qed.


(** ** The operations that leave the send buffer alone *)

Definition untimed k k' : Prop :=
  k_clock k' = k_clock k /\ k_snd_buf k' = k_snd_buf k /\ k_flush_scan k' = k_flush_scan k.

#[local] Instance untimed_trans : Transitive untimed.
Proof. intros k1 k2 k3 (?&?&?) (?&?&?). split_and!; congruence. Qed.
#[local] Instance untimed_refl : Reflexive untimed.
Proof. by intros k. Qed.

Lemma untimed_inv k k' : untimed k k' -> time_inv k -> time_inv k'.
Proof. intros (?&?&?). by apply time_inv_same. Qed.

Lemma send_untimed d k : untimed k (snd (send d k)).
Proof.
  unfold send. case_goal; [done|]. cbn zeta.
  set (p := if negb (k_stream k =? 0) then _ else (d, k)).
  assert (untimed k (snd p)) as Hp by (subst p; case_goal; [by destruct (send_extend _ _ _)|done]).
  destruct p as [rest k1]. cbn [snd] in Hp. repeat case_goal; exact Hp.
Qed.

Lemma move_available_untimed fuel k : untimed k (move_available fuel k).
Proof.
  revert k; induction fuel as [|fuel IH]; intros k; cbn [move_available]; [done|].
  destruct (sh_pop (k_rcv_buf k)) as [[seg h]|]; [|done]. case_goal; [|done].
  etrans; [|apply IH]. done.
Qed.

Lemma recv_untimed d k : untimed k (snd (recv d k)).
Proof.
  unfold recv. case_goal; [done|]. case_goal; [done|].
  destruct (recv_merge _ _ _) as [[[q d'] n]|]; [|done]. cbn [snd].
  set (k1 := k <| k_rcv_queue := q |>).
  pose proof (move_available_untimed (move_fuel k1) k1) as Hm. case_goal; exact Hm.
Qed.

Lemma parse_data_untimed seg data k : untimed k (snd (parse_data seg data k)).
Proof.
  unfold parse_data. case_goal; [done|]. destruct (negb (sh_has _ _)); cbn [snd];
    (etrans; [|apply move_available_untimed]); done.
Qed.

Lemma input_push_untimed pt h payload k : untimed k (input_push pt h payload k).
Proof.
  unfold input_push. set (p := if _ <? 0 then _ else (true, k)).
  assert (untimed k (snd p)) as Hp.
  { subst p. case_goal; [|done]. case_goal; [|done]. etrans; [|apply parse_data_untimed]. done. }
  destruct p as [r k1]. cbn [snd] in Hp. case_goal; exact Hp.
Qed.

Lemma update_ack_untimed rtt k : untimed k (update_ack rtt k).
Proof. unfold update_ack. cbn zeta. repeat case_goal; done. Qed.

Lemma input_cwnd_untimed una k : untimed k (input_cwnd una k).
Proof. unfold input_cwnd. cbn zeta. repeat case_goal; done. Qed.

Lemma input_rtt_time pt l k : time_inv k -> time_inv (input_rtt pt l k).
Proof.
  intros Hi. unfold input_rtt. case_goal; [|done]. pose proof (time_inv_tick k Hi) as Hi'.
  destruct (now_ms (k_clock k)) as [t c]. cbn [snd] in Hi'. case_goal; [|done].
  eapply untimed_inv; [apply update_ack_untimed|done].
Qed.

(** ** Input *)

(** The two machines side by side. *)
Definition paired k kn : Prop := kcp_wf k /\ time_inv k /\ naive_of k kn.

Lemma input_segment_oracle pt h data l k kn :
  header_wf h -> bytes data -> paired k kn ->
  match input_segment pt h data l k, input_segment pt h data l kn with
  | inl (c, k'), inl (c', kn') => c = c' /\ paired k' kn'
  | inr (l1, d1, k'), inr (l2, d2, kn') => l1 = l2 /\ d1 = d2 /\ paired k' kn'
  | _, _ => False
  end.
Proof.
  intros Hh Hb (Hwf & Hi & Hn).
  pose proof (input_segment_wf pt h data l k Hh Hb Hwf) as Hw. revert Hw.
  destruct Hn as (f & Hf & ->). unfold input_segment. setfs_simpl.
  destruct (negb (h_conv h =? k_conv k)); [intros; split; [done|]; split_and!; try done; by exists f|].
  destruct (zlen data <? h_len h); [intros; split; [done|]; split_and!; try done; by exists f|].
  destruct (negb (known_cmd (h_cmd h))); [intros; split; [done|]; split_and!; try done; by exists f|].
  set (k0 := if is_regular pt then k <| k_rmt_wnd := h_wnd h |> else k).
  assert ((if is_regular pt then (setfs f k) <| k_rmt_wnd := h_wnd h |> else setfs f k) = setfs f k0) as ->.
  { subst k0. by destruct (is_regular pt). }
  assert (kcp_wf k0 /\ time_inv k0) as [Hwf0 Hi0].
  { subst k0. destruct (is_regular pt); [|done]. split; [|by apply (time_inv_same k)].
    wf_open Hwf; wf_same; [destruct wf_snd0; by constructor|apply Hh]. }
  assert (naive_of k0 (setfs f k0)) as Hn0 by by exists f.
  clearbody k0. generalize dependent (setfs f k0). intros kn0 Hn0.
  destruct (parse_una_naive (h_una h) k0 kn0 Hn0) as [Hn1 En].
  pose proof (una_shrink_wf (h_una h) k0 Hwf0) as Hwf2.
  pose proof (shrink_buf_time _ (parse_una_time (h_una h) k0 Hi0)) as Hi2.
  apply (blind1_naive _ _ _ shrink_buf_blind) in Hn1.
  destruct (parse_una (h_una h) k0) as [n k1], (parse_una (h_una h) kn0) as [n' kn1]. cbn [fst snd] in *.
  subst n'. set (k2 := shrink_buf k1) in *. set (kn2 := shrink_buf kn1) in *. clearbody k2 kn2.
  set (l1 := if (0 <? n)%nat then _ else l). clearbody l1.
  assert (is_u32 (h_sn h)) as Hsn by apply Hh.
  destruct (h_cmd h =? IKCP_CMD_ACK).
  - pose proof (parse_ack_naive (h_sn h) k2 kn2 Hwf2 Hsn Hn1) as Hn3.
    pose proof (parse_ack_wf (h_sn h) k2 Hwf2) as Hwf3. pose proof (parse_ack_time (h_sn h) k2 Hi2) as Hi3.
    destruct (parse_fastack_naive (h_sn h) (h_ts h) _ _ Hwf3 Hsn Hn3) as [Hn4 Ef].
    pose proof (parse_fastack_time (h_sn h) (h_ts h) _ Hwf3 Hsn Hi3) as Hi4.
    destruct (parse_fastack _ _ (parse_ack (h_sn h) k2)), (parse_fastack _ _ (parse_ack (h_sn h) kn2)).
    cbn [fst snd] in *. subst. intros [_ Hw]. by split_and!.
  - destruct (h_cmd h =? IKCP_CMD_PUSH).
    + intros [_ Hw]. unfold paired. split_and!; try done.
      * eapply untimed_inv; [apply input_push_untimed|done].
      * exact (blind1_naive _ _ _ (input_push_blind pt h _) Hn1).
    + destruct (h_cmd h =? IKCP_CMD_WASK); intros [_ Hw]; unfold paired; split_and!; try done.
      * by apply (time_inv_same k2).
      * destruct Hn1 as (f2 & Hf2 & ->). by exists f2.
Qed.

Lemma input_loop_oracle fuel pt data l k kn :
  bytes data -> paired k kn ->
  match input_loop fuel pt data l k, input_loop fuel pt data l kn with
  | inl (c, k'), inl (c', kn') => c = c' /\ paired k' kn'
  | inr (l1, k'), inr (l2, kn') => l1 = l2 /\ paired k' kn'
  | _, _ => False
  end.
Proof.
  revert data l k kn; induction fuel as [|fuel IH]; intros data l k kn Hb Hp; cbn [input_loop]; [done|].
  destruct (decode data) as [[h rest]|] eqn:Ed; [|done].
  destruct (decode_wf _ _ _ Hb Ed) as (Hh & Hb' & _).
  pose proof (input_segment_oracle pt h rest l k kn Hh Hb' Hp) as Hs.
  pose proof (input_segment_wf pt h rest l k Hh Hb' ltac:(apply Hp)) as Hw.
  destruct (input_segment pt h rest l k) as [[c k']|[[l1 d1] k']],
    (input_segment pt h rest l kn) as [[c' kn']|[[l2 d2] kn']]; try done.
  destruct Hs as (-> & -> & Hp'). apply IH; [apply Hw|done].
Qed.

Lemma input_oracle data pt nd k kn : bytes data -> paired k kn ->
  fst (input data pt nd kn) = fst (input data pt nd k) /\
  paired (snd (input data pt nd k)) (snd (input data pt nd kn)).
Proof.
  intros Hb Hp. pose proof (input_wf data pt nd k Hb ltac:(apply Hp)) as Hw. revert Hw.
  assert (k_snd_una kn = k_snd_una k) as Eu by (destruct Hp as (_ & _ & f & _ & ->); done).
  unfold input. rewrite Eu. destruct (zlen data <? IKCP_OVERHEAD); [done|].
  pose proof (input_loop_oracle (input_fuel data) pt data input_start k kn Hb Hp) as Hl.
  pose proof (input_loop_wf (input_fuel data) pt data input_start k Hb ltac:(apply Hp)) as Hlw.
  destruct (input_loop (input_fuel data) pt data input_start k) as [[c k']|[l1 k']],
    (input_loop (input_fuel data) pt data input_start kn) as [[c' kn']|[l2 kn']]; try done.
  { by destruct Hl as (-> & Hp'). }
  destruct Hl as (-> & Hwf1 & Hi1 & f & Hf & ->). cbn [fst snd]. intros Hw. split; [done|].
  change (k_snmp (setfs f k')) with (k_snmp k').
  set (k1 := k' <| k_snmp := _ |>) in *.
  change ((setfs f k') <| k_snmp := _ |>) with (setfs f k1).
  assert (kcp_wf k1) as Hwf1' by by apply snmp_wf.
  assert (time_inv k1) as Hi1' by by apply (time_inv_same k').
  clearbody k1. rewrite (input_rtt_blind pt l2 f k1), (input_cwnd_blind (k_snd_una k) f).
  pose proof (untimed_inv _ _ (input_cwnd_untimed (k_snd_una k) (input_rtt pt l2 k1))
    (input_rtt_time pt l2 k1 Hi1')) as Hi2.
  pose proof (input_cwnd_wf (k_snd_una k) _ (input_rtt_wf pt l2 k1 Hwf1')) as Hwf2.
  set (k2 := input_cwnd (k_snd_una k) (input_rtt pt l2 k1)) in *. clearbody k2.
  assert (naive_of k2 (setfs f k2)) as Hn2 by by exists f.
  split; [done|]. unfold input_flush. setfs_simpl.
  destruct (flush_oracle Full k2 _ Hwf2 Hi2 Hn2) as (_ & ? & ?).
  destruct (flush_oracle AckOnly k2 _ Hwf2 Hi2 Hn2) as (_ & ? & ?).
  repeat case_goal; done.
Qed.

(** ** Every operation *)

Lemma paired_same k k' f : fs_enabled f = false ->
  kcp_wf k' -> untimed k k' -> time_inv k -> paired k' (setfs f k').
Proof. intros Hf Hw Hu Hi. split_and!; [done|by eapply untimed_inv|by exists f]. Qed.

Lemma update_oracle k kn : paired k kn -> paired (update k) (update kn).
Proof.
  intros (Hwf & Hi & f & Hf & ->). pose proof (update_wf k Hwf) as Hw. revert Hw.
  unfold update. setfs_simpl. pose proof (time_inv_tick k Hi) as Hi0.
  destruct (now_ms (k_clock k)) as [t c]. cbn [snd] in Hi0. apply (clock_wf c) in Hwf.
  set (k0 := k <| k_clock := c |>) in *.
  change ((setfs f k) <| k_clock := c |>) with (setfs f k0). clearbody k0. clear k Hi. cbn zeta. setfs_simpl.
  set (k1 := if k_updated k0 =? 0 then k0 <| k_updated := 1 |> <| k_ts_flush := t |> else k0).
  assert ((if k_updated k0 =? 0 then (setfs f k0) <| k_updated := 1 |> <| k_ts_flush := t |> else setfs f k0)
          = setfs f k1) as -> by (subst k1; by case_goal).
  assert (kcp_wf k1 /\ time_inv k1) as [Hwf1 Hi1].
  { subst k1. case_goal; [|done]. split; [|by apply (time_inv_same k0)].
    wf_open Hwf; wf_same; destruct wf_snd0; by constructor. }
  clearbody k1. clear k0 Hwf Hi0. setfs_simpl. set (slap := _itimediff t (k_ts_flush k1)).
  set (late := negb ((-10000 <=? slap) && (slap <? 10000))).
  set (k2 := if late then k1 <| k_ts_flush := t |> else k1).
  assert ((if late then (0, k1 <| k_ts_flush := t |>) else (slap, k1)) = (if late then 0 else slap, k2)) as ->
    by (subst k2; by destruct late).
  assert ((if late then (0, (setfs f k1) <| k_ts_flush := t |>) else (slap, setfs f k1))
          = (if late then 0 else slap, setfs f k2)) as -> by (subst k2; by destruct late).
  assert (kcp_wf k2 /\ time_inv k2) as [Hwf2 Hi2].
  { subst k2. destruct late; [|done]. split; [|by apply (time_inv_same k1)].
    wf_open Hwf1; wf_same; destruct wf_snd0; by constructor. }
  clearbody k2. case_goal; intros Hw; [|unfold paired; split_and!; try done; by exists f].
  ksimpl. setfs_simpl. ksimpl in Hw.
  set (ts := wadd32 (k_ts_flush k2) (k_interval k2)) in *.
  set (k3 := if 0 <=? _itimediff t ts then _ else _).
  assert (exists f3, fs_enabled f3 = false /\
    (if 0 <=? _itimediff t ts
     then (setfs f k2) <| k_ts_flush := ts |> <| k_ts_flush := wadd32 t (k_interval k2) |>
     else (setfs f k2) <| k_ts_flush := ts |>) = setfs f3 k3) as (f3 & Hf3 & ->).
  { exists f. split; [done|]. subst k3. by destruct (0 <=? _itimediff t ts). }
  assert (kcp_wf k3 /\ time_inv k3) as [Hwf3 Hi3].
  { subst k3. destruct (0 <=? _itimediff t ts); (split; [|by apply (time_inv_same k2)]);
      wf_open Hwf2; wf_same; destruct wf_snd0; by constructor. }
  destruct (flush_oracle Full k3 (setfs f3 k3) Hwf3 Hi3) as (_ & ? & ?); [by exists f3|]. done.
Qed.

Lemma kcp_step_oracle op k kn : op_ok op -> paired k kn ->
  fst (kcp_step op kn) = fst (kcp_step op k) /\ paired (snd (kcp_step op k)) (snd (kcp_step op kn)).
Proof.
  intros Hop Hp. pose proof (kcp_step_wf op k Hop ltac:(apply Hp)) as Hw. revert Hw.
  pose proof Hp as (Hwf & Hi & f & Hf & Ekn).
  destruct op as [d|d|d pt nd|ft| | |m|x y z u|x y]; cbn [kcp_step op_ok] in *.
  - rewrite Ekn, (send_blind d f). pose proof (send_untimed d k) as Hu. destruct (send d k) as [c k'].
    cbn [fst snd] in *. intros Hw. split; [done|]. by eapply paired_same.
  - pose proof (recv_blind d f k) as Hb. cbn beta in Hb. pose proof (recv_untimed d k) as Hu. rewrite Ekn.
    destruct (recv d k) as [[c d'] k'], (recv d (setfs f k)) as [[c2 d2] k2]. cbn [fst snd] in *.
    injection Hb as -> -> ->. intros Hw. split; [done|]. by eapply paired_same.
  - destruct (input_oracle d pt nd k kn Hop Hp) as [Ec Hp'].
    destruct (input d pt nd k), (input d pt nd kn). cbn [fst snd] in *. by subst.
  - destruct (flush_oracle ft k kn Hwf Hi) as (Ec & Hn & Hi'); [by exists f|].
    destruct (flush ft k), (flush ft kn). cbn [fst snd] in *. subst. done.
  - intros _. split; [done|]. by apply update_oracle.
  - rewrite Ekn, (check_blind f). pose proof (time_inv_tick k Hi) as Hi'.
    assert (snd (check k) = k <| k_clock := snd (now_ms (k_clock k)) |>) as Ek.
    { unfold check. destruct (now_ms (k_clock k)). cbn zeta. repeat case_goal; done. }
    assert (time_inv (snd (check k))) as Hic by (rewrite Ek; exact Hi'). destruct (check k) as [t k']. cbn [fst snd] in *. intros Hw. split; [done|].
    split_and!; try done; by exists f.
  - rewrite Ekn, (set_mtu_blind m f).
    assert (untimed k (snd (set_mtu m k))) as Hu by (unfold set_mtu; by case_goal).
    destruct (set_mtu m k) as [c k']. cbn [fst snd] in *. intros Hw. split; [done|]. by eapply paired_same.
  - rewrite Ekn, (nodelay_blind x y z u f).
    assert (untimed k (snd (nodelay x y z u k))) as Hu by (unfold nodelay; cbn [snd]; repeat case_goal; done).
    destruct (nodelay x y z u k) as [c k']. cbn [fst snd] in *. intros Hw. split; [done|]. by eapply paired_same.
  - rewrite Ekn, (wnd_size_blind x y f).
    assert (untimed k (snd (wnd_size x y k))) as Hu by (unfold wnd_size; cbn [snd]; repeat case_goal; done).
    destruct (wnd_size x y k) as [c k']. cbn [fst snd] in *. intros Hw. split; [done|]. by eapply paired_same.
Qed.

Lemma kcp_run_oracle ops k kn : Forall op_ok ops -> paired k kn ->
  fst (kcp_run ops kn) = fst (kcp_run ops k) /\ paired (snd (kcp_run ops k)) (snd (kcp_run ops kn)).
Proof.
  intros Hops. revert k kn; induction Hops as [|op ops Hop Hops IH]; intros k kn Hp; cbn [kcp_run]; [done|].
  destruct (kcp_step_oracle op k kn Hop Hp) as [Er Hp1].
  destruct (kcp_step op k) as [r k1], (kcp_step op kn) as [rn kn1]. cbn [fst snd] in *. subst rn.
  destruct (IH k1 kn1 Hp1) as [Ers Hp2].
  destruct (kcp_run ops k1), (kcp_run ops kn1). cbn [fst snd] in *. by subst.
Qed.

Lemma with_clock_paired conv (o : O) (c : C) snmp f :
  is_u32 conv -> clock_window b 0 c -> fs_enabled f = false ->
  paired (with_clock conv o c snmp) (setfs f (with_clock conv o c snmp)).
Proof.
  intros Hconv Hc Hf. split_and!; [by apply with_clock_wf| |by exists f].
  constructor; [done|constructor|done|by left].
Qed.
End Oracle.
