(* ===== verification/KcpSpec.v ===== *)
(** * Functional specifications of the [Kcp] operations

    What [send] queues and what [recv] gives back, the acknowledgement
    operations, the retransmission timeout, the window and the timer, as lemmas
    about single operations; and message boundaries end to end. *)
From S2P Require Import Prelude Word Env Segment Queue Heap KcpState KcpSend KcpFlush KcpInput KcpInv.
From S2P Require Import KcpWriter KcpFlushInv KcpDelivery KcpNaive.
Local Open Scope Z_scope.

(** ** Fragments *)

(** The number of segments [n] bytes are cut into. *)
Definition fragment_count (mss n : nat) : nat := if (n <=? mss)%nat then 1%nat else div_ceil n mss.

Lemma fragment_count_cover mss n : (0 < mss)%nat ->
  (n <= fragment_count mss n * mss)%nat /\ (1 <= fragment_count mss n)%nat.
Proof.
  intros Hm. unfold fragment_count, div_ceil. destruct (Nat.leb_spec n mss); [lia|].
  pose proof (Nat.div_mod_eq (n + mss - 1) mss).
  pose proof (Nat.mod_upper_bound (n + mss - 1) mss ltac:(lia)). nia.
Qed.

(** No fragment too many. *)
Lemma fragment_count_tight mss n : (0 < mss)%nat -> (0 < n)%nat -> ((fragment_count mss n - 1) * mss < n)%nat.
Proof.
  intros Hm Hn. unfold fragment_count, div_ceil. destruct (Nat.leb_spec n mss); [lia|].
  pose proof (Nat.div_mod_eq (n + mss - 1) mss).
  pose proof (Nat.mod_upper_bound (n + mss - 1) mss ltac:(lia)). nia.
Qed.

(** The segments [send] makes of [buffer]. *)
Definition fragments (stream : Z) (mss : nat) (buffer : list Z) : list Segment :=
  let count := fragment_count mss (length buffer) in
  imap (fun j data => frag_seg stream (count - j - 1) data) (chunks mss count buffer).

Lemma fragments_data stream mss buffer : (0 < mss)%nat ->
  mjoin (sg_data <$> fragments stream mss buffer) = buffer.
Proof.
  intros Hm. unfold fragments. set (count := fragment_count _ _).
  assert (forall l g, sg_data <$> imap (fun j data => frag_seg stream (g j) data) l = l) as E.
  { induction l as [|d l IH]; intros g; [done|]. cbn [imap]. rewrite fmap_cons. f_equal. apply IH. }
  rewrite E, concat_chunks. apply take_ge. apply (fragment_count_cover mss (length buffer)). done.
Qed.

Lemma length_fragments stream mss buffer : length (fragments stream mss buffer) = fragment_count mss (length buffer).
Proof. unfold fragments. by rewrite length_imap, length_chunks. Qed.

(** Message mode counts the fragments down to 0. *)
Lemma fragments_frg mss buffer j s : (fragment_count mss (length buffer) <= 255)%nat ->
  fragments 0 mss buffer !! j = Some s ->
  sg_frg s = Z.of_nat (fragment_count mss (length buffer) - j - 1).
Proof.
  intros Hc Hj. unfold fragments in Hj. rewrite list_lookup_imap in Hj.
  apply fmap_Some in Hj as (d & Hd & ->). apply lookup_lt_Some in Hd. rewrite length_chunks in Hd.
  unfold frag_seg. ksimpl. cbn [Z.eqb]. apply u8_id. unfold is_u8. lia.
Qed.

Section Kcp.
Context {O C : Type} `{Output O, Clock C}.
Implicit Types (k : Kcp O C).

(** ** [send] *)

(** Every branch of [send] in message mode. *)
Lemma send_message buffer k : kcp_wf k -> k_stream k = 0 ->
  let mss := Z.to_nat (k_mss k) in
  send buffer k =
    if is_nil buffer then (-1, k)
    else if (255 <? fragment_count mss (length buffer))%nat then (-2, k)
    else (0, k <| k_snd_queue := k_snd_queue k ++ fragments 0 mss buffer |>).
Proof.
  intros Hwf Hs mss. unfold send. rewrite Hs. cbn [Z.eqb negb andb]. cbn zeta. rewrite !Hs. cbn [Z.eqb negb andb]. fold mss.
  pose proof (wf_mss _ Hwf) as Hm. pose proof (wf_mtu _ Hwf). unfold IKCP_OVERHEAD in Hm.
  assert (0 < mss)%nat by (subst mss; lia).
  destruct (is_nil buffer); [done|].
  destruct (Nat.eqb_spec mss 0); [lia|]. rewrite andb_false_r.
  fold (fragment_count mss (length buffer)).
  destruct (255 <? fragment_count mss (length buffer))%nat; [done|].
  destruct (fragment_count_cover mss (length buffer)) as [_ H1']; [done|].
  destruct (Nat.eqb_spec (fragment_count mss (length buffer)) 0); [lia|].
  do 2 f_equal. unfold fragments. rewrite send_loop_spec. done.
Qed.

(** In stream mode [send] appends the bytes, whatever it had to cut. *)
Definition queued_bytes (q : list Segment) : list Z := mjoin (sg_data <$> q).

Lemma queued_bytes_app q1 q2 : queued_bytes (q1 ++ q2) = queued_bytes q1 ++ queued_bytes q2.
Proof. unfold queued_bytes. by rewrite fmap_app, join_app. Qed.

Lemma fragments_bound stream mss buffer : Forall (fun s => (length (sg_data s) <= mss)%nat) (fragments stream mss buffer).
Proof.
  rewrite Forall_lookup. intros j s Hj. unfold fragments in Hj. rewrite list_lookup_imap in Hj.
  apply fmap_Some in Hj as (d & Hd & ->).
  destruct (Forall_lookup_1 _ _ _ _ (chunks_Forall (fun _ => True) mss _ buffer ltac:(by apply Forall_forall)) Hd).
  done.
Qed.

Lemma send_extend_bytes mss buffer q :
  let '(rest, q') := send_extend mss buffer q in
  queued_bytes q ++ buffer = queued_bytes q' ++ rest /\
  (Forall (fun s => (length (sg_data s) <= mss)%nat) q -> Forall (fun s => (length (sg_data s) <= mss)%nat) q').
Proof.
  pose proof (send_extend_spec mss buffer q) as Hs. destruct (send_extend mss buffer q) as [rest q'].
  destruct Hs as (n & -> & [[-> ->]|(q0 & seg & -> & -> & Hl & _)]); [done|].
  split.
  - rewrite !queued_bytes_app. unfold queued_bytes. csimpl. ksimpl. rewrite !app_nil_r, <- !app_assoc.
    do 2 f_equal. by rewrite take_drop.
  - rewrite !Forall_app, !Forall_singleton. intros [? _]. split; [done|]. ksimpl.
    rewrite length_app, length_take. lia.
Qed.

Lemma send_stream buffer k : kcp_wf k -> k_stream k <> 0 -> buffer <> [] ->
  let mss := Z.to_nat (k_mss k) in
  let '(c, k') := send buffer k in
  (c = 0 /\ queued_bytes (k_snd_queue k') = queued_bytes (k_snd_queue k) ++ buffer \/
   c = -2 /\ exists n, queued_bytes (k_snd_queue k') = queued_bytes (k_snd_queue k) ++ take n buffer /\
     (255 * mss < length buffer - n)%nat) /\
  (Forall (fun s => (length (sg_data s) <= mss)%nat) (k_snd_queue k) ->
   Forall (fun s => (length (sg_data s) <= mss)%nat) (k_snd_queue k')).
Proof.
  intros Hwf Hs Hb mss. unfold send.
  pose proof (wf_mss _ Hwf) as Hm. pose proof (wf_mtu _ Hwf). unfold IKCP_OVERHEAD in Hm.
  assert (0 < mss)%nat by (subst mss; lia).
  destruct buffer as [|x0 l0]; [done|]. cbn [is_nil]. set (buffer := x0 :: l0) in *. cbn zeta. fold mss.
  destruct (Z.eqb_spec (k_stream k) 0); [done|]. cbn [negb].
  pose proof (send_extend_bytes mss buffer (k_snd_queue k)) as He.
  pose proof (send_extend_spec mss buffer (k_snd_queue k)) as Hn.
  destruct (send_extend mss buffer (k_snd_queue k)) as [rest q].
  destruct He as [He Hf]. destruct Hn as (n' & -> & _). ksimpl.
  destruct (Z.eqb_spec (k_stream k) 0); [done|]. cbn [negb andb].
  set (rest := drop n' buffer) in *.
  destruct (is_nil rest) eqn:En.
  { destruct rest; [|done]. ksimpl. rewrite app_nil_r in He. by auto. }
  destruct (Nat.eqb_spec mss 0); [lia|]. rewrite andb_false_r.
  fold (fragment_count mss (length rest)).
  destruct (255 <? fragment_count mss (length rest))%nat eqn:E255; to_prop; ksimpl.
  - split; [right|done]. split; [done|]. exists n'. split.
    + apply (app_inv_tail rest). rewrite <- He, <- app_assoc. subst rest. by rewrite take_drop.
    + assert (0 < length rest)%nat by (destruct rest; [done|cbn [length]; lia]).
      pose proof (fragment_count_tight mss (length rest) ltac:(done) ltac:(done)) as Ht.
      assert (255 * mss <= (fragment_count mss (length rest) - 1) * mss)%nat by (apply Nat.mul_le_mono_r; lia).
      assert (length rest = length buffer - n')%nat as El by (subst rest; apply length_drop). lia.
  - destruct (fragment_count_cover mss (length rest)) as [Hc H1']; [done|].
    destruct (Nat.eqb_spec (fragment_count mss (length rest)) 0); [lia|].
    rewrite send_loop_spec.
    change (q ++ imap _ (chunks mss (fragment_count mss (length rest)) rest))
      with (q ++ fragments (k_stream k) mss rest).
    split.
    + left. split; [done|]. rewrite queued_bytes_app. unfold queued_bytes at 2.
      rewrite fragments_data by done. by rewrite He.
    + intros Hq. apply Forall_app. split; [auto|apply fragments_bound].
Qed.

(** ** A message through both ends *)

(** The first message of a queue that starts with the contents of [buffer]'s
    fragments. *)
Lemma first_message_fragments mss buffer q rest :
  (0 < mss)%nat -> (fragment_count mss (length buffer) <= 255)%nat ->
  content <$> q = (content <$> fragments 0 mss buffer) ++ rest ->
  content <$> first_message q = content <$> fragments 0 mss buffer.
Proof.
  intros Hm Hc Hq. set (F := fragments 0 mss buffer) in *.
  pose proof (fun j s => fragments_frg mss buffer j s Hc) as Hfrg. fold F in Hfrg.
  pose proof (length_fragments 0 mss buffer) as Hl. fold F in Hl.
  destruct (fragment_count_cover mss (length buffer)) as [_ H1']; [done|].
  set (n := fragment_count mss (length buffer)) in *. clearbody n F. clear Hc.
  revert n q Hq Hl H1' Hfrg. induction F as [|s F IH]; intros n q Hq Hl Hn Hfrg; cbn [length] in Hl; [lia|].
  destruct q as [|x q]; [done|]. rewrite !fmap_cons in Hq. cbn [app] in Hq. injection Hq as Ex Ed Hq.
  pose proof (Hfrg 0%nat s eq_refl) as Ef. assert (content x = content s) as Ec by (unfold content; congruence).
  cbn [first_message]. rewrite Ex, Ef.
  destruct (Z.eqb_spec (Z.of_nat (n - 0 - 1)) 0) as [E|E].
  - destruct F; [|cbn [length] in Hl; lia]. csimpl. by rewrite Ec.
  - rewrite !fmap_cons, Ec. f_equal. apply (IH (n - 1)%nat); [done|lia|lia|].
    intros j y Hj. rewrite (Hfrg (S j) y Hj). f_equal. lia.
Qed.

Lemma content_data (q1 q2 : list Segment) : content <$> q1 = content <$> q2 -> sg_data <$> q1 = sg_data <$> q2.
Proof.
  revert q2; induction q1 as [|x q1 IH]; intros [|y q2] E; try done.
  rewrite !fmap_cons in *. injection E as E1 E2 E3. f_equal; [done|]. by apply IH.
Qed.

(** Reading a queue that starts with a whole message. *)
Lemma recv_message mss buffer room rest k :
  kcp_wf k -> (0 < mss)%nat -> (fragment_count mss (length buffer) <= 255)%nat ->
  content <$> k_rcv_queue k = (content <$> fragments 0 mss buffer) ++ rest ->
  zlen buffer <= zlen room ->
  fst (fst (recv room k)) = zlen buffer /\ take (length buffer) (snd (fst (recv room k))) = buffer.
Proof.
  intros Hwf Hm Hc Hq Hroom.
  pose proof (first_message_fragments mss buffer _ rest Hm Hc Hq) as Hf.
  pose proof (content_data _ _ Hf) as Hd.
  assert (mjoin (sg_data <$> first_message (k_rcv_queue k)) = buffer) as Hj.
  { rewrite Hd. by apply fragments_data. }
  assert (peek_sum (k_rcv_queue k) = zlen buffer) as Hsum by by rewrite peek_sum_first, Hj.
  pose proof (length_fragments 0 mss buffer) as Hlf.
  destruct (fragment_count_cover mss (length buffer)) as [_ H1']; [done|].
  assert (peek_size k = zlen buffer) as Hp.
  { unfold peek_size. pose proof (f_equal length Hq) as Hl. rewrite length_app, !length_fmap, Hlf in Hl.
    destruct (k_rcv_queue k) as [|x q] eqn:Ek; [cbn [length] in Hl; lia|]. cbn [head].
    destruct (fragments 0 mss buffer) as [|s F] eqn:EF; [cbn [length] in Hlf; lia|].
    rewrite !fmap_cons in Hq. cbn [app] in Hq. injection Hq as Ex _ _.
    pose proof (fragments_frg mss buffer 0 s Hc ltac:(by rewrite EF)) as Efrg.
    rewrite Ex. destruct (Z.eqb_spec (sg_frg s) 0) as [E|E].
    - cbn [peek_sum] in Hsum. rewrite Ex, E in Hsum. cbn in Hsum. lia.
    - rewrite Efrg. rewrite u8_id by (unfold is_u8; lia).
      destruct (Z.ltb_spec (zlen (x :: q)) (Z.of_nat (fragment_count mss (length buffer) - 0 - 1) + 1)); [|done].
      unfold zlen in *. lia. }
  pose proof (zlen_nonneg buffer).
  destruct (recv_spec room k Hwf) as [[Hx _]|[[Hx _]|(_ & Et & p & Er)]]; [lia..|].
  rewrite Et, Hj in Er. rewrite Er. cbn [fst snd]. split; [done|]. by apply take_app_length.
Qed.

(** ** Acknowledgements *)

Lemma chain_diff_at base a :
  is_u32 base -> -2147483648 <= a < 2147483648 -> _itimediff (u32 (base + a)) base = a.
Proof. intros Hb Ha. rewrite <- (u32_id base Hb) at 2. by apply chain_diff. Qed.

(** [parse_ack] marks the acknowledged segment, if it is in flight, and frees its
    payload; every other segment stays. *)
Lemma parse_ack_lookup sn k i s : kcp_wf k -> is_u32 sn -> k_snd_buf k !! i = Some s ->
  k_snd_buf (parse_ack sn k) !! i =
    Some (if sg_sn s =? sn then recycle_segment (s <| sg_acked := 1 |>) else s).
Proof.
  intros Hwf Hsn Hi. destruct (wf_snd _ Hwf) as [Hu Hnx Hc Hl _].
  pose proof (Hc _ _ Hi) as Esn. pose proof (lookup_lt_Some _ _ _ Hi) as Hlt. unfold zlen in *.
  unfold parse_ack. destruct (out_of_flight sn k) eqn:Eo.
  - rewrite Hi. destruct (Z.eqb_spec (sg_sn s) sn) as [E|]; [exfalso|done].
    rewrite <- E, Esn in Eo. unfold out_of_flight in Eo.
    rewrite Hnx, itimediff_exact, chain_diff_at in Eo by (done || lia).
    apply orb_true_iff in Eo as [Eo|Eo]; to_prop; lia.
  - rewrite (ack_position sn k Hwf Hsn Eo).
    destruct (in_flight_offset sn k Hwf Hsn Eo) as (o & Ho & ->).
    rewrite (scan_for_sn_chain _ _ _ 0 Hc Ho) by (unfold zlen; lia). ksimpl. cbn [Nat.add].
    destruct (decide (o = i)) as [->|Hne].
    + rewrite list_lookup_alter_eq, Hi, <- Esn, Z.eqb_refl. done.
    + rewrite list_lookup_alter_ne, Hi by done.
      destruct (Z.eqb_spec (sg_sn s) (u32 (k_snd_una k + Z.of_nat o))) as [E|]; [|done].
      exfalso. rewrite Esn in E. apply Hne. unfold u32 in E. zlia.
Qed.

(** How much of the buffer [una] removes: the distance from [snd_una], within
    the buffer. *)
Lemma una_count_chain una base q :
  sn_chain base q -> zlen q <= 65535 ->
  Z.of_nat (una_count una q) = Z.max 0 (Z.min (_itimediff una (u32 base)) (zlen q)).
Proof.
  revert base; induction q as [|s q IH]; intros base Hc Hl; cbn [una_count].
  { unfold zlen. cbn. lia. }
  apply sn_chain_cons in Hc as [Es Hc]. rewrite zlen_cons in *. pose proof (zlen_nonneg q). rewrite Es.
  pose proof (itimediff_range una (u32 base)) as Hr.
  destruct (Z.ltb_spec 0 (_itimediff una (u32 base))); [|lia].
  rewrite Nat2Z.inj_succ, (IH _ Hc) by lia.
  assert (_itimediff una (u32 (base + 1)) = _itimediff una (u32 base) - 1) as ->; [|lia].
  apply itimediff_intro; [unfold is_i32 in *; lia|].
  rewrite <- (u32_sub_l (_itimediff una (u32 base)) 1), itimediff_u32, u32_sub_l, u32_sub_r.
  replace (una - u32 base - 1) with (una - 1 - u32 base) by lia. rewrite u32_sub_r. f_equal. lia.
Qed.

Lemma una_shrink_spec una k : kcp_wf k ->
  let n := Z.max 0 (Z.min (_itimediff una (k_snd_una k)) (zlen (k_snd_buf k))) in
  let '(removed, k1) := parse_una una k in
  Z.of_nat removed = n /\
  k_snd_buf (shrink_buf k1) = drop (Z.to_nat n) (k_snd_buf k) /\
  k_snd_una (shrink_buf k1) = u32 (k_snd_una k + n) /\
  k_snd_nxt (shrink_buf k1) = k_snd_nxt k.
Proof.
  intros Hwf n. destruct (wf_snd _ Hwf) as [Hu Hnx Hc Hl _].
  pose proof (una_count_chain una _ _ Hc Hl) as Hn. rewrite u32_id in Hn by done. fold n in Hn.
  pose proof (una_count_le una (k_snd_buf k)) as Hle.
  rewrite parse_una_spec. set (m := una_count una (k_snd_buf k)) in *. cbn [fst snd].
  assert (Z.to_nat n = m) as -> by lia. unfold shrink_buf. ksimpl.
  pose proof (sn_chain_drop _ _ m Hc) as Hc'. unfold zlen in *.
  destruct (drop m (k_snd_buf k)) as [|s l] eqn:Ed; cbn [head]; ksimpl; split_and!; try done.
  - rewrite Hnx. do 2 f_equal. apply (f_equal length) in Ed. rewrite length_drop in Ed. cbn in Ed. lia.
  - rewrite (Hc' 0%nat s eq_refl). f_equal. lia.
Qed.

(** ** Round-trip times *)

(** Estimates below [2^28] ms never wrap. *)
Definition rtt_small k : Prop := 0 <= k_rx_srtt k < 268435456 /\ 0 <= k_rx_rttvar k < 268435456.

(** RFC 6298 with shifts: the smoothed RTT moves by an eighth of the error, the
    variance by a quarter (a thirty-second below the expected range). *)
Definition rtt_estimate (rtt srtt rttvar : Z) : Z * Z :=
  if srtt =? 0 then (rtt, rtt / 2)
  else
    let srtt' := srtt + (rtt - srtt) / 8 in
    let weight := if rtt <? srtt' - rttvar then 32 else 4 in
    (srtt', rttvar + (Z.abs (rtt - srtt) - rttvar) / weight).

Lemma update_ack_spec rtt k : kcp_wf k -> rtt_small k -> 0 <= rtt < 268435456 ->
  let '(srtt, rttvar) := rtt_estimate rtt (k_rx_srtt k) (k_rx_rttvar k) in
  let k' := update_ack rtt k in
  k_rx_srtt k' = srtt /\ k_rx_rttvar k' = rttvar /\ rtt_small k' /\
  k_rx_rto k' = Z.min (Z.max (k_rx_minrto k) (srtt + Z.max (k_interval k) (4 * rttvar))) IKCP_RTO_MAX.
Proof.
  intros Hwf [Hs Hv] Hr. unfold rtt_estimate, update_ack, rtt_small.
  assert (forall x n, 0 <= n -> Z.shiftr x n = x / 2 ^ n) as Hsh by (intros; by apply Z.shiftr_div_pow2).
  pose proof (wf_interval _ Hwf) as Hint.
  destruct (Z.eqb_spec (k_rx_srtt k) 0) as [E|E]; cbn zeta; ksimpl.
  - rewrite (Hsh rtt 1) by lia. change (2 ^ 1) with 2.
    assert (0 <= rtt / 2 < 134217728) by zlia.
    split_and!; try lia; try done.
    unfold ushl. rewrite Z.shiftl_mul_pow2 by lia. change (2 ^ 2) with 4.
    rewrite !(u32_id (rtt / 2)), (u32_id rtt), u32_id by (unfold is_u32; lia).
    unfold _ibound_, wadd32. rewrite imax_max, imax_max, imin_min.
    rewrite u32_id by (unfold is_u32; lia). f_equal. f_equal. f_equal. lia.
  - set (d := rtt - k_rx_srtt k) in *.
    assert (isub rtt (k_rx_srtt k) = d) as -> by (unfold isub; apply i32_id; unfold is_i32; lia).
    rewrite (Hsh d 3) by lia. change (2 ^ 3) with 8.
    assert (0 <= k_rx_srtt k + d / 8 < 268435456) as Hs' by (subst d; zlia).
    assert (iadd (k_rx_srtt k) (d / 8) = k_rx_srtt k + d / 8) as -> by (apply i32_id; unfold is_i32; lia).
    assert ((if d <? 0 then i32 (- d) else d) = Z.abs d) as ->.
    { destruct (Z.ltb_spec d 0); [rewrite i32_id by (unfold is_i32; lia)|]; lia. }
    unfold isub. rewrite (i32_id (k_rx_srtt k + d / 8 - k_rx_rttvar k)) by (unfold is_i32; lia).
    rewrite (i32_id (Z.abs d - k_rx_rttvar k)) by (unfold is_i32; lia).
    rewrite !Hsh by lia. change (2 ^ 5) with 32. change (2 ^ 2) with 4.
    assert (forall w, w = 32 \/ w = 4 -> 0 <= k_rx_rttvar k + (Z.abs d - k_rx_rttvar k) / w < 268435456) as Hw.
    { intros w [->| ->]; subst d; zlia. }
    assert (forall v, 0 <= v < 268435456 -> 
      _ibound_ (k_rx_minrto k) (wadd32 (u32 (k_rx_srtt k + d / 8)) (_imax_ (k_interval k) (ushl (u32 v) 2))) IKCP_RTO_MAX
      = Z.min (Z.max (k_rx_minrto k) (k_rx_srtt k + d / 8 + Z.max (k_interval k) (4 * v))) IKCP_RTO_MAX) as Hrto.
    { intros v Hv'. unfold ushl. rewrite Z.shiftl_mul_pow2 by lia. change (2 ^ 2) with 4.
      rewrite (u32_id v), (u32_id (k_rx_srtt k + d / 8)), (u32_id (v * 4)) by (unfold is_u32; lia).
      unfold _ibound_, wadd32. rewrite !imax_max, imin_min.
      rewrite u32_id by (unfold is_u32; lia). f_equal. f_equal. lia. }
    destruct (rtt <? k_rx_srtt k + d / 8 - k_rx_rttvar k); cbn zeta; ksimpl.
    + specialize (Hw 32 ltac:(by left)). unfold iadd. rewrite !i32_id by (unfold is_i32; lia).
      split_and!; try done; try lia. by apply Hrto.
    + specialize (Hw 4 ltac:(by right)). unfold iadd. rewrite !i32_id by (unfold is_i32; lia).
      split_and!; try done; try lia. by apply Hrto.
Qed.

End Kcp.

(** ** Message boundaries

    In message mode the segments of a conversation are the fragments of the
    sender's messages one after the other.  A receiver of such a sequence hands
    the messages out whole: [recv] never returns part of one, nor two at once. *)
(** The index of the first segment of the [j]-th message. *)
Fixpoint boundary (mss : nat) (msg : nat -> list Z) (j : nat) : Z :=
  match j with
  | O => 0
  | S j => boundary mss msg j + Z.of_nat (fragment_count mss (length (msg j)))
  end.

(** [src] is the sequence of the fragments of [msg 0], [msg 1] and so on, each of
    a size [send] accepts. *)
Record message_source (mss : nat) (msg : nat -> list Z) (src : Z -> Z * list Z) : Prop := {
  ms_mss : (0 < mss)%nat;
  ms_count : forall j, (fragment_count mss (length (msg j)) <= 255)%nat;
  ms_src : forall j i s, fragments 0 mss (msg j) !! i = Some s -> src (boundary mss msg j + Z.of_nat i) = content s;
}.

Section Messages.
Context {O C : Type} `{Output O, Clock C}.
Context (mss : nat) (msg : nat -> list Z) (src : Z -> Z * list Z) (Hsrc : message_source mss msg src).
Implicit Types (k : Kcp O C).

Lemma boundary_nonneg j : 0 <= boundary mss msg j.
Proof using. induction j; cbn; lia. Qed.

(** The segments of the [j]-th message. *)
Lemma src_message j : src <$> seqZ (boundary mss msg j) (Z.of_nat (fragment_count mss (length (msg j)))) =
  content <$> fragments 0 mss (msg j).
Proof using All.
  apply list_eq. intros i. rewrite !list_lookup_fmap.
  pose proof (length_fragments 0 mss (msg j)) as Hl.
  destruct (fragments 0 mss (msg j) !! i) as [s|] eqn:E.
  - pose proof (lookup_lt_Some _ _ _ E). rewrite lookup_seqZ_lt by lia. cbn. f_equal. by apply ms_src.
  - apply lookup_ge_None in E. rewrite lookup_seqZ_ge by lia. done.
Qed.

Lemma src_messages j : mjoin (snd <$> (src <$> seqZ 0 (boundary mss msg j))) = mjoin (msg <$> seq 0 j).
Proof using All.
  induction j as [|j IH]; [done|]. rewrite seq_S, fmap_app, join_app, <- IH. cbn [boundary].
  rewrite seqZ_app by (apply boundary_nonneg || lia). rewrite !fmap_app, join_app. f_equal.
  rewrite Z.add_0_l, src_message, <- list_fmap_compose. cbn [Nat.add]. csimpl. rewrite app_nil_r.
  apply fragments_data, Hsrc.
Qed.

(** At a message boundary [recv] takes one whole message or nothing. *)
Lemma recv_taken_message j buffer k :
  content <$> k_rcv_queue k = src <$> seqZ (boundary mss msg j) (zlen (k_rcv_queue k)) ->
  recv_taken buffer k = [] \/ content <$> recv_taken buffer k = content <$> fragments 0 mss (msg j).
Proof using All.
  intros Hq. unfold recv_taken. destruct (Z.ltb_spec (peek_size k) 0) as [|Hp]; [by left|].
  destruct (Z.ltb_spec (zlen buffer) (peek_size k)); [by left|right]. cbn [orb].
  set (n := fragment_count mss (length (msg j))).
  assert (1 <= n)%nat as Hn by (apply fragment_count_cover, Hsrc).
  assert (Z.of_nat n <= zlen (k_rcv_queue k)) as Hlen.
  { revert Hp. unfold peek_size. destruct (k_rcv_queue k) as [|s q] eqn:Ek; [cbn; lia|]. cbn [head].
    assert (sg_frg s = Z.of_nat (n - 1)) as Efrg.
    { destruct (lookup_lt_is_Some_2 (fragments 0 mss (msg j)) 0) as [x Hx]; [rewrite length_fragments; lia|].
      pose proof (ms_src _ _ _ Hsrc j 0%nat x Hx) as Es. rewrite Z.add_0_r in Es.
      pose proof (fragments_frg _ _ _ _ (ms_count _ _ _ Hsrc j) Hx) as Ef.
      pose proof (f_equal (fun l => l !! 0%nat) Hq) as E0. cbn beta in E0.
      rewrite !list_lookup_fmap, lookup_seqZ_lt, Z.add_0_r in E0 by (rewrite zlen_cons; pose proof (zlen_nonneg q); lia).
      cbn [fmap option_fmap option_map lookup list_lookup] in E0. injection E0 as E0. apply (f_equal fst) in E0. cbn [content fst] in E0. rewrite E0, Es.
      cbn [content fst]. rewrite Ef. f_equal. fold n. lia. }
    rewrite Efrg. pose proof (zlen_nonneg q). pose proof (ms_count _ _ _ Hsrc j) as Hc. fold n in Hc.
    rewrite u8_id by (unfold is_u8; lia).
    destruct (Z.eqb_spec (Z.of_nat (n - 1)) 0); [rewrite zlen_cons; lia|].
    destruct (Z.ltb_spec (zlen (s :: q)) (Z.of_nat (n - 1) + 1)) as [Hlt|Hge]; lia. }
  apply (first_message_fragments mss (msg j) _ (src <$> seqZ (boundary mss msg j + Z.of_nat n) (zlen (k_rcv_queue k) - Z.of_nat n)));
    [apply Hsrc|apply Hsrc|].
  rewrite Hq, <- src_message, <- fmap_app, <- seqZ_app by lia. do 2 f_equal. lia.
Qed.

(** The receiver stands at a message boundary. *)
Definition at_boundary (r : list (Z * list Z) * Kcp O C) : Prop := exists j, zlen (fst r) = boundary mss msg j.

Lemma rx_step_boundary op r : rx_inv src r -> at_boundary r -> at_boundary (snd (rx_step op r)).
Proof using All.
  destruct r as [log k]. intros Hi [j Hj]. cbn [fst] in Hj. destruct op as [seg data|buffer]; cbn [rx_step].
  - destruct (parse_data seg data k). by exists j.
  - pose proof (rx_queue_src src log k Hi) as Hq. rewrite Hj in Hq.
    destruct (recv_taken_message j buffer k Hq) as [Ht|Ht].
    + destruct (recv buffer k) as [[? ?] ?]. exists j. cbn [fst snd]. rewrite Ht. cbn. by rewrite app_nil_r.
    + destruct (recv buffer k) as [[? ?] ?]. exists (S j). cbn [fst snd boundary].
      rewrite Ht, zlen_app, Hj. f_equal. unfold zlen. by rewrite length_fmap, length_fragments.
Qed.

Lemma rx_run_boundary ops r : receiver_wf src r -> rx_genuine src ops r -> at_boundary r ->
  at_boundary (snd (rx_run ops r)).
Proof using All.
  revert r; induction ops as [|op ops IH]; intros r Hr Hg Hb; cbn [rx_run rx_genuine] in *; [done|].
  destruct Hg as [Hop Hg]. pose proof (rx_run_inv src [op] r Hr) as Hstep. cbn [rx_run rx_genuine] in Hstep.
  specialize (Hstep (conj Hop I)). pose proof (rx_step_boundary op r (proj2 Hr) Hb) as Hb1.
  destruct (rx_step op r) as [out1 r1]. cbn [snd] in *.
  specialize (IH r1 (proj1 Hstep) Hg Hb1). by destruct (rx_run ops r1).
Qed.
End Messages.
