(* ===== verification/KcpTimer.v ===== *)
(** The specifications of what KCP does in time and of its window.

    What [flush] returns (the delay until the next retransmission), when
    [update] flushes and where it leaves its timer, what [check] answers, how
    far the send buffer grows, and the verdict of [input] as a function of the
    conversation number and the packet alone. *)
From stdpp Require Import base list.
From Stdlib Require Import ZArith Lia.
From S2P Require Import Prelude Word Env Segment Queue RingBuffer Heap KcpState KcpSend KcpFlush KcpInput.
From S2P Require Import KcpInv KcpWriter KcpFlushInv KcpSink.
Local Open Scope Z_scope.

Section Timer.
Context {O C : Type} `{Output O, Clock C}.
Implicit Types (k : Kcp O C) (w : Writer O).

(** ** The delay [flush] returns *)

Lemma nearest_rto_bound n rto (s : Scan O C) :
  is_i32 rto -> 0 < sc_next_update s <= n -> 0 < sc_next_update (nearest_rto rto s) <= n.
Proof.
  intros Hr Hs. unfold is_i32, nearest_rto in *. destruct (Z.ltb_spec 0 rto); cbn [andb]; [|done].
  destruct (Z.ltb_spec (u32 rto) (sc_next_update s)); [|done]. ssimpl.
  split; [|lia]. unfold u32 in *. zlia.
Qed.

Lemma note_scanned_next seg rto (s : Scan O C) :
  sc_next_update (note_scanned seg rto s) = sc_next_update s.
Proof. done. Qed.

Lemma retransmit_next cx (s : Scan O C) seg :
  sc_next_update (snd (fst (retransmit cx s seg))) = sc_next_update s.
Proof. unfold retransmit. repeat case_goal; done. Qed.

Lemma transmit_next cx (s : Scan O C) seg :
  sc_next_update (fst (transmit cx s seg)) = sc_next_update s.
Proof. unfold transmit. destruct (now_ms (sc_clock s)). cbn [fst]. case_goal; done. Qed.

Lemma scan_segment_next n cx (s : Scan O C) seg :
  0 < sc_next_update s <= n -> 0 < sc_next_update (fst (scan_segment cx s seg)) <= n.
Proof.
  intros Hs. unfold scan_segment. case_goal; [done|].
  set (s1 := if would_send cx s seg then _ else s).
  assert (sc_next_update s1 = sc_next_update s) as E1.
  { subst s1. case_goal; [|done]. destruct (has_room (sc_w s)). case_goal; done. }
  clearbody s1.
  destruct (sc_backpressured s1); cbn [fst].
  { rewrite note_scanned_next. apply nearest_rto_bound; [apply itimediff_range|]. by rewrite E1. }
  pose proof (retransmit_next cx s1 seg) as E2.
  destruct (retransmit cx s1 seg) as [[needsend s2] seg2]. cbn [fst snd] in E2.
  destruct needsend.
  - pose proof (transmit_next cx s2 seg2) as E3. destruct (transmit cx s2 seg2) as [s3 seg3].
    cbn [fst] in *. rewrite note_scanned_next. apply nearest_rto_bound; [apply itimediff_range|].
    by rewrite E3, E2, E1.
  - cbn [fst]. rewrite note_scanned_next. apply nearest_rto_bound; [apply itimediff_range|].
    by rewrite E2, E1.
Qed.

(** The timer fields, which no stage of [flush] writes. *)
Definition same_timer k k' : Prop :=
  k_interval k' = k_interval k /\ k_ts_flush k' = k_ts_flush k /\ k_updated k' = k_updated k.

Lemma flush_head_timer k :
  let '(_, _, _, k1) := flush_head k in same_timer k k1.
Proof.
  unfold flush_head, flush_acks. destruct (flush_acks_loop _ _ _ _ _ _ _ _) as [[seg1 w1] n1].
  set (k1 := if (_ =? _)%nat then _ else _).
  assert (same_timer k k1) as E1 by (subst k1; case_goal; done). clearbody k1.
  assert (same_timer k1 (probe_timer k1)) as E2.
  { unfold probe_timer. destruct (now_ms (k_clock k1)). repeat case_goal; done. }
  set (k2 := probe_timer k1) in *. clearbody k2.
  unfold flush_probes. destruct (flush_probe _ _ IKCP_ASK_SEND _ _ _ _) as [[seg2 w2] d2].
  destruct (flush_probe _ _ IKCP_ASK_TELL _ _ _ _) as [[seg3 w3] d3].
  unfold admit_new. destruct (admit_loop _ _ _ _ _ _ _) as [[[? ?] ?] ?].
  unfold same_timer in *. ksimpl. intuition congruence.
Qed.

Lemma flush_segments_timer ft seg resent ub n w k :
  let '(s, k1) := flush_segments ft seg resent ub n w k in
  same_timer k k1 /\ (0 < k_interval k -> 0 < sc_next_update s <= k_interval k).
Proof.
  unfold flush_segments. destruct (now_ms (k_clock k)) as [t c].
  set (skipped := flush_skipped _ _ _ _).
  destruct (is_full ft); [|split; [done|]; intros; cbn; lia].
  set (cx := scan_ctx _ _ _ _ _). unfold q_iter_mut_from.
  pose proof (q_iter_mut_inv (fun s : Scan O C => 0 < sc_next_update s <= k_interval k)
    (fun _ => True) (fun _ => True) (scan_segment cx) (scan_start w c t k)
    (drop skipped (k_snd_buf k))) as Hi.
  destruct (q_iter_mut (scan_segment cx) _ _) as [s q]. cbn [fst] in Hi. split; [done|].
  intros Hpos. apply Hi; [|cbn; lia|by apply Forall_forall].
  intros s1 x Hs1 _. split; [|done]. by apply scan_segment_next.
Qed.

Lemma flush_timer ft k :
  same_timer k (snd (flush ft k)) /\
  (0 < k_interval k -> 0 < fst (flush ft k) <= k_interval k).
Proof.
  unfold flush. pose proof (flush_head_timer k) as Hh.
  destruct (flush_head k) as [[[seg w] n] k1].
  pose proof (flush_segments_timer ft seg (flush_resent k1) (fs_unsent (k_flush_scan k1)) n w k1) as Hs.
  destruct (flush_segments _ _ _ _ _ _ _) as [s k2]. destruct Hs as [Hs Hn].
  unfold flush_tail. cbn [fst snd]. destruct Hh as (E1 & E2 & E3), Hs as (E4 & E5 & E6).
  split; [|intros; rewrite <- E1; apply Hn; lia].
  unfold same_timer. ksimpl. rewrite <- E1, <- E2, <- E3, <- E4, <- E5, <- E6.
  unfold flush_cwnd_update. repeat case_goal; done.
Qed.

(** ** [update] *)

(** Whether [update] flushes at time [now]: the first call, a due timer, or a
    timer more than ten seconds ahead. *)
Definition update_due (now : Z) k : bool :=
  let slap := _itimediff now (k_ts_flush k) in
  (k_updated k =? 0) || (0 <=? slap) || (slap <? -10000).

Lemma itimediff_later now n : is_i32 n -> _itimediff (wadd32 now n) now = n.
Proof. intros. apply itimediff_intro; [done|]. unfold wadd32. rewrite u32_sub_l. f_equal. lia. Qed.

Lemma itimediff_step now ts n : is_i32 (_itimediff now ts - n) ->
  _itimediff now (wadd32 ts n) = _itimediff now ts - n.
Proof.
  intros Hr. apply itimediff_intro; [done|].
  rewrite <- (u32_sub_l (_itimediff now ts)), itimediff_u32. unfold wadd32.
  rewrite u32_sub_r, u32_sub_l. f_equal. lia.
Qed.

Lemma itimediff_opp a b : -2147483648 < _itimediff a b -> _itimediff b a = - _itimediff a b.
Proof.
  intros Hl. pose proof (itimediff_range a b) as Hr. apply itimediff_intro.
  - unfold is_i32 in *. lia.
  - replace (- _itimediff a b) with (0 - _itimediff a b) by lia.
    rewrite <- (u32_sub_r 0 (_itimediff a b)), itimediff_u32, u32_sub_r. f_equal. lia.
Qed.

(** Where a flushing [update] leaves the timer, from where it found it. *)
Definition next_flush (now interval ts : Z) : Z :=
  let ts := wadd32 ts interval in
  if 0 <=? _itimediff now ts then wadd32 now interval else ts.

Lemma next_flush_bound now interval ts :
  10 <= interval <= 5000 -> 0 <= _itimediff now ts ->
  0 < _itimediff (next_flush now interval ts) now <= interval.
Proof.
  intros Hi Hs. pose proof (itimediff_range now ts) as Hr. unfold is_i32 in *. unfold next_flush.
  pose proof (itimediff_step now ts interval ltac:(unfold is_i32; lia)) as E. rewrite E.
  destruct (Z.leb_spec 0 (_itimediff now ts - interval)).
  - rewrite itimediff_later by (unfold is_i32; lia). lia.
  - rewrite itimediff_opp, E by lia. lia.
Qed.

Lemma update_spec k : kcp_wf k ->
  let '(now, c) := now_ms (k_clock k) in
  if update_due now k then
    exists ts, 0 < _itimediff ts now <= k_interval k /\
      update k = snd (flush Full (k <| k_clock := c |>
        <| k_updated := if k_updated k =? 0 then 1 else k_updated k |> <| k_ts_flush := ts |>)) /\
      k_ts_flush (update k) = ts
  else update k = k <| k_clock := c |> /\ 0 < _itimediff (k_ts_flush k) now <= 10000.
Proof.
  intros Hwf. pose proof (wf_interval _ Hwf) as Hint. unfold update, update_due.
  destruct (now_ms (k_clock k)) as [now c].
  assert (forall ts u, 0 <= _itimediff now ts ->
    exists ts', 0 < _itimediff ts' now <= k_interval k /\
      snd (flush Full (k <| k_clock := c |> <| k_updated := u |> <| k_ts_flush := next_flush now (k_interval k) ts |>))
      = snd (flush Full (k <| k_clock := c |> <| k_updated := u |> <| k_ts_flush := ts' |>)) /\
      k_ts_flush (snd (flush Full (k <| k_clock := c |> <| k_updated := u |> <| k_ts_flush := next_flush now (k_interval k) ts |>))) = ts') as Hgo.
  { intros ts u Hts. exists (next_flush now (k_interval k) ts). split_and!; try done.
    1-2: by apply next_flush_bound. apply flush_timer. }
  assert (0 <= _itimediff now now) as Hnow by (rewrite itimediff_refl; lia).
  ksimpl. destruct (Z.eqb_spec (k_updated k) 0) as [E|E]; cbn [orb]; ksimpl.
  - rewrite itimediff_refl. cbn. ksimpl. specialize (Hgo now 1 Hnow). unfold next_flush in Hgo.
    case_goal; exact Hgo.
  - set (slap := _itimediff now (k_ts_flush k)).
    destruct (Z.leb_spec (-10000) slap); destruct (Z.ltb_spec slap 10000); cbn [andb negb].
    + destruct (Z.leb_spec 0 slap); cbn [orb].
      * specialize (Hgo (k_ts_flush k) (k_updated k) ltac:(done)). unfold next_flush in Hgo. ksimpl.
        case_goal; exact Hgo.
      * destruct (Z.ltb_spec slap (-10000)); [lia|]. split; [done|].
        rewrite itimediff_opp; subst slap; lia.
    + specialize (Hgo now (k_updated k) Hnow). unfold next_flush in Hgo.
      assert ((0 <=? slap) = true) as -> by (apply Z.leb_le; lia).
      cbn [orb]. ksimpl. change (0 <=? 0) with true. cbn iota. case_goal; exact Hgo.
    + specialize (Hgo now (k_updated k) Hnow). unfold next_flush in Hgo.
      assert ((slap <? -10000) = true) as -> by by apply Z.ltb_lt.
      rewrite orb_true_r. ksimpl. change (0 <=? 0) with true. cbn iota. case_goal; exact Hgo.
    + specialize (Hgo now (k_updated k) Hnow). lia.
Qed.

(** ** [check] *)

Lemma check_loop_spec current q : forall tm, is_i32 tm -> 0 < tm ->
  match check_loop current tm q with
  | inl t => t = current /\ Exists (fun s => _itimediff (sg_resendts s) current <= 0) q
  | inr tm' =>
      0 < tm' <= tm /\ Forall (fun s => tm' <= _itimediff (sg_resendts s) current) q
  end.
Proof.
  induction q as [|s q IH]; intros tm Ht Hp; cbn [check_loop].
  { split; [lia|constructor]. }
  pose proof (itimediff_range (sg_resendts s) current) as Hr.
  destruct (Z.leb_spec (_itimediff (sg_resendts s) current) 0); [by split; [|left]|].
  set (tm1 := if _itimediff (sg_resendts s) current <? tm then _ else tm).
  assert (is_i32 tm1 /\ 0 < tm1 <= tm /\ tm1 <= _itimediff (sg_resendts s) current) as (H1' & H2' & H3').
  { subst tm1. destruct (Z.ltb_spec (_itimediff (sg_resendts s) current) tm); unfold is_i32 in *; lia. }
  specialize (IH tm1 H1' ltac:(lia)). destruct (check_loop current tm1 q).
  - destruct IH. split; [done|by right].
  - destruct IH as [? Hq]. split; [lia|]. constructor; [lia|done].
Qed.

(** Whether anything is due at [now]: the timer, or a segment of the buffer. *)
Definition check_due (now : Z) k : bool :=
  update_due now k || (10000 <=? _itimediff now (k_ts_flush k))
  || existsb (fun s => _itimediff (sg_resendts s) now <=? 0) (k_snd_buf k).

Lemma existsb_Exists {A} (p : A -> bool) (P : A -> Prop) l :
  (forall x, p x = true <-> P x) -> existsb p l = true <-> Exists P l.
Proof.
  intros Hp. rewrite Exists_exists. rewrite existsb_exists. setoid_rewrite Hp.
  by setoid_rewrite list_elem_of_In.
Qed.

Lemma wadd_now_neq now n : is_u32 now -> 0 < n < 4294967296 -> wadd32 now n <> now.
Proof. unfold is_u32, wadd32, u32. intros. zlia. Qed.

Lemma check_spec k : kcp_wf k ->
  let now := fst (now_ms (k_clock k)) in
  let t := fst (check k) in
  (check_due now k = true -> t = now) /\
  (check_due now k = false ->
    0 < _itimediff t now <= k_interval k /\
    _itimediff t now <= _itimediff (k_ts_flush k) now /\
    Forall (fun s => _itimediff t now <= _itimediff (sg_resendts s) now) (k_snd_buf k)).
Proof.
  intros Hwf. pose proof (wf_interval _ Hwf) as Hint. unfold check, check_due, update_due.
  destruct (now_ms (k_clock k)) as [now c]. cbn [fst].
  destruct (Z.eqb_spec (k_updated k) 0); ksimpl.
  { rewrite (proj2 (Z.eqb_eq _ _)) by done. cbn. done. }
  rewrite (proj2 (Z.eqb_neq _ _)) by done. cbn [orb].
  set (slap := _itimediff now (k_ts_flush k)).
  rewrite (orb_comm (10000 <=? slap)).
  destruct (Z.ltb_spec slap (-10000)); cbn [orb].
  { rewrite itimediff_refl. cbn. rewrite orb_true_r. done. }
  destruct (Z.leb_spec 10000 slap); cbn [orb].
  { rewrite itimediff_refl. cbn. rewrite !orb_true_r. done. }
  fold slap. destruct (Z.leb_spec 0 slap); cbn [orb fst]; [done|].
  pose proof (check_loop_spec now (k_snd_buf k) i32_MAX ltac:(unfold is_i32, i32_MAX; lia) ltac:(unfold i32_MAX; lia)) as Hl.
  assert (_itimediff (k_ts_flush k) now = - slap) as Eo by (apply itimediff_opp; subst slap; lia).
  rewrite Eo.
  destruct (check_loop now i32_MAX (k_snd_buf k)) as [t|tm]; cbn [fst].
  - destruct Hl as [-> Hex]. split; [done|]. intros Hf. exfalso.
    apply not_true_iff_false in Hf. apply Hf.
    apply (existsb_Exists _ (fun s => _itimediff (sg_resendts s) now <= 0)); [|done]. intros; apply Z.leb_le.
  - destruct Hl as [Htm Hall]. split.
    + intros Hex. exfalso.
      apply (existsb_Exists _ (fun s => _itimediff (sg_resendts s) now <= 0)) in Hex; [|intros; apply Z.leb_le].
      rewrite Exists_exists in Hex. destruct Hex as (s & Hs & Hle).
      rewrite Forall_forall in Hall. specialize (Hall s Hs). cbv beta in *. lia.
    + intros _. unfold i32_MAX in Htm.
      set (m := if - slap <=? tm then u32 (- slap) else u32 tm).
      assert (m = Z.min (- slap) tm) as Em.
      { subst m. destruct (Z.leb_spec (- slap) tm); rewrite u32_id by (unfold is_u32; lia); lia. }
      set (m' := if k_interval k <=? m then k_interval k else m).
      assert (m' = Z.min (k_interval k) m) as Em'.
      { subst m'. destruct (Z.leb_spec (k_interval k) m); lia. }
      rewrite itimediff_later by (unfold is_i32; lia).
      split_and!; try lia. eapply Forall_impl; [exact Hall|]. cbv beta. lia.
Qed.

(** ** The verdict of [input] *)

(** What [input] answers to a packet, from its bytes and the conversation
    number: 0, or the code of its first malformed segment.  The bytes left after
    the last whole header are not looked at. *)
Fixpoint packet_verdict (fuel : nat) (conv : Z) (data : list Z) : Z :=
  match fuel with
  | 0%nat => 0
  | S fuel =>
      match decode data with
      | None => 0
      | Some (h, rest) =>
          if negb (h_conv h =? conv) then -1
          else if zlen rest <? h_len h then -2
          else if negb (known_cmd (h_cmd h)) then -3
          else packet_verdict fuel conv (drop (Z.to_nat (h_len h)) rest)
      end
  end.

Lemma input_segment_verdict pt h rest l k :
  match input_segment pt h rest l k with
  | inl (c, k') =>
      k' = k /\
      ((h_conv h <> k_conv k /\ c = -1) \/
       (h_conv h = k_conv k /\ zlen rest < h_len h /\ c = -2) \/
       (h_conv h = k_conv k /\ h_len h <= zlen rest /\ known_cmd (h_cmd h) = false /\ c = -3))
  | inr (_, rest', _) =>
      h_conv h = k_conv k /\ h_len h <= zlen rest /\ known_cmd (h_cmd h) = true /\
      rest' = drop (Z.to_nat (h_len h)) rest
  end.
Proof.
  unfold input_segment.
  destruct (Z.eqb_spec (h_conv h) (k_conv k)) as [Ec|Ec]; cbn [negb]; [|split; [done|]; by left].
  destruct (Z.ltb_spec (zlen rest) (h_len h)); [split; [done|]; right; by left|].
  destruct (known_cmd (h_cmd h)) eqn:Ek; cbn [negb]; [|split; [done|]; right; by right].
  destruct (parse_una (h_una h) _) as [n k1].
  destruct (h_cmd h =? IKCP_CMD_ACK); [destruct (parse_fastack _ _ _); done|].
  destruct (h_cmd h =? IKCP_CMD_PUSH); [done|]. destruct (h_cmd h =? IKCP_CMD_WASK); done.
Qed.

Lemma input_loop_verdict fuel pt data l k :
  match input_loop fuel pt data l k with
  | inl (c, _) => c <> 0 /\ packet_verdict fuel (k_conv k) data = c
  | inr _ => packet_verdict fuel (k_conv k) data = 0
  end.
Proof.
  revert data l k; induction fuel as [|fuel IH]; intros data l k; cbn [input_loop packet_verdict]; [done|].
  destruct (decode data) as [[h rest]|]; [|done].
  pose proof (input_segment_verdict pt h rest l k) as Hv.
  pose proof (input_segment_quiet pt h rest l k) as Hq.
  destruct (input_segment pt h rest l k) as [[c k']|[[l' rest'] k']].
  - destruct Hv as [_ [[Ec ->]|[(Ec & Hl & ->)|(Ec & Hl & Ek & ->)]]].
    + by rewrite (proj2 (Z.eqb_neq _ _) Ec).
    + rewrite Ec, Z.eqb_refl. cbn [negb]. by rewrite (proj2 (Z.ltb_lt _ _) Hl).
    + rewrite Ec, Z.eqb_refl, Ek. cbn [negb]. by rewrite (proj2 (Z.ltb_ge _ _) Hl).
  - destruct Hv as (Ec & Hl & Ek & ->). destruct Hq as (Eq & _).
    rewrite Ec, Z.eqb_refl, Ek, (proj2 (Z.ltb_ge _ _) Hl). cbn [negb]. rewrite <- Eq. apply IH.
Qed.

Lemma input_verdict data pt nd k :
  fst (input data pt nd k) =
    if zlen data <? IKCP_OVERHEAD then -1 else packet_verdict (input_fuel data) (k_conv k) data.
Proof.
  unfold input. destruct (zlen data <? IKCP_OVERHEAD); [done|].
  pose proof (input_loop_verdict (input_fuel data) pt data input_start k) as Hv.
  destruct (input_loop _ _ _ _ _) as [[c k']|[l' k']]; [by destruct Hv|]. by rewrite Hv.
Qed.

(** The first segment decides whether anything happens at all. *)
Lemma input_first_segment data pt nd k :
  match decode data with
  | None => input data pt nd k = (-1, k)
  | Some (h, rest) =>
      (if negb (h_conv h =? k_conv k) then input data pt nd k = (-1, k)
       else if zlen rest <? h_len h then input data pt nd k = (-2, k)
       else if negb (known_cmd (h_cmd h)) then input data pt nd k = (-3, k)
       else True)
  end.
Proof.
  destruct (decode data) as [[h rest]|] eqn:Hd.
  - assert ((zlen data <? IKCP_OVERHEAD) = false) as El.
    { apply Z.ltb_ge. unfold zlen, IKCP_OVERHEAD. destruct (Nat.ltb_spec (length data) OVERHEAD) as [Hl|]; [|unfold OVERHEAD in *; lia].
      rewrite decode_short in Hd by done. done. }
    unfold input. rewrite El. unfold input_fuel. cbn [input_loop]. rewrite Hd. unfold input_segment.
    destruct (negb (h_conv h =? k_conv k)); [done|]. destruct (zlen rest <? h_len h); [done|].
    by destruct (negb (known_cmd (h_cmd h))).
  - unfold input. assert ((zlen data <? IKCP_OVERHEAD) = true) as ->; [|done].
    apply Z.ltb_lt. unfold zlen, IKCP_OVERHEAD. destruct (Nat.leb_spec OVERHEAD (length data)) as [Hl|]; [|unfold OVERHEAD in *; lia].
    destruct (decode_long data Hl) as [h E]. congruence.
Qed.

(** More fuel than bytes makes no difference. *)
Lemma packet_verdict_fuel conv : forall f1 f2 data, (length data <= f1)%nat -> (length data <= f2)%nat ->
  packet_verdict f1 conv data = packet_verdict f2 conv data.
Proof.
  induction f1 as [|f1 IH]; intros f2 data Hf1 Hf2.
  { destruct data; [|cbn in Hf1; lia]. destruct f2; [done|]. cbn [packet_verdict]. by rewrite decode_short by (unfold OVERHEAD; cbn; lia). }
  destruct f2 as [|f2].
  { destruct data; [|cbn in Hf2; lia]. cbn [packet_verdict]. by rewrite decode_short by (unfold OVERHEAD; cbn; lia). }
  cbn [packet_verdict]. destruct (Nat.ltb_spec (length data) OVERHEAD) as [Hl|Hl].
  { by rewrite decode_short. }
  destruct (decode_long data Hl) as [h ->]. repeat case_goal; try done.
  apply IH; rewrite !length_drop; unfold OVERHEAD; lia.
Qed.

Lemma input_verdict_bytes data pt nd k :
  fst (input data pt nd k) =
    if zlen data <? IKCP_OVERHEAD then -1 else packet_verdict (length data) (k_conv k) data.
Proof.
  rewrite input_verdict. case_goal; [done|]. apply packet_verdict_fuel; unfold input_fuel; lia.
Qed.

End Timer.
