(* ===== verification/KcpSource.v ===== *)
(** * The sending side: the window and the history

    The sliding window is what a flush moves from the send queue to the send
    buffer.

    [flush_window] says exactly how many segments are admitted (as many as the
    window has room for), that they keep their order and their payload, and that
    the sequence numbers follow; the window is the smallest of the local window,
    the peer's and, with congestion control on, the congestion window.  The
    second half follows the sender's whole history ([source_inv]): every data
    segment it sends is an entry of it. *)
From stdpp Require Import base list.
From Stdlib Require Import ZArith Lia.
From S2P Require Import Prelude Word Env Segment Queue RingBuffer Heap KcpState KcpSend KcpFlush KcpInput.
From S2P Require Import KcpInv KcpWriter KcpFlushInv KcpSink KcpDelivery KcpStream KcpSpec.
Local Open Scope Z_scope.

Section Window.
Context {O C : Type} `{Output O, Clock C}.
Implicit Types (k : Kcp O C) (w : Writer O).

(** The number of segments a flush admits. *)
Definition window_room k : nat :=
  Nat.min (length (k_snd_queue k)) (Z.to_nat (flush_cwnd k - zlen (k_snd_buf k))).

Lemma admit_count_exact k : kcp_wf k -> admit_room k = window_room k.
Proof.
  intros Hwf. unfold admit_room. pose proof (admit_window k Hwf) as Hw. cbn zeta in Hw.
  pose proof (admit_count_le (wadd32 (k_snd_una k) (flush_cwnd k)) (k_snd_nxt k) (k_snd_queue k)) as Hle.
  pose proof (admit_count_stop (wadd32 (k_snd_una k) (flush_cwnd k)) (k_snd_nxt k) (k_snd_queue k)) as Hs.
  unfold window_room. set (n := admit_count _ _ _) in *.
  destruct (flush_cwnd_le k Hwf), (wf_snd _ Hwf) as [_ Hnx _ Hl _]. pose proof (zlen_nonneg (k_snd_buf k)).
  destruct Hs as [Hs|Hs]; [destruct Hw; lia|].
  rewrite Hnx, u32_add_l in Hs. unfold wadd32 in Hs.
  destruct (decide (Z.of_nat n <= 65535)); [rewrite itimediff_exact in Hs; lia|]. destruct Hw; lia.
Qed.

(** What the stages before and after the scan do to the queues. *)
Lemma flush_head_queues k : kcp_wf k ->
  let '(_, _, n, k1) := flush_head k in
  n = window_room k /\
  k_snd_queue k1 = drop n (k_snd_queue k) /\
  k_snd_buf k1 = k_snd_buf k ++
    imap (fun i s => admitted (k_conv k) (u32 (k_snd_nxt k + Z.of_nat i)) s) (take n (k_snd_queue k)) /\
  k_snd_una k1 = k_snd_una k /\ k_snd_nxt k1 = u32 (k_snd_nxt k + Z.of_nat n).
Proof.
  intros Hwf. unfold flush_head. set (w0 := mkWriter _ _ _ _ _).
  destruct (flush_acks_frame (flush_template k) w0 k) as (acks & Ek & Hn).
  destruct (flush_acks (flush_template k) w0 k) as [[seg1 w1] k1]. cbn [snd] in Ek. subst k1.
  set (k1 := k <| k_acklist := acks |>).
  assert (kcp_wf k1) as Hwf1 by by apply acks_wf.
  pose proof (probe_timer_wf k1 Hwf1) as Hwf2.
  destruct (probe_timer_frame k1) as ((Ec&_) & Eb & Eq & _ & Eu & En & Ew & _).
  set (k2 := probe_timer k1) in *. clearbody k2.
  destruct (flush_probes_frame seg1 w1 k2) as (p & Ek3).
  destruct (flush_probes seg1 w1 k2) as [[seg3 w3] k3]. cbn [snd] in Ek3. subst k3.
  assert (kcp_wf (k2 <| k_probe := p |>)) as Hwf3 by by apply probe_wf.
  unfold admit_new. rewrite admit_loop_spec by (rewrite (wf_nxt _ (wf_snd _ Hwf3)); apply u32_range).
  change (admit_count _ _ _) with (admit_room (k2 <| k_probe := p |>)). rewrite admit_count_exact by done.
  change (flush_cwnd (k2 <| k_probe := p |>)) with (flush_cwnd k2). unfold window_room. ksimpl.
  change (flush_cwnd (k2 <| k_probe := p |>)) with (flush_cwnd k2).
  rewrite Eb, Eq, Eu, En, Ew, Ec. subst k1. ksimpl. split_and!; reflexivity.
Qed.

(** What the scan does to a segment. *)
Definition wire_kept (s s' : Segment) : Prop := same_wire s s' /\ sg_acked s' = sg_acked s.

#[export] Instance wire_kept_refl : Reflexive wire_kept.
Proof. by intros s. Qed.

Lemma wire_kept_data (q q' : list Segment) : Forall2 wire_kept q q' -> sg_data <$> q' = sg_data <$> q.
Proof. induction 1 as [|s s' q q' [(E & _) _] _ IH]; [done|]. cbn. by rewrite E, IH. Qed.

Lemma flush_segments_queues ft seg resent ub n w k :
  let k1 := snd (flush_segments ft seg resent ub n w k) in
  k_snd_queue k1 = k_snd_queue k /\ Forall2 wire_kept (k_snd_buf k) (k_snd_buf k1) /\
  k_snd_una k1 = k_snd_una k /\ k_snd_nxt k1 = k_snd_nxt k.
Proof.
  unfold flush_segments. destruct (now_ms (k_clock k)) as [t c]. set (skipped := flush_skipped _ _ _ _).
  destruct (is_full ft); [|by split_and!]. set (cx := scan_ctx _ _ _ _ _).
  pose proof (q_iter_mut_from_Forall2 wire_kept skipped (scan_segment cx)
    (scan_start w c t k) (k_snd_buf k)
    (fun s x => scan_segment_wire cx s x)) as Hq.
  destruct (q_iter_mut_from skipped (scan_segment cx) _ _) as [s q]. cbn [snd] in *. by split_and!.
Qed.

Lemma flush_window ft k : kcp_wf k ->
  let n := window_room k in
  let k' := snd (flush ft k) in
  k_snd_queue k' = drop n (k_snd_queue k) /\ Forall2 wire_kept (k_snd_buf k ++ to_admit k) (k_snd_buf k') /\
  k_snd_una k' = k_snd_una k /\ k_snd_nxt k' = u32 (k_snd_nxt k + Z.of_nat n).
Proof.
  intros Hwf. unfold flush. pose proof (flush_head_queues k Hwf) as Hh.
  destruct (flush_head k) as [[[seg w] n] k1]. destruct Hh as (-> & Eq & Eb & Eu & En).
  pose proof (flush_segments_queues ft seg (flush_resent k1) (fs_unsent (k_flush_scan k1)) (window_room k) w k1) as Hs.
  destruct (flush_segments _ _ _ _ _ _ _) as [s k2]. cbn [snd] in Hs. destruct Hs as (Eq2 & Eb2 & Eu2 & En2).
  unfold flush_tail. cbn zeta. ksimpl.
  set (k3 := k2 <| k_state := _ |> <| k_clock := _ |>).
  destruct (flush_cwnd_update_frame (flush_cwnd k1) (flush_resent k1) (sc_change s) (sc_lost s) k3)
    as (_ & _ & -> & -> & -> & -> & _). subst k3. ksimpl.
  rewrite Eq2, Eu2, En2, Eq, Eu, En. split_and!; try done.
  unfold to_admit. rewrite admit_count_exact by done. rewrite <- Eb. exact Eb2.
Qed.

Lemma flush_window_spec ft k : kcp_wf k ->
  let n := window_room k in
  let k' := snd (flush ft k) in
  k_snd_queue k' = drop n (k_snd_queue k) /\
  sg_data <$> k_snd_buf k' = sg_data <$> (k_snd_buf k ++ take n (k_snd_queue k)) /\
  k_snd_una k' = k_snd_una k /\ k_snd_nxt k' = u32 (k_snd_nxt k + Z.of_nat n).
Proof.
  intros Hwf. destruct (flush_window ft k Hwf) as (Eq & Hb & Eu & En). split_and!; try done.
  rewrite (wire_kept_data _ _ Hb), !fmap_app. f_equal. unfold to_admit. rewrite admit_count_exact by done.
  apply list_eq. intros i. rewrite !list_lookup_fmap, list_lookup_imap. by destruct (take _ (k_snd_queue k) !! i).
Qed.

End Window.

(** ** The sending side's history

    The segments a connection ever numbered, in order: what its peer can receive.  Every data
    segment in a packet it writes is one of them, whatever acknowledgements - true or forged -
    arrive, and the payloads in order are the bytes [send] took. *)
(** The segment is the history's entry of its number. *)
Definition numbered (log : list (Z * list Z)) (s : Segment) : Prop :=
  exists i, 0 <= i < zlen log /\ sg_sn s = u32 i /\ log !! Z.to_nat i = Some (content s).

Lemma numbered_mono log more s : numbered log s -> numbered (log ++ more) s.
Proof.
  intros (i & Hi & Esn & El). exists i. rewrite zlen_app. pose proof (zlen_nonneg more). split_and!; [lia|lia|done|].
  by apply lookup_app_l_Some.
Qed.

Lemma numbered_wire log s s' : same_wire s s' -> numbered log s -> numbered log s'.
Proof.
  intros (Ed & Esn & Ef & _) (i & Hi & En & El). exists i. unfold content in *. by rewrite Esn, Ed, Ef.
Qed.

(** A segment the peer may trust, and a packet of such segments. *)
Definition true_segment (conv : Z) (log : list (Z * list Z)) (s : Segment) : Prop :=
  sendable conv s /\ (sg_cmd s = IKCP_CMD_PUSH -> numbered log s).
Definition history_packet (conv : Z) (log : list (Z * list Z)) (p : list Z) : Prop :=
  exists segs, Forall (true_segment conv log) segs /\ p = wire segs.

Lemma history_packet_mono conv log more p : history_packet conv log p -> history_packet conv (log ++ more) p.
Proof.
  intros (segs & Hs & ->). exists segs. split; [|done]. eapply Forall_impl; [exact Hs|]. intros s [H1 H2].
  split; [done|]. intros Hc. by apply numbered_mono, H2.
Qed.

(** What [send] queues: no empty segment. *)
Definition entry_ok (c : Z * list Z) : Prop := is_u8 (fst c) /\ bytes (snd c) /\ snd c <> [].

Section Source.
Context {O C : Type} `{Output O, Clock C} `{!SentLog O}.
Implicit Types (k : Kcp O C) (log : list (Z * list Z)).

Definition source_inv log k : Prop :=
  k_snd_nxt k = u32 (zlen log) /\
  Forall (fun s => sg_acked s = 0 -> numbered log s) (k_snd_buf k) /\
  Forall (history_packet (k_conv k) log) (sent (k_output k)) /\
  Forall entry_ok (log ++ (content <$> k_snd_queue k)).

(** Every byte [send] ever took. *)
Definition outbox log k : list Z := mjoin (snd <$> log) ++ queued_bytes (k_snd_queue k).

Lemma with_clock_source conv (o : O) (c : C) snmp : sent o = [] -> source_inv [] (with_clock conv o c snmp).
Proof.
  intros Ho. split_and!; [done|constructor| |constructor]. cbn [k_output with_clock]. rewrite Ho. constructor.
Qed.

Lemma quiet_source log k k' : quiet k k' -> source_inv log k -> source_inv log k' /\ outbox log k' = outbox log k.
Proof.
  intros (Ec & _ & _ & Eo & En & Eq & Hb) (Hn & Hnum & Hs & He). unfold source_inv, outbox.
  rewrite Ec, Eo, En, Eq. split_and!; try done.
  eapply Forall_impl; [exact Hb|]. cbv beta. intros s' (s & Hin & [[Hw Ea]|[_ Ea]]) E0; [|congruence].
  apply (numbered_wire log s); [done|]. apply (proj1 (Forall_forall _ _) Hnum); [done|congruence].
Qed.

(** ** A flush *)

Definition flush_log log k : list (Z * list Z) := log ++ (content <$> take (window_room k) (k_snd_queue k)).

Lemma to_admit_numbered log k : kcp_wf k -> k_snd_nxt k = u32 (zlen log) -> Forall (numbered (flush_log log k)) (to_admit k).
Proof.
  intros Hwf Hn. apply Forall_lookup. intros i s Hi. unfold to_admit in Hi. rewrite admit_count_exact in Hi by done.
  rewrite list_lookup_imap in Hi. apply fmap_Some in Hi as (x & Hx & ->).
  exists (zlen log + Z.of_nat i). pose proof (zlen_nonneg log). pose proof (lookup_lt_Some _ _ _ Hx) as Hl.
  unfold flush_log. rewrite zlen_app. split_and!; [lia| |unfold admitted; ksimpl; by rewrite Hn, u32_add_l|].
  - unfold zlen at 3. rewrite length_fmap. unfold zlen. lia.
  - rewrite lookup_app_r by (unfold zlen; lia). replace (Z.to_nat (zlen log + Z.of_nat i) - length log)%nat with i by (unfold zlen; lia).
    rewrite list_lookup_fmap, Hx. reflexivity.
Qed.

Lemma flush_source log ft k : kcp_wf k -> source_inv log k ->
  source_inv (flush_log log k) (snd (flush ft k)) /\ outbox (flush_log log k) (snd (flush ft k)) = outbox log k.
Proof.
  intros Hwf (Hn & Hnum & Hs & He). set (log' := flush_log log k).
  destruct (flush_window ft k Hwf) as (Eq & Hb & _ & En).
  assert (Hall : Forall (fun s => sg_acked s = 0 -> numbered log' s) (k_snd_buf k ++ to_admit k)).
  { apply Forall_app. split.
    - eapply Forall_impl; [exact Hnum|]. cbv beta. intros s Hx Ha. by apply numbered_mono, Hx.
    - eapply Forall_impl; [exact (to_admit_numbered log k Hwf Hn)|]. by intros s Hx _. }
  pose proof (wf_conv _ Hwf) as Hconv.
  destruct (flush_keeps ft k (fun _ => True) Hwf I) as (Ec & _); [by apply Forall_forall|].
  split; [split_and!|].
  - rewrite En, Hn, u32_add_l. f_equal. unfold log', flush_log. rewrite zlen_app. f_equal. unfold zlen.
    rewrite length_fmap, length_take. unfold window_room. lia.
  - apply Forall_lookup. intros i s' Hi. destruct (Forall2_lookup_r _ _ _ _ _ Hb Hi) as (s & Hs' & Hw & Ea).
    intros E0. apply (numbered_wire log' s); [done|]. eapply (Forall_lookup_1 _ _ _ _ Hall); [exact Hs'|congruence].
  - rewrite Ec. apply (flush_packets (fun o => Forall (history_packet (k_conv k) log') (sent o)) (true_segment (k_conv k) log')
      False (k_mtu k)) with (P := numbered log'); try done.
    + intros o p (_ & segs & _ & Hg & ->) Ho. destruct (sent_output o (wire segs)) as [->| ->]; [done|].
      apply Forall_app. split; [done|]. apply Forall_singleton. by exists segs.
    + intros o Ho. by rewrite sent_capacity.
    + intros s s' Hs' _ Hx Hw. split; [done|]. intros _. by apply (numbered_wire log' s).
    + eapply Forall_impl; [exact Hs|]. intros p. apply history_packet_mono.
  - rewrite Eq. unfold log', flush_log. rewrite <- (assoc_L (++)), <- fmap_app, take_drop. done.
  - unfold outbox. rewrite Eq. unfold log', flush_log, queued_bytes.
    rewrite fmap_app, join_app, <- list_fmap_compose, <- (assoc_L (++)). f_equal.
    rewrite <- (take_drop (window_room k) (k_snd_queue k)) at 3. by rewrite fmap_app, join_app.
Qed.
End Source.

(** ** Sending *)

Definition nonempty (s : Segment) : Prop := sg_data s <> [].

Lemma chunks_nonempty mss n buffer : (0 < mss)%nat -> (n = 0 \/ (n - 1) * mss < length buffer)%nat ->
  Forall (fun d => d <> []) (chunks mss n buffer).
Proof.
  intros Hm. revert buffer; induction n as [|n IH]; intros buffer Hn; cbn [chunks]; constructor.
  - destruct mss, buffer; cbn [length] in *; done || lia.
  - apply IH. rewrite length_drop. destruct n as [|n]; [by left|right]. nia.
Qed.

Lemma fragments_nonempty stream mss buffer : (0 < mss)%nat -> buffer <> [] -> Forall nonempty (fragments stream mss buffer).
Proof.
  intros Hm Hb. apply Forall_lookup. intros j s Hj. unfold fragments in Hj. rewrite list_lookup_imap in Hj.
  apply fmap_Some in Hj as (d & Hd & ->). unfold nonempty, frag_seg. ksimpl.
  assert (Hl : (0 < length buffer)%nat) by (destruct buffer; [done|cbn [length]; lia]).
  pose proof (fragment_count_tight mss (length buffer) Hm Hl).
  eapply (Forall_lookup_1 _ _ _ _ (chunks_nonempty mss _ buffer Hm ltac:(right; done)) Hd).
Qed.

Section Send.
Context {O C : Type} `{Output O, Clock C} `{!SentLog O}.
Implicit Types (k : Kcp O C) (log : list (Z * list Z)).

Lemma send_extend_nonempty mss buffer q : Forall nonempty q -> Forall nonempty (snd (send_extend mss buffer q)).
Proof.
  intros Hq. pose proof (send_extend_spec mss buffer q) as Hs. destruct (send_extend mss buffer q) as [rest q'].
  destruct Hs as (n & _ & [[-> _]|(q0 & seg & -> & -> & _)]); [done|]. cbn [snd].
  apply Forall_app in Hq as [H1 H2]. apply Forall_app. split; [done|]. apply Forall_cons in H2 as [H2 _]. apply Forall_singleton.
  unfold nonempty in *. ksimpl. intros E. by apply app_eq_nil in E as [E _].
Qed.

Lemma send_nonempty b k : kcp_wf k -> Forall nonempty (k_snd_queue k) -> Forall nonempty (k_snd_queue (snd (send b k))).
Proof.
  intros Hwf Hq. pose proof (wf_mss _ Hwf) as Hm. pose proof (wf_mtu _ Hwf). unfold IKCP_OVERHEAD in Hm.
  unfold send. destruct b as [|x b]; [done|]. cbn [is_nil]. cbn zeta. set (mss := Z.to_nat (k_mss k)).
  set (p := if negb (k_stream k =? 0) then _ else (x :: b, k)).
  assert (Hp : Forall nonempty (k_snd_queue (snd p)) /\ (k_stream k = 0 -> fst p <> []) /\
    k_stream (snd p) = k_stream k).
  { subst p. destruct (Z.eqb_spec (k_stream k) 0); cbn [negb]; [done|].
    pose proof (send_extend_nonempty mss (x :: b) (k_snd_queue k) Hq). destruct (send_extend _ _ _). by split_and!. }
  destruct p as [rest k1]. cbn [fst snd] in Hp. destruct Hp as (Hq1 & Hr & Es). rewrite Es.
  destruct (negb (k_stream k =? 0) && is_nil rest) eqn:En; [done|].
  assert (rest <> []).
  { destruct (Z.eqb_spec (k_stream k) 0); [auto|]. destruct rest; done. }
  case_goal; [done|]. fold (fragment_count mss (length rest)). case_goal; [done|]. cbn [snd]. ksimpl.
  destruct (fragment_count_cover mss (length rest)) as [_ H1']; [subst mss; lia|].
  destruct (Nat.eqb_spec (fragment_count mss (length rest)) 0); [lia|]. rewrite send_loop_spec.
  apply Forall_app. split; [done|]. apply (fragments_nonempty (k_stream k)); [subst mss; lia|done].
Qed.

Lemma send_queue b k : kcp_wf k -> exists n,
  queued_bytes (k_snd_queue (snd (send b k))) = queued_bytes (k_snd_queue k) ++ take n b /\
  (fst (send b k) = 0 -> take n b = b).
Proof.
  intros Hwf. destruct (decide (b = [])) as [->|Hb].
  { exists 0%nat. unfold send. cbn. by rewrite app_nil_r. }
  destruct (decide (k_stream k = 0)) as [Hs|Hs].
  - rewrite send_message by done. destruct b as [|x b]; [done|]. cbn [is_nil].
    destruct (255 <? _)%nat; [exists 0%nat; cbn; by rewrite app_nil_r|]. exists (length (x :: b)). cbn [fst snd]. ksimpl.
    pose proof (wf_mss _ Hwf) as Hm. pose proof (wf_mtu _ Hwf). unfold IKCP_OVERHEAD in Hm.
    rewrite take_ge by done. split; [|done]. rewrite queued_bytes_app. f_equal. apply fragments_data. lia.
  - pose proof (send_stream b k Hwf Hs Hb) as Hx. cbn zeta in Hx. destruct (send b k) as [c k'].
    destruct Hx as ([[-> E]|(-> & n & E & _)] & _); [exists (length b)|by exists n]. rewrite take_ge by done. done.
Qed.

Lemma send_keeps b k : k_snd_nxt (snd (send b k)) = k_snd_nxt k.
Proof.
  unfold send. case_goal; [done|]. cbn zeta.
  set (p := if negb (k_stream k =? 0) then _ else (b, k)).
  assert (k_snd_nxt (snd p) = k_snd_nxt k) as Hp by (subst p; case_goal; [|done]; by destruct (send_extend _ _ _)).
  destruct p as [rest k1]. cbn [snd] in *. repeat case_goal; exact Hp.
Qed.

Lemma queue_entries log k : kcp_wf k -> Forall entry_ok log -> Forall nonempty (k_snd_queue k) ->
  Forall entry_ok (log ++ (content <$> k_snd_queue k)).
Proof.
  intros Hwf Hl Hq. apply Forall_app. split; [done|]. rewrite Forall_fmap. pose proof (wf_snd_queue _ Hwf) as Hw.
  apply Forall_forall. intros s Hs. rewrite Forall_forall in Hq, Hw. destruct (Hw s Hs) as (? & ? & _).
  split_and!; [done|done|by apply Hq].
Qed.

Lemma entries_queue log k : Forall entry_ok (log ++ (content <$> k_snd_queue k)) ->
  Forall entry_ok log /\ Forall nonempty (k_snd_queue k).
Proof.
  intros [H1 H2]%Forall_app. split; [done|]. rewrite Forall_fmap in H2. eapply Forall_impl; [exact H2|]. by intros s (_ & _ & ?).
Qed.

(** The bytes an operation puts in the send queue. *)
Definition taken_bytes (op : kcp_op) k : list Z :=
  match op with
  | OpSend b => drop (length (queued_bytes (k_snd_queue k))) (queued_bytes (k_snd_queue (snd (send b k))))
  | _ => []
  end.

Lemma send_source log b k : bytes b -> kcp_wf k -> source_inv log k -> source_inv log (snd (send b k)) /\
  outbox log (snd (send b k)) = outbox log k ++ taken_bytes (OpSend b) k.
Proof.
  intros Hb Hwf (Hn & Hnum & Hs & He). pose proof (send_wf b k Hb Hwf) as Hwf'.
  destruct (send_frame b k) as (Eo & _ & Ec & _ & Eb). apply entries_queue in He as [Hl Hq].
  split.
  - unfold source_inv. rewrite Eo, Ec, Eb, send_keeps. split_and!; try done.
    apply queue_entries; [done|done|by apply send_nonempty].
  - cbn [taken_bytes]. unfold outbox. destruct (send_queue b k Hwf) as (n & -> & _). by rewrite drop_app_length, (assoc_L (++)).
Qed.

(** ** Every operation *)

Lemma set_mtu_source log m k : source_inv log k ->
  source_inv log (snd (set_mtu m k)) /\ outbox log (snd (set_mtu m k)) = outbox log k.
Proof. intros Hi. unfold set_mtu. by case_goal. Qed.

Lemma taken_bytes_send b k : kcp_wf k -> exists n, taken_bytes (OpSend b) k = take n b /\ (fst (send b k) = 0 -> take n b = b).
Proof.
  intros Hwf. destruct (send_queue b k Hwf) as (n & E & Hc). exists n. split; [|done]. cbn [taken_bytes]. by rewrite E, drop_app_length.
Qed.

Lemma kcp_step_source op log k : op_ok op -> kcp_wf k -> source_inv log k ->
  exists more, source_inv (log ++ more) (snd (kcp_step op k)) /\
    outbox (log ++ more) (snd (kcp_step op k)) = outbox log k ++ taken_bytes op k.
Proof.
  intros Hop Hwf Hi. assert ((exists b, op = OpSend b) \/ (forall b, op <> OpSend b)) as [[b ->]|Hns] by (destruct op; eauto; right; discriminate).
  { exists []. rewrite app_nil_r. pose proof (send_source log b k Hop Hwf Hi) as Hs. cbn [kcp_step]. by destruct (send b k). }
  assert (taken_bytes op k = []) as -> by (destruct op; done || by destruct (Hns buffer)). rewrite app_nil_r.
  apply (kcp_step_ind (fun k' => exists more, source_inv (log ++ more) k' /\ outbox (log ++ more) k' = outbox log k)); try done.
  - intros k1 k2 Hq (more & H1 & H2). exists more. destruct (quiet_source _ _ _ Hq H1). by rewrite <- H2.
  - intros ft k1 Hwf1 (more & H1 & H2). destruct (flush_source _ ft k1 Hwf1 H1) as [H3 H4]. unfold flush_log in *.
    rewrite <- (assoc_L (++)) in *. eexists. split; [exact H3|by rewrite H4].
  - intros b ->. by destruct (Hns b).
  - intros m ->. exists []. rewrite app_nil_r. by apply set_mtu_source.
  - exists []. by rewrite app_nil_r.
Qed.
End Send.
