(* ===== verification/KcpAcked.v ===== *)
(** * What is acknowledged has been received

    [una] in the segments of one end is how far its reordering buffer has been emptied in
    order; the other end removes from its send buffer at most what that covers. *)
From S2P Require Import Prelude Word Env Segment Queue Heap KcpState KcpSend KcpFlush KcpInput KcpInv.
From S2P Require Import KcpWriter KcpFlushInv KcpSink KcpDelivery KcpStream KcpSpec KcpSource.
Local Open Scope Z_scope.

(** ** The [una] of the packets an operation writes *)

Definition una_segment (conv una : Z) (s : Segment) : Prop := sendable conv s /\ sg_una s = una.
Definition una_packet (conv una : Z) (p : list Z) : Prop := exists segs, Forall (una_segment conv una) segs /\ p = wire segs.

Section Una.
Context {O C : Type} `{Output O, Clock C} `{!SentLog O}.
Implicit Types (k : Kcp O C).

(** The packets in [o'] that were not in [o] hold what [k] knows. *)
Definition speaks_for (o : O) k (o' : O) : Prop :=
  Forall (fun p => p ∈ sent o \/ una_packet (k_conv k) (k_rcv_nxt k) p) (sent o').

Lemma speaks_refl (o : O) k : speaks_for o k o.
Proof. apply Forall_forall. intros p Hp. by left. Qed.

Lemma speaks_same (o o' : O) k k' : k_conv k' = k_conv k -> k_rcv_nxt k' = k_rcv_nxt k -> speaks_for o k o' -> speaks_for o k' o'.
Proof. unfold speaks_for. by intros -> ->. Qed.

Lemma flush_speaks ft k : kcp_wf k -> speaks_for (k_output k) (snd (flush ft k)) (k_output (snd (flush ft k))).
Proof.
  intros Hwf. destruct (flush_keeps ft k (fun _ => True) Hwf I) as (Ec & _); [by apply Forall_forall|].
  pose proof (flush_rcv ft k) as Er. unfold rcv_same, rcv_part in Er. injection Er as En _ _.
  apply (speaks_same _ _ k); [done|done|].
  apply (flush_packets (speaks_for (k_output k) k) (una_segment (k_conv k) (k_rcv_nxt k)) False (k_mtu k)) with (P := fun _ => True); try done.
  - intros o p (_ & segs & _ & Hs & ->) Ho. unfold speaks_for. destruct (sent_output o (wire segs)) as [->| ->]; [done|].
    apply Forall_app. split; [done|]. apply Forall_singleton. right. by exists segs.
  - intros o Ho. unfold speaks_for. by rewrite sent_capacity.
  - by apply Forall_forall.
  - apply speaks_refl.
Qed.

Lemma input_speaks data pt nd k : bytes data -> kcp_wf k ->
  speaks_for (k_output k) (snd (input data pt nd k)) (k_output (snd (input data pt nd k))).
Proof.
  intros Hb Hwf. unfold input. case_goal; [apply speaks_refl|].
  pose proof (input_loop_wf (input_fuel data) pt data input_start k Hb Hwf) as Hl.
  pose proof (input_loop_quiet (input_fuel data) pt data input_start k) as Hq.
  destruct (input_loop _ _ _ _ _) as [[c k1]|[l k1]]; destruct Hq as (_ & _ & _ & Eo & _); cbn [snd]; rewrite <- Eo; [apply speaks_refl|].
  set (k2 := k1 <| k_snmp := _ |>). assert (Hwf2 : kcp_wf k2) by by apply snmp_wf.
  pose proof (input_cwnd_wf (k_snd_una k) _ (input_rtt_wf pt l k2 Hwf2)) as Hwf3.
  destruct (input_rtt_quiet pt l k2) as (_ & _ & _ & E1 & _).
  destruct (input_cwnd_quiet (k_snd_una k) (input_rtt pt l k2)) as (_ & _ & _ & E2 & _).
  set (k3 := input_cwnd _ _) in *. assert (E3 : k_output k3 = k_output k1) by by rewrite E2, E1. rewrite <- E3. clearbody k3.
  unfold input_flush. repeat case_goal; try apply speaks_refl; by apply flush_speaks.
Qed.

(** [update] sets the timer, and may flush. *)
Lemma update_shape k : kcp_wf k -> exists k1, kcp_wf k1 /\ k_output k1 = k_output k /\ k_snd_una k1 = k_snd_una k /\
  k_snd_buf k1 = k_snd_buf k /\ (update k = k1 \/ update k = snd (flush Full k1)).
Proof.
  intros Hwf. unfold update. destruct (now_ms (k_clock k)) as [t c]. cbn zeta.
  set (k1 := if k_updated _ =? 0 then _ else _).
  assert (H1' : exists u f, k1 = k <| k_clock := c |> <| k_updated := u |> <| k_ts_flush := f |>).
  { subst k1. case_goal; [by eexists _, _|]. exists (k_updated k), (k_ts_flush k). by destruct k. }
  destruct H1' as (u & f & E1). rewrite E1. ksimpl. set (p := if negb _ then _ else _).
  assert (H2' : exists f, snd p = k <| k_clock := c |> <| k_updated := u |> <| k_ts_flush := f |>).
  { subst p. case_goal; by eexists. }
  destruct p as [slap k2]. cbn [snd] in H2'. destruct H2' as [f2 ->]. ksimpl.
  set (k3 := if 0 <=? _itimediff t _ then _ else _).
  assert (H3' : exists f, k3 = k <| k_clock := c |> <| k_updated := u |> <| k_ts_flush := f |>).
  { subst k3. case_goal; by eexists. }
  destruct H3' as [f3 ->].
  case_goal; eexists; (split_and!; [|..|by (left + right)]; try done); wf_open Hwf; wf_same; destruct wf_snd0; by constructor.
Qed.

Lemma kcp_step_speaks op k : op_ok op -> kcp_wf k ->
  speaks_for (k_output k) (snd (kcp_step op k)) (k_output (snd (kcp_step op k))).
Proof.
  intros Hop Hwf.
  assert (Hsame : k_output (snd (kcp_step op k)) = k_output k ->
    speaks_for (k_output k) (snd (kcp_step op k)) (k_output (snd (kcp_step op k)))) by (intros ->; apply speaks_refl).
  destruct op as [b|b|d pt nd|ft| | |m|a b c d|a b]; cbn [kcp_step op_ok] in *.
  - pose proof (send_frame b k) as (E & _). destruct (send b k). by apply Hsame.
  - destruct (recv_quiet b k) as (_ & _ & _ & E & _). destruct (recv b k) as [[? ?] ?]. by apply Hsame.
  - pose proof (input_speaks d pt nd k Hop Hwf). by destruct (input d pt nd k).
  - pose proof (flush_speaks ft k Hwf). by destruct (flush ft k).
  - destruct (update_shape k Hwf) as (k1 & Hwf1 & Eo & _ & _ & [E|E]); cbn [snd] in *; rewrite E in *; [by apply Hsame|].
    rewrite <- Eo. by apply flush_speaks.
  - destruct (check_frame k) as (t & c & E). rewrite E in *. by apply Hsame.
  - pose proof (set_mtu_output m k). destruct (set_mtu m k). by apply Hsame.
  - destruct (nodelay_quiet a b c d k) as (_ & _ & _ & E & _). destruct (nodelay a b c d k). by apply Hsame.
  - destruct (wnd_size_quiet a b k) as (_ & _ & _ & E & _). destruct (wnd_size a b k). by apply Hsame.
Qed.

(** ** What an end removes *)

(** The send buffer starts at an index the peer has passed; [n] segments were numbered. *)
Definition acked_upto (R n : Z) k : Prop :=
  exists b, 0 <= b <= R /\ k_snd_una k = u32 b /\ b + zlen (k_snd_buf k) = n.

Definition una_upto (R : Z) (s : SegmentHeader * list Z) : Prop := exists j, 0 <= j <= R /\ h_una (fst s) = u32 j.

Lemma una_removes R n una k : kcp_wf k -> R <= 2147483648 -> n <= 2147483648 -> (exists j, 0 <= j <= R /\ una = u32 j) ->
  acked_upto R n k -> acked_upto R n (shrink_buf (snd (parse_una una k))).
Proof.
  intros Hwf HR Hn (j & Hj & ->) (b & Hb & Eu & El). pose proof (una_shrink_wf (u32 j) k Hwf) as Hwf'.
  rewrite parse_una_spec in *. cbn [snd] in *. set (m := una_count (u32 j) (k_snd_buf k)) in *.
  pose proof (una_count_le (u32 j) (k_snd_buf k)) as Hm. fold m in Hm.
  assert (Hmj : m <> 0%nat -> b + Z.of_nat m <= j).
  { intros Hm0. destruct (lookup_lt_is_Some_2 (k_snd_buf k) (m - 1)) as [s Hs]; [lia|].
    assert (Hpos : 0 < _itimediff (u32 j) (sg_sn s)).
    { assert (Hi : (m - 1 < una_count (u32 j) (k_snd_buf k))%nat) by (subst m; lia). clear - Hs Hi. revert Hs Hi.
      generalize (m - 1)%nat as i. generalize (k_snd_buf k) as q. induction q as [|x q IH]; intros [|i] Hs Hi; try done; cbn [una_count] in Hi.
      - injection Hs as ->. destruct (0 <? _) eqn:E; to_prop; [done|lia].
      - destruct (0 <? _); [|lia]. apply (IH i); [done|lia]. }
    destruct (wf_snd _ Hwf) as [_ _ Hc _ _]. rewrite (Hc _ _ Hs), Eu, u32_add_l in Hpos.
    unfold zlen in *. rewrite itimediff_l, itimediff_r in Hpos. unfold _itimediff, i32, wsub32, u32 in Hpos. zlia. }
  exists (b + Z.of_nat m). unfold zlen in *.
  assert (Hlen : length (k_snd_buf k) = (m + length (drop m (k_snd_buf k)))%nat) by (rewrite length_drop; lia).
  split; [destruct (decide (m = 0%nat)); lia|].
  destruct (wf_snd _ Hwf) as [_ Hnx Hc _ _]. pose proof (sn_chain_drop _ _ m Hc) as Hc'.
  unfold shrink_buf. ksimpl. destruct (drop m (k_snd_buf k)) as [|s l] eqn:Ed; cbn [head]; ksimpl.
  - split; [|cbn [length] in *; lia]. rewrite Hnx, Eu, u32_add_l. f_equal. cbn [length] in Hlen. unfold zlen. lia.
  - split; [|lia]. rewrite (Hc' 0%nat s eq_refl), Eu. rewrite Z.add_0_r. by rewrite u32_add_l.
Qed.

(** A step that leaves the beginning of the send buffer. *)
Lemma acked_same R n k k' : k_snd_una k' = k_snd_una k -> length (k_snd_buf k') = length (k_snd_buf k) ->
  acked_upto R n k -> acked_upto R n k'.
Proof. intros Eu El (b & Hb & E & En). exists b. rewrite Eu. unfold zlen in *. by rewrite El. Qed.

Ltac acked_same := apply acked_same; reflexivity.

Lemma move_available_snd fuel k : k_snd_una (move_available fuel k) = k_snd_una k /\ k_snd_buf (move_available fuel k) = k_snd_buf k.
Proof.
  revert k; induction fuel as [|fuel IH]; intros k; cbn [move_available]; [done|].
  destruct (sh_pop (k_rcv_buf k)) as [[seg h]|]; [|done]. case_goal; [|done].
  match goal with |- context [move_available fuel ?k'] => destruct (IH k') as [-> ->] end. done.
Qed.

Lemma input_push_snd pt h payload k :
  k_snd_una (input_push pt h payload k) = k_snd_una k /\ k_snd_buf (input_push pt h payload k) = k_snd_buf k.
Proof.
  unfold input_push. set (p := if _ <? 0 then _ else (true, k)).
  assert (Hp : k_snd_una (snd p) = k_snd_una k /\ k_snd_buf (snd p) = k_snd_buf k).
  { subst p. case_goal; [|done]. case_goal; [|done]. unfold parse_data. case_goal; [done|].
    destruct (negb (sh_has _ _)); cbn [snd];
      match goal with |- context [move_available ?f ?k'] => destruct (move_available_snd f k') as [-> ->] end; done. }
  destruct p as [b k1]. cbn [snd] in Hp. by case_goal.
Qed.

Lemma input_segment_acked R n pt h data l k : header_wf h -> kcp_wf k -> R <= 2147483648 -> n <= 2147483648 ->
  (exists j, 0 <= j <= R /\ h_una h = u32 j) -> acked_upto R n k ->
  match input_segment pt h data l k with inl (_, k') => acked_upto R n k' | inr (_, _, k') => acked_upto R n k' end.
Proof.
  intros Hh Hwf HR Hn Hu Ha. unfold input_segment.
  destruct (negb (h_conv h =? _)); [done|]. destruct (zlen data <? h_len h); [done|].
  destruct (negb (known_cmd _)); [done|].
  set (k0 := if is_regular pt then _ else k).
  assert (kcp_wf k0 /\ acked_upto R n k0) as [Hwf0 Ha0].
  { subst k0. case_goal; [|done]. split; [|revert Ha; acked_same].
    wf_open Hwf; wf_same; [destruct wf_snd0; by constructor|apply Hh]. }
  clearbody k0. pose proof (una_removes R n (h_una h) k0 Hwf0 HR Hn Hu Ha0) as Ha1.
  destruct (parse_una (h_una h) k0) as [m k1]. cbn [snd] in Ha1. set (k2 := shrink_buf k1) in *. clearbody k2.
  destruct (h_cmd h =? IKCP_CMD_ACK).
  - assert (Ha2 : acked_upto R n (parse_ack (h_sn h) k2)).
    { revert Ha1. unfold parse_ack. repeat case_goal; try done. apply acked_same; [done|]. ksimpl. apply length_alter. }
    set (k3 := parse_ack (h_sn h) k2) in *. clearbody k3. destruct (parse_fastack_buf (h_sn h) (h_ts h) k3) as [Hq Eu].
    apply Forall2_length in Hq. destruct (parse_fastack _ _ _) as [f k4]. cbn [snd] in *. revert Ha2. by apply acked_same.
  - destruct (h_cmd h =? IKCP_CMD_PUSH).
    { assert (E : forall k, k_snd_una (input_push pt h (take (Z.to_nat (h_len h)) data) k) = k_snd_una k /\
        k_snd_buf (input_push pt h (take (Z.to_nat (h_len h)) data) k) = k_snd_buf k); [|destruct (E k2) as [E1 E2]; revert Ha1; apply acked_same; [done|by rewrite E2]].
      intros k3. apply input_push_snd. }
    destruct (h_cmd h =? IKCP_CMD_WASK); [|done]. revert Ha1. acked_same.
Qed.

Lemma send_una b k : k_snd_una (snd (send b k)) = k_snd_una k.
Proof.
  unfold send. case_goal; [done|]. cbn zeta. set (p := if negb (k_stream k =? 0) then _ else (b, k)).
  assert (k_snd_una (snd p) = k_snd_una k) as Hp by (subst p; case_goal; [|done]; by destruct (send_extend _ _ _)).
  destruct p as [rest k1]. cbn [snd] in *. repeat case_goal; exact Hp.
Qed.

Lemma recv_snd b k : k_snd_una (snd (recv b k)) = k_snd_una k /\ k_snd_buf (snd (recv b k)) = k_snd_buf k.
Proof.
  unfold recv. case_goal; [done|]. case_goal; [done|]. destruct (recv_merge _ _ _) as [[[q b'] n]|]; [|done]. cbn [snd].
  match goal with |- context [move_available ?f ?k'] => destruct (move_available_snd f k') as [E1 E2] end.
  case_goal; ksimpl; by rewrite ?E1, ?E2.
Qed.

(** What the round-trip time and the congestion window change. *)
Definition snd_same k k' : Prop := k_snd_una k' = k_snd_una k /\ k_snd_buf k' = k_snd_buf k.
Lemma input_rtt_snd pt l k : snd_same k (input_rtt pt l k).
Proof.
  unfold input_rtt. case_goal; [|done]. destruct (now_ms (k_clock k)) as [t c]. case_goal; [|done].
  unfold update_ack. cbn zeta. by repeat case_goal.
Qed.
Lemma input_cwnd_snd una k : snd_same k (input_cwnd una k).
Proof. unfold input_cwnd. cbn zeta. by repeat case_goal. Qed.

Lemma nodelay_snd a b c d k : snd_same k (snd (nodelay a b c d k)).
Proof. unfold nodelay. cbn [snd]. by repeat case_goal. Qed.
Lemma wnd_size_snd a b k : snd_same k (snd (wnd_size a b k)).
Proof. unfold wnd_size. cbn [snd]. by repeat case_goal. Qed.

Definition una_datagram (R : Z) (data : list Z) : Prop := Forall (una_upto R) (datagram_segments (input_fuel data) data).

Lemma input_loop_acked R n pt fuel : R <= 2147483648 -> n <= 2147483648 -> forall data l k, bytes data -> kcp_wf k ->
  Forall (una_upto R) (datagram_segments fuel data) -> acked_upto R n k ->
  match input_loop fuel pt data l k with inl (_, k') => acked_upto R n k' | inr (_, k') => acked_upto R n k' end.
Proof.
  intros HR Hn. induction fuel as [|fuel IH]; intros data l k Hb Hwf Hu Ha; cbn [input_loop datagram_segments] in *; [done|].
  destruct (decode data) as [[h rest]|] eqn:Ed; [|done]. destruct (decode_wf _ _ _ Hb Ed) as (Hh & Hb' & _).
  pose proof (input_segment_wf pt h rest l k Hh Hb' Hwf) as Hw.
  destruct (Z.ltb_spec (zlen rest) (h_len h)) as [Hlt|Hge].
  { unfold input_segment. destruct (negb (h_conv h =? _)); [done|]. by rewrite (proj2 (Z.ltb_lt _ _) Hlt). }
  apply Forall_cons in Hu as [Hu Hus]. pose proof (input_segment_acked R n pt h rest l k Hh Hwf HR Hn Hu Ha) as Hs.
  assert (Hd : forall x, input_segment pt h rest l k = inr x -> snd (fst x) = drop (Z.to_nat (h_len h)) rest).
  { intros x. unfold input_segment. destruct (negb (h_conv h =? _)); [done|]. destruct (zlen rest <? h_len h); [done|].
    destruct (negb (known_cmd _)); [done|]. destruct (parse_una _ _) as [m k1].
    destruct (h_cmd h =? IKCP_CMD_ACK); [destruct (parse_fastack _ _ _); by intros [= <-]|].
    destruct (h_cmd h =? IKCP_CMD_PUSH); [by intros [= <-]|]. destruct (h_cmd h =? IKCP_CMD_WASK); by intros [= <-]. }
  destruct (input_segment pt h rest l k) as [[c k']|[[l' data'] k']]; [done|]. destruct Hw as [Hb2 Hwf2].
  specialize (Hd _ eq_refl). cbn [fst snd] in Hd. subst data'. by apply IH.
Qed.

Lemma flush_acked R n ft k : kcp_wf k -> acked_upto R n k -> exists n', acked_upto R n' (snd (flush ft k)).
Proof.
  intros Hwf (b & Hb & Eu & _). destruct (flush_window ft k Hwf) as (_ & _ & E & _). eexists. exists b. by rewrite E.
Qed.

Lemma kcp_step_acked R n op k : op_ok op -> kcp_wf k -> R <= 2147483648 -> n <= 2147483648 ->
  match op with OpInput data _ _ => una_datagram R data | _ => True end -> acked_upto R n k ->
  exists n', acked_upto R n' (snd (kcp_step op k)).
Proof.
  intros Hop Hwf HR Hn Hu Ha.
  assert (Hsame : k_snd_una (snd (kcp_step op k)) = k_snd_una k -> k_snd_buf (snd (kcp_step op k)) = k_snd_buf k ->
    exists n', acked_upto R n' (snd (kcp_step op k))).
  { intros E1 E2. exists n. revert Ha. apply acked_same; [done|by rewrite E2]. }
  destruct op as [b|b|d pt nd|ft| | |m|a b c d|a b]; cbn [kcp_step op_ok] in *.
  - destruct (send_frame b k) as (_ & _ & _ & _ & Eb). pose proof (send_una b k). destruct (send b k). by apply Hsame.
  - pose proof (recv_snd b k) as [E1 E2]. destruct (recv b k) as [[? ?] ?]. by apply Hsame.
  - assert (Hi : exists n', acked_upto R n' (snd (input d pt nd k))); [|by destruct (input d pt nd k)]. unfold input.
    destruct (zlen d <? IKCP_OVERHEAD); [by exists n|].
    pose proof (input_loop_wf (input_fuel d) pt d input_start k Hop Hwf) as Hw.
    pose proof (input_loop_acked R n pt (input_fuel d) HR Hn d input_start k Hop Hwf Hu Ha) as Hl.
    destruct (input_loop _ _ _ _ _) as [[c k1]|[l k1]]; [by exists n|]. cbn [snd].
    set (k2 := k1 <| k_snmp := _ |>). assert (Hwf2 : kcp_wf k2) by by apply snmp_wf.
    assert (Ha2 : acked_upto R n k2) by (revert Hl; acked_same).
    pose proof (input_cwnd_wf (k_snd_una k) _ (input_rtt_wf pt l k2 Hwf2)) as Hwf3.
    assert (Ha3 : acked_upto R n (input_cwnd (k_snd_una k) (input_rtt pt l k2))).
    { destruct (input_rtt_snd pt l k2) as [E1 E2], (input_cwnd_snd (k_snd_una k) (input_rtt pt l k2)) as [E3 E4].
      revert Ha2. apply acked_same; [by rewrite E3, E1|by rewrite E4, E2]. }
    unfold input_flush. repeat case_goal; try (by exists n); by apply (flush_acked R n).
  - pose proof (flush_acked R n ft k Hwf Ha). by destruct (flush ft k).
  - destruct (update_shape k Hwf) as (k1 & Hwf1 & _ & E1 & E2 & [E|E]); cbn [snd] in *; rewrite E in *; [by apply Hsame|].
    apply (flush_acked R n); [done|]. revert Ha. apply acked_same; [done|by rewrite E2].
  - destruct (check_frame k) as (t & c & E). rewrite E in *. by apply Hsame.
  - unfold set_mtu in *. case_goal; by apply Hsame.
  - destruct (nodelay_snd a b c d k). destruct (nodelay a b c d k). by apply Hsame.
  - destruct (wnd_size_snd a b k). destruct (wnd_size a b k). by apply Hsame.
Qed.
End Una.
