(* ===== verification/KcpPeers.v ===== *)
(** * Two connections and the network between them

    Two ends of a conversation.  Each runs whatever the application and the timers ask for;
    a packet one end wrote may arrive at the other at any time, any number of times, in any
    order, or never.  What an end reads is a prefix of what the other end wrote. *)
From S2P Require Import Prelude Word Env Segment Queue Heap KcpState KcpSend KcpFlush KcpInput KcpInv.
From S2P Require Import KcpWriter KcpFlushInv KcpSink KcpDelivery KcpStream KcpSpec KcpSource KcpAcked.
Local Open Scope Z_scope.

(** ** A history as the peer's stream *)

Definition log_src (log : list (Z * list Z)) (i : Z) : Z * list Z := default (0, []) (log !! Z.to_nat i).

Lemma log_src_frg log i : Forall entry_ok log -> 0 <= fst (log_src log i).
Proof.
  intros Hl. unfold log_src. destruct (log !! Z.to_nat i) as [c|] eqn:E; [|done]. cbn [default from_option id].
  by destruct (Forall_lookup_1 _ _ _ _ Hl E) as [[? _] _].
Qed.

Lemma log_src_take log n : 0 <= n <= zlen log -> log_src log <$> seqZ 0 n = take (Z.to_nat n) log.
Proof.
  intros Hn. unfold zlen in Hn. apply list_eq. intros i. rewrite list_lookup_fmap. destruct (decide (Z.of_nat i < n)) as [Hi|Hi].
  - rewrite lookup_seqZ_lt by lia. cbn [fmap option_fmap option_map]. rewrite lookup_take_lt by lia. unfold log_src.
    rewrite Z.add_0_l, Nat2Z.id. destruct (lookup_lt_is_Some_2 log i) as [c ->]; [lia|done].
  - rewrite lookup_seqZ_ge by lia. by rewrite lookup_take_ge by lia.
Qed.

Lemma wire_datagram conv segs fuel : Forall (sendable conv) segs -> (length segs < fuel)%nat ->
  datagram_segments fuel (wire segs) = (fun s => (header_of s, sg_data s)) <$> segs.
Proof.
  revert fuel; induction segs as [|s segs IH]; intros [|fuel] Hs Hf; cbn [length] in Hf; try lia; cbn [datagram_segments].
  { by rewrite decode_short by (cbn; unfold OVERHEAD; lia). }
  apply Forall_cons in Hs as [Hs1 Hs2]. change (wire (s :: segs)) with (wire_bytes s ++ wire segs). unfold wire_bytes.
  rewrite <- app_assoc, decode_header_bytes by apply Hs1. cbn [h_len header_of].
  assert (E : (zlen (sg_data s ++ wire segs) <? zlen (sg_data s)) = false).
  { apply Z.ltb_ge. rewrite zlen_app. pose proof (zlen_nonneg (wire segs)). lia. }
  rewrite E. assert (En : Z.to_nat (zlen (sg_data s)) = length (sg_data s)) by (unfold zlen; lia).
  rewrite En, take_app_length, drop_app_length, fmap_cons. f_equal. apply IH; [done|lia].
Qed.

(** A packet of the history is a datagram of the stream. *)
Lemma history_genuine conv log p : zlen log <= 2147483648 -> history_packet conv log p ->
  genuine_datagram (log_src log) (zlen log) conv p.
Proof.
  intros Hlen (segs & Hs & ->). unfold genuine_datagram. rewrite (wire_datagram conv).
  2: { eapply Forall_impl; [exact Hs|]. by intros s [? _]. }
  2: { pose proof (length_wire segs). unfold input_fuel. lia. }
  rewrite Forall_fmap. eapply Forall_impl; [exact Hs|]. intros s [_ Hn] _ Hc. cbn [fst snd header_of h_cmd h_sn h_frg compose] in *.
  destruct (Hn Hc) as (i & Hi & Esn & El). exists i. rewrite Esn. split_and!; [lia|lia|apply u32_id; unfold is_u32; lia|].
  unfold log_src. by rewrite El.
Qed.

Lemma wire_u8 conv segs : Forall (sendable conv) segs -> bytes (wire segs).
Proof.
  unfold wire. induction 1 as [|s segs [Hw _] _ IH]; [constructor|].
  change (bytes (wire_bytes s ++ mjoin (wire_bytes <$> segs))). apply Forall_app_2; [|exact IH].
  apply Forall_app_2; [apply header_bytes_bytes|apply Hw].
Qed.

Lemma history_bytes conv log p : history_packet conv log p -> bytes p.
Proof.
  intros (segs & Hs & ->). apply (wire_u8 conv). eapply Forall_impl; [exact Hs|]. by intros s [? _].
Qed.

(** No entry is empty. *)
Lemma log_length log : Forall entry_ok log -> zlen log <= zlen (mjoin (snd <$> log)).
Proof.
  induction 1 as [|c log (_ & _ & Hc) _ IH]; [done|].
  change (zlen (c :: log) <= zlen (snd c ++ mjoin (snd <$> log))). rewrite zlen_app, zlen_cons.
  assert (1 <= zlen (snd c)); [|lia]. unfold zlen. destruct (snd c); [done|]. cbn [length]. lia.
Qed.

(** ** The system *)

Section Peers.
Context {O C : Type} `{Output O, Clock C} `{!SentLog O}.
Implicit Types (k : Kcp O C).

(** The two ends. *)
Definition Peers : Type := bool -> Kcp O C.
Definition set_peer (c : bool) k (p : Peers) : Peers := fun d => if Bool.eqb d c then k else p d.

Inductive peers_op :=
| Local (c : bool) (op : kcp_op)
| Arrive (c : bool) (n : nat) (pt : PacketType) (nodelay : bool).

(** What an end took from its application and gave to it. *)
Definition event : Type := bool * list Z * list Z.

(** The call an operation comes down to: the end, and the operation of its machine. *)
Definition peers_call (o : peers_op) (p : Peers) : option (bool * kcp_op) :=
  match o with
  | Local c op => Some (c, op)
  | Arrive c n pt nodelay => (fun data => (c, OpInput data pt nodelay)) <$> sent (k_output (p (negb c))) !! n
  end.

Definition peers_step (o : peers_op) (p : Peers) : list event * Peers :=
  match peers_call o p with
  | Some (c, op) => let '(r, k) := kcp_step op (p c) in ([(c, taken_bytes op (p c), ret_bytes r)], set_peer c k p)
  | None => ([], p)
  end.

Fixpoint peers_run (ops : list peers_op) (p : Peers) : list event * Peers :=
  match ops with
  | [] => ([], p)
  | o :: ops => let '(e, p) := peers_step o p in let '(es, p) := peers_run ops p in (e ++ es, p)
  end.

Definition written_at (c : bool) (es : list event) : list Z :=
  mjoin ((fun e : event => if Bool.eqb c (fst (fst e)) then snd (fst e) else []) <$> es).
Definition read_at (c : bool) (es : list event) : list Z :=
  mjoin ((fun e : event => if Bool.eqb c (fst (fst e)) then snd e else []) <$> es).

(** The network delivers only what was sent. *)
Definition local_ok (o : peers_op) : Prop :=
  match o with
  | Local _ (OpInput _ _ _) => False
  | Local _ op => op_ok op
  | Arrive _ _ _ _ => True
  end.

(** ** Its invariant *)

Definition sound (log : bool -> list (Z * list Z)) (p : Peers) : Prop :=
  forall c, kcp_wf (p c) /\ source_inv (log c) (p c) /\ k_conv (p c) = k_conv (p (negb c)).

(** How far an end has received in order, and a packet that claims no more. *)
Definition received (rlog : bool -> list (Z * list Z)) (p : Peers) (c : bool) : Z := rx_next (rlog c, p c).
Definition modest_packet (R conv : Z) (q : list Z) : Prop :=
  exists segs, Forall (fun s => sendable conv s /\ exists j, 0 <= j <= R /\ sg_una s = u32 j) segs /\ q = wire segs.

(** The streams, once the whole history is known; each end claims what it has received, and
    has removed from its send buffer only what the other end has. *)
Definition streams (L rlog : bool -> list (Z * list Z)) (p : Peers) : Prop :=
  forall c, stream_inv (log_src (L (negb c))) (zlen (L (negb c))) 0 (rlog c) (p c) /\
    Forall (modest_packet (received rlog p c) (k_conv (p c))) (sent (k_output (p c))) /\
    exists n, acked_upto (received rlog p (negb c)) n (p c).

Lemma streams_ext L rlog rlog' p : (forall c, rlog' c = rlog c) -> streams L rlog p -> streams L rlog' p.
Proof. intros E Hst c. unfold received. rewrite !E. apply Hst. Qed.

Lemma modest_mono R R' conv q : R <= R' -> modest_packet R conv q -> modest_packet R' conv q.
Proof.
  intros HR (segs & Hs & ->). exists segs. split; [|done]. eapply Forall_impl; [exact Hs|]. cbv beta.
  intros s [H1' (j & Hj & Ej)]. split; [done|]. exists j. split; [lia|done].
Qed.

Lemma acked_mono R R' n k : R <= R' -> acked_upto R n k -> acked_upto R' n k.
Proof. intros HR (b & Hb & E). exists b. split; [lia|done]. Qed.

Lemma modest_datagram R conv q : modest_packet R conv q -> una_datagram R q.
Proof.
  intros (segs & Hs & ->). unfold una_datagram. rewrite (wire_datagram conv).
  2: { eapply Forall_impl; [exact Hs|]. by intros s [? _]. }
  2: { pose proof (length_wire segs). unfold input_fuel. lia. }
  rewrite Forall_fmap. eapply Forall_impl; [exact Hs|]. intros s [_ Hj]. exact Hj.
Qed.

Lemma streams_bound L rlog p c : streams L rlog p -> zlen (L (negb c)) <= 2147483648 ->
  0 <= received rlog p c <= zlen (L (negb c)).
Proof.
  intros Hst Hl. destruct (Hst c) as (Hi & _). split; [apply rx_next_nonneg|].
  eapply stream_next; [|exact Hi]. pose proof (zlen_nonneg (L (negb c))). lia.
Qed.

Lemma set_peer_same c k p : set_peer c k p c = k.
Proof. unfold set_peer. by rewrite Bool.eqb_reflx. Qed.
Lemma set_peer_other c d k p : d <> c -> set_peer c k p d = p d.
Proof. intros Hd. unfold set_peer. destruct (Bool.eqb_spec d c); done. Qed.

Lemma kcp_step_conv op k : op_ok op -> kcp_wf k -> k_conv (snd (kcp_step op k)) = k_conv k.
Proof.
  intros Hop Hwf. apply (kcp_step_ind (fun k' => k_conv k' = k_conv k)); try done.
  - by intros k1 k2 (-> & _).
  - intros ft k1 Hwf1 <-. destruct (flush_keeps ft k1 (fun _ => True) Hwf1 I) as (E & _); [by apply Forall_forall|done].
  - intros b ->. apply send_frame.
  - intros m ->. unfold set_mtu. by case_goal.
Qed.

Lemma peers_call_ok o p log c op : local_ok o -> sound log p -> peers_call o p = Some (c, op) ->
  op_ok op /\ (forall L m, zlen L <= 2147483648 -> L = log (negb c) ++ m -> op_genuine (log_src L) (zlen L) (k_conv (p c)) op) /\
  forall L rlog, streams L rlog p ->
    match op with OpInput data _ _ => una_datagram (received rlog p (negb c)) data | _ => True end.
Proof.
  intros Ho Hs. destruct (Hs (negb c)) as (_ & (_ & _ & Hsent & _) & Hconv). rewrite negb_involutive in Hconv.
  destruct o as [d o|d n pt nd]; cbn [peers_call local_ok] in *.
  - intros [= -> ->]. by destruct op; split_and!.
  - intros Hc. apply fmap_Some in Hc as (data & Hd & Hc). injection Hc as -> ->.
    pose proof (Forall_lookup_1 _ _ _ _ Hsent Hd) as Hp. cbn [op_ok op_genuine]. split; [by eapply history_bytes|].
    split.
    + intros L m HL ->. apply history_genuine; [done|]. rewrite <- Hconv. by apply history_packet_mono.
    + intros L rlog Hst. destruct (Hst (negb d)) as (_ & Hm & _). eapply modest_datagram.
      exact (Forall_lookup_1 _ _ _ _ Hm Hd).
Qed.

(** What only the end [c] has. *)
Definition only {A} (c : bool) (x : list A) (d : bool) : list A := if Bool.eqb d c then x else [].

(** [streams] after a step of the end [c]. *)
Lemma acked_total R n log k : kcp_wf k -> source_inv log k -> acked_upto R n k -> R <= 2147483648 -> zlen log <= 2147483648 -> n = zlen log.
Proof.
  intros Hwf (Hn & _) (b & Hb & Eu & En) HR Hl. destruct (wf_snd _ Hwf) as [_ Hnx _ Hlen _]. pose proof (zlen_nonneg log).
  rewrite Hn, Eu, u32_add_l in Hnx. pose proof (zlen_nonneg (k_snd_buf k)). rewrite !u32_id in Hnx by (unfold is_u32; lia). lia.
Qed.

Lemma streams_step L rlog p log c op : sound log p -> op_ok op -> streams L rlog p ->
  (forall c, zlen (L c) <= 2147483648 /\ Forall entry_ok (L c) /\ exists m, L c = log c ++ m) ->
  op_genuine (log_src (L (negb c))) (zlen (L (negb c))) (k_conv (p c)) op ->
  match op with OpInput data _ _ => una_datagram (received rlog p (negb c)) data | _ => True end ->
  exists taken, streams L (fun d => rlog d ++ only c taken d) (set_peer c (snd (kcp_step op (p c))) p) /\
    ret_bytes (fst (kcp_step op (p c))) = mjoin (snd <$> taken).
Proof.
  intros Hs Hop Hst HL Hgen Huna. destruct (Hs c) as (Hwf & Hsrc & _). destruct (HL (negb c)) as (Hlen & Hen & _).
  destruct (HL c) as (HLc & _ & m & Em).
  pose proof (streams_bound L rlog p c Hst Hlen) as HRc. pose proof (streams_bound L rlog p (negb c) Hst) as HRd.
  rewrite negb_involutive in HRd. specialize (HRd HLc).
  destruct (Hst c) as ((Hi1 & Hi2 & Hi3 & Hi4 & _) & Hmod & n & Hack).
  destruct (kcp_step_stream (log_src (L (negb c))) (zlen (L (negb c))) (received rlog p c)) with (log := rlog c) (op := op) (k := p c)
    as (taken & (Hj1 & Hj2 & Hj3 & Hj4 & Hlow) & Hread); [lia|intros; by apply log_src_frg|done|done|by split_and!|].
  destruct (kcp_step_acked (received rlog p (negb c)) n op (p c) Hop Hwf ltac:(lia)) as (n' & Hack'); [|done|done|].
  { rewrite (acked_total _ _ (log c) (p c) Hwf Hsrc Hack) by (try lia; rewrite Em, zlen_app in HLc; pose proof (zlen_nonneg m); lia).
    rewrite Em, zlen_app in HLc. pose proof (zlen_nonneg m). lia. }
  pose proof (kcp_step_speaks op (p c) Hop Hwf) as Hspeak. pose proof (kcp_step_conv op (p c) Hop Hwf) as Hcv.
  set (k' := snd (kcp_step op (p c))) in *. exists taken. split; [|done].
  set (rlog' := fun d => rlog d ++ only c taken d). set (p' := set_peer c k' p).
  assert (Rc : received rlog' p' c = rx_next (rlog c ++ taken, k')).
  { unfold received, rlog', p', only. by rewrite set_peer_same, Bool.eqb_reflx. }
  assert (Hne : forall d, d <> c -> rlog' d = rlog d /\ p' d = p d).
  { intros d Hd. unfold rlog', p', only. rewrite set_peer_other by done. destruct (Bool.eqb_spec d c); [done|]. by rewrite app_nil_r. }
  assert (Rd : received rlog' p' (negb c) = received rlog p (negb c)).
  { unfold received. by destruct (Hne (negb c)) as [-> ->]; [destruct c|]. }
  intros d. destruct (Bool.bool_dec d c) as [->|Hd].
  - rewrite Rc, Rd. unfold rlog', p', only. rewrite set_peer_same, Bool.eqb_reflx. split_and!.
    + split_and!; try done. apply rx_next_nonneg.
    + eapply Forall_impl; [exact Hspeak|]. cbv beta. intros q [Hq|(segs & Hq & ->)].
      * rewrite Hcv. apply (modest_mono (received rlog p c)); [done|]. by apply (proj1 (Forall_forall _ _) Hmod).
      * exists segs. split; [|done]. eapply Forall_impl; [exact Hq|]. intros s [Hss Eu]. split; [done|].
        exists (rx_next (rlog c ++ taken, k')). destruct Hj2 as [En _]. split; [split; [apply rx_next_nonneg|done]|by rewrite Eu].
    + by exists n'.
  - assert (d = negb c) as -> by (destruct c, d; done). destruct (Hne (negb c) Hd) as [E1 E2]. rewrite E1, E2, Rd.
    destruct (Hst (negb c)) as (H1' & H2' & n2 & H3'). split_and!; [done|done|]. exists n2.
    rewrite negb_involutive in *. rewrite Rc. by apply (acked_mono (received rlog p c)).
Qed.



(** One step: the histories grow by what was admitted, and, whatever they will be in the
    end, what is read continues the peer's. *)
Lemma peers_step_ok o p log : local_ok o -> sound log p ->
  let '(es, p') := peers_step o p in
  exists more, sound (fun c => log c ++ more c) p' /\
    (forall c, outbox (log c ++ more c) (p' c) = outbox (log c) (p c) ++ written_at c es) /\
    forall L rlog, (forall c, zlen (L c) <= 2147483648 /\ Forall entry_ok (L c) /\ exists m, L c = log c ++ m) -> streams L rlog p ->
      exists taken, streams L (fun c => rlog c ++ taken c) p' /\ forall c, read_at c es = mjoin (snd <$> taken c).
Proof.
  intros Ho Hs. unfold peers_step. destruct (peers_call o p) as [[c op]|] eqn:Ec.
  2: { exists (fun _ => []). split_and!.
    - intros d. rewrite app_nil_r. apply Hs.
    - intros d. by rewrite !app_nil_r.
    - intros L rlog _ Hst. exists (fun _ => []). split; [|done]. eapply streams_ext; [|exact Hst]. intros d. apply app_nil_r. }
  destruct (peers_call_ok o p log c op Ho Hs Ec) as (Hop & Hg & Hu). destruct (Hs c) as (Hwf & Hsrc & Hconv).
  pose proof (kcp_step_wf op (p c) Hop Hwf) as Hwf'. pose proof (kcp_step_conv op (p c) Hop Hwf) as Hconv'.
  destruct (kcp_step_source op (log c) (p c) Hop Hwf Hsrc) as (more & Hsrc' & Hout).
  pose proof (fun L rlog Hst HL => streams_step L rlog p log c op Hs Hop Hst HL) as Hstream.
  destruct (kcp_step op (p c)) as [r k]. cbn [fst snd] in *.
  exists (only c more). split_and!.
  - intros d. unfold only. destruct (Bool.eqb_spec d c) as [->|Hd].
    + rewrite set_peer_same, set_peer_other by by destruct c. split_and!; [done|done|congruence].
    + rewrite app_nil_r, set_peer_other by done. destruct (Hs d) as (? & ? & ?). split_and!; [done|done|].
      assert (c = negb d) as -> by (destruct c, d; done). rewrite set_peer_same. congruence.
  - intros d. unfold only, written_at. csimpl. cbn [fst snd]. rewrite app_nil_r.
    destruct (Bool.eqb_spec d c) as [->|Hd]; [by rewrite set_peer_same|]. by rewrite set_peer_other, !app_nil_r.
  - intros L rlog HL Hst. destruct (HL (negb c)) as (Hlen & _ & m & Em).
    destruct (Hstream L rlog Hst HL) as (taken & Hst' & Er); [by apply (Hg _ m)|by apply (Hu L)|].
    exists (only c taken). split; [done|].
    intros d. unfold only, read_at. csimpl. cbn [fst snd]. rewrite app_nil_r. by destruct (Bool.eqb d c).
Qed.

Lemma written_at_app c es es' : written_at c (es ++ es') = written_at c es ++ written_at c es'.
Proof. unfold written_at. by rewrite fmap_app, join_app. Qed.
Lemma read_at_app c es es' : read_at c (es ++ es') = read_at c es ++ read_at c es'.
Proof. unfold read_at. by rewrite fmap_app, join_app. Qed.

Lemma peers_run_ok ops p log : Forall local_ok ops -> sound log p ->
  let '(es, p') := peers_run ops p in
  exists more, sound (fun c => log c ++ more c) p' /\
    (forall c, outbox (log c ++ more c) (p' c) = outbox (log c) (p c) ++ written_at c es) /\
    forall L rlog, (forall c, zlen (L c) <= 2147483648 /\ Forall entry_ok (L c) /\ exists m, L c = log c ++ more c ++ m) -> streams L rlog p ->
      exists taken, streams L (fun c => rlog c ++ taken c) p' /\ forall c, read_at c es = mjoin (snd <$> taken c).
Proof.
  intros Hops. revert p log; induction Hops as [|o ops Ho Hops IH]; intros p log Hs; cbn [peers_run].
  { exists (fun _ => []). split_and!.
    - intros d. rewrite app_nil_r. apply Hs.
    - intros d. by rewrite !app_nil_r.
    - intros L rlog _ Hst. exists (fun _ => []). split; [|done]. eapply streams_ext; [|exact Hst]. intros d. apply app_nil_r. }
  pose proof (peers_step_ok o p log Ho Hs) as H1'. destruct (peers_step o p) as [e1 p1]. destruct H1' as (m1 & Hs1 & Ho1 & Hr1).
  specialize (IH p1 _ Hs1). destruct (peers_run ops p1) as [e2 p2]. destruct IH as (m2 & Hs2 & Ho2 & Hr2).
  exists (fun c => m1 c ++ m2 c). split_and!.
  - intros c. rewrite (assoc_L (++)). apply Hs2.
  - intros c. by rewrite (assoc_L (++)), Ho2, Ho1, written_at_app, (assoc_L (++)).
  - intros L rlog HL Hst. destruct (Hr1 L rlog) as (t1 & Hst1 & Er1); [|done|].
    { intros c. destruct (HL c) as (? & ? & m & E). split_and!; [done|done|]. exists (m1 c ++ m2 c ++ m). by rewrite E, <- !(assoc_L (++)). }
    destruct (Hr2 L (fun c => rlog c ++ t1 c)) as (t2 & Hst2 & Er2); [|done|].
    { intros c. destruct (HL c) as (? & ? & m & E). split_and!; [done|done|]. exists m. by rewrite E, <- !(assoc_L (++)). }
    exists (fun c => t1 c ++ t2 c). split.
    + eapply streams_ext; [|exact Hst2]. intros c. by rewrite (assoc_L (++)).
    + intros c. by rewrite read_at_app, Er1, Er2, fmap_app, join_app.
Qed.
End Peers.
