(* ===== verification/KcpTheorems.v ===== *)
(** * What the KCP state machine guarantees

    What two connections and a network that reorders, duplicates and loses make of two byte
    streams, from the invariants of [KcpPeers]; then what one machine guarantees whatever
    arrives: no panic, well-formed packets, the window, the optimised flush. *)
From S2P Require Import Prelude Word Env Segment Queue Heap KcpState KcpSend KcpFlush KcpInput KcpInv.
From S2P Require Import KcpWriter KcpFlushInv KcpSink KcpDelivery KcpStream KcpNaive KcpScan KcpOracle.
From S2P Require Import KcpSpec KcpTimer KcpSource KcpAcked KcpPeers.
Local Open Scope Z_scope.

Section Ends.
Context {O C : Type} `{Output O, Clock C} `{!SentLog O}.

(** Two fresh ends of a conversation. *)
Definition fresh_peers (conv : Z) (o : bool -> O) (c : bool -> C) (snmp : Snmp) : Peers :=
  fun e => with_clock conv (o e) (c e) snmp.

Lemma fresh_sound conv (o : bool -> O) (c : bool -> C) snmp : is_u32 conv -> (forall e, sent (o e) = []) ->
  sound (fun _ => []) (fresh_peers conv o c snmp).
Proof. intros Hc Ho e. split_and!; [by apply with_clock_wf|by apply with_clock_source|done]. Qed.

Lemma fresh_streams L conv (o : bool -> O) (c : bool -> C) snmp : is_u32 conv -> (forall e, sent (o e) = []) ->
  streams L (fun _ => []) (fresh_peers conv o c snmp).
Proof.
  intros Hc Ho e. split_and!.
  - by apply with_clock_stream.
  - cbn [fresh_peers with_clock k_output]. rewrite Ho. constructor.
  - exists 0, 0. done.
Qed.

(** The bytes of an end's history, and what the other end did with them. *)
Lemma history_read L rlog (k : Kcp O C) : stream_inv (log_src L) (zlen L) 0 rlog k -> zlen L <= 2147483648 -> Forall entry_ok L ->
  rlog = take (length rlog) L /\
  (rx_next (rlog, k) = zlen L -> mjoin (snd <$> L) = mjoin (snd <$> rlog) ++ queued_bytes (k_rcv_queue k)).
Proof.
  intros Hi HL Hen. pose proof (zlen_nonneg L). pose proof (zlen_nonneg rlog).
  destruct (stream_log (O := O) (C := C) (log_src L) (zlen L) 0) with (log := rlog) (k := k) as (El & Hl & Eq);
    [lia|exact Hi|].
  rewrite log_src_take in El by lia. unfold zlen in El. rewrite Nat2Z.id in El. split; [done|].
  intros En. unfold rx_next in En. cbn [fst snd] in En. pose proof (zlen_nonneg (k_rcv_queue k)).
  assert (E : L = rlog ++ (content <$> k_rcv_queue k)).
  { destruct Hi as (_ & (_ & Hs & _) & _). unfold rx_stream, rx_next in Hs. cbn [fst snd] in Hs. rewrite Hs, En.
    assert (EL : log_src L <$> seqZ 0 (zlen L) = L) by (rewrite log_src_take by lia; apply take_ge; unfold zlen; lia).
    etrans; [symmetry; exact EL|].
    apply list_fmap_ext. intros i x Hx. apply list_elem_of_lookup_2, elem_of_seqZ in Hx. unfold closed_src.
    by destruct (Z.leb_spec 0 x), (Z.ltb_spec x (zlen L)); try lia. }
  rewrite E at 1. rewrite fmap_app, join_app. f_equal. unfold queued_bytes. by rewrite <- list_fmap_compose.
Qed.

(** The histories of the two ends, from what they took from their applications. *)
Lemma histories_ok L (p : Peers (O := O) (C := C)) (w : bool -> list Z) : sound L p ->
  (forall e, outbox (L e) (p e) = w e) -> (forall e, zlen (w e) <= 2147483648) ->
  forall e, zlen (L e) <= 2147483648 /\ Forall entry_ok (L e).
Proof.
  intros Hs Hout Hw e. destruct (Hs e) as (_ & (_ & _ & _ & He) & _). apply Forall_app in He as [He _]. split; [|done].
  pose proof (log_length _ He). specialize (Hw e). rewrite <- (Hout e) in Hw. unfold outbox in Hw. rewrite zlen_app in Hw.
  pose proof (zlen_nonneg (queued_bytes (k_snd_queue (p e)))). lia.
Qed.

(** What the invariants say of what was read. *)
Lemma histories_read L rlog (p : Peers (O := O) (C := C)) (w : bool -> list Z) : sound L p -> streams L rlog p ->
  (forall e, outbox (L e) (p e) = w e) -> (forall e, zlen (w e) <= 2147483648) ->
  forall e, let r := mjoin (snd <$> rlog (negb e)) in
    r `prefix_of` w e /\ (wait_snd (p e) = 0%nat -> w e = r ++ queued_bytes (k_rcv_queue (p (negb e)))).
Proof.
  intros Hs Hst Hout Hw e. destruct (histories_ok L p w Hs Hout Hw e) as [HLe Hen]. destruct (Hs e) as (Hwf & Hsrc & _).
  destruct (Hst (negb e)) as (Hi & _). rewrite negb_involutive in Hi.
  destruct (history_read _ _ _ Hi HLe Hen) as [Ht Hall]. cbv zeta. rewrite <- (Hout e). split.
  - unfold outbox. rewrite Ht.
    exists (mjoin (snd <$> drop (length (rlog (negb e))) (L e)) ++ queued_bytes (k_snd_queue (p e))).
    rewrite (assoc_L (++)), <- join_app, <- fmap_app, take_drop. done.
  - intros Hz. unfold wait_snd in Hz. assert (Hb : k_snd_buf (p e) = []) by (apply length_zero_iff_nil; lia).
    assert (Hq : k_snd_queue (p e) = []) by (apply length_zero_iff_nil; lia).
    destruct (Hst e) as (_ & _ & n & Ha). pose proof (streams_bound L _ p (negb e) Hst) as HR. rewrite negb_involutive in HR. specialize (HR HLe).
    pose proof (acked_total _ _ _ _ Hwf Hsrc Ha ltac:(lia) HLe) as En. destruct Ha as (b & Hb2 & _ & Eb). rewrite Hb in Eb.
    change (zlen ([] : list Segment)) with 0 in Eb. unfold outbox. rewrite Hq. unfold queued_bytes at 1. cbn [fmap list_fmap].
    rewrite app_nil_r. apply Hall. unfold received in *. lia.
Qed.

(** C5: a reliable, ordered byte stream in both directions.  Let two fresh ends of a
    conversation run any calls, in any interleaving, while the network delivers packets they
    wrote in any order, any number of times, or never.  Then what an end has read is a prefix
    of what the other end's [send] took (less than 2 GiB), and when nothing of that is left
    unacknowledged, the rest of it is waiting to be read; nothing panics. *)
Theorem kcp_reliable conv (o : bool -> O) (c : bool -> C) snmp ops :
  is_u32 conv -> (forall e, sent (o e) = []) -> Forall local_ok ops ->
  let '(es, p) := peers_run ops (fresh_peers conv o c snmp) in
  (forall e, zlen (written_at e es) <= 2147483648) ->
  forall e,
    read_at (negb e) es `prefix_of` written_at e es /\
    (wait_snd (p e) = 0%nat -> written_at e es = read_at (negb e) es ++ queued_bytes (k_rcv_queue (p (negb e)))) /\
    k_panic (p e) = false.
Proof.
  intros Hc Ho Hops. pose proof (peers_run_ok ops _ _ Hops (fresh_sound conv o c snmp Hc Ho)) as Hrun.
  destruct (peers_run ops _) as [es p]. destruct Hrun as (L & Hs & Hout & Hread). intros Hw.
  change (forall e, outbox (L e) (p e) = written_at e es) in Hout. pose proof (histories_ok L p _ Hs Hout Hw) as HL.
  destruct (Hread L (fun _ => [])) as (rlog & Hst & Er).
  { intros e. destruct (HL e). split_and!; [done|done|]. exists []. by rewrite app_nil_r. }
  { by apply fresh_streams. }
  intros e. destruct (histories_read L rlog p _ Hs Hst Hout Hw e) as [Hp Hall]. rewrite (Er (negb e)).
  split_and!; [exact Hp|exact Hall|]. by destruct (Hs e) as ([] & _).
Qed.
End Ends.

(** A message sent once, arriving twice, read and acknowledged. *)
Definition exchange_ops : list peers_op :=
  [Local true (OpSend [1; 2; 3]); Local true (OpFlush Full); Local true (OpFlush Full);
   Arrive false 0 Regular false; Arrive false 0 Regular false; Local false (OpRecv [0; 0; 0; 0]);
   Local false (OpFlush Full); Arrive true 0 Regular false].

Lemma kcp_reliable_witness :
  let '(es, p) := peers_run exchange_ops (fresh_peers 7 (fun _ => [] : list (list Z)) (fun _ => [5]) snmp_new) in
  wait_snd (p true) = 0%nat /\ read_at false es = [1; 2; 3] /\ written_at true es = read_at false es.
Proof.
  pose proof (kcp_reliable 7 (fun _ => [] : list (list Z)) (fun _ => [5]) snmp_new exchange_ops
    ltac:(unfold is_u32; lia) (fun _ => eq_refl) ltac:(repeat constructor; unfold is_u8; try done; lia)) as Hr.
  destruct (peers_run exchange_ops _) as [es p] eqn:E.
  assert (Ew : wait_snd (p true) = 0%nat) by (apply (f_equal (fun x => wait_snd (snd x true))) in E; cbn [snd] in E; rewrite <- E; by vm_compute).
  assert (Er : read_at false es = [1; 2; 3]) by (apply (f_equal (fun x => read_at false (fst x))) in E; cbn [fst] in E; rewrite <- E; by vm_compute).
  assert (El : forall e, zlen (written_at e es) <= 2147483648).
  { intros e. apply (f_equal (fun x => zlen (written_at e (fst x)))) in E. cbn [fst] in E. rewrite <- E. destruct e; vm_compute; discriminate. }
  assert (Eq : queued_bytes (k_rcv_queue (p false)) = []).
  { apply (f_equal (fun x => queued_bytes (k_rcv_queue (snd x false)))) in E. cbn [snd] in E. rewrite <- E. by vm_compute. }
  split_and!; [done|done|]. destruct (Hr El true) as (_ & Hall & _). cbn [negb] in Hall. by rewrite (Hall Ew), Eq, app_nil_r.
Defined.

(** ** What the KCP state machine guarantees

    The properties of [kcp.rs] as a whole, each with a concrete instance of its
    hypotheses. *)
(** The state machine the closed examples run: it collects its packets, and its
    clock stands at 5. *)
Definition example_kcp : Kcp (list (list Z)) (list Z) := with_clock 7 [] [5] snmp_new.

(** A run of every kind of operation. *)
Definition example_ops : list kcp_op :=
  [OpNodelay 1 10 2 1; OpWndSize 128 128; OpSend [1; 2; 3]; OpUpdate; OpInput [9; 9] Regular true;
   OpCheck; OpFlush Full; OpRecv [0; 0; 0]; OpSetMtu 100; OpSend [4]; OpFlush AckOnly].

Lemma example_ops_ok : Forall op_ok example_ops.
Proof. repeat constructor; unfold is_u8; try done; lia. Qed.

Lemma example_window : clock_window 0 0 [5].
Proof.
  exists (fun _ => 5). intros n. split_and!; [lia|lia|lia|].
  unfold reading. assert (clock_after n [5] = [5]) as ->; [|done].
  induction n as [|n IH]; [done|exact IH].
Qed.

(** C13: switching the flush-scan optimisation off changes nothing that can be
    observed.  From a fresh connection and on a monotonic clock covering less
    than 2^29 ms, any sequence of operations returns the same results, writes
    the same packets at the same times and leaves the same state as the naive
    machine that scans the whole send buffer, the optimisation's own summary
    apart. *)
Theorem flush_scan_is_naive {O C : Type} `{Output O, Clock C} b conv (o : O) (c : C) snmp f ops :
  is_u32 conv -> clock_window b 0 c -> fs_enabled f = false -> Forall op_ok ops ->
  let k := with_clock conv o c snmp in
  let '(rs, k') := kcp_run ops k in
  let '(rs_naive, k_naive) := kcp_run ops (k <| k_flush_scan := f |>) in
  rs_naive = rs /\ k_output k_naive = k_output k' /\
  exists f', fs_enabled f' = false /\ k_naive = k' <| k_flush_scan := f' |>.
Proof.
  intros Hconv Hc Hf Hops k.
  destruct (kcp_run_oracle b ops k (k <| k_flush_scan := f |>) Hops) as (Er & _ & _ & f' & Hf' & Ek).
  { by apply with_clock_paired. }
  destruct (kcp_run ops k), (kcp_run ops (k <| k_flush_scan := f |>)). cbn [fst snd] in *. subst.
  split_and!; [done|done|by exists f'].
Qed.

Lemma flush_scan_is_naive_witness :
  exists f, fs_enabled f = false /\
    fst (kcp_run example_ops (example_kcp <| k_flush_scan := f |>)) = fst (kcp_run example_ops example_kcp).
Proof.
  exists (flush_scan_default <| fs_enabled := false |>). split; [done|].
  pose proof (flush_scan_is_naive 0 7 ([] : list (list Z)) [5] snmp_new (flush_scan_default <| fs_enabled := false |>)
    example_ops ltac:(unfold is_u32; lia) example_window eq_refl example_ops_ok) as Hn.
  cbv zeta in Hn. unfold example_kcp.
  destruct (kcp_run example_ops (with_clock _ _ _ _)), (kcp_run example_ops (_ <| k_flush_scan := _ |>)).
  apply Hn.
Defined.

(** delivery is in order and exactly once.  Whatever copies of the peer's
    segments the network hands to a fresh connection, in whatever order and
    however often, what [recv] has given out is a prefix of the peer's segment
    sequence, each segment once, and the bytes returned are its payloads. *)
Theorem delivery_in_order {O C : Type} `{Output O, Clock C} conv (o : O) (c : C) snmp src ops :
  is_u32 conv -> rx_genuine src ops ([], with_clock conv o c snmp) ->
  let '(out, (log, k)) := rx_run ops ([], with_clock conv o c snmp) in
  log = src <$> seqZ 0 (zlen log) /\
  log ++ (content <$> k_rcv_queue k) = src <$> seqZ 0 (zlen log + zlen (k_rcv_queue k)) /\
  out = mjoin (snd <$> log) /\ k_rcv_nxt k = u32 (zlen log + zlen (k_rcv_queue k)).
Proof.
  intros Hconv Hg.
  assert (receiver_wf src ([], with_clock conv o c snmp)) as Hwf.
  { split; [by apply with_clock_wf|]. split_and!; [done|done|constructor]. }
  pose proof (rx_run_inv src ops _ Hwf Hg) as Hr.
  destruct (rx_run ops _) as [out [log k]]. destruct Hr as ((_ & Hi) & -> & _).
  pose proof Hi as (Hn & Hs & _). unfold rx_next, rx_stream in Hn, Hs. cbn [fst snd length] in *. rewrite drop_0.
  split_and!; try done. by apply (rx_log_src src log k).
Qed.

Definition example_src (i : Z) : Z * list Z := (0, [i; i + 1]).
Definition example_push (i : Z) : rx_op :=
  RxData (segment_default <| sg_sn := i |>) [i; i + 1].

Definition example_rx : list rx_op :=
  [example_push 1; example_push 0; example_push 1; RxRecv [0; 0]; RxRecv [0; 0]].

Lemma example_rx_genuine : rx_genuine example_src example_rx ([], example_kcp).
Proof.
  unfold example_rx. cbn [rx_genuine example_push]. split_and!; try exact I; cbn [rx_step]; unfold genuine;
    [exists 1|exists 0|exists 1]; split_and!; vm_compute; (reflexivity || discriminate).
Qed.

Lemma delivery_in_order_witness :
  fst (rx_run example_rx ([], example_kcp)) = mjoin (snd <$> (example_src <$> [0; 1])).
Proof.
  pose proof (delivery_in_order 7 ([] : list (list Z)) [5] snmp_new example_src example_rx
    ltac:(unfold is_u32; lia) example_rx_genuine) as Hd.
  fold example_kcp in Hd.
  assert (zlen (fst (snd (rx_run example_rx ([], example_kcp)))) = 2) as El by (vm_compute; reflexivity).
  destruct (rx_run example_rx ([], example_kcp)) as [out [log k]]. cbn [fst snd] in *.
  destruct Hd as (Hlog & _ & -> & _). by rewrite Hlog, El.
Defined.

(** C27: no head-of-line stall.  In every state a run of a fresh connection's
    receive side reaches, the next expected segment is not left waiting in the
    reordering buffer while the receive window has room for it. *)
Theorem delivery_never_stalls {O C : Type} `{Output O, Clock C} conv (o : O) (c : C) snmp src ops :
  is_u32 conv -> rx_genuine src ops ([], with_clock conv o c snmp) ->
  let k := snd (snd (rx_run ops ([], with_clock conv o c snmp))) in
  sh_has (k_rcv_buf k) (k_rcv_nxt k) = false \/ k_rcv_wnd k <= zlen (k_rcv_queue k).
Proof.
  intros Hconv Hg. apply (rx_run_not_stalled src); [|by left|done].
  split; [by apply with_clock_wf|]. split_and!; [done|done|constructor].
Qed.

Lemma delivery_never_stalls_witness :
  let k := snd (snd (rx_run example_rx ([], example_kcp))) in
  sh_has (k_rcv_buf k) (k_rcv_nxt k) = false \/ k_rcv_wnd k <= zlen (k_rcv_queue k).
Proof.
  apply (delivery_never_stalls 7 ([] : list (list Z)) [5] snmp_new example_src example_rx
    ltac:(unfold is_u32; lia) example_rx_genuine).
Defined.

(** C22: messages arrive whole.  When the peer's segments are the fragments of its
    messages, a run of the receive side stands between two messages after every
    operation: what it returned is the first messages, unchanged and in order.
    Once every fragment of the next message has come, [recv] with room for it
    returns exactly that message. *)
Theorem messages_intact {O C : Type} `{Output O, Clock C} conv (o : O) (c : C) snmp mss msg src ops :
  is_u32 conv -> message_source mss msg src -> rx_genuine src ops ([], with_clock conv o c snmp) ->
  let '(out, (log, k)) := rx_run ops ([], with_clock conv o c snmp) in
  exists j, zlen log = boundary mss msg j /\ out = mjoin (msg <$> seq 0 j) /\
    forall room, boundary mss msg (S j) <= zlen log + zlen (k_rcv_queue k) -> zlen (msg j) <= zlen room ->
      fst (fst (recv room k)) = zlen (msg j) /\ take (length (msg j)) (snd (fst (recv room k))) = msg j.
Proof.
  intros Hconv Hsrc Hg.
  assert (receiver_wf src ([], with_clock conv o c snmp)) as Hwf.
  { split; [by apply with_clock_wf|]. split_and!; [done|done|constructor]. }
  pose proof (rx_run_inv src ops _ Hwf Hg) as Hr.
  pose proof (rx_run_boundary mss msg src Hsrc ops _ Hwf Hg ltac:(by exists 0%nat)) as [j Hj].
  destruct (rx_run ops _) as [out [log k]]. destruct Hr as ((Hk & Hi) & -> & _).
  cbn [fst snd length] in *. rewrite drop_0. exists j.
  pose proof (rx_log_src src log k Hi) as Hlog. rewrite Hj in Hlog.
  split_and!; [done|by rewrite Hlog, (src_messages mss msg)|].
  intros room Hall Hroom. pose proof (rx_queue_src src log k Hi) as Hq.
  cbn [boundary] in Hall. rewrite Hj in *.
  apply (recv_message mss (msg j) room (src <$> seqZ (boundary mss msg (S j))
    (zlen (k_rcv_queue k) - Z.of_nat (fragment_count mss (length (msg j)))))); try apply Hsrc; try done.
  rewrite Hq, <- (src_message mss msg src Hsrc), <- fmap_app. cbn [boundary]. rewrite <- seqZ_app by lia.
  do 2 f_equal. lia.
Qed.

(** Messages of one segment each. *)
Lemma example_messages : message_source 10 (fun j => [Z.of_nat j; Z.of_nat j + 1]) example_src.
Proof.
  constructor; [lia|cbn; lia|]. intros j i s. cbn.
  assert (boundary 10 (fun j => [Z.of_nat j; Z.of_nat j + 1]) j = Z.of_nat j) as ->.
  { induction j as [|j IH]; [done|]. cbn [boundary]. rewrite IH. change (fragment_count 10 _) with 1%nat. lia. }
  destruct i as [|i]; [|done]. intros [= <-]. unfold example_src, content, frag_seg. ksimpl.
  rewrite Z.add_0_r. done.
Qed.

Lemma messages_intact_witness :
  fst (rx_run example_rx ([], example_kcp)) = [0; 1] ++ [1; 2].
Proof.
  pose proof (messages_intact 7 ([] : list (list Z)) [5] snmp_new 10 _ example_src example_rx
    ltac:(unfold is_u32; lia) example_messages example_rx_genuine) as Hd.
  fold example_kcp in Hd.
  assert (zlen (fst (snd (rx_run example_rx ([], example_kcp)))) = 2) as El by (vm_compute; reflexivity).
  destruct (rx_run example_rx ([], example_kcp)) as [out [log k]]. cbn [fst snd] in *.
  destruct Hd as (j & Hj & -> & _). rewrite El in Hj.
  assert (forall j, boundary 10 (fun j => [Z.of_nat j; Z.of_nat j + 1]) j = Z.of_nat j) as Eb.
  { intros j'. induction j' as [|j' IH]; [done|]. cbn [boundary]. rewrite IH. change (fragment_count 10 _) with 1%nat. lia. }
  rewrite Eb in Hj. assert (j = 2%nat) as -> by lia. reflexivity.
Defined.

(** C21: a bounded packet channel never drops a KCP packet.  Over any run of a
    fresh connection, [flush] asks for the channel's capacity often enough that
    no packet is written into a full channel. *)
Theorem channel_never_drops {O C : Type} `{BoundedSink O, Clock C} conv (o : O) (c : C) snmp ops :
  is_u32 conv -> Forall op_ok ops ->
  drops (k_output (snd (kcp_run ops (with_clock conv o c snmp)))) = drops o.
Proof. intros Hconv Hops. rewrite kcp_run_drops; [done|done|by apply with_clock_wf]. Qed.

(** The session's sink over a channel with no free slot, drained between the
    queries. *)
Definition example_channel : KcpOutput := mkKcpOutput 28 (mkChannel false 0 [] [] [2%nat; 0%nat; 3%nat]).

Lemma channel_never_drops_witness :
  let k := snd (kcp_run example_ops (with_clock 7 example_channel [5] snmp_new)) in
  drops (k_output k) = 0%nat /\ length (ch_sent (ko_tx (k_output k))) = 1%nat.
Proof.
  split; [|vm_compute; reflexivity]. cbv zeta. change 0%nat with (drops example_channel).
  apply (channel_never_drops 7 example_channel [5] snmp_new example_ops ltac:(unfold is_u32; lia) example_ops_ok).
Defined.

(** Whatever the operations, the packets are made of whole segments of the conversation. *)
Definition whole_packets {C : Type} conv (k : Kcp (list (list Z)) C) : Prop :=
  k_conv k = conv /\ Forall (fun p => exists segs, Forall (sendable conv) segs /\ p = mjoin (wire_bytes <$> segs)) (k_output k).

Lemma flush_whole {C : Type} `{Clock C} conv ft (k : Kcp (list (list Z)) C) : kcp_wf k -> whole_packets conv k -> whole_packets conv (snd (flush ft k)).
Proof.
  intros Hwf [<- Ho]. destruct (flush_keeps ft k (fun _ => True) Hwf I) as (Ec & _); [by apply Forall_forall|].
  split; [exact Ec|].
  apply (flush_packets (Forall (fun p => exists segs, Forall (sendable (k_conv k)) segs /\ p = mjoin (wire_bytes <$> segs)))
    (sendable (k_conv k)) False (k_mtu k)) with (P := fun _ => True); try done.
  - intros o p (_ & segs & _ & Hs & ->) Hok. apply Forall_app. split; [done|]. apply Forall_singleton. by exists segs.
  - by apply Forall_forall.
Qed.

Lemma run_whole {C : Type} `{Clock C} conv ops : forall k : Kcp (list (list Z)) C, Forall op_ok ops -> kcp_wf k ->
  whole_packets conv k -> whole_packets conv (snd (kcp_run ops k)).
Proof.
  induction ops as [|op ops IH]; intros k Hops Hwf Hw; [done|]. apply Forall_cons in Hops as [Hop Hops]. cbn [kcp_run].
  pose proof (kcp_step_wf op k Hop Hwf) as Hwf1.
  assert (Hw1 : whole_packets conv (snd (kcp_step op k))).
  { apply (kcp_step_ind (whole_packets conv)); try done.
    - intros k1 k2 (Ec & _ & _ & Eo & _) [E1 Ho]. unfold whole_packets. by rewrite Ec, Eo.
    - intros. by apply flush_whole.
    - intros b _. destruct (send_frame b k) as (Eo & _ & Ec & _). unfold whole_packets. by rewrite Ec, Eo.
    - intros m _. unfold set_mtu. repeat (case_goal; [done|]). exact Hw. }
  destruct (kcp_step op k) as [r k1]. cbn [snd] in *. pose proof (IH k1 Hops Hwf1 Hw1) as Hk. by destruct (kcp_run ops k1).
Qed.

(** C26: every packet is well formed and fits the path.  Over any run, each packet written is a
    run of whole segments of the connection.  If the MTU is never lowered, a packet holds at
    least one segment, is at most the final MTU long, and a peer of the same conversation
    accepts it whatever its own state is.  ([shrunk_mtu]: a segment cut for a larger MTU is
    still written whole after it was lowered, behind an empty packet.) *)
Theorem packets_well_formed {C : Type} `{Clock C} conv (c : C) snmp ops :
  is_u32 conv -> Forall op_ok ops ->
  let k := snd (kcp_run ops (with_clock conv ([] : list (list Z)) c snmp)) in
  Forall (fun p => exists segs, Forall (sendable conv) segs /\ p = mjoin (wire_bytes <$> segs)) (k_output k) /\
  (ops_mtu IKCP_MTU_DEF ops ->
   Forall (fun p => p <> [] /\ zlen p <= k_mtu k /\
     forall peer : Kcp (list (list Z)) C, k_conv peer = conv -> forall pt nd, fst (input p pt nd peer) = 0) (k_output k)).
Proof.
  intros Hconv Hops k. split.
  { apply (run_whole conv ops); [done|by apply with_clock_wf|]. split; [done|constructor]. }
  intros Hmtu. destruct (kcp_run_sent_ok ops (with_clock conv [] c snmp) conv IKCP_MTU_DEF) as (mtu & _ & _ & <- & _ & Ho);
    [done|done|by apply with_clock_wf| |].
  { split_and!; [done|done| |constructor]. unfold payloads. constructor. }
  eapply Forall_impl; [exact Ho|]. cbv beta. intros p Hp. split; [|split; [by apply Hp|]].
  - destruct Hp as (_ & segs & Hne & _ & ->). destruct segs as [|sg segs]; [by destruct (Hne I)|]. intros E.
    apply (f_equal length) in E. change (wire (sg :: segs)) with (wire_bytes sg ++ wire segs) in E.
    rewrite length_app, length_wire_bytes in E. unfold OVERHEAD in E. cbn [length] in E. lia.
  - intros peer Hpeer pt nd. by apply (input_accepts conv (k_mtu k)).
Qed.

Lemma packets_well_formed_witness :
  let k := snd (kcp_run [OpSend [1; 2; 3]; OpFlush Full; OpFlush Full] example_kcp) in
  exists p, p ∈ k_output k /\ fst (input p Regular false example_kcp) = 0.
Proof.
  pose proof (packets_well_formed 7 [5] snmp_new [OpSend [1; 2; 3]; OpFlush Full; OpFlush Full]
    ltac:(unfold is_u32; lia) ltac:(repeat constructor; unfold is_u8; try done; lia)) as Hp.
  cbv zeta in *. destruct Hp as [_ Hp]. specialize (Hp I). fold example_kcp in Hp.
  destruct (k_output (snd (kcp_run [OpSend [1; 2; 3]; OpFlush Full; OpFlush Full] example_kcp))) as [|p ps] eqn:E;
    [vm_compute in E; discriminate|].
  exists p. split; [left|]. apply Forall_cons in Hp as [(_ & _ & Hp) _]. by apply Hp.
Defined.

(** A segment of 100 bytes, and then an MTU of 60. *)
Lemma shrunk_mtu :
  let k := snd (kcp_run [OpSend (replicate 76 0); OpSetMtu 60; OpFlush Full; OpFlush Full] example_kcp) in
  k_mtu k = 60 /\ length <$> k_output k = [0; 100]%nat.
Proof. vm_compute. split; reflexivity. Qed.

(** C23: no sequence of calls panics.  Every operation called with bytes and an
    MTU that fits a [u32] keeps the connection's invariant: the send buffer is
    the gap-free run from [snd_una] to [snd_nxt], the reordering buffer is a
    heap of the window after [rcv_nxt], the timers and windows are in range and
    the flush buffer is long enough. *)
Theorem kcp_never_panics {O C : Type} `{Output O, Clock C} conv (o : O) (c : C) snmp ops :
  is_u32 conv -> Forall op_ok ops ->
  let k := snd (kcp_run ops (with_clock conv o c snmp)) in
  k_panic k = false /\ kcp_wf k.
Proof.
  intros Hconv Hops k. assert (kcp_wf k) as Hwf by (apply kcp_run_wf; [done|by apply with_clock_wf]).
  split; [apply Hwf|done].
Qed.

Lemma kcp_never_panics_witness : k_panic (snd (kcp_run example_ops example_kcp)) = false.
Proof.
  apply (kcp_never_panics 7 ([] : list (list Z)) [5] snmp_new example_ops ltac:(unfold is_u32; lia) example_ops_ok).
Defined.
