(* ===== verification/KcpOpTheorems.v ===== *)
(** * What the operations of [Kcp] do

    The functional behaviour of single operations of [kcp.rs], in any state a
    connection can reach ([kcp_wf]), on every branch. *)
From S2P Require Import Prelude Word Env Segment Queue Heap KcpState KcpSend KcpFlush KcpInput KcpInv.
From S2P Require Import KcpWriter KcpFlushInv KcpSink KcpDelivery KcpNaive KcpSpec KcpTimer KcpSource.
From S2P Require Import KcpTheorems.
Local Open Scope Z_scope.

Lemma example_kcp_wf : kcp_wf example_kcp.
Proof. apply with_clock_wf. unfold is_u32. lia. Qed.

(** [send] in message mode refuses an empty buffer with -1 and one of more
    than 255 fragments with -2, changing nothing; otherwise it queues the
    buffer's fragments, which concatenate to the buffer, are at most [mss] bytes
    each, and count down to 0. *)
Theorem send_fragments {O C : Type} `{Output O, Clock C} buffer (k : Kcp O C) :
  kcp_wf k -> k_stream k = 0 ->
  let mss := Z.to_nat (k_mss k) in
  let n := fragment_count mss (length buffer) in
  let f := fragments 0 mss buffer in
  send buffer k =
    (if is_nil buffer then (-1, k) else if (255 <? n)%nat then (-2, k)
     else (0, k <| k_snd_queue := k_snd_queue k ++ f |>)) /\
  length f = n /\ mjoin (sg_data <$> f) = buffer /\
  Forall (fun s => (length (sg_data s) <= mss)%nat) f /\
  ((n <= 255)%nat -> forall i s, f !! i = Some s -> sg_frg s = Z.of_nat (n - i - 1)).
Proof.
  intros Hwf Hs mss n f. pose proof (wf_mss _ Hwf). pose proof (wf_mtu _ Hwf). unfold IKCP_OVERHEAD in *.
  split_and!.
  - by apply send_message.
  - apply length_fragments.
  - apply fragments_data. subst mss. lia.
  - apply fragments_bound.
  - intros Hn i s. by apply fragments_frg.
Qed.

Lemma send_fragments_witness :
  fst (send (replicate 2000 1) example_kcp) = 0 /\
  sg_frg <$> k_snd_queue (snd (send (replicate 2000 1) example_kcp)) = [1; 0].
Proof.
  pose proof (send_fragments (replicate 2000 1) example_kcp example_kcp_wf eq_refl) as [E _]. rewrite E.
  split; vm_compute; reflexivity.
Defined.

(** [send] in stream mode appends the bytes to the queued bytes, topping up
    the last segment first.  It answers -2 only when, after the top-up, more
    than 255 full segments are left over; the bytes of the top-up stay queued.
    No segment outgrows [mss]. *)
Theorem send_stream_bytes {O C : Type} `{Output O, Clock C} buffer (k : Kcp O C) :
  kcp_wf k -> k_stream k <> 0 -> buffer <> [] ->
  let mss := Z.to_nat (k_mss k) in
  let '(code, k') := send buffer k in
  (code = 0 /\ queued_bytes (k_snd_queue k') = queued_bytes (k_snd_queue k) ++ buffer \/
   code = -2 /\ exists n, queued_bytes (k_snd_queue k') = queued_bytes (k_snd_queue k) ++ take n buffer /\
     (255 * mss < length buffer - n)%nat) /\
  (Forall (fun s => (length (sg_data s) <= mss)%nat) (k_snd_queue k) ->
   Forall (fun s => (length (sg_data s) <= mss)%nat) (k_snd_queue k')).
Proof. apply send_stream. Qed.

Definition example_stream : Kcp (list (list Z)) (list Z) := example_kcp <| k_stream := 1 |>.

Lemma example_stream_wf : kcp_wf example_stream.
Proof. pose proof example_kcp_wf as Hwf. wf_open Hwf; wf_same. Qed.

Lemma send_stream_bytes_witness :
  let '(code, k') := send [1; 2; 3] example_stream in
  code = 0 /\ queued_bytes (k_snd_queue k') = [1; 2; 3].
Proof.
  pose proof (send_stream_bytes [1; 2; 3] example_stream example_stream_wf ltac:(done) ltac:(done)) as Hs.
  cbv zeta in Hs. destruct (send [1; 2; 3] example_stream) as [code k'] eqn:E.
  assert (code = 0) as -> by (apply (f_equal fst) in E; vm_compute in E; symmetry; exact E).
  destruct Hs as [[[_ ->]|[? _]] _]; [done|discriminate].
Defined.

(** [parse_ack] marks exactly the acknowledged segment, frees its payload,
    and touches no other segment of the send buffer. *)
Theorem parse_ack_marks {O C : Type} `{Output O, Clock C} sn (k : Kcp O C) i s :
  kcp_wf k -> is_u32 sn -> k_snd_buf k !! i = Some s ->
  k_snd_buf (parse_ack sn k) !! i =
    Some (if sg_sn s =? sn then recycle_segment (s <| sg_acked := 1 |>) else s).
Proof. apply parse_ack_lookup. Qed.

(** A connection with two segments in flight. *)
Definition example_flight : Kcp (list (list Z)) (list Z) :=
  snd (kcp_run [OpNodelay 1 10 2 1; OpSend [1]; OpSend [2]; OpFlush Full] example_kcp).

Lemma example_flight_wf : kcp_wf example_flight.
Proof.
  apply kcp_run_wf; [|apply example_kcp_wf]. repeat constructor; unfold is_u8; try done; lia.
Qed.

Lemma parse_ack_marks_witness :
  sg_acked <$> (k_snd_buf (parse_ack 1 example_flight) !! 1%nat) = Some 1 /\
  length (k_snd_buf example_flight) = 2%nat.
Proof.
  split; [|vm_compute; reflexivity].
  destruct (k_snd_buf example_flight !! 1%nat) as [s|] eqn:E; [|vm_compute in E; discriminate].
  rewrite (parse_ack_marks 1 example_flight 1 s example_flight_wf ltac:(unfold is_u32; lia) E).
  assert (sg_sn s = 1) as Es by (vm_compute in E; injection E as <-; reflexivity). by rewrite Es.
Defined.

(** a cumulative acknowledgement removes exactly the segments before [una]:
    the wrapped distance from [snd_una], within the buffer; [snd_una] follows and
    [snd_nxt] stays. *)
Theorem una_removes_acknowledged {O C : Type} `{Output O, Clock C} una (k : Kcp O C) :
  kcp_wf k ->
  let n := Z.max 0 (Z.min (_itimediff una (k_snd_una k)) (zlen (k_snd_buf k))) in
  let '(removed, k1) := parse_una una k in
  Z.of_nat removed = n /\
  k_snd_buf (shrink_buf k1) = drop (Z.to_nat n) (k_snd_buf k) /\
  k_snd_una (shrink_buf k1) = u32 (k_snd_una k + n) /\
  k_snd_nxt (shrink_buf k1) = k_snd_nxt k.
Proof. apply una_shrink_spec. Qed.

Lemma una_removes_acknowledged_witness :
  length (k_snd_buf (shrink_buf (snd (parse_una 1 example_flight)))) = 1%nat.
Proof.
  pose proof (una_removes_acknowledged 1 example_flight example_flight_wf) as Hu. cbv zeta in Hu.
  destruct (parse_una 1 example_flight) as [removed k1]. cbn [snd]. destruct Hu as (_ & -> & _).
  vm_compute. reflexivity.
Defined.

(** The RTT estimator.  For round trips and estimates below 2^28 ms nothing
    wraps: the smoothed RTT and its variance move as the fixed-point filter says,
    stay below 2^28, and the RTO is their sum clamped between the minimum and
    60 s. *)
Theorem rtt_filter {O C : Type} `{Output O, Clock C} rtt (k : Kcp O C) :
  kcp_wf k -> rtt_small k -> 0 <= rtt < 268435456 ->
  let '(srtt, rttvar) := rtt_estimate rtt (k_rx_srtt k) (k_rx_rttvar k) in
  let k' := update_ack rtt k in
  k_rx_srtt k' = srtt /\ k_rx_rttvar k' = rttvar /\ rtt_small k' /\
  k_rx_rto k' = Z.min (Z.max (k_rx_minrto k) (srtt + Z.max (k_interval k) (4 * rttvar))) IKCP_RTO_MAX.
Proof. apply update_ack_spec. Qed.

Lemma rtt_filter_witness : k_rx_rto (update_ack 80 (update_ack 100 example_kcp)) = 265.
Proof.
  pose proof (rtt_filter 80 (update_ack 100 example_kcp)
    (update_ack_wf _ _ example_kcp_wf) ltac:(unfold rtt_small; vm_compute; split_and!; discriminate || reflexivity) ltac:(lia)) as Hr.
  cbv zeta in Hr. destruct (rtt_estimate 80 _ _) as [srtt rttvar] eqn:E.
  destruct Hr as (_ & _ & _ & ->). vm_compute in E. injection E as <- <-. vm_compute. reflexivity.
Defined.

(** C28: the sliding window.  A flush moves to the send buffer exactly as many
    queued segments as the window (the smallest of the local, remote and, with
    congestion control, congestion window) has room for, in order, with
    consecutive sequence numbers, and loses or invents no payload. *)
Theorem flush_slides_window {O C : Type} `{Output O, Clock C} ft (k : Kcp O C) :
  kcp_wf k ->
  let n := Nat.min (length (k_snd_queue k)) (Z.to_nat (flush_cwnd k - zlen (k_snd_buf k))) in
  let k' := snd (flush ft k) in
  k_snd_queue k' = drop n (k_snd_queue k) /\
  sg_data <$> k_snd_buf k' = sg_data <$> (k_snd_buf k ++ take n (k_snd_queue k)) /\
  k_snd_una k' = k_snd_una k /\ k_snd_nxt k' = u32 (k_snd_nxt k + Z.of_nat n) /\
  zlen (k_snd_buf k') <= Z.max (zlen (k_snd_buf k)) (flush_cwnd k).
Proof.
  intros Hwf n k'. destruct (flush_window_spec ft k Hwf) as (Eq & Eb & Eu & En).
  split_and!; try done. apply (f_equal length) in Eb.
  rewrite !length_fmap, length_app, length_take in Eb. unfold zlen. unfold k'. rewrite Eb.
  unfold window_room. unfold zlen. lia.
Qed.

Lemma flush_slides_window_witness :
  length (k_snd_buf (snd (flush Full (snd (send [4] example_flight))))) = 3%nat.
Proof.
  destruct (flush_slides_window Full (snd (send [4] example_flight))) as (_ & Eb & _).
  { apply send_wf; [repeat constructor; unfold is_u8; lia|apply example_flight_wf]. }
  rewrite <- (length_fmap sg_data), Eb, length_fmap. vm_compute. reflexivity.
Defined.

(** C39: the verdict of [input] depends on the packet and the conversation number
    alone: -1 for a packet below 24 bytes or a segment of another conversation,
    -2 for a length beyond the packet, -3 for an unknown command, 0 otherwise.  A
    packet refused at its first segment changes nothing at all. *)
Theorem input_refuses {O C : Type} `{Output O, Clock C} data pt nd (k : Kcp O C) :
  let verdict := if zlen data <? IKCP_OVERHEAD then -1 else packet_verdict (length data) (k_conv k) data in
  fst (input data pt nd k) = verdict /\
  match decode data with
  | None => input data pt nd k = (-1, k)
  | Some (h, rest) =>
      (if negb (h_conv h =? k_conv k) then input data pt nd k = (-1, k)
       else if zlen rest <? h_len h then input data pt nd k = (-2, k)
       else if negb (known_cmd (h_cmd h)) then input data pt nd k = (-3, k)
       else True)
  end.
Proof. intros verdict. split; [apply input_verdict_bytes|apply input_first_segment]. Qed.

(** when [update] flushes.  It does so at its first call, when the timer is
    due, and when the timer is more than ten seconds ahead (the clock jumped
    back); it then flushes everything and leaves the timer between one
    millisecond and one interval ahead.  Otherwise it only reads the clock. *)
Theorem update_flushes_when_due {O C : Type} `{Output O, Clock C} (k : Kcp O C) :
  kcp_wf k ->
  let '(now, c) := now_ms (k_clock k) in
  if update_due now k then
    exists ts, 0 < _itimediff ts now <= k_interval k /\
      update k = snd (flush Full (k <| k_clock := c |>
        <| k_updated := if k_updated k =? 0 then 1 else k_updated k |> <| k_ts_flush := ts |>)) /\
      k_ts_flush (update k) = ts
  else update k = k <| k_clock := c |> /\ 0 < _itimediff (k_ts_flush k) now <= 10000.
Proof. apply update_spec. Qed.

Lemma update_flushes_when_due_witness : 0 < _itimediff (k_ts_flush (update example_kcp)) 5 <= 100.
Proof.
  pose proof (update_flushes_when_due example_kcp example_kcp_wf) as Hu.
  destruct (now_ms (k_clock example_kcp)) as [now c] eqn:E. vm_compute in E. injection E as <- <-.
  assert (update_due 5 example_kcp = true) as Ed by reflexivity. rewrite Ed in Hu.
  destruct Hu as (ts & Hts & _ & ->). exact Hts.
Defined.

(** C38: [check] never sleeps past a deadline.  When the timer or a segment is due
    it answers now; otherwise it answers a time within one interval, no later
    than the next flush and than every segment's retransmission. *)
Theorem check_meets_deadlines {O C : Type} `{Output O, Clock C} (k : Kcp O C) :
  kcp_wf k ->
  let now := fst (now_ms (k_clock k)) in
  let t := fst (check k) in
  (check_due now k = true -> t = now) /\
  (check_due now k = false ->
    0 < _itimediff t now <= k_interval k /\
    _itimediff t now <= _itimediff (k_ts_flush k) now /\
    Forall (fun s => _itimediff t now <= _itimediff (sg_resendts s) now) (k_snd_buf k)).
Proof. apply check_spec. Qed.

Lemma check_meets_deadlines_witness :
  _itimediff (fst (check (update example_flight))) 5 <= 10.
Proof.
  destruct (check_meets_deadlines (update example_flight)) as [_ Hc].
  { apply update_wf, example_flight_wf. }
  cbv zeta in Hc.
  assert (fst (now_ms (k_clock (update example_flight))) = 5) as En by (vm_compute; reflexivity). rewrite En in Hc.
  destruct Hc as [Hc _]; [vm_compute; reflexivity|].
  assert (k_interval (update example_flight) = 10) as Ei by (vm_compute; reflexivity). lia.
Defined.

(** The delay [flush] asks for is positive and at most one interval, so the
    session's flush loop neither spins nor oversleeps; a flush does not move
    the timer. *)
Theorem flush_delay {O C : Type} `{Output O, Clock C} ft (k : Kcp O C) :
  kcp_wf k ->
  0 < fst (flush ft k) <= k_interval k /\
  k_ts_flush (snd (flush ft k)) = k_ts_flush k /\ k_interval (snd (flush ft k)) = k_interval k.
Proof.
  intros Hwf. pose proof (wf_interval _ Hwf). destruct (flush_timer ft k) as [(? & ? & _) Hn].
  split_and!; [apply Hn; lia|apply Hn; lia|done|done].
Qed.

Lemma flush_delay_witness : 0 < fst (flush Full example_flight) <= 10.
Proof.
  destruct (flush_delay Full example_flight example_flight_wf) as [Hf _].
  assert (k_interval example_flight = 10) as Ei by (vm_compute; reflexivity). lia.
Defined.
