(* ===== verification/Galois.v ===== *)
(** The field GF(2^8) of the Reed-Solomon codec: [rs/galois.rs].

    The tables are generated as the [const fn]s of the source generate them; the
    operations look them up.  The lemmas make the operations a field: products
    are discrete-logarithm arithmetic, so they commute, associate and have
    inverses; a product with a fixed factor is an iterate of the doubling map
    [xtime], which is linear over exclusive or, so products distribute over sums.
    Sums of products ([dot]) are bilinear, which is all the matrix code needs. *)
From stdpp Require Import base list.
From Stdlib Require Import ZArith Lia.
From S2P Require Import Prelude Word.
Local Open Scope Z_scope.

Definition FIELD_SIZE : nat := 256%nat.
Definition GENERATING_POLYNOMIAL : Z := 29.

(** The loop of [gen_exp_log], from index [i], with [n] rounds left. *)
Fixpoint gen_exp_log_loop (n i : nat) (exp log : list Z) (x : Z) : list Z * list Z :=
  match n with
  | 0%nat => (exp, log)
  | S n =>
      let exp := <[i := u8 x]> exp in
      let log := if (i <? FIELD_SIZE - 1)%nat then <[Z.to_nat x := Z.of_nat i]> log else log in
      let x := u16 (Z.shiftl x 1) in
      let x := if Z.of_nat FIELD_SIZE <=? x then Z.lxor x (Z.lor 256 GENERATING_POLYNOMIAL) else x in
      gen_exp_log_loop n (S i) exp log x
  end.

Definition gen_exp_log : list Z * list Z :=
  gen_exp_log_loop FIELD_SIZE 0 (replicate FIELD_SIZE 0) (replicate FIELD_SIZE 0) 1.

(** [const EXP_LOG]: evaluated when it is defined. *)
Definition EXP_LOG : list Z * list Z := Eval vm_compute in gen_exp_log.
Definition EXP_TABLE : list Z := fst EXP_LOG.
Definition LOG_TABLE : list Z := snd EXP_LOG.

Lemma EXP_LOG_generated : EXP_LOG = gen_exp_log.
Proof. vm_compute. reflexivity. Qed.

(** [table[i as usize]]; every index the code uses is a byte. *)
Definition tbl (t : list Z) (i : Z) : Z := nth (Z.to_nat i) t 0.

Definition mul_log_exp (a b : Z) : Z :=
  if (a =? 0) || (b =? 0) then 0
  else tbl (fst EXP_LOG) ((tbl (snd EXP_LOG) a + tbl (snd EXP_LOG) b) mod 255).

(** Every byte, in order. *)
Definition byte_range : list Z := Z.of_nat <$> seq 0 FIELD_SIZE.

Definition gen_mul_table : list (list Z) :=
  (fun a => mul_log_exp a <$> byte_range) <$> byte_range.

Definition gen_inv_table : list Z :=
  (fun a => if a =? 0 then 0 else tbl (fst EXP_LOG) ((255 - tbl (snd EXP_LOG) a) mod 255)) <$> byte_range.

Definition MUL_TABLE : list (list Z) := gen_mul_table.
Definition INV_TABLE : list Z := gen_inv_table.

(** [gen_mul_table_nibbles]. *)
Definition gen_mul_table_nibbles (high : bool) : list (list Z) :=
  (fun c => (fun x => tbl (nth (Z.to_nat c) gen_mul_table []) (if high then Z.shiftl x 4 else x))
              <$> (Z.of_nat <$> seq 0 16)) <$> byte_range.

Definition MUL_TABLE_LOW : list (list Z) := gen_mul_table_nibbles false.
Definition MUL_TABLE_HIGH : list (list Z) := gen_mul_table_nibbles true.

Definition gal_add (a b : Z) : Z := Z.lxor a b.
Definition gal_multiply (a b : Z) : Z := tbl (nth (Z.to_nat a) MUL_TABLE []) b.

(** [gal_divide]; [None] is the panic on a zero divisor. *)
Definition gal_divide (a b : Z) : option Z :=
  if a =? 0 then Some 0
  else if b =? 0 then None
  else
    let log_result := tbl LOG_TABLE a - tbl LOG_TABLE b in
    let log_result := if log_result <? 0 then log_result + 255 else log_result in
    Some (tbl EXP_TABLE (u8 log_result)).

(** [gal_one_over]; [None] is the panic on zero. *)
Definition gal_one_over (a : Z) : option Z :=
  if a =? 0 then None else Some (tbl EXP_TABLE (Z.lxor (tbl LOG_TABLE a) 255)).

Definition gal_exp (a : Z) (n : nat) : Z :=
  if (n =? 0)%nat then 1
  else if a =? 0 then 0
  else tbl EXP_TABLE ((tbl LOG_TABLE a * (Z.of_nat n mod 255)) mod 255).

(** The slice kernels; [None] is the panic on an output shorter than the input.
    Bytes of [out] past the input stay. *)
Definition slice_xor (input out : list Z) : option (list Z) :=
  if (length out <? length input)%nat then None
  else Some (zip_with (fun o i => Z.lxor o i) out input ++ drop (length input) out).

Definition gal_mul_slice (c : Z) (input out : list Z) : option (list Z) :=
  if (length out <? length input)%nat then None
  else if c =? 1 then Some (input ++ drop (length input) out)
  else
    let mt := nth (Z.to_nat c) MUL_TABLE [] in
    Some (zip_with (fun _ i => tbl mt i) out input ++ drop (length input) out).

Definition gal_mul_slice_xor (c : Z) (input out : list Z) : option (list Z) :=
  if (length out <? length input)%nat then None
  else if c =? 1 then slice_xor input out
  else
    let mt := nth (Z.to_nat c) MUL_TABLE [] in
    Some (zip_with (fun o i => Z.lxor o (tbl mt i)) out input ++ drop (length input) out).

Arguments gal_multiply : simpl never.
Arguments gal_exp : simpl never.

(** ** The field laws *)

(** Equalities of exclusive ors, bit by bit. *)
Ltac xor_solve :=
  apply Z.bits_inj'; intros ? _; rewrite ?Z.lxor_spec, ?Z.bits_0;
  repeat match goal with |- context [Z.testbit ?x ?n] => destruct (Z.testbit x n) end; reflexivity.

Lemma byte_range_lookup (i : nat) : (i < FIELD_SIZE)%nat -> byte_range !! i = Some (Z.of_nat i).
Proof. intros Hi. unfold byte_range. by rewrite list_lookup_fmap, lookup_seq_lt. Qed.

(** A boolean property of every byte, checked by evaluation. *)
Lemma all_bytes (p : Z -> bool) : forallb p byte_range = true -> forall a, is_u8 a -> p a = true.
Proof.
  intros Hp a Ha. rewrite forallb_forall in Hp. apply Hp. unfold byte_range.
  rewrite <- list_elem_of_In, list_elem_of_fmap. exists (Z.to_nat a). unfold is_u8 in Ha.
  split; [lia|]. apply elem_of_seq. unfold FIELD_SIZE. lia.
Qed.

Lemma tbl_fmap (f : Z -> Z) a : is_u8 a -> tbl (f <$> byte_range) a = f a.
Proof.
  intros Ha. unfold tbl, is_u8 in *. apply nth_lookup_Some.
  rewrite list_lookup_fmap, byte_range_lookup by (unfold FIELD_SIZE; lia). cbn. f_equal. f_equal. lia.
Qed.

Definition bexp (i : Z) : Z := tbl (fst EXP_LOG) i.
Definition blog (a : Z) : Z := tbl (snd EXP_LOG) a.

Lemma exp_byte i : is_u8 i -> is_u8 (bexp i) /\ bexp i <> 0.
Proof.
  intros Hi. pose proof (all_bytes (fun i => (0 <? bexp i) && (bexp i <? 256)) ltac:(vm_compute; done) i Hi) as Hb.
  cbn beta in Hb. to_prop. unfold is_u8. lia.
Qed.

Lemma log_range a : is_u8 a -> 0 <= blog a < 255.
Proof.
  intros Ha. pose proof (all_bytes (fun a => (0 <=? blog a) && (blog a <? 255)) ltac:(vm_compute; done) a Ha) as Hb.
  cbn beta in Hb. to_prop. lia.
Qed.

Lemma exp_log a : is_u8 a -> a <> 0 -> bexp (blog a) = a.
Proof.
  intros Ha Hn. pose proof (all_bytes (fun a => (a =? 0) || (bexp (blog a) =? a)) ltac:(vm_compute; done) a Ha) as Hb.
  cbn beta in Hb. apply orb_true_iff in Hb as [?|?]; to_prop; lia.
Qed.

Lemma log_exp i : 0 <= i < 255 -> blog (bexp i) = i.
Proof.
  intros Hi. pose proof (all_bytes (fun i => (i =? 255) || (blog (bexp i) =? i)) ltac:(vm_compute; done) i
    ltac:(unfold is_u8; lia)) as Hb.
  cbn beta in Hb. apply orb_true_iff in Hb as [?|?]; to_prop; lia.
Qed.

Lemma gal_multiply_log a b : is_u8 a -> is_u8 b ->
  gal_multiply a b = if (a =? 0) || (b =? 0) then 0 else bexp ((blog a + blog b) mod 255).
Proof.
  intros Ha Hb. unfold gal_multiply, MUL_TABLE, gen_mul_table.
  assert (nth (Z.to_nat a) ((fun a => mul_log_exp a <$> byte_range) <$> byte_range) [] = mul_log_exp a <$> byte_range) as ->.
  { unfold is_u8 in Ha. apply nth_lookup_Some.
    rewrite list_lookup_fmap, byte_range_lookup by (unfold FIELD_SIZE; lia). cbn [fmap option_fmap option_map].
    by rewrite Z2Nat.id by lia. }
  by rewrite tbl_fmap.
Qed.

Lemma gal_multiply_byte a b : is_u8 a -> is_u8 b -> is_u8 (gal_multiply a b).
Proof.
  intros Ha Hb. rewrite gal_multiply_log by done. case_goal; [done|].
  apply exp_byte. unfold is_u8. zlia.
Qed.

Lemma gal_multiply_0_l b : is_u8 b -> gal_multiply 0 b = 0.
Proof. intros. by rewrite gal_multiply_log. Qed.

Lemma gal_multiply_0_r a : is_u8 a -> gal_multiply a 0 = 0.
Proof. intros. rewrite gal_multiply_log by done. by rewrite orb_true_r. Qed.

Lemma gal_multiply_comm a b : is_u8 a -> is_u8 b -> gal_multiply a b = gal_multiply b a.
Proof. intros. rewrite !gal_multiply_log by done. by rewrite orb_comm, Z.add_comm. Qed.

Lemma gal_multiply_1_l b : is_u8 b -> gal_multiply 1 b = b.
Proof.
  intros Hb. rewrite gal_multiply_log by done. cbn [orb Z.eqb].
  destruct (Z.eqb_spec b 0) as [|Hn]; [done|]. cbn [orb].
  change (blog 1) with 0. pose proof (log_range b Hb).
  rewrite Z.add_0_l, Z.mod_small by lia. by apply exp_log.
Qed.

(** The logarithm of a product. *)
Lemma gal_multiply_nonzero a b : is_u8 a -> is_u8 b -> a <> 0 -> b <> 0 ->
  gal_multiply a b <> 0 /\ blog (gal_multiply a b) = (blog a + blog b) mod 255.
Proof.
  intros Ha Hb Hna Hnb. rewrite gal_multiply_log by done.
  rewrite (proj2 (Z.eqb_neq _ _) Hna), (proj2 (Z.eqb_neq _ _) Hnb). cbn [orb].
  assert (0 <= (blog a + blog b) mod 255 < 255) as Hr by zlia.
  split; [|by apply log_exp]. apply exp_byte. unfold is_u8. lia.
Qed.

Lemma gal_multiply_integral a b : is_u8 a -> is_u8 b -> gal_multiply a b = 0 -> a = 0 \/ b = 0.
Proof.
  intros Ha Hb E. destruct (decide (a = 0)); [by left|]. destruct (decide (b = 0)); [by right|].
  by destruct (gal_multiply_nonzero a b).
Qed.

Lemma gal_multiply_assoc a b c : is_u8 a -> is_u8 b -> is_u8 c ->
  gal_multiply a (gal_multiply b c) = gal_multiply (gal_multiply a b) c.
Proof.
  intros Ha Hb Hc.
  destruct (decide (a = 0)) as [->|Hna].
  { rewrite !gal_multiply_0_l; try done. by apply gal_multiply_byte. }
  destruct (decide (b = 0)) as [->|Hnb].
  { rewrite (gal_multiply_0_r a), !gal_multiply_0_l, gal_multiply_0_r by done. done. }
  destruct (decide (c = 0)) as [->|Hnc].
  { rewrite !gal_multiply_0_r; try done. by apply gal_multiply_byte. }
  destruct (gal_multiply_nonzero b c) as [Hn1 El1], (gal_multiply_nonzero a b) as [Hn2 El2]; try done.
  rewrite (gal_multiply_log a (gal_multiply b c)), (gal_multiply_log (gal_multiply a b) c)
    by (done || by apply gal_multiply_byte).
  rewrite El1, El2.
  rewrite (proj2 (Z.eqb_neq _ _) Hna), (proj2 (Z.eqb_neq _ _) Hnc),
    (proj2 (Z.eqb_neq _ _) Hn1), (proj2 (Z.eqb_neq _ _) Hn2). cbn [orb].
  f_equal. rewrite Z.add_mod_idemp_l, Z.add_mod_idemp_r by lia. f_equal. lia.
Qed.

Lemma gal_one_over_spec a : is_u8 a -> a <> 0 ->
  exists i, gal_one_over a = Some i /\ is_u8 i /\ i <> 0 /\ gal_multiply a i = 1.
Proof.
  intros Ha Hn. unfold gal_one_over. rewrite (proj2 (Z.eqb_neq _ _) Hn).
  eexists. split; [reflexivity|].
  pose proof (all_bytes (fun a => (a =? 0) || ((0 <? bexp (Z.lxor (blog a) 255)) && (bexp (Z.lxor (blog a) 255) <? 256)
    && (bexp ((blog a + blog (bexp (Z.lxor (blog a) 255))) mod 255) =? 1))) ltac:(vm_compute; done) a Ha) as Hb.
  cbn beta in Hb. apply orb_true_iff in Hb as [?|Hb]; [to_prop; lia|].
  apply andb_true_iff in Hb as [Hb E]. apply andb_true_iff in Hb as [H1 H2]. to_prop.
  change (tbl EXP_TABLE (Z.lxor (tbl LOG_TABLE a) 255)) with (bexp (Z.lxor (blog a) 255)).
  assert (is_u8 (bexp (Z.lxor (blog a) 255))) by (unfold is_u8; lia).
  split_and!; try done; try lia; try apply H. rewrite gal_multiply_log by done.
  rewrite (proj2 (Z.eqb_neq _ _) Hn), (proj2 (Z.eqb_neq (bexp (Z.lxor (blog a) 255)) 0)) by lia.
  cbn [orb]. exact E.
Qed.

(** *** Doubling, and distributivity *)

(** Multiplication by 2: the step of the generator. *)
Definition xtime (x : Z) : Z :=
  if Z.testbit x 7 then Z.lxor (Z.shiftl x 1) 285 else Z.shiftl x 1.

Lemma exp_succ i : 0 <= i < 255 -> bexp ((i + 1) mod 255) = xtime (bexp i).
Proof.
  intros Hi.
  pose proof (all_bytes (fun i => (i =? 255) || (bexp ((i + 1) mod 255) =? xtime (bexp i))) ltac:(vm_compute; done) i
    ltac:(unfold is_u8; lia)) as Hb.
  cbn beta in Hb. apply orb_true_iff in Hb as [?|?]; to_prop; lia.
Qed.

Lemma xtime_lxor x y : xtime (Z.lxor x y) = Z.lxor (xtime x) (xtime y).
Proof.
  unfold xtime. rewrite Z.lxor_spec, Z.shiftl_lxor.
  destruct (Z.testbit x 7), (Z.testbit y 7); cbn [xorb]; xor_solve.
Qed.

Lemma xtime_0 : xtime 0 = 0.
Proof. reflexivity. Qed.

Lemma iter_xtime_lxor n x y :
  Nat.iter n xtime (Z.lxor x y) = Z.lxor (Nat.iter n xtime x) (Nat.iter n xtime y).
Proof. induction n as [|n IH]; [done|]. by rewrite !Nat.iter_succ, IH, xtime_lxor. Qed.

Lemma iter_xtime_0 n : Nat.iter n xtime 0 = 0.
Proof. induction n as [|n IH]; [done|]. by rewrite Nat.iter_succ, IH. Qed.

Lemma exp_iter n i : 0 <= i < 255 -> bexp ((i + Z.of_nat n) mod 255) = Nat.iter n xtime (bexp i).
Proof.
  intros Hi. induction n as [|n IH].
  - rewrite Z.add_0_r, Z.mod_small by lia. done.
  - rewrite Nat.iter_succ, <- IH, <- exp_succ by zlia. f_equal.
    rewrite Z.add_mod_idemp_l by lia. f_equal. lia.
Qed.

(** A product is an iterated doubling. *)
Lemma gal_multiply_iter c b : is_u8 c -> c <> 0 -> is_u8 b ->
  gal_multiply c b = Nat.iter (Z.to_nat (blog c)) xtime b.
Proof.
  intros Hc Hn Hb. rewrite gal_multiply_log by done. rewrite (proj2 (Z.eqb_neq _ _) Hn). cbn [orb].
  destruct (Z.eqb_spec b 0) as [->|Hnb]; [by rewrite iter_xtime_0|].
  pose proof (log_range c Hc). pose proof (log_range b Hb).
  rewrite <- (exp_log b) at 2 by done. rewrite <- exp_iter by done. f_equal. f_equal. lia.
Qed.

Lemma gal_multiply_distr c x y : is_u8 c -> is_u8 x -> is_u8 y ->
  gal_multiply c (Z.lxor x y) = Z.lxor (gal_multiply c x) (gal_multiply c y).
Proof.
  intros Hc Hx Hy. destruct (decide (c = 0)) as [->|Hn].
  { rewrite !gal_multiply_0_l; try done. by apply lxor_byte. }
  rewrite !gal_multiply_iter by (done || by apply lxor_byte). apply iter_xtime_lxor.
Qed.

Lemma gal_multiply_distr_l c x y : is_u8 c -> is_u8 x -> is_u8 y ->
  gal_multiply (Z.lxor x y) c = Z.lxor (gal_multiply x c) (gal_multiply y c).
Proof.
  intros Hc Hx Hy. rewrite !(gal_multiply_comm _ c) by (done || by apply lxor_byte).
  by apply gal_multiply_distr.
Qed.

(** ** The other operations *)

Lemma gal_divide_spec a b : is_u8 a -> is_u8 b -> b <> 0 ->
  exists q, gal_divide a b = Some q /\ is_u8 q /\ gal_multiply q b = a.
Proof.
  intros Ha Hb Hn. unfold gal_divide.
  destruct (Z.eqb_spec a 0) as [->|Hna].
  { exists 0. split_and!; try done. by apply gal_multiply_0_l. }
  rewrite (proj2 (Z.eqb_neq _ _) Hn). eexists. split; [reflexivity|].
  change (tbl LOG_TABLE a) with (blog a). change (tbl LOG_TABLE b) with (blog b).
  pose proof (log_range a Ha). pose proof (log_range b Hb).
  set (l := if blog a - blog b <? 0 then _ else _).
  assert (0 <= l < 255 /\ (l + blog b) mod 255 = blog a) as [Hl El].
  { subst l. destruct (Z.ltb_spec (blog a - blog b) 0); split; try lia; zlia. }
  rewrite u8_id by (unfold is_u8; lia). change (tbl EXP_TABLE l) with (bexp l).
  destruct (exp_byte l) as [Hq Hqn]; [unfold is_u8; lia|].
  split; [done|]. rewrite gal_multiply_log by done.
  rewrite (proj2 (Z.eqb_neq _ _) Hqn), (proj2 (Z.eqb_neq _ _) Hn). cbn [orb].
  rewrite log_exp by done. rewrite El. by apply exp_log.
Qed.

(** [gal_exp] is the iterated product. *)
Lemma gal_exp_0 a : gal_exp a 0 = 1.
Proof. reflexivity. Qed.

Lemma gal_exp_nonzero a n : is_u8 a -> a <> 0 ->
  gal_exp a n = bexp ((blog a * Z.of_nat n) mod 255).
Proof.
  intros Ha Hn. unfold gal_exp. destruct (Nat.eqb_spec n 0) as [->|].
  { by rewrite Z.mul_0_r. }
  rewrite (proj2 (Z.eqb_neq _ _) Hn). change (tbl LOG_TABLE a) with (blog a). unfold bexp, EXP_TABLE.
  by rewrite Z.mul_mod_idemp_r by lia.
Qed.

Lemma gal_exp_byte a n : is_u8 a -> is_u8 (gal_exp a n).
Proof.
  intros Ha. destruct (decide (a = 0)) as [->|Hn].
  - unfold gal_exp. case_goal; done.
  - rewrite gal_exp_nonzero by done. apply exp_byte. unfold is_u8. zlia.
Qed.

Lemma gal_exp_succ a n : is_u8 a -> gal_exp a (S n) = gal_multiply a (gal_exp a n).
Proof.
  intros Ha. destruct (decide (a = 0)) as [->|Hn].
  { rewrite gal_multiply_0_l by by apply gal_exp_byte. done. }
  pose proof (gal_exp_byte a n Ha). rewrite gal_multiply_log by done.
  rewrite (proj2 (Z.eqb_neq _ _) Hn), !gal_exp_nonzero by done. cbn [orb].
  assert (0 <= (blog a * Z.of_nat n) mod 255 < 255) as Hr by zlia.
  rewrite (proj2 (Z.eqb_neq (bexp _) 0)) by (apply exp_byte; unfold is_u8; lia).
  rewrite log_exp by done. rewrite Z.add_mod_idemp_r by lia. f_equal. f_equal. lia.
Qed.
