(* ===== verification/GfVector.v ===== *)
(** Vectors over GF(2^8): sums of products and what is linear in them.

    [dot] is the inner loop of [Matrix::multiply] and of the shard coding loop.
    Its laws, and the fact that a Vandermonde system with distinct nodes has only
    the zero solution ([powers_injective]), are the linear algebra the
    Reed-Solomon theorems rest on. *)
From stdpp Require Import base list.
From Stdlib Require Import ZArith Lia.
From S2P Require Import Prelude Word Galois.
Local Open Scope Z_scope.

(** [sum over i of a[i] * b[i]]. *)
Fixpoint dot (a b : list Z) : Z :=
  match a, b with
  | x :: a, y :: b => Z.lxor (gal_multiply x y) (dot a b)
  | _, _ => 0
  end.

(** Pointwise sum, and scaling by [c]. *)
Definition vadd (a b : list Z) : list Z := zip_with Z.lxor a b.
Definition vscale (c : Z) (a : list Z) : list Z := gal_multiply c <$> a.

Lemma vadd_bytes a b : bytes a -> bytes b -> bytes (vadd a b).
Proof.
  intros Ha. revert b; induction Ha as [|x a Hx Ha IH]; intros b Hb; [constructor|].
  destruct Hb as [|y b Hy Hb]; [constructor|]. constructor; [by apply lxor_byte|by apply IH].
Qed.

Lemma vscale_bytes c a : is_u8 c -> bytes a -> bytes (vscale c a).
Proof. intros Hc Ha. apply Forall_fmap. eapply Forall_impl; [exact Ha|]. intros. by apply gal_multiply_byte. Qed.

Lemma zeros_bytes n : bytes (replicate n 0).
Proof. by apply Forall_replicate. Qed.

Lemma dot_byte a b : bytes a -> bytes b -> is_u8 (dot a b).
Proof.
  intros Ha. revert b; induction Ha as [|x a Hx Ha IH]; intros b Hb; [done|].
  destruct Hb as [|y b Hy Hb]; [done|]. apply lxor_byte; [by apply gal_multiply_byte|by apply IH].
Qed.

Lemma dot_comm a b : bytes a -> bytes b -> dot a b = dot b a.
Proof.
  intros Ha. revert b; induction Ha as [|x a Hx Ha IH]; intros b Hb; [by destruct b|].
  destruct Hb as [|y b Hy Hb]; [done|]. cbn [dot]. by rewrite gal_multiply_comm, IH.
Qed.

Lemma dot_vadd_l a a' b : bytes a -> bytes a' -> bytes b -> length a = length a' ->
  dot (vadd a a') b = Z.lxor (dot a b) (dot a' b).
Proof.
  intros Ha. revert a' b; induction Ha as [|x a Hx Ha IH]; intros a' b Ha' Hb El; [by destruct a'|].
  destruct Ha' as [|x' a' Hx' Ha']; [done|]. destruct Hb as [|y b Hy Hb]; [done|].
  cbn [dot vadd zip_with length] in *. rewrite gal_multiply_distr_l by done.
  unfold vadd in IH. rewrite IH by (done || lia). xor_solve.
Qed.

Lemma dot_vadd_r a b b' : bytes a -> bytes b -> bytes b' -> length b = length b' ->
  dot a (vadd b b') = Z.lxor (dot a b) (dot a b').
Proof.
  intros Ha Hb Hb' El. rewrite (dot_comm a (vadd b b')), (dot_comm a b), (dot_comm a b')
    by (done || by apply vadd_bytes).
  by apply dot_vadd_l.
Qed.

Lemma dot_vscale_l c a b : is_u8 c -> bytes a -> bytes b ->
  dot (vscale c a) b = gal_multiply c (dot a b).
Proof.
  intros Hc Ha. revert b; induction Ha as [|x a Hx Ha IH]; intros b Hb; [cbn; by rewrite gal_multiply_0_r|].
  destruct Hb as [|y b Hy Hb]; [cbn; by rewrite gal_multiply_0_r|].
  cbn [dot vscale fmap list_fmap]. unfold vscale in IH. rewrite IH by done.
  rewrite gal_multiply_distr; try done; [|by apply gal_multiply_byte|by apply dot_byte].
  by rewrite gal_multiply_assoc.
Qed.

Lemma dot_app a b x y : length a = length x -> dot (a ++ b) (x ++ y) = Z.lxor (dot a x) (dot b y).
Proof.
  revert x; induction a as [|u a IH]; intros [|v x] El; cbn [length] in El; try lia; cbn [app dot].
  - by rewrite Z.lxor_0_l.
  - rewrite IH by lia. xor_solve.
Qed.

Lemma dot_zeros_l n b : bytes b -> dot (replicate n 0) b = 0.
Proof.
  revert b; induction n as [|n IH]; intros b Hb; [done|]. destruct Hb as [|y b Hy Hb]; [done|].
  cbn [replicate dot]. by rewrite gal_multiply_0_l, IH.
Qed.

Lemma dot_zeros_r n a : bytes a -> dot a (replicate n 0) = 0.
Proof. intros Ha. rewrite dot_comm by (done || apply zeros_bytes). by apply dot_zeros_l. Qed.

(** Adding [t] to one coordinate. *)
Lemma dot_alter a b j t c : bytes a -> bytes b -> is_u8 t -> a !! j = Some c -> (j < length b)%nat ->
  dot a (alter (fun v => Z.lxor v t) j b) = Z.lxor (dot a b) (gal_multiply c t).
Proof.
  intros Ha. revert b j; induction Ha as [|x a Hx Ha IH]; intros b j Hb Ht Hj Hl; [done|].
  destruct Hb as [|y b Hy Hb]; cbn [length] in Hl; [lia|]. destruct j as [|j].
  - cbn in Hj. injection Hj as ->. cbn [dot alter list_alter].
    rewrite gal_multiply_distr by done. xor_solve.
  - cbn in Hj. cbn [dot]. change (alter (fun v => Z.lxor v t) (S j) (y :: b))
      with (y :: alter (fun v => Z.lxor v t) j b). cbn [dot].
    rewrite IH by (done || lia). xor_solve.
Qed.

(** The [i]-th row of the identity. *)
Definition unit_row (n i : nat) : list Z := <[i := 1]> (replicate n 0).

Lemma unit_row_bytes n i : bytes (unit_row n i).
Proof. apply Forall_insert; [apply zeros_bytes|done]. Qed.

Lemma length_unit_row n i : length (unit_row n i) = n.
Proof. unfold unit_row. by rewrite length_insert, length_replicate. Qed.

Lemma unit_row_lookup n i c : (c < n)%nat -> unit_row n i !! c = Some (if decide (c = i) then 1 else 0).
Proof.
  intros Hc. unfold unit_row. destruct (decide (c = i)) as [->|Hn].
  - apply list_lookup_insert_eq. by rewrite length_replicate.
  - rewrite list_lookup_insert_ne by done. by apply lookup_replicate_2.
Qed.

Lemma dot_unit n i x v : bytes x -> length x = n -> x !! i = Some v -> dot (unit_row n i) x = v.
Proof.
  intros Hx Hl Hi. unfold unit_row. subst n. revert i Hi; induction Hx as [|y x Hy Hx IH]; intros i Hi; [done|].
  cbn [length replicate]. destruct i as [|i]; cbn in Hi.
  - injection Hi as ->. change (<[0%nat := 1]> (0 :: ?r)) with (1 :: r). cbn [dot].
    rewrite gal_multiply_1_l, dot_zeros_l by done. apply Z.lxor_0_r.
  - change (<[S i := 1]> (0 :: ?r)) with (0 :: <[i := 1]> r). cbn [dot].
    by rewrite gal_multiply_0_l, IH.
Qed.

(** ** Linear combinations of rows *)

(** [sum over i of a[i] * rows[i]], rows of length [n]. *)
Fixpoint combine_rows (n : nat) (a : list Z) (rows : list (list Z)) : list Z :=
  match a, rows with
  | x :: a, r :: rows => vadd (vscale x r) (combine_rows n a rows)
  | _, _ => replicate n 0
  end.

Definition rows_ok (n : nat) (rows : list (list Z)) : Prop :=
  Forall (fun r => bytes r /\ length r = n) rows.

Lemma combine_rows_ok n a rows : bytes a -> rows_ok n rows ->
  bytes (combine_rows n a rows) /\ length (combine_rows n a rows) = n.
Proof.
  intros Ha. revert rows; induction Ha as [|x a Hx Ha IH]; intros rows Hr; cbn [combine_rows].
  { split; [apply zeros_bytes|apply length_replicate]. }
  destruct Hr as [|r rows [Hr Hl] Hrs]; [split; [apply zeros_bytes|apply length_replicate]|].
  destruct (IH rows Hrs) as [Hb Hn]. split; [apply vadd_bytes; [by apply vscale_bytes|done]|].
  unfold vadd, vscale. rewrite length_zip_with, length_fmap. lia.
Qed.

(** A combination of rows applied to [x] is the combination of the rows applied
    to [x]: matrix multiplication is composition. *)
Lemma dot_combine n a rows x : bytes a -> rows_ok n rows -> bytes x ->
  dot (combine_rows n a rows) x = dot a ((fun r => dot r x) <$> rows).
Proof.
  intros Ha. revert rows; induction Ha as [|y a Hy Ha IH]; intros rows Hr Hx; cbn [combine_rows].
  { by rewrite dot_zeros_l. }
  destruct Hr as [|r rows [Hr Hl] Hrs]; [by rewrite dot_zeros_l|].
  destruct (combine_rows_ok n a rows Ha Hrs) as [Hb Hn].
  rewrite dot_vadd_l; try done; [|by apply vscale_bytes|unfold vscale; by rewrite length_fmap, Hl].
  cbn [fmap list_fmap dot]. rewrite dot_vscale_l, IH by done. done.
Qed.

Lemma combine_rows_lookup n a rows c : bytes a -> rows_ok n rows -> (c < n)%nat ->
  combine_rows n a rows !! c = Some (dot a ((fun r => nth c r 0) <$> rows)).
Proof.
  intros Ha. revert rows; induction Ha as [|y a Hy Ha IH]; intros rows Hr Hc; cbn [combine_rows].
  { by rewrite lookup_replicate_2. }
  destruct Hr as [|r rows [Hr Hl] Hrs]; [by rewrite lookup_replicate_2|].
  cbn [fmap list_fmap dot]. unfold vadd. rewrite lookup_zip_with, (IH rows Hrs Hc). unfold vscale.
  rewrite list_lookup_fmap. destruct (lookup_lt_is_Some_2 r c) as [v Hv]; [lia|].
  rewrite Hv. cbn. by rewrite (nth_lookup_Some _ _ _ _ Hv).
Qed.

(** ** Vandermonde systems *)

(** The row [1, r, r^2, ...] of [Matrix::vandermonde]. *)
Definition powers (n : nat) (r : Z) : list Z := gal_exp r <$> seq 0 n.

Lemma powers_bytes n r : is_u8 r -> bytes (powers n r).
Proof. intros Hr. apply Forall_fmap, Forall_forall. intros c _. by apply gal_exp_byte. Qed.

Lemma length_powers n r : length (powers n r) = n.
Proof. unfold powers. by rewrite length_fmap, length_seq. Qed.

(** Polynomial evaluation, lowest coefficient first. *)
Fixpoint poly_eval (p : list Z) (r : Z) : Z :=
  match p with
  | [] => 0
  | a :: p => Z.lxor a (gal_multiply r (poly_eval p r))
  end.

Lemma poly_eval_byte p r : bytes p -> is_u8 r -> is_u8 (poly_eval p r).
Proof.
  intros Hp Hr. induction Hp as [|a p Ha Hp IH]; [done|].
  apply lxor_byte; [done|by apply gal_multiply_byte].
Qed.

Lemma dot_powers n r x : is_u8 r -> bytes x -> length x = n -> dot (powers n r) x = poly_eval x r.
Proof.
  intros Hr Hx <-. unfold powers.
  enough (forall k, dot (gal_exp r <$> seq k (length x)) x = gal_multiply (gal_exp r k) (poly_eval x r)) as Hk.
  { rewrite Hk, gal_exp_0. apply gal_multiply_1_l. by apply poly_eval_byte. }
  induction Hx as [|a x Ha Hx IH]; intros k; cbn [length seq fmap list_fmap dot poly_eval].
  { rewrite gal_multiply_0_r; [done|by apply gal_exp_byte]. }
  pose proof (gal_exp_byte r k Hr). pose proof (poly_eval_byte x r Hx Hr).
  rewrite IH, gal_exp_succ, gal_multiply_distr by (try done; by apply gal_multiply_byte).
  rewrite gal_multiply_assoc, (gal_multiply_comm (gal_exp r k) r) by done. done.
Qed.

(** Synthetic division by [X - r]: the quotient. *)
Fixpoint poly_div (r : Z) (p : list Z) : list Z :=
  match p with
  | [] => []
  | a :: p => match p with [] => [] | _ :: _ => poly_eval p r :: poly_div r p end
  end.

Lemma poly_div_bytes r p : is_u8 r -> bytes p -> bytes (poly_div r p).
Proof.
  intros Hr Hp. induction Hp as [|a p Ha Hp IH]; [constructor|]. cbn [poly_div].
  destruct p; [constructor|]. constructor; [by apply poly_eval_byte|done].
Qed.

Lemma length_poly_div r p : length (poly_div r p) = (length p - 1)%nat.
Proof.
  induction p as [|a p IH]; [done|]. cbn [poly_div]. destruct p; [done|].
  cbn [length] in *. rewrite IH. lia.
Qed.

Lemma poly_div_spec r s p : is_u8 r -> is_u8 s -> bytes p ->
  poly_eval p s = Z.lxor (poly_eval p r) (gal_multiply (Z.lxor s r) (poly_eval (poly_div r p) s)).
Proof.
  intros Hr Hs Hp. pose proof (lxor_byte s r Hs Hr) as Hsr.
  induction Hp as [|a p Ha Hp IH]; cbn [poly_eval poly_div].
  { by rewrite gal_multiply_0_r. }
  destruct p as [|a' p'].
  { cbn [poly_eval]. rewrite (gal_multiply_0_r s), (gal_multiply_0_r r), (gal_multiply_0_r (Z.lxor s r)) by assumption.
    by rewrite !Z.lxor_0_r. }
  set (p := a' :: p') in *. clearbody p. cbn [poly_eval].
  pose proof (poly_eval_byte p r Hp Hr) as H1. pose proof (poly_eval_byte _ s (poly_div_bytes r p Hr Hp) Hs) as H2.
  rewrite IH. set (u := poly_eval p r) in *. set (v := poly_eval (poly_div r p) s) in *. clearbody u v. clear IH.
  assert (is_u8 (gal_multiply s v)) by by apply gal_multiply_byte.
  assert (is_u8 (gal_multiply (Z.lxor s r) v)) by by apply gal_multiply_byte.
  rewrite !(gal_multiply_distr s), !(gal_multiply_distr (Z.lxor s r)) by done.
  rewrite (gal_multiply_distr_l u s r) by done.
  rewrite (gal_multiply_assoc s (Z.lxor s r) v), (gal_multiply_comm s (Z.lxor s r)), <- gal_multiply_assoc by done.
  xor_solve.
Qed.

Definition all_zero (x : list Z) : Prop := Forall (fun v => v = 0) x.

(** A polynomial with as many distinct roots as coefficients is zero. *)
Lemma poly_roots_zero nodes p : NoDup nodes -> bytes nodes -> bytes p -> length p = length nodes ->
  Forall (fun r => poly_eval p r = 0) nodes -> all_zero p.
Proof.
  revert p; induction nodes as [|r nodes IH]; intros p Hnd Hn Hp Hl Hroots.
  { destruct p; [constructor|done]. }
  apply NoDup_cons in Hnd as [Hr Hnd]. inversion Hn as [|? ? Hrb Hnb]; subst.
  inversion Hroots as [|? ? Hpr Hrest]; subst.
  assert (all_zero (poly_div r p)) as Hq.
  { apply IH; try done; [by apply poly_div_bytes|rewrite length_poly_div, Hl; cbn; lia|].
    rewrite Forall_forall in Hrest, Hnb |- *. intros s Hs. specialize (Hrest s Hs). specialize (Hnb s Hs).
    cbv beta in *. rewrite (poly_div_spec r s p), Hpr, Z.lxor_0_l in Hrest by done.
    apply gal_multiply_integral in Hrest as [E|E];
      [|done|by apply lxor_byte|apply poly_eval_byte; [by apply poly_div_bytes|done]].
    apply Z.lxor_eq in E. congruence. }
  clear - Hq Hpr Hp Hrb. induction Hp as [|a p Ha Hp IH]; [constructor|].
  cbn [poly_div poly_eval] in *. destruct p as [|a' p'].
  - cbn in Hpr. rewrite gal_multiply_0_r, Z.lxor_0_r in Hpr by done. by repeat constructor.
  - set (p := a' :: p') in *. clearbody p. inversion Hq as [|? ? E Hq']; subst.
    rewrite E in Hpr. rewrite gal_multiply_0_r, Z.lxor_0_r in Hpr by done.
    constructor; [done|]. by apply IH.
Qed.

Lemma powers_injective nodes x : NoDup nodes -> bytes nodes -> bytes x -> length x = length nodes ->
  Forall (fun r => dot (powers (length nodes) r) x = 0) nodes -> all_zero x.
Proof.
  intros Hnd Hn Hx Hl Hz. apply (poly_roots_zero nodes); try done.
  unfold bytes in Hn. rewrite Forall_forall in *. intros r Hr. rewrite <- dot_powers with (n := length nodes); auto.
Qed.
