(* ===== verification/Matrix.v ===== *)
(** Matrices over GF(2^8): [rs/matrix.rs] and the error type of [rs/mod.rs].

    A matrix is one row-major buffer, as in the source.  The operations run in
    the [result] monad: [Err] is a returned error, [Panic] an index out of range.
    Each operation has a lemma that says what it does to the rows ([mrow]). *)
From stdpp Require Import base list.
From Stdlib Require Import ZArith Lia.
From S2P Require Import Prelude Word Galois GfVector.

(** [rs::Error]. *)
Inductive RsError :=
| InvShardNum
| MaxShardNum
| TooFewShards
| ShardNoData
| ShardSize
| InvalidRowSize
| InvalidColSize
| ColSizeMismatch
| MatrixSize
| MultiplySize (left_cols right_rows : nat)
| Singular
| NotSquare.

Record Matrix := mkMatrix { m_rows : nat; m_cols : nat; m_data : list Z }.

Abbreviation rs := (result RsError).

Implicit Types (m : Matrix).

(** [Matrix::new]. *)
Definition matrix_new (rows cols : nat) : rs Matrix :=
  if (rows =? 0)%nat then Err InvalidRowSize
  else if (cols =? 0)%nat then Err InvalidColSize
  else Ok (mkMatrix rows cols (replicate (rows * cols) 0%Z)).

(** The loop of [from_rows] over the rows. *)
Fixpoint from_rows_loop (cols : nat) (rows : list (list Z)) (data : list Z) : rs (list Z) :=
  match rows with
  | [] => Ok data
  | row :: rows =>
      if negb (length row =? cols)%nat then Err ColSizeMismatch
      else from_rows_loop cols rows (data ++ row)
  end.

(** [Matrix::from_rows]. *)
Definition from_rows (rows : list (list Z)) : rs Matrix :=
  match head rows with
  | None => Err InvalidRowSize
  | Some first =>
      let cols := length first in
      if (cols =? 0)%nat then Err InvalidColSize
      else data ← from_rows_loop cols rows []; Ok (mkMatrix (length rows) cols data)
  end.

(** [row]: the slice [data[r * cols..(r + 1) * cols]]. *)
Definition mrow m (r : nat) : list Z := take (m_cols m) (drop (r * m_cols m) (m_data m)).
Definition row m (r : nat) : rs (list Z) :=
  if ((r + 1) * m_cols m <=? length (m_data m))%nat then Ok (mrow m r) else Panic.

(** Writing [new] through [row_mut(r)]. *)
Definition put_row m (r : nat) (new : list Z) : rs Matrix :=
  if ((r + 1) * m_cols m <=? length (m_data m))%nat then
    Ok (mkMatrix (m_rows m) (m_cols m)
          (take (r * m_cols m) (m_data m) ++ new ++ drop ((r + 1) * m_cols m) (m_data m)))
  else Panic.

(** [get], [set]: the column is asserted, the index checked. *)
Definition mget m (r c : nat) : rs Z :=
  if (c <? m_cols m)%nat then unwrap (m_data m !! (r * m_cols m + c)%nat) else Panic.
Definition mset m (r c : nat) (v : Z) : rs Matrix :=
  if (c <? m_cols m)%nat then
    if (r * m_cols m + c <? length (m_data m))%nat then
      Ok (mkMatrix (m_rows m) (m_cols m) (<[(r * m_cols m + c)%nat := v]> (m_data m)))
    else Panic
  else Panic.

(** [Matrix::identity]. *)
Definition identity (size : nat) : rs Matrix :=
  m ← matrix_new size size;
  for_range 0 size (fun i m => mset m i i 1%Z) m.

(** [Matrix::multiply]. *)
Definition multiply m (right : Matrix) : rs Matrix :=
  if negb (m_cols m =? m_rows right)%nat then Err (MultiplySize (m_cols m) (m_rows right))
  else
    result ← matrix_new (m_rows m) (m_cols right);
    for_range 0 (m_rows result) (fun r result =>
      for_range 0 (m_cols result) (fun c result =>
        value ← for_range 0 (m_cols m) (fun i value =>
          a ← mget m r i; b ← mget right i c; Ok (Z.lxor value (gal_multiply a b))) 0%Z;
        mset result r c value) result) result.

(** [Matrix::augment]. *)
Definition augment m (right : Matrix) : rs Matrix :=
  if negb (m_rows m =? m_rows right)%nat then Err MatrixSize
  else
    result ← matrix_new (m_rows m) (m_cols m + m_cols right);
    for_range 0 (m_rows m) (fun r result =>
      left ← row m r; rest ← row right r; put_row result r (left ++ rest)) result.

(** [Matrix::same_size]. *)
Definition same_size m (n : Matrix) : rs () :=
  if negb (m_rows m =? m_rows n)%nat || negb (m_cols m =? m_cols n)%nat then Err MatrixSize else Ok ().

(** [Matrix::sub_matrix]: the slice [[cmin..cmax]] of each row. *)
Definition sub_matrix m (rmin cmin rmax cmax : nat) : rs Matrix :=
  result ← matrix_new (rmax - rmin) (cmax - cmin);
  for_range rmin rmax (fun r result =>
    line ← row m r;
    if (cmax <=? length line)%nat then put_row result (r - rmin) (take (cmax - cmin) (drop cmin line))
    else Panic) result.

(** [Matrix::swap_rows]. *)
Definition swap_rows m (r1 r2 : nat) : rs Matrix :=
  if ((m_rows m <=? r1) || (m_rows m <=? r2))%nat then Err InvalidRowSize
  else if negb (r1 =? r2)%nat then
    a ← row m r1; b ← row m r2;
    m ← put_row m r1 b;
    put_row m r2 a
  else Ok m.

Definition is_square m : bool := (m_rows m =? m_cols m)%nat.

(** [m[dst][c] ^= scale * m[src][c]]. *)
Definition sub_scaled_row m (dst src : nat) (scale : Z) (columns : nat) : rs Matrix :=
  d ← row m dst; s ← row m src;
  put_row m dst (zip_with (fun dv sv => Z.lxor dv (gal_multiply scale sv))
                   (take columns d) (take columns s) ++ drop columns d).

(** The pivot search: the first row below [r] with a non-zero in column [r] is
    exchanged with row [r]. *)
Fixpoint find_pivot (n row_below r : nat) m : rs Matrix :=
  match n with
  | 0%nat => Ok m
  | S n =>
      v ← mget m row_below r;
      if negb (v =? 0)%Z then swap_rows m r row_below else find_pivot n (S row_below) r m
  end.

(** "Scale to 1." *)
Definition scale_row (r : nat) m : rs Matrix :=
  v ← mget m r r;
  if negb (v =? 1)%Z then
    scale ← unwrap (gal_one_over v);
    line ← row m r;
    put_row m r ((fun v => gal_multiply v scale) <$> line)
  else Ok m.

(** One clearing step of either loop: row [dst] by row [src]. *)
Definition clear_below (columns r : nat) (row_below : nat) m : rs Matrix :=
  v ← mget m row_below r;
  if negb (v =? 0)%Z then sub_scaled_row m row_below r v columns else Ok m.

(** Column [r] of the first pass. *)
Definition eliminate_column (r : nat) m : rs Matrix :=
  v ← mget m r r;
  m ← (if (v =? 0)%Z then find_pivot (m_rows m - (r + 1)) (r + 1) r m else Ok m);
  v ← mget m r r;
  if (v =? 0)%Z then Err Singular
  else
    m ← scale_row r m;
    for_range (r + 1) (m_rows m) (clear_below (m_cols m) r) m.

(** [Matrix::gaussian_elimination]. *)
Definition gaussian_elimination m : rs Matrix :=
  let rows := m_rows m in
  let columns := m_cols m in
  m ← for_range 0 rows eliminate_column m;
  for_range 0 rows (fun d m => for_range 0 d (fun row_above m => clear_below columns d row_above m) m) m.

(** [Matrix::invert]. *)
Definition invert m : rs Matrix :=
  if negb (is_square m) then Err NotSquare
  else
    let size := m_rows m in
    work ← identity size;
    work ← augment m work;
    work ← gaussian_elimination work;
    sub_matrix work 0 size size (size * 2).

(** [Matrix::vandermonde]: [r as u8] to the power [c]. *)
Definition vandermonde (rows cols : nat) : rs Matrix :=
  result ← matrix_new rows cols;
  for_range 0 rows (fun r result =>
    for_range 0 cols (fun c result => mset result r c (gal_exp (u8 (Z.of_nat r)) c)) result) result.

(** ** Rows

    What the matrix operations do to the rows of a matrix.

    [mwf] is the shape invariant (a buffer of [rows * cols] bytes).  Every
    operation on well-formed matrices of matching shapes succeeds, keeps the
    invariant, and its rows are the expected ones; [multiply] composes. *)

Record mwf m : Prop := {
  mwf_len : length (m_data m) = (m_rows m * m_cols m)%nat;
  mwf_bytes : bytes (m_data m);
  mwf_rows : (0 < m_rows m)%nat;
  mwf_cols : (0 < m_cols m)%nat;
}.

Definition entry m (r c : nat) : Z := nth c (mrow m r) 0%Z.

Lemma mrow_lookup m r c : (c < m_cols m)%nat -> mrow m r !! c = m_data m !! (r * m_cols m + c)%nat.
Proof. intros Hc. unfold mrow. rewrite lookup_take_lt by done. apply lookup_drop. Qed.

Lemma length_mrow m r : mwf m -> (r < m_rows m)%nat -> length (mrow m r) = m_cols m.
Proof. intros [Hl _ _ _] Hr. unfold mrow. rewrite length_take, length_drop, Hl. nia. Qed.

Lemma mrow_bytes m r : mwf m -> bytes (mrow m r).
Proof. intros Hm. unfold mrow. apply Forall_take, Forall_drop, Hm. Qed.

Lemma entry_byte m r c : mwf m -> is_u8 (entry m r c).
Proof.
  intros Hm. unfold entry. destruct (nth_in_or_default c (mrow m r) 0%Z) as [Hi| ->]; [|done].
  pose proof (mrow_bytes m r Hm) as Hb. unfold bytes in Hb. rewrite Forall_forall in Hb.
  apply Hb. by apply list_elem_of_In.
Qed.

Lemma entry_lookup m r c : mwf m -> (r < m_rows m)%nat -> (c < m_cols m)%nat ->
  mrow m r !! c = Some (entry m r c).
Proof.
  intros Hm Hr Hc. unfold entry. destruct (lookup_lt_is_Some_2 (mrow m r) c) as [v Hv];
    [by rewrite length_mrow|]. by rewrite Hv, (nth_lookup_Some _ _ _ _ Hv).
Qed.

Lemma row_ok m r : mwf m -> (r < m_rows m)%nat -> row m r = Ok (mrow m r).
Proof. intros [Hl _ _ _] Hr. unfold row. rewrite Hl, (proj2 (Nat.leb_le _ _)) by nia. done. Qed.

Lemma mget_ok m r c : mwf m -> (r < m_rows m)%nat -> (c < m_cols m)%nat -> mget m r c = Ok (entry m r c).
Proof.
  intros Hm Hr Hc. unfold mget. rewrite (proj2 (Nat.ltb_lt _ _)) by done.
  by rewrite <- mrow_lookup, entry_lookup.
Qed.

(** [m'] is [m] with row [r] replaced by [new]. *)
Record updates m (r : nat) (new : list Z) (m' : Matrix) : Prop := {
  up_wf : mwf m';
  up_rows : m_rows m' = m_rows m;
  up_cols : m_cols m' = m_cols m;
  up_new : mrow m' r = new;
  up_old : forall r', r' <> r -> (r' < m_rows m)%nat -> mrow m' r' = mrow m r';
}.

Lemma put_row_ok m r new : mwf m -> (r < m_rows m)%nat -> bytes new -> length new = m_cols m ->
  exists m', put_row m r new = Ok m' /\ updates m r new m'.
Proof.
  intros Hm Hr Hb Hl. pose proof Hm as [Hd Hdb Hr0 Hc0].
  unfold put_row. rewrite Hd, (proj2 (Nat.leb_le _ _)) by nia. eexists. split; [reflexivity|].
  set (m' := mkMatrix _ _ _).
  assert (mwf m') as Hm'.
  { subst m'. constructor; cbn; try done.
    - rewrite !length_app, length_take, length_drop, Hd, Hl. nia.
    - unfold bytes. rewrite !Forall_app. split_and!; [by apply Forall_take|done|by apply Forall_drop]. }
  constructor; try done.
  - unfold mrow, m'. cbn. rewrite drop_app_length' by (rewrite length_take; nia).
    rewrite take_app_le by lia. by rewrite take_ge by lia.
  - intros r' Hne Hr'. apply list_eq. intros c. destruct (decide (c < m_cols m)%nat) as [Hc|Hc].
    2: { rewrite !lookup_ge_None_2; [done| |]; rewrite length_mrow; (done || cbn; lia). }
    rewrite !mrow_lookup by done. unfold m'. cbn [m_data m_cols].
    destruct (decide (r' < r)%nat).
    + rewrite lookup_app_l by (rewrite length_take; nia). by rewrite lookup_take_lt by nia.
    + rewrite lookup_app_r by (rewrite length_take; nia). rewrite length_take.
      rewrite lookup_app_r by nia. rewrite lookup_drop. f_equal. nia.
Qed.

Lemma mset_put_row m r c v : mwf m -> (r < m_rows m)%nat -> (c < m_cols m)%nat ->
  mset m r c v = put_row m r (<[c := v]> (mrow m r)).
Proof.
  intros Hm Hr Hc. pose proof Hm as [Hd Hdb Hr0 Hc0].
  unfold mset, put_row. rewrite (proj2 (Nat.ltb_lt c _)) by done. rewrite Hd.
  rewrite (proj2 (Nat.ltb_lt _ _)), (proj2 (Nat.leb_le _ _)) by nia. do 2 f_equal.
  apply list_eq. intros i. destruct (decide (i < r * m_cols m)%nat).
  { rewrite list_lookup_insert_ne by lia. rewrite lookup_app_l by (rewrite length_take; nia).
    by rewrite lookup_take_lt by lia. }
  rewrite lookup_app_r by (rewrite length_take; nia). rewrite length_take.
  replace ((r * m_cols m) `min` length (m_data m))%nat with (r * m_cols m)%nat by nia.
  pose proof (length_mrow m r Hm Hr) as Hml.
  destruct (decide (i < (r + 1) * m_cols m)%nat).
  - rewrite lookup_app_l by (rewrite length_insert; nia).
    destruct (decide (i = r * m_cols m + c)%nat) as [->|].
    + rewrite list_lookup_insert_eq by nia. replace (r * m_cols m + c - r * m_cols m)%nat with c by lia.
      by rewrite list_lookup_insert_eq by lia.
    + rewrite !list_lookup_insert_ne by lia. rewrite mrow_lookup by nia. f_equal. lia.
  - rewrite lookup_app_r by (rewrite length_insert; nia). rewrite length_insert, Hml.
    rewrite list_lookup_insert_ne by nia. rewrite lookup_drop. f_equal. nia.
Qed.

Lemma mset_ok m r c v : mwf m -> (r < m_rows m)%nat -> (c < m_cols m)%nat -> is_u8 v ->
  exists m', mset m r c v = Ok m' /\ updates m r (<[c := v]> (mrow m r)) m'.
Proof.
  intros Hm Hr Hc Hv. rewrite mset_put_row by done. apply put_row_ok; try done.
  - apply Forall_insert; [by apply mrow_bytes|done].
  - rewrite length_insert. by apply length_mrow.
Qed.

Lemma matrix_new_ok rows cols : (0 < rows)%nat -> (0 < cols)%nat ->
  exists m, matrix_new rows cols = Ok m /\ mwf m /\ m_rows m = rows /\ m_cols m = cols /\
    forall r, (r < rows)%nat -> mrow m r = replicate cols 0%Z.
Proof.
  intros Hr Hc. unfold matrix_new. rewrite !(proj2 (Nat.eqb_neq _ _)) by lia.
  eexists. split; [reflexivity|]. split_and!; try done.
  - constructor; cbn; try done; [apply length_replicate|apply zeros_bytes].
  - intros r Hlt. unfold mrow. cbn. rewrite drop_replicate, take_replicate. f_equal. nia.
Qed.

(** ** Loops that fill a matrix *)

(** Same shape as [m], and well formed. *)
Definition shaped m m' : Prop := mwf m' /\ m_rows m' = m_rows m /\ m_cols m' = m_cols m.

(** [for r in 0..rows], writing row [r] in round [r]. *)
Lemma fill_rows (R : nat -> list Z) m0 f :
  mwf m0 ->
  (forall r m, (r < m_rows m0)%nat -> shaped m0 m -> mrow m r = mrow m0 r ->
     exists m', f r m = Ok m' /\ updates m r (R r) m') ->
  exists m', for_range 0 (m_rows m0) f m0 = @Ok RsError _ m' /\ shaped m0 m' /\
    forall r, (r < m_rows m0)%nat -> mrow m' r = R r.
Proof.
  intros Hm Hf.
  destruct (for_range_inv (fun i m => shaped m0 m /\
      forall r, (r < m_rows m0)%nat -> mrow m r = if decide (r < i)%nat then R r else mrow m0 r)
      0 (m_rows m0) f m0) as (m' & E & Hs & HR).
  - lia.
  - split; [done|]. intros r Hr. by rewrite decide_False by lia.
  - intros r m [_ Hr] [Hs HR]. destruct (Hf r m Hr Hs) as (m' & E & [Hw Er Ec En Eo]).
    { rewrite HR by done. by rewrite decide_False by lia. }
    destruct Hs as (_ & Er1 & Ec1). exists m'. split; [done|]. split; [split_and!; congruence|].
    intros r' Hr'. destruct (decide (r' = r)) as [->|Hne]; [by rewrite decide_True by lia|].
    rewrite Eo, HR by (done || congruence).
    destruct (decide (r' < r)%nat), (decide (r' < r + 1)%nat); try lia; done.
  - exists m'. split; [done|]. split; [done|]. intros r Hr. rewrite HR by done. by rewrite decide_True.
Qed.

(** [for c in 0..cols], writing element [(r, c)] in round [c]. *)
Lemma fill_cols (V : nat -> Z) r m0 f :
  mwf m0 -> (r < m_rows m0)%nat -> (forall c, is_u8 (V c)) ->
  (forall c m, (c < m_cols m0)%nat -> f c m = mset m r c (V c)) ->
  exists m', for_range 0 (m_cols m0) f m0 = @Ok RsError _ m' /\ updates m0 r (V <$> seq 0 (m_cols m0)) m'.
Proof.
  intros Hm Hr HV Hf. pose proof (length_mrow m0 r Hm Hr) as Hl.
  destruct (for_range_inv (fun i m => updates m0 r ((V <$> seq 0 i) ++ drop i (mrow m0 r)) m)
      0 (m_cols m0) f m0) as (m' & E & Hu).
  - lia.
  - constructor; done.
  - intros c m [_ Hc] [Hw Er Ec En Eo].
    destruct (mset_ok m r c (V c) Hw ltac:(lia) ltac:(lia) (HV c)) as (m' & E & [Hw' Er' Ec' En' Eo']).
    exists m'. rewrite Hf by done. split; [done|]. constructor; try congruence.
    + rewrite En', En. apply list_eq. intros i.
      rewrite Nat.add_1_r, seq_S, fmap_app, <- app_assoc.
      rewrite insert_app_r_alt by (rewrite length_fmap, length_seq; lia).
      rewrite length_fmap, length_seq, Nat.sub_diag. do 2 f_equal.
      destruct (drop c (mrow m0 r)) as [|x l] eqn:Ed.
      { apply (f_equal length) in Ed. rewrite length_drop in Ed. cbn in Ed. lia. }
      cbn. f_equal. replace (S c) with (c + 1)%nat by lia. by rewrite <- drop_drop, Ed.
    + intros r' Hne Hr'. rewrite Eo', Eo by (done || congruence). done.
  - exists m'. split; [done|]. rewrite drop_ge, app_nil_r in Hu by lia. done.
Qed.

Lemma identity_ok size : (0 < size)%nat ->
  exists m, identity size = Ok m /\ mwf m /\ m_rows m = size /\ m_cols m = size /\
    forall r, (r < size)%nat -> mrow m r = unit_row size r.
Proof.
  intros Hs. unfold identity. destruct (matrix_new_ok size size Hs Hs) as (m & -> & Hm & Er & Ec & Hz).
  cbn. destruct (fill_rows (unit_row size) m (fun i m => mset m i i 1%Z) Hm) as (m' & E & (Hw & Er' & Ec') & HR).
  - intros r m1 Hr (Hw1 & Er1 & Ec1) Eq.
    destruct (mset_ok m1 r r 1%Z Hw1 ltac:(lia) ltac:(lia) ltac:(done)) as (m2 & E & Hu).
    exists m2. split; [done|]. by rewrite Eq, Hz in Hu by lia.
  - rewrite Er in E, HR. exists m'. split_and!; try done; congruence.
Qed.

Lemma vandermonde_ok rows cols : (0 < rows <= 256)%nat -> (0 < cols)%nat ->
  exists m, vandermonde rows cols = Ok m /\ mwf m /\ m_rows m = rows /\ m_cols m = cols /\
    forall r, (r < rows)%nat -> mrow m r = powers cols (Z.of_nat r).
Proof.
  intros Hr Hc. unfold vandermonde.
  destruct (matrix_new_ok rows cols) as (m & -> & Hm & Er & Ec & Hz); [lia|done|]. cbn. rewrite <- Er.
  destruct (fill_rows (fun r => powers cols (Z.of_nat r)) m
    (fun r result => for_range 0 cols (fun c result => mset result r c (gal_exp (u8 (Z.of_nat r)) c)) result) Hm)
    as (m' & E & (Hw & Er' & Ec') & HR).
  - intros r m1 Hr1 (Hw1 & Er1 & Ec1) _.
    destruct (fill_cols (fun c => gal_exp (u8 (Z.of_nat r)) c) r m1
      (fun c result => mset result r c (gal_exp (u8 (Z.of_nat r)) c))) as (m2 & E & Hu); try done.
    + congruence.
    + intros c. apply gal_exp_byte, u8_range.
    + exists m2. rewrite Ec1, Ec in E, Hu. split; [done|].
      rewrite u8_id in Hu by (unfold is_u8; lia). exact Hu.
  - exists m'. split_and!; try done; congruence.
Qed.

(** Column [c] of a matrix. *)
Definition mcol m (c : nat) : list Z := (fun i => entry m i c) <$> seq 0 (m_rows m).

(** The matrix applied to a vector. *)
Definition mvec m (x : list Z) : list Z := (fun r => dot (mrow m r) x) <$> seq 0 (m_rows m).

Lemma length_mvec m x : length (mvec m x) = m_rows m.
Proof. unfold mvec. by rewrite length_fmap, length_seq. Qed.

Lemma mvec_bytes m x : mwf m -> bytes x -> bytes (mvec m x).
Proof. intros Hm Hx. apply Forall_fmap, Forall_forall. intros r _. apply dot_byte; [by apply mrow_bytes|done]. Qed.

Lemma mvec_lookup m x r : (r < m_rows m)%nat -> mvec m x !! r = Some (dot (mrow m r) x).
Proof. intros Hr. unfold mvec. by rewrite list_lookup_fmap, lookup_seq_lt. Qed.

Lemma dot_take_succ a b i u v : a !! i = Some u -> b !! i = Some v ->
  dot (take (i + 1) a) (take (i + 1) b) = Z.lxor (dot (take i a) (take i b)) (gal_multiply u v).
Proof.
  intros Ha Hb. rewrite Nat.add_1_r, (take_S_r _ _ _ Ha), (take_S_r _ _ _ Hb).
  apply lookup_lt_Some in Ha, Hb. rewrite dot_app by (rewrite !length_take; lia).
  cbn [dot]. by rewrite Z.lxor_0_r.
Qed.

Lemma multiply_value m right r c : mwf m -> mwf right -> m_cols m = m_rows right ->
  (r < m_rows m)%nat -> (c < m_cols right)%nat ->
  for_range 0 (m_cols m) (fun i value =>
    a ← mget m r i; b ← mget right i c; Ok (Z.lxor value (gal_multiply a b))) 0%Z
  = Ok (dot (mrow m r) (mcol right c)).
Proof.
  intros Hm Hr Es Hrow Hcol.
  destruct (for_range_inv (fun i v => v = dot (take i (mrow m r)) (take i (mcol right c))) 0 (m_cols m)
    (fun i value => a ← mget m r i; b ← mget right i c; @Ok RsError _ (Z.lxor value (gal_multiply a b))) 0%Z)
    as (v & E & ->).
  - lia.
  - done.
  - intros i v [_ Hi] ->. rewrite !mget_ok by (done || lia). cbn. eexists. split; [reflexivity|].
    rewrite (dot_take_succ _ _ _ (entry m r i) (entry right i c)); [done|by apply entry_lookup|].
    unfold mcol. rewrite list_lookup_fmap, lookup_seq_lt by lia. done.
  - rewrite E. rewrite !take_ge; [done| |rewrite length_mrow; (done || lia)].
    unfold mcol. rewrite length_fmap, length_seq. lia.
Qed.

Lemma mrows_ok m n : mwf m -> (n <= m_rows m)%nat -> rows_ok (m_cols m) (mrow m <$> seq 0 n).
Proof.
  intros Hm Hn. apply Forall_fmap, Forall_forall. intros r Hr. apply elem_of_seq in Hr.
  split; [by apply mrow_bytes|apply length_mrow; [done|lia]].
Qed.

Lemma multiply_ok m right : mwf m -> mwf right -> m_cols m = m_rows right ->
  exists p, multiply m right = Ok p /\ mwf p /\ m_rows p = m_rows m /\ m_cols p = m_cols right /\
    forall r, (r < m_rows m)%nat -> mrow p r = combine_rows (m_cols right) (mrow m r) (mrow right <$> seq 0 (m_rows right)).
Proof.
  intros Hm Hr Es. unfold multiply. rewrite Es, Nat.eqb_refl. cbn [negb].
  destruct (matrix_new_ok (m_rows m) (m_cols right)) as (z & -> & Hz & Er & Ec & _);
    [apply Hm|apply Hr|]. cbn.
  set (V := fun r c => dot (mrow m r) (mcol right c)).
  assert (forall r c, is_u8 (V r c)) as HV.
  { intros. apply dot_byte; [by apply mrow_bytes|]. apply Forall_fmap, Forall_forall. intros. by apply entry_byte. }
  match goal with |- exists p, for_range 0 _ ?f z = _ /\ _ =>
    destruct (fill_rows (fun r => V r <$> seq 0 (m_cols right)) z f Hz) as (p & E & (Hw & Er' & Ec') & HR) end.
  - intros r m1 Hr1 (Hw1 & Er1 & Ec1) _. rewrite Er in Hr1.
    match goal with |- exists p, for_range 0 _ ?f m1 = _ /\ _ =>
      destruct (fill_cols (V r) r m1 f) as (m2 & E & Hu) end; try done.
    + lia.
    + intros c m3 Hc. cbv beta. rewrite <- Es, multiply_value by (done || lia). done.
    + exists m2. rewrite Ec1, Ec in Hu. split; [done|exact Hu].
  - exists p. split; [done|]. split; [done|]. split; [congruence|]. split; [congruence|].
    intros r Hrow. rewrite HR by lia. apply list_eq. intros c.
    destruct (combine_rows_ok (m_cols right) (mrow m r) (mrow right <$> seq 0 (m_rows right))
      (mrow_bytes m r Hm) (mrows_ok right _ Hr (Nat.le_refl _))) as [_ Hl].
    destruct (decide (c < m_cols right)%nat) as [Hc|Hc].
    + rewrite combine_rows_lookup; [|by apply mrow_bytes|by apply mrows_ok|done].
      rewrite list_lookup_fmap, lookup_seq_lt by done. cbn. unfold V, mcol, entry.
      by rewrite <- list_fmap_compose.
    + rewrite !lookup_ge_None_2; [done|rewrite Hl; lia|rewrite length_fmap, length_seq; lia].
Qed.

(** The product applied to [x] is [m] applied to [right] applied to [x]. *)
Lemma multiply_mvec m right p : mwf m -> mwf right -> m_cols m = m_rows right ->
  multiply m right = Ok p -> forall x, bytes x -> mvec p x = mvec m (mvec right x).
Proof.
  intros Hm Hr Es Ep x Hx. destruct (multiply_ok m right Hm Hr Es) as (p' & E & Hp & Er & Ec & HR).
  rewrite Ep in E. injection E as <-. unfold mvec at 1 2. rewrite Er.
  apply list_fmap_ext. intros i r Hi. apply lookup_seq in Hi as [-> Hi]. cbn in *.
  rewrite HR by done. rewrite dot_combine; [|by apply mrow_bytes|by apply mrows_ok|done].
  unfold mvec. by rewrite <- list_fmap_compose.
Qed.
