(* ===== verification/Gauss.v ===== *)
(** Gauss-Jordan inversion is correct: [Matrix::invert].

    Every row operation of the elimination keeps the kernel of the augmented
    matrix ([same_ker]).  Started on [[m | I]], whose kernel is the graph of [m]
    (in characteristic 2), a successful elimination ends on [[I | b]], whose
    kernel is the graph of [b]: so [b] is the two-sided inverse
    ([invert_ok]).  When a column has no pivot, back substitution gives a
    non-zero vector of the kernel of [m]: so the elimination fails exactly on
    singular matrices ([invert_singular]). *)
From stdpp Require Import base list.
From Stdlib Require Import ZArith Lia.
From S2P Require Import Prelude Word Galois GfVector Matrix.

Implicit Types (m : Matrix).

(** ** The kernel *)

Definition ker m (z : list Z) : Prop := forall r, (r < m_rows m)%nat -> dot (mrow m r) z = 0%Z.

Definition same_ker m m' : Prop :=
  shaped m m' /\ forall z, bytes z -> length z = m_cols m -> ker m z <-> ker m' z.

Lemma same_ker_refl m : mwf m -> same_ker m m.
Proof. intros Hm. split; [done|]. done. Qed.

Lemma same_ker_trans m1 m2 m3 : same_ker m1 m2 -> same_ker m2 m3 -> same_ker m1 m3.
Proof.
  intros [(Hw1 & Er1 & Ec1) Hk1] [(Hw2 & Er2 & Ec2) Hk2]. split; [split_and!; congruence|].
  intros z Hz Hl. rewrite Hk1 by done. apply Hk2; congruence.
Qed.

(** ** Row operations *)

Lemma swap_rows_ok m r1 r2 : mwf m -> (r1 < m_rows m)%nat -> (r2 < m_rows m)%nat -> r1 <> r2 ->
  exists m', swap_rows m r1 r2 = Ok m' /\ same_ker m m' /\
    mrow m' r1 = mrow m r2 /\ mrow m' r2 = mrow m r1 /\
    forall r, r <> r1 -> r <> r2 -> (r < m_rows m)%nat -> mrow m' r = mrow m r.
Proof.
  intros Hm H1 H2 Hne. unfold swap_rows.
  rewrite !(proj2 (Nat.leb_gt _ _)) by done. rewrite (proj2 (Nat.eqb_neq _ _) Hne). cbn [orb negb].
  rewrite !row_ok by done. cbn.
  destruct (put_row_ok m r1 (mrow m r2)) as (m1 & -> & [Hw1 Er1 Ec1 En1 Eo1]);
    [done..|by apply mrow_bytes|by apply length_mrow|]. cbn.
  destruct (put_row_ok m1 r2 (mrow m r1)) as (m2 & -> & [Hw2 Er2 Ec2 En2 Eo2]);
    [done|lia|by apply mrow_bytes|rewrite Ec1; by apply length_mrow|].
  assert (mrow m2 r1 = mrow m r2) as E1 by (rewrite Eo2 by (done || lia); done).
  assert (forall r, r <> r1 -> r <> r2 -> (r < m_rows m)%nat -> mrow m2 r = mrow m r) as E3.
  { intros r Ha Hb Hr. rewrite Eo2, Eo1 by (done || lia). done. }
  exists m2. split; [done|]. split; [|done]. split; [split_and!; congruence|].
  intros z Hz Hl. unfold ker. rewrite Er2, Er1. split; intros Hk r Hr.
  - destruct (decide (r = r1)) as [->|]; [rewrite E1; by apply Hk|].
    destruct (decide (r = r2)) as [->|]; [rewrite En2; by apply Hk|]. rewrite E3 by done. by apply Hk.
  - destruct (decide (r = r1)) as [->|]; [rewrite <- En2; by apply Hk|].
    destruct (decide (r = r2)) as [->|]; [rewrite <- E1; by apply Hk|]. rewrite <- E3 by done. by apply Hk.
Qed.

(** A row replaced by itself plus or times something that keeps the kernel. *)
Lemma updates_same_ker m r new m' : mwf m -> (r < m_rows m)%nat -> updates m r new m' ->
  (forall z, bytes z -> length z = m_cols m ->
     (forall r', r' <> r -> (r' < m_rows m)%nat -> dot (mrow m r') z = 0%Z) ->
     dot new z = 0%Z <-> dot (mrow m r) z = 0%Z) ->
  same_ker m m'.
Proof.
  intros Hm Hr [Hw Er Ec En Eo] Hz. split; [done|]. intros z Hb Hl. unfold ker. rewrite Er. split; intros Hk r' Hr'.
  - destruct (decide (r' = r)) as [->|]; [|rewrite Eo by done; by apply Hk].
    rewrite En. apply Hz; auto.
  - destruct (decide (r' = r)) as [->|]; [|rewrite <- Eo by done; by apply Hk].
    apply Hz; [done|done| |rewrite <- En; by apply Hk]. intros r1 Hne Hr1. rewrite <- Eo by done. by apply Hk.
Qed.

Lemma vscale_1 a : bytes a -> vscale 1 a = a.
Proof.
  intros Ha. unfold vscale. induction Ha as [|x a Hx Ha IH]; [done|]. cbn.
  by rewrite gal_multiply_1_l, IH.
Qed.

Lemma length_vscale c a : length (vscale c a) = length a.
Proof. apply length_fmap. Qed.

Lemma length_vadd a b : length a = length b -> length (vadd a b) = length a.
Proof. intros E. unfold vadd. rewrite length_zip_with. lia. Qed.

Lemma nth_vscale s a c : bytes a -> is_u8 s -> nth c (vscale s a) 0%Z = gal_multiply s (nth c a 0%Z).
Proof.
  intros Ha Hs. unfold vscale. revert c; induction Ha as [|x a Hx Ha IH]; intros [|c]; cbn;
    rewrite ?gal_multiply_0_r by done; done.
Qed.

Lemma nth_vadd a b c : length a = length b -> nth c (vadd a b) 0%Z = Z.lxor (nth c a 0%Z) (nth c b 0%Z).
Proof.
  unfold vadd. revert b c; induction a as [|x a IH]; intros [|y b] [|c] E; cbn in *; try lia; try done.
  apply IH. lia.
Qed.

Lemma vadd_scale_0 a b : length a = length b -> bytes b -> vadd a (vscale 0 b) = a.
Proof.
  unfold vadd, vscale. intros E Hb. revert a E; induction Hb as [|y b Hy Hb IH]; intros [|x a] E; cbn in *; try lia; [done|].
  rewrite gal_multiply_0_l, Z.lxor_0_r, IH by (done || lia). done.
Qed.

Lemma scale_row_ok m r : mwf m -> (r < m_rows m)%nat -> (r < m_cols m)%nat -> entry m r r <> 0%Z ->
  exists m' s, scale_row r m = Ok m' /\ same_ker m m' /\ is_u8 s /\
    gal_multiply s (entry m r r) = 1%Z /\ updates m r (vscale s (mrow m r)) m'.
Proof.
  intros Hm Hr Hc Hn. unfold scale_row. rewrite mget_ok by done. cbn.
  pose proof (entry_byte m r r Hm) as He. pose proof (mrow_bytes m r Hm) as Hb.
  destruct (Z.eqb_spec (entry m r r) 1) as [E|E]; cbn [negb].
  { exists m, 1%Z. split; [done|]. split; [by apply same_ker_refl|]. split; [done|]. split.
    - rewrite E. reflexivity.
    - constructor; try done. by rewrite vscale_1. }
  destruct (gal_one_over_spec _ He Hn) as (i & -> & Hi & Hin & Ei). cbn.
  rewrite row_ok by done. cbn.
  assert ((fun v => gal_multiply v i) <$> mrow m r = vscale i (mrow m r)) as ->.
  { unfold vscale. clear - Hb Hi. induction Hb as [|x a Hx Ha IH]; [done|]. cbn.
    by rewrite gal_multiply_comm, IH. }
  destruct (put_row_ok m r (vscale i (mrow m r))) as (m' & -> & Hu); try done.
  { by apply vscale_bytes. }
  { rewrite length_vscale. by apply length_mrow. }
  exists m', i. split; [done|]. split.
  - apply (updates_same_ker m r _ m' Hm Hr Hu). intros z Hz Hl _. rewrite dot_vscale_l by done. split.
    + intros E0. apply gal_multiply_integral in E0 as [?|?]; try done. by apply dot_byte.
    + intros ->. by apply gal_multiply_0_r.
  - split_and!; try done. by rewrite gal_multiply_comm.
Qed.

Lemma clear_below_ok m dst src : mwf m -> (dst < m_rows m)%nat -> (src < m_rows m)%nat -> dst <> src ->
  (src < m_cols m)%nat ->
  exists m', clear_below (m_cols m) src dst m = Ok m' /\ same_ker m m' /\
    updates m dst (vadd (mrow m dst) (vscale (entry m dst src) (mrow m src))) m'.
Proof.
  intros Hm Hd Hs Hne Hc. unfold clear_below. rewrite mget_ok by done. cbn.
  pose proof (entry_byte m dst src Hm) as He.
  pose proof (mrow_bytes m dst Hm) as Hbd. pose proof (mrow_bytes m src Hm) as Hbs.
  pose proof (length_mrow m dst Hm Hd) as Hld. pose proof (length_mrow m src Hm Hs) as Hls.
  destruct (Z.eqb_spec (entry m dst src) 0) as [E|E]; cbn [negb].
  { exists m. split; [done|]. split; [by apply same_ker_refl|]. constructor; try done.
    rewrite E, vadd_scale_0; [done|congruence|done]. }
  unfold sub_scaled_row. rewrite !row_ok by done. cbn.
  rewrite !take_ge, drop_ge, app_nil_r by lia.
  assert (zip_with (fun dv sv => Z.lxor dv (gal_multiply (entry m dst src) sv)) (mrow m dst) (mrow m src)
    = vadd (mrow m dst) (vscale (entry m dst src) (mrow m src))) as ->.
  { unfold vadd, vscale. by rewrite zip_with_fmap_r. }
  set (v := entry m dst src) in *.
  assert (length (vscale v (mrow m src)) = length (mrow m dst)) as Hlv by (rewrite length_vscale; lia).
  destruct (put_row_ok m dst (vadd (mrow m dst) (vscale v (mrow m src)))) as (m' & -> & Hu); try done.
  { apply vadd_bytes; [done|by apply vscale_bytes]. }
  { rewrite length_vadd; lia. }
  exists m'. split; [done|]. split; [|done].
  apply (updates_same_ker m dst _ m' Hm Hd Hu). intros z Hz Hl Hk.
  rewrite dot_vadd_l; try done; [|by apply vscale_bytes].
  rewrite dot_vscale_l, (Hk src) by (done || lia). by rewrite gal_multiply_0_r, Z.lxor_0_r.
Qed.

(** ** The first pass *)

(** Columns below [k] are zero under a diagonal of ones. *)
Definition lower (k : nat) m : Prop :=
  forall c i, (c < k)%nat -> (c <= i < m_rows m)%nat -> entry m i c = if decide (i = c) then 1%Z else 0%Z.

Lemma same_ker_shape m m' : same_ker m m' -> mwf m' /\ m_rows m' = m_rows m /\ m_cols m' = m_cols m.
Proof. by intros [? _]. Qed.

Lemma updates_entry m r new m' i c : updates m r new m' -> (i < m_rows m)%nat ->
  entry m' i c = if decide (i = r) then nth c new 0%Z else entry m i c.
Proof.
  intros [Hw Er Ec En Eo] Hi. unfold entry. destruct (decide (i = r)) as [->|]; [by rewrite En|]. by rewrite Eo.
Qed.

Lemma entry_vadd_scale m dst src v c : mwf m -> (dst < m_rows m)%nat -> (src < m_rows m)%nat -> is_u8 v ->
  nth c (vadd (mrow m dst) (vscale v (mrow m src))) 0%Z
  = Z.lxor (entry m dst c) (gal_multiply v (entry m src c)).
Proof.
  intros Hm Hd Hs Hv. rewrite nth_vadd by (rewrite length_vscale, !length_mrow; done).
  rewrite nth_vscale by (done || by apply mrow_bytes). done.
Qed.

Lemma swap_lower m m' r i : (r < i < m_rows m)%nat ->
  m_rows m' = m_rows m -> mrow m' r = mrow m i -> mrow m' i = mrow m r ->
  (forall j, j <> r -> j <> i -> (j < m_rows m)%nat -> mrow m' j = mrow m j) ->
  lower r m -> lower r m'.
Proof.
  intros Hi Er E1 E2 E3 Hl c j Hc Hj. rewrite Er in Hj. unfold entry.
  destruct (decide (j = r)) as [->|].
  { rewrite E1. fold (entry m i c). rewrite Hl by lia. rewrite !decide_False by lia. done. }
  destruct (decide (j = i)) as [->|].
  { rewrite E2. fold (entry m r c). rewrite Hl by lia. rewrite !decide_False by lia. done. }
  rewrite E3 by (done || lia). by apply Hl.
Qed.

Lemma find_pivot_ok r n rb m : mwf m -> (r < rb)%nat -> (rb + n = m_rows m)%nat -> (r < m_cols m)%nat ->
  lower r m ->
  exists m', find_pivot n rb r m = Ok m' /\ same_ker m m' /\ lower r m' /\
    (entry m' r r <> 0%Z \/ m' = m /\ forall i, (rb <= i < m_rows m)%nat -> entry m i r = 0%Z).
Proof.
  intros Hm. revert rb; induction n as [|n IH]; intros rb Hr Hn Hc Hl; cbn [find_pivot].
  { exists m. split; [done|]. split; [by apply same_ker_refl|]. split; [done|]. right. split; [done|]. lia. }
  rewrite mget_ok by (done || lia). cbn.
  destruct (Z.eqb_spec (entry m rb r) 0) as [E|E]; cbn [negb].
  - destruct (IH (S rb)) as (m' & E' & Hk & Hl' & Hp); try done; [lia..|].
    exists m'. split; [done|]. split; [done|]. split; [done|]. destruct Hp as [?|[-> Hz]]; [by left|].
    right. split; [done|]. intros i Hi. destruct (decide (i = rb)) as [->|]; [done|]. apply Hz. lia.
  - destruct (swap_rows_ok m r rb Hm) as (m' & E' & Hk & E1 & E2 & E3); [lia..|].
    destruct (same_ker_shape _ _ Hk) as (_ & Er & _).
    exists m'. split; [done|]. split; [done|]. split.
    + apply (swap_lower m m' r rb); try done; lia.
    + left. unfold entry. rewrite E1. done.
Qed.

(** The clearing loop of column [r]. *)
Lemma clear_column_ok r m : mwf m -> (r < m_rows m)%nat -> (r < m_cols m)%nat -> lower r m ->
  entry m r r = 1%Z ->
  exists m', for_range (r + 1) (m_rows m) (clear_below (m_cols m) r) m = Ok m' /\
    same_ker m m' /\ lower (r + 1) m'.
Proof.
  intros Hm Hr Hc Hl E1.
  destruct (for_range_inv (fun i m' => same_ker m m' /\ lower r m' /\ mrow m' r = mrow m r /\
      (forall j, (r < j < i)%nat -> entry m' j r = 0%Z))
      (r + 1) (m_rows m) (clear_below (m_cols m) r) m) as (m' & E & Hk & Hl' & Er & Hz).
  - lia.
  - split_and!; [by apply same_ker_refl|done|done|lia].
  - intros i m1 Hi (Hk & Hl1 & Eq & Hz). destruct (same_ker_shape _ _ Hk) as (Hw1 & Er1 & Ec1).
    destruct (clear_below_ok m1 i r Hw1) as (m2 & E & Hk2 & Hu); [lia..|].
    rewrite Ec1 in E. exists m2. split; [done|].
    assert (entry m1 r r = 1%Z) as Ed by (unfold entry; rewrite Eq; done).
    split_and!.
    + by eapply same_ker_trans.
    + intros c j Hcr Hj. rewrite (up_rows _ _ _ _ Hu) in Hj.
      rewrite (updates_entry _ _ _ _ _ _ Hu) by lia. destruct (decide (j = i)) as [->|]; [|by apply Hl1].
      rewrite entry_vadd_scale by (try lia; try done; by apply entry_byte).
      rewrite (Hl1 c r) by lia. rewrite (Hl1 c i) by lia. rewrite !decide_False by lia.
      rewrite gal_multiply_0_r by by apply entry_byte. done.
    + rewrite (up_old _ _ _ _ Hu) by lia. done.
    + intros j Hj. rewrite (updates_entry _ _ _ _ _ _ Hu) by lia.
      destruct (decide (j = i)) as [->|]; [|apply Hz; lia].
      rewrite entry_vadd_scale by (try lia; try done; by apply entry_byte).
      rewrite Ed, gal_multiply_comm, gal_multiply_1_l by (done || by apply entry_byte).
      apply Z.lxor_nilpotent.
  - exists m'. split; [done|]. split; [done|]. destruct (same_ker_shape _ _ Hk) as (_ & Er' & _).
    intros c i Hci Hi. destruct (decide (c < r)%nat); [by apply Hl'|].
    assert (c = r) as -> by lia. destruct (decide (i = r)) as [->|].
    + unfold entry. rewrite Er. done.
    + apply Hz. lia.
Qed.

(** A column that has no pivot: what a singular matrix leaves. *)
Definition stuck (r : nat) m : Prop :=
  lower r m /\ forall i, (r <= i < m_rows m)%nat -> entry m i r = 0%Z.

Lemma eliminate_column_ok r m : mwf m -> (r < m_rows m)%nat -> (r < m_cols m)%nat -> lower r m ->
  match eliminate_column r m with
  | Ok m' => same_ker m m' /\ lower (r + 1) m'
  | Err e => e = Singular /\ exists m', same_ker m m' /\ stuck r m'
  | Panic => False
  end.
Proof.
  intros Hm Hr Hc Hl. unfold eliminate_column. rewrite mget_ok by done. cbn.
  assert (exists m1, (if (entry m r r =? 0)%Z then find_pivot (m_rows m - (r + 1)) (r + 1) r m else Ok m) = Ok m1 /\
    same_ker m m1 /\ lower r m1 /\ (entry m1 r r <> 0%Z \/ stuck r m1)) as (m1 & -> & Hk1 & Hl1 & Hp).
  { destruct (Z.eqb_spec (entry m r r) 0) as [E|E].
    - destruct (find_pivot_ok r (m_rows m - (r + 1)) (r + 1) m Hm) as (m1 & E1 & Hk1 & Hl1 & Hp); [lia..|done|].
      exists m1. split; [done|]. split; [done|]. split; [done|]. destruct Hp as [?|[-> Hz]]; [by left|right].
      split; [done|]. intros i Hi. destruct (decide (i = r)) as [->|]; [done|]. apply Hz. lia.
    - exists m. split; [done|]. split; [by apply same_ker_refl|]. split; [done|]. by left. }
  cbn. destruct (same_ker_shape _ _ Hk1) as (Hw1 & Er1 & Ec1).
  rewrite mget_ok by (done || lia). cbn.
  destruct (Z.eqb_spec (entry m1 r r) 0) as [E|E].
  { split; [done|]. exists m1. split; [done|]. by destruct Hp. }
  destruct (scale_row_ok m1 r Hw1) as (m2 & s & -> & Hk2 & Hs & Es & Hu); [lia..|done|]. cbn.
  destruct (same_ker_shape _ _ Hk2) as (Hw2 & Er2 & Ec2).
  assert (lower r m2) as Hl2.
  { intros c i Hci Hi. rewrite (updates_entry _ _ _ _ _ _ Hu) by lia.
    destruct (decide (i = r)) as [->|]; [|apply Hl1; lia].
    rewrite nth_vscale by (done || by apply mrow_bytes). fold (entry m1 r c).
    rewrite (Hl1 c r) by lia. rewrite decide_False by lia. by apply gal_multiply_0_r. }
  destruct (clear_column_ok r m2 Hw2) as (m3 & -> & Hk3 & Hl3); try lia; [done| |].
  { rewrite (updates_entry _ _ _ _ _ _ Hu) by lia. rewrite decide_True by done.
    rewrite nth_vscale by (done || by apply mrow_bytes). done. }
  split; [|done]. eapply same_ker_trans; [exact Hk1|]. by eapply same_ker_trans.
Qed.

(** ** The second pass *)

(** The first [k] columns are those of the identity, the others still zero under
    a diagonal of ones. *)
Definition reduced (k : nat) m : Prop :=
  lower (m_rows m) m /\
  forall c i, (c < k)%nat -> (i < m_rows m)%nat -> entry m i c = if decide (i = c) then 1%Z else 0%Z.

Lemma clear_above_ok d m : mwf m -> (d < m_rows m)%nat -> (m_rows m <= m_cols m)%nat -> reduced d m ->
  exists m', for_range 0 d (fun row_above m' => clear_below (m_cols m) d row_above m') m = Ok m' /\
    same_ker m m' /\ reduced (d + 1) m'.
Proof.
  intros Hm Hd Hc [Hl Hr].
  destruct (for_range_inv (fun i m' => same_ker m m' /\ reduced d m' /\
      (forall j, (j < i)%nat -> entry m' j d = 0%Z))
      0 d (fun row_above m' => clear_below (m_cols m) d row_above m') m) as (m' & E & Hk & [Hl' Hr'] & Hz).
  - lia.
  - split_and!; [by apply same_ker_refl|done|lia].
  - intros i m1 [_ Hi] (Hk & [Hl1 Hr1] & Hz). destruct (same_ker_shape _ _ Hk) as (Hw1 & Er1 & Ec1).
    destruct (clear_below_ok m1 i d Hw1) as (m2 & E & Hk2 & Hu); [lia..|].
    rewrite Ec1 in E. exists m2. split; [done|].
    assert (entry m1 d d = 1%Z) as Ed by (rewrite (Hl1 d d) by lia; by rewrite decide_True).
    assert (forall c, (c < d)%nat -> entry m2 i c = entry m1 i c) as Hsame.
    { intros c Hcd. rewrite (updates_entry _ _ _ _ _ _ Hu) by lia. rewrite decide_True by done.
      rewrite entry_vadd_scale by (try lia; try done; by apply entry_byte).
      rewrite (Hl1 c d) by lia. rewrite decide_False by lia.
      rewrite gal_multiply_0_r by by apply entry_byte. apply Z.lxor_0_r. }
    split; [by eapply same_ker_trans|]. split; [split|].
    + intros c j Hcm Hj. rewrite (up_rows _ _ _ _ Hu) in Hcm, Hj.
      destruct (decide (j = i)) as [->|]; [|rewrite (updates_entry _ _ _ _ _ _ Hu) by lia;
        rewrite decide_False by done; by apply Hl1].
      rewrite Hsame by lia. by apply Hl1.
    + intros c j Hcd Hj. rewrite (up_rows _ _ _ _ Hu) in Hj.
      destruct (decide (j = i)) as [->|]; [rewrite Hsame by done; by apply Hr1|].
      rewrite (updates_entry _ _ _ _ _ _ Hu) by lia. rewrite decide_False by done. by apply Hr1.
    + intros j Hj. rewrite (updates_entry _ _ _ _ _ _ Hu) by lia.
      destruct (decide (j = i)) as [->|]; [|apply Hz; lia].
      rewrite entry_vadd_scale by (try lia; try done; by apply entry_byte).
      rewrite Ed, gal_multiply_comm, gal_multiply_1_l by (done || by apply entry_byte).
      apply Z.lxor_nilpotent.
  - exists m'. split; [done|]. split; [done|]. destruct (same_ker_shape _ _ Hk) as (_ & Er' & _).
    split; [done|]. intros c i Hci Hi. destruct (decide (c < d)%nat); [by apply Hr'|].
    assert (c = d) as -> by lia. destruct (decide (i < d)%nat); [rewrite decide_False by lia; by apply Hz|].
    apply Hl'; lia.
Qed.

Lemma gaussian_elimination_ok m : mwf m -> (m_rows m <= m_cols m)%nat ->
  match gaussian_elimination m with
  | Ok m' => same_ker m m' /\ reduced (m_rows m) m'
  | Err e => e = Singular /\ exists r m', (r < m_rows m)%nat /\ same_ker m m' /\ stuck r m'
  | Panic => False
  end.
Proof.
  intros Hm Hc. unfold gaussian_elimination.
  opose proof* (for_range_fail (fun r m' => same_ker m m' /\ lower r m')
    (fun e => e = Singular /\ exists r m', (r < m_rows m)%nat /\ same_ker m m' /\ stuck r m')
    0 (m_rows m) eliminate_column m) as H1.
  { lia. }
  { split; [by apply same_ker_refl|]. intros c i Hci. lia. }
  { intros r m' [_ Hr] [Hk Hl]. destruct (same_ker_shape _ _ Hk) as (Hw & Er & Ec).
    pose proof (eliminate_column_ok r m' Hw ltac:(lia) ltac:(lia) Hl) as He.
    destruct (eliminate_column r m') as [m2|e|]; [| |done].
    - destruct He. split; [by eapply same_ker_trans|done].
    - destruct He as (-> & m2 & Hk2 & Hst). split; [done|]. exists r, m2. split; [done|].
      split; [by eapply same_ker_trans|done]. }
  assert (forall m', same_ker m m' -> lower (m_rows m) m' -> exists m2,
    for_range 0 (m_rows m) (fun d m' => for_range 0 d (fun row_above m' => clear_below (m_cols m) d row_above m') m') m'
      = Ok m2 /\ same_ker m m2 /\ reduced (m_rows m) m2) as H2.
  { intros m' Hk Hl.
    destruct (for_range_inv (fun d m1 => same_ker m m1 /\ reduced d m1) 0 (m_rows m)
      (fun d m' => for_range 0 d (fun row_above m' => clear_below (m_cols m) d row_above m') m') m')
      as (m2 & E & Hk2 & Hr2).
    - lia.
    - destruct (same_ker_shape _ _ Hk) as (_ & Er & _). split; [done|]. split; [by rewrite Er|]. intros; lia.
    - intros d m1 [_ Hd] [Hk1 Hr1]. destruct (same_ker_shape _ _ Hk1) as (Hw1 & Er1 & Ec1).
      destruct (clear_above_ok d m1 Hw1) as (m2 & E & Hk2 & Hr2); [lia..|done|].
      rewrite Ec1 in E. exists m2. split; [done|]. split; [by eapply same_ker_trans|done].
    - eauto. }
  destruct (for_range 0 (m_rows m) eliminate_column m) as [m1|e|]; cbn; [|done|done].
  destruct H1 as [Hk Hl]. destruct (H2 m1 Hk Hl) as (m2 & -> & ? & ?). done.
Qed.

(** ** A stuck elimination has a non-zero kernel vector *)

(** Back substitution: the rows from [j] on vanish on [x]. *)
Lemma back_substitution r m n : mwf m -> (r < n)%nat -> (n <= m_cols m)%nat -> m_rows m = n -> stuck r m ->
  forall k, (k <= r)%nat -> exists x, bytes x /\ length x = m_cols m /\ x !! r = Some 1%Z /\
    (forall c, (r < c < m_cols m)%nat -> x !! c = Some 0%Z) /\
    forall i, (r - k <= i < n)%nat -> dot (mrow m i) x = 0%Z.
Proof.
  intros Hm Hr Hn En [Hl Hz]. induction k as [|k IH]; intros Hk.
  - exists (unit_row (m_cols m) r). split_and!.
    + apply unit_row_bytes.
    + apply length_unit_row.
    + rewrite unit_row_lookup by lia. by rewrite decide_True.
    + intros c Hc. rewrite unit_row_lookup by lia. by rewrite decide_False by lia.
    + intros i Hi. rewrite dot_comm by (by apply mrow_bytes || apply unit_row_bytes).
      apply (dot_unit (m_cols m) r); [by apply mrow_bytes|apply length_mrow; [done|lia]|].
      rewrite entry_lookup by (done || lia). f_equal. apply Hz. lia.
  - destruct IH as (x & Hx & Hlx & H1 & H0 & Hd); [lia|].
    set (j := (r - S k)%nat). set (t := dot (mrow m j) x).
    assert (is_u8 t) as Ht by (apply dot_byte; [by apply mrow_bytes|done]).
    exists (alter (fun v => Z.lxor v t) j x). split_and!.
    + apply Forall_alter; [done|]. intros v Hv Hb. by apply lxor_byte.
    + by rewrite length_alter.
    + rewrite list_lookup_alter_ne by lia. done.
    + intros c Hc. rewrite list_lookup_alter_ne by lia. by apply H0.
    + intros i Hi. rewrite (dot_alter _ _ _ _ (entry m i j));
        [|by apply mrow_bytes|done|done|apply entry_lookup; (done || lia)|lia].
      rewrite (Hl j i) by lia. destruct (decide (i = j)) as [->|].
      * rewrite gal_multiply_1_l by done. apply Z.lxor_nilpotent.
      * rewrite gal_multiply_0_l by done. rewrite Hd by lia. done.
Qed.

(** ** Inversion *)

Lemma augment_ok m right : mwf m -> mwf right -> m_rows m = m_rows right ->
  exists a, augment m right = Ok a /\ mwf a /\ m_rows a = m_rows m /\ m_cols a = (m_cols m + m_cols right)%nat /\
    forall r, (r < m_rows m)%nat -> mrow a r = mrow m r ++ mrow right r.
Proof.
  intros Hm Hr Es. unfold augment. rewrite (proj2 (Nat.eqb_eq _ _) Es). cbn [negb].
  destruct (matrix_new_ok (m_rows m) (m_cols m + m_cols right)) as (z & -> & Hz & Er & Ec & _);
    [apply Hm|destruct Hm; lia|]. cbn. rewrite <- Er.
  destruct (fill_rows (fun r => mrow m r ++ mrow right r) z (fun r result =>
      left ← row m r; rest ← row right r; put_row result r (left ++ rest)) Hz) as (a & E & (Hw & Er' & Ec') & HR).
  - intros r m1 Hr1 (Hw1 & Er1 & Ec1) _. rewrite !row_ok by (done || lia). cbn. apply put_row_ok; [done|lia| |].
    + apply Forall_app. split; by apply mrow_bytes.
    + rewrite length_app, !length_mrow by (done || lia). lia.
  - exists a. split_and!; try done; congruence.
Qed.

Lemma sub_matrix_ok m rmin cmin rmax cmax : mwf m -> (rmin < rmax <= m_rows m)%nat -> (cmin < cmax <= m_cols m)%nat ->
  exists s, sub_matrix m rmin cmin rmax cmax = Ok s /\ mwf s /\ m_rows s = (rmax - rmin)%nat /\ m_cols s = (cmax - cmin)%nat /\
    forall r, (r < rmax - rmin)%nat -> mrow s r = take (cmax - cmin) (drop cmin (mrow m (rmin + r))).
Proof.
  intros Hm Hr Hc. unfold sub_matrix.
  destruct (matrix_new_ok (rmax - rmin) (cmax - cmin)) as (z & -> & Hz & Er & Ec & _); [lia..|]. cbn.
  destruct (for_range_inv (fun i s => shaped z s /\ forall r, (rmin + r < i)%nat ->
      mrow s r = take (cmax - cmin) (drop cmin (mrow m (rmin + r))))
    rmin rmax (fun r result => line ← row m r;
      if (cmax <=? length line)%nat then put_row result (r - rmin) (take (cmax - cmin) (drop cmin line))
      else @Panic RsError _) z) as (s & E & (Hw & Er' & Ec') & HR).
  - lia.
  - split; [done|]. lia.
  - intros i s Hi [(Hw & Er' & Ec') HR]. rewrite row_ok by (done || lia). cbn.
    rewrite length_mrow by (done || lia). rewrite (proj2 (Nat.leb_le _ _)) by lia.
    destruct (put_row_ok s (i - rmin) (take (cmax - cmin) (drop cmin (mrow m i)))) as (s' & -> & Hu); [done|lia| | |].
    + by apply Forall_take, Forall_drop, mrow_bytes.
    + rewrite length_take, length_drop, length_mrow by (done || lia). lia.
    + exists s'. split; [done|]. destruct Hu as [Hw2 Er2 Ec2 En2 Eo2]. split; [split_and!; congruence|].
      intros r Hlt. destruct (decide (rmin + r = i)%nat) as [<-|].
      * replace (rmin + r - rmin)%nat with r in En2 by lia. done.
      * rewrite Eo2 by lia. apply HR. lia.
  - exists s. split_and!; try done; try congruence. intros r Hlt. apply HR. lia.
Qed.

(** The kernel of [[m | I]] is the graph of [m]. *)
Lemma augmented_ker m w x y : mwf m -> m_rows m = m_cols m -> m_rows w = m_rows m ->
  (forall r, (r < m_rows m)%nat -> mrow w r = mrow m r ++ unit_row (m_rows m) r) ->
  bytes x -> bytes y -> length x = m_rows m -> length y = m_rows m ->
  ker w (x ++ y) <-> y = mvec m x.
Proof.
  intros Hm Hs Er HR Hx Hy Hlx Hly. unfold ker. rewrite Er.
  assert (forall r v, (r < m_rows m)%nat -> y !! r = Some v ->
    dot (mrow w r) (x ++ y) = Z.lxor (dot (mrow m r) x) v) as Hd.
  { intros r v Hr Hv. rewrite HR by done. rewrite dot_app by (rewrite length_mrow; (done || lia)).
    f_equal. by apply dot_unit. }
  split.
  - intros Hk. apply list_eq. intros r. destruct (decide (r < m_rows m)%nat) as [Hr|Hr].
    + rewrite mvec_lookup by done. destruct (lookup_lt_is_Some_2 y r) as [v Hv]; [lia|].
      specialize (Hk r Hr). rewrite (Hd r v Hr Hv) in Hk. apply Z.lxor_eq in Hk. by rewrite Hk.
    + rewrite !lookup_ge_None_2; [done|rewrite length_mvec; lia|lia].
  - intros -> r Hr. rewrite (Hd r (dot (mrow m r) x) Hr) by by apply mvec_lookup. apply Z.lxor_nilpotent.
Qed.

(** The rows of a reduced augmented matrix. *)
Lemma reduced_rows m n r : mwf m -> m_rows m = n -> m_cols m = (n * 2)%nat -> reduced n m -> (r < n)%nat ->
  mrow m r = unit_row n r ++ drop n (mrow m r).
Proof.
  intros Hm Er Ec [_ Hr] Hlt. rewrite <- (take_drop n (mrow m r)) at 1. f_equal.
  apply list_eq. intros c. destruct (decide (c < n)%nat).
  - rewrite lookup_take_lt by done. rewrite entry_lookup by (done || lia).
    rewrite unit_row_lookup by done. f_equal. rewrite Hr by lia.
    destruct (decide (r = c)), (decide (c = r)); congruence.
  - rewrite !lookup_ge_None_2; [done|rewrite length_unit_row; lia|rewrite length_take; lia].
Qed.

(** [m] has an inverse exactly when it is one-to-one, and [invert] finds it. *)
Lemma invert_spec m : mwf m -> m_rows m = m_cols m ->
  match invert m with
  | Ok b =>
      mwf b /\ m_rows b = m_rows m /\ m_cols b = m_rows m /\
      forall x y, bytes x -> bytes y -> length x = m_rows m -> length y = m_rows m ->
        y = mvec m x <-> x = mvec b y
  | Err e =>
      e = Singular /\ exists x, bytes x /\ length x = m_rows m /\ ~ all_zero x /\
        mvec m x = replicate (m_rows m) 0%Z
  | Panic => False
  end.
Proof.
  intros Hm Hs. unfold invert, is_square. rewrite (proj2 (Nat.eqb_eq _ _) Hs). cbn [negb].
  destruct (identity_ok (m_rows m) (mwf_rows _ Hm)) as (id & -> & Hid & Eri & Eci & HRi). cbn.
  destruct (augment_ok m id Hm Hid) as (w & -> & Hw & Erw & Ecw & HRw); [congruence|]. cbn.
  assert (forall r, (r < m_rows m)%nat -> mrow w r = mrow m r ++ unit_row (m_rows m) r) as HR.
  { intros r Hr. rewrite HRw, HRi by done. done. }
  pose proof (gaussian_elimination_ok w Hw ltac:(lia)) as Hg.
  destruct (gaussian_elimination w) as [g|e|]; cbn; [| |done].
  - destruct Hg as [Hk Hred]. destruct (same_ker_shape _ _ Hk) as (Hg & Erg & Ecg).
    destruct (sub_matrix_ok g 0 (m_rows m) (m_rows m) (m_rows m * 2) Hg) as (b & -> & Hb & Erb & Ecb & HRb).
    { destruct Hm. lia. } { destruct Hm. lia. }
    split; [done|]. split; [lia|]. split; [lia|].
    intros x y Hx Hy Hlx Hly.
    rewrite <- (augmented_ker m w x y) by done. destruct Hk as [_ Hk].
    assert (bytes (x ++ y)) by by apply Forall_app.
    rewrite Hk by (try done; rewrite length_app; lia). unfold ker. rewrite Erg, Erw.
    assert (forall r v, (r < m_rows m)%nat -> x !! r = Some v ->
      dot (mrow g r) (x ++ y) = Z.lxor v (dot (mrow b r) y)) as Hd.
    { intros r v Hr Hv. rewrite (reduced_rows g (m_rows m) r) by (try done; lia || congruence).
      rewrite dot_app by (by rewrite length_unit_row). f_equal; [by apply dot_unit|].
      f_equal. rewrite HRb by lia. rewrite Nat.add_0_l. rewrite take_ge; [done|].
      rewrite length_drop, length_mrow by (done || lia). lia. }
    split.
    + intros Hkr. apply list_eq. intros r. destruct (decide (r < m_rows m)%nat) as [Hr|Hr].
      * rewrite mvec_lookup by lia. destruct (lookup_lt_is_Some_2 x r) as [v Hv]; [lia|].
        specialize (Hkr r Hr). rewrite (Hd r v Hr Hv) in Hkr. apply Z.lxor_eq in Hkr. by rewrite Hv, Hkr.
      * rewrite !lookup_ge_None_2; [done|rewrite length_mvec; lia|lia].
    + intros -> r Hr. rewrite (Hd r (dot (mrow b r) y) Hr) by (apply mvec_lookup; lia). apply Z.lxor_nilpotent.
  - destruct Hg as (-> & r & g & Hr & Hk & Hst). split; [done|].
    destruct (same_ker_shape _ _ Hk) as (Hg & Erg & Ecg).
    destruct (back_substitution r g (m_rows m) Hg ltac:(lia) ltac:(lia) ltac:(lia) Hst r ltac:(lia))
      as (z & Hz & Hlz & H1 & H0 & Hd).
    set (n := m_rows m) in *.
    assert (z = take n z ++ replicate n 0%Z) as Ez.
    { rewrite <- (take_drop n z) at 1. f_equal. apply list_eq. intros c. rewrite lookup_drop.
      destruct (decide (c < n)%nat).
      - rewrite H0 by lia. by rewrite lookup_replicate_2.
      - rewrite !lookup_ge_None_2; [done|rewrite length_replicate; lia|lia]. }
    assert (bytes (take n z)) as Hbx by by apply Forall_take.
    assert (length (take n z) = n) as Hlx by (rewrite length_take; lia).
    exists (take n z). split_and!; try done.
    + intros Hall. unfold all_zero in Hall. rewrite Forall_lookup in Hall.
      specialize (Hall r 1%Z). rewrite lookup_take_lt in Hall by lia. by specialize (Hall H1).
    + symmetry. apply (augmented_ker m w (take n z) (replicate n 0%Z)); try done.
      { apply zeros_bytes. } { apply length_replicate. }
      rewrite <- Ez. apply Hk; [done|lia|]. intros i Hi. apply Hd. lia.
Qed.
