(* ===== verification/Codec.v ===== *)
(** The Reed-Solomon codec: [rs/codec.rs], with the scalar coding loop of
    [rs/simd/mod.rs].

    A shard is its bytes, the empty list when it is missing.  [Codec] is the
    struct of the source less [kernel]: every kernel computes the bytes of the
    scalar one, which is the one modelled ([code_block_scalar]); the split-nibble
    identity the vector kernels rest on is in [CodecSpec]. *)
From stdpp Require Import base list gmap.
From Stdlib Require Import ZArith Lia.
From S2P Require Import Prelude Word Galois GfVector Matrix.

Definition MAX_TOTAL_SHARDS : nat := 256%nat.
Definition INVERSION_CACHE_MAX : nat := 256%nat.
Definition PER_ROUND : nat := (32 * 1024)%nat.

(** [ShardMask]: four 64-bit words. *)
Abbreviation ShardMask := (list Z).
Definition mask_empty : ShardMask := replicate (MAX_TOTAL_SHARDS / 64) 0%Z.
(** [mask[i / 64] |= 1 << (i % 64)]. *)
Definition mask_set (i : nat) (mask : ShardMask) : ShardMask :=
  alter (fun w => Z.lor w (Z.shiftl 1 (Z.of_nat (i mod 64)))) (i / 64)%nat mask.

Record Codec := mkCodec {
  data_shards : nat;
  parity_shards : nat;
  total_shards : nat;
  enc_matrix : option Matrix;
  tree : gmap ShardMask Matrix;
}.

#[export] Instance eta_codec : EtaRecord Codec := fun c =>
  mkCodec (data_shards c) (parity_shards c) (total_shards c) (enc_matrix c) (tree c).

(** [build_matrix]: Vandermonde times the inverse of its top square. *)
Definition build_matrix (data_shards total_shards : nat) : rs Matrix :=
  vm ← vandermonde total_shards data_shards;
  top ← sub_matrix vm 0 0 data_shards data_shards;
  top_inv ← invert top;
  multiply vm top_inv.

(** [Codec::new]; the sum of two [usize] that overflows exceeds 256 too. *)
Definition codec_new (data_shards parity_shards : nat) : rs Codec :=
  let tot_shards := (data_shards + parity_shards)%nat in
  if (MAX_TOTAL_SHARDS <? tot_shards)%nat then Err MaxShardNum
  else if (data_shards =? 0)%nat then Err InvShardNum
  else
    m ← (if (parity_shards =? 0)%nat then Ok None
         else m ← build_matrix data_shards tot_shards; Ok (Some m));
    Ok (mkCodec data_shards parity_shards tot_shards m ∅).

(** [check_shards]: the first non-zero length, if the others agree. *)
Definition check_shards (lens : list nat) (nilok : bool) : rs nat :=
  let size := default 0%nat (snd <$> list_find (fun n => n <> 0%nat) lens) in
  if (size =? 0)%nat then Err ShardNoData
  else if forallb (fun n => negb (negb (n =? size)%nat && (negb (n =? 0)%nat || negb nilok))) lens
  then Ok size else Err ShardSize.

(** [&s[start..end]]. *)
Definition slice (start end_ : nat) (s : list Z) : rs (list Z) :=
  if ((start <=? end_) && (end_ <=? length s))%nat then Ok (take (end_ - start) (drop start s)) else Panic.

(** [code_block_scalar]: the round of one input and one output. *)
Definition code_one (matrix_rows : list (list Z)) (c : nat) (input : list Z) (start end_ : nat)
    (i_row : nat) (outputs : list (list Z)) : rs (list (list Z)) :=
  coef ← unwrap (matrix_rows !! i_row ≫= fun r => r !! c);
  output ← unwrap (outputs !! i_row);
  out ← slice start end_ output;
  out ← unwrap (if (c =? 0)%nat then gal_mul_slice coef input out else gal_mul_slice_xor coef input out);
  Ok (<[i_row := take start output ++ out ++ drop end_ output]> outputs).

Definition code_block_scalar (matrix_rows inputs outputs : list (list Z)) (start end_ : nat)
    : rs (list (list Z)) :=
  for_range 0 (length inputs) (fun c outputs =>
    input ← unwrap (inputs !! c);
    input ← slice start end_ input;
    for_range 0 (length outputs) (code_one matrix_rows c input start end_) outputs) outputs.

(** [code_block] with the scalar kernel; [Panic] is its [assert]. *)
Definition code_block (matrix_rows inputs outputs : list (list Z)) (start end_ : nat)
    : rs (list (list Z)) :=
  if bool_decide (inputs = []) || bool_decide (outputs = []) then Ok outputs
  else if (start <=? end_)%nat && (length matrix_rows =? length outputs)%nat
       && forallb (fun r => (length inputs <=? length r)%nat) matrix_rows
       && forallb (fun s => (end_ <=? length s)%nat) inputs
       && forallb (fun s => (end_ <=? length s)%nat) outputs
  then code_block_scalar matrix_rows inputs outputs start end_
  else Panic.

(** The loop of [code_some_shards]; a round advances by one byte at least. *)
Fixpoint code_rounds (fuel : nat) (matrix_rows inputs outputs : list (list Z)) (len start end_ : nat)
    : rs (list (list Z)) :=
  match fuel with
  | 0%nat => Panic
  | S fuel =>
      if (start <? len)%nat then
        outputs ← code_block matrix_rows inputs outputs start end_;
        code_rounds fuel matrix_rows inputs outputs len end_ (Nat.min (end_ + PER_ROUND) len)
      else Ok outputs
  end.

(** [code_some_shards]. *)
Definition code_some_shards (matrix_rows inputs outputs : list (list Z)) : rs (list (list Z)) :=
  match inputs with
  | [] => Ok outputs
  | first :: _ =>
      if bool_decide (outputs = []) then Ok outputs
      else
        let len := length first in
        code_rounds (S len) matrix_rows inputs outputs len 0 (Nat.min PER_ROUND len)
  end.

(** The rows [lo..hi] of a matrix. *)
Definition matrix_rows_of (m : Matrix) (rows : list nat) : rs (list (list Z)) :=
  foldr (fun r acc => l ← row m r; ls ← acc; Ok (l :: ls)) (Ok []) rows.

(** [Codec::encode]: the shards with the parity shards computed. *)
Definition encode (c : Codec) (shards : list (list Z)) : rs (list (list Z)) :=
  if negb (length shards =? total_shards c)%nat then Err TooFewShards
  else
    _ ← check_shards (length <$> shards) false;
    match enc_matrix c with
    | None => Ok shards
    | Some m =>
        let data := take (data_shards c) shards in
        let parity := drop (data_shards c) shards in
        rows ← matrix_rows_of m (seq (data_shards c) (total_shards c - data_shards c));
        outputs ← code_some_shards rows data parity;
        Ok (data ++ outputs)
    end.

(** The valid rows and the mask of the missing ones before the last of them:
    the loop over [shards] from index [matrix_row]. *)
Fixpoint valid_loop (data_shards matrix_row : nat) (shards : list (list Z))
    (valid_indices : list nat) (invalid : ShardMask) : list nat * ShardMask :=
  match shards with
  | [] => (valid_indices, invalid)
  | s :: shards =>
      if (data_shards <=? length valid_indices)%nat then (valid_indices, invalid)
      else if negb (length s =? 0)%nat then
        valid_loop data_shards (S matrix_row) shards (valid_indices ++ [matrix_row]) invalid
      else valid_loop data_shards (S matrix_row) shards valid_indices (mask_set matrix_row invalid)
  end.

(** The square matrix of the valid rows. *)
Definition decode_sub_matrix (c : Codec) (m : Matrix) (valid_indices : list nat) : rs Matrix :=
  sub ← matrix_new (data_shards c) (data_shards c);
  let valid := take (data_shards c) valid_indices in
  for_range 0 (length valid) (fun sub_matrix_row sub =>
    valid_index ← unwrap (valid !! sub_matrix_row);
    line ← row m valid_index;
    put_row sub sub_matrix_row line) sub.

(** [get_decode_matrix]: the matrix, and the codec with its cache updated. *)
Definition get_decode_matrix (c : Codec) (valid_indices : list nat) (invalid : ShardMask)
    : rs Matrix * Codec :=
  match enc_matrix c with
  | None => (Err TooFewShards, c)
  | Some m =>
      let c :=
        if ((INVERSION_CACHE_MAX <=? size (tree c))%nat && bool_decide (tree c !! invalid = None))
        then c <| tree := ∅ |> else c in
      match tree c !! invalid with
      | Some inv => (Ok inv, c)
      | None =>
          match (sub ← decode_sub_matrix c m valid_indices; invert sub) with
          | Ok inv => (Ok inv, c <| tree := <[invalid := inv]> (tree c) |>)
          | Err e => (Err e, c)
          | Panic => (Panic, c)
          end
      end
  end.

(** "Prepare the missing data shards": each is made [shard_size] bytes long. *)
Definition prepare_outputs (data_shards shard_size : nat) (shards : list (list Z)) : list (list Z) * list bool :=
  let missing := (fun s => (length s =? 0)%nat) <$> take data_shards shards in
  (((fun s => if (length s =? 0)%nat then replicate shard_size 0%Z else s) <$> take data_shards shards)
     ++ drop data_shards shards, missing).

(** "Pull out the shards": the inputs in valid-row order, and the indices of
    the outputs. *)
Fixpoint pull_shards (i : nat) (shards : list (list Z)) (next_valid : list nat) (is_output : list bool)
    : list (list Z) * list nat :=
  match shards with
  | [] => ([], [])
  | s :: shards =>
      match next_valid with
      | v :: next_valid' =>
          if (v =? i)%nat then
            let '(inputs, outputs) := pull_shards (S i) shards next_valid' is_output in
            (s :: inputs, outputs)
          else
            let '(inputs, outputs) := pull_shards (S i) shards next_valid is_output in
            (inputs, if nth i is_output false then i :: outputs else outputs)
      | [] =>
          let '(inputs, outputs) := pull_shards (S i) shards [] is_output in
          (inputs, if nth i is_output false then i :: outputs else outputs)
      end
  end.

(** [shards[idx[k]] = outs[k]]. *)
Fixpoint write_back (idx : list nat) (outs shards : list (list Z)) : list (list Z) :=
  match idx, outs with
  | i :: idx, o :: outs => write_back idx outs (<[i := o]> shards)
  | _, _ => shards
  end.

(** [Codec::reconstruct_data]. *)
Definition reconstruct_data (shards : list (list Z)) (c : Codec) : rs () * list (list Z) * Codec :=
  if negb (length shards =? total_shards c)%nat then (Err TooFewShards, shards, c)
  else
    match check_shards (length <$> shards) true with
    | Err e => (Err e, shards, c)
    | Panic => (Panic, shards, c)
    | Ok shard_size =>
        let present := fun s : list Z => negb (length s =? 0)%nat in
        let number_present := length (filter (fun s => present s) shards) in
        let data_present := length (filter (fun s => present s) (take (data_shards c) shards)) in
        if (number_present =? total_shards c)%nat || (data_present =? data_shards c)%nat
        then (Ok (), shards, c)
        else if (number_present <? data_shards c)%nat then (Err TooFewShards, shards, c)
        else
          let '(valid_indices, invalid) := valid_loop (data_shards c) 0 shards [] mask_empty in
          let '(decode, c) := get_decode_matrix c valid_indices invalid in
          match decode with
          | Err e => (Err e, shards, c)
          | Panic => (Panic, shards, c)
          | Ok data_decode_matrix =>
              let '(shards, is_output) := prepare_outputs (data_shards c) shard_size shards in
              let '(inputs, outputs) := pull_shards 0 shards valid_indices is_output in
              match
                (matrix_rows ← matrix_rows_of data_decode_matrix outputs;
                 code_some_shards matrix_rows inputs ((fun i => nth i shards []) <$> outputs))
              with
              | Ok outs => (Ok (), write_back outputs outs shards, c)
              | Err e => (Err e, shards, c)
              | Panic => (Panic, shards, c)
              end
          end
    end.
