(* ===== verification/RsDecode.v ===== *)
(** Decoding: [Codec::reconstruct_data] restores every erasure the code can.

    The first [data_shards] present shards are the decoder's input.  The mask of
    the shards missing before them determines which they are
    ([valid_loop_spec]), so a decode matrix cached under that mask is the right
    one ([codec_ok]).  [reconstruct_spec] is the decoding theorem. *)
From stdpp Require Import base list gmap sorting.
From Stdlib Require Import ZArith Lia.
From S2P Require Import Prelude Word Galois GfVector Matrix Gauss Codec CodecSpec.

(** ** The mask of missing shards *)

Definition mask_bit (mask : ShardMask) (i : nat) : bool :=
  Z.testbit (nth (i / 64) mask 0%Z) (Z.of_nat (i mod 64)).

Lemma mask_set_length i mask : length (mask_set i mask) = length mask.
Proof. apply length_alter. Qed.

Lemma mask_set_bit i j mask : length mask = 4%nat -> (i < 256)%nat ->
  mask_bit (mask_set i mask) j = (i =? j)%nat || mask_bit mask j.
Proof.
  intros Hl Hi. unfold mask_bit, mask_set.
  assert (i / 64 < 4)%nat as Hq by (apply Nat.Div0.div_lt_upper_bound; lia).
  destruct (lookup_lt_is_Some_2 mask (i / 64)) as [w Hw]; [lia|].
  pose proof (Nat.div_mod_eq i 64) as Ei. pose proof (Nat.div_mod_eq j 64) as Ej.
  destruct (decide (i / 64 = j / 64)%nat) as [E|E].
  - rewrite <- E. rewrite (nth_lookup_Some _ _ _ _ Hw).
    rewrite (nth_lookup_Some _ _ _ (Z.lor w (Z.shiftl 1 (Z.of_nat (i mod 64))))) by
      (rewrite list_lookup_alter_eq, Hw; done).
    rewrite Z.lor_spec, Z.shiftl_1_l, Z.pow2_bits_eqb, orb_comm by lia. f_equal.
    apply eq_bool_prop_intro. rewrite !Is_true_true, Z.eqb_eq, Nat.eqb_eq. lia.
  - assert ((i =? j)%nat = false) as -> by (apply Nat.eqb_neq; congruence). cbn [orb].
    f_equal. rewrite !nth_lookup. by rewrite list_lookup_alter_ne.
Qed.

Lemma mask_empty_bit i : mask_bit mask_empty i = false.
Proof.
  unfold mask_bit, mask_empty. rewrite nth_lookup.
  destruct (replicate (MAX_TOTAL_SHARDS / 64) 0%Z !! (i / 64)%nat) as [w|] eqn:E.
  - apply lookup_replicate_1 in E as [-> _]. cbn. apply Z.bits_0.
  - apply Z.bits_0.
Qed.

Definition nonmissing (s : list Z) : bool := negb (length s =? 0)%nat.

(** What the loop over the shards from index [i] finds. *)
Lemma valid_loop_spec ds : forall shards i acc inv,
  length inv = 4%nat -> (i + length shards <= 256)%nat -> (length acc <= ds)%nat ->
  (ds <= length acc + length (filter (fun s => nonmissing s) shards))%nat ->
  (forall j, (i <= j)%nat -> mask_bit inv j = false) ->
  let '(v, mask) := valid_loop ds i shards acc inv in
  (forall j, (j < i)%nat -> mask_bit mask j = mask_bit inv j) /\
  exists w, v = acc ++ w /\ length v = ds /\ sublist w (seq i (length shards)) /\
    (forall j, j ∈ w -> nonmissing (nth (j - i) shards [])) /\
    w = take (ds - length acc) (filter (fun j => negb (mask_bit mask j)) (seq i (length shards))).
Proof.
  induction shards as [|s shards IH]; intros i acc inv Hinv Hi Hacc Hen Hclear; cbn [valid_loop].
  { cbn in Hen. split; [done|]. exists []. rewrite app_nil_r. split_and!; try done; try lia; try apply sublist_nil_l.
    - intros j Hj. by apply elem_of_nil in Hj.
    - cbn [length seq filter]. symmetry. apply take_nil. }
  destruct (Nat.leb_spec ds (length acc)) as [Hge|Hlt].
  { split; [done|]. exists []. rewrite app_nil_r. split_and!; try done; try lia; try apply sublist_nil_l.
    - intros j Hj. by apply elem_of_nil in Hj.
    - by replace (ds - length acc)%nat with 0%nat by lia. }
  fold (nonmissing s). cbn [length] in Hi. rewrite filter_cons in Hen.
  destruct (nonmissing s) eqn:Es;
    [rewrite decide_True in Hen by done; cbn [length] in Hen
    |rewrite decide_False in Hen by (by intros [])].
  - specialize (IH (S i) (acc ++ [i]) inv Hinv ltac:(lia)). rewrite length_app in IH. cbn [length] in IH.
    specialize (IH ltac:(lia) ltac:(lia) ltac:(intros; apply Hclear; lia)).
    destruct (valid_loop ds (S i) shards (acc ++ [i]) inv) as [v mask].
    destruct IH as (Hb & w & -> & Hl & Hs & Hp & Hw).
    split; [intros j Hj; apply Hb; lia|]. exists (i :: w). rewrite <- app_assoc.
    cbn [length seq]. split_and!; try done.
    + rewrite <- app_assoc in Hl. done.
    + by apply sublist_skip.
    + intros j Hj. apply elem_of_cons in Hj as [->|Hj]; [rewrite Nat.sub_diag; cbn [nth]; by rewrite Es|].
      assert (S i <= j)%nat as Hij.
      { eapply sublist_submseteq, elem_of_submseteq in Hs; [|exact Hj]. apply elem_of_seq in Hs. lia. }
      replace (j - i)%nat with (S (j - S i)) by lia. by apply Hp.
    + rewrite filter_cons. rewrite Hb by lia. rewrite Hclear by lia. cbn [negb].
      rewrite decide_True by done. replace (ds - length acc)%nat with (S (ds - (length acc + 1))) by lia.
      cbn [take]. by rewrite <- Hw.
  - specialize (IH (S i) acc (mask_set i inv) ltac:(by rewrite mask_set_length) ltac:(lia) Hacc ltac:(lia)).
    ospecialize (IH _).
    { intros j Hj. rewrite mask_set_bit by (done || lia). rewrite Hclear by lia.
      rewrite (proj2 (Nat.eqb_neq _ _)) by lia. done. }
    destruct (valid_loop ds (S i) shards acc (mask_set i inv)) as [v mask].
    destruct IH as (Hb & w & -> & Hl & Hs & Hp & Hw).
    split.
    { intros j Hj. rewrite Hb, mask_set_bit by (done || lia). rewrite (proj2 (Nat.eqb_neq _ _)) by lia. done. }
    exists w. cbn [length seq]. split_and!; try done.
    + by apply sublist_cons.
    + intros j Hj.
      assert (S i <= j)%nat as Hij.
      { eapply sublist_submseteq, elem_of_submseteq in Hs; [|exact Hj]. apply elem_of_seq in Hs. lia. }
      replace (j - i)%nat with (S (j - S i)) by lia. by apply Hp.
    + rewrite filter_cons, Hb, mask_set_bit, Nat.eqb_refl by (done || lia). done.
Qed.

(** The rows a mask stands for. *)
Definition valid_of (ds tot : nat) (mask : ShardMask) : list nat :=
  take ds (filter (fun j => negb (mask_bit mask j)) (seq 0 tot)).

Lemma valid_loop_ok ds shards : (length shards <= 256)%nat ->
  (ds <= length (filter (fun s => nonmissing s) shards))%nat ->
  let '(v, mask) := valid_loop ds 0 shards [] mask_empty in
  v = valid_of ds (length shards) mask /\ length v = ds /\ sublist v (seq 0 (length shards)) /\
  forall j, j ∈ v -> nonmissing (nth j shards []).
Proof.
  intros Hl Hp.
  pose proof (valid_loop_spec ds shards 0 [] mask_empty eq_refl Hl ltac:(cbn; lia) Hp
    ltac:(intros; apply mask_empty_bit)) as Hv.
  destruct (valid_loop ds 0 shards [] mask_empty) as [v mask].
  destruct Hv as (_ & w & -> & Hlv & Hs & Hj & Hw). cbn [app] in *. split_and!; try done.
  - rewrite Hw at 1. cbn [length]. by rewrite Nat.sub_0_r.
  - intros j Hin. specialize (Hj j Hin). by rewrite Nat.sub_0_r in Hj.
Qed.

(** ** The decode matrix *)

Lemma decode_sub_matrix_ok c m v : mwf m -> m_cols m = data_shards c -> (0 < data_shards c)%nat ->
  length v = data_shards c -> Forall (fun i => (i < m_rows m)%nat) v ->
  exists sub, decode_sub_matrix c m v = Ok sub /\ mwf sub /\ m_rows sub = data_shards c /\ m_cols sub = data_shards c /\
    forall k i, v !! k = Some i -> mrow sub k = mrow m i.
Proof.
  intros Hm Ec Hds Hl Hv. unfold decode_sub_matrix.
  destruct (matrix_new_ok _ _ Hds Hds) as (z & -> & Hz & Erz & Ecz & _). cbn.
  rewrite take_ge by lia. rewrite Hl, <- Erz.
  destruct (fill_rows (fun r => mrow m (nth r v 0%nat)) z (fun sub_matrix_row sub =>
    valid_index ← unwrap (v !! sub_matrix_row); line ← row m valid_index; put_row sub sub_matrix_row line) Hz)
    as (sub & E & (Hw & Er & Ecs) & HR).
  - intros r m1 Hr (Hw1 & Er1 & Ec1) _.
    destruct (lookup_lt_is_Some_2 v r) as [i Hi]; [lia|]. rewrite Hi. cbn.
    rewrite (nth_lookup_Some _ _ _ _ Hi). pose proof (Forall_lookup_1 _ _ _ _ Hv Hi) as Hir. cbv beta in Hir.
    rewrite row_ok by done. cbn. apply put_row_ok; [done|lia|by apply mrow_bytes|].
    rewrite length_mrow by done. lia.
  - exists sub. split_and!; try done; try congruence. intros k i Hi. rewrite HR.
    + by rewrite (nth_lookup_Some _ _ _ _ Hi).
    + apply lookup_lt_Some in Hi. lia.
Qed.

(** The symbols at the valid positions of a codeword column [x]. *)
Definition symbols (m : Matrix) (v : list nat) (x : list Z) : list Z := (fun i => dot (mrow m i) x) <$> v.

(** [inv] recovers a column from its symbols at [v]. *)
Definition decodes (ds : nat) (m : Matrix) (v : list nat) (inv : Matrix) : Prop :=
  mwf inv /\ m_rows inv = ds /\ m_cols inv = ds /\
  forall x, bytes x -> length x = ds -> mvec inv (symbols m v x) = x.

Lemma symbols_bytes m v x : mwf m -> bytes x -> bytes (symbols m v x).
Proof. intros Hm Hx. apply Forall_fmap, Forall_forall. intros i _. apply dot_byte; [by apply mrow_bytes|done]. Qed.

Lemma decode_matrix_exists c m v : codec_shape c -> enc_matrix c = Some m ->
  length v = data_shards c -> NoDup v -> Forall (fun i => (i < total_shards c)%nat) v ->
  exists inv, (sub ← decode_sub_matrix c m v; invert sub) = Ok inv /\ decodes (data_shards c) m v inv.
Proof.
  intros [_ [Hds _] Hm] Em Hl Hnd Hv. rewrite Em in Hm. destruct Hm as (Hw & Er & Ec & _ & Hdet).
  assert (Forall (fun i => (i < m_rows m)%nat) v) as Hv' by by rewrite Er.
  destruct (decode_sub_matrix_ok c m v Hw Ec Hds Hl Hv') as (sub & -> & Hsub & Ers & Ecs & HR). cbn.
  assert (forall x, mvec sub x = symbols m v x) as Hsym.
  { intros x. unfold mvec, symbols. rewrite Ers, <- Hl. apply list_eq. intros k. rewrite !list_lookup_fmap.
    destruct (v !! k) as [i|] eqn:Ek.
    - rewrite lookup_seq_lt by by eapply lookup_lt_Some. cbn. by rewrite (HR k i Ek).
    - rewrite lookup_ge_None_2; [done|]. rewrite length_seq. by apply lookup_ge_None. }
  pose proof (invert_spec sub Hsub ltac:(lia)) as Hi. destruct (invert sub) as [inv|e|]; [| |done].
  - destruct Hi as (Hinv & Eri & Eci & Hiff). exists inv. split; [done|]. split; [done|]. split; [lia|]. split; [lia|].
    intros x Hx Hlx. symmetry. rewrite Ers in Hiff. apply (Hiff x); [done|by apply symbols_bytes|lia| |by rewrite Hsym].
    unfold symbols. by rewrite length_fmap.
  - exfalso. destruct Hi as (_ & x & Hx & Hlx & Hnz & Hz). apply Hnz. rewrite Hsym, Ers in Hz.
    apply (Hdet v); try done; try lia. intros i Hin. apply list_elem_of_lookup in Hin as [k Hk].
    apply (f_equal (lookup k)) in Hz. unfold symbols in Hz. rewrite list_lookup_fmap, Hk in Hz. cbn in Hz.
    rewrite lookup_replicate_2 in Hz by (apply lookup_lt_Some in Hk; lia). congruence.
Qed.

(** The invariant of the inversion cache. *)
Definition cache_ok (c : Codec) : Prop :=
  forall m mask inv, enc_matrix c = Some m -> tree c !! mask = Some inv ->
    length (valid_of (data_shards c) (total_shards c) mask) = data_shards c ->
    (sub ← decode_sub_matrix c m (valid_of (data_shards c) (total_shards c) mask); invert sub) = Ok inv.

Definition codec_ok (c : Codec) : Prop := codec_shape c /\ cache_ok c.

Lemma codec_new_ok ds ps c : codec_new ds ps = Ok c -> codec_ok c.
Proof.
  intros E. destruct (codec_new_shape _ _ _ E) as (Hs & _ & _ & Et). split; [done|].
  intros m mask inv _ Hm. by rewrite Et, lookup_empty in Hm.
Qed.

(** The parts of the codec decoding never changes. *)
Definition same_code (c c' : Codec) : Prop :=
  data_shards c' = data_shards c /\ parity_shards c' = parity_shards c /\
  total_shards c' = total_shards c /\ enc_matrix c' = enc_matrix c.

Lemma same_code_shape c c' : same_code c c' -> codec_shape c -> codec_shape c'.
Proof. intros (E1 & E2 & E3 & E4) [H1 H2 H3]. constructor; rewrite ?E1, ?E2, ?E3, ?E4; done. Qed.

Lemma decode_sub_same c c' m v : data_shards c' = data_shards c -> decode_sub_matrix c' m v = decode_sub_matrix c m v.
Proof. intros E. unfold decode_sub_matrix. by rewrite E. Qed.

Lemma get_decode_matrix_ok c m mask : codec_ok c -> enc_matrix c = Some m ->
  let v := valid_of (data_shards c) (total_shards c) mask in
  length v = data_shards c -> NoDup v -> Forall (fun i => (i < total_shards c)%nat) v ->
  exists inv c', get_decode_matrix c v mask = (Ok inv, c') /\ codec_ok c' /\ same_code c c' /\
    decodes (data_shards c) m v inv.
Proof.
  intros [Hsh Hcache] Em v Hl Hnd Hv. unfold get_decode_matrix. rewrite Em.
  set (c1 := if _ && _ then _ else c).
  assert (same_code c c1 /\ cache_ok c1 /\ tree c1 !! mask = tree c !! mask) as (Hsame & Hc1 & Et).
  { subst c1. destruct (_ <=? _)%nat; cbn [andb]; [|done].
    case_bool_decide as Hn; [|done]. split; [done|]. cbn. split; [|by rewrite Hn].
    intros m' mask' inv _ Hm. cbn in Hm. by rewrite lookup_empty in Hm. }
  destruct (decode_matrix_exists c m v Hsh Em Hl Hnd Hv) as (inv & Einv & Hdec).
  pose proof Hsame as (E1 & E2 & E3 & E4). pose proof (same_code_shape _ _ Hsame Hsh) as Hsh1.
  destruct (tree c1 !! mask) as [inv'|] eqn:Emask.
  - pose proof (Hcache m mask inv' Em ltac:(congruence) Hl) as E. fold v in E.
    assert (inv' = inv) as -> by congruence. by exists inv, c1.
  - rewrite (decode_sub_same c c1) by done. rewrite Einv. exists inv, (c1 <| tree := <[mask := inv]> (tree c1) |>).
    split; [done|]. split; [split|by split].
    + by apply (same_code_shape c1).
    + intros m' mask' inv' Em' Hm'. cbn in *. rewrite (decode_sub_same c1) by done.
      rewrite lookup_insert in Hm'. case_decide as Hd; [|by apply Hc1].
      subst mask'. injection Hm' as <-. intros _. rewrite E1, E3. fold v.
      rewrite (decode_sub_same c c1) by done. assert (m' = m) as -> by congruence. exact Einv.
Qed.

(** ** Pulling the shards out and writing the outputs back *)

Lemma pull_shards_spec : forall shards i v io,
  sublist v (seq i (length shards)) -> (forall j, j ∈ v -> nth j io false = false) ->
  pull_shards i shards v io =
    ((fun j => nth (j - i) shards []) <$> v, filter (fun j => nth j io false) (seq i (length shards))).
Proof.
  induction shards as [|s shards IH]; intros i v io Hs Hio; cbn [pull_shards length seq].
  { apply sublist_nil_r in Hs as ->. done. }
  assert (forall v, sublist v (seq (S i) (length shards)) ->
    (fun j => nth (j - i) (s :: shards) []) <$> v = (fun j => nth (j - S i) shards []) <$> v) as Hsh.
  { intros v' Hv'. apply list_fmap_ext. intros k j Hj.
    apply list_elem_of_lookup_2 in Hj. eapply sublist_submseteq, elem_of_submseteq in Hv'; [|exact Hj].
    apply elem_of_seq in Hv'. by replace (j - i)%nat with (S (j - S i)) by lia. }
  rewrite filter_cons. destruct v as [|w v'].
  - rewrite IH; [|apply sublist_nil_l|done]. cbn [fmap list_fmap]. f_equal.
    destruct (nth i io false); [by rewrite decide_True|by rewrite decide_False by (by intros [])].
  - destruct (Nat.eqb_spec w i) as [->|Hne].
    + rewrite (Hio i) by by left. rewrite decide_False by (by intros []).
      assert (sublist v' (seq (S i) (length shards))) as Hs'.
      { cbn [length seq] in Hs. apply sublist_cons_l in Hs as (k1 & k2 & Ek & Hk).
        destruct k1 as [|x k1]; cbn in Ek; [by injection Ek as ->|]. exfalso. injection Ek as -> Ek.
        assert (x ∈ seq (S x) (length shards)) as Hin by (rewrite Ek; apply elem_of_app; right; left).
        apply elem_of_seq in Hin. lia. }
      rewrite IH; [|done|intros; apply Hio; by right]. cbn [fmap list_fmap]. rewrite Nat.sub_diag. cbn [nth].
      f_equal. f_equal. symmetry. by apply Hsh.
    + assert (sublist (w :: v') (seq (S i) (length shards))) as Hs'.
      { cbn [length seq] in Hs. inversion Hs; subst; [done|done]. }
      rewrite IH by done. rewrite (Hsh _ Hs'). f_equal.
      destruct (nth i io false); [by rewrite decide_True|by rewrite decide_False by (by intros [])].
Qed.

Lemma write_back_length idx outs shards : length (write_back idx outs shards) = length shards.
Proof.
  revert outs shards; induction idx as [|i idx IH]; intros [|o outs] shards; cbn; try done.
  by rewrite IH, length_insert.
Qed.

(** Outputs that are [g] of their index end up at their index. *)
Lemma write_back_lookup (g : nat -> list Z) idx shards j : NoDup idx -> (j < length shards)%nat ->
  write_back idx (g <$> idx) shards !! j = if decide (j ∈ idx) then Some (g j) else shards !! j.
Proof.
  revert shards; induction idx as [|i idx IH]; intros shards Hnd Hj; cbn [write_back fmap list_fmap].
  { by rewrite decide_False by (by intros ?%elem_of_nil). }
  apply NoDup_cons in Hnd as [Hi Hnd]. rewrite IH by (try done; by rewrite length_insert).
  destruct (decide (j ∈ idx)) as [Hin|Hin].
  - by rewrite decide_True by by right.
  - destruct (decide (j = i)) as [->|Hne].
    + rewrite decide_True by left. by apply list_lookup_insert_eq.
    + rewrite decide_False by (by intros [?|?]%elem_of_cons). by apply list_lookup_insert_ne.
Qed.

(** ** Decoding *)

Lemma column_bytes n p data : rows_ok n data -> bytes (column p data).
Proof.
  intros Hd. apply Forall_fmap. eapply Forall_impl; [exact Hd|]. cbn. intros r [Hr _].
  destruct (nth_in_or_default p r 0%Z) as [Hin| ->]; [|done].
  unfold bytes in Hr. rewrite Forall_forall in Hr. apply Hr. by apply list_elem_of_In.
Qed.

(** A row of the decode matrix combines the valid shards into a data shard. *)
Lemma decode_row n ds m v inv data i d : mwf m -> rows_ok n data -> length data = ds ->
  decodes ds m v inv -> data !! i = Some d ->
  combine_rows n (mrow inv i) ((fun j => combine_rows n (mrow m j) data) <$> v) = d.
Proof.
  intros Hm Hd Hl (Hinv & Er & Ec & Hdec) Hi. pose proof (lookup_lt_Some _ _ _ Hi) as Hlt.
  pose proof (Forall_lookup_1 _ _ _ _ Hd Hi) as [_ Hdl].
  assert (rows_ok n ((fun j => combine_rows n (mrow m j) data) <$> v)) as Hin.
  { apply Forall_fmap, Forall_forall. intros j _. apply combine_rows_ok; [by apply mrow_bytes|done]. }
  destruct (combine_rows_ok n (mrow inv i) _ (mrow_bytes inv i Hinv) Hin) as [_ Hcl].
  apply list_eq. intros p. destruct (decide (p < n)%nat) as [Hp|Hp].
  2: { rewrite !lookup_ge_None_2; [done|lia|lia]. }
  rewrite combine_rows_lookup by (done || by apply mrow_bytes).
  assert ((fun r => nth p r 0%Z) <$> ((fun j => combine_rows n (mrow m j) data) <$> v) = symbols m v (column p data)) as ->.
  { unfold symbols. rewrite <- list_fmap_compose. apply list_fmap_ext. intros k j _. cbn.
    apply nth_lookup_Some. apply combine_rows_lookup; [by apply mrow_bytes|done|done]. }
  pose proof (Hdec (column p data) (column_bytes n p data Hd) ltac:(unfold column; rewrite length_fmap; lia)) as E.
  apply (f_equal (lookup i)) in E. rewrite mvec_lookup in E by lia. rewrite E. unfold column.
  rewrite list_lookup_fmap, Hi. cbn. destruct (lookup_lt_is_Some_2 d p) as [w Hw]; [lia|].
  by rewrite (nth_lookup_Some _ _ _ _ Hw), Hw.
Qed.

Lemma filter_full {A} (P : A -> Prop) `{!forall x, Decision (P x)} l :
  length (filter P l) = length l -> Forall P l.
Proof.
  induction l as [|x l IH]; [constructor|]. rewrite filter_cons. pose proof (length_filter P l).
  case_decide; cbn [length]; intros E; [constructor; [done|apply IH; lia]|lia].
Qed.

(** ** Decoding any shards

    What [reconstruct_data] does with shards of one length, whatever their bytes:
    it succeeds, keeps every shard that is there and every parity shard, and
    computes each missing data shard from the valid ones. *)

(** A shard of [n] bytes, or a missing one. *)
Definition shard_shape (n : nat) (s : list Z) : Prop := s = [] \/ bytes s /\ length s = n.

(** The missing data shard [j] computed from the shards at [v]. *)
Definition rebuilt (n : nat) (c : Codec) (shards : list (list Z)) (j : nat) (d : list Z) : Prop :=
  exists m v inv, enc_matrix c = Some m /\ decodes (data_shards c) m v inv /\
    (forall i, i ∈ v -> exists s, shards !! i = Some s /\ nonmissing s) /\
    d = combine_rows n (mrow inv j) ((fun i => nth i shards []) <$> v).

(** The shards with room for the missing data shards, and which these are. *)
Definition prepared (n : nat) (c : Codec) (shards : list (list Z)) : list (list Z) :=
  fst (prepare_outputs (data_shards c) n shards).
Definition outputs_at (n : nat) (c : Codec) (shards : list (list Z)) : list bool :=
  snd (prepare_outputs (data_shards c) n shards).

Lemma length_prepared n c shards : length (prepared n c shards) = length shards.
Proof. unfold prepared, prepare_outputs. cbn [fst]. by rewrite length_app, length_fmap, <- length_app, take_drop. Qed.

Lemma outputs_at_spec n c shards j : nth j (outputs_at n c shards) false = true <->
  (j < data_shards c)%nat /\ shards !! j = Some [].
Proof.
  unfold outputs_at, prepare_outputs. cbn [snd]. rewrite nth_lookup, list_lookup_fmap.
  destruct (decide (j < data_shards c)%nat) as [Hj|Hj].
  - rewrite lookup_take_lt by done. destruct (shards !! j) as [s|] eqn:Es; cbn; [|naive_solver].
    rewrite Nat.eqb_eq. split; [by intros E%nil_length_inv; subst|]. by intros (_ & [= ->]).
  - rewrite lookup_ge_None_2 by (rewrite length_take; lia). cbn. naive_solver.
Qed.

Lemma prepared_lookup n c shards j s : shards !! j = Some s ->
  prepared n c shards !! j = Some (if nth j (outputs_at n c shards) false then replicate n 0%Z else s).
Proof.
  intros Hs. pose proof (lookup_lt_Some _ _ _ Hs) as Hjl.
  pose proof (outputs_at_spec n c shards j) as Ho. rewrite Hs in Ho.
  set (o := nth j _ false) in *. clearbody o. unfold prepared, prepare_outputs. cbn [fst].
  destruct (decide (j < data_shards c)%nat) as [Hj|Hj].
  - rewrite lookup_app_l by (rewrite length_fmap, length_take; lia).
    rewrite list_lookup_fmap, lookup_take_lt, Hs by done. cbn. apply (f_equal Some).
    destruct (Nat.eqb_spec (length s) 0) as [E|E].
    + apply nil_length_inv in E as ->. by rewrite (proj2 Ho).
    + destruct o; [|done]. by destruct (proj1 Ho eq_refl) as (_ & [= ->]).
  - destruct o; [by destruct (proj1 Ho eq_refl)|].
    rewrite lookup_app_r by (rewrite length_fmap, length_take; lia).
    rewrite length_fmap, length_take, lookup_drop.
    replace (data_shards c + (j - data_shards c `min` length shards))%nat with j by lia. done.
Qed.

(** The output indices, and what writing the outputs back leaves. *)
Definition output_indices (n : nat) (c : Codec) (shards : list (list Z)) : list nat :=
  filter (fun j => nth j (outputs_at n c shards) false) (seq 0 (length shards)).

Lemma elem_of_output_indices n c shards j :
  j ∈ output_indices n c shards <-> (j < data_shards c)%nat /\ shards !! j = Some [].
Proof.
  unfold output_indices. rewrite list_elem_of_filter, elem_of_seq, Is_true_true, outputs_at_spec.
  split; [by intros [? _]|]. intros [? Hj]. split; [done|]. apply lookup_lt_Some in Hj. lia.
Qed.

Lemma written_lookup n c shards (g : nat -> list Z) j s : shards !! j = Some s ->
  write_back (output_indices n c shards) (g <$> output_indices n c shards) (prepared n c shards) !! j =
    Some (if nth j (outputs_at n c shards) false then g j else s).
Proof.
  intros Hs. pose proof (lookup_lt_Some _ _ _ Hs) as Hlt.
  rewrite write_back_lookup by (apply NoDup_filter, NoDup_seq || by rewrite length_prepared).
  rewrite (prepared_lookup n c shards j s Hs).
  pose proof (elem_of_output_indices n c shards j) as Hin. rewrite <- (outputs_at_spec n) in Hin.
  destruct (nth j (outputs_at n c shards) false); case_decide; naive_solver.
Qed.

Section Runs.
Context (n : nat) (c : Codec) (shards : list (list Z)).
Context (Hc : codec_ok c) (Hn : (0 < n)%nat).
Context (Hls : length shards = total_shards c) (Hsh : Forall (shard_shape n) shards).
Context (Hen : (data_shards c <= length (filter (fun s => nonmissing s) shards))%nat).

Lemma shapes_check : check_shards (length <$> shards) true = Ok n.
Proof using All.
  apply check_shards_ok; [lia| |].
  - apply Forall_fmap. eapply Forall_impl; [exact Hsh|]. cbn. intros s [->|[_ ?]]; [by right|by left].
  - destruct (proj1 Hc) as [_ [? _] _].
    destruct (nonempty_cons (filter (fun s => nonmissing s) shards)) as (s & l & E); [lia|].
    assert (s ∈ filter (fun s => nonmissing s) shards) as Hin by (rewrite E; left).
    apply list_elem_of_filter in Hin as [Hs Hin]. apply list_elem_of_fmap. exists s. split; [|done].
    rewrite Forall_forall in Hsh. by destruct (Hsh s Hin) as [->|[_ ?]].
Qed.

Lemma valid_shards (v : list nat) : (forall j, j ∈ v -> nonmissing (nth j shards [])) ->
  forall j, j ∈ v -> exists s, shards !! j = Some s /\ nonmissing s /\ nth j shards [] = s /\ bytes s /\ length s = n /\
    nth j (outputs_at n c shards) false = false.
Proof using All.
  intros Hnm j Hj. specialize (Hnm j Hj). rewrite nth_lookup in *.
  destruct (shards !! j) as [s|] eqn:Es; [|done]. exists s. cbn in *.
  destruct (Forall_lookup_1 _ _ _ _ Hsh Es) as [->|[? ?]]; [done|]. split_and!; try done.
  destruct (nth j (outputs_at n c shards) false) eqn:Eo; [|done].
  apply outputs_at_spec in Eo as [_ E]. rewrite Es in E. by injection E as ->.
Qed.

(** The coding pass that computes the missing data shards. *)
Lemma rebuild_pass m (v : list nat) inv : enc_matrix c = Some m -> decodes (data_shards c) m v inv -> v <> [] ->
  length v = data_shards c -> (forall j, j ∈ v -> nonmissing (nth j shards [])) ->
  (matrix_rows ← matrix_rows_of inv (output_indices n c shards);
   code_some_shards matrix_rows ((fun j => nth j (prepared n c shards) []) <$> v)
     ((fun i => nth i (prepared n c shards) []) <$> output_indices n c shards)) =
  Ok ((fun j => combine_rows n (mrow inv j) ((fun i => nth i shards []) <$> v)) <$> output_indices n c shards).
Proof using All.
  intros Em Hdec Hv0 Hlv Hnm. pose proof (valid_shards v Hnm) as Hv. destruct Hdec as (Hinv & Eri & Eci & _).
  assert ((fun j => nth j (prepared n c shards) []) <$> v = (fun i => nth i shards []) <$> v) as ->.
  { apply list_fmap_ext. intros k j Hk. apply list_elem_of_lookup_2 in Hk as Hj.
    destruct (Hv j Hj) as (s & Es & _ & -> & _ & _ & Eo). by rewrite (nth_lookup_Some _ _ _ _ (prepared_lookup n c shards j s Es)), Eo. }
  assert (Forall (fun i => (i < m_rows inv)%nat) (output_indices n c shards)) as Hidd.
  { apply Forall_forall. intros j Hj. apply elem_of_output_indices in Hj as [Hj _]. lia. }
  rewrite matrix_rows_of_ok by done. cbn [mbind result_bind]. rewrite (code_some_shards_ok n).
  - by rewrite <- list_fmap_compose.
  - apply Forall_fmap, Forall_forall. intros j Hj. cbn. by destruct (Hv j Hj) as (s & _ & _ & -> & ? & ? & _).
  - apply Forall_fmap. eapply Forall_impl; [exact Hidd|]. cbn. intros j Hj. split; [by apply mrow_bytes|].
    rewrite length_mrow, length_fmap by done. lia.
  - by destruct v.
  - by rewrite !length_fmap.
  - apply Forall_fmap, Forall_forall. intros j Hj. cbn. apply elem_of_output_indices in Hj as [Hj Es].
    rewrite (nth_lookup_Some _ _ _ _ (prepared_lookup n c shards j [] Es)), (proj2 (outputs_at_spec n c shards j)) by done.
    apply length_replicate.
Qed.

Lemma reconstruct_runs : exists shards' c',
  reconstruct_data shards c = (Ok (), shards', c') /\ length shards' = length shards /\
  codec_ok c' /\ same_code c c' /\
  (forall j s, shards !! j = Some s -> nonmissing s \/ (data_shards c <= j)%nat -> shards' !! j = Some s) /\
  (forall j, (j < data_shards c)%nat -> shards !! j = Some [] -> exists d, shards' !! j = Some d /\ rebuilt n c shards j d).
Proof using All.
  destruct (proj1 Hc) as [Ht [Hds Hmax] Hm].
  unfold reconstruct_data. rewrite Hls, Nat.eqb_refl. cbn [negb]. rewrite shapes_check.
  change (filter (fun s => negb (length s =? 0)%nat) shards) with (filter (fun s => nonmissing s) shards).
  change (filter (fun s => negb (length s =? 0)%nat) (take (data_shards c) shards))
    with (filter (fun s => nonmissing s) (take (data_shards c) shards)).
  assert (forall l : list (list Z), length (filter (fun s => nonmissing s) l) = length l ->
    forall j, l !! j <> Some []) as Hfull.
  { intros l E j Hj. by pose proof (Forall_lookup_1 _ _ _ _ (filter_full _ l E) Hj). }
  destruct (Nat.eqb_spec (length (filter (fun s => nonmissing s) shards)) (total_shards c)) as [Ef|Ef]; cbn [orb].
  { exists shards, c. split; [reflexivity|]. split; [reflexivity || exact Hls|]. split; [exact Hc|]. split; [by split_and!|]. split; [by intros j s Hs _|]. intros j _ Hj. by destruct (Hfull shards ltac:(lia) j). }
  destruct (Nat.eqb_spec (length (filter (fun s => nonmissing s) (take (data_shards c) shards))) (data_shards c)) as [Eg|Eg].
  { exists shards, c. split; [reflexivity|]. split; [reflexivity || exact Hls|]. split; [exact Hc|]. split; [by split_and!|]. split; [by intros j s Hs _|]. intros j Hj Es.
    destruct (Hfull (take (data_shards c) shards) ltac:(rewrite length_take; lia) j). by rewrite lookup_take_lt. }
  rewrite (proj2 (Nat.ltb_ge _ _)) by done.
  pose proof (length_filter (fun s => nonmissing s) shards) as Hfl.
  destruct (enc_matrix c) as [m|] eqn:Em; [|exfalso; lia].
  pose proof (valid_loop_ok (data_shards c) shards ltac:(lia) Hen) as Hv.
  destruct (valid_loop (data_shards c) 0 shards [] mask_empty) as [v mask].
  destruct Hv as (Ev & Hlv & Hsub & Hnm).
  assert (NoDup v) as Hnd by (eapply sublist_NoDup; [apply NoDup_seq|exact Hsub]).
  assert (Forall (fun i => (i < total_shards c)%nat) v) as Hvt.
  { apply Forall_forall. intros j Hj. eapply sublist_submseteq, elem_of_submseteq in Hsub; [|exact Hj].
    apply elem_of_seq in Hsub. lia. }
  destruct (get_decode_matrix_ok c m mask Hc Em) as (inv & c' & Eget & Hc' & Hsame & Hdec);
    [rewrite <- Hls, <- Ev; first [done | by rewrite Hls]..|].
  rewrite <- Hls, <- Ev in Eget, Hdec. rewrite Eget, (proj1 Hsame).
  change (prepare_outputs (data_shards c) n shards) with (prepared n c shards, outputs_at n c shards). cbv beta iota.
  rewrite pull_shards_spec;
    [|by rewrite length_prepared|intros j Hj; by destruct (valid_shards v Hnm j Hj) as (? & _ & _ & _ & _ & _ & ?)].
  rewrite length_prepared. fold (output_indices n c shards).
  assert ((fun j => nth (j - 0) (prepared n c shards) []) <$> v = (fun j => nth j (prepared n c shards) []) <$> v) as ->.
  { apply list_fmap_ext. intros k j _. by rewrite Nat.sub_0_r. }
  rewrite (rebuild_pass m v inv Em Hdec) by (first [done | by intros ->; cbn in Hlv; lia]).
  eexists _, c'. split; [done|]. split; [by rewrite write_back_length, length_prepared|]. split; [done|]. split; [done|].
  split; [intros j s Hs Hj|intros j Hj Hs]; rewrite (written_lookup _ _ _ _ _ _ Hs);
    pose proof (outputs_at_spec n c shards j) as Ho; rewrite Hs in Ho; destruct (nth j (outputs_at n c shards) false).
  - destruct (proj1 Ho eq_refl) as [? [= ->]]. by destruct Hj; [|lia].
  - done.
  - eexists. split; [done|]. exists m, v, inv. split_and!; try done.
    intros i Hi. destruct (valid_shards v Hnm i Hi) as (s & ? & ? & _). by exists s.
  - discriminate (proj2 Ho (conj Hj eq_refl)).
Qed.
End Runs.

(** ** Decoding what is left of a code word *)

(** A shard received: intact or missing. *)
Definition received (full s : list Z) : Prop := s = full \/ s = [].

Section Reconstruct.
Context (n : nat) (c : Codec) (data shards : list (list Z)).
Context (Hc : codec_ok c) (Hn : (0 < n)%nat) (Hd : rows_ok n data) (Hl : length data = data_shards c).
Context (Hrec : Forall2 received (codeword n c data) shards).
Context (Hen : (data_shards c <= length (filter (fun s => nonmissing s) shards))%nat).

Lemma received_length : length shards = total_shards c.
Proof using All. rewrite <- (Forall2_length _ _ _ Hrec). by apply codeword_data; [apply Hc|..]. Qed.

Lemma received_intact j s : shards !! j = Some s -> nonmissing s -> codeword n c data !! j = Some s.
Proof using All.
  intros Hj Hs. destruct (Forall2_lookup_r _ _ _ _ _ Hrec Hj) as (full & Hf & [->| ->]); [done|done].
Qed.

Lemma received_shapes : Forall (shard_shape n) shards.
Proof using All.
  apply Forall_lookup. intros j s Hj.
  destruct (Forall2_lookup_r _ _ _ _ _ Hrec Hj) as (full & Hf & [->| ->]); [right|by left].
  exact (Forall_lookup_1 _ _ _ _ (codeword_ok n c data (proj1 Hc) Hd) Hf).
Qed.

(** A data shard rebuilt from shards of the code word is the one sent. *)
Lemma rebuilt_data j d s : data !! j = Some d -> rebuilt n c shards j s -> s = d.
Proof using All.
  intros Hj (m & v & inv & Em & Hdec & Hv & ->). destruct (proj1 Hc) as [_ _ Hm]. rewrite Em in Hm.
  rewrite <- (decode_row n (data_shards c) m v inv data j d (proj1 Hm) Hd Hl Hdec Hj).
  f_equal. apply list_fmap_ext. intros k i Hk. apply list_elem_of_lookup_2 in Hk.
  destruct (Hv i Hk) as (s & Es & Hnm). rewrite nth_lookup, Es. cbn.
  pose proof (received_intact i s Es Hnm) as E. unfold codeword in E. rewrite Em in E.
  apply list_lookup_fmap_Some in E as (i' & -> & Ei). by apply lookup_seq in Ei as [-> _].
Qed.

Lemma reconstruct_spec : exists shards' c',
  reconstruct_data shards c = (Ok (), shards', c') /\
  take (data_shards c) shards' = data /\ drop (data_shards c) shards' = drop (data_shards c) shards /\
  codec_ok c' /\ same_code c c'.
Proof using All.
  pose proof received_length as Hls. destruct (proj1 Hc) as [Ht _ _].
  destruct (reconstruct_runs n c shards Hc Hn Hls received_shapes Hen)
    as (shards' & c' & E & Hlen & Hc' & Hsame & Hkeep & Hmiss).
  destruct (codeword_data n c data (proj1 Hc) Hd Hl) as [_ Hcw].
  exists shards', c'. split; [done|]. split; [|split; [|done]].
  - apply list_eq. intros j. destruct (decide (j < data_shards c)%nat) as [Hj|Hj].
    2: { rewrite !lookup_ge_None_2; rewrite ?length_take; (done || lia). }
    rewrite lookup_take_lt by done. destruct (lookup_lt_is_Some_2 shards j) as [s Hs]; [lia|].
    destruct (lookup_lt_is_Some_2 data j) as [d Hdj]; [lia|]. rewrite Hdj. destruct s as [|b s].
    + destruct (Hmiss j Hj Hs) as (s & Es & Hr). by rewrite Es, (rebuilt_data j d s Hdj Hr).
    + rewrite (Hkeep j _ Hs) by by left. pose proof (received_intact j _ Hs I) as E'.
      rewrite <- (lookup_take_lt _ (data_shards c)), Hcw in E' by done. congruence.
  - apply list_eq. intros j. rewrite !lookup_drop. destruct (shards !! (data_shards c + j)%nat) as [s|] eqn:Hs.
    + rewrite (Hkeep _ s Hs) by (right; lia). done.
    + apply lookup_ge_None in Hs. apply lookup_ge_None. lia.
Qed.
End Reconstruct.
