(* ===== verification/CodecTheorems.v ===== *)
(** * What the Reed-Solomon codec guarantees

    The properties of [rs/] as a whole: the field, the matrices, encoding and
    recovery of lost shards. *)
From stdpp Require Import base list gmap.
From Stdlib Require Import ZArith Lia.
From S2P Require Import Prelude Word Galois GfVector Matrix Gauss Codec CodecSpec RsDecode.
Local Open Scope Z_scope.

(** C40: [gal_add] and [gal_multiply] make bytes a field of characteristic two,
    with [gal_divide] and [gal_one_over] its division: by a divisor that is not zero
    both answer.  By zero [gal_one_over] panics, and [gal_divide] does for every
    dividend but zero, for which it answers zero. *)
Theorem gf256_field a b c :
  is_u8 a -> is_u8 b -> is_u8 c ->
  is_u8 (gal_add a b) /\ is_u8 (gal_multiply a b) /\
  gal_add a b = gal_add b a /\ gal_add a (gal_add b c) = gal_add (gal_add a b) c /\
  gal_add a 0 = a /\ gal_add a a = 0 /\
  gal_multiply a b = gal_multiply b a /\
  gal_multiply a (gal_multiply b c) = gal_multiply (gal_multiply a b) c /\
  gal_multiply 1 a = a /\
  gal_multiply a (gal_add b c) = gal_add (gal_multiply a b) (gal_multiply a c) /\
  (gal_multiply a b = 0 -> a = 0 \/ b = 0) /\
  (b <> 0 -> exists q i, gal_divide a b = Some q /\ is_u8 q /\ gal_multiply q b = a /\
     gal_one_over b = Some i /\ is_u8 i /\ gal_multiply b i = 1) /\
  gal_one_over 0 = None /\ (a <> 0 -> gal_divide a 0 = None) /\ gal_divide 0 0 = Some 0.
Proof.
  intros Ha Hb Hc. unfold gal_add. split_and!.
  - by apply lxor_byte.
  - by apply gal_multiply_byte.
  - apply Z.lxor_comm.
  - by rewrite Z.lxor_assoc.
  - apply Z.lxor_0_r.
  - apply Z.lxor_nilpotent.
  - by apply gal_multiply_comm.
  - by apply gal_multiply_assoc.
  - by apply gal_multiply_1_l.
  - by apply gal_multiply_distr.
  - by apply gal_multiply_integral.
  - intros Hb0. destruct (gal_divide_spec a b Ha Hb Hb0) as (q & Eq & Hq8 & Hq).
    destruct (gal_one_over_spec b Hb Hb0) as (i & Ei & Hi8 & _ & Hi). by exists q, i.
  - done.
  - intros Ha0. unfold gal_divide. by rewrite (proj2 (Z.eqb_neq _ _) Ha0).
  - done.
Qed.

Lemma gf256_field_witness : gal_multiply 83 (gal_multiply 202 7) = gal_multiply (gal_multiply 83 202) 7.
Proof. apply (gf256_field 83 202 7); unfold is_u8; lia. Defined.

(** C32: [invert] decides whether a square matrix is invertible.  It answers the
    two-sided inverse, as maps on byte vectors, or [Singular] together with the
    existence of a non-zero vector the matrix kills; it never panics. *)
Theorem invert_decides m :
  mwf m -> m_rows m = m_cols m ->
  match invert m with
  | Ok b =>
      mwf b /\ m_rows b = m_rows m /\ m_cols b = m_rows m /\
      forall x y, bytes x -> bytes y -> length x = m_rows m -> length y = m_rows m ->
        y = mvec m x <-> x = mvec b y
  | Err e =>
      e = Singular /\ exists x, bytes x /\ length x = m_rows m /\ ~ all_zero x /\
        mvec m x = replicate (m_rows m) 0
  | Panic => False
  end.
Proof. apply invert_spec. Qed.

Definition example_matrix : Matrix := mkMatrix 2 2 [0; 1; 1; 1].

Lemma invert_decides_witness :
  match invert example_matrix with
  | Ok b => mvec b (mvec example_matrix [5; 9]) = [5; 9]
  | _ => False
  end.
Proof.
  pose proof (invert_decides example_matrix) as Hi.
  destruct (invert example_matrix) as [b|e|] eqn:E.
  - destruct Hi as (_ & _ & _ & Hb); [|done|].
    { constructor; cbn; try lia. repeat constructor; unfold is_u8; lia. }
    symmetry. apply (Hb [5; 9] (mvec example_matrix [5; 9])); [| |reflexivity..].
    all: vm_compute; repeat constructor; discriminate.
  - vm_compute in E. discriminate.
  - vm_compute in E. discriminate.
Defined.

(** C31: the coding matrix.  For 1 to 256 shards [build_matrix] answers a matrix
    whose top square is the identity (data shards are sent as they are) and any
    [data] of whose rows determine the data (any [data] shards suffice). *)
Theorem build_matrix_mds ds tot :
  (0 < ds <= tot)%nat -> (tot <= 256)%nat ->
  exists g, build_matrix ds tot = Ok g /\ m_rows g = tot /\ m_cols g = ds /\
    (forall i x v, (i < ds)%nat -> bytes x -> length x = ds -> x !! i = Some v -> dot (mrow g i) x = v) /\
    (forall rows x, NoDup rows -> Forall (fun i => (i < tot)%nat) rows -> length rows = ds ->
       bytes x -> length x = ds -> (forall i, i ∈ rows -> dot (mrow g i) x = 0) -> all_zero x).
Proof.
  intros Hds Htot. destruct (build_matrix_ok ds tot Hds Htot) as (g & E & _ & Er & Ec & Hs & Hd).
  exists g. unfold systematic, rows_determine in *. rewrite Er, Ec in *. split_and!; done.
Qed.

Lemma build_matrix_mds_witness : exists g, build_matrix 10 13 = Ok g /\ m_rows g = 13%nat.
Proof.
  destruct (build_matrix_mds 10 13 ltac:(lia) ltac:(lia)) as (g & E & Er & _).
  exists g. split; [exact E|exact Er].
Defined.

(** the coding loop.  Cutting the shards into rounds of [PER_ROUND] bytes and
    each round into one pass per input and output computes every output as the
    matrix row times the inputs, byte by byte, and the loop ends. *)
Theorem coding_loop n rows inputs outputs :
  rows_ok n inputs -> Forall (fun r => bytes r /\ length r = length inputs) rows -> inputs <> [] ->
  length rows = length outputs -> Forall (fun o => length o = n) outputs ->
  code_some_shards rows inputs outputs = Ok ((fun row => combine_rows n row inputs) <$> rows).
Proof. apply code_some_shards_ok. Qed.

Lemma coding_loop_witness :
  code_some_shards [[1; 1]; [2; 3]] [[7; 8]; [9; 10]] [[0; 0]; [0; 0]] =
    Ok [combine_rows 2 [1; 1] [[7; 8]; [9; 10]]; combine_rows 2 [2; 3] [[7; 8]; [9; 10]]].
Proof.
  apply (coding_loop 2 [[1; 1]; [2; 3]]); try done; repeat constructor; unfold is_u8; lia.
Defined.

(** The vector kernels' product.  The product of a byte is the exclusive or
    of two 16-entry table lookups, one for each nibble, for every coefficient. *)
Theorem split_nibble_product c b :
  is_u8 c -> is_u8 b ->
  gal_multiply c b =
  Z.lxor (nth (Z.to_nat (Z.land b 15)) (nth (Z.to_nat c) MUL_TABLE_LOW []) 0)
         (nth (Z.to_nat (Z.shiftr b 4)) (nth (Z.to_nat c) MUL_TABLE_HIGH []) 0).
Proof. apply nibble_product. Qed.

Lemma split_nibble_product_witness : gal_multiply 29 200 =
  Z.lxor (nth 8 (nth 29 MUL_TABLE_LOW []) 0) (nth 12 (nth 29 MUL_TABLE_HIGH []) 0).
Proof. apply (split_nibble_product 29 200); unfold is_u8; lia. Defined.

(** Sizes.  [ReedSolomon::new] refuses more than 256 shards and no data
    shards with their own errors, accepts everything else, and what it accepts
    has the shape every other operation relies on. *)
Theorem codec_new_sizes ds ps :
  if (256 <? ds + ps)%nat then codec_new ds ps = Err MaxShardNum
  else if (ds =? 0)%nat then codec_new ds ps = Err InvShardNum
  else exists c, codec_new ds ps = Ok c /\ codec_ok c /\
    data_shards c = ds /\ parity_shards c = ps /\ total_shards c = (ds + ps)%nat.
Proof.
  pose proof (codec_new_result ds ps) as Hr.
  destruct (Nat.ltb_spec 256 (ds + ps)); [done|]. destruct (Nat.eqb_spec ds 0); [done|].
  destruct (codec_new_total ds ps) as [c E]; [lia..|]. exists c.
  pose proof (codec_new_ok _ _ _ E). destruct (codec_new_shape _ _ _ E) as (Hs & Ed & Ep & _).
  split_and!; try done. rewrite (cs_total _ Hs). congruence.
Qed.

(** encoding.  Whatever the parity shards held, [encode] answers the code
    word of the data: the data shards as they are, each parity shard its row of
    the coding matrix times the data. *)
Theorem encode_code_word n c data parity :
  codec_ok c -> (0 < n)%nat -> rows_ok n data -> length data = data_shards c ->
  length parity = parity_shards c -> Forall (fun p => length p = n) parity ->
  exists word, encode c (data ++ parity) = Ok word /\ take (data_shards c) word = data /\
    length word = total_shards c /\ rows_ok n word /\
    forall m i p, enc_matrix c = Some m -> word !! i = Some p -> p = combine_rows n (mrow m i) data.
Proof.
  intros [Hc _] Hn Hd Hl Hpl Hp. exists (codeword n c data).
  destruct (codeword_data n c data Hc Hd Hl) as [Hlw Hw]. split_and!; try done.
  - by apply rs_encode_spec.
  - by apply codeword_ok.
  - intros m i p Em Hi. unfold codeword in Hi. rewrite Em in Hi.
    rewrite list_lookup_fmap in Hi. apply fmap_Some in Hi as (j & Hj & ->).
    apply lookup_seq in Hj as [-> _]. done.
Qed.

Definition example_data : list (list Z) := [[1; 2]; [3; 4]].

Lemma example_rows : rows_ok 2 example_data.
Proof. repeat constructor; unfold is_u8; lia. Qed.

Lemma encode_code_word_witness :
  exists c word, codec_new 2 1 = Ok c /\ encode c (example_data ++ [[0; 0]]) = Ok word /\ take 2 word = example_data.
Proof.
  destruct (codec_new_total 2 1) as [c E]; [lia..|].
  pose proof (codec_new_ok _ _ _ E) as Hc. destruct (codec_new_shape _ _ _ E) as (_ & Ed & Ep & _).
  destruct (encode_code_word 2 c example_data [[0; 0]] Hc ltac:(lia) example_rows) as (word & Ew & Hw & _).
  - by rewrite Ed.
  - by rewrite Ep.
  - repeat constructor.
  - rewrite Ed in Hw. exists c, word. split_and!; [exact E|exact Ew|exact Hw].
Defined.

(** C14: recovery.  From any code word with enough shards left (as many as there
    are data shards), [reconstruct_data] restores every data shard, leaves the
    parity shards as they were, and keeps its cache of decode matrices sound for
    the next call. *)
Theorem reconstruct_recovers n c data word shards :
  codec_ok c -> (0 < n)%nat -> rows_ok n data -> length data = data_shards c ->
  (exists parity, length parity = parity_shards c /\ Forall (fun p => length p = n) parity /\
     encode c (data ++ parity) = Ok word) ->
  Forall2 received word shards ->
  (data_shards c <= length (filter (fun s => nonmissing s) shards))%nat ->
  exists shards' c', reconstruct_data shards c = (Ok (), shards', c') /\
    take (data_shards c) shards' = data /\ drop (data_shards c) shards' = drop (data_shards c) shards /\
    codec_ok c' /\ same_code c c'.
Proof.
  intros Hc Hn Hd Hl (parity & Hpl & Hp & Ew) Hrec Hen.
  rewrite (rs_encode_spec n) in Ew by (done || apply Hc). injection Ew as <-.
  by apply (reconstruct_spec n).
Qed.

Lemma reconstruct_recovers_witness :
  exists c word, codec_new 2 1 = Ok c /\ encode c (example_data ++ [[0; 0]]) = Ok word /\
    exists shards' c', reconstruct_data (<[0%nat := []]> word) c = (Ok (), shards', c') /\ take 2 shards' = example_data.
Proof.
  destruct (codec_new_total 2 1) as [c E]; [lia..|].
  pose proof (codec_new_ok _ _ _ E) as Hc. destruct (codec_new_shape _ _ _ E) as (Hs & Ed & Ep & _).
  pose proof (cs_total _ Hs) as Et. rewrite Ed, Ep in Et.
  assert (length example_data = data_shards c) as Hl by by rewrite Ed.
  pose proof (rs_encode_spec 2 c example_data [[0; 0]] Hs ltac:(lia) example_rows Hl
    ltac:(by rewrite Ep) ltac:(repeat constructor)) as Ew.
  destruct (codeword_data 2 c example_data Hs example_rows Hl) as [Hlw _].
  pose proof (codeword_ok 2 c example_data Hs example_rows) as Hw.
  set (word := codeword 2 c example_data) in *. clearbody word. rewrite Et in Hlw.
  destruct word as [|w0 [|w1 [|w2 [|]]]]; try discriminate Hlw. exists c, [w0; w1; w2].
  split; [exact E|]. split; [exact Ew|].
  destruct (reconstruct_recovers 2 c example_data [w0; w1; w2] [[]; w1; w2] Hc ltac:(lia) example_rows Hl)
    as (shards' & c' & Er & Ht & _).
  - exists [[0; 0]]. rewrite Ep. split; [reflexivity|]. split; [repeat constructor|exact Ew].
  - repeat constructor; unfold received; (right; reflexivity) || (left; reflexivity).
  - rewrite Ed. unfold rows_ok in Hw. rewrite !Forall_cons in Hw. destruct Hw as (_ & [_ H1] & [_ H2] & _).
    rewrite !filter_cons, filter_nil, decide_False by (intros []).
    rewrite !decide_True by (unfold nonmissing; rewrite ?H1, ?H2; exact I). done.
  - exists shards', c'. rewrite Ed in Ht. split; [exact Er|exact Ht].
Defined.
