(* ===== verification/GoSort.v ===== *)
(** Go's [sort.Slice]: [gosort.rs].

    The pattern-defeating quicksort, step by step, over a list updated by index,
    for an arbitrary comparison [less].  An index outside the slice and a [usize]
    subtraction below zero are [Panic]; so is a loop that runs out of fuel.
    [slice_spec] says none of this happens for any comparison, consistent or
    not: the sort returns a permutation of its input. *)
From stdpp Require Import base list.
From Stdlib Require Import ZArith Lia.
From S2P Require Import Prelude Word.

Inductive SortedHint := HintUnknown | HintIncreasing | HintDecreasing.

#[export] Instance sorted_hint_eq : EqDecision SortedHint.
Proof. solve_decision. Defined.

(** [Xorshift::next]: the new state, which is also the number drawn. *)
Definition xorshift_next (s : Z) : Z :=
  let s := Z.lxor s (u64 (Z.shiftl s 13)) in
  let s := Z.lxor s (Z.shiftr s 7) in
  Z.lxor s (u64 (Z.shiftl s 17)).

(** [bits_len]: the number of binary digits of [x]. *)
Definition bits_len (x : nat) : nat := if (x =? 0)%nat then 0%nat else S (Nat.log2 x).
Definition next_power_of_two (length : nat) : nat := (2 ^ bits_len length)%nat.

Section GoSort.
Context {T : Type} (less_fn : T -> T -> bool).
Implicit Types (data : list T).

(** [LessSwap::less] and [LessSwap::swap]. *)
Definition less data (i j : nat) : io bool :=
  x ← unwrap (data !! i); y ← unwrap (data !! j); Ok (less_fn x y).

Definition swap (i j : nat) data : io (list T) :=
  x ← unwrap (data !! i); y ← unwrap (data !! j); Ok (<[j := x]> (<[i := y]> data)).

(** The inner loop of the insertion sort:
    [while j > lo && less(j, j - 1) { swap(j, j - 1); j -= 1 }]. *)
Fixpoint insert_down (lo j : nat) data : io (list T) :=
  match j with
  | 0%nat => Ok data
  | S j' =>
      if (lo <? j)%nat then
        b ← less data j j';
        if (b : bool) then data ← swap j j' data; insert_down lo j' data else Ok data
      else Ok data
  end.

Definition insertion_sort_func (a b : nat) data : io (list T) :=
  for_range (a + 1) b (fun i data => insert_down a i data) data.

(** [sift_down_func]; the root moves down at each round. *)
Fixpoint sift_down_loop (fuel root hi first : nat) data : io (list T) :=
  match fuel with
  | 0%nat => Panic
  | S fuel =>
      let child := (2 * root + 1)%nat in
      if (hi <=? child)%nat then Ok data
      else
        child ← (if (child + 1 <? hi)%nat then
                   b ← less data (first + child) (first + child + 1);
                   Ok (if (b : bool) then (child + 1)%nat else child)
                 else Ok child);
        b ← less data (first + root) (first + child);
        if negb b then Ok data
        else
          data ← swap (first + root) (first + child) data;
          sift_down_loop fuel child hi first data
  end.

Definition sift_down_func (lo hi first : nat) data : io (list T) :=
  sift_down_loop (S hi) lo hi first data.

(** [for i in (0..n).rev() { f(i) }]. *)
Fixpoint for_rev (n : nat) (f : nat -> list T -> io (list T)) data : io (list T) :=
  match n with
  | 0%nat => Ok data
  | S n => data ← f n data; for_rev n f data
  end.

Definition heap_sort_func (a b : nat) data : io (list T) :=
  let first := a in
  let lo := 0%nat in
  hi ← usize_sub b a;
  m ← usize_sub hi 1;
  data ← for_rev (m / 2 + 1) (fun i data => sift_down_func i hi first data) data;
  for_rev hi (fun i data =>
    data ← swap first (first + i) data;
    sift_down_func lo i first data) data.

(** [while i <= j && c(i) { i += 1 }] and [while i <= j && c(j) { j -= 1 }]. *)
Fixpoint while_up (fuel : nat) (c : nat -> io bool) (i j : nat) : io nat :=
  match fuel with
  | 0%nat => Panic
  | S fuel =>
      if (i <=? j)%nat then
        b ← c i; if (b : bool) then while_up fuel c (i + 1) j else Ok i
      else Ok i
  end.

Fixpoint while_down (fuel : nat) (c : nat -> io bool) (i j : nat) : io nat :=
  match fuel with
  | 0%nat => Panic
  | S fuel =>
      if (i <=? j)%nat then
        b ← c j; if (b : bool) then j ← usize_sub j 1; while_down fuel c i j else Ok j
      else Ok j
  end.

Definition not_io (m : io bool) : io bool := b ← m; Ok (negb b).

(** The second loop of [partition_func]. *)
Fixpoint partition_loop (fuel a i j : nat) data : io (nat * list T) :=
  match fuel with
  | 0%nat => Panic
  | S fuel =>
      i ← while_up (S (length data)) (fun i => less data i a) i j;
      j ← while_down (S (length data)) (fun j => not_io (less data j a)) i j;
      if (j <? i)%nat then data ← swap j a data; Ok (j, data)
      else
        data ← swap i j data;
        j ← usize_sub j 1;
        partition_loop fuel a (i + 1) j data
  end.

Definition partition_func (a b pivot : nat) data : io (nat * bool * list T) :=
  data ← swap a pivot data;
  j ← usize_sub b 1;
  i ← while_up (S (length data)) (fun i => less data i a) (a + 1) j;
  j ← while_down (S (length data)) (fun j => not_io (less data j a)) i j;
  if (j <? i)%nat then data ← swap j a data; Ok (j, true, data)
  else
    data ← swap i j data;
    j ← usize_sub j 1;
    '(j, data) ← partition_loop (S (length data)) a (i + 1) j data;
    Ok (j, false, data).

(** The loop of [partition_equal_func]. *)
Fixpoint partition_equal_loop (fuel a i j : nat) data : io (nat * list T) :=
  match fuel with
  | 0%nat => Panic
  | S fuel =>
      i ← while_up (S (length data)) (fun i => not_io (less data a i)) i j;
      j ← while_down (S (length data)) (fun j => less data a j) i j;
      if (j <? i)%nat then Ok (i, data)
      else
        data ← swap i j data;
        j ← usize_sub j 1;
        partition_equal_loop fuel a (i + 1) j data
  end.

Definition partition_equal_func (a b pivot : nat) data : io (nat * list T) :=
  data ← swap a pivot data;
  j ← usize_sub b 1;
  partition_equal_loop (S (length data)) a (a + 1) j data.

(** [while i < b && !less(i, i - 1) { i += 1 }]. *)
Fixpoint skip_sorted (fuel i b : nat) data : io nat :=
  match fuel with
  | 0%nat => Panic
  | S fuel =>
      if (i <? b)%nat then
        i' ← usize_sub i 1; less ← less data i i';
        if negb less then skip_sorted fuel (i + 1) b data else Ok i
      else Ok i
  end.

(** [while j >= 1 { if !less(j, j - 1) break; swap(j, j - 1); j -= 1 }]. *)
Fixpoint shift_left (j : nat) data : io (list T) :=
  match j with
  | 0%nat => Ok data
  | S j' =>
      b ← less data j j';
      if negb b then Ok data else data ← swap j j' data; shift_left j' data
  end.

(** [for j in i + 1..b { if !less(j, j - 1) break; swap(j, j - 1) }]. *)
Fixpoint shift_right (n j : nat) data : io (list T) :=
  match n with
  | 0%nat => Ok data
  | S n =>
      j' ← usize_sub j 1;
      b ← less data j j';
      if negb b then Ok data else data ← swap j j' data; shift_right n (j + 1) data
  end.

Definition SHORTEST_SHIFTING : nat := 50%nat.

(** The [for _ in 0..MAX_STEPS] loop, with [steps] rounds left. *)
Fixpoint partial_insertion_loop (steps a b i : nat) data : io (bool * list T) :=
  match steps with
  | 0%nat => Ok (false, data)
  | S steps =>
      i ← skip_sorted (S (length data)) i b data;
      if (i =? b)%nat then Ok (true, data)
      else
        l ← usize_sub b a;
        if (l <? SHORTEST_SHIFTING)%nat then Ok (false, data)
        else
          i' ← usize_sub i 1;
          data ← swap i i' data;
          la ← usize_sub i a;
          data ← (if (2 <=? la)%nat then shift_left i' data else Ok data);
          lb ← usize_sub b i;
          data ← (if (2 <=? lb)%nat then shift_right (b - (i + 1)) (i + 1) data else Ok data);
          partial_insertion_loop steps a b i data
  end.

Definition MAX_STEPS : nat := 5%nat.

Definition partial_insertion_sort_func (a b : nat) data : io (bool * list T) :=
  partial_insertion_loop MAX_STEPS a b (a + 1) data.

(** The three rounds of [break_patterns_func] from index [idx]. *)
Fixpoint break_loop (n idx a length modulus : nat) (random : Z) data : io (list T) :=
  match n with
  | 0%nat => Ok data
  | S n =>
      let random := xorshift_next random in
      let other := Z.to_nat (Z.land random (Z.of_nat modulus - 1)) in
      other ← (if (length <=? other)%nat then usize_sub other length else Ok other);
      data ← swap idx (a + other) data;
      break_loop n (idx + 1) a length modulus random data
  end.

Definition break_patterns_func (a b : nat) data : io (list T) :=
  length ← usize_sub b a;
  if (8 <=? length)%nat then
    let modulus := next_power_of_two length in
    let mid := (a + (length / 4) * 2)%nat in
    idx ← usize_sub mid 1;
    break_loop 3 idx a length modulus (Z.of_nat length) data
  else Ok data.

Definition order2_func (a b swaps : nat) data : io (nat * nat * nat) :=
  l ← less data b a;
  Ok (if (l : bool) then (b, a, (swaps + 1)%nat) else (a, b, swaps)).

Definition median_func (a b c swaps : nat) data : io (nat * nat) :=
  '(a, b, swaps) ← order2_func a b swaps data;
  '(b, _, swaps) ← order2_func b c swaps data;
  '(_, b, swaps) ← order2_func a b swaps data;
  Ok (b, swaps).

Definition median_adjacent_func (a swaps : nat) data : io (nat * nat) :=
  a' ← usize_sub a 1;
  median_func a' a (a + 1) swaps data.

Definition SHORTEST_NINTHER : nat := 50%nat.
Definition MAX_SWAPS : nat := (4 * 3)%nat.

Definition choose_pivot_func (a b : nat) data : io (nat * SortedHint) :=
  l ← usize_sub b a;
  let i := (a + l / 4)%nat in
  let j := (a + l / 4 * 2)%nat in
  let k := (a + l / 4 * 3)%nat in
  '(j, swaps) ←
    (if (8 <=? l)%nat then
       '(i, j, k, swaps) ←
         (if (SHORTEST_NINTHER <=? l)%nat then
            '(i, swaps) ← median_adjacent_func i 0 data;
            '(j, swaps) ← median_adjacent_func j swaps data;
            '(k, swaps) ← median_adjacent_func k swaps data;
            Ok (i, j, k, swaps)
          else Ok (i, j, k, 0%nat));
       median_func i j k swaps data
     else Ok (j, 0%nat));
  Ok (j, if (swaps =? 0)%nat then HintIncreasing
         else if (swaps =? MAX_SWAPS)%nat then HintDecreasing else HintUnknown).

Fixpoint reverse_loop (fuel i j : nat) data : io (list T) :=
  match fuel with
  | 0%nat => Panic
  | S fuel =>
      if (i <? j)%nat then
        data ← swap i j data;
        j ← usize_sub j 1;
        reverse_loop fuel (i + 1) j data
      else Ok data
  end.

Definition reverse_range_func (a b : nat) data : io (list T) :=
  j ← usize_sub b 1;
  reverse_loop (S b) a j data.

Definition MAX_INSERTION : nat := 12%nat.

(** [pdqsort_func]: a round of its loop, or a recursive call, per unit of fuel. *)
Fixpoint pdqsort_loop (fuel a b limit : nat) (was_balanced was_partitioned : bool) data : io (list T) :=
  match fuel with
  | 0%nat => Panic
  | S fuel =>
      length ← usize_sub b a;
      if (length <=? MAX_INSERTION)%nat then insertion_sort_func a b data
      else if (limit =? 0)%nat then heap_sort_func a b data
      else
        '(limit, data) ←
          (if negb was_balanced then
             data ← break_patterns_func a b data; l ← usize_sub limit 1; Ok (l, data)
           else Ok (limit, data));
        '(pivot, hint) ← choose_pivot_func a b data;
        '(pivot, hint, data) ←
          (if bool_decide (hint = HintDecreasing) then
             data ← reverse_range_func a b data;
             e ← usize_sub b 1; o ← usize_sub pivot a; p ← usize_sub e o;
             Ok (p, HintIncreasing, data)
           else Ok (pivot, hint, data));
        '(sorted, data) ←
          (if was_balanced && was_partitioned && bool_decide (hint = HintIncreasing)
           then partial_insertion_sort_func a b data else Ok (false, data));
        if (sorted : bool) then Ok data
        else
          equal ←
            (if (0 <? a)%nat then a' ← usize_sub a 1; not_io (less data a' pivot) else Ok false);
          if (equal : bool) then
            '(mid, data) ← partition_equal_func a b pivot data;
            pdqsort_loop fuel mid b limit was_balanced was_partitioned data
          else
            '(mid, already_partitioned, data) ← partition_func a b pivot data;
            left_len ← usize_sub mid a;
            right_len ← usize_sub b mid;
            let balance_threshold := (length / 8)%nat in
            if (left_len <? right_len)%nat then
              data ← pdqsort_loop fuel a mid limit true true data;
              pdqsort_loop fuel (mid + 1) b limit (balance_threshold <=? left_len)%nat already_partitioned data
            else
              data ← pdqsort_loop fuel (mid + 1) b limit true true data;
              pdqsort_loop fuel a mid limit (balance_threshold <=? right_len)%nat already_partitioned data
  end.

(** A call of [pdqsort_func]: the range shrinks at each round. *)
Definition pdqsort_func (a b limit : nat) data : io (list T) :=
  pdqsort_loop (S (b - a)) a b limit true true data.

(** [slice]. *)
Definition slice data : io (list T) :=
  let length := length data in
  pdqsort_func 0 length (bits_len length) data.

End GoSort.

Example slice_sorts :
  slice Z.ltb [5; 3; 9; 1; 7; 2; 8; 6; 4; 15; 11; 13; 12; 10; 14; 20; 18; 19; 17; 16; 3]%Z
  = Ok [1; 2; 3; 3; 4; 5; 6; 7; 8; 9; 10; 11; 12; 13; 14; 15; 16; 17; 18; 19; 20]%Z.
Proof. vm_compute. reflexivity. Qed.
