(* ===== verification/GoSortSpec.v ===== *)
(** [gosort::slice] never panics and permutes, for any comparison.

    Every stage, on a range inside the slice, returns ([Ok]) a permutation of the
    slice; the loops stop within their fuel because the index distance, or the
    length of the range, shrinks at each round. *)
From stdpp Require Import base list.
From Stdlib Require Import ZArith Lia.
From S2P Require Import Prelude Word GoSort.

Section GoSortSpec.
Context {T : Type} (less_fn : T -> T -> bool).
Implicit Types (data : list T).

(** The stage succeeds with a value that satisfies [P] and permutes [data]. *)
Definition permutes (m : io (list T)) data : Prop := exists d, m = Ok d /\ d ≡ₚ data.
Definition permutes_with {A} (m : io (A * list T)) data (P : A -> Prop) : Prop :=
  exists x d, m = Ok (x, d) /\ d ≡ₚ data /\ P x.

Lemma permutes_trans m data data' : permutes m data -> data ≡ₚ data' -> permutes m data'.
Proof. intros (d & E & Hd) Hp. exists d. split; [done|]. by rewrite Hd. Qed.

Lemma permutes_with_trans {A} (m : io (A * list T)) data data' P :
  permutes_with m data P -> data ≡ₚ data' -> permutes_with m data' P.
Proof. intros (x & d & E & Hd & HP) Hp. exists x, d. split; [done|]. split; [by rewrite Hd|done]. Qed.

Lemma permutes_bind m data (f : list T -> io (list T)) :
  permutes m data -> (forall d, d ≡ₚ data -> permutes (f d) d) -> permutes (d ← m; f d) data.
Proof. intros (d & -> & Hd) Hf. cbn. eapply permutes_trans; [by apply Hf|done]. Qed.

Lemma usize_sub_ok x y : (y <= x)%nat -> usize_sub x y = Ok (x - y)%nat.
Proof. intros. unfold usize_sub. by rewrite (proj2 (Nat.leb_le _ _)). Qed.

Lemma less_ok data i j : (i < length data)%nat -> (j < length data)%nat -> exists b, less less_fn data i j = Ok b.
Proof.
  intros Hi Hj. unfold less. apply lookup_lt_is_Some in Hi as [x ->]. apply lookup_lt_is_Some in Hj as [y ->]. by eexists.
Qed.

Lemma not_less_ok data i j : (i < length data)%nat -> (j < length data)%nat ->
  exists b, not_io (less less_fn data i j) = Ok b.
Proof. intros Hi Hj. destruct (less_ok data i j Hi Hj) as [b E]. unfold not_io. rewrite E. by eexists. Qed.

Lemma insert_delete_perm data i x y : data !! i = Some y -> <[i := x]> data ≡ₚ x :: delete i data.
Proof.
  revert i; induction data as [|z data IH]; intros [|i] Hi; cbn in *; [done|done|done|].
  change (z :: <[i := x]> data ≡ₚ x :: z :: delete i data). rewrite (IH i Hi). constructor.
Qed.

Lemma list_swap_perm data i j x y : data !! i = Some x -> data !! j = Some y -> <[j := x]> (<[i := y]> data) ≡ₚ data.
Proof.
  intros Hi Hj. destruct (decide (i = j)) as [->|Hne].
  { assert (x = y) as -> by congruence. rewrite list_insert_insert_eq. by rewrite list_insert_id. }
  revert i j Hi Hj Hne. induction data as [|z data IH]; intros [|i] [|j] Hi Hj Hne; cbn in *; try done.
  - injection Hi as ->. change (y :: <[j := x]> data ≡ₚ x :: data).
    rewrite (insert_delete_perm data j x y Hj). rewrite (delete_Permutation data j y Hj) at 2. constructor.
  - injection Hj as ->. change (x :: <[i := y]> data ≡ₚ y :: data).
    rewrite (insert_delete_perm data i y x Hi). rewrite (delete_Permutation data i x Hi) at 2. constructor.
  - constructor. apply IH; [done|done|lia].
Qed.

Lemma swap_ok data i j : (i < length data)%nat -> (j < length data)%nat -> permutes (swap i j data) data.
Proof.
  intros Hi Hj. unfold swap. apply lookup_lt_is_Some in Hi as [x Hx]. apply lookup_lt_is_Some in Hj as [y Hy].
  rewrite Hx, Hy. cbn. eexists. split; [reflexivity|]. by apply list_swap_perm.
Qed.

Ltac reading H := let b := fresh "b" in let E := fresh "E" in destruct H as (b & E); rewrite E; cbn [mbind result_bind].

(** ** The loops *)

Lemma insert_down_ok lo j data : (j < length data)%nat -> permutes (insert_down less_fn lo j data) data.
Proof.
  revert data; induction j as [|j IH]; intros data Hj; cbn [insert_down]; [by exists data|].
  destruct (lo <? S j)%nat; [|by exists data].
  destruct (less_ok data (S j) j) as [b E]; [lia..|]. rewrite E. cbn [mbind result_bind]. destruct b; [|by exists data].
  apply permutes_bind; [apply swap_ok; lia|]. intros d Hd. apply IH. rewrite Hd. lia.
Qed.

(** A [for] loop whose body permutes. *)
Lemma for_range_permutes lo hi (f : nat -> list T -> io (list T)) data :
  (forall i d, (lo <= i < hi)%nat -> d ≡ₚ data -> permutes (f i d) d) -> permutes (for_range lo hi f data) data.
Proof.
  intros Hf. destruct (decide (lo <= hi)%nat) as [Hle|Hgt].
  - destruct (for_range_inv (fun _ d => d ≡ₚ data) lo hi f data Hle) as (d & E & Hd); [done| |by exists d].
    intros i d Hi Hd. destruct (Hf i d Hi Hd) as (d' & E & Hd'). exists d'. split; [done|]. by rewrite Hd'.
  - unfold for_range. replace (hi - lo)%nat with 0%nat by lia. by exists data.
Qed.

Lemma insertion_sort_func_ok a b data : (b <= length data)%nat -> permutes (insertion_sort_func less_fn a b data) data.
Proof.
  intros Hb. apply for_range_permutes. intros i d Hi Hd. apply insert_down_ok. rewrite Hd. lia.
Qed.

Lemma sift_down_loop_ok fuel root hi first data :
  (hi < root + fuel)%nat -> (0 < fuel)%nat -> (first + hi <= length data)%nat ->
  permutes (sift_down_loop less_fn fuel root hi first data) data.
Proof.
  revert root data; induction fuel as [|fuel IH]; intros root data Hf Hr Hl; cbn [sift_down_loop].
  { lia. }
  destruct (Nat.leb_spec hi (2 * root + 1)) as [|Hc]; [by exists data|].
  assert (exists child, (if (2 * root + 1 + 1 <? hi)%nat then
      b ← less less_fn data (first + (2 * root + 1)) (first + (2 * root + 1) + 1);
      Ok (if (b : bool) then (2 * root + 1 + 1)%nat else (2 * root + 1)%nat) else Ok (2 * root + 1)%nat) = (@Ok Empty_set _ child)
      /\ (2 * root + 1 <= child < hi)%nat) as (child & -> & Hch).
  { destruct (Nat.ltb_spec (2 * root + 1 + 1) hi); [|eexists; split; [reflexivity|lia]].
    destruct (less_ok data (first + (2 * root + 1)) (first + (2 * root + 1) + 1)) as [b ->]; [lia..|].
    cbn. eexists. split; [reflexivity|]. destruct b; lia. }
  cbn [mbind result_bind].
  destruct (less_ok data (first + root) (first + child)) as [b ->]; [lia..|]. cbn [mbind result_bind].
  destruct (negb b); [by exists data|].
  apply permutes_bind; [apply swap_ok; lia|]. intros d Hd. apply IH; [lia|lia|]. by rewrite Hd.
Qed.

Lemma sift_down_func_ok lo hi first data : (first + hi <= length data)%nat -> (lo <= hi)%nat ->
  permutes (sift_down_func less_fn lo hi first data) data.
Proof.
  intros Hl Hlo. apply sift_down_loop_ok; lia.
Qed.

Lemma for_rev_ok n (f : nat -> list T -> io (list T)) data :
  (forall i d, (i < n)%nat -> d ≡ₚ data -> permutes (f i d) d) -> permutes (for_rev n f data) data.
Proof.
  revert data; induction n as [|n IH]; intros data Hf; cbn [for_rev]; [by exists data|].
  apply permutes_bind; [by apply Hf; [lia|]|]. intros d Hd. apply IH. intros i d' Hi Hd'. apply Hf; [lia|by rewrite Hd'].
Qed.

Lemma heap_sort_func_ok a b data : (a < b <= length data)%nat -> permutes (heap_sort_func less_fn a b data) data.
Proof.
  intros Hab. unfold heap_sort_func. rewrite usize_sub_ok by lia. cbn [mbind result_bind].
  rewrite usize_sub_ok by lia. cbn [mbind result_bind].
  apply permutes_bind.
  - apply for_rev_ok. intros i d Hi Hd. apply sift_down_func_ok; [rewrite Hd; lia|].
    pose proof (Nat.Div0.div_le_upper_bound (b - a - 1) 2 (b - a) ltac:(lia)).
    assert ((b - a - 1) / 2 < b - a)%nat by (apply Nat.Div0.div_lt_upper_bound; lia). lia.
  - intros d Hd. apply for_rev_ok. intros i d' Hi Hd'.
    apply permutes_bind; [apply swap_ok; rewrite Hd', Hd; lia|]. intros d2 Hd2.
    apply sift_down_func_ok; [rewrite Hd2, Hd', Hd; lia|lia].
Qed.

Lemma while_up_ok fuel (c : nat -> io bool) i j :
  (j + 1 < i + fuel)%nat -> (0 < fuel)%nat -> (forall x, (i <= x <= j)%nat -> exists b, c x = Ok b) ->
  exists i', while_up fuel c i j = Ok i' /\ (i <= i')%nat /\ (i' <= Nat.max i (j + 1))%nat.
Proof.
  revert i; induction fuel as [|fuel IH]; intros i Hf Hf0 Hc; cbn [while_up]; [lia|].
  destruct (Nat.leb_spec i j) as [Hle|]; [|exists i; split; [done|lia]].
  destruct (Hc i ltac:(lia)) as [b ->]. cbn. destruct b; [|exists i; split; [done|lia]].
  destruct (IH (i + 1)%nat) as (i' & E & ? & ?); [lia|lia|intros; apply Hc; lia|]. exists i'. split; [done|lia].
Qed.

Lemma while_down_ok fuel (c : nat -> io bool) i j :
  (j + 1 < i + fuel)%nat -> (0 < fuel)%nat -> (1 <= i)%nat -> (forall x, (i <= x <= j)%nat -> exists b, c x = Ok b) ->
  exists j', while_down fuel c i j = Ok j' /\ (j' <= j)%nat /\ (Nat.min j (i - 1) <= j')%nat.
Proof.
  revert j; induction fuel as [|fuel IH]; intros j Hf Hf0 Hi Hc; cbn [while_down]; [lia|].
  destruct (Nat.leb_spec i j) as [Hle|]; [|exists j; split; [done|lia]].
  destruct (Hc j ltac:(lia)) as [b ->]. cbn. destruct b; [|exists j; split; [done|lia]].
  rewrite usize_sub_ok by lia. cbn.
  destruct (decide (fuel = 0)%nat) as [->|].
  { exfalso. lia. }
  destruct (IH (j - 1)%nat) as (j' & E & ? & ?); [lia|lia|lia|intros; apply Hc; lia|]. exists j'. split; [done|lia].
Qed.

(** ** Partitions *)

(** The two scans of a partition round, from [i] and [j]. *)
Lemma scans_ok (c1 c2 : nat -> io bool) n a i j :
  (a + 1 <= i)%nat -> (i <= j + 2)%nat -> (a <= j < n)%nat ->
  (forall x, (a < x < n)%nat -> (exists b, c1 x = Ok b) /\ exists b, c2 x = Ok b) ->
  exists i' j', while_up (S n) c1 i j = Ok i' /\ while_down (S n) c2 i' j = Ok j' /\
    (i <= i')%nat /\ (i' <= Nat.max i (j + 1))%nat /\ (j' <= j)%nat /\ (Nat.min j (i' - 1) <= j')%nat.
Proof.
  intros Hi Hij Hj Hc.
  destruct (while_up_ok (S n) c1 i j) as (i' & E1 & ? & ?); [lia|lia|intros; apply Hc; lia|].
  destruct (while_down_ok (S n) c2 i' j) as (j' & E2 & ? & ?); [lia|lia|lia|intros; apply Hc; lia|].
  exists i', j'. split; [done|]. split; [done|lia].
Qed.

Lemma partition_loop_ok fuel a b i j data :
  (j + 2 < i + fuel)%nat -> (0 < fuel)%nat -> (a + 1 <= i)%nat -> (i <= j + 2)%nat -> (a <= j < b)%nat -> (b <= length data)%nat ->
  permutes_with (partition_loop less_fn fuel a i j data) data (fun m => (a <= m < b)%nat).
Proof.
  revert i j data; induction fuel as [|fuel IH]; intros i j data Hf Hf0 Hi Hij Hj Hb; cbn [partition_loop]; [lia|].
  destruct (scans_ok (fun i => less less_fn data i a) (fun j => not_io (less less_fn data j a)) (length data) a i j)
    as (i' & j' & E1 & E2 & ? & ? & ? & ?); [lia..| |].
  { intros x Hx. split; [apply less_ok; lia|apply not_less_ok; lia]. }
  rewrite E1. cbn [mbind result_bind]. rewrite E2. cbn [mbind result_bind].
  destruct (Nat.ltb_spec j' i').
  - destruct (swap_ok data j' a) as (d & -> & Hd); [lia..|]. cbn. exists j', d. split; [done|]. split; [done|lia].
  - destruct (swap_ok data i' j') as (d & -> & Hd); [lia..|]. cbn [mbind result_bind].
    rewrite usize_sub_ok by lia. cbn [mbind result_bind]. pose proof (Permutation_length Hd).
    eapply permutes_with_trans; [apply IH; lia|done].
Qed.

Lemma partition_func_ok a b pivot data : (a < b)%nat -> (a <= pivot < b)%nat -> (b <= length data)%nat -> (a + 2 <= b)%nat ->
  exists mid p d, partition_func less_fn a b pivot data = Ok (mid, p, d) /\ d ≡ₚ data /\ (a <= mid < b)%nat.
Proof.
  intros Hab Hp Hb H2. unfold partition_func.
  destruct (swap_ok data a pivot) as (d & -> & Hd); [lia..|]. cbn [mbind result_bind].
  pose proof (Permutation_length Hd) as Hl. rewrite usize_sub_ok by lia. cbn [mbind result_bind].
  destruct (scans_ok (fun i => less less_fn d i a) (fun j => not_io (less less_fn d j a)) (length d) a (a + 1) (b - 1))
    as (i' & j' & E1 & E2 & ? & ? & ? & ?); [lia..| |].
  { intros x Hx. split; [apply less_ok; lia|apply not_less_ok; lia]. }
  rewrite E1. cbn [mbind result_bind]. rewrite E2. cbn [mbind result_bind].
  destruct (Nat.ltb_spec j' i').
  - destruct (swap_ok d j' a) as (d2 & -> & Hd2); [lia..|]. cbn. do 3 eexists. split; [reflexivity|].
    split; [by rewrite Hd2|lia].
  - destruct (swap_ok d i' j') as (d2 & -> & Hd2); [lia..|]. cbn [mbind result_bind].
    rewrite usize_sub_ok by lia. cbn [mbind result_bind]. pose proof (Permutation_length Hd2).
    destruct (partition_loop_ok (S (length d2)) a b (i' + 1) (j' - 1) d2) as (m & d3 & -> & Hd3 & Hm); [lia..|].
    cbn. do 3 eexists. split; [reflexivity|]. split; [by rewrite Hd3, Hd2|done].
Qed.

Lemma partition_equal_loop_ok fuel a b i j data :
  (j + 2 < i + fuel)%nat -> (0 < fuel)%nat -> (a + 1 <= i <= b)%nat -> (i <= j + 2)%nat -> (a <= j < b)%nat -> (b <= length data)%nat ->
  permutes_with (partition_equal_loop less_fn fuel a i j data) data (fun m => (a < m <= b)%nat).
Proof.
  revert i j data; induction fuel as [|fuel IH]; intros i j data Hf Hf0 Hi Hij Hj Hb; cbn [partition_equal_loop]; [lia|].
  destruct (scans_ok (fun i => not_io (less less_fn data a i)) (fun j => less less_fn data a j) (length data) a i j)
    as (i' & j' & E1 & E2 & ? & ? & ? & ?); [lia..| |].
  { intros x Hx. split; [apply not_less_ok; lia|apply less_ok; lia]. }
  rewrite E1. cbn [mbind result_bind]. rewrite E2. cbn [mbind result_bind].
  destruct (Nat.ltb_spec j' i').
  - exists i', data. split; [done|]. split; [done|lia].
  - destruct (swap_ok data i' j') as (d & -> & Hd); [lia..|]. cbn [mbind result_bind].
    rewrite usize_sub_ok by lia. cbn [mbind result_bind]. pose proof (Permutation_length Hd).
    eapply permutes_with_trans; [apply IH; lia|done].
Qed.

Lemma partition_equal_func_ok a b pivot data : (a + 2 <= b)%nat -> (a <= pivot < b)%nat -> (b <= length data)%nat ->
  permutes_with (partition_equal_func less_fn a b pivot data) data (fun m => (a < m <= b)%nat).
Proof.
  intros Hab Hp Hb. unfold partition_equal_func.
  destruct (swap_ok data a pivot) as (d & -> & Hd); [lia..|]. cbn [mbind result_bind].
  pose proof (Permutation_length Hd) as Hl. rewrite usize_sub_ok by lia. cbn [mbind result_bind].
  eapply permutes_with_trans; [apply partition_equal_loop_ok; lia|done].
Qed.

(** Evaluates the first subtraction of the goal, which does not underflow. *)
Ltac sub_step :=
  match goal with
  | |- context [mbind _ (usize_sub ?x ?y)] => rewrite (usize_sub_ok x y) by lia; cbn [mbind result_bind]
  end.

(** ** The partial insertion sort *)

Lemma skip_sorted_ok fuel i b data : (b < i + fuel)%nat -> (1 <= i <= b)%nat -> (b <= length data)%nat ->
  exists i', skip_sorted less_fn fuel i b data = Ok i' /\ (i <= i' <= b)%nat.
Proof.
  revert i; induction fuel as [|fuel IH]; intros i Hf Hi Hb; cbn [skip_sorted]; [lia|].
  destruct (Nat.ltb_spec i b); [|exists i; split; [done|lia]].
  sub_step.
  destruct (less_ok data i (i - 1)) as [l ->]; [lia..|]. cbn [mbind result_bind].
  destruct (negb l); [|exists i; split; [done|lia]].
  destruct (IH (i + 1)%nat) as (i' & E & ?); [lia..|]. exists i'. split; [done|lia].
Qed.

Lemma shift_left_ok j data : (j < length data)%nat -> permutes (shift_left less_fn j data) data.
Proof.
  revert data; induction j as [|j IH]; intros data Hj; cbn [shift_left]; [by exists data|].
  destruct (less_ok data (S j) j) as [b ->]; [lia..|]. cbn [mbind result_bind]. destruct (negb b); [by exists data|].
  apply permutes_bind; [apply swap_ok; lia|]. intros d Hd. apply IH. rewrite Hd. lia.
Qed.

Lemma shift_right_ok n j data : (1 <= j)%nat -> (j + n <= length data)%nat -> permutes (shift_right less_fn n j data) data.
Proof.
  revert j data; induction n as [|n IH]; intros j data Hj Hl; cbn [shift_right]; [by exists data|].
  sub_step.
  destruct (less_ok data j (j - 1)) as [b ->]; [lia..|]. cbn [mbind result_bind]. destruct (negb b); [by exists data|].
  apply permutes_bind; [apply swap_ok; lia|]. intros d Hd. apply IH; [lia|]. rewrite Hd. lia.
Qed.

Lemma permutes_with_bind {A} (m : io (list T)) data (f : list T -> io (A * list T)) P :
  permutes m data -> (forall d, d ≡ₚ data -> permutes_with (f d) d P) -> permutes_with (d ← m; f d) data P.
Proof. intros (d & -> & Hd) Hf. cbn. eapply permutes_with_trans; [by apply Hf|done]. Qed.

Lemma partial_insertion_loop_ok steps a b i data : (a + 1 <= i <= b)%nat -> (b <= length data)%nat ->
  permutes_with (partial_insertion_loop less_fn steps a b i data) data (fun _ => True).
Proof.
  revert i data; induction steps as [|steps IH]; intros i data Hi Hb; cbn [partial_insertion_loop].
  { exists false, data. done. }
  destruct (skip_sorted_ok (S (length data)) i b data) as (i' & -> & Hi'); [lia..|]. cbn [mbind result_bind].
  destruct (Nat.eqb_spec i' b) as [|Hne]; [exists true, data; repeat split; done|].
  sub_step.
  destruct (b - a <? SHORTEST_SHIFTING)%nat; [exists false, data; repeat split; done|].
  sub_step.
  apply permutes_with_bind; [apply swap_ok; lia|]. intros d Hd. pose proof (Permutation_length Hd).
  sub_step.
  apply permutes_with_bind; [destruct (2 <=? i' - a)%nat; [apply shift_left_ok; lia|by exists d]|].
  intros d2 Hd2. pose proof (Permutation_length Hd2). sub_step.
  apply permutes_with_bind; [destruct (2 <=? b - i')%nat; [apply shift_right_ok; lia|by exists d2]|].
  intros d3 Hd3. pose proof (Permutation_length Hd3). apply IH; lia.
Qed.

(** ** Pivots and patterns *)

Lemma bits_len_spec n : (0 < n)%nat -> (n < 2 ^ bits_len n <= 2 * n)%nat.
Proof.
  intros Hn. unfold bits_len. rewrite (proj2 (Nat.eqb_neq _ _)) by lia.
  pose proof (Nat.log2_spec n Hn). rewrite Nat.pow_succ_r'. rewrite Nat.pow_succ_r' in *. lia.
Qed.

Lemma break_loop_ok n idx a length_ modulus random data :
  (0 < length_)%nat -> (modulus <= 2 * length_)%nat -> (0 < modulus)%nat -> (a + length_ <= length data)%nat ->
  (a <= idx)%nat -> (idx + n <= a + length_)%nat ->
  permutes (break_loop n idx a length_ modulus random data) data.
Proof.
  revert idx random data; induction n as [|n IH]; intros idx random data Hl Hm Hm0 Hd Hi Hn; cbn [break_loop]; [by exists data|].
  set (other := Z.to_nat _).
  assert (other < modulus)%nat as Ho.
  { subst other. assert (0 <= Z.land (xorshift_next random) (Z.of_nat modulus - 1) <= Z.of_nat modulus - 1)%Z; [|lia].
    split; [apply Z.land_nonneg; lia|]. rewrite Z.land_comm.
    apply Z.ldiff_le; [lia|]. apply Z.bits_inj'. intros k Hk.
    rewrite Z.ldiff_spec, Z.land_spec, Z.bits_0. destruct (Z.testbit _ k); [|done]. by rewrite andb_false_r. }
  assert (exists o, (if (length_ <=? other)%nat then usize_sub other length_ else Ok other) = Ok o /\ (o < length_)%nat)
    as (o & -> & Hol).
  { destruct (Nat.leb_spec length_ other); [|eexists; split; [reflexivity|lia]].
    rewrite usize_sub_ok by lia. eexists. split; [reflexivity|lia]. }
  cbn [mbind result_bind]. apply permutes_bind; [apply swap_ok; lia|]. intros d Hd'.
  pose proof (Permutation_length Hd'). apply IH; lia.
Qed.

Lemma break_patterns_func_ok a b data : (a <= b <= length data)%nat -> permutes (break_patterns_func a b data) data.
Proof.
  intros Hab. unfold break_patterns_func. sub_step.
  destruct (Nat.leb_spec 8 (b - a)); [|by exists data].
  pose proof (Nat.div_mod_eq (b - a) 4). pose proof (Nat.mod_upper_bound (b - a) 4 ltac:(lia)).
  sub_step.
  pose proof (bits_len_spec (b - a) ltac:(lia)). unfold next_power_of_two.
  apply break_loop_ok; lia.
Qed.

Lemma median_func_ok a b c swaps data n : (a < n)%nat -> (b < n)%nat -> (c < n)%nat -> (n <= length data)%nat ->
  exists m s, median_func less_fn a b c swaps data = Ok (m, s) /\ (m = a \/ m = b \/ m = c).
Proof.
  intros Ha Hb Hc Hn. unfold median_func, order2_func.
  destruct (less_ok data b a) as [l1 E1]; [lia..|]. rewrite E1. cbn [mbind result_bind].
  destruct l1; cbn [mbind result_bind].
  - destruct (less_ok data c a) as [l2 E2]; [lia..|]. rewrite E2. cbn [mbind result_bind].
    destruct l2; cbn [mbind result_bind].
    + destruct (less_ok data c b) as [l3 E3]; [lia..|]. rewrite E3. cbn. destruct l3; eauto 10.
    + destruct (less_ok data a b) as [l3 E3]; [lia..|]. rewrite E3. cbn. destruct l3; eauto 10.
  - destruct (less_ok data c b) as [l2 E2]; [lia..|]. rewrite E2. cbn [mbind result_bind].
    destruct l2; cbn [mbind result_bind].
    + destruct (less_ok data c a) as [l3 E3]; [lia..|]. rewrite E3. cbn. destruct l3; eauto 10.
    + destruct (less_ok data b a) as [l3 E3]; [lia..|]. rewrite E3. cbn. destruct l3; eauto 10.
Qed.

Lemma median_adjacent_func_ok a swaps data n : (1 <= a)%nat -> (a + 1 < n)%nat -> (n <= length data)%nat ->
  exists m s, median_adjacent_func less_fn a swaps data = Ok (m, s) /\ (a - 1 <= m <= a + 1)%nat.
Proof.
  intros Ha Hn Hl. unfold median_adjacent_func. sub_step.
  destruct (median_func_ok (a - 1) a (a + 1) swaps data n) as (m & s & -> & Hm); [lia..|]. exists m, s. split; [done|lia].
Qed.

Lemma choose_pivot_func_ok a b data : (a < b <= length data)%nat ->
  exists p h, choose_pivot_func less_fn a b data = Ok (p, h) /\ (a <= p < b)%nat.
Proof.
  intros Hab. unfold choose_pivot_func. sub_step.
  set (l := (b - a)%nat). pose proof (Nat.div_mod_eq l 4). pose proof (Nat.mod_upper_bound l 4 ltac:(lia)).
  destruct (Nat.leb_spec 8 l); cbn [mbind result_bind].
  2: { do 2 eexists. split; [reflexivity|lia]. }
  destruct (Nat.leb_spec SHORTEST_NINTHER l) as [Hs|Hs]; unfold SHORTEST_NINTHER in Hs; cbn [mbind result_bind].
  - destruct (median_adjacent_func_ok (a + l / 4) 0 data b) as (i & s1 & -> & Hi); [lia..|]. cbn [mbind result_bind].
    destruct (median_adjacent_func_ok (a + l / 4 * 2) s1 data b) as (j & s2 & -> & Hj); [lia..|]. cbn [mbind result_bind].
    destruct (median_adjacent_func_ok (a + l / 4 * 3) s2 data b) as (k & s3 & -> & Hk); [lia..|]. cbn [mbind result_bind].
    destruct (median_func_ok i j k s3 data b) as (m & s & -> & Hm); [lia..|]. cbn. do 2 eexists. split; [reflexivity|lia].
  - destruct (median_func_ok (a + l / 4) (a + l / 4 * 2) (a + l / 4 * 3) 0 data b) as (m & s & -> & Hm); [lia..|].
    cbn. do 2 eexists. split; [reflexivity|lia].
Qed.

Lemma reverse_loop_ok fuel i j data : (j < i + fuel)%nat -> (0 < fuel)%nat -> (j < length data)%nat ->
  permutes (reverse_loop fuel i j data) data.
Proof.
  revert i j data; induction fuel as [|fuel IH]; intros i j data Hf Hf0 Hj; cbn [reverse_loop]; [lia|].
  destruct (Nat.ltb_spec i j); [|by exists data].
  apply permutes_bind; [apply swap_ok; lia|]. intros d Hd. sub_step.
  pose proof (Permutation_length Hd). apply IH; lia.
Qed.

(** ** The whole sort *)

Lemma pdqsort_loop_ok fuel a b limit wb wp data :
  (a <= b <= length data)%nat -> (b - a < fuel)%nat -> permutes (pdqsort_loop less_fn fuel a b limit wb wp data) data.
Proof.
  revert a b limit wb wp data; induction fuel as [|fuel IH]; intros a b limit wb wp data Hab Hf; cbn [pdqsort_loop]; [lia|].
  sub_step.
  destruct (Nat.leb_spec (b - a) MAX_INSERTION) as [|Hlen]; [apply insertion_sort_func_ok; lia|].
  unfold MAX_INSERTION in Hlen.
  destruct (Nat.eqb_spec limit 0) as [|Hlim]; [apply heap_sort_func_ok; lia|].
  assert (exists l d, (if negb wb then data ← break_patterns_func a b data; l ← usize_sub limit 1; Ok (l, data)
      else Ok (limit, data)) = Ok (l, d) /\ d ≡ₚ data) as (limit' & d1 & -> & Hd1).
  { destruct wb; cbn [negb]; [by exists limit, data|].
    destruct (break_patterns_func_ok a b data) as (d & -> & Hd); [lia|]. cbn [mbind result_bind].
    rewrite usize_sub_ok by lia. cbn. by eexists _, d. }
  cbn [mbind result_bind]. pose proof (Permutation_length Hd1) as Hl1.
  destruct (choose_pivot_func_ok a b d1) as (pivot & hint & -> & Hp); [lia|]. cbn [mbind result_bind].
  assert (exists p h d, (if bool_decide (hint = HintDecreasing) then
      data ← reverse_range_func a b d1; e ← usize_sub b 1; o ← usize_sub pivot a; p ← usize_sub e o;
      Ok (p, HintIncreasing, data) else Ok (pivot, hint, d1)) = Ok (p, h, d) /\ d ≡ₚ d1 /\ (a <= p < b)%nat)
    as (pivot' & hint' & d2 & -> & Hd2 & Hp').
  { case_bool_decide; [|by exists pivot, hint, d1]. unfold reverse_range_func.
    sub_step.
    destruct (reverse_loop_ok (S b) a (b - 1) d1) as (d & -> & Hd); [lia..|]. cbn [mbind result_bind].
    sub_step. sub_step.
    do 3 eexists. split; [reflexivity|]. split; [done|lia]. }
  cbn [mbind result_bind]. pose proof (Permutation_length Hd2) as Hl2.
  assert (exists s d, (if wb && wp && bool_decide (hint' = HintIncreasing)
      then partial_insertion_sort_func less_fn a b d2 else Ok (false, d2)) = Ok (s, d) /\ d ≡ₚ d2)
    as (sorted & d3 & -> & Hd3).
  { destruct (wb && wp && _); [|by exists false, d2].
    destruct (partial_insertion_loop_ok MAX_STEPS a b (a + 1) d2) as (s & d & E & Hd & _); [lia..|].
    exists s, d. split; [exact E|done]. }
  cbn [mbind result_bind]. pose proof (Permutation_length Hd3) as Hl3.
  assert (d3 ≡ₚ data) as Hd by by rewrite Hd3, Hd2.
  destruct sorted; [by exists d3|].
  assert (exists e, (if (0 <? a)%nat then a' ← usize_sub a 1; not_io (less less_fn d3 a' pivot') else Ok false) = Ok e)
    as [equal ->].
  { destruct (Nat.ltb_spec 0 a); [|by eexists]. sub_step. apply not_less_ok; lia. }
  cbn [mbind result_bind]. apply (permutes_trans _ d3); [|done]. destruct equal.
  - destruct (partition_equal_func_ok a b pivot' d3) as (mid & d4 & -> & Hd4 & Hm); [lia..|]. cbn [mbind result_bind].
    pose proof (Permutation_length Hd4). eapply permutes_trans; [apply IH; lia|done].
  - destruct (partition_func_ok a b pivot' d3) as (mid & p & d4 & -> & Hd4 & Hm); [lia..|]. cbn [mbind result_bind].
    pose proof (Permutation_length Hd4). sub_step. sub_step.
    apply (permutes_trans _ d4); [|done]. destruct (mid - a <? b - mid)%nat.
    + apply permutes_bind; [apply IH; lia|]. intros d5 Hd5. pose proof (Permutation_length Hd5). apply IH; lia.
    + apply permutes_bind; [apply IH; lia|]. intros d5 Hd5. pose proof (Permutation_length Hd5). apply IH; lia.
Qed.

Lemma slice_permutes data : permutes (slice less_fn data) data.
Proof. apply pdqsort_loop_ok; lia. Qed.

(** ** Sorted input stays as it is *)

(** No element is smaller than one before it. *)
Definition ordered data : Prop :=
  forall i j x y, (i < j)%nat -> data !! i = Some x -> data !! j = Some y -> less_fn y x = false.

Lemma ordered_less data i j : ordered data -> (i < j)%nat -> (j < length data)%nat -> less less_fn data j i = Ok false.
Proof.
  intros Ho Hij Hj. unfold less. destruct (lookup_lt_is_Some_2 data j Hj) as [y Hy].
  destruct (lookup_lt_is_Some_2 data i) as [x Hx]; [lia|]. rewrite Hy, Hx. cbn. by rewrite (Ho i j x y).
Qed.

Lemma ordered_insertion a b data : ordered data -> (b <= length data)%nat -> insertion_sort_func less_fn a b data = Ok data.
Proof.
  intros Ho Hb. unfold insertion_sort_func. destruct (decide (a + 1 <= b)%nat) as [Hle|].
  - destruct (for_range_inv (fun _ d => d = data) (a + 1) b (fun i data => insert_down less_fn a i data) data Hle)
      as (d & -> & ->); [done| |done].
    intros i d Hi ->. exists data. split; [|done]. destruct i as [|i]; [done|]. cbn [insert_down].
    rewrite (proj2 (Nat.ltb_lt _ _)) by lia. by rewrite (ordered_less data i (S i)) by (done || lia).
  - unfold for_range. by replace (b - (a + 1))%nat with 0%nat by lia.
Qed.

Lemma ordered_skip fuel i b data : ordered data -> (b < i + fuel)%nat -> (1 <= i <= b)%nat -> (b <= length data)%nat ->
  skip_sorted less_fn fuel i b data = Ok b.
Proof.
  intros Ho. revert i; induction fuel as [|fuel IH]; intros i Hf Hi Hb; cbn [skip_sorted]; [lia|].
  destruct (Nat.ltb_spec i b); [|f_equal; lia].
  sub_step.
  rewrite (ordered_less data (i - 1) i) by (done || lia). cbn. apply IH; lia.
Qed.

Lemma ordered_median a b c swaps data : ordered data -> (a < b < c)%nat -> (c < length data)%nat ->
  median_func less_fn a b c swaps data = Ok (b, swaps).
Proof.
  intros Ho Hab Hc. unfold median_func, order2_func.
  rewrite (ordered_less data a b) by (done || lia). cbn.
  rewrite (ordered_less data b c) by (done || lia). cbn.
  rewrite (ordered_less data a b) by (done || lia). done.
Qed.

Lemma ordered_median_adjacent a swaps data : ordered data -> (1 <= a)%nat -> (a + 1 < length data)%nat ->
  median_adjacent_func less_fn a swaps data = Ok (a, swaps).
Proof. intros Ho Ha Hl. unfold median_adjacent_func. sub_step. apply ordered_median; (done || lia). Qed.

Lemma ordered_pivot a b data : ordered data -> (a + 13 <= b <= length data)%nat ->
  exists p, choose_pivot_func less_fn a b data = Ok (p, HintIncreasing).
Proof.
  intros Ho Hab. unfold choose_pivot_func. sub_step.
  set (l := (b - a)%nat). pose proof (Nat.div_mod_eq l 4). pose proof (Nat.mod_upper_bound l 4 ltac:(lia)).
  rewrite (proj2 (Nat.leb_le 8 l)) by lia.
  destruct (Nat.leb_spec SHORTEST_NINTHER l) as [Hs|Hs]; unfold SHORTEST_NINTHER in Hs; cbn [mbind result_bind].
  - rewrite (ordered_median_adjacent (a + l / 4)) by (done || lia). cbn [mbind result_bind].
    rewrite (ordered_median_adjacent (a + l / 4 * 2)) by (done || lia). cbn [mbind result_bind].
    rewrite (ordered_median_adjacent (a + l / 4 * 3)) by (done || lia). cbn [mbind result_bind].
    rewrite ordered_median by (done || lia). cbn. eauto.
  - rewrite ordered_median by (done || lia). cbn. eauto.
Qed.

Lemma slice_ordered data : ordered data -> slice less_fn data = Ok data.
Proof.
  intros Ho. unfold slice, pdqsort_func. cbn [pdqsort_loop]. sub_step.
  destruct (Nat.leb_spec (length data - 0) MAX_INSERTION) as [|Hlen]; [by apply ordered_insertion|].
  unfold MAX_INSERTION in Hlen.
  assert ((bits_len (length data) =? 0)%nat = false) as ->.
  { apply Nat.eqb_neq. unfold bits_len. by rewrite (proj2 (Nat.eqb_neq _ _)) by lia. }
  cbn [negb mbind result_bind].
  destruct (ordered_pivot 0 (length data) data Ho) as [p ->]; [lia|]. cbn [mbind result_bind].
  rewrite bool_decide_false by done. cbn [mbind result_bind]. rewrite bool_decide_true by done. cbn [andb].
  unfold partial_insertion_sort_func. cbn [partial_insertion_loop MAX_STEPS].
  rewrite ordered_skip by (done || lia). cbn [mbind result_bind]. by rewrite Nat.eqb_refl.
Qed.

End GoSortSpec.
