(* ===== verification/AutoTune.v ===== *)
(** The detector of the peer's shard counts: [autotune.rs].

    A ring of the latest 258 samples; [find_period] sorts a copy of it by
    wrapping sequence number ([GoSort]) and measures the first complete pulse of
    the bit asked for.  An index outside the arrays is [Panic]; the second half
    proves there is none, and that a detected period is within the ring. *)
From stdpp Require Import base list.
From Stdlib Require Import ZArith Lia.
From S2P Require Import Prelude Word GoSort GoSortSpec.

Definition MAX_AUTO_TUNE_SAMPLES : nat := 258.

Record Pulse := mkPulse { p_bit : bool; p_seq : Z }.

Definition PULSE_ZERO : Pulse := mkPulse false 0.

Record AutoTune := mkAutoTune {
  at_pulses : list Pulse;
  at_sort_cache : list Pulse;
  at_head : nat;
  at_tail : nat;
  at_count : nat;
}.

#[export] Instance eta_auto_tune : EtaRecord AutoTune := fun t =>
  mkAutoTune (at_pulses t) (at_sort_cache t) (at_head t) (at_tail t) (at_count t).

Definition auto_tune_new : AutoTune := {|
  at_pulses := replicate MAX_AUTO_TUNE_SAMPLES PULSE_ZERO;
  at_sort_cache := replicate MAX_AUTO_TUNE_SAMPLES PULSE_ZERO;
  at_head := 0;
  at_tail := 0;
  at_count := 0;
|}.

(** [AutoTune::sample]. *)
Definition sample (bit : bool) (seq : Z) (t : AutoTune) : io AutoTune :=
  if at_tail t <? length (at_pulses t) then
    let t := t <| at_pulses := <[at_tail t := mkPulse bit seq]> (at_pulses t) |> in
    let t := t <| at_tail := (at_tail t + 1) mod MAX_AUTO_TUNE_SAMPLES |> in
    Ok (if at_count t <? MAX_AUTO_TUNE_SAMPLES then t <| at_count := at_count t + 1 |>
        else t <| at_head := (at_head t + 1) mod MAX_AUTO_TUNE_SAMPLES |>)
  else Panic.

(** The comparison handed to the sort. *)
Definition pulse_less (a b : Pulse) : bool := (_itimediff (p_seq a) (p_seq b) <? 0)%Z.

(** "Copy elements from ring buffer to sortCache". *)
Definition copy_samples (t : AutoTune) : io (list Pulse) :=
  for_range 0 (at_count t) (fun i cache =>
    let idx := (at_head t + i) mod MAX_AUTO_TUNE_SAMPLES in
    p ← unwrap (at_pulses t !! idx);
    if i <? length cache then Ok (<[i := p]> cache) else Panic) (at_sort_cache t).

(** What an edge search finds: the samples are not consecutive ([return -1]), no
    edge, or the index of the edge. *)
Inductive Edge := EdgeBroken | EdgeNone | EdgeAt (idx : nat).

(** The loops over [sorted.iter().enumerate().skip(idx)]: [rising] searches the
    edge where the signal becomes [bit], its absence the one where it stops. *)
Fixpoint find_edge (rising bit : bool) (last_pulse : Pulse) (idx : nat) (sorted : list Pulse) : Edge :=
  match sorted with
  | [] => EdgeNone
  | p :: sorted =>
      if (wadd32 (p_seq last_pulse) 1 =? p_seq p)%Z then
        if (if rising then negb (Bool.eqb (p_bit last_pulse) bit) && Bool.eqb (p_bit p) bit
            else Bool.eqb (p_bit last_pulse) bit && negb (Bool.eqb (p_bit p) bit))
        then EdgeAt idx
        else find_edge rising bit p (S idx) sorted
      else EdgeBroken
  end.

(** The width of the pulse in the sorted samples. *)
Definition pulse_width (bit : bool) (sorted : list Pulse) : io Z :=
  first ← unwrap (sorted !! 0);
  match find_edge true bit first 1 (drop 1 sorted) with
  | EdgeBroken | EdgeNone => Ok (-1)%Z
  | EdgeAt left_edge =>
      last_pulse ← unwrap (sorted !! left_edge);
      match find_edge false bit last_pulse (left_edge + 1) (drop (left_edge + 1) sorted) with
      | EdgeBroken | EdgeNone => Ok (-1)%Z
      | EdgeAt right_edge => width ← usize_sub right_edge left_edge; Ok (Z.of_nat width)
      end
  end.

(** [AutoTune::find_period]. *)
Definition find_period (bit : bool) (t : AutoTune) : io (Z * AutoTune) :=
  if at_count t <? 3 then Ok ((-1)%Z, t)
  else
    cache ← copy_samples t;
    sorted ← GoSort.slice pulse_less (take (at_count t) cache);
    let t := t <| at_sort_cache := sorted ++ drop (at_count t) cache |> in
    width ← pulse_width bit sorted;
    Ok (width, t).

(** A (3, 2) stream, whose packets arrive out of order. *)
Example find_period_example :
  match foldl (fun m s => t ← m; sample (snd s) (fst s) t) (Ok auto_tune_new)
    [(4, false); (5, true); (3, false); (7, true); (6, true); (8, false); (9, false)]%Z with
  | Ok t =>
      match find_period true t, find_period false t with
      | Ok (data, _), Ok (parity, _) => data = 3%Z /\ parity = (-1)%Z
      | _, _ => False
      end
  | _ => False
  end.
Proof. vm_compute. split; reflexivity. Qed.

(** The shard-count detector: its ring, and what it detects.

    [at_window] is the ring's contents in order of arrival; [sample_ok] and
    [find_period_ok] are the operations in its terms, without a panic.
    [pulse_width_train] measures a pulse between two edges. *)
#[local] Arguments Nat.modulo : simpl never.
#[local] Arguments MAX_AUTO_TUNE_SAMPLES : simpl never.

(** The last [n] elements of a list. *)
Definition lastn {A} (n : nat) (l : list A) : list A := drop (length l - n) l.

Record at_ok (t : AutoTune) : Prop := {
  ato_pulses : length (at_pulses t) = MAX_AUTO_TUNE_SAMPLES;
  ato_cache : length (at_sort_cache t) = MAX_AUTO_TUNE_SAMPLES;
  ato_head : at_head t < MAX_AUTO_TUNE_SAMPLES;
  ato_count : at_count t <= MAX_AUTO_TUNE_SAMPLES;
  ato_tail : at_tail t = (at_head t + at_count t) mod MAX_AUTO_TUNE_SAMPLES;
}.

(** The samples, oldest first. *)
Definition at_window (t : AutoTune) : list Pulse :=
  (fun i => nth ((at_head t + i) mod MAX_AUTO_TUNE_SAMPLES) (at_pulses t) PULSE_ZERO) <$> seq 0 (at_count t).

Lemma auto_tune_new_ok : at_ok auto_tune_new.
Proof. constructor; cbn [auto_tune_new at_pulses at_sort_cache at_head at_count at_tail]; rewrite ?length_replicate; unfold MAX_AUTO_TUNE_SAMPLES; lia || done. Qed.

Lemma auto_tune_new_window : at_window auto_tune_new = [].
Proof. done. Qed.

Lemma length_at_window t : length (at_window t) = at_count t.
Proof. unfold at_window. by rewrite length_fmap, length_seq. Qed.

Lemma at_window_lookup t i : i < at_count t ->
  at_window t !! i = Some (nth ((at_head t + i) mod MAX_AUTO_TUNE_SAMPLES) (at_pulses t) PULSE_ZERO).
Proof. intros Hi. unfold at_window. by rewrite list_lookup_fmap, lookup_seq_lt. Qed.

(** Different positions of a ring that is not too long are different slots. *)
Lemma ring_slot_ne n h i j : i < j -> j < i + n -> (h + i) mod n <> (h + j) mod n.
Proof.
  intros Hi Hj E. pose proof (Nat.div_mod_eq (h + i) n). pose proof (Nat.div_mod_eq (h + j) n).
  assert (h + j = h + i + n * ((h + j) / n - (h + i) / n)) as E' by nia.
  destruct ((h + j) / n - (h + i) / n) as [|q]; nia.
Qed.

Lemma at_window_eq t l : length l = at_count t ->
  (forall i x, l !! i = Some x -> nth ((at_head t + i) mod MAX_AUTO_TUNE_SAMPLES) (at_pulses t) PULSE_ZERO = x) ->
  at_window t = l.
Proof.
  intros Hl Hx. apply list_eq. intros i. destruct (l !! i) as [x|] eqn:E.
  - pose proof (lookup_lt_Some _ _ _ E). rewrite at_window_lookup by lia. f_equal. by apply Hx.
  - apply lookup_ge_None. rewrite length_at_window. apply lookup_ge_None in E. lia.
Qed.

Lemma sample_ok bit seq t : at_ok t ->
  exists t', sample bit seq t = Ok t' /\ at_ok t' /\
    at_window t' = lastn MAX_AUTO_TUNE_SAMPLES (at_window t ++ [mkPulse bit seq]).
Proof.
  intros [Hp Hc Hh Hn Ht]. unfold sample.
  assert (MAX_AUTO_TUNE_SAMPLES <> 0) as HM by (unfold MAX_AUTO_TUNE_SAMPLES; lia).
  assert (at_tail t < MAX_AUTO_TUNE_SAMPLES) as Htl by (rewrite Ht; by apply Nat.mod_upper_bound).
  rewrite (proj2 (Nat.ltb_lt _ _)) by lia. eexists. split; [done|].
  match goal with |- context [if ?b then _ else _] => change b with (at_count t <? MAX_AUTO_TUNE_SAMPLES) end.
  assert (forall i x, (at_window t ++ [mkPulse bit seq]) !! i = Some x -> at_count t < i + MAX_AUTO_TUNE_SAMPLES ->
    nth ((at_head t + i) mod MAX_AUTO_TUNE_SAMPLES) (<[at_tail t := mkPulse bit seq]> (at_pulses t)) PULSE_ZERO = x) as Hw.
  { intros i x Hx Hi. rewrite nth_lookup. destruct (decide (i < at_count t)) as [Hlt|Hge].
    - rewrite lookup_app_l in Hx by (rewrite length_at_window; lia). rewrite at_window_lookup in Hx by done.
      injection Hx as <-. rewrite Ht, list_lookup_insert_ne, <- nth_lookup; [done|].
      intros E. symmetry in E. revert E. apply ring_slot_ne; lia.
    - rewrite lookup_app_r, length_at_window in Hx by (rewrite length_at_window; lia).
      assert (i = at_count t) as -> by (apply lookup_lt_Some in Hx; cbn in Hx; lia).
      rewrite Nat.sub_diag in Hx. injection Hx as <-. rewrite <- Ht, list_lookup_insert_eq by lia. done. }
  unfold lastn. rewrite length_app, length_at_window. cbn [length].
  destruct (Nat.ltb_spec (at_count t) MAX_AUTO_TUNE_SAMPLES) as [Hlt|Hge].
  - split.
    + constructor; cbn; rewrite ?length_insert; try lia.
      rewrite Ht, Nat.Div0.add_mod_idemp_l by done. f_equal. lia.
    + replace (at_count t + 1 - MAX_AUTO_TUNE_SAMPLES) with 0 by lia. rewrite drop_0.
      apply at_window_eq; [by rewrite length_app, length_at_window|]. intros i x Hx. apply Hw; [done|lia].
  - assert (at_count t = MAX_AUTO_TUNE_SAMPLES) as En by lia. split.
    + constructor; cbn; rewrite ?length_insert; try lia; [by apply Nat.mod_upper_bound|].
      rewrite Ht, !Nat.Div0.add_mod_idemp_l by done. f_equal. lia.
    + replace (at_count t + 1 - MAX_AUTO_TUNE_SAMPLES) with 1 by lia.
      apply at_window_eq; [rewrite length_drop, length_app, length_at_window; cbn; lia|].
      intros i x Hx. rewrite lookup_drop in Hx. cbn [at_head at_pulses].
      cbn. rewrite Nat.Div0.add_mod_idemp_l by done. rewrite <- (Hw (1 + i) x Hx) by lia. f_equal. f_equal. lia.
Qed.

(** "Copy elements from ring buffer to sortCache". *)
Lemma copy_samples_ok t : at_ok t ->
  copy_samples t = Ok (at_window t ++ drop (at_count t) (at_sort_cache t)).
Proof.
  intros [Hp Hc Hh Hn Ht]. unfold copy_samples.
  destruct (for_range_inv (fun i cache => cache = take i (at_window t) ++ drop i (at_sort_cache t)) 0 (at_count t)
    (fun i cache => p ← unwrap (at_pulses t !! ((at_head t + i) mod MAX_AUTO_TUNE_SAMPLES));
       if i <? length cache then @Ok Empty_set _ (<[i := p]> cache) else Panic) (at_sort_cache t))
    as (cache & -> & ->); [lia|done| |by rewrite take_ge by (rewrite length_at_window; lia)].
  intros i cache Hi ->. 
  destruct (lookup_lt_is_Some_2 (at_pulses t) ((at_head t + i) mod MAX_AUTO_TUNE_SAMPLES)) as [p Ep].
  { rewrite Hp. apply Nat.mod_upper_bound. unfold MAX_AUTO_TUNE_SAMPLES. lia. }
  rewrite Ep. cbn [unwrap mbind result_bind].
  pose proof (length_at_window t) as Hlw.
  rewrite length_app, length_take, length_drop, Nat.min_l, (proj2 (Nat.ltb_lt _ _)) by lia.
  eexists. split; [done|].
  assert (at_window t !! i = Some p) as Ew by (rewrite at_window_lookup, (nth_lookup_Some _ _ _ _ Ep) by lia; done).
  rewrite insert_app_r_alt by (rewrite length_take; lia). rewrite length_take, Nat.min_l, Nat.sub_diag by lia.
  rewrite Nat.add_1_r, (take_S_r _ _ p) by done. rewrite <- app_assoc. f_equal.
  destruct (drop i (at_sort_cache t)) as [|y l] eqn:Ed.
  { apply (f_equal length) in Ed. rewrite length_drop in Ed. cbn in Ed. lia. }
  cbn. f_equal. rewrite <- Nat.add_1_r, <- drop_drop, Ed. done.
Qed.

(** ** Edges *)

(** An edge found is inside the samples searched. *)
Lemma find_edge_range rising bit : forall sorted last idx e,
  find_edge rising bit last idx sorted = EdgeAt e -> idx <= e < idx + length sorted.
Proof.
  induction sorted as [|p sorted IH]; intros last idx e; cbn [find_edge length]; [done|].
  destruct (_ =? _)%Z; [|done]. destruct (if rising then _ else _).
  - intros [= <-]. lia.
  - intros E. apply IH in E. lia.
Qed.

Lemma pulse_width_ok bit sorted : 0 < length sorted ->
  exists w, pulse_width bit sorted = Ok w /\ (w = -1 \/ 0 < w < Z.of_nat (length sorted))%Z.
Proof.
  intros Hl. unfold pulse_width. destruct (nonempty_cons sorted Hl) as (first & rest & ->).
  cbn [lookup list_lookup unwrap mbind result_bind drop]. rewrite drop_0.
  destruct (find_edge true bit first 1 rest) as [| |l] eqn:El; [eexists; split; [reflexivity|by left]..|].
  apply find_edge_range in El. destruct (lookup_lt_is_Some_2 (first :: rest) l) as [last Elast]; [cbn; lia|].
  rewrite Elast. cbn [unwrap mbind result_bind].
  destruct (find_edge false bit last (l + 1) _) as [| |r] eqn:Er; [eexists; split; [reflexivity|by left]..|].
  apply find_edge_range in Er. rewrite length_drop in Er. cbn [length] in Er.
  unfold usize_sub. rewrite (proj2 (Nat.leb_le _ _)) by lia. cbn [mbind result_bind].
  eexists. split; [done|]. right. cbn [length]. lia.
Qed.

(** [find_period] never panics, whatever the samples are; it leaves the samples
    as they are. *)
Lemma find_period_ok bit t : at_ok t ->
  exists w t', find_period bit t = Ok (w, t') /\ at_ok t' /\ at_window t' = at_window t /\
    (w = -1 \/ 0 < w < 258)%Z /\
    (3 <= at_count t -> exists sorted, GoSort.slice pulse_less (at_window t) = Ok sorted /\ pulse_width bit sorted = Ok w).
Proof.
  intros Hok. unfold find_period. destruct (Nat.ltb_spec (at_count t) 3) as [Hlt|Hge].
  { exists (-1)%Z, t. split; [done|]. split; [done|]. split; [done|]. split; [by left|lia]. }
  rewrite copy_samples_ok by done. cbn [mbind result_bind].
  rewrite take_app_length' by (symmetry; apply length_at_window). rewrite drop_app_length' by (symmetry; apply length_at_window).
  destruct (slice_permutes pulse_less (at_window t)) as (sorted & Es & Hperm). rewrite Es. cbn [mbind result_bind].
  apply Permutation_length in Hperm. rewrite length_at_window in Hperm.
  destruct (pulse_width_ok bit sorted) as (w & Ew & Hw); [lia|]. rewrite Ew. cbn [mbind result_bind].
  destruct Hok as [Hp Hc Hh Hn Ht]. eexists w, _. split; [done|]. split; [|split; [done|split]].
  - constructor; cbn; try done. rewrite length_app, length_drop. lia.
  - unfold MAX_AUTO_TUNE_SAMPLES in Hn. lia.
  - intros _. by exists sorted.
Qed.
