(* ===== verification/Fec.v ===== *)
(** The FEC encoder and decoder of a session: [fec.rs].

    A packet is its bytes; [buf[a..b].copy_from_slice] is [copy_at], an index out
    of range is [Panic].  The statistics counters are threaded through the
    operations that update them.  The RS shard of a packet is the region from its
    size field to the end, zero-padded to the longest packet of the group. *)
From stdpp Require Import base list gmap.
From Stdlib Require Import ZArith Lia.
From S2P Require Import Prelude Word Env Galois Matrix Codec GoSort AutoTune.
Local Open Scope Z_scope.

Definition FEC_HEADER_SIZE : nat := 6%nat.
Definition FEC_HEADER_SIZE_PLUS2 : nat := (FEC_HEADER_SIZE + 2)%nat.
Definition TYPE_DATA : Z := 241.
Definition TYPE_PARITY : Z := 242.
Definition TYPE_OOB : Z := 243.
Definition MAX_SHARD_SETS : Z := 3.
Definition OOB_SEQID : Z := 4294967295.
Definition MAX_FEC_ENCODE_LATENCY : Z := 500.

(** [fec.rs:Error]. *)
Inductive FecError :=
| ECodec (e : RsError)
| PacketTooShort (len min : nat)
| PacketTooLarge (len max : nat).

Abbreviation fec := (result FecError).

(** [?] on a result of the codec, and on one that cannot fail. *)
Definition of_rs {A} (m : rs A) : fec A :=
  match m with Ok a => Ok a | Err e => Err (ECodec e) | Panic => Panic end.
Definition of_io {E A} (m : io A) : result E A :=
  match m with Ok a => Ok a | Err e => match e with end | Panic => Panic end.

(** [dst[at_..at_ + src.len()].copy_from_slice(src)]. *)
Definition copy_at {E} (at_ : nat) (src dst : list Z) : result E (list Z) :=
  if (at_ + length src <=? length dst)%nat
  then Ok (take at_ dst ++ src ++ drop (at_ + length src) dst) else Panic.

(** [&mut b[at_..]] handed to [f]. *)
Definition with_tail {E A} (at_ : nat) (f : list Z -> result E (list Z * A)) (b : list Z) : result E (list Z * A) :=
  if (at_ <=? length b)%nat then r ← f (drop at_ b); Ok (take at_ b ++ fst r, snd r) else Panic.

(** ** The encoder *)

Record FecEncoder := mkFecEncoder {
  fe_data_shards : nat;
  fe_parity_shards : nat;
  fe_shard_size : nat;
  fe_paws : Z;
  fe_next : Z;
  fe_shard_count : nat;
  fe_max_size : nat;
  fe_header_offset : nat;
  fe_payload_offset : nat;
  fe_shard_cache : list (list Z);
  fe_shard_len : list nat;
  fe_ts_latest_packet : Z;
  fe_codec : Codec;
}.

#[export] Instance eta_fec_encoder : EtaRecord FecEncoder := fun e =>
  mkFecEncoder (fe_data_shards e) (fe_parity_shards e) (fe_shard_size e) (fe_paws e) (fe_next e)
    (fe_shard_count e) (fe_max_size e) (fe_header_offset e) (fe_payload_offset e)
    (fe_shard_cache e) (fe_shard_len e) (fe_ts_latest_packet e) (fe_codec e).

(** The parity shards of one group, views of [size] bytes into the shard cache. *)
Record ParityShards := mkParityShards { ps_shards : list (list Z); ps_size : nat }.

Definition parity_none : ParityShards := mkParityShards [] 0.
Definition parity_len (p : ParityShards) : nat := length (ps_shards p).
Definition parity_is_empty (p : ParityShards) : bool := (parity_len p =? 0)%nat.
Definition parity_get (p : ParityShards) (k : nat) : option (list Z) := take (ps_size p) <$> (ps_shards p !! k).
(** [iter]: what the iterator yields. *)
Definition parity_iter (p : ParityShards) : list (list Z) := take (ps_size p) <$> ps_shards p.

(** [paws]: the largest multiple of [shard_size] that fits into a [u32]. *)
Definition paws (shard_size : nat) : Z := 4294967295 / Z.of_nat shard_size * Z.of_nat shard_size.

Definition i64_min : Z := -9223372036854775808.
(** [saturating_sub] on [i64]. *)
Definition i64_sat_sub (a b : Z) : Z := Z.max i64_min (Z.min i64_max (a - b)).

(** [FecEncoder::new]; [Ok None] is FEC disabled.  [payload_offset] saturates in
    the source, at a size no packet has. *)
Definition fec_encoder_new (data_shards parity_shards : Z) (offset : nat) : fec (option FecEncoder) :=
  if (data_shards <=? 0) || (parity_shards <=? 0) then Ok None
  else
    let data_shards := Z.to_nat data_shards in
    let parity_shards := Z.to_nat parity_shards in
    codec ← of_rs (codec_new data_shards parity_shards);
    let shard_size := (data_shards + parity_shards)%nat in
    Ok (Some {|
      fe_data_shards := data_shards;
      fe_parity_shards := parity_shards;
      fe_shard_size := shard_size;
      fe_paws := paws shard_size;
      fe_next := 0;
      fe_shard_count := 0;
      fe_max_size := 0;
      fe_header_offset := offset;
      fe_payload_offset := offset + FEC_HEADER_SIZE;
      fe_shard_cache := replicate shard_size (replicate MTU_LIMIT 0);
      fe_shard_len := replicate shard_size MTU_LIMIT;
      fe_ts_latest_packet := i64_min / 2;
      fe_codec := codec;
    |}).

(** [seal_data], [seal_parity]: the sealed header and the next seqid. *)
Definition seal (type next paws : Z) (data : list Z) : fec (list Z * Z) :=
  data ← copy_at 0 (le_bytes 4 next) data;
  data ← copy_at 4 (le_bytes 2 type) data;
  Ok (data, wadd32 next 1 mod paws).
Definition seal_data := seal TYPE_DATA.
Definition seal_parity := seal TYPE_PARITY.

(** [seal_oob]. *)
Definition seal_oob (data : list Z) : fec (list Z * ()) :=
  data ← copy_at 0 (le_bytes 4 OOB_SEQID) data;
  data ← copy_at 4 (le_bytes 2 TYPE_OOB) data;
  Ok (data, ()).

(** [skip_parity]. *)
Definition skip_parity (e : FecEncoder) : FecEncoder :=
  e <| fe_next := wadd32 (fe_next e) (Z.of_nat (fe_parity_shards e)) mod fe_paws e |>.

(** "Clear the tail of each datashard to make them equal-sized". *)
Definition clear_tails (data_shards max_size : nat) (shard_len : list nat) (cache : list (list Z)) : fec (list (list Z)) :=
  for_range 0 data_shards (fun i cache =>
    slen ← unwrap (shard_len !! i);
    if (slen <? max_size)%nat then
      shard ← unwrap (cache !! i);
      shard ← copy_at slen (replicate (max_size - slen) 0) shard;
      Ok (<[i := shard]> cache)
    else Ok cache) cache.

(** "Construct equal-sized slices with stripped header", and the shards with the
    slices the codec has written. *)
Definition stripped (payload_offset max_size : nat) (cache : list (list Z)) : fec (list (list Z)) :=
  foldr (fun shard acc => s ← of_rs (Codec.slice payload_offset max_size shard); ss ← acc; Ok (s :: ss)) (Ok []) cache.
Definition unstripped (payload_offset max_size : nat) (coded cache : list (list Z)) : list (list Z) :=
  zip_with (fun region shard => take payload_offset shard ++ region ++ drop max_size shard) coded cache.

(** The parity shards are sealed one after the other. *)
Definition seal_parities (max_size : nat) (e : FecEncoder) : fec FecEncoder :=
  for_range (fe_data_shards e) (fe_shard_size e) (fun k e =>
    shard ← unwrap (fe_shard_cache e !! k);
    sealed ← with_tail (fe_header_offset e) (seal_parity (fe_next e) (fe_paws e)) shard;
    if (k <? length (fe_shard_len e))%nat then
      Ok (e <| fe_shard_cache := <[k := fst sealed]> (fe_shard_cache e) |>
            <| fe_next := snd sealed |>
            <| fe_shard_len := <[k := max_size]> (fe_shard_len e) |>)
    else Panic) e.

(** The Reed-Solomon code of a complete group: whether there are parity shards. *)
Definition generate_parity (e : FecEncoder) (snmp : Snmp) : fec (bool * FecEncoder * Snmp) :=
  let max_size := fe_max_size e in
  cache ← clear_tails (fe_data_shards e) max_size (fe_shard_len e) (fe_shard_cache e);
  regions ← stripped (fe_payload_offset e) max_size cache;
  match Codec.encode (fe_codec e) regions with
  | Ok coded =>
      e ← seal_parities max_size
            (e <| fe_shard_cache := unstripped (fe_payload_offset e) max_size coded cache |>);
      Ok (true, e, snmp)
  | Err _ =>
      Ok (false, skip_parity (e <| fe_shard_cache := cache |>), snmp <| fec_errs := fetch_add (fec_errs snmp) 1 |>)
  | Panic => Panic
  end.

(** [FecEncoder::encode]: the parity shards, the sealed packet, the encoder. *)
Definition encode (b : list Z) (rto now_ms : Z) (e : FecEncoder) (snmp : Snmp)
    : fec (ParityShards * list Z * FecEncoder * Snmp) :=
  let min := (fe_payload_offset e + 2)%nat in
  if (length b <? min)%nat then Err (PacketTooShort (length b) min)
  else if (MTU_LIMIT <? length b)%nat then Err (PacketTooLarge (length b) MTU_LIMIT)
  else
    sealed ← with_tail (fe_header_offset e) (seal_data (fe_next e) (fe_paws e)) b;
    let e := e <| fe_next := snd sealed |> in
    let size := u16 (zlen (fst sealed) - Z.of_nat (fe_payload_offset e)) in
    b ← copy_at (fe_payload_offset e) (le_bytes 2 size) (fst sealed);
    let sz := length b in
    let slot := fe_shard_count e in
    shard ← unwrap (fe_shard_cache e !! slot);
    shard ← copy_at (fe_payload_offset e) (drop (fe_payload_offset e) b) shard;
    let e := e <| fe_shard_len := <[slot := sz]> (fe_shard_len e) |>
               <| fe_shard_cache := <[slot := shard]> (fe_shard_cache e) |>
               <| fe_shard_count := (slot + 1)%nat |> in
    let e := if (fe_max_size e <? sz)%nat then e <| fe_max_size := sz |> else e in
    let max_size := fe_max_size e in
    r ← (if (fe_shard_count e =? fe_data_shards e)%nat then
           r ← (if i64_sat_sub now_ms (fe_ts_latest_packet e) <? rto then generate_parity e snmp
                else Ok (false, skip_parity e, snmp));
           let '(ps, e, snmp) := r in
           Ok (ps, e <| fe_shard_count := 0%nat |> <| fe_max_size := 0%nat |>, snmp)
         else Ok (false, e, snmp));
    let '(ps, e, snmp) := r in
    let e := e <| fe_ts_latest_packet := now_ms |> in
    Ok (if (ps : bool) then mkParityShards (drop (fe_data_shards e) (fe_shard_cache e)) max_size else parity_none,
        b, e, snmp).

(** [FecEncoder::encode_oob]. *)
Definition encode_oob (b : list Z) (e : FecEncoder) : fec (list Z) :=
  let min := (fe_payload_offset e + 2)%nat in
  if (length b <? min)%nat then Err (PacketTooShort (length b) min)
  else
    sealed ← with_tail (fe_header_offset e) seal_oob b;
    let size := u16 (zlen (fst sealed) - Z.of_nat (fe_payload_offset e)) in
    copy_at (fe_payload_offset e) (le_bytes 2 size) (fst sealed).

(** ** The decoder *)

(** [fec_seqid] and [fec_flag]; [b[i]] out of range is [Panic]. *)
Definition fec_seqid (b : list Z) : io Z := if (4 <=? length b)%nat then Ok (le_val (take 4 b)) else Panic.
Definition fec_flag (b : list Z) : io Z := if (6 <=? length b)%nat then Ok (le_val (take 2 (drop 4 b))) else Panic.

(** [ShardHeap]: a stack of packets, and the set of their sequence numbers. *)
Record ShardHeap := mkShardHeap { sp_elements : list (list Z); sp_marks : gset Z }.

Definition shard_heap_default : ShardHeap := mkShardHeap [] ∅.
Definition shard_heap_len (h : ShardHeap) : nat := length (sp_elements h).
Definition shard_heap_push (pkt : list Z) (h : ShardHeap) : io ShardHeap :=
  seqid ← fec_seqid pkt;
  Ok (mkShardHeap (sp_elements h ++ [pkt]) ({[seqid]} ∪ sp_marks h)).
Definition shard_heap_pop (h : ShardHeap) : io (option (list Z) * ShardHeap) :=
  match last (sp_elements h) with
  | None => Ok (None, h)
  | Some x =>
      seqid ← fec_seqid x;
      Ok (Some x, mkShardHeap (take (length (sp_elements h) - 1) (sp_elements h)) (sp_marks h ∖ {[seqid]}))
  end.
Definition shard_heap_has (sn : Z) (h : ShardHeap) : bool := bool_decide (sn ∈ sp_marks h).

(** [DecodeShard]: the RS shard is [buf[start..]], and [ShardBuf] for it. *)
Record DecodeShard := mkDecodeShard { ds_buf : list Z; ds_start : nat }.

Definition decode_shard_default : DecodeShard := mkDecodeShard [] 0.
Definition shard_view (s : DecodeShard) : list Z := drop (ds_start s) (ds_buf s).
(** The slot after the codec has given it [len] bytes ([set_shard_len]) and
    written [v] there ([shard_mut]); the codec touches the shards it changes. *)
Definition set_shard (s : DecodeShard) (v : list Z) : DecodeShard :=
  if bool_decide (v = shard_view s) then s
  else mkDecodeShard (resize (ds_start s) 0 (ds_buf s) ++ v) (ds_start s).

Record FecDecoder := mkFecDecoder {
  fd_data_shards : nat;
  fd_parity_shards : nat;
  fd_shard_size : nat;
  fd_shard_set : gmap Z ShardHeap;
  fd_paws : Z;
  fd_newest_shard_id : Z;
  fd_decode_cache : list DecodeShard;
  fd_flag_cache : list bool;
  fd_codec : Codec;
  fd_auto_tune : AutoTune;
  fd_should_tune : bool;
}.

#[export] Instance eta_fec_decoder : EtaRecord FecDecoder := fun d =>
  mkFecDecoder (fd_data_shards d) (fd_parity_shards d) (fd_shard_size d) (fd_shard_set d) (fd_paws d)
    (fd_newest_shard_id d) (fd_decode_cache d) (fd_flag_cache d) (fd_codec d) (fd_auto_tune d) (fd_should_tune d).

Definition new_decode_cache (shard_size : nat) : list DecodeShard := replicate shard_size decode_shard_default.

(** [FecDecoder::new]. *)
Definition fec_decoder_new (data_shards parity_shards : Z) : io (option FecDecoder) :=
  if (data_shards <=? 0) || (parity_shards <=? 0) then Ok None
  else if 256 <? data_shards + parity_shards then Ok None
  else
    let data_shards := Z.to_nat data_shards in
    let parity_shards := Z.to_nat parity_shards in
    let shard_size := (data_shards + parity_shards)%nat in
    match codec_new data_shards parity_shards with
    | Ok codec =>
        Ok (Some {|
          fd_data_shards := data_shards;
          fd_parity_shards := parity_shards;
          fd_shard_size := shard_size;
          fd_shard_set := ∅;
          fd_paws := paws shard_size;
          fd_newest_shard_id := 0;
          fd_decode_cache := new_decode_cache shard_size;
          fd_flag_cache := replicate shard_size false;
          fd_codec := codec;
          fd_auto_tune := auto_tune_new;
          fd_should_tune := false;
        |})
    | Err _ => Ok None
    | Panic => Panic
    end.

(** [discard_shards]. *)
Definition keep_shard (newest limit shard_size : Z) (shard_id : Z) : bool :=
  _itimediff newest (wmul32 shard_id shard_size) <=? limit.

Definition discard_shards (d : FecDecoder) (snmp : Snmp) : FecDecoder * Snmp :=
  let shard_size := Z.of_nat (fd_shard_size d) in
  let newest := wmul32 (fd_newest_shard_id d) shard_size in
  let limit := MAX_SHARD_SETS * shard_size in
  let d := d <| fd_shard_set :=
    filter (fun kv => Is_true (keep_shard newest limit shard_size (fst kv))) (fd_shard_set d) |> in
  (d, snmp <| fec_shard_set := Z.of_nat (size (fd_shard_set d)) |>).

(** [get_shard_id]. *)
Definition get_shard_id (seqid : Z) (d : FecDecoder) : Z := seqid / Z.of_nat (fd_shard_size d).

(** The packet types the parameters expect. *)
Definition type_mismatch (in_seqid in_flag : Z) (d : FecDecoder) : bool :=
  if in_seqid mod Z.of_nat (fd_shard_size d) <? Z.of_nat (fd_data_shards d)
  then negb (in_flag =? TYPE_DATA) else negb (in_flag =? TYPE_PARITY).

(** "Perform auto-tuning if the decoder is out of sync". *)
Definition tune (d : FecDecoder) : io FecDecoder :=
  r ← find_period true (fd_auto_tune d);
  let '(auto_ds, auto_tune) := r in
  r ← find_period false auto_tune;
  let '(auto_ps, auto_tune) := r in
  let d := d <| fd_auto_tune := auto_tune |> in
  if (0 <? auto_ds) && (0 <? auto_ps) && (auto_ds + auto_ps <? 256) then
    let auto_ds := Z.to_nat auto_ds in
    let auto_ps := Z.to_nat auto_ps in
    if negb (auto_ds =? fd_data_shards d)%nat || negb (auto_ps =? fd_parity_shards d)%nat then
      match codec_new auto_ds auto_ps with
      | Ok codec =>
          let shard_size := (auto_ds + auto_ps)%nat in
          Ok (d <| fd_data_shards := auto_ds |> <| fd_parity_shards := auto_ps |> <| fd_shard_size := shard_size |>
                <| fd_shard_set := ∅ |> <| fd_codec := codec |>
                <| fd_decode_cache := new_decode_cache shard_size |>
                <| fd_flag_cache := replicate shard_size false |>
                <| fd_paws := paws shard_size |> <| fd_should_tune := false |>)
      | Err _ => Ok d
      | Panic => Panic
      end
    else Ok (d <| fd_should_tune := false |>)
  else Ok d.

(** "Pop all shards from the heap and fill into the decode cache". *)
Record Filled := mkFilled { fl_num_data : nat; fl_maxlen : nat; fl_cache : list DecodeShard; fl_flags : list bool }.

#[export] Instance eta_filled : EtaRecord Filled := fun f =>
  mkFilled (fl_num_data f) (fl_maxlen f) (fl_cache f) (fl_flags f).

Definition fill_shard (shard_size : nat) (pkt : list Z) (f : Filled) : io Filled :=
  seqid ← fec_seqid pkt;
  flag ← fec_flag pkt;
  dlen ← usize_sub (length pkt) FEC_HEADER_SIZE;
  let idx := Z.to_nat (seqid mod Z.of_nat shard_size) in
  if (idx <? length (fl_cache f))%nat && (idx <? length (fl_flags f))%nat then
    let f := f <| fl_cache := <[idx := mkDecodeShard pkt FEC_HEADER_SIZE]> (fl_cache f) |>
               <| fl_flags := <[idx := true]> (fl_flags f) |> in
    let f := if flag =? TYPE_DATA then f <| fl_num_data := (fl_num_data f + 1)%nat |> else f in
    Ok (if (fl_maxlen f <? dlen)%nat then f <| fl_maxlen := dlen |> else f)
  else Panic.

Fixpoint fill_cache (fuel shard_size : nat) (shard : ShardHeap) (f : Filled) : io (ShardHeap * Filled) :=
  match fuel with
  | O => Panic
  | S fuel =>
      r ← shard_heap_pop shard;
      match r with
      | (None, shard) => Ok (shard, f)
      | (Some pkt, shard) => f ← fill_shard shard_size pkt f; fill_cache fuel shard_size shard f
      end
  end.

(** "Fill 0 into the tail of each shard", with room for the missing data shards. *)
Definition equalize (data_shards maxlen : nat) (cache : list DecodeShard) (flags : list bool) : list DecodeShard :=
  imap (fun k sp =>
    let '(s, present) := sp in
    if (present : bool) then mkDecodeShard (resize (ds_start s + maxlen) 0 (ds_buf s)) (ds_start s)
    else if (k <? data_shards)%nat then mkDecodeShard [] 0 else s) (zip cache flags) ++ drop (length flags) cache.

(** The buffers of the missing data shards. *)
Definition missing_bufs (data_shards : nat) (cache : list DecodeShard) (flags : list bool) : list (list Z) :=
  (fun sp => ds_buf (fst sp)) <$> filter (fun sp => Is_true (negb (snd sp))) (take data_shards (zip cache flags)).

(** "Case 2: some data shards are missing, try to recover". *)
Definition recover (f : Filled) (d : FecDecoder) (snmp : Snmp) : io (list (list Z) * FecDecoder * Snmp) :=
  let cache := equalize (fd_data_shards d) (fl_maxlen f) (fl_cache f) (fl_flags f) in
  let '(r, views, codec) := reconstruct_data (shard_view <$> cache) (fd_codec d) in
  let d := d <| fd_codec := codec |> in
  r ← (match r with
       | Ok _ => Ok (missing_bufs (fd_data_shards d) (zip_with set_shard cache views) (fl_flags f), snmp)
       | Err _ => Ok ([], snmp <| fec_errs := fetch_add (fec_errs snmp) 1 |>)
       | Panic => Panic
       end);
  let '(recovered, snmp) := r in
  Ok (recovered, d, snmp <| fec_recovered := fetch_add (fec_recovered snmp) (zlen recovered) |>).

(** "Try to recover data if we have enough shards". *)
Definition decode_group (shard_id : Z) (shard : ShardHeap) (d : FecDecoder) (snmp : Snmp)
    : io (list (list Z) * FecDecoder * Snmp) :=
  let d := d <| fd_decode_cache := (fun _ => decode_shard_default) <$> fd_decode_cache d |>
             <| fd_flag_cache := (fun _ => false) <$> fd_flag_cache d |> in
  r ← fill_cache (S (shard_heap_len shard)) (fd_shard_size d) shard
        (mkFilled 0 0 (fd_decode_cache d) (fd_flag_cache d));
  let '(shard, f) := r in
  let d := d <| fd_shard_set := <[shard_id := shard]> (fd_shard_set d) |> <| fd_flag_cache := fl_flags f |> in
  r ← (if (fl_num_data f =? fd_data_shards d)%nat
       then Ok ([], d, snmp <| fec_full_shard_set := fetch_add (fec_full_shard_set snmp) 1 |>)
       else recover f d snmp);
  let '(recovered, d, snmp) := r in
  Ok (recovered, d <| fd_decode_cache := (fun _ => decode_shard_default) <$> fd_decode_cache d |>, snmp).

(** A packet of the right type joins its group. *)
Definition decode_packet (in_seqid in_flag : Z) (pkt : list Z) (d : FecDecoder) (snmp : Snmp)
    : io (list (list Z) * FecDecoder * Snmp) :=
  let shard_size := Z.of_nat (fd_shard_size d) in
  let shard_id := get_shard_id in_seqid d in
  let '(shard, snmp) :=
    match fd_shard_set d !! shard_id with
    | Some shard => (shard, snmp)
    | None => (shard_heap_default, snmp <| fec_shard_set := fetch_add (fec_shard_set snmp) 1 |>)
    end in
  let d := d <| fd_shard_set := <[shard_id := shard]> (fd_shard_set d) |> in
  if shard_heap_has in_seqid shard then Ok ([], d, snmp)
  else
    let snmp := if in_flag =? TYPE_PARITY
                then snmp <| fec_parity_shards := fetch_add (fec_parity_shards snmp) 1 |> else snmp in
    shard ← shard_heap_push pkt shard;
    let d := d <| fd_shard_set := <[shard_id := shard]> (fd_shard_set d) |> in
    r ← (if (fd_data_shards d <=? shard_heap_len shard)%nat then decode_group shard_id shard d snmp
         else Ok ([], d, snmp));
    let '(recovered, d, snmp) := r in
    let '(d, snmp) :=
      if 0 <? _itimediff (wmul32 shard_id shard_size) (wmul32 (fd_newest_shard_id d) shard_size)
      then (d <| fd_newest_shard_id := shard_id |>, snmp <| fec_shard_min := shard_id |>) else (d, snmp) in
    let '(d, snmp) := discard_shards d snmp in
    Ok (recovered, d, snmp).

(** [FecDecoder::decode]. *)
Definition decode (pkt : list Z) (d : FecDecoder) (snmp : Snmp) : io (list (list Z) * FecDecoder * Snmp) :=
  if (length pkt <? FEC_HEADER_SIZE)%nat then Ok ([], d, snmp)
  else
    in_seqid ← fec_seqid pkt;
    in_flag ← fec_flag pkt;
    auto_tune ← sample (in_flag =? TYPE_DATA) in_seqid (fd_auto_tune d);
    let d := d <| fd_auto_tune := auto_tune |> in
    if fd_paws d <=? in_seqid then Ok ([], d, snmp)
    else
      let d := if type_mismatch in_seqid in_flag d then d <| fd_should_tune := true |> else d in
      if fd_should_tune d then d ← tune d; Ok ([], d, snmp)
      else decode_packet in_seqid in_flag pkt d snmp.
