(* ===== verification/FecLayout.v ===== *)
(** The bytes of FEC packets, and lemmas on the byte operations of [fec.rs].

    [fec_packet] is a packet from its FEC header on; [shard_region] the RS shard
    of a data packet; [padded] the shards of a group made equal-sized. *)
From stdpp Require Import base list.
From Stdlib Require Import ZArith Lia.
From S2P Require Import Prelude Word Env Galois GfVector Matrix Codec CodecSpec GoSort AutoTune Fec.

#[global] Arguments MTU_LIMIT : simpl never.

(** A packet after the room for the crypto header. *)
Definition fec_packet (seqid type : Z) (region : list Z) : list Z :=
  le_bytes 4 seqid ++ le_bytes 2 type ++ region.

(** The size field and the KCP bytes. *)
Definition shard_region (payload : list Z) : list Z :=
  le_bytes 2 (Z.of_nat (2 + length payload)) ++ payload.

(** What the session does with a recovered data shard
    (the contract of [decode]): the KCP bytes, if the size field is sane. *)
Definition region_payload (r : list Z) : option (list Z) :=
  let sz := Z.to_nat (le_val (take 2 r)) in
  if ((2 <=? sz) && (sz <=? length r))%nat then Some (take (sz - 2) (drop 2 r)) else None.

(** The shards of a group, equal-sized. *)
Definition longest (regions : list (list Z)) : nat := max_list (length <$> regions).
Definition padded (n : nat) (regions : list (list Z)) : list (list Z) := resize n 0%Z <$> regions.

(** Splits the bounds checks of [fec.rs] into arithmetic. *)
Ltac lens := rewrite ?length_app, ?length_take, ?length_drop, ?length_le_bytes, ?length_replicate, ?length_insert, ?length_fmap; cbn [length].

Lemma bytes_app a b : bytes a -> bytes b -> bytes (a ++ b).
Proof. apply Forall_app_2. Qed.
Lemma bytes_take n a : bytes a -> bytes (take n a).
Proof. apply Forall_take. Qed.
Lemma bytes_drop n a : bytes a -> bytes (drop n a).
Proof. apply Forall_drop. Qed.
Lemma bytes_zeros n : bytes (replicate n 0%Z).
Proof. apply Forall_replicate. unfold is_u8. lia. Qed.
Lemma bytes_resize n a : bytes a -> bytes (resize n 0%Z a).
Proof. intros. rewrite resize_spec. apply bytes_app; [by apply bytes_take|apply bytes_zeros]. Qed.
Create HintDb bytes.
#[export] Hint Resolve bytes_app bytes_take bytes_drop bytes_zeros bytes_resize le_bytes_bytes : bytes.

Lemma shard_region_bytes payload : bytes payload -> bytes (shard_region payload).
Proof. unfold shard_region. auto with bytes. Qed.

Lemma length_shard_region payload : length (shard_region payload) = (2 + length payload)%nat.
Proof. unfold shard_region. by lens. Qed.

Lemma length_fec_packet seqid type region : length (fec_packet seqid type region) = (6 + length region)%nat.
Proof. unfold fec_packet. lens. lia. Qed.

Lemma fec_packet_bytes seqid type region : bytes region -> bytes (fec_packet seqid type region).
Proof. unfold fec_packet. auto with bytes. Qed.

(** The region a data packet carries, padded or not, gives back its payload. *)
Lemma region_payload_padded n payload :
  (zlen payload < 65534)%Z -> (2 + length payload <= n)%nat ->
  region_payload (resize n 0%Z (shard_region payload)) = Some payload.
Proof.
  unfold zlen. intros Hl Hn. unfold region_payload. rewrite resize_ge by (rewrite length_shard_region; lia).
  unfold shard_region. rewrite <- !app_assoc.
  rewrite take_app_length' by (by rewrite length_le_bytes).
  rewrite drop_app_length' by (by rewrite length_le_bytes).
  rewrite le_val_le_bytes, Z.mod_small, Nat2Z.id by (change (256 ^ Z.of_nat 2)%Z with 65536%Z; lia). lens.
  rewrite (proj2 (Nat.leb_le _ _)), (proj2 (Nat.leb_le _ _)) by lia. cbn [andb].
  f_equal. apply take_app_length'. lia.
Qed.

Lemma region_payload_region payload : (zlen payload < 65534)%Z ->
  region_payload (shard_region payload) = Some payload.
Proof.
  intros Hl. rewrite <- (resize_all_alt (shard_region payload) (2 + length payload) 0%Z) at 1
    by (by rewrite length_shard_region). apply region_payload_padded; lia.
Qed.

(** ** The byte operations *)

Lemma copy_at_ok {E} at_ src dst : at_ + length src <= length dst ->
  copy_at at_ src dst = @Ok E _ (take at_ dst ++ src ++ drop (at_ + length src) dst).
Proof. intros H. unfold copy_at. by rewrite (proj2 (Nat.leb_le _ _)). Qed.

Lemma seal_ok type next paws data : 6 <= length data ->
  seal type next paws data =
    Ok (le_bytes 4 next ++ le_bytes 2 type ++ drop 6 data, Z.modulo (wadd32 next 1) paws).
Proof.
  intros H. unfold seal. rewrite copy_at_ok by (rewrite length_le_bytes; lia). cbn [mbind result_bind].
  rewrite take_0, length_le_bytes, Nat.add_0_l. cbn [app]. rewrite copy_at_ok by (lens; lia). cbn [mbind result_bind].
  rewrite take_app_length' by (by rewrite length_le_bytes). rewrite length_le_bytes.
  rewrite drop_app_ge by (rewrite !length_le_bytes; lia). rewrite !length_le_bytes, drop_drop. done.
Qed.

Lemma with_tail_seal type next paws at_ b : at_ + 6 <= length b ->
  with_tail at_ (seal type next paws) b =
    Ok (take at_ b ++ fec_packet next type (drop (at_ + 6) b), Z.modulo (wadd32 next 1) paws).
Proof.
  intros H. unfold with_tail. rewrite (proj2 (Nat.leb_le _ _)) by lia.
  rewrite seal_ok by (lens; lia). cbn [mbind result_bind fst snd]. by rewrite drop_drop.
Qed.

(** Writing the size field of a sealed packet. *)
Lemma put_size_field {E} next type ho size b : length size = 2 -> ho + 8 <= length b ->
  copy_at (ho + 6) size (take ho b ++ fec_packet next type (drop (ho + 6) b)) =
  @Ok E _ (take ho b ++ fec_packet next type (size ++ drop (ho + 6 + 2) b)).
Proof.
  intros Hs Hl. rewrite copy_at_ok by (rewrite length_app, length_fec_packet; lens; lia). f_equal.
  assert (forall d, take ho b ++ fec_packet next type d = (take ho b ++ fec_packet next type []) ++ d) as Ea.
  { intros d. unfold fec_packet. rewrite app_nil_r, <- !app_assoc. done. }
  assert (length (take ho b ++ fec_packet next type []) = ho + 6) as El by (rewrite length_app, length_fec_packet; lens; lia).
  rewrite (Ea (drop (ho + 6) b)), take_app_length' by done.
  rewrite drop_app_ge by (rewrite El; lia). rewrite drop_drop, El, Hs.
  rewrite (Ea (size ++ _)). by replace (ho + 6 + (ho + 6 + 2 - (ho + 6))) with (ho + 6 + 2) by lia.
Qed.

(** ** Reading a packet *)

Lemma fec_seqid_packet seqid type region : is_u32 seqid -> fec_seqid (fec_packet seqid type region) = Ok seqid.
Proof.
  intros H. unfold fec_seqid. rewrite length_fec_packet. cbn [Nat.leb Nat.add].
  unfold fec_packet. rewrite take_app_length' by (by rewrite length_le_bytes).
  rewrite le_val_le_bytes. f_equal. apply Z.mod_small. unfold is_u32 in H. lia.
Qed.

Lemma fec_flag_packet seqid type region : is_u16 type -> fec_flag (fec_packet seqid type region) = Ok type.
Proof.
  intros H. unfold fec_flag. rewrite length_fec_packet. cbn [Nat.leb Nat.add].
  unfold fec_packet. rewrite drop_app_length' by (by rewrite length_le_bytes).
  rewrite take_app_length' by (by rewrite length_le_bytes).
  rewrite le_val_le_bytes. f_equal. apply Z.mod_small. unfold is_u16 in H. lia.
Qed.

Lemma drop_fec_packet seqid type region : drop 6 (fec_packet seqid type region) = region.
Proof. unfold fec_packet. rewrite app_assoc. apply drop_app_length'. by lens. Qed.

(** Every packet of at least six bytes is one. *)
Lemma packet_parse pkt : bytes pkt -> 6 <= length pkt ->
  exists seqid type, fec_seqid pkt = Ok seqid /\ fec_flag pkt = Ok type /\ is_u32 seqid /\ is_u16 type /\
    pkt = fec_packet seqid type (drop 6 pkt).
Proof.
  intros Hb Hl. unfold fec_seqid, fec_flag. rewrite !(proj2 (Nat.leb_le _ _)) by lia.
  pose proof (le_val_range (take 4 pkt) ltac:(auto with bytes)) as H4.
  pose proof (le_val_range (take 2 (drop 4 pkt)) ltac:(auto with bytes)) as H2.
  rewrite length_take, Nat.min_l in H4 by lia. rewrite length_take, length_drop, Nat.min_l in H2 by lia.
  eexists _, _. split; [done|]. split; [done|]. split; [exact H4|]. split; [exact H2|].
  unfold fec_packet.
  assert (le_bytes 4 (le_val (take 4 pkt)) = take 4 pkt) as ->.
  { rewrite <- (le_bytes_le_val (take 4 pkt)) at 2 by auto with bytes. by rewrite length_take, Nat.min_l by lia. }
  assert (le_bytes 2 (le_val (take 2 (drop 4 pkt))) = take 2 (drop 4 pkt)) as ->.
  { rewrite <- (le_bytes_le_val (take 2 (drop 4 pkt))) at 2 by auto with bytes.
    by rewrite length_take, length_drop, Nat.min_l by lia. }
  change 6 with (4 + 2) at 1. rewrite <- drop_drop, take_drop. symmetry. apply take_drop.
Qed.

(** ** Groups *)

Lemma longest_le regions r : r ∈ regions -> length r <= longest regions.
Proof. intros H. apply max_list_elem_of_le, list_elem_of_fmap. by exists r. Qed.

Lemma longest_snoc regions r : longest (regions ++ [r]) = Nat.max (longest regions) (length r).
Proof. unfold longest. rewrite fmap_app. induction (length <$> regions) as [|n l IH]; cbn in *; lia. Qed.

Lemma longest_pos regions n : regions <> [] -> Forall (fun r => n <= length r) regions -> n <= longest regions.
Proof. intros Hne Hr. destruct Hr as [|r l Hr _]; [done|]. etrans; [exact Hr|]. apply longest_le. left. Qed.

Lemma padded_ok n regions : Forall bytes regions -> rows_ok n (padded n regions).
Proof.
  intros Hr. apply Forall_fmap. eapply Forall_impl; [exact Hr|]. intros r Hb. cbn.
  split; [by apply bytes_resize|apply length_resize].
Qed.
