(* ===== verification/FecEncoderSpec.v ===== *)
(** What the FEC encoder produces.

    [enc_ok e g regs]: the encoder is in group [g], whose data shards so far are
    [regs].  [fec_encode_spec] is the functional behaviour of [encode]: the packet
    sealed with the next sequence number, and on the last packet of a group the
    parity shards, which are those of the code word of the padded data shards. *)
From stdpp Require Import base list gmap.
From Stdlib Require Import ZArith Lia.
From S2P Require Import Prelude Word Env Galois GfVector Matrix Codec CodecSpec RsDecode GoSort AutoTune Fec.
From S2P Require Import FecLayout.

(** ** The largest multiple of the group size *)

Lemma paws_spec ss : 0 < ss <= 256 ->
  exists q, paws ss = (q * Z.of_nat ss)%Z /\ (256 < q)%Z /\ (paws ss <= 4294967295)%Z.
Proof.
  intros Hs. exists (4294967295 / Z.of_nat ss)%Z. unfold paws. split; [done|].
  pose proof (Z.div_mod 4294967295 (Z.of_nat ss) ltac:(lia)). pose proof (Z.mod_pos_bound 4294967295 (Z.of_nat ss) ltac:(lia)).
  nia.
Qed.

(** The parameters an encoder keeps for life. *)
Definition same_encoder (e e' : FecEncoder) : Prop :=
  fe_data_shards e' = fe_data_shards e /\ fe_parity_shards e' = fe_parity_shards e /\
  fe_shard_size e' = fe_shard_size e /\ fe_paws e' = fe_paws e /\
  fe_header_offset e' = fe_header_offset e /\ fe_payload_offset e' = fe_payload_offset e /\
  fe_codec e' = fe_codec e.

Lemma same_encoder_trans e1 e2 e3 : same_encoder e1 e2 -> same_encoder e2 e3 -> same_encoder e1 e3.
Proof. unfold same_encoder. intuition congruence. Qed.

(** Parameters that fit together. *)
Record enc_params (e : FecEncoder) : Prop := {
  ep_codec : codec_ok (fe_codec e);
  ep_data : data_shards (fe_codec e) = fe_data_shards e;
  ep_parity : parity_shards (fe_codec e) = fe_parity_shards e;
  ep_size : fe_shard_size e = fe_data_shards e + fe_parity_shards e;
  ep_pos : 0 < fe_data_shards e /\ 0 < fe_parity_shards e /\ fe_shard_size e <= 256;
  ep_paws : fe_paws e = paws (fe_shard_size e);
  ep_offset : fe_payload_offset e = fe_header_offset e + 6;
}.

Lemma same_encoder_params e e' : same_encoder e e' -> enc_params e -> enc_params e'.
Proof. intros (E1 & E2 & E3 & E4 & E5 & E6 & E7) []. constructor; rewrite ?E1, ?E2, ?E3, ?E4, ?E5, ?E6, ?E7; done. Qed.

(** The shard cache: slots of [MTU_LIMIT] bytes. *)
Record enc_cache (e : FecEncoder) : Prop := {
  ec_cache : length (fe_shard_cache e) = fe_shard_size e;
  ec_slots : Forall (fun s => bytes s /\ length s = MTU_LIMIT) (fe_shard_cache e);
  ec_len : length (fe_shard_len e) = fe_shard_size e;
}.

(** The data shards collected. *)
Definition collected (e : FecEncoder) (regs : list (list Z)) : Prop :=
  forall k r, regs !! k = Some r ->
    bytes r /\ 2 <= length r /\ fe_payload_offset e + length r <= MTU_LIMIT /\
    fe_shard_len e !! k = Some (fe_payload_offset e + length r) /\
    exists s, fe_shard_cache e !! k = Some s /\ take (length r) (drop (fe_payload_offset e) s) = r.

Record enc_ok (e : FecEncoder) (g : Z) (regs : list (list Z)) : Prop := {
  eo_params : enc_params e;
  eo_cache : enc_cache e;
  eo_group : (0 <= g /\ (g + 1) * Z.of_nat (fe_shard_size e) <= fe_paws e)%Z;
  eo_next : fe_next e = (g * Z.of_nat (fe_shard_size e) + zlen regs)%Z;
  eo_count : fe_shard_count e = length regs;
  eo_room : length regs < fe_data_shards e;
  eo_max : regs <> [] -> fe_max_size e = fe_payload_offset e + longest regs;
  eo_max0 : regs = [] -> fe_max_size e = 0;
  eo_regs : collected e regs;
}.

(** Sequence numbers of a group do not wrap. *)
Lemma group_seqid ss g k : 0 < ss <= 256 -> (0 <= g)%Z -> ((g + 1) * Z.of_nat ss <= paws ss)%Z -> (0 <= k < Z.of_nat ss)%Z ->
  is_u32 (g * Z.of_nat ss + k) /\ (g * Z.of_nat ss + k < paws ss)%Z /\
  ((g * Z.of_nat ss + k) mod Z.of_nat ss = k)%Z /\ ((g * Z.of_nat ss + k) / Z.of_nat ss = g)%Z.
Proof.
  intros Hs Hg Hp Hk. destruct (paws_spec ss Hs) as (q & Eq & Hq & Hmax). unfold is_u32. split; [nia|]. split; [nia|].
  split.
  - rewrite Z.add_comm, Z.mod_add by lia. apply Z.mod_small. lia.
  - rewrite Z.add_comm, Z.div_add by lia. rewrite Z.div_small by lia. lia.
Qed.

(** The number after [k] more than the group's first, for the last one that of
    the next group. *)
Lemma next_seqid ss g k d : 0 < ss <= 256 -> (0 <= g)%Z -> ((g + 1) * Z.of_nat ss <= paws ss)%Z ->
  (0 <= k)%Z -> (0 <= d)%Z -> (k + d <= Z.of_nat ss)%Z ->
  (wadd32 (g * Z.of_nat ss + k) d mod paws ss = (g * Z.of_nat ss + k + d) mod paws ss)%Z /\
  ((k + d < Z.of_nat ss)%Z -> ((g * Z.of_nat ss + k + d) mod paws ss = g * Z.of_nat ss + k + d)%Z).
Proof.
  intros Hs Hg Hp Hk Hd Hkd. destruct (paws_spec ss Hs) as (q & Eq & Hq & Hmax). unfold wadd32. split.
  - f_equal. apply u32_id. unfold is_u32. nia.
  - intros Hlt. apply Z.mod_small. nia.
Qed.

(** ** Making the shards equal-sized *)

Definition slots_ok (cache : list (list Z)) : Prop := Forall (fun s => bytes s /\ length s = MTU_LIMIT) cache.

Lemma slots_insert k s cache : slots_ok cache -> bytes s -> length s = MTU_LIMIT -> slots_ok (<[k := s]> cache).
Proof. intros Hc Hb Hl. by apply Forall_insert. Qed.

(** Shard [k] of the cache holds region [r], made [n] bytes long if [cleared]. *)
Definition slot_holds (po n : nat) (cache : list (list Z)) (k : nat) (r : list Z) (cleared : Prop) : Prop :=
  exists s, cache !! k = Some s /\ take (length r) (drop po s) = r /\ (cleared -> take n (drop po s) = resize n 0%Z r).

Lemma clear_slot po n r s : take (length r) (drop po s) = r -> po + length r <= length s -> po + n <= length s -> length r <= n ->
  let s' := take (po + length r) s ++ replicate (po + n - (po + length r)) 0%Z ++ drop (po + length r + (po + n - (po + length r))) s in
  length s' = length s /\ take (length r) (drop po s') = r /\ take n (drop po s') = resize n 0%Z r.
Proof.
  intros Hr Hl Hn Hle s'.
  assert (drop po s' = r ++ replicate (n - length r) 0%Z ++ drop (po + n) s) as Ed.
  { unfold s'. rewrite drop_app_le by (lens; lia). rewrite <- take_drop_commute, Hr.
    replace (po + n - (po + length r)) with (n - length r) by lia. by replace (po + length r + (n - length r)) with (po + n) by lia. }
  split; [unfold s'; lens; lia|]. rewrite Ed. split.
  - by apply take_app_length'.
  - rewrite resize_ge by lia. rewrite app_assoc. apply take_app_length'. lens. lia.
Qed.

Lemma clear_tails_ok e regs : enc_cache e -> collected e regs -> length regs = fe_data_shards e ->
  fe_payload_offset e + longest regs <= MTU_LIMIT ->
  exists cache, clear_tails (fe_data_shards e) (fe_payload_offset e + longest regs) (fe_shard_len e) (fe_shard_cache e) = Ok cache /\
    length cache = fe_shard_size e /\ slots_ok cache /\
    forall k r, regs !! k = Some r -> exists s, cache !! k = Some s /\
      take (longest regs) (drop (fe_payload_offset e) s) = resize (longest regs) 0%Z r.
Proof.
  intros [Hl Hs Hsl] Hc Hlr Hmax. unfold clear_tails. set (po := fe_payload_offset e) in *. set (n := longest regs) in *.
  match goal with |- context [for_range 0 _ ?body _] =>
    destruct (for_range_inv (fun i cache => length cache = fe_shard_size e /\ slots_ok cache /\
      forall k r, regs !! k = Some r -> slot_holds po n cache k r (k < i)) 0 (fe_data_shards e) body (fe_shard_cache e))
      as (cache & E & Hlc & Hsc & Hk) end.
  - lia.
  - split_and!; try done. intros k r Hr. destruct (Hc k r Hr) as (_ & _ & _ & _ & s & Es & Et).
    exists s. split_and!; try done. lia.
  - intros i cache Hi (Hlc & Hsc & Hk). destruct (lookup_lt_is_Some_2 regs i) as [r Hr]; [lia|].
    destruct (Hc i r Hr) as (Hrb & _ & Hrm & Elen & _). rewrite Elen. cbn [unwrap mbind result_bind]. fold po in Hrm |- *.
    destruct (Hk i r Hr) as (s & Es & Et & _). rewrite Es. cbn [unwrap mbind result_bind].
    destruct (Forall_lookup_1 _ _ _ _ Hsc Es) as [Hsb Hsl'].
    assert (length r <= n) as Hle by (apply longest_le; by eapply list_elem_of_lookup_2).
    assert (forall k r, regs !! k = Some r -> k <> i -> (k < i + 1)%nat <-> (k < i)%nat) as Hki by lia.
    destruct (Nat.ltb_spec (po + length r) (po + n)) as [Hlt|Hge].
    + rewrite copy_at_ok by (lens; lia). rewrite length_replicate. cbn [mbind result_bind]. eexists. split; [done|].
      destruct (clear_slot po n r s Et) as (Hl' & Ht1 & Ht2); [lia..|].
      split; [by rewrite length_insert|]. split.
      { apply slots_insert; [done|auto 6 with bytes|]. by rewrite Hl'. }
      intros k r' Hr'. destruct (decide (k = i)) as [->|Hne].
      * assert (r' = r) as -> by congruence. eexists. split; [apply list_lookup_insert_eq; by eapply lookup_lt_Some|]. split; [exact Ht1|by intros _].
      * destruct (Hk k r' Hr') as (s' & Es' & H1 & H2). exists s'. rewrite list_lookup_insert_ne by done.
        split; [done|]. split; [done|]. intros ?. apply H2. lia.
    + eexists. split; [done|]. split; [done|]. split; [done|]. intros k r' Hr'.
      destruct (Hk k r' Hr') as (s' & Es' & H1 & H2). exists s'. split; [done|]. split; [done|]. intros Hlt.
      destruct (decide (k = i)) as [->|Hne]; [|apply H2; lia].
      assert (r' = r) as -> by congruence. assert (n = length r) as -> by lia. by rewrite resize_all.
  - exists cache. split; [done|]. split; [done|]. split; [done|]. intros k r Hr.
    destruct (Hk k r Hr) as (s & Es & _ & H). exists s. split; [done|]. apply H. apply lookup_lt_Some in Hr. lia.
Qed.

(** ** The regions the codec sees *)

Lemma stripped_ok po max cache : po <= max -> Forall (fun s => max <= length s) cache ->
  stripped po max cache = Ok ((fun s => take (max - po) (drop po s)) <$> cache).
Proof.
  intros Hpo Hc. induction Hc as [|s cache Hs _ IH]; [done|].
  change (stripped po max (s :: cache)) with (r ← of_rs (Codec.slice po max s); rs ← stripped po max cache; Ok (r :: rs)).
  rewrite IH. unfold Codec.slice. by rewrite (proj2 (Nat.leb_le _ _)), (proj2 (Nat.leb_le _ _)) by lia.
Qed.

Lemma unstripped_lookup po max coded cache k region s : coded !! k = Some region -> cache !! k = Some s ->
  unstripped po max coded cache !! k = Some (take po s ++ region ++ drop max s).
Proof. intros Hr Hs. unfold unstripped. by rewrite lookup_zip_with, Hr, Hs. Qed.

Lemma unstripped_ok po max coded cache : po <= max -> max <= MTU_LIMIT -> rows_ok (max - po) coded -> slots_ok cache ->
  length coded = length cache -> slots_ok (unstripped po max coded cache) /\ length (unstripped po max coded cache) = length cache.
Proof.
  intros Hpo Hm Hr Hs E. split; [|unfold unstripped; rewrite length_zip_with; lia].
  apply Forall_lookup. intros k s' Hk. unfold unstripped in Hk. rewrite lookup_zip_with in Hk.
  destruct (coded !! k) as [region|] eqn:Er; [|done]. destruct (cache !! k) as [s|] eqn:Es; [|done].
  destruct (Forall_lookup_1 _ _ _ _ Hr Er) as [Hrb Hrl]. destruct (Forall_lookup_1 _ _ _ _ Hs Es) as [Hsb Hsl].
  cbn in Hk. injection Hk as <-. split; [auto 6 with bytes|]. lens. lia.
Qed.

(** ** Sealing the parity shards *)

(** The fields that only [encode] itself changes. *)
Definition same_progress (e e' : FecEncoder) : Prop :=
  same_encoder e e' /\ fe_shard_count e' = fe_shard_count e /\ fe_max_size e' = fe_max_size e /\
  fe_ts_latest_packet e' = fe_ts_latest_packet e.

Definition sealed_slot (e : FecEncoder) (g : Z) (k : nat) (s : list Z) : list Z :=
  take (fe_header_offset e) s ++
  fec_packet (g * Z.of_nat (fe_shard_size e) + Z.of_nat k) TYPE_PARITY (drop (fe_payload_offset e) s).

Lemma length_sealed_slot e g k s : enc_params e -> fe_payload_offset e <= length s -> length (sealed_slot e g k s) = length s.
Proof. intros [] Hl. unfold sealed_slot. rewrite length_app, length_fec_packet. lens. lia. Qed.

Lemma sealed_slot_bytes e g k s : bytes s -> bytes (sealed_slot e g k s).
Proof. intros Hb. unfold sealed_slot. apply bytes_app; [auto with bytes|]. apply fec_packet_bytes. auto with bytes. Qed.

Lemma seal_parities_ok e g max_size : enc_params e -> enc_cache e ->
  (0 <= g /\ (g + 1) * Z.of_nat (fe_shard_size e) <= fe_paws e)%Z ->
  fe_next e = (g * Z.of_nat (fe_shard_size e) + Z.of_nat (fe_data_shards e))%Z ->
  fe_payload_offset e <= MTU_LIMIT ->
  exists e', seal_parities max_size e = Ok e' /\ same_progress e e' /\ enc_cache e' /\
    fe_next e' = (((g + 1) * Z.of_nat (fe_shard_size e)) mod fe_paws e)%Z /\
    forall k s, fe_data_shards e <= k -> fe_shard_cache e !! k = Some s -> fe_shard_cache e' !! k = Some (sealed_slot e g k s).
Proof.
  intros Hp Hc Hg Hn Hmtu. pose proof Hp as [_ _ _ Hss (Hds & Hps & Hmax) Hpaws Hoff]. unfold seal_parities.
  rewrite Hpaws in Hg.
  match goal with |- context [for_range _ _ ?body _] =>
    destruct (for_range_inv (fun k e1 => same_progress e e1 /\ enc_cache e1 /\
        fe_next e1 = ((g * Z.of_nat (fe_shard_size e) + Z.of_nat k) mod fe_paws e)%Z /\
        forall j s, fe_shard_cache e !! j = Some s -> fe_shard_cache e1 !! j =
          Some (if decide (fe_data_shards e <= j < k) then sealed_slot e g j s else s))
      (fe_data_shards e) (fe_shard_size e) body e) as (e' & E & Hsame & Hc' & Hn' & Hk) end.
  - lia.
  - split; [by split_and!|]. split; [done|]. split.
    + rewrite Hn, Hpaws. symmetry.
      destruct (group_seqid (fe_shard_size e) g (Z.of_nat (fe_data_shards e))) as (Hu & Hlt & _); [lia..|].
      apply Z.mod_small. unfold is_u32 in Hu. lia.
    + intros j s Hs. rewrite decide_False by lia. done.
  - intros k e1 Hk (Hsame & [Hl1 Hs1 Hsl1] & Hn1 & Hcache).
    pose proof Hsame as ((E1 & E2 & E3 & E4 & E5 & E6 & E7) & E8 & E9 & E10).
    destruct Hc as [Hl Hs Hsl]. destruct (lookup_lt_is_Some_2 (fe_shard_cache e) k) as [s Hks]; [lia|].
    destruct (Forall_lookup_1 _ _ _ _ Hs Hks) as [Hsb Hslen].
    pose proof (Hcache k s Hks) as Hk1. rewrite decide_False in Hk1 by lia. rewrite Hk1. cbn [unwrap mbind result_bind].
    destruct (group_seqid (fe_shard_size e) g (Z.of_nat k)) as (Hu & Hlt & _ & _); [lia..|].
    assert (fe_next e1 = (g * Z.of_nat (fe_shard_size e) + Z.of_nat k)%Z) as Hn1'.
    { rewrite Hn1, Hpaws. apply Z.mod_small. unfold is_u32 in Hu. lia. }
    unfold seal_parity. rewrite with_tail_seal by lia. cbn [mbind result_bind fst snd].
    rewrite (proj2 (Nat.ltb_lt _ _)) by lia. eexists. split; [done|].
    assert (take (fe_header_offset e1) s ++ fec_packet (fe_next e1) TYPE_PARITY (drop (fe_header_offset e1 + 6) s) = sealed_slot e g k s) as ->.
    { unfold sealed_slot. by rewrite E5, Hn1', Hoff. }
    split; [by split_and!|]. split; [|split].
    + constructor; cbn [fe_shard_cache fe_shard_size fe_shard_len field_update]; cbn; rewrite ?length_insert; try congruence.
      apply slots_insert; [done|by apply sealed_slot_bytes|]. rewrite length_sealed_slot by (done || lia). done.
    + cbn. rewrite E4, Hn1', Hpaws.
      destruct (next_seqid (fe_shard_size e) g (Z.of_nat k) 1) as [-> _]; [lia..|]. f_equal. lia.
    + intros j s' Hj. cbn. destruct (decide (j = k)) as [->|Hne].
      * rewrite decide_True by lia. rewrite list_lookup_insert_eq by lia. by assert (s' = s) as -> by congruence.
      * rewrite list_lookup_insert_ne by done. rewrite (Hcache j s' Hj).
        destruct (decide (fe_data_shards e <= j < k)), (decide (fe_data_shards e <= j < k + 1)); done || lia.
  - exists e'. split; [done|]. split; [done|]. split; [done|]. split; [rewrite Hn'; f_equal; lia|].
    intros k s Hk' Hs. rewrite (Hk k s Hs). rewrite decide_True; [done|]. split; [done|].
    apply lookup_lt_Some in Hs. rewrite (ec_cache _ Hc) in Hs. lia.
Qed.

(** ** The parity of a group *)

(** The shards of a complete group, [longest regs] bytes each. *)
Definition group_word (c : Codec) (regs : list (list Z)) : list (list Z) :=
  codeword (longest regs) c (padded (longest regs) regs).

Lemma group_word_ok c regs : codec_shape c -> Forall bytes regs -> rows_ok (longest regs) (group_word c regs).
Proof. intros Hc Hr. apply codeword_ok; [done|]. by apply padded_ok. Qed.

Lemma length_group_word c regs : codec_shape c -> Forall bytes regs -> length regs = data_shards c ->
  length (group_word c regs) = total_shards c.
Proof. intros Hc Hr Hl. apply codeword_data; [done|by apply padded_ok|]. unfold padded. by rewrite length_fmap. Qed.

Lemma collected_bytes e regs : collected e regs -> Forall bytes regs.
Proof. intros Hc. apply Forall_lookup. intros k r Hk. by destruct (Hc k r Hk). Qed.

Lemma collected_longest e regs : collected e regs -> regs <> [] ->
  2 <= longest regs /\ fe_payload_offset e + longest regs <= MTU_LIMIT.
Proof.
  intros Hc Hne. split.
  - apply longest_pos; [done|]. apply Forall_lookup. intros k r Hk. by destruct (Hc k r Hk) as (_ & ? & _).
  - assert (forall m, Forall (fun r => length r <= m) regs -> longest regs <= m) as Hle.
    { intros m Hm. clear - Hm. induction Hm as [|r l Hr Hm IH]; cbn in *; [lia|]. unfold longest in *. cbn. lia. }
    assert (longest regs <= MTU_LIMIT - fe_payload_offset e).
    { apply Hle, Forall_lookup. intros k r Hk. destruct (Hc k r Hk) as (_ & _ & ? & _). lia. }
    destruct regs as [|r regs]; [done|]. destruct (Hc 0 r eq_refl) as (_ & _ & ? & _). lia.
Qed.

(** A parity shard as it is sent. *)
Definition parity_packet (c : Codec) (ho : nat) (g : Z) (regs : list (list Z)) (k : nat) (p : list Z) : Prop :=
  exists room w, length room = ho /\ group_word c regs !! k = Some w /\
    p = room ++ fec_packet (g * Z.of_nat (total_shards c) + Z.of_nat k) TYPE_PARITY w.

Lemma generate_parity_ok e g regs snmp : enc_params e -> enc_cache e -> collected e regs ->
  length regs = fe_data_shards e -> fe_max_size e = fe_payload_offset e + longest regs ->
  (0 <= g /\ (g + 1) * Z.of_nat (fe_shard_size e) <= fe_paws e)%Z ->
  fe_next e = (g * Z.of_nat (fe_shard_size e) + Z.of_nat (fe_data_shards e))%Z ->
  exists e', generate_parity e snmp = Ok (true, e', snmp) /\ same_progress e e' /\ enc_cache e' /\
    fe_next e' = (((g + 1) * Z.of_nat (fe_shard_size e)) mod fe_paws e)%Z /\
    forall k, fe_data_shards e <= k < fe_shard_size e -> exists s, fe_shard_cache e' !! k = Some s /\
      parity_packet (fe_codec e) (fe_header_offset e) g regs k (take (fe_max_size e) s).
Proof.
  intros Hp Hc Hcol Hlr Hmax Hg Hn. pose proof Hp as [Hco Hcd Hcp Hss (Hds & Hps & Htot) Hpaws Hoff].
  pose proof Hc as [Hl Hs Hsl]. destruct (cs_total _ (proj1 Hco)). 
  destruct (collected_longest e regs Hcol) as [Hn2 Hmtu]; [intros ->; cbn in Hlr; lia|].
  unfold generate_parity. rewrite Hmax.
  destruct (clear_tails_ok e regs Hc Hcol Hlr Hmtu) as (cache & -> & Hlc & Hsc & Hk). cbn [mbind result_bind].
  rewrite stripped_ok; [|lia|eapply Forall_impl; [exact Hsc|]; cbn; intros ? [_ ?]; lia]. cbn [mbind result_bind].
  replace (fe_payload_offset e + longest regs - fe_payload_offset e) with (longest regs) by lia.
  set (region := fun s : list Z => take (longest regs) (drop (fe_payload_offset e) s)).
  assert (region <$> cache = padded (longest regs) regs ++ drop (fe_data_shards e) (region <$> cache)) as Esplit.
  { rewrite <- (take_drop (fe_data_shards e)) at 1. f_equal. apply list_eq. intros k.
    destruct (decide (k < fe_data_shards e)) as [Hlt|Hge].
    - rewrite lookup_take_lt by done. destruct (lookup_lt_is_Some_2 regs k) as [r Hr]; [lia|].
      destruct (Hk k r Hr) as (s & Es & Et). unfold padded. rewrite !list_lookup_fmap, Es, Hr. cbn. by f_equal.
    - rewrite !lookup_ge_None_2; unfold padded; rewrite ?length_take, ?length_fmap; (done || lia). }
  pose proof (collected_bytes e regs Hcol) as Hrb.
  assert (codec_shape (fe_codec e)) as Hsh by apply Hco.
  assert (total_shards (fe_codec e) = fe_shard_size e) as Htotal by (rewrite (cs_total _ Hsh); lia).
  assert (length (group_word (fe_codec e) regs) = fe_shard_size e) as Hgl by (rewrite length_group_word; (done || lia)).
  pose proof (group_word_ok (fe_codec e) regs Hsh Hrb) as Hgw.
  rewrite Esplit, (rs_encode_spec (longest regs)); try done; try lia.
  2: by apply padded_ok.
  2: { unfold padded. rewrite length_fmap. lia. }
  2: { rewrite length_drop, length_fmap. lia. }
  2: { apply Forall_drop, Forall_fmap. eapply Forall_impl; [exact Hsc|]. intros s [_ Hsl']. unfold region; cbn. lens. lia. }
  fold (group_word (fe_codec e) regs).
  destruct (unstripped_ok (fe_payload_offset e) (fe_payload_offset e + longest regs) (group_word (fe_codec e) regs) cache) as [Hus Hul];
    [lia|lia|by replace (_ + _ - _) with (longest regs) by lia|done|lia|].
  set (e1 := e <| fe_shard_cache := _ |>).
  destruct (seal_parities_ok e1 g (fe_payload_offset e + longest regs)) as (e' & -> & Hsame & Hc' & Hn' & Hsealed); try done.
  { constructor; cbn; try done. by rewrite Hul. } { cbn. lia. }
  exists e'. split; [done|]. split; [done|]. split; [done|]. split; [done|]. intros k Hkr.
  destruct (lookup_lt_is_Some_2 cache k) as [s Es]; [lia|].
  destruct (lookup_lt_is_Some_2 (group_word (fe_codec e) regs) k) as [w Ew]; [lia|].
  destruct (Forall_lookup_1 _ _ _ _ Hsc Es) as [Hsb Hslen]. destruct (Forall_lookup_1 _ _ _ _ Hgw Ew) as [_ Hwl].
  eexists. split; [apply Hsealed; [apply Hkr|by apply unstripped_lookup]|].
  exists (take (fe_header_offset e) s), w. split; [lens; lia|]. split; [done|]. rewrite Htotal.
  unfold sealed_slot. change (fe_header_offset e1) with (fe_header_offset e). change (fe_shard_size e1) with (fe_shard_size e).
  change (fe_payload_offset e1) with (fe_payload_offset e).
  assert (forall d, drop (fe_payload_offset e) (take (fe_payload_offset e) s ++ d) = d) as -> by
    (intros d; apply drop_app_length'; lens; lia).
  assert (forall d, take (fe_header_offset e) (take (fe_payload_offset e) s ++ d) = take (fe_header_offset e) s) as -> by
    (intros d; rewrite take_app_le, take_take, Nat.min_l by (lens; lia); done).
  unfold fec_packet. rewrite !app_assoc. apply take_app_length'. lens. lia.
Qed.

(** ** One call of [encode] *)

(** The packet as [encode] leaves it. *)
Definition data_packet (e : FecEncoder) (b : list Z) : list Z :=
  take (fe_header_offset e) b ++
  fec_packet (fe_next e) TYPE_DATA (shard_region (drop (fe_payload_offset e + 2) b)).

Lemma size_field_ok next type ho b : ho + 8 <= length b -> length b <= MTU_LIMIT ->
  copy_at (ho + 6) (le_bytes 2 (u16 (zlen (take ho b ++ fec_packet next type (drop (ho + 6) b)) - Z.of_nat (ho + 6))))
    (take ho b ++ fec_packet next type (drop (ho + 6) b)) =
  @Ok FecError _ (take ho b ++ fec_packet next type (shard_region (drop (ho + 6 + 2) b))).
Proof.
  intros Hl Hm. rewrite put_size_field by (lia || by rewrite length_le_bytes). unfold shard_region. do 5 f_equal.
  unfold zlen. rewrite length_app, length_fec_packet. lens. rewrite u16_id; unfold MTU_LIMIT, is_u16 in *; lia.
Qed.

Lemma collected_snoc e regs r s : collected e regs -> bytes r -> 2 <= length r ->
  fe_payload_offset e + length r <= MTU_LIMIT -> length regs < length (fe_shard_cache e) -> length regs < length (fe_shard_len e) ->
  take (length r) (drop (fe_payload_offset e) s) = r ->
  forall e', fe_payload_offset e' = fe_payload_offset e ->
    fe_shard_cache e' = <[length regs := s]> (fe_shard_cache e) ->
    fe_shard_len e' = <[length regs := fe_payload_offset e + length r]> (fe_shard_len e) ->
    collected e' (regs ++ [r]).
Proof.
  intros Hc Hb H2 Hm Hlc Hll Ht e' E1 E2 E3 k r' Hk. rewrite E1, E2, E3.
  destruct (decide (k < length regs)) as [Hlt|Hge].
  - rewrite lookup_app_l in Hk by done. destruct (Hc k r' Hk) as (? & ? & ? & ? & s' & ? & ?).
    rewrite !list_lookup_insert_ne by lia. split_and!; try done. by exists s'.
  - assert (k = length regs) as -> by (apply lookup_lt_Some in Hk; rewrite length_app in Hk; cbn in Hk; lia).
    rewrite lookup_app_r, Nat.sub_diag in Hk by done. injection Hk as <-.
    rewrite !list_lookup_insert_eq by done. split_and!; try done. by exists s.
Qed.

(** The group after [g]; the last one is followed by the first. *)
Definition next_group (e : FecEncoder) (g : Z) : Z := ((g + 1) mod (fe_paws e / Z.of_nat (fe_shard_size e)))%Z.

Lemma next_group_ok e g : enc_params e -> (0 <= g)%Z ->
  (0 <= next_group e g /\ (next_group e g + 1) * Z.of_nat (fe_shard_size e) <= fe_paws e)%Z /\
  (((g + 1) * Z.of_nat (fe_shard_size e)) mod fe_paws e = next_group e g * Z.of_nat (fe_shard_size e))%Z.
Proof.
  intros [_ _ _ Hss (Hds & Hps & Hmax) Hpaws _] Hg. unfold next_group.
  destruct (paws_spec (fe_shard_size e)) as (q & Eq & Hq & _); [lia|]. rewrite Hpaws, Eq, Z.div_mul by lia.
  rewrite Z.mul_mod_distr_r by lia. pose proof (Z.mod_pos_bound (g + 1) q ltac:(lia)). split; [nia|done].
Qed.

(** An encoder at the start of the group after [g]. *)
Lemma enc_ok_next e e' g : enc_params e -> (0 <= g)%Z -> same_encoder e e' -> enc_cache e' ->
  fe_next e' = (((g + 1) * Z.of_nat (fe_shard_size e)) mod fe_paws e)%Z ->
  fe_shard_count e' = 0 -> fe_max_size e' = 0 -> enc_ok e' (next_group e g) [].
Proof.
  intros Hp Hg Hsame Hc Hn Hcnt Hmax. destruct (next_group_ok e g Hp Hg) as [Hb E].
  pose proof (same_encoder_params _ _ Hsame Hp) as Hp'. destruct Hsame as (E1 & E2 & E3 & E4 & E5 & E6 & E7).
  constructor; try done.
  - by rewrite E3, E4.
  - rewrite Hn, E, E3, zlen_nil. lia.
  - cbn. rewrite E1. apply Hp.
Qed.

(** The encoder once the packet is stored in its slot. *)
Definition stored (b : list Z) (e : FecEncoder) (s : list Z) : FecEncoder :=
  let e := e <| fe_next := Z.modulo (wadd32 (fe_next e) 1) (fe_paws e) |> in
  let e := e <| fe_shard_len := <[fe_shard_count e := length b]> (fe_shard_len e) |>
             <| fe_shard_cache := <[fe_shard_count e := s]> (fe_shard_cache e) |>
             <| fe_shard_count := fe_shard_count e + 1 |> in
  if fe_max_size e <? length b then e <| fe_max_size := length b |> else e.

Lemma stored_same b e s : same_encoder e (stored b e s) /\ fe_ts_latest_packet (stored b e s) = fe_ts_latest_packet e.
Proof. unfold stored. case_goal; (split; [by split_and!|done]). Qed.

Lemma stored_fields b e s :
  fe_shard_len (stored b e s) = <[fe_shard_count e := length b]> (fe_shard_len e) /\
  fe_shard_cache (stored b e s) = <[fe_shard_count e := s]> (fe_shard_cache e) /\
  fe_shard_count (stored b e s) = fe_shard_count e + 1 /\
  fe_next (stored b e s) = Z.modulo (wadd32 (fe_next e) 1) (fe_paws e) /\
  fe_max_size (stored b e s) = Nat.max (fe_max_size e) (length b).
Proof.
  unfold stored.
  change (fe_max_size (_ <| fe_shard_count := _ |>)) with (fe_max_size e).
  destruct (Nat.ltb_spec (fe_max_size e) (length b)); split_and!; try done; cbn; lia.
Qed.

Lemma encode_step e b rto now snmp : enc_params e -> enc_cache e -> fe_shard_count e < fe_shard_size e ->
  fe_payload_offset e + 2 <= length b <= MTU_LIMIT -> bytes b ->
  let r := shard_region (drop (fe_payload_offset e + 2) b) in
  exists s, bytes s /\ length s = MTU_LIMIT /\ take (length r) (drop (fe_payload_offset e) s) = r /\
  encode b rto now e snmp =
    (r ← (if fe_shard_count (stored b e s) =? fe_data_shards (stored b e s) then
            r ← (if (i64_sat_sub now (fe_ts_latest_packet (stored b e s)) <? rto)%Z
                 then generate_parity (stored b e s) snmp
                 else Ok (false, skip_parity (stored b e s), snmp));
            let '(ps, e, snmp) := r in
            Ok (ps, e <| fe_shard_count := 0 |> <| fe_max_size := 0 |>, snmp)
          else Ok (false, stored b e s, snmp));
     let '(ps, e', snmp) := r in
     let e' := e' <| fe_ts_latest_packet := now |> in
     Ok (if (ps : bool) then mkParityShards (drop (fe_data_shards e') (fe_shard_cache e')) (fe_max_size (stored b e s))
         else parity_none, data_packet e b, e', snmp)).
Proof.
  intros Hp [Hl Hs Hsl] Hcnt Hb Hbb r. pose proof Hp as [_ _ _ _ _ _ Hoff]. unfold encode.
  rewrite (proj2 (Nat.ltb_ge _ _)), (proj2 (Nat.ltb_ge _ _)) by lia.
  unfold seal_data. rewrite with_tail_seal by lia. cbn [mbind result_bind fst snd].
  destruct (lookup_lt_is_Some_2 (fe_shard_cache e) (fe_shard_count e)) as [s0 Es]; [lia|].
  destruct (Forall_lookup_1 _ _ _ _ Hs Es) as [Hsb Hslen].
  assert (fe_payload_offset (e <| fe_next := Z.modulo (wadd32 (fe_next e) 1) (fe_paws e) |>) = fe_header_offset e + 6) as -> by apply Hoff.
  rewrite size_field_ok by lia. cbn [mbind result_bind].
  replace (fe_header_offset e + 6 + 2) with (fe_payload_offset e + 2) by lia. fold (data_packet e b).
  change (fe_shard_cache (e <| fe_next := _ |>)) with (fe_shard_cache e).
  change (fe_shard_count (e <| fe_next := _ |>)) with (fe_shard_count e). rewrite Es. cbn [unwrap mbind result_bind].
  assert (drop (fe_header_offset e + 6) (data_packet e b) = r) as Er.
  { unfold data_packet. rewrite <- drop_drop, drop_app_length' by (lens; lia). apply drop_fec_packet. }
  assert (length (data_packet e b) = length b) as Elen.
  { unfold data_packet. rewrite length_app, length_fec_packet, length_shard_region. lens. lia. }
  assert (length r = length b - fe_payload_offset e) as Elr by (unfold r; rewrite length_shard_region; lens; lia).
  rewrite Er, copy_at_ok by lia. cbn [mbind result_bind]. rewrite Elen.
  set (s := take (fe_header_offset e + 6) s0 ++ r ++ drop (fe_header_offset e + 6 + length r) s0). exists s.
  assert (bytes r) as Hrb by (apply shard_region_bytes; auto with bytes).
  split; [apply bytes_app; [|apply bytes_app]; auto with bytes|]. split; [unfold s; lens; lia|].
  split; [|done]. unfold s. rewrite drop_app_length' by (lens; lia). by apply take_app_length'.
Qed.

Lemma stored_ok e g regs b s : enc_ok e g regs ->
  fe_payload_offset e + 2 <= length b <= MTU_LIMIT -> bytes b -> bytes s -> length s = MTU_LIMIT ->
  let r := shard_region (drop (fe_payload_offset e + 2) b) in
  take (length r) (drop (fe_payload_offset e) s) = r ->
  enc_params (stored b e s) /\ enc_cache (stored b e s) /\ collected (stored b e s) (regs ++ [r]) /\
  fe_max_size (stored b e s) = fe_payload_offset e + longest (regs ++ [r]) /\
  fe_next (stored b e s) = (g * Z.of_nat (fe_shard_size e) + zlen (regs ++ [r]))%Z /\
  fe_shard_count (stored b e s) = length (regs ++ [r]).
Proof.
  intros [Hp [Hl Hs Hsl] Hg Hn Hcnt Hroom Hmax Hmax0 Hcol] Hb Hbb Hsb Hslen r Hr.
  destruct (stored_same b e s) as [Hsame _]. destruct (stored_fields b e s) as (F1 & F2 & F3 & F4 & F5).
  pose proof Hsame as (E1 & E2 & E3 & E4 & E5 & E6 & E7).
  pose proof Hp as [_ _ _ Hss (Hds & Hps & Htot) Hpaws Hoff].
  assert (length b = fe_payload_offset e + length r) as Elb by (unfold r; rewrite length_shard_region; lens; lia).
  split; [by apply (same_encoder_params e)|]. split; [constructor; rewrite ?F1, ?F2, ?E3, ?length_insert; try done; by apply slots_insert|].
  split; [|split; [|split]].
  - apply (collected_snoc e regs r s); rewrite ?Hl, ?Hsl, ?F1, ?F2, ?Elb, ?Hcnt; (done || lia || idtac).
    apply shard_region_bytes. auto with bytes.
  - rewrite F5, longest_snoc. destruct regs as [|r0 regs]; [rewrite Hmax0 by done; change (longest []) with 0; lia|].
    rewrite Hmax by done. lia.
  - rewrite F4, Hn, zlen_app, Hpaws. rewrite Hpaws in Hg.
    destruct (next_seqid (fe_shard_size e) g (zlen regs) 1) as [-> ->]; unfold zlen in *; cbn [length]; lia.
  - rewrite F3, Hcnt, length_app. done.
Qed.

Lemma fec_encode_spec e g regs b rto now snmp : enc_ok e g regs ->
  fe_payload_offset e + 2 <= length b <= MTU_LIMIT -> bytes b ->
  let r := shard_region (drop (fe_payload_offset e + 2) b) in
  exists ps e', encode b rto now e snmp = Ok (ps, data_packet e b, e', snmp) /\ same_encoder e e' /\
    fe_ts_latest_packet e' = now /\
    if length regs + 1 =? fe_data_shards e then
      enc_ok e' (next_group e g) [] /\
      if (i64_sat_sub now (fe_ts_latest_packet e) <? rto)%Z
      then Forall2 (parity_packet (fe_codec e) (fe_header_offset e) g (regs ++ [r]))
             (seq (fe_data_shards e) (fe_parity_shards e)) (parity_iter ps)
      else parity_iter ps = []
    else enc_ok e' g (regs ++ [r]) /\ parity_iter ps = [].
Proof.
  intros He Hb Hbb r. pose proof He as [Hp Hc Hg Hn Hcnt Hroom _ _ _].
  pose proof Hp as [_ _ _ Hss (Hds & Hps & Htot) Hpaws Hoff].
  destruct (encode_step e b rto now snmp Hp Hc) as (s & Hsb & Hslen & Hr & ->); [lia|done..|].
  destruct (stored_ok e g regs b s He Hb Hbb Hsb Hslen Hr) as (Hp1 & Hc1 & Hcol1 & Hmax1 & Hn1 & Hcnt1).
  fold r in Hcol1, Hmax1, Hn1, Hcnt1. destruct (stored_same b e s) as [Hsame Ets].
  set (e1 := stored b e s) in *. clearbody e1. pose proof Hsame as (E1 & E2 & E3 & E4 & E5 & E6 & E7).
  rewrite Hcnt1, length_app, E1, Ets. cbn [length].
  destruct (Nat.eqb_spec (length regs + 1) (fe_data_shards e)) as [Ed|Ed].
  2: { eexists _, _. split; [done|]. split; [by split_and!|]. split; [done|]. split; [|done].
    constructor; try done; cbn.
    - by destruct Hp1.
    - by destruct Hc1.
    - by rewrite E3, E4.
    - by rewrite E3.
    - rewrite length_app, E1. cbn. lia.
    - intros _. by rewrite E6.
    - by destruct regs. }
  assert (zlen (regs ++ [r]) = Z.of_nat (fe_data_shards e)) as Ez by (rewrite zlen_app; unfold zlen; cbn [length]; lia).
  destruct (_ <? rto)%Z.
  - destruct (generate_parity_ok e1 g (regs ++ [r]) snmp Hp1 Hc1 Hcol1) as (e2 & -> & Hprog & Hc2 & Hn2 & Hk).
    + rewrite length_app, E1. cbn. lia.
    + by rewrite E6.
    + by rewrite E3, E4.
    + by rewrite E3, E1, Hn1, Ez.
    + cbn [mbind result_bind]. pose proof Hprog as (Hsame2 & _ & Em & _).
      pose proof (same_encoder_trans _ _ _ Hsame Hsame2) as Hsame12.
      eexists _, _. split; [done|]. split; [exact Hsame12|]. split; [done|].
      split; [apply enc_ok_next; try done; [lia|by destruct Hc2|by cbn; rewrite Hn2, E3, E4]|].
      destruct Hsame12 as (F1 & F2 & F3 & F4 & F5 & F6 & F7). unfold parity_iter. cbn [ps_size ps_shards].
      change (fe_data_shards (_ <| fe_ts_latest_packet := _ |>)) with (fe_data_shards e2).
      change (fe_shard_cache (_ <| fe_ts_latest_packet := _ |>)) with (fe_shard_cache e2).
      apply Forall2_fmap_r, Forall2_same_length_lookup. rewrite length_drop, length_seq, (ec_cache _ Hc2), F3, F1, Hss.
      split; [lia|]. intros k j s' Hj Hs'. apply lookup_seq in Hj as [-> Hj]. rewrite lookup_drop in Hs'.
      destruct (Hk (fe_data_shards e + k)) as (s2 & Es2 & Hpp); [rewrite E1, E3; lia|].
      rewrite E5, E7 in Hpp. assert (s2 = s') as <- by congruence. done.
  - cbn [mbind result_bind]. eexists _, _. split; [done|]. split; [by split_and!|]. split; [done|]. split; [|done].
    apply enc_ok_next; try done; [lia| |].
    + by destruct Hc1.
    + cbn. rewrite Hn1, Ez, E2, E4, Hpaws. rewrite Hpaws in Hg.
      destruct (next_seqid (fe_shard_size e) g (Z.of_nat (fe_data_shards e)) (Z.of_nat (fe_parity_shards e))) as [-> _]; [lia..|].
      f_equal. lia.
Qed.

(** A new encoder is at the start of the first group. *)
Lemma fec_encoder_new_ok ds ps offset :
  match fec_encoder_new ds ps offset with
  | Ok None => (ds <= 0 \/ ps <= 0)%Z
  | Ok (Some e) => (0 < ds /\ 0 < ps /\ ds + ps <= 256)%Z /\ enc_ok e 0 [] /\
      fe_data_shards e = Z.to_nat ds /\ fe_parity_shards e = Z.to_nat ps /\ fe_header_offset e = offset
  | Err e => e = ECodec MaxShardNum /\ (0 < ds /\ 0 < ps /\ 256 < ds + ps)%Z
  | Panic => False
  end.
Proof.
  unfold fec_encoder_new. destruct (Z.leb_spec ds 0); [cbn; lia|]. destruct (Z.leb_spec ps 0); [cbn; lia|]. cbn [orb].
  destruct (decide (256 < ds + ps)%Z) as [Hbig|Hsmall].
  - rewrite codec_new_result, (proj2 (Nat.ltb_lt _ _)) by lia. done.
  - destruct (codec_new_total (Z.to_nat ds) (Z.to_nat ps)) as [c Ec]; [lia..|]. rewrite Ec. cbn [of_rs mbind result_bind].
    destruct (codec_new_shape _ _ _ Ec) as (Hsh & Ed & Ep & _).
    split; [lia|]. split; [|done]. constructor; cbn.
    + constructor; cbn; try done; [by eapply codec_new_ok|lia].
    + constructor; cbn; rewrite ?length_replicate; try done.
      apply Forall_replicate. split; [apply bytes_zeros|apply length_replicate].
    + destruct (paws_spec (Z.to_nat ds + Z.to_nat ps)) as (q & -> & Hq & _); [lia|]. nia.
    + done.
    + done.
    + lia.
    + done.
    + done.
    + intros k r Hk. done.
Qed.
