(* ===== verification/FecDecoderSpec.v ===== *)
(** What the FEC decoder keeps and what it rebuilds.

    A packet that joins a group is [shard_packet]: its index in the group and its
    RS shard.  [heap_rep] reads a shard heap as a list of such entries, [dec_ok]
    is the invariant of the decoder, and [decode_group_ok] the decoding of a
    group that has enough shards, whatever their bytes are. *)
From stdpp Require Import base list gmap.
From Stdlib Require Import ZArith Lia.
From S2P Require Import Prelude Word Env Galois GfVector Matrix Codec CodecSpec RsDecode GoSort AutoTune Fec.
From S2P Require Import FecLayout FecEncoderSpec.

(** ** Packets of a group *)

Definition shard_seqid (ss : nat) (id : Z) (k : nat) : Z := (id * Z.of_nat ss + Z.of_nat k)%Z.
Definition shard_type (ds k : nat) : Z := if k <? ds then TYPE_DATA else TYPE_PARITY.
Definition shard_packet (ds ss : nat) (id : Z) (k : nat) (r : list Z) : list Z :=
  fec_packet (shard_seqid ss id k) (shard_type ds k) r.

(** The group numbers of packets below the wrap. *)
Definition group_ok (ss : nat) (id : Z) : Prop := (0 <= id /\ (id + 1) * Z.of_nat ss <= paws ss)%Z.

Section Group.
Context (ds ps : nat).
Let ss := ds + ps.
Context (Hds : 0 < ds) (Hps : 0 < ps) (Hss : ss <= 256).

Lemma shard_seqid_ok id k : group_ok ss id -> k < ss ->
  is_u32 (shard_seqid ss id k) /\ (shard_seqid ss id k < paws ss)%Z /\
  (shard_seqid ss id k mod Z.of_nat ss = Z.of_nat k)%Z /\ (shard_seqid ss id k / Z.of_nat ss = id)%Z.
Proof using Hds Hps Hss. intros [? ?] Hk. apply group_seqid; subst ss; lia. Qed.

Lemma shard_type_u16 k : is_u16 (shard_type ds k).
Proof. unfold shard_type, is_u16. case_goal; cbv; split; congruence. Qed.

Lemma shard_packet_seqid id k r : group_ok ss id -> k < ss -> fec_seqid (shard_packet ds ss id k r) = Ok (shard_seqid ss id k).
Proof using Hds Hps Hss. intros Hid Hk. apply fec_seqid_packet. by apply shard_seqid_ok. Qed.

Lemma shard_packet_flag id k r : fec_flag (shard_packet ds ss id k r) = Ok (shard_type ds k).
Proof. apply fec_flag_packet, shard_type_u16. Qed.

Lemma shard_seqid_inj id k k' : shard_seqid ss id k = shard_seqid ss id k' -> k = k'.
Proof. unfold shard_seqid. lia. Qed.

(** Different groups have different numbers. *)
Lemma shard_seqid_group id id' k k' : k < ss -> k' < ss -> shard_seqid ss id k = shard_seqid ss id' k' -> id = id' /\ k = k'.
Proof.
  unfold shard_seqid. intros Hk Hk' E. assert (id = id') as -> by nia. split; [done|]. lia.
Qed.

(** A packet below the wrap whose type fits is the packet of a group. *)
Lemma packet_of_group pkt seqid flag : bytes pkt -> 6 <= length pkt ->
  fec_seqid pkt = Ok seqid -> fec_flag pkt = Ok flag -> (0 <= seqid < paws ss)%Z ->
  (if (seqid mod Z.of_nat ss <? Z.of_nat ds)%Z then flag = TYPE_DATA else flag = TYPE_PARITY) ->
  let id := (seqid / Z.of_nat ss)%Z in let k := Z.to_nat (seqid mod Z.of_nat ss) in
  group_ok ss id /\ k < ss /\ seqid = shard_seqid ss id k /\ flag = shard_type ds k /\
  pkt = shard_packet ds ss id k (drop 6 pkt).
Proof using Hds Hps Hss.
  intros Hb Hl Hseq Hflag Hr Ht id k.
  pose proof (Z.mod_pos_bound seqid (Z.of_nat ss) ltac:(subst ss; lia)) as Hm.
  pose proof (Z.div_mod seqid (Z.of_nat ss) ltac:(subst ss; lia)) as Hdm.
  assert (seqid = shard_seqid ss id k) as Eseq by (unfold shard_seqid, id, k; lia).
  assert (flag = shard_type ds k) as Eflag.
  { unfold shard_type, k. destruct (Z.ltb_spec (seqid mod Z.of_nat ss) (Z.of_nat ds)), (Nat.ltb_spec (Z.to_nat (seqid mod Z.of_nat ss)) ds); done || lia. }
  split; [|split; [unfold k; lia|split; [done|split; [done|]]]].
  - unfold group_ok. destruct (paws_spec ss) as (q & Eq & Hq & _); [subst ss; lia|]. rewrite Eq in *.
    split; [apply Z.div_pos; subst ss; lia|]. assert (id < q)%Z; [|nia]. apply Z.div_lt_upper_bound; subst ss; lia.
  - destruct (packet_parse pkt Hb Hl) as (s' & f' & Es & Ef & _ & _ & Ep). rewrite Ep at 1.
    unfold shard_packet. rewrite <- Eseq, <- Eflag. congruence.
Qed.

(** ** Shard heaps *)

(** The heap of group [id] holds the entries [es]: index and RS shard. *)
Record heap_rep (id : Z) (h : ShardHeap) (es : list (nat * list Z)) : Prop := {
  hr_elements : sp_elements h = (fun e => shard_packet ds ss id (fst e) (snd e)) <$> es;
  hr_marks : forall sn, sn ∈ sp_marks h <-> exists e, e ∈ es /\ sn = shard_seqid ss id (fst e);
  hr_nodup : NoDup (fst <$> es);
  hr_range : Forall (fun e => fst e < ss /\ bytes (snd e)) es;
}.

Lemma heap_rep_default id : heap_rep id shard_heap_default [].
Proof. constructor; try done; [|by constructor]. intros sn. cbn. split; [set_solver|]. intros (e & He & _). by apply elem_of_nil in He. Qed.

Lemma heap_rep_has id h es k : heap_rep id h es ->
  shard_heap_has (shard_seqid ss id k) h = true <-> k ∈ fst <$> es.
Proof.
  intros [_ Hm _ _]. unfold shard_heap_has. rewrite bool_decide_eq_true, Hm, list_elem_of_fmap.
  split; intros (e & H1 & H2); exists e; [apply shard_seqid_inj in H1 || apply shard_seqid_inj in H2; done|by subst].
Qed.

Lemma heap_rep_push id h es k r : group_ok ss id -> heap_rep id h es -> k < ss -> bytes r -> k ∉ fst <$> es ->
  exists h', shard_heap_push (shard_packet ds ss id k r) h = Ok h' /\ heap_rep id h' (es ++ [(k, r)]) /\
    shard_heap_len h' = length es + 1.
Proof using Hds Hps Hss.
  intros Hid [He Hm Hn Hr] Hk Hb Hnew. unfold shard_heap_push. rewrite shard_packet_seqid by done. cbn [mbind result_bind].
  eexists. split; [done|]. split; [|unfold shard_heap_len; cbn; by rewrite length_app, He, length_fmap].
  constructor; cbn.
  - by rewrite He, fmap_app.
  - intros sn. rewrite elem_of_union, elem_of_singleton, Hm. split.
    + intros [->|(e & Hin & ->)]; [exists (k, r); split; [|done]; apply elem_of_app; right; left|].
      exists e. split; [|done]. apply elem_of_app. by left.
    + intros (e & [Hin|Hin%list_elem_of_singleton]%elem_of_app & ->); [right; by exists e|left; by subst].
  - rewrite fmap_app. apply NoDup_app. split; [done|]. split; [|apply NoDup_singleton].
    cbn. intros j Hj Hj'%list_elem_of_singleton. by subst.
  - apply Forall_app. by repeat constructor.
Qed.

Lemma heap_rep_pop_snoc id h es k r : group_ok ss id -> heap_rep id h (es ++ [(k, r)]) ->
  exists h', shard_heap_pop h = Ok (Some (shard_packet ds ss id k r), h') /\ heap_rep id h' es.
Proof using Hds Hps Hss.
  intros Hid [He Hm Hn Hr]. apply Forall_app in Hr as [Hr [[Hk Hb] _]%Forall_cons]. cbn in Hk, Hb.
  rewrite fmap_app in Hn. apply NoDup_app in Hn as (Hn & Hd & _).
  unfold shard_heap_pop. rewrite He, fmap_app. cbn [fmap list_fmap fst snd]. rewrite last_snoc.
  rewrite shard_packet_seqid by done. cbn [mbind result_bind]. eexists. split; [done|]. constructor; cbn; try done.
  - rewrite length_app. cbn. rewrite Nat.add_sub. by rewrite take_app_length.
  - intros sn. rewrite elem_of_difference, elem_of_singleton, Hm. split.
    + intros [(e & [Hin|Hin%list_elem_of_singleton]%elem_of_app & ->) Hne]; [by exists e|by subst].
    + intros (e & Hin & ->). split; [exists e; split; [apply elem_of_app; by left|done]|].
      intros E%shard_seqid_inj. apply (Hd (fst e)); [apply list_elem_of_fmap; by exists e|]. rewrite E. left.
Qed.

(** ** Filling the decode cache *)

(** The entry of each index. *)
Definition entry_map (es : list (nat * list Z)) : gmap nat (list Z) := list_to_map es.

Lemma entry_map_cons es k r : entry_map ((k, r) :: es) = <[k := r]> (entry_map es).
Proof. done. Qed.

Lemma entry_map_lookup es k r : NoDup (fst <$> es) -> entry_map es !! k = Some r <-> (k, r) ∈ es.
Proof. intros Hn. symmetry. by apply elem_of_list_to_map. Qed.

Lemma entry_map_None es k : entry_map es !! k = None <-> k ∉ fst <$> es.
Proof. symmetry. apply not_elem_of_list_to_map. Qed.

Definition is_data (e : nat * list Z) : bool := fst e <? ds.

Definition filled_cache (id : Z) (m : gmap nat (list Z)) : list DecodeShard :=
  (fun k => match m !! k with
            | Some r => mkDecodeShard (shard_packet ds ss id k r) FEC_HEADER_SIZE
            | None => decode_shard_default
            end) <$> seq 0 ss.
Definition filled_flags (m : gmap nat (list Z)) : list bool := (fun k => bool_decide (is_Some (m !! k))) <$> seq 0 ss.

Definition filled (id : Z) (es : list (nat * list Z)) : Filled :=
  mkFilled (length (filter (fun e => Is_true (is_data e)) es)) (longest (snd <$> es))
    (filled_cache id (entry_map es)) (filled_flags (entry_map es)).

(** Writing slot [k] of a table over the indices. *)
Lemma insert_fmap_seq {A} (f g : nat -> A) n k x : k < n -> g k = x -> (forall j, j <> k -> g j = f j) ->
  <[k := x]> (f <$> seq 0 n) = g <$> seq 0 n.
Proof.
  intros Hk <- Hg. apply list_eq. intros j. destruct (decide (j < n)) as [Hj|Hj].
  - destruct (decide (j = k)) as [->|Hne].
    + rewrite list_lookup_insert_eq by (by rewrite length_fmap, length_seq).
      by rewrite list_lookup_fmap, lookup_seq_lt.
    + rewrite list_lookup_insert_ne, !list_lookup_fmap, lookup_seq_lt by done. cbn. by rewrite Hg.
  - rewrite !lookup_ge_None_2; [done|..]; rewrite ?length_insert, length_fmap, length_seq; lia.
Qed.

Lemma fill_shard_ok id k r es : group_ok ss id -> k < ss -> bytes r -> k ∉ fst <$> es ->
  fill_shard ss (shard_packet ds ss id k r) (filled id es) = Ok (filled id ((k, r) :: es)).
Proof using Hds Hps Hss.
  intros Hid Hk Hb Hnew. unfold fill_shard.
  rewrite shard_packet_seqid, shard_packet_flag by done. cbn [mbind result_bind].
  assert (length (shard_packet ds ss id k r) = 6 + length r) as -> by apply length_fec_packet.
  unfold usize_sub, FEC_HEADER_SIZE. rewrite (proj2 (Nat.leb_le _ _)) by lia.
  cbn [mbind result_bind]. destruct (shard_seqid_ok id k Hid Hk) as (_ & _ & -> & _). rewrite Nat2Z.id.
  unfold filled at 1 2. cbn [fl_cache fl_flags]. unfold filled_cache at 1, filled_flags at 1.
  rewrite !length_fmap, length_seq, (proj2 (Nat.ltb_lt _ _)) by lia. cbn [andb]. f_equal.
  replace (6 + length r - 6) with (length r) by lia.
  assert (entry_map es !! k = None) as HN by by apply entry_map_None.
  assert (<[k := mkDecodeShard (shard_packet ds ss id k r) 6]> (filled_cache id (entry_map es)) =
    filled_cache id (entry_map ((k, r) :: es))) as Ec.
  { apply insert_fmap_seq; [done|by rewrite entry_map_cons, lookup_insert_eq|].
    intros j Hj. by rewrite entry_map_cons, lookup_insert_ne. }
  assert (<[k := true]> (filled_flags (entry_map es)) = filled_flags (entry_map ((k, r) :: es))) as Ef.
  { apply insert_fmap_seq; [done|by rewrite entry_map_cons, lookup_insert_eq|].
    intros j Hj. by rewrite entry_map_cons, lookup_insert_ne. }
  unfold filled in *. cbn [fl_cache fl_flags fst snd fmap list_fmap]. rewrite Ec, Ef, filter_cons.
  change (longest (r :: (snd <$> es))) with (Nat.max (length r) (longest (snd <$> es))).
  set (M := longest (snd <$> es)). set (F := filter _ es). clearbody M F.
  unfold is_data, shard_type. cbn [fst].
  destruct (Nat.ltb_spec k ds);
    [change (TYPE_DATA =? TYPE_DATA)%Z with true; rewrite decide_True by done
    |change (TYPE_PARITY =? TYPE_DATA)%Z with false; rewrite decide_False by (intros [])];
    cbv iota; match goal with |- (if ?c then _ else _) = _ => change c with (M <? length r) end;
    destruct (Nat.ltb_spec M (length r)); (rewrite Nat.max_l by lia) || (rewrite Nat.max_r by lia);
    unfold field_update; cbn -[filled_cache filled_flags entry_map]; f_equal; lia.
Qed.

Lemma fill_cache_ok id : group_ok ss id -> forall es h es', heap_rep id h es -> NoDup (fst <$> es ++ es') ->
  fill_cache (S (length es)) ss h (filled id es') = Ok (shard_heap_default, filled id (es ++ es')).
Proof using Hds Hps Hss.
  intros Hid. induction es as [|[k r] es IH] using rev_ind; intros h es' Hh Hnd.
  - cbn [fill_cache length]. destruct Hh as [He Hm _ _]. unfold shard_heap_pop. rewrite He. cbn [fmap list_fmap last mbind result_bind].
    destruct h as [els marks]. cbn in *. subst els.
    assert (marks = ∅) as ->; [|done]. apply set_eq. intros sn. rewrite Hm. split; [|set_solver].
    intros (e & Hin & _). by apply elem_of_nil in Hin.
  - rewrite length_app, Nat.add_1_r. cbn [fill_cache].
    destruct (heap_rep_pop_snoc id h es k r Hid Hh) as (h' & -> & Hh'). cbn [mbind result_bind].
    pose proof (hr_range _ _ _ Hh) as Hr. apply Forall_app in Hr as [_ [[Hk Hb] _]%Forall_cons]. cbn in Hk, Hb.
    rewrite <- app_assoc in *. cbn [app] in *.
    rewrite fill_shard_ok; try done.
    + cbn [mbind result_bind]. by apply IH.
    + rewrite fmap_app, fmap_cons in Hnd. apply NoDup_app in Hnd as (_ & _ & Hnd). by apply NoDup_cons in Hnd as [? _].
Qed.

Lemma filled_nil id (cache : list DecodeShard) (flags : list bool) : length cache = ss -> length flags = ss ->
  mkFilled 0 0 ((fun _ => decode_shard_default) <$> cache) ((fun _ => false) <$> flags) = filled id [].
Proof.
  intros Hc Hf. unfold filled. f_equal; unfold filled_cache, filled_flags.
  - rewrite !(const_fmap _ _ decode_shard_default) by done. by rewrite Hc, length_seq.
  - rewrite !(const_fmap _ _ false) by done. by rewrite Hf, length_seq.
Qed.

(** ** The shards handed to the codec *)

(** The RS shards made [n] bytes long; a missing one is empty. *)
Definition shard_views (n : nat) (m : gmap nat (list Z)) : list (list Z) :=
  (fun k => from_option (resize n 0%Z) [] (m !! k)) <$> seq 0 ss.

Lemma length_shard_views n m : length (shard_views n m) = ss.
Proof. unfold shard_views. by rewrite length_fmap, length_seq. Qed.

Lemma shard_views_lookup n m k : k < ss -> shard_views n m !! k = Some (from_option (resize n 0%Z) [] (m !! k)).
Proof. intros Hk. unfold shard_views. by rewrite list_lookup_fmap, lookup_seq_lt. Qed.

Lemma imap_fmap_seq {A B} (f : nat -> A -> B) (g : nat -> A) n : imap f (g <$> seq 0 n) = (fun k => f k (g k)) <$> seq 0 n.
Proof.
  apply list_eq. intros k. rewrite list_lookup_imap, !list_lookup_fmap.
  destruct (decide (k < n)); [by rewrite lookup_seq_lt|]. by rewrite lookup_ge_None_2 by (rewrite length_seq; lia).
Qed.

Lemma zip_with_fmap_seq {A B C} (h : A -> B -> C) (f : nat -> A) (g : nat -> B) n :
  zip_with h (f <$> seq 0 n) (g <$> seq 0 n) = (fun k => h (f k) (g k)) <$> seq 0 n.
Proof. by rewrite zip_with_fmap_l, zip_with_fmap_r, zip_with_diag. Qed.

Definition equalized (id : Z) (n : nat) (m : gmap nat (list Z)) : list DecodeShard :=
  (fun k => match m !! k with
            | Some r => mkDecodeShard (resize (6 + n) 0%Z (shard_packet ds ss id k r)) 6
            | None => decode_shard_default
            end) <$> seq 0 ss.

Lemma equalize_ok id n m : equalize ds n (filled_cache id m) (filled_flags m) = equalized id n m.
Proof.
  unfold equalize, filled_cache, filled_flags, equalized.
  rewrite drop_ge, app_nil_r by (rewrite !length_fmap; lia). rewrite zip_with_fmap_seq, imap_fmap_seq.
  apply list_fmap_ext. intros _ k _. destruct (m !! k) as [r|]; cbn [bool_decide].
  - by rewrite bool_decide_true by done.
  - rewrite bool_decide_false by (by intros [? ?]). by case_goal.
Qed.

Lemma resize_shard_packet id n k r : resize (6 + n) 0%Z (shard_packet ds ss id k r) =
  (le_bytes 4 (shard_seqid ss id k) ++ le_bytes 2 (shard_type ds k)) ++ resize n 0%Z r.
Proof.
  unfold shard_packet, fec_packet. rewrite app_assoc, resize_app_ge by (lens; lia). f_equal. lens. f_equal. lia.
Qed.

Lemma equalized_views id n m : shard_view <$> equalized id n m = shard_views n m.
Proof.
  unfold equalized, shard_views. rewrite <- list_fmap_compose. apply list_fmap_ext. intros _ k _. unfold compose.
  destruct (m !! k) as [r|]; [|done]. unfold from_option, shard_view, ds_start, ds_buf.
  rewrite resize_shard_packet. by apply drop_app_length'.
Qed.

(** The missing data shards. *)
Definition missing (m : gmap nat (list Z)) : list nat := filter (fun k => m !! k = None) (seq 0 ds).

Lemma missing_bufs_ok id n m views : length views = ss ->
  missing_bufs ds (zip_with set_shard (equalized id n m) views) (filled_flags m) =
    (fun k => nth k views []) <$> missing m.
Proof.
  intros Hl. assert (views = (fun k => nth k views []) <$> seq 0 ss) as Ev.
  { apply list_eq. intros k. rewrite list_lookup_fmap. destruct (decide (k < ss)) as [Hk|Hk].
    - rewrite lookup_seq_lt by done. destruct (lookup_lt_is_Some_2 views k) as [v Hv]; [lia|].
      by rewrite Hv; cbn; rewrite (nth_lookup_Some _ _ _ _ Hv).
    - rewrite !lookup_ge_None_2; [done|rewrite length_seq; lia|lia]. }
  rewrite Ev at 1. unfold missing_bufs, equalized, filled_flags.
  rewrite !zip_with_fmap_seq, <- fmap_take, take_seq.
  rewrite Nat.min_l by (subst ss; lia). unfold missing. clear Ev Hl.
  induction (seq 0 ds) as [|k l IH]; [done|]. cbn [fmap list_fmap]. rewrite !filter_cons. cbn [snd].
  destruct (m !! k) as [r|] eqn:Em.
  - rewrite bool_decide_true, decide_False, decide_False by (done || by intros []). exact IH.
  - rewrite bool_decide_false, decide_True, decide_True by (done || by intros [? ?]). cbn [fmap list_fmap fst].
    f_equal; [|exact IH]. unfold set_shard. case_bool_decide as Hv; [|done]. rewrite Hv. done.
Qed.

(** ** Decoding a group *)

Lemma length_filter_fmap {A B} (f : A -> B) (P : B -> Prop) `{!forall x, Decision (P x)} l :
  length (filter P (f <$> l)) = length (filter (fun x => P (f x)) l).
Proof. induction l as [|x l IH]; [done|]. rewrite fmap_cons, !filter_cons. case_decide; cbn [length]; lia. Qed.

(** The shards present are as many as the entries. *)
Lemma present_count n es : 0 < n -> NoDup (fst <$> es) -> Forall (fun e => fst e < ss /\ bytes (snd e)) es ->
  length (filter (fun s => nonmissing s) (shard_views n (entry_map es))) = length es.
Proof.
  intros Hn Hnd Hr. unfold shard_views. rewrite length_filter_fmap.
  assert (filter (fun k => Is_true (nonmissing (from_option (resize n 0%Z) [] (entry_map es !! k)))) (seq 0 ss) ≡ₚ fst <$> es) as ->;
    [|by rewrite length_fmap].
  apply NoDup_Permutation; [apply NoDup_filter, NoDup_seq|done|]. intros k. rewrite list_elem_of_filter, elem_of_seq.
  destruct (entry_map es !! k) as [r|] eqn:E.
  - apply entry_map_lookup in E; [|done]. cbn [from_option]. unfold nonmissing. rewrite length_resize, (proj2 (Nat.eqb_neq _ _)) by lia.
    assert (k ∈ fst <$> es) as Hin by (apply list_elem_of_fmap; by exists (k, r)).
    rewrite Forall_forall in Hr. destruct (Hr _ E) as [Hk _]. cbn in Hk. split; [done|]. intros _. split; [done|lia].
  - apply entry_map_None in E. cbn. split; [by intros [[] _]|done].
Qed.

Lemma shard_views_shape n es : NoDup (fst <$> es) -> Forall (fun e => fst e < ss /\ bytes (snd e)) es ->
  Forall (shard_shape n) (shard_views n (entry_map es)).
Proof.
  intros Hnd Hr. apply Forall_fmap, Forall_forall. intros k _. cbn. destruct (entry_map es !! k) as [r|] eqn:E; [right|by left].
  apply entry_map_lookup in E; [|done]. rewrite Forall_forall in Hr. destruct (Hr _ E) as [_ Hb].
  cbn. split; [by apply bytes_resize|apply length_resize].
Qed.

(** Shards with no bytes at all are an error of the codec. *)
Lemma reconstruct_empty c m : total_shards c = ss -> reconstruct_data (shard_views 0 m) c = (Err ShardNoData, shard_views 0 m, c).
Proof.
  intros Ht. unfold reconstruct_data. rewrite length_shard_views, Ht, Nat.eqb_refl. cbn [negb].
  assert (check_shards (length <$> shard_views 0 m) true = Err ShardNoData) as ->; [|done].
  unfold check_shards. destruct (list_find _ _) as [[i n]|] eqn:E; [|done].
  apply list_find_Some in E as (E & Hn & _). exfalso. apply Hn. rewrite list_lookup_fmap in E. apply fmap_Some in E as (v & Ev & ->).
  pose proof (lookup_lt_Some _ _ _ Ev) as Hk. rewrite length_shard_views in Hk. rewrite shard_views_lookup in Ev by done.
  injection Ev as <-. destruct (m !! i); cbn; by rewrite ?length_resize.
Qed.

(** What decoding the group with entries [es] returns. *)
Definition group_recovery (c : Codec) (es : list (nat * list Z)) (recovered : list (list Z)) : Prop :=
  if length (filter (fun e => Is_true (is_data e)) es) =? ds then recovered = []
  else if longest (snd <$> es) =? 0 then recovered = []
  else exists shards' c', reconstruct_data (shard_views (longest (snd <$> es)) (entry_map es)) c = (Ok (), shards', c') /\
    recovered = (fun k => nth k shards' []) <$> missing (entry_map es).

(** The parts of the decoder that decoding a group does not touch. *)
Definition same_decoder (d d' : FecDecoder) : Prop :=
  fd_data_shards d' = fd_data_shards d /\ fd_parity_shards d' = fd_parity_shards d /\
  fd_shard_size d' = fd_shard_size d /\ fd_paws d' = fd_paws d /\
  fd_auto_tune d' = fd_auto_tune d /\ fd_should_tune d' = fd_should_tune d /\
  length (fd_decode_cache d') = length (fd_decode_cache d) /\ length (fd_flag_cache d') = length (fd_flag_cache d) /\
  codec_ok (fd_codec d') /\ same_code (fd_codec d) (fd_codec d').

Lemma recover_ok id es d snmp : fd_data_shards d = ds -> codec_ok (fd_codec d) ->
  data_shards (fd_codec d) = ds -> total_shards (fd_codec d) = ss ->
  length es = ds -> NoDup (fst <$> es) -> Forall (fun e => fst e < ss /\ bytes (snd e)) es ->
  length (filter (fun e => Is_true (is_data e)) es) <> ds ->
  exists recovered c' snmp', recover (filled id es) d snmp = Ok (recovered, d <| fd_codec := c' |>, snmp') /\
    codec_ok c' /\ same_code (fd_codec d) c' /\ group_recovery (fd_codec d) es recovered.
Proof using Hds Hps Hss.
  intros Ed Hc Hcd Hct Hl Hnd Hr Hnall. unfold recover, group_recovery.
  rewrite (proj2 (Nat.eqb_neq _ _)) by done. unfold filled. cbn [fl_maxlen fl_cache fl_flags]. rewrite Ed, equalize_ok, equalized_views.
  destruct (Nat.eqb_spec (longest (snd <$> es)) 0) as [E0|E0].
  - rewrite E0, reconstruct_empty by done. cbn [mbind result_bind]. eexists _, _, _. split; [done|]. by split_and!.
  - destruct (reconstruct_runs (longest (snd <$> es)) (fd_codec d) (shard_views (longest (snd <$> es)) (entry_map es)) Hc)
      as (shards' & c' & E & Hls & Hc' & Hsame & _); [lia|by rewrite length_shard_views|by apply shard_views_shape|rewrite present_count; (done || lia)|].
    rewrite E. cbn [mbind result_bind]. change (fd_data_shards (d <| fd_codec := c' |>)) with (fd_data_shards d).
    rewrite Ed, missing_bufs_ok by by rewrite Hls, length_shard_views.
    eexists _, _, _. split; [done|]. split; [done|]. split; [done|]. by eexists _, _.
Qed.

(** What recovery makes of bytes is bytes. *)
Lemma group_recovery_bytes c es recovered : codec_ok c -> data_shards c = ds -> total_shards c = ss -> length es = ds ->
  NoDup (fst <$> es) -> Forall (fun e => fst e < ss /\ bytes (snd e)) es -> group_recovery c es recovered -> Forall bytes recovered.
Proof using Hds Hps Hss.
  intros Hc Hcd Hct Hl Hnd Hr. unfold group_recovery. case_goal; [by intros ->|].
  destruct (Nat.eqb_spec (longest (snd <$> es)) 0) as [E0|E0]; [by intros ->|]. intros (shards' & c' & E & ->).
  set (n := longest (snd <$> es)) in *. set (views := shard_views n (entry_map es)) in *.
  assert (Hlv : length views = ss) by apply length_shard_views.
  destruct (reconstruct_runs n c views Hc) as (shards2 & c2 & E2 & Hls & _ & _ & _ & Hmiss);
    [lia|by rewrite Hlv|by apply shard_views_shape|unfold views, n; rewrite present_count; (done || lia)|].
  rewrite E2 in E. injection E as -> _. apply Forall_fmap, Forall_forall. intros k [Hnone Hk%elem_of_seq]%list_elem_of_filter. cbn in Hk |- *.
  assert (Hv : views !! k = Some []).
  { unfold views. rewrite shard_views_lookup by lia. cbn in Hnone. by rewrite Hnone. }
  destruct (Hmiss k) as (d & Ed & m & v & inv & Em & Hdec & Hval & ->); [lia|done|]. rewrite (nth_lookup_Some _ _ _ _ Ed).
  apply combine_rows_ok; [apply mrow_bytes, Hdec|]. apply Forall_fmap, Forall_forall. intros i Hi. cbn.
  destruct (Hval i Hi) as (s & Es & Hs). rewrite (nth_lookup_Some _ _ _ _ Es).
  destruct (Forall_lookup_1 _ _ _ _ (shard_views_shape n es Hnd Hr) Es) as [->|]; done.
Qed.

Lemma decode_group_ok id h es d snmp : group_ok ss id -> heap_rep id h es -> length es = ds ->
  fd_data_shards d = ds -> fd_shard_size d = ss -> codec_ok (fd_codec d) ->
  data_shards (fd_codec d) = ds -> total_shards (fd_codec d) = ss ->
  length (fd_decode_cache d) = ss -> length (fd_flag_cache d) = ss ->
  exists recovered d' snmp', decode_group id h d snmp = Ok (recovered, d', snmp') /\ same_decoder d d' /\
    fd_shard_set d' = <[id := shard_heap_default]> (fd_shard_set d) /\ fd_newest_shard_id d' = fd_newest_shard_id d /\
    group_recovery (fd_codec d) es recovered.
Proof using Hds Hps Hss.
  intros Hid Hh Hl Ed Es Hc Hcd Hct Hdc Hfc. unfold decode_group.
  change (fd_decode_cache (_ <| fd_flag_cache := _ |>)) with ((fun _ => decode_shard_default) <$> fd_decode_cache d).
  cbn [fd_flag_cache field_update]. 
  change (fd_flag_cache (_ <| fd_flag_cache := ?x |>)) with ((fun _ => false) <$> fd_flag_cache d).
  change (fd_shard_size (_ <| fd_flag_cache := _ |>)) with (fd_shard_size d).
  rewrite (filled_nil id) by done. rewrite Es.
  assert (shard_heap_len h = length es) as -> by (unfold shard_heap_len; rewrite (hr_elements _ _ _ Hh); apply length_fmap).
  rewrite (fill_cache_ok id Hid es h []) by (done || rewrite app_nil_r; apply Hh). rewrite app_nil_r. cbn [mbind result_bind].
  set (d1 := _ <| fd_flag_cache := fl_flags (filled id es) |>).
  change (fl_num_data (filled id es)) with (length (filter (fun e => Is_true (is_data e)) es)).
  change (fd_data_shards d1) with (fd_data_shards d). rewrite Ed.
  assert (length (fl_flags (filled id es)) = ss) as Hff by (cbn; unfold filled_flags; by rewrite length_fmap, length_seq).
  destruct (Nat.eqb_spec (length (filter (fun e => Is_true (is_data e)) es)) ds) as [Ea|Ea].
  - cbn [mbind result_bind]. eexists _, _, _. split; [done|]. split; [|split; [done|split; [done|]]].
    + split_and!; try done; cbn; unfold filled_flags; rewrite ?length_fmap, ?length_seq; (done || congruence).
    + unfold group_recovery. by rewrite Ea, Nat.eqb_refl.
  - destruct (recover_ok id es d1 snmp) as (recovered & c' & snmp' & -> & Hc' & Hsame & Hrec); try done; try apply Hh.
    cbn [mbind result_bind]. eexists _, _, _. split; [done|]. split; [|done].
    split_and!; try done; cbn; unfold filled_flags; rewrite ?length_fmap, ?length_seq; (done || congruence || apply Hsame).
Qed.
End Group.

(** ** The decoder's invariant *)

Record dec_ok (d : FecDecoder) : Prop := {
  do_size : fd_shard_size d = fd_data_shards d + fd_parity_shards d;
  do_pos : 0 < fd_data_shards d /\ 0 < fd_parity_shards d /\ fd_shard_size d <= 256;
  do_paws : fd_paws d = paws (fd_shard_size d);
  do_codec : codec_ok (fd_codec d);
  do_shards : data_shards (fd_codec d) = fd_data_shards d /\ parity_shards (fd_codec d) = fd_parity_shards d;
  do_caches : length (fd_decode_cache d) = fd_shard_size d /\ length (fd_flag_cache d) = fd_shard_size d;
  do_tune : at_ok (fd_auto_tune d);
  do_sets : forall id h, fd_shard_set d !! id = Some h -> group_ok (fd_shard_size d) id /\
    exists es, heap_rep (fd_data_shards d) (fd_parity_shards d) id h es /\ length es < fd_data_shards d;
}.

Lemma do_total d : dec_ok d -> total_shards (fd_codec d) = fd_shard_size d.
Proof. intros Hd. rewrite (cs_total _ (proj1 (do_codec _ Hd))), (do_size _ Hd). destruct (do_shards _ Hd). congruence. Qed.

(** The entries of group [id]. *)
Definition entries_of (d : FecDecoder) (id : Z) (es : list (nat * list Z)) : Prop :=
  match fd_shard_set d !! id with
  | Some h => heap_rep (fd_data_shards d) (fd_parity_shards d) id h es
  | None => es = []
  end.

Lemma entries_exist d id : dec_ok d -> exists es, entries_of d id es /\ length es < fd_data_shards d.
Proof.
  intros Hd. unfold entries_of. destruct (fd_shard_set d !! id) as [h|] eqn:E.
  - by destruct (do_sets _ Hd _ _ E) as [_ ?].
  - exists []. split; [done|]. cbn. apply Hd.
Qed.

(** A decoder that differs in the fields decoding a group may change. *)
Lemma dec_ok_same d d' : dec_ok d -> same_decoder d d' ->
  (forall id h, fd_shard_set d' !! id = Some h -> group_ok (fd_shard_size d) id /\
    exists es, heap_rep (fd_data_shards d) (fd_parity_shards d) id h es /\ length es < fd_data_shards d) ->
  dec_ok d'.
Proof.
  intros [] (E1 & E2 & E3 & E4 & E5 & E6 & E7 & E8 & Hc & Hs1 & Hs2 & Hs3 & Hs4) Hsets.
  constructor; rewrite ?E1, ?E2, ?E3, ?E4, ?E5, ?E6, ?E7, ?E8, ?Hs1, ?Hs2; done.
Qed.

Lemma same_decoder_refl d : dec_ok d -> same_decoder d d.
Proof. intros []. by split_and!. Qed.

Lemma same_decoder_trans d1 d2 d3 : same_decoder d1 d2 -> same_decoder d2 d3 -> same_decoder d1 d3.
Proof. unfold same_decoder, same_code. intuition congruence. Qed.

(** The newest group after a packet of group [id]. *)
Definition newer (d : FecDecoder) (id : Z) : Z :=
  let ss := Z.of_nat (fd_shard_size d) in
  if (0 <? _itimediff (wmul32 id ss) (wmul32 (fd_newest_shard_id d) ss))%Z then id else fd_newest_shard_id d.

(** Whether [discard_shards] keeps group [id]. *)
Definition kept (d : FecDecoder) (newest id : Z) : bool :=
  let ss := Z.of_nat (fd_shard_size d) in keep_shard (wmul32 newest ss) (MAX_SHARD_SETS * ss) ss id.

(** What a packet of group [id] does: [es] are the entries the group has. *)
Definition packet_effect (d : FecDecoder) (id : Z) (k : nat) (r : list Z) (es : list (nat * list Z))
    (recovered : list (list Z)) (d' : FecDecoder) : Prop :=
  if decide (k ∈ fst <$> es) then recovered = [] /\ fd_shard_set d' = fd_shard_set d /\ fd_newest_shard_id d' = fd_newest_shard_id d
  else
    fd_newest_shard_id d' = newer d id /\
    exists h, fd_shard_set d' = filter (fun kv => Is_true (kept d (newer d id) (fst kv))) (<[id := h]> (fd_shard_set d)) /\
      if length es + 1 =? fd_data_shards d
      then h = shard_heap_default /\ group_recovery (fd_data_shards d) (fd_parity_shards d) (fd_codec d) (es ++ [(k, r)]) recovered
      else heap_rep (fd_data_shards d) (fd_parity_shards d) id h (es ++ [(k, r)]) /\ recovered = [].

Lemma discard_shards_ok d snmp :
  exists snmp', discard_shards d snmp =
    (d <| fd_shard_set := filter (fun kv => Is_true (kept d (fd_newest_shard_id d) (fst kv))) (fd_shard_set d) |>, snmp').
Proof. by eexists. Qed.

(** The last steps of [decode]: the newest group and the old ones. *)
Lemma decode_tail d id snmp :
  exists snmp', 
    (let '(d, snmp) :=
       if (0 <? _itimediff (wmul32 id (Z.of_nat (fd_shard_size d))) (wmul32 (fd_newest_shard_id d) (Z.of_nat (fd_shard_size d))))%Z
       then (d <| fd_newest_shard_id := id |>, snmp <| fec_shard_min := id |>) else (d, snmp) in
     discard_shards d snmp) =
    (d <| fd_newest_shard_id := newer d id |>
       <| fd_shard_set := filter (fun kv => Is_true (kept d (newer d id) (fst kv))) (fd_shard_set d) |>, snmp').
Proof. unfold newer. destruct (_ <? _)%Z; [by eexists|]. destruct d. by eexists. Qed.

(** The invariant holds for the sets kept. *)
Lemma kept_sets d (m : gmap Z ShardHeap) (P : Z * ShardHeap -> Prop) `{!forall x, Decision (P x)} :
  (forall id h, m !! id = Some h -> group_ok (fd_shard_size d) id /\
    exists es, heap_rep (fd_data_shards d) (fd_parity_shards d) id h es /\ length es < fd_data_shards d) ->
  forall id h, filter P m !! id = Some h -> group_ok (fd_shard_size d) id /\
    exists es, heap_rep (fd_data_shards d) (fd_parity_shards d) id h es /\ length es < fd_data_shards d.
Proof. intros Hm id h [Hh _]%map_lookup_filter_Some. by apply Hm. Qed.

Lemma inserted_sets d id h es : dec_ok d -> group_ok (fd_shard_size d) id ->
  heap_rep (fd_data_shards d) (fd_parity_shards d) id h es -> length es < fd_data_shards d ->
  forall id' h', <[id := h]> (fd_shard_set d) !! id' = Some h' -> group_ok (fd_shard_size d) id' /\
    exists es, heap_rep (fd_data_shards d) (fd_parity_shards d) id' h' es /\ length es < fd_data_shards d.
Proof.
  intros Hd Hid Hh Hl id' h'. rewrite lookup_insert. case_decide as E.
  - intros [= <-]. subst id'. split; [done|]. by exists es.
  - apply Hd.
Qed.

(** A new packet of a group: the heap it joins, and the group if it is complete. *)
Lemma join_group d id k r h es snmp : dec_ok d -> group_ok (fd_shard_size d) id -> k < fd_shard_size d -> bytes r ->
  heap_rep (fd_data_shards d) (fd_parity_shards d) id h es -> length es < fd_data_shards d -> k ∉ fst <$> es ->
  let pkt := shard_packet (fd_data_shards d) (fd_shard_size d) id k r in
  exists h1 h2 recovered d' snmp', shard_heap_push pkt h = Ok h1 /\
    (if fd_data_shards d <=? shard_heap_len h1 then decode_group id h1 (d <| fd_shard_set := <[id := h1]> (fd_shard_set d) |>) snmp
     else Ok ([], d <| fd_shard_set := <[id := h1]> (fd_shard_set d) |>, snmp)) = Ok (recovered, d', snmp') /\
    same_decoder d d' /\ fd_shard_set d' = <[id := h2]> (fd_shard_set d) /\ fd_newest_shard_id d' = fd_newest_shard_id d /\
    if length es + 1 =? fd_data_shards d
    then h2 = shard_heap_default /\ group_recovery (fd_data_shards d) (fd_parity_shards d) (fd_codec d) (es ++ [(k, r)]) recovered
    else heap_rep (fd_data_shards d) (fd_parity_shards d) id h2 (es ++ [(k, r)]) /\ recovered = [].
Proof.
  intros Hd Hid Hk Hb Hh Hl Hnew. cbv zeta. pose proof (do_total _ Hd) as Htot.
  pose proof Hd as [Hss (Hds & Hps & Hmax) Hpaws Hc [Hcd Hcp] [Hdc Hfc] _ _]. rewrite Hss in *.
  destruct (heap_rep_push _ _ Hds Hps Hmax id h es k r Hid Hh Hk Hb Hnew) as (h1 & Ep & Hh1 & El).
  exists h1.
  assert (Nat.leb (fd_data_shards d) (length es + 1) = (length es + 1 =? fd_data_shards d)) as Eleb.
  { destruct (Nat.leb_spec (fd_data_shards d) (length es + 1)), (Nat.eqb_spec (length es + 1) (fd_data_shards d)); done || lia. }
  destruct (Nat.eqb_spec (length es + 1) (fd_data_shards d)) as [Ec|Ec].
  - destruct (decode_group_ok _ _ Hds Hps Hmax id h1 (es ++ [(k, r)]) (d <| fd_shard_set := <[id := h1]> (fd_shard_set d) |>) snmp)
      as (recovered & d' & snmp' & E & Hsame & Hset & Hnewest & Hrec); try done.
    { by rewrite length_app. }
    exists shard_heap_default, recovered, d', snmp'. split; [done|]. rewrite El, Eleb. split; [done|]. split; [done|].
    split; [|by split_and!]. rewrite Hset. cbn. by rewrite insert_insert_eq.
  - exists h1, [], (d <| fd_shard_set := <[id := h1]> (fd_shard_set d) |>), snmp.
    split; [done|]. rewrite El, Eleb. split; [done|]. split; [|done]. by split_and!.
Qed.

Lemma decode_packet_ok d id k r es snmp : dec_ok d -> group_ok (fd_shard_size d) id -> k < fd_shard_size d -> bytes r ->
  entries_of d id es -> length es < fd_data_shards d ->
  exists recovered d' snmp',
    decode_packet (shard_seqid (fd_shard_size d) id k) (shard_type (fd_data_shards d) k)
      (shard_packet (fd_data_shards d) (fd_shard_size d) id k r) d snmp = Ok (recovered, d', snmp') /\
    dec_ok d' /\ same_decoder d d' /\ packet_effect d id k r es recovered d'.
Proof.
  intros Hd Hid Hk Hb Hes Hl. pose proof Hd as [Hss (Hds & Hps & Hmax) Hpaws Hc _ _ _ _]. unfold decode_packet, get_shard_id.
  assert ((shard_seqid (fd_shard_size d) id k / Z.of_nat (fd_shard_size d))%Z = id) as ->.
  { rewrite Hss in Hid, Hk, Hmax |- *. by destruct (shard_seqid_ok _ _ Hds Hps Hmax id k Hid Hk) as (_ & _ & _ & ?). }
  set (sn := match fd_shard_set d !! id with Some _ => _ | None => _ end).
  assert (exists h s, sn = (h, s) /\ heap_rep (fd_data_shards d) (fd_parity_shards d) id h es /\
    (es <> [] -> fd_shard_set d !! id = Some h)) as (h & s & Esn & Hh & Hsome).
  { subst sn. unfold entries_of in Hes. destruct (fd_shard_set d !! id) as [h|]; [by eexists _, _|].
    rewrite Hes. eexists _, _. split; [reflexivity|]. split; [apply heap_rep_default; lia|]. intros []. reflexivity. }
  rewrite Esn. clear sn Esn. unfold packet_effect.
  assert (shard_heap_has (shard_seqid (fd_shard_size d) id k) h = bool_decide (k ∈ fst <$> es)) as ->.
  { apply eq_bool_prop_intro. rewrite !Is_true_true, bool_decide_eq_true, Hss. apply heap_rep_has; (done || lia). }
  destruct (decide (k ∈ fst <$> es)) as [Hin|Hin]; [rewrite bool_decide_true by done|rewrite bool_decide_false by done].
  - assert (<[id := h]> (fd_shard_set d) = fd_shard_set d) as Ei.
    { apply insert_id, Hsome. intros ->. by apply elem_of_nil in Hin. }
    eexists _, _, _. split; [done|]. split; [|split; [by split_and!; destruct Hd|]].
    2: { split; [done|]. split; [exact Ei|done]. }
    apply (dec_ok_same d); [done|by split_and!; destruct Hd|]. cbn. rewrite Ei. apply Hd.
  - set (snmp1 := if (_ =? TYPE_PARITY)%Z then _ else s). clearbody snmp1.
    destruct (join_group d id k r h es snmp1 Hd Hid Hk Hb Hh Hl Hin) as (h1 & h2 & recovered & d2 & s2 & -> & E & Hsame & Hset & Hnewest & Heff).
    cbn [mbind result_bind].
    match type of E with _ = ?rhs => match goal with |- context [if ?c then ?t else ?f] =>
      assert ((if c then t else f) = rhs) as -> end end.
    { rewrite <- E. cbn. by rewrite insert_insert_eq. }
    cbn [mbind result_bind]. pose proof Hsame as (_ & _ & E3 & _).
    destruct (decode_tail d2 id s2) as [s3 E2]. rewrite E3 in E2.
    match goal with |- context [let '(d, snmp) := ?x in let '(d', snmp') := discard_shards d snmp in Ok (?rc, d', snmp')] =>
      assert ((let '(d, snmp) := x in let '(d', snmp') := discard_shards d snmp in @Ok Empty_set _ (rc, d', snmp')) =
        (let '(d', snmp') := (let '(d, snmp) := x in discard_shards d snmp) in Ok (rc, d', snmp'))) as -> by
      (by destruct x) end.
    rewrite E2. eexists _, _, _. split; [done|].
    assert (newer d2 id = newer d id) as Enw by (unfold newer; by rewrite E3, Hnewest).
    assert (forall n i, kept d2 n i = kept d n i) as Ek by (intros; unfold kept; by rewrite E3).
    assert (same_decoder d (d2 <| fd_newest_shard_id := newer d2 id |>
       <| fd_shard_set := filter (fun kv => Is_true (kept d2 (newer d2 id) (fst kv))) (fd_shard_set d2) |>)) as Hsame' by done.
    split; [|split; [done|]].
    + apply (dec_ok_same d); [done|done|]. cbn. apply kept_sets. rewrite Hset.
      destruct (Nat.eqb_spec (length es + 1) (fd_data_shards d)) as [Ec|Ec].
      * destruct Heff as [-> _]. apply (inserted_sets d id _ []); [done|done|apply heap_rep_default; lia|cbn; lia].
      * destruct Heff as [Hh2 _]. apply (inserted_sets d id _ _ Hd Hid Hh2). rewrite length_app. cbn. lia.
    + cbn. rewrite Enw, Hset. split; [done|]. exists h2. split; [|done].
      apply map_filter_ext. intros i x _. by rewrite Ek.
Qed.

(** ** One call of [decode] *)

Lemma dec_ok_tuned d t b : dec_ok d -> at_ok t -> dec_ok (d <| fd_auto_tune := t |> <| fd_should_tune := b |>).
Proof. intros [] Ht. by constructor. Qed.

Lemma tune_ok d : dec_ok d -> exists d', tune d = Ok d' /\ dec_ok d'.
Proof.
  intros Hd. unfold tune.
  destruct (find_period_ok true _ (do_tune _ Hd)) as (w1 & t1 & -> & Ht1 & _ & Hw1 & _). cbn [mbind result_bind].
  destruct (find_period_ok false _ Ht1) as (w2 & t2 & -> & Ht2 & _ & Hw2 & _). cbn [mbind result_bind].
  assert (dec_ok (d <| fd_auto_tune := t2 |>)) as Hd2 by (destruct Hd; by constructor).
  destruct (Z.ltb_spec 0 w1); cbn [andb]; [|by eexists].
  destruct (Z.ltb_spec 0 w2); cbn [andb]; [|by eexists].
  destruct (Z.ltb_spec (w1 + w2) 256); [|by eexists].
  destruct (negb _ || negb _).
  - destruct (codec_new_total (Z.to_nat w1) (Z.to_nat w2)) as [c Ec]; [lia..|]. rewrite Ec.
    destruct (codec_new_shape _ _ _ Ec) as (_ & Ecd & Ecp & _). eexists. split; [done|].
    constructor; cbn; try done.
    + lia.
    + by eapply codec_new_ok.
    + unfold new_decode_cache. by rewrite !length_replicate.
  - eexists. split; [done|]. destruct Hd2. by constructor.
Qed.

Lemma fec_decoder_new_ok ds ps :
  match fec_decoder_new ds ps with
  | Ok None => (ds <= 0 \/ ps <= 0 \/ 256 < ds + ps)%Z
  | Ok (Some d) => (0 < ds /\ 0 < ps /\ ds + ps <= 256)%Z /\ dec_ok d /\ fd_data_shards d = Z.to_nat ds /\
      fd_parity_shards d = Z.to_nat ps /\ fd_shard_set d = ∅ /\ fd_newest_shard_id d = 0%Z /\ fd_should_tune d = false
  | _ => False
  end.
Proof.
  unfold fec_decoder_new. destruct (Z.leb_spec ds 0); [cbn; lia|]. destruct (Z.leb_spec ps 0); [cbn; lia|]. cbn [orb].
  destruct (Z.ltb_spec 256 (ds + ps)); [lia|].
  destruct (codec_new_total (Z.to_nat ds) (Z.to_nat ps)) as [c Ec]; [lia..|]. rewrite Ec.
  destruct (codec_new_shape _ _ _ Ec) as (_ & Ecd & Ecp & _).
  split; [lia|]. split; [|done]. constructor; cbn; try done.
  - lia.
  - by eapply codec_new_ok.
  - unfold new_decode_cache. by rewrite !length_replicate.
  - apply auto_tune_new_ok.
Qed.

(** A packet below the wrap, of the type its number asks for, while the decoder
    is in tune, joins its group. *)
Lemma decode_in_tune d id k r snmp : dec_ok d -> group_ok (fd_shard_size d) id -> k < fd_shard_size d ->
  fd_should_tune d = false ->
  exists t, at_ok t /\
  decode (shard_packet (fd_data_shards d) (fd_shard_size d) id k r) d snmp =
  decode_packet (shard_seqid (fd_shard_size d) id k) (shard_type (fd_data_shards d) k)
    (shard_packet (fd_data_shards d) (fd_shard_size d) id k r) (d <| fd_auto_tune := t |>) snmp.
Proof.
  intros Hd Hid Hk Ht. pose proof Hd as [Hss (Hds & Hps & Hmax) Hpaws Hc _ _ Htune _]. unfold decode.
  assert (length (shard_packet (fd_data_shards d) (fd_shard_size d) id k r) = 6 + length r) as -> by apply length_fec_packet.
  unfold FEC_HEADER_SIZE. rewrite (proj2 (Nat.ltb_ge _ _)) by lia.
  rewrite Hss in Hid, Hk, Hmax.
  pose proof (shard_packet_seqid _ _ Hds Hps Hmax id k r Hid Hk) as Eseq.
  pose proof (shard_packet_flag (fd_data_shards d) (fd_parity_shards d) id k r) as Eflag.
  destruct (shard_seqid_ok _ _ Hds Hps Hmax id k Hid Hk) as (_ & Hlt & Hmod & _). rewrite <- Hss in *.
  rewrite Eseq, Eflag.
  cbn [mbind result_bind].
  destruct (sample_ok (shard_type (fd_data_shards d) k =? TYPE_DATA)%Z (shard_seqid (fd_shard_size d) id k) _ Htune) as (t & -> & Ht' & _).
  cbn [mbind result_bind]. exists t. split; [done|].
  change (fd_paws (d <| fd_auto_tune := t |>)) with (fd_paws d). rewrite Hpaws, (proj2 (Z.leb_gt _ _)) by done.
  assert (type_mismatch (shard_seqid (fd_shard_size d) id k) (shard_type (fd_data_shards d) k) (d <| fd_auto_tune := t |>) = false) as ->.
  { unfold type_mismatch. change (fd_shard_size (d <| fd_auto_tune := t |>)) with (fd_shard_size d).
    change (fd_data_shards (d <| fd_auto_tune := t |>)) with (fd_data_shards d). rewrite Hmod. unfold shard_type.
    destruct (Z.ltb_spec (Z.of_nat k) (Z.of_nat (fd_data_shards d))), (Nat.ltb_spec k (fd_data_shards d)); done || lia. }
  change (fd_should_tune (d <| fd_auto_tune := t |>)) with (fd_should_tune d). by rewrite Ht.
Qed.

(** What a packet of a group recovers is bytes. *)
Lemma packet_effect_bytes d id k r es recovered d' : dec_ok d -> k < fd_shard_size d -> bytes r -> entries_of d id es ->
  packet_effect d id k r es recovered d' -> Forall bytes recovered.
Proof.
  intros Hd Hk Hb Hes. pose proof (do_total _ Hd) as Htot. pose proof Hd as [Hss (Hds & Hps & Hmax) _ Hc [Hcd _] _ _ _].
  rewrite Hss in *. unfold packet_effect. destruct (decide (k ∈ fst <$> es)) as [|Hnew]; [by intros (-> & _)|].
  intros (_ & h & _ & Hcase). destruct (Nat.eqb_spec (length es + 1) (fd_data_shards d)) as [El|]; [|by destruct Hcase as [_ ->]].
  destruct Hcase as [_ Hrec]. eapply group_recovery_bytes; [exact Hds|exact Hps|exact Hmax|exact Hc|exact Hcd|exact Htot| | | |exact Hrec].
  - by rewrite length_app.
  - rewrite fmap_app. apply NoDup_app. split_and!; [|intros x Hx ->%list_elem_of_singleton; done|apply NoDup_singleton].
    unfold entries_of in Hes. destruct (fd_shard_set d !! id); [apply Hes|subst es; constructor].
  - apply Forall_app. split; [|by apply Forall_singleton].
    unfold entries_of in Hes. destruct (fd_shard_set d !! id); [apply Hes|subst es; constructor].
Qed.

(** [decode] never panics, whatever arrives, and keeps the invariant. *)
Lemma decode_bytes pkt d snmp : dec_ok d -> bytes pkt ->
  exists recovered d' snmp', decode pkt d snmp = Ok (recovered, d', snmp') /\ dec_ok d' /\ Forall bytes recovered.
Proof.
  intros Hd Hb. pose proof Hd as [Hss (Hds & Hps & Hmax) Hpaws Hc _ _ Htune _]. unfold decode.
  destruct (Nat.ltb_spec (length pkt) FEC_HEADER_SIZE) as [|Hl]; [by eexists _, _, _|]. unfold FEC_HEADER_SIZE in Hl.
  destruct (packet_parse pkt Hb Hl) as (seqid & flag & Es & Ef & Hu & _ & _). rewrite Es, Ef. cbn [mbind result_bind].
  destruct (sample_ok (flag =? TYPE_DATA)%Z seqid _ Htune) as (t & -> & Ht & _). cbn [mbind result_bind].
  set (d1 := d <| fd_auto_tune := t |>). assert (dec_ok d1) as Hd1 by (destruct Hd; by constructor).
  destruct (Z.leb_spec (fd_paws d1) seqid) as [|Hlt]; [by eexists _, _, _|].
  destruct (type_mismatch seqid flag d1) eqn:Em.
  { assert (dec_ok (d1 <| fd_should_tune := true |>)) as Hd2 by (destruct Hd1; by constructor).
    cbn [fd_should_tune field_update]. destruct (tune_ok _ Hd2) as (d' & E & Hd').
    change (fd_should_tune (d1 <| fd_should_tune := true |>)) with true. cbv iota. rewrite E. by eexists _, _, _. }
  destruct (fd_should_tune d1).
  { destruct (tune_ok _ Hd1) as (d' & -> & Hd'). by eexists _, _, _. }
  change (fd_paws d1) with (fd_paws d) in Hlt. rewrite Hpaws in Hlt. unfold is_u32 in Hu.
  destruct (packet_of_group (fd_data_shards d1) (fd_parity_shards d1) ltac:(done) ltac:(done) ltac:(change (fd_data_shards d + fd_parity_shards d <= 256); lia)
    pkt seqid flag Hb Hl Es Ef) as (Hid & Hk & Eseq & Eflag & Epkt).
  { change (fd_data_shards d1 + fd_parity_shards d1) with (fd_data_shards d + fd_parity_shards d). rewrite <- Hss. lia. }
  { unfold type_mismatch in Em. change (fd_shard_size d1) with (fd_shard_size d) in Em. rewrite Hss in Em.
    change (fd_data_shards d1 + fd_parity_shards d1) with (fd_data_shards d + fd_parity_shards d).
    destruct (_ <? _)%Z; by apply negb_false_iff, Z.eqb_eq in Em. }
  rewrite <- (do_size _ Hd1) in *.
  destruct (entries_exist d1 (seqid / Z.of_nat (fd_shard_size d1)) Hd1) as (es & Hes & Hl').
  rewrite Eseq, Eflag, Epkt.
  destruct (decode_packet_ok d1 _ _ (drop 6 pkt) es snmp Hd1 Hid Hk ltac:(auto with bytes) Hes Hl')
    as (recovered & d' & snmp' & E & Hd' & _ & Heff).
  apply packet_effect_bytes in Heff; [|done|done|by auto with bytes|done].
  rewrite <- Eseq, <- Eflag, <- Epkt in E |- *. rewrite E. by eexists _, _, _.
Qed.

Lemma decode_ok pkt d snmp : dec_ok d -> bytes pkt ->
  exists recovered d' snmp', decode pkt d snmp = Ok (recovered, d', snmp') /\ dec_ok d'.
Proof. intros Hd Hb. destruct (decode_bytes pkt d snmp Hd Hb) as (r & d' & s' & E & Hd' & _). by exists r, d', s'. Qed.
