(* ===== verification/FecRun.v ===== *)
(** Runs of the FEC decoder on a genuine stream.

    The peer's groups are a function [G] from group numbers to data regions;
    [genuine] is a packet of that stream, data or parity.  For packets that arrive
    in any order, any number of times, the decoder returns only padded data
    regions of the stream ([run_sound]), and every data region of a group that
    [data_shards] different packets have arrived from is received or returned
    ([progress_complete]), if they arrive before the first packet of a group so much
    newer that the decoder discards it.  The second half: what an encoder run puts on the
    wire are packets of such a stream. *)
From stdpp Require Import base list gmap.
From Stdlib Require Import ZArith Lia.
From S2P Require Import Prelude Word Env Galois GfVector Matrix Codec CodecSpec RsDecode GoSort AutoTune Fec.
From S2P Require Import FecLayout FecEncoderSpec FecDecoderSpec.

(** [decode] on one packet after the other. *)
Fixpoint decoder_run (pkts : list (list Z)) (d : FecDecoder) (snmp : Snmp) : io (list (list Z) * FecDecoder * Snmp) :=
  match pkts with
  | [] => Ok ([], d, snmp)
  | pkt :: pkts =>
      r ← decode pkt d snmp;
      let '(out, d, snmp) := r in
      r ← decoder_run pkts d snmp;
      let '(outs, d, snmp) := r in
      Ok (out ++ outs, d, snmp)
  end.

Lemma decoder_run_app pkts pkts' d snmp :
  decoder_run (pkts ++ pkts') d snmp =
    (r ← decoder_run pkts d snmp;
     let '(out, d, snmp) := r in
     r ← decoder_run pkts' d snmp;
     let '(outs, d, snmp) := r in
     Ok (out ++ outs, d, snmp)).
Proof.
  revert d snmp. induction pkts as [|pkt pkts IH]; intros d snmp; cbn [app decoder_run mbind result_bind].
  - by destruct (decoder_run pkts' d snmp) as [[[? ?] ?]|?|].
  - destruct (decode pkt d snmp) as [[[out d1] s1]|?|]; cbn [mbind result_bind]; [|done..]. rewrite IH.
    destruct (decoder_run pkts d1 s1) as [[[outs d2] s2]|?|]; cbn [mbind result_bind]; [|done..].
    destruct (decoder_run pkts' d2 s2) as [[[outs' d3] s3]|?|]; cbn [mbind result_bind]; [|done..]. by rewrite app_assoc.
Qed.

Lemma same_code_word c c' n data : same_code c c' -> codeword n c' data = codeword n c data.
Proof. intros (_ & _ & E3 & E4). unfold codeword. by rewrite E3, E4. Qed.

Section Genuine.
Context (ds ps : nat) (c : Codec) (G : Z -> list (list Z)).
Let ss := ds + ps.
Context (Hds : 0 < ds) (Hps : 0 < ps) (Hss : ss <= 256).
Context (Hc : codec_shape c) (Hcd : data_shards c = ds) (Hcp : parity_shards c = ps).
Context (HG : forall id, Forall (fun r => bytes r /\ 2 <= length r) (G id)).

Definition genuine (id : Z) (k : nat) (r : list Z) : Prop :=
  if k <? ds then G id !! k = Some r else length (G id) = ds /\ group_word c (G id) !! k = Some r.

(** What a lost data region comes back as. *)
Definition padded_region (id : Z) (k : nat) : list Z := resize (longest (G id)) 0%Z (nth k (G id) []).

Lemma total_ss : total_shards c = ss.
Proof using Hc Hcd Hcp. rewrite (cs_total _ Hc). subst ss. congruence. Qed.

Lemma G_bytes id : Forall bytes (G id).
Proof using HG. eapply Forall_impl; [apply HG|]. by intros r [? _]. Qed.

Lemma genuine_len id k r : genuine id k r -> 2 <= length r <= longest (G id).
Proof using All.
  unfold genuine. destruct (Nat.ltb_spec k ds).
  - intros Hk. split; [by apply (Forall_lookup_1 _ _ _ _ (HG id) Hk)|]. apply longest_le. by eapply list_elem_of_lookup_2.
  - intros [Hl Hk]. destruct (Forall_lookup_1 _ _ _ _ (group_word_ok c (G id) Hc (G_bytes id)) Hk) as [_ ->].
    split; [|done]. apply longest_pos; [intros E; rewrite E in Hl; cbn in Hl; lia|].
    eapply Forall_impl; [apply HG|]. by intros ? [_ ?].
Qed.

Lemma genuine_bytes id k r : genuine id k r -> bytes r.
Proof using All.
  unfold genuine. destruct (Nat.ltb_spec k ds).
  - intros Hk. by apply (Forall_lookup_1 _ _ _ _ (HG id) Hk).
  - intros [Hl Hk]. by destruct (Forall_lookup_1 _ _ _ _ (group_word_ok c (G id) Hc (G_bytes id)) Hk) as [? _].
Qed.

(** The code word contains the padded data. *)
Lemma genuine_word id k r : length (G id) = ds -> genuine id k r ->
  group_word c (G id) !! k = Some (resize (longest (G id)) 0%Z r).
Proof using All.
  intros Hl Hg. pose proof (genuine_len id k r Hg) as Hlen. unfold genuine in Hg. destruct (Nat.ltb_spec k ds).
  - destruct (codeword_data (longest (G id)) c (padded (longest (G id)) (G id)) Hc) as [_ E].
    + apply padded_ok, G_bytes.
    + unfold padded. rewrite length_fmap. congruence.
    + rewrite Hcd in E. fold (group_word c (G id)) in E. rewrite <- (lookup_take_lt _ ds), E by done.
      unfold padded. by rewrite list_lookup_fmap, Hg.
  - destruct Hg as [_ Hg]. rewrite Hg. f_equal. symmetry. apply resize_all_alt.
    by destruct (Forall_lookup_1 _ _ _ _ (group_word_ok c (G id) Hc (G_bytes id)) Hg) as [_ ->].
Qed.

(** ** Decoding a genuine group *)

Definition entries_genuine (id : Z) (es : list (nat * list Z)) : Prop :=
  Forall (fun e => fst e < ss /\ genuine id (fst e) (snd e)) es.

Lemma elem_of_missing m k : k ∈ missing ds m <-> k < ds /\ m !! k = None.
Proof. unfold missing. rewrite list_elem_of_filter, elem_of_seq. intuition lia. Qed.

Lemma all_data_missing es : NoDup (fst <$> es) -> length es = ds ->
  length (filter (fun e => Is_true (is_data ds e)) es) = ds -> missing ds (entry_map es) = [].
Proof.
  intros Hnd Hl Hf. apply elem_of_nil_inv. intros k [Hk Hm]%elem_of_missing.
  assert (Forall (fun e => Is_true (is_data ds e)) es) as Hall by (apply (filter_full (fun e => Is_true (is_data ds e))); lia).
  assert (fst <$> es ≡ₚ seq 0 ds) as Hperm.
  { apply submseteq_length_Permutation; [|by rewrite length_seq, length_fmap, Hl].
    apply NoDup_submseteq; [done|]. intros j Hj. apply list_elem_of_fmap in Hj as (e & -> & He).
    rewrite Forall_forall in Hall. specialize (Hall e He). unfold is_data in Hall. apply Is_true_true, Nat.ltb_lt in Hall.
    apply elem_of_seq. lia. }
  apply entry_map_None in Hm. apply Hm. rewrite Hperm. apply elem_of_seq. lia.
Qed.

(** A group that is not all data holds a parity shard, as long as the longest
    data shard. *)
Lemma parity_longest id es : entries_genuine id es ->
  length (filter (fun e => Is_true (is_data ds e)) es) <> length es ->
  length (G id) = ds /\ longest (snd <$> es) = longest (G id).
Proof using All.
  intros Hg Hf.
  assert (exists e, e ∈ es /\ ~ Is_true (is_data ds e)) as (e & He & Hn).
  { destruct (decide (Exists (fun e => ~ Is_true (is_data ds e)) es)) as [Hx|Hx].
    - by apply Exists_exists in Hx.
    - exfalso. apply Hf. apply not_Exists_Forall in Hx; [|solve_decision].
      clear - Hx. induction Hx as [|e es He _ IH]; [done|]. rewrite filter_cons, decide_True by (by apply dec_stable). cbn [length]. f_equal. exact IH. }
  unfold entries_genuine in Hg. rewrite Forall_forall in Hg. destruct (Hg e He) as [_ Hge]. unfold genuine in Hge. unfold is_data in Hn.
  destruct (fst e <? ds); [by destruct Hn|]. destruct Hge as [Hl Hw]. split; [done|].
  apply Nat.le_antisymm.
  - assert (forall l m, Forall (fun r : list Z => length r <= m) l -> longest l <= m) as Hle.
    { intros l m Hm. induction Hm as [|r l' Hr _ IH]; [cbn; lia|]. change (longest (r :: l')) with (Nat.max (length r) (longest l')). lia. }
    apply Hle, Forall_fmap, Forall_forall. intros e' He'. destruct (Hg e' He') as [_ Hge']. apply genuine_len in Hge'. cbn. lia.
  - destruct (Forall_lookup_1 _ _ _ _ (group_word_ok c (G id) Hc (G_bytes id)) Hw) as [_ <-].
    apply longest_le, list_elem_of_fmap. by exists e.
Qed.

Lemma views_received id es c0 : NoDup (fst <$> es) -> entries_genuine id es -> length (G id) = ds -> same_code c c0 ->
  Forall2 received (codeword (longest (G id)) c0 (padded (longest (G id)) (G id)))
    (shard_views ds ps (longest (G id)) (entry_map es)).
Proof using All.
  intros Hnd Hg Hl Hsame. rewrite (same_code_word c) by done. fold (group_word c (G id)).
  assert (length (group_word c (G id)) = ss) as Hgl.
  { rewrite length_group_word; [apply total_ss|done|apply G_bytes|congruence]. }
  apply Forall2_same_length_lookup. rewrite length_shard_views. split; [done|]. intros k full v Hf Hv.
  pose proof (lookup_lt_Some _ _ _ Hf) as Hk. rewrite Hgl in Hk. rewrite shard_views_lookup in Hv by done.
  injection Hv as <-. destruct (entry_map es !! k) as [r|] eqn:E; [|by right].
  apply entry_map_lookup in E; [|done]. unfold entries_genuine in Hg. rewrite Forall_forall in Hg. destruct (Hg _ E) as [_ Hge].
  left. cbn. pose proof (genuine_word id k r Hl Hge). congruence.
Qed.

(** The group's missing data regions, all of them, are what decoding returns. *)
Lemma recovery_genuine id es c0 recovered : NoDup (fst <$> es) -> entries_genuine id es -> length es = ds ->
  codec_ok c0 -> same_code c c0 -> group_recovery ds ps c0 es recovered ->
  recovered = padded_region id <$> missing ds (entry_map es).
Proof using All.
  intros Hnd Hg Hl Hc0 Hsame Hr. unfold group_recovery in Hr.
  destruct (Nat.eqb_spec (length (filter (fun e => Is_true (is_data ds e)) es)) ds) as [Ea|Ea].
  { by rewrite all_data_missing. }
  destruct (parity_longest id es Hg) as [HGl Elong]; [lia|]. rewrite Elong in Hr.
  destruct (Nat.eqb_spec (longest (G id)) 0) as [E0|E0].
  { exfalso. destruct es as [|e es]; [cbn in Hl; lia|]. apply Forall_cons in Hg as [[_ Hge] _].
    apply genuine_len in Hge. lia. }
  destruct Hr as (shards' & c' & E & ->). pose proof Hsame as (S1 & S2 & S3 & S4).
  assert (Forall (fun e => fst e < ss /\ bytes (snd e)) es) as Hrange.
  { eapply Forall_impl; [exact Hg|]. intros e [? Hge]. split; [done|by eapply genuine_bytes]. }
  destruct (reconstruct_spec (longest (G id)) c0 (padded (longest (G id)) (G id)) (shard_views ds ps (longest (G id)) (entry_map es)))
    as (shards2 & c2 & E2 & Htake & _).
  - done.
  - lia.
  - apply padded_ok, G_bytes.
  - unfold padded. rewrite length_fmap. congruence.
  - by apply views_received.
  - rewrite (present_count ds ps) by (done || lia). lia.
  - rewrite E in E2. injection E2 as <- _. rewrite S1, Hcd in Htake. apply list_fmap_ext. intros i k Hk.
    apply list_elem_of_lookup_2, elem_of_missing in Hk as [Hk _]. unfold padded_region.
    rewrite <- (nth_lookup_Some shards' k [] (resize (longest (G id)) 0%Z (nth k (G id) []))); [done|].
    rewrite <- (lookup_take_lt _ ds), Htake by done. unfold padded. rewrite list_lookup_fmap.
    destruct (lookup_lt_is_Some_2 (G id) k) as [r Hr]; [lia|]. rewrite Hr. cbn. by rewrite (nth_lookup_Some _ _ _ _ Hr).
Qed.

(** A region returned belongs to a complete group. *)
Lemma missing_complete id es k : NoDup (fst <$> es) -> entries_genuine id es -> length es = ds ->
  k ∈ missing ds (entry_map es) -> exists r, G id !! k = Some r /\ padded_region id k = resize (longest (G id)) 0%Z r /\ length (G id) = ds.
Proof using All.
  intros Hnd Hg Hl Hk. pose proof Hk as [Hlt _]%elem_of_missing.
  destruct (decide (length (filter (fun e => Is_true (is_data ds e)) es) = length es)) as [Ea|Ea].
  { rewrite all_data_missing in Hk by (done || congruence). by apply elem_of_nil in Hk. }
  destruct (parity_longest id es Hg Ea) as [HGl _]. destruct (lookup_lt_is_Some_2 (G id) k) as [r Hr]; [lia|].
  exists r. split; [done|]. split; [|done]. unfold padded_region. by rewrite (nth_lookup_Some _ _ _ _ Hr).
Qed.

(** ** One genuine packet *)

(** The decoder is in tune with the stream and [E] are its groups' entries. *)
Record tracks (d : FecDecoder) (E : Z -> list (nat * list Z)) : Prop := {
  tr_ok : dec_ok d;
  tr_data : fd_data_shards d = ds;
  tr_parity : fd_parity_shards d = ps;
  tr_tune : fd_should_tune d = false;
  tr_code : same_code c (fd_codec d);
  tr_entries : forall id, entries_of d id (E id) /\ length (E id) < ds /\ entries_genuine id (E id);
}.

Lemma tr_size d E : tracks d E -> fd_shard_size d = ss.
Proof. intros [Hd Ed Ep _ _ _]. rewrite (do_size _ Hd). subst ss. congruence. Qed.

Lemma entries_nodup d E id : tracks d E -> NoDup (fst <$> E id).
Proof.
  intros [_ Ed Ep _ _ He]. destruct (He id) as (H & _ & _). unfold entries_of in H.
  destruct (fd_shard_set d !! id); [apply H|]. rewrite H. constructor.
Qed.

(** The entries once group [id] has [l] and the old groups are gone. *)
Definition entries_after (d : FecDecoder) (newest id : Z) (l : list (nat * list Z)) (E : Z -> list (nat * list Z))
    : Z -> list (nat * list Z) :=
  fun id' => if kept d newest id' then (if decide (id' = id) then l else E id') else [].

Definition genuine_effect (d : FecDecoder) (E : Z -> list (nat * list Z)) (id : Z) (k : nat) (r : list Z)
    (out : list (list Z)) (newest : Z) (E' : Z -> list (nat * list Z)) : Prop :=
  if decide (k ∈ fst <$> E id) then out = [] /\ newest = fd_newest_shard_id d /\ E' = E
  else newest = newer d id /\
    if length (E id) + 1 =? ds
    then out = padded_region id <$> missing ds (entry_map (E id ++ [(k, r)])) /\ E' = entries_after d newest id [] E
    else out = [] /\ E' = entries_after d newest id (E id ++ [(k, r)]) E.

Lemma kept_lookup (f : Z -> bool) (m : gmap Z ShardHeap) id :
  filter (fun kv => Is_true (f (fst kv))) m !! id = if f id then m !! id else None.
Proof. apply option_eq. intros h. rewrite map_lookup_filter_Some. cbn. destruct (f id); naive_solver. Qed.

Lemma entries_after_ok d d' E newest id l h : tracks d E -> same_decoder d d' ->
  fd_shard_set d' = filter (fun kv => Is_true (kept d newest (fst kv))) (<[id := h]> (fd_shard_set d)) ->
  heap_rep ds ps id h l -> length l < ds -> entries_genuine id l ->
  forall id', entries_of d' id' (entries_after d newest id l E id') /\
    length (entries_after d newest id l E id') < ds /\ entries_genuine id' (entries_after d newest id l E id').
Proof using All.
  intros [Hd Ed Ep Ht Hcode He] (E1 & E2 & _) Hset Hh Hl Hg id'. unfold entries_of, entries_after.
  rewrite Hset, kept_lookup, E1, E2, Ed, Ep. destruct (kept d newest id').
  - destruct (decide (id' = id)) as [->|Hne]; [by rewrite lookup_insert_eq|]. rewrite lookup_insert_ne by done.
    destruct (He id') as (Hen & ? & ?). unfold entries_of in Hen. rewrite Ed, Ep in Hen. done.
  - split; [done|]. split; [cbn; lia|constructor].
Qed.

Lemma decode_genuine d E id k r snmp : tracks d E -> group_ok ss id -> k < ss -> genuine id k r ->
  exists out d' snmp' E', decode (shard_packet ds ss id k r) d snmp = Ok (out, d', snmp') /\ tracks d' E' /\
    genuine_effect d E id k r out (fd_newest_shard_id d') E'.
Proof using All.
  intros Htr Hid Hk Hg. pose proof (tr_size d E Htr) as Ess. pose proof (entries_nodup d E id Htr) as Hnd.
  pose proof Htr as [Hd Ed Ep Ht Hcode He].
  destruct (decode_in_tune d id k r snmp Hd) as (t & Hat & Edec); [by rewrite Ess|by rewrite Ess|done|].
  rewrite Ess, Ed in Edec. rewrite Edec. set (d1 := d <| fd_auto_tune := t |>).
  assert (tracks d1 E) as Htr1 by (constructor; try done; destruct Hd; by constructor).
  pose proof (tr_ok _ _ Htr1) as Hd1. destruct (He id) as (Hen & Hl & Hge).
  destruct (decode_packet_ok d1 id k r (E id) snmp Hd1) as (out & d' & snmp' & Epkt & Hd' & Hsame & Heff).
  { by change (group_ok (fd_shard_size d) id); rewrite Ess. } { by change (k < fd_shard_size d); rewrite Ess. }
  { by eapply genuine_bytes. } { exact Hen. } { by change (length (E id) < fd_data_shards d); rewrite Ed. }
  change (fd_shard_size d1) with (fd_shard_size d) in Epkt. change (fd_data_shards d1) with (fd_data_shards d) in Epkt.
  rewrite Ess, Ed in Epkt. rewrite Epkt.
  pose proof Hsame as (F1 & F2 & F3 & F4 & F5 & F6 & F7 & F8 & F9 & F10).
  assert (same_code c (fd_codec d')) as Hcode'.
  { destruct Hcode as (A1 & A2 & A3 & A4), F10 as (B1 & B2 & B3 & B4). change (fd_codec d1) with (fd_codec d) in *.
    split_and!; congruence. }
  assert (forall E', (forall id, entries_of d' id (E' id) /\ length (E' id) < ds /\ entries_genuine id (E' id)) -> tracks d' E') as Hmk.
  { intros E' HE'. constructor; try done; [by rewrite F1|by rewrite F2|by rewrite F6]. }
  unfold packet_effect in Heff. unfold genuine_effect. destruct (decide (k ∈ fst <$> E id)) as [Hin|Hin].
  - destruct Heff as (-> & Hset & Hnewest). exists [], d', snmp', E. split; [done|]. split; [|done].
    apply Hmk. intros id'. unfold entries_of. rewrite Hset, F1, F2. apply He.
  - destruct Heff as (Hnewest & h & Hset & Hh). change (newer d1 id) with (newer d id) in *.
    change (fd_data_shards d1) with (fd_data_shards d) in Hh. change (fd_parity_shards d1) with (fd_parity_shards d) in Hh.
    rewrite Ed, Ep in Hh.
    assert (entries_genuine id (E id ++ [(k, r)])) as Hge' by (apply Forall_app; by repeat constructor).
    assert (NoDup (fst <$> E id ++ [(k, r)])) as Hnd'.
    { rewrite fmap_app. apply NoDup_app. split; [done|]. split; [|apply NoDup_singleton].
      cbn. intros j Hj Hj'%list_elem_of_singleton. by subst. }
    destruct (Nat.eqb_spec (length (E id) + 1) ds) as [Ec|Ec].
    + destruct Hh as [-> Hrec]. exists out, d', snmp', (entries_after d (newer d id) id [] E). rewrite Hnewest. split; [done|]. split; [|split; [done|]].
      * apply Hmk. apply (entries_after_ok d1 d' E (newer d id) id [] shard_heap_default Htr1 Hsame Hset).
        -- apply heap_rep_default; lia.
        -- cbn. lia.
        -- constructor.
      * split; [|done]. apply (recovery_genuine id _ (fd_codec d1)); try done; [by rewrite length_app|apply Hd].
    + destruct Hh as [Hh ->]. exists [], d', snmp', (entries_after d (newer d id) id (E id ++ [(k, r)]) E).
      rewrite Hnewest. split; [done|]. split; [|done].
      apply Hmk. apply (entries_after_ok d1 d' E (newer d id) id (E id ++ [(k, r)]) h Htr1 Hsame Hset Hh); [|done].
      rewrite length_app. cbn. lia.
Qed.

(** ** Runs *)

(** An arrival: group, index and shard of a packet of the stream. *)
Definition arrival_ok (a : Z * nat * list Z) : Prop :=
  group_ok ss (fst (fst a)) /\ snd (fst a) < ss /\ genuine (fst (fst a)) (snd (fst a)) (snd a).
Definition arrival_packet (a : Z * nat * list Z) : list Z := shard_packet ds ss (fst (fst a)) (snd (fst a)) (snd a).

(** A padded data region of the stream. *)
Definition stream_region (b : list Z) : Prop :=
  exists id k r, G id !! k = Some r /\ b = resize (longest (G id)) 0%Z r.

Lemma effect_sound d E id k r out newest E' : tracks d E -> k < ss -> genuine id k r ->
  genuine_effect d E id k r out newest E' -> Forall stream_region out.
Proof using All.
  intros Htr Hk Hg Heff. pose proof (entries_nodup d E id Htr) as Hnd. pose proof (tr_entries _ _ Htr id) as (_ & _ & Hge).
  unfold genuine_effect in Heff. destruct (decide (k ∈ fst <$> E id)) as [Hin|Hin]; [by destruct Heff as [-> _]|].
  destruct Heff as [_ Heff]. destruct (Nat.eqb_spec (length (E id) + 1) ds) as [Ec|Ec]; destruct Heff as [-> _]; [|done].
  apply Forall_fmap, Forall_forall. intros j Hj.
  destruct (missing_complete id (E id ++ [(k, r)]) j) as (r' & Hr' & Ep & _); try done.
  - rewrite fmap_app. apply NoDup_app. split; [done|]. split; [|apply NoDup_singleton].
    cbn. intros i Hi Hi'%list_elem_of_singleton. by subst.
  - apply Forall_app. by repeat constructor.
  - by rewrite length_app.
  - by exists id, j, r'.
Qed.

(** Whatever arrives of the stream, in any order and any number of times, only
    regions of the stream are returned. *)
Lemma run_sound : forall arrivals d E snmp, tracks d E -> Forall arrival_ok arrivals ->
  exists out d' snmp' E', decoder_run (arrival_packet <$> arrivals) d snmp = Ok (out, d', snmp') /\ tracks d' E' /\
    Forall stream_region out.
Proof using All.
  induction arrivals as [|[[id k] r] arrivals IH]; intros d E snmp Htr Ha; [by eexists _, _, _, _|].
  apply Forall_cons in Ha as [(Hid & Hk & Hg) Ha]. cbn in Hid, Hk, Hg.
  destruct (decode_genuine d E id k r snmp Htr Hid Hk Hg) as (out & d1 & s1 & E1 & Edec & Htr1 & Heff).
  destruct (IH d1 E1 s1 Htr1 Ha) as (outs & d2 & s2 & E2 & Erun & Htr2 & Hs).
  exists (out ++ outs), d2, s2, E2. cbn [fmap list_fmap decoder_run]. change (arrival_packet (id, k, r)) with (shard_packet ds ss id k r).
  rewrite Edec. cbn [mbind result_bind]. rewrite Erun. split; [reflexivity|]. split; [done|].
  apply Forall_app. split; [exact (effect_sound d E id k r out _ E1 Htr Hk Hg Heff)|done].
Qed.

(** Up to the first packet of a group more than [MAX_SHARD_SETS] newer, group [g] is kept. *)
Section Window.
Context (g : Z) (Hg0 : (0 <= g)%Z) (Hwrap : ((g + MAX_SHARD_SETS) * Z.of_nat ss < 2147483648)%Z).
Definition not_later (id : Z) : Prop := (id <= g + MAX_SHARD_SETS)%Z.
Definition newest_ok (n : Z) : Prop := (0 <= n <= g + MAX_SHARD_SETS)%Z.

Lemma group_kept d E n : tracks d E -> newest_ok n -> kept d n g = true.
Proof using All.
  intros Htr Hn. unfold kept, keep_shard. rewrite (tr_size d E Htr). unfold newest_ok, MAX_SHARD_SETS in *.
  apply Z.leb_le. unfold wmul32. rewrite itimediff_exact; [nia|]. assert (0 < ss) by (unfold ss; lia). nia.
Qed.

Lemma newer_ok d id : newest_ok (fd_newest_shard_id d) -> (0 <= id)%Z -> not_later id -> newest_ok (newer d id).
Proof using All. intros Hn Hid Hl. unfold newer. case_goal; [|done]. by split. Qed.

(** Group [g] is delivered, or its entries are all that has been seen of it. *)
Definition progress (E : Z -> list (nat * list Z)) (seen : list (Z * nat)) (out : list (list Z)) : Prop :=
  (forall k, k ∈ fst <$> E g -> (g, k) ∈ seen) /\
  ((forall k, k < ds -> (g, k) ∈ seen \/ padded_region g k ∈ out) \/
   (forall k, (g, k) ∈ seen -> k ∈ fst <$> E g)).

(** The shards of a group that completes: seen, or returned. *)
Lemma complete_delivers E k r (seen : list (Z * nat)) (out : list (list Z)) : (forall k, k ∈ fst <$> E g -> (g, k) ∈ seen) ->
  forall k', k' < ds -> (g, k') ∈ seen ++ [(g, k)] \/
    padded_region g k' ∈ out ++ (padded_region g <$> missing ds (entry_map (E g ++ [(k, r)]))).
Proof using All.
  intros Hsub k' Hk'. destruct (entry_map (E g ++ [(k, r)]) !! k') as [r'|] eqn:Em.
  - left. assert (k' ∈ fst <$> E g ++ [(k, r)]) as Hin'.
    { destruct (decide (k' ∈ fst <$> E g ++ [(k, r)])) as [|Hno]; [done|]. apply entry_map_None in Hno. congruence. }
    rewrite fmap_app, elem_of_app in Hin'. apply elem_of_app. destruct Hin' as [Hin'|Hin'%list_elem_of_singleton]; [left; by apply Hsub|].
    right. apply list_elem_of_singleton. cbn in Hin'. by subst.
  - right. apply elem_of_app. right. apply list_elem_of_fmap. exists k'. split; [done|]. by apply elem_of_missing.
Qed.

Lemma progress_step d E id k r out0 newest E' (seen : list (Z * nat)) (out : list (list Z)) :
  tracks d E -> (0 <= id)%Z -> not_later id -> newest_ok (fd_newest_shard_id d) ->
  genuine_effect d E id k r out0 newest E' -> progress E seen out ->
  newest_ok newest /\ progress E' (seen ++ [(id, k)]) (out ++ out0).
Proof using All.
  intros Htr Hid Hl Hn Heff [Hsub Halt]. unfold genuine_effect in Heff.
  assert (forall k', (g, k') ∈ seen ++ [(id, k)] <-> (g, k') ∈ seen \/ (g = id /\ k' = k)) as Hseen.
  { intros k'. rewrite elem_of_app, list_elem_of_singleton. naive_solver. }
  assert ((forall k', k' < ds -> (g, k') ∈ seen \/ padded_region g k' ∈ out) ->
    forall k', k' < ds -> (g, k') ∈ seen ++ [(id, k)] \/ padded_region g k' ∈ out ++ out0) as Hdone.
  { intros H k' Hk'. rewrite !elem_of_app. destruct (H k' Hk'); auto. }
  destruct (decide (k ∈ fst <$> E id)) as [Hin|Hin].
  { destruct Heff as (-> & -> & ->). split; [done|]. split; [intros k' Hk'; apply Hseen; left; by apply Hsub|].
    destruct Halt as [Hd|Hall]; [left; by apply Hdone|right]. intros k' [Hs|[-> ->]]%Hseen; [by apply Hall|done]. }
  destruct Heff as [-> Heff]. pose proof (newer_ok d id Hn Hid Hl) as Hn'. split; [done|].
  assert (forall l, entries_after d (newer d id) id l E g = if decide (g = id) then l else E g) as Ea.
  { intros l. unfold entries_after. by rewrite (group_kept d E _ Htr Hn'). }
  destruct (decide (g = id)) as [<-|Hne].
  - destruct (Nat.eqb_spec (length (E g) + 1) ds) as [Ec|Ec]; destruct Heff as [-> ->]; unfold progress; rewrite Ea.
    + split; [by intros k' Hk'%elem_of_nil|]. left. by apply complete_delivers.
    + split.
      * intros k' Hk'. rewrite fmap_app, elem_of_app in Hk'. apply Hseen.
        destruct Hk' as [Hk'|Hk'%list_elem_of_singleton]; [left; by apply Hsub|by right].
      * destruct Halt as [Hd|Hall]; [left; by apply Hdone|right].
        intros k' Hs%Hseen. rewrite fmap_app, elem_of_app. destruct Hs as [Hs|[_ ->]]; [left; by apply Hall|right; left].
  - assert (E' g = E g) as Eg by (destruct (length (E id) + 1 =? ds); destruct Heff as [_ ->]; apply Ea).
    unfold progress. rewrite Eg. split; [intros k' Hk'; apply Hseen; left; by apply Hsub|].
    destruct Halt as [Hd|Hall]; [left; by apply Hdone|right]. intros k' [Hs|[? _]]%Hseen; [by apply Hall|done].
Qed.

Lemma run_progress : forall arrivals d E snmp (seen : list (Z * nat)) (out0 : list (list Z)), tracks d E -> newest_ok (fd_newest_shard_id d) ->
  progress E seen out0 -> Forall (fun a => arrival_ok a /\ not_later (fst (fst a))) arrivals ->
  exists out d' snmp' E', decoder_run (arrival_packet <$> arrivals) d snmp = Ok (out, d', snmp') /\ tracks d' E' /\
    progress E' (seen ++ (fst <$> arrivals)) (out0 ++ out).
Proof using All.
  induction arrivals as [|[[id k] r] arrivals IH]; intros d E snmp seen out0 Htr Hn Hp Ha.
  { eexists _, _, _, E. split; [done|]. split; [done|]. by rewrite !app_nil_r. }
  apply Forall_cons in Ha as [[(Hid & Hk & Hg) Hw] Ha]. cbn in Hid, Hk, Hg, Hw.
  destruct (decode_genuine d E id k r snmp Htr Hid Hk Hg) as (out & d1 & s1 & E1 & Edec & Htr1 & Heff).
  destruct (progress_step d E id k r out _ E1 seen out0 Htr (proj1 Hid) Hw Hn Heff Hp) as [Hn1 Hp1].
  destruct (IH d1 E1 s1 _ _ Htr1 Hn1 Hp1 Ha) as (outs & d2 & s2 & E2 & Erun & Htr2 & Hp2).
  exists (out ++ outs), d2, s2, E2. cbn [fmap list_fmap decoder_run]. change (arrival_packet (id, k, r)) with (shard_packet ds ss id k r).
  rewrite Edec. cbn [mbind result_bind]. rewrite Erun. split; [reflexivity|]. split; [done|].
  by rewrite <- !app_assoc in Hp2.
Qed.

(** Once [data_shards] different packets of the group have arrived, it is delivered. *)
Lemma progress_complete d E (seen : list (Z * nat)) (out : list (list Z)) (ks : list nat) : tracks d E -> progress E seen out ->
  NoDup ks -> ds <= length ks -> (forall k, k ∈ ks -> (g, k) ∈ seen) ->
  forall k, k < ds -> (g, k) ∈ seen \/ padded_region g k ∈ out.
Proof using All.
  intros Htr [_ [Hd|Hall]] Hnd Hl Hks; [done|]. exfalso.
  assert (ks ⊆+ (fst <$> E g)) as Hsub by (apply NoDup_submseteq; [done|]; intros k Hk; by apply Hall, Hks).
  apply submseteq_length in Hsub. rewrite length_fmap in Hsub. pose proof (tr_entries _ _ Htr g) as (_ & ? & _). lia.
Qed.
End Window.
End Genuine.

(** The stream of an FEC encoder.

    [encoder_run] encodes packets one after the other.  The packets it puts on the
    wire are those of the stream whose groups are the data regions cut into runs of
    [data_shards] ([group_of]), in the sense of [FecRun]. *)
(** The packets and the times they are encoded at; the packets sent. *)
Fixpoint encoder_run (inputs : list (list Z * Z)) (rto : Z) (e : FecEncoder) (snmp : Snmp)
    : fec (list (list Z) * FecEncoder * Snmp) :=
  match inputs with
  | [] => Ok ([], e, snmp)
  | (b, now_ms) :: inputs =>
      r ← encode b rto now_ms e snmp;
      let '(ps, b, e, snmp) := r in
      r ← encoder_run inputs rto e snmp;
      let '(wire, e, snmp) := r in
      Ok (b :: parity_iter ps ++ wire, e, snmp)
  end.

(** The data regions of group [id]. *)
Definition group_of (ds : nat) (regions : list (list Z)) (id : Z) : list (list Z) :=
  take ds (drop (Z.to_nat id * ds) regions).

Lemma group_of_now ds done regs r rest g :
  Z.to_nat g * ds + length regs = length done -> drop (Z.to_nat g * ds) done = regs ->
  group_of ds (done ++ r :: rest) g = take ds ((regs ++ [r]) ++ rest).
Proof.
  intros Hl Hd. unfold group_of. rewrite drop_app_le by lia. rewrite Hd, <- app_assoc. done.
Qed.

Lemma group_of_Forall (P : list Z -> Prop) ds regions id : Forall P regions -> Forall P (group_of ds regions id).
Proof. intros H. by apply Forall_take, Forall_drop. Qed.

Lemma group_of_lookup ds regions id k r : k < ds -> regions !! (Z.to_nat id * ds + k) = Some r ->
  group_of ds regions id !! k = Some r.
Proof. intros Hk Hr. unfold group_of. by rewrite lookup_take_lt, lookup_drop. Qed.

Lemma group_of_lookup_inv ds regions id k r : group_of ds regions id !! k = Some r -> r ∈ regions.
Proof.
  intros Hk. unfold group_of in Hk. apply lookup_take_Some in Hk as [Hk _]. rewrite lookup_drop in Hk.
  by eapply list_elem_of_lookup_2.
Qed.

(** A packet on the wire: the room for the crypto header, and a packet of the
    stream. *)
Definition wire_ok (ds ps : nat) (c : Codec) (G : Z -> list (list Z)) (ho : nat) (p : list Z) : Prop :=
  exists room a, length room = ho /\ arrival_ok ds ps c G a /\ p = room ++ arrival_packet ds ps a.

Section Stream.
Context (ds ps ho : nat) (c : Codec) (rto : Z).
Let ss := ds + ps.

(** The encoder belongs to the stream. *)
Definition enc_stream (e : FecEncoder) : Prop :=
  fe_data_shards e = ds /\ fe_parity_shards e = ps /\ fe_header_offset e = ho /\ fe_codec e = c.

Definition input_ok (i : list Z * Z) : Prop := bytes (fst i) /\ ho + 8 <= length (fst i) <= MTU_LIMIT.

(** The data region of an input. *)
Definition input_region (i : list Z * Z) : list Z := shard_region (drop (ho + 8) (fst i)).

Lemma enc_stream_same e e' : enc_stream e -> same_encoder e e' -> enc_stream e'.
Proof. intros (E1 & E2 & E3 & E4) (F1 & F2 & F3 & F4 & F5 & F6 & F7). split_and!; congruence. Qed.

Lemma data_packet_wire e g regs done b rest : enc_ok e g regs -> enc_stream e ->
  Z.to_nat g * ds + length regs = length done -> drop (Z.to_nat g * ds) done = regs ->
  ho + 8 <= length b -> let r := shard_region (drop (ho + 8) b) in
  wire_ok ds ps c (group_of ds (done ++ r :: rest)) ho (data_packet e b).
Proof.
  intros He (E1 & E2 & E3 & E4) Hl Hd Hb r. pose proof He as [[_ _ _ Hss Hpos Hpaws Hoff] _ Hg Hn _ Hroom _ _ _].
  exists (take ho b), (g, length regs, r). split; [lens; lia|]. split.
  - split; [|split]; cbn.
    + unfold group_ok. by rewrite <- E1, <- E2, <- Hss, <- Hpaws.
    + lia.
    + unfold genuine. rewrite (proj2 (Nat.ltb_lt _ _)) by lia. apply group_of_lookup; [lia|].
      rewrite Hl. by apply list_lookup_middle.
  - unfold data_packet, arrival_packet, shard_packet, shard_seqid, shard_type. cbn [fst snd].
    rewrite (proj2 (Nat.ltb_lt _ _)) by lia. rewrite E3, Hn, Hss, E1, E2, Hoff, E3.
    replace (ho + 6 + 2) with (ho + 8) by lia. done.
Qed.

Lemma parity_packet_wire e g regs k p : enc_params e -> enc_stream e -> group_ok ss g -> ds <= k < ss -> length regs = ds ->
  forall G, G g = regs -> parity_packet c ho g regs k p -> wire_ok ds ps c G ho p.
Proof.
  intros Hp (E1 & E2 & E3 & E4) Hg Hk Hl G HG (room & w & Hroom & Hw & ->). exists room, (g, k, w).
  split; [done|]. split.
  - split; [done|]. split; [apply Hk|]. cbn. unfold genuine. rewrite (proj2 (Nat.ltb_ge _ _)) by lia. rewrite HG. done.
  - unfold arrival_packet, shard_packet, shard_seqid, shard_type. cbn [fst snd]. rewrite (proj2 (Nat.ltb_ge _ _)) by lia.
    destruct Hp as [Hc Hcd Hcp _ _ _ _]. rewrite E4 in *.
    assert (total_shards c = ds + ps) as -> by (rewrite (cs_total _ (proj1 Hc)); congruence). done.
Qed.

Lemma encoder_run_ok : forall inputs e g regs done snmp, enc_ok e g regs -> enc_stream e ->
  Z.to_nat g * ds + length regs = length done -> drop (Z.to_nat g * ds) done = regs ->
  Forall input_ok inputs -> ((zlen done + zlen inputs + 2) * Z.of_nat ss <= paws ss)%Z ->
  exists wire e', encoder_run inputs rto e snmp = Ok (wire, e', snmp) /\ enc_stream e' /\
    Forall (wire_ok ds ps c (group_of ds (done ++ (input_region <$> inputs))) ho) wire.
Proof.
  induction inputs as [|[b now] inputs IH]; intros e g regs done snmp He Hs Hl Hd Hi Hw.
  { exists [], e. split; [done|]. split; [done|constructor]. }
  apply Forall_cons in Hi as [[Hb Hlb] Hi]. cbn [fst] in Hb, Hlb.
  pose proof Hs as (E1 & E2 & E3 & E4).
  pose proof He as [Hp _ Hg _ _ Hroom _ _ _]. pose proof Hp as [_ _ _ Hss (Hds & Hps & Hmax) Hpaws Hoff].
  destruct (fec_encode_spec e g regs b rto now snmp He ltac:(lia) Hb) as (par & e1 & Eenc & Hsame & _ & Hcase).
  pose proof (data_packet_wire e g regs done b (input_region <$> inputs) He Hs Hl Hd ltac:(lia)) as Hdata. cbv zeta in Hdata.
  rewrite Hoff, E3 in Hcase. replace (ho + 6 + 2) with (ho + 8) in Hcase by lia.
  set (r := shard_region (drop (ho + 8) b)) in *.
  assert (input_region (b, now) = r) as Er by done.
  pose proof (enc_stream_same e e1 Hs Hsame) as Hs1.
  assert (length (done ++ [r]) = length done + 1) as Hld by by rewrite length_app.
  assert (drop (Z.to_nat g * ds) (done ++ [r]) = regs ++ [r]) as Hdr by (rewrite drop_app_le by lia; by rewrite Hd).
  assert (done ++ (input_region <$> (b, now) :: inputs) = (done ++ [r]) ++ (input_region <$> inputs)) as Eall
    by by rewrite <- app_assoc.
  rewrite E1 in *. assert ((zlen (done ++ [r]) + zlen inputs + 2) * Z.of_nat ss <= paws ss)%Z as Hw1.
  { etrans; [|exact Hw]. apply Z.mul_le_mono_nonneg_r; [lia|]. unfold zlen. rewrite Hld. cbn [length]. lia. }
  cbn [encoder_run]. rewrite Eenc. cbn [mbind result_bind]. rewrite Eall.
  destruct (Nat.eqb_spec (length regs + 1) ds) as [Ec|Ec].
  - destruct Hcase as [He1 Hpar].
    assert (next_group e g = g + 1)%Z as Eg.
    { unfold next_group. rewrite Hpaws, Hss, E2. fold ss. destruct (paws_spec ss) as (q & Eq & Hq & _); [unfold ss; lia|].
      
      rewrite Eq in Hw |- *. rewrite Z.div_mul by (unfold ss; lia). apply Z.mod_small.
      assert (Z.to_nat g <= length done) by nia.
      apply Z.mul_le_mono_pos_r in Hw; [|unfold ss; lia]. unfold zlen in Hw. lia. }
    rewrite Eg in He1.
    destruct (IH e1 (g + 1)%Z [] (done ++ [r]) snmp He1 Hs1) as (wire & e2 & Erun & Hs2 & Hwire); try done.
    { rewrite Z2Nat.inj_add, Hld by lia. cbn [length]. lia. }
    { apply drop_ge. rewrite Z2Nat.inj_add, Hld by lia. lia. }
    rewrite Erun. exists (data_packet e b :: parity_iter par ++ wire), e2. split; [done|]. split; [done|].
    constructor; [by rewrite <- app_assoc|]. apply Forall_app. split; [|done].
    destruct (_ <? rto)%Z; [|rewrite Hpar; constructor]. apply Forall_lookup. intros j p Hj.
    destruct (Forall2_lookup_r _ _ _ _ _ Hpar Hj) as (k & Hk & Hpp). apply lookup_seq in Hk as [-> Hk].
    apply (parity_packet_wire e g (regs ++ [r]) (ds + j) p); try done.
    + assert (ss = fe_shard_size e) as -> by (unfold ss; lia). unfold group_ok. by rewrite <- Hpaws.
    + unfold ss. lia.
    + by rewrite length_app.
    + unfold group_of. rewrite drop_app_le, Hdr by lia. apply take_app_length'. by rewrite length_app.
    + by rewrite E4 in Hpp.
  - destruct Hcase as [He1 Hpar]. rewrite Hpar.
    destruct (IH e1 g (regs ++ [r]) (done ++ [r]) snmp He1 Hs1) as (wire & e2 & Erun & Hs2 & Hwire); try done.
    { rewrite Hld, length_app. cbn [length]. lia. }
    rewrite Erun. exists (data_packet e b :: wire), e2. split; [done|]. split; [done|].
    constructor; [by rewrite <- app_assoc|done].
Qed.
End Stream.

(** ** Both ends

    A new encoder and decoder share a codec, and the decoder follows any stream of it; an
    out-of-band packet is not part of the stream. *)
Local Open Scope Z_scope.

Lemma encoder_codec ds ps offset e : fec_encoder_new ds ps offset = Ok (Some e) ->
  codec_new (Z.to_nat ds) (Z.to_nat ps) = Ok (fe_codec e).
Proof.
  unfold fec_encoder_new. destruct (_ || _); [done|].
  destruct (codec_new (Z.to_nat ds) (Z.to_nat ps)) as [c|err|]; cbn [of_rs mbind result_bind]; intros E; try done.
  by injection E as <-.
Qed.

Lemma decoder_codec ds ps d : fec_decoder_new ds ps = Ok (Some d) ->
  codec_new (Z.to_nat ds) (Z.to_nat ps) = Ok (fd_codec d).
Proof.
  unfold fec_decoder_new. destruct (_ || _); [done|]. destruct (256 <? ds + ps); [done|].
  destruct (codec_new (Z.to_nat ds) (Z.to_nat ps)) as [c|err|]; intros E; try done.
  by injection E as <-.
Qed.

(** A new decoder follows any stream of its code. *)
Lemma new_tracks ds ps d G : fec_decoder_new (Z.of_nat ds) (Z.of_nat ps) = Ok (Some d) ->
  tracks ds ps (fd_codec d) G d (fun _ => []) /\ fd_newest_shard_id d = 0.
Proof.
  intros E. pose proof (fec_decoder_new_ok (Z.of_nat ds) (Z.of_nat ps)) as Hd. rewrite E in Hd.
  destruct Hd as (Hpos & Hok & Ed & Ep & Eset & En & Et). rewrite Nat2Z.id in Ed, Ep. split; [|done].
  constructor; try done. intros id. unfold entries_of. rewrite Eset, lookup_empty.
  split; [done|]. split; [cbn; lia|constructor].
Qed.

(** An out-of-band packet. *)
Definition oob_packet (e : FecEncoder) (b : list Z) : list Z :=
  take (fe_header_offset e) b ++ fec_packet OOB_SEQID TYPE_OOB
    (le_bytes 2 (u16 (zlen b - Z.of_nat (fe_payload_offset e))) ++ drop (fe_payload_offset e + 2) b).

Lemma encode_oob_ok b e : fe_payload_offset e = (fe_header_offset e + 6)%nat -> (fe_payload_offset e + 2 <= length b)%nat ->
  encode_oob b e = Ok (oob_packet e b).
Proof.
  intros Hoff Hl. unfold encode_oob. rewrite (proj2 (Nat.ltb_ge _ _)) by lia.
  assert (with_tail (fe_header_offset e) seal_oob b =
    @Ok FecError _ (take (fe_header_offset e) b ++ fec_packet OOB_SEQID TYPE_OOB (drop (fe_header_offset e + 6) b), ())) as ->.
  { unfold with_tail. rewrite (proj2 (Nat.leb_le _ _)) by lia.
    pose proof (seal_ok TYPE_OOB OOB_SEQID 1 (drop (fe_header_offset e) b) ltac:(lens; lia)) as Es. unfold seal in Es. unfold seal_oob.
    destruct (copy_at 0 (le_bytes 4 OOB_SEQID) (drop (fe_header_offset e) b)) as [d1|err|]; cbn [mbind result_bind] in *; try done.
    destruct (copy_at 4 (le_bytes 2 TYPE_OOB) d1) as [d2|err|]; cbn [mbind result_bind] in *; try done.
    injection Es as ->. cbn [fst snd]. rewrite drop_drop. reflexivity. }
  cbn [mbind result_bind fst]. rewrite Hoff.
  set (ho := fe_header_offset e) in *.
  assert (zlen (take ho b ++ fec_packet OOB_SEQID TYPE_OOB (drop (ho + 6) b)) = zlen b) as ->.
  { unfold zlen. rewrite length_app, length_fec_packet. lens. f_equal. lia. }
  rewrite put_size_field by (lia || by rewrite length_le_bytes). unfold oob_packet. by rewrite Hoff.
Qed.
