(* ===== verification/FecTheorems.v ===== *)
(** * What FEC guarantees

    The properties of [fec.rs] as a whole: the encoder's packets, the decoder on
    any input, and the two of them with a lossy, reordering, duplicating channel
    in between. *)
From stdpp Require Import base list gmap.
From Stdlib Require Import ZArith Lia.
From S2P Require Import Prelude Word Env Galois GfVector Matrix Codec CodecSpec RsDecode GoSort AutoTune Fec.
From S2P Require Import FecLayout FecEncoderSpec FecDecoderSpec FecRun.
Local Open Scope Z_scope.

(** Elements that are all images come from a list of preimages. *)
Lemma Forall_image {A B} (f : A -> B) (P : A -> Prop) l :
  Forall (fun b => exists a, P a /\ b = f a) l -> exists as_, Forall P as_ /\ l = f <$> as_.
Proof.
  induction 1 as [|b l (a & Ha & ->) _ (as_ & Has & ->)]; [by exists []|].
  exists (a :: as_). split; [by constructor|done].
Qed.

(** The packets between two sessions: a packet as the receiver's [decode] gets
    it, after the crypto header. *)
Definition after_crypto (offset : nat) (wire : list (list Z)) : list (list Z) := drop offset <$> wire.

(** A packet of a group the decoder keeps group [g] alongside. *)
Definition packet_before (shard_size g : Z) (p : list Z) : Prop :=
  exists seqid, fec_seqid p = Ok seqid /\ seqid / shard_size <= g + 3.

(** [data_shards] different packets of group [g] have arrived. *)
Definition enough (ds shard_size : nat) (g : Z) (arrivals : list (list Z)) : Prop :=
  exists ks : list nat, NoDup ks /\ (ds <= length ks)%nat /\
    forall k, k ∈ ks -> exists p, p ∈ arrivals /\ fec_seqid p = Ok (shard_seqid shard_size g k) /\ (k < shard_size)%nat.

(** The packet [b] is there: it has arrived, or the decoder has returned it. *)
Definition recovered_kcp (offset : nat) (arrivals out : list (list Z)) (b : list Z) : Prop :=
  exists r, (r ∈ out \/ exists p, p ∈ arrivals /\ r = drop 6 p) /\ region_payload r = Some (drop (offset + 8) b).

Section EndToEnd.
Context (ds ps ho : nat) (c : Codec) (regions : list (list Z)).
Let ss := (ds + ps)%nat.
Context (Hds : (0 < ds)%nat) (Hps : (0 < ps)%nat) (Hss : (ss <= 256)%nat).
Context (Hc : codec_shape c) (Hcd : data_shards c = ds) (Hcp : parity_shards c = ps).
Context (inputs : list (list Z * Z)) (Hin : Forall (input_ok ho) inputs).
Context (Hregions : regions = input_region ho <$> inputs).
Let G := group_of ds regions.

Lemma region_of_input r : r ∈ regions -> exists i, i ∈ inputs /\ r = input_region ho i /\ input_ok ho i.
Proof using All.
  rewrite Hregions. intros (i & -> & Hi)%list_elem_of_fmap. exists i. split; [done|]. split; [done|].
  by eapply Forall_forall in Hin.
Qed.

Lemma regions_ok : Forall (fun r => bytes r /\ (2 <= length r)%nat) regions.
Proof using All.
  apply Forall_forall. intros r (i & _ & -> & [Hb _])%region_of_input. split.
  - apply shard_region_bytes. auto with bytes.
  - unfold input_region. rewrite length_shard_region. lia.
Qed.

Lemma input_payload i n : input_ok ho i -> (length (input_region ho i) <= n)%nat ->
  region_payload (resize n 0 (input_region ho i)) = Some (drop (ho + 8) (fst i)).
Proof.
  intros [_ Hl] Hn. unfold input_region in *. rewrite length_shard_region in Hn.
  apply region_payload_padded; [|lia]. unfold zlen. rewrite length_drop. unfold MTU_LIMIT in Hl. lia.
Qed.

Lemma stream_region_payload b : stream_region G b ->
  exists i, i ∈ inputs /\ region_payload b = Some (drop (ho + 8) (fst i)).
Proof using All.
  intros (id & k & r & Hk & ->). pose proof (longest_le (G id) r ltac:(by eapply list_elem_of_lookup_2)) as Hle.
  apply group_of_lookup_inv, region_of_input in Hk as (i & Hi & -> & Hiok). exists i. split; [done|]. by apply input_payload.
Qed.

(** The packets that arrive, as arrivals of the stream. *)
Lemma arrivals_of wire arrivals : Forall (wire_ok ds ps c G ho) wire -> Forall (fun p => p ∈ after_crypto ho wire) arrivals ->
  exists arr, Forall (arrival_ok ds ps c G) arr /\ arrivals = arrival_packet ds ps <$> arr.
Proof using All.
  intros Hw Ha. apply Forall_image. eapply Forall_impl; [exact Ha|]. intros p Hp. cbn.
  apply list_elem_of_fmap in Hp as (q & -> & Hq). rewrite Forall_forall in Hw.
  destruct (Hw q Hq) as (room & [[id k] r] & Hroom & Hok & ->). exists (id, k, r). by rewrite drop_app_length' by done.
Qed.

Lemma arrivals_before arr g : Forall (arrival_ok ds ps c G) arr -> Forall (packet_before (Z.of_nat ss) g) (arrival_packet ds ps <$> arr) ->
  Forall (fun a => arrival_ok ds ps c G a /\ not_later g (fst (fst a))) arr.
Proof using All.
  intros Hok Hb. apply (Forall_fmap (arrival_packet ds ps)) in Hb. rewrite Forall_forall in Hok. rewrite (Forall_forall _ arr) in Hb. apply Forall_forall.
  intros [[id k] r] Hin'. pose proof (Hok _ Hin') as Ha. destruct (Hb _ Hin') as (seqid & Es & Hle). split; [done|]. pose proof Ha as (Hid & Hk & _). cbn in Hid, Hk |- *. change (fec_seqid (shard_packet ds (ds + ps) id k r) = Ok seqid) in Es.
  rewrite shard_packet_seqid in Es by done. injection Es as <-.
  destruct (shard_seqid_ok _ _ Hds Hps Hss id k Hid Hk) as (_ & _ & _ & Hdiv). fold ss in Hdiv. unfold ss in Hle, Hdiv. by rewrite Hdiv in Hle.
Qed.

Lemma enough_seen arr g : Forall (arrival_ok ds ps c G) arr ->
  enough ds ss g (arrival_packet ds ps <$> arr) ->
  exists ks : list nat, NoDup ks /\ (ds <= length ks)%nat /\ (forall k, k ∈ ks -> (g, k) ∈ fst <$> arr).
Proof using All.
  intros Harr (ks & Hnd & Hl & Hks). exists ks. split; [done|]. split; [done|]. intros k Hk.
  destruct (Hks k Hk) as (p & Hp & Es & Hkss). apply list_elem_of_fmap in Hp as ([[id j] r] & -> & Hin').
  rewrite Forall_forall in Harr. destruct (Harr _ Hin') as (Hid & Hj & _). cbn in Hid, Hj.
  unfold arrival_packet in Es. cbn [fst snd] in Es. rewrite shard_packet_seqid in Es by done. injection Es as Es.
  destruct (shard_seqid_group ds ps Hds Hps Hss id g j k Hj Hkss Es) as [-> ->].
  apply list_elem_of_fmap. by exists (g, k, r).
Qed.

Lemma delivered_payload arr out g k b now : Forall (arrival_ok ds ps c G) arr ->
  (0 <= g) -> (k < ds)%nat -> inputs !! (Z.to_nat g * ds + k)%nat = Some (b, now) ->
  (g, k) ∈ fst <$> arr \/ padded_region G g k ∈ out ->
  recovered_kcp ho (arrival_packet ds ps <$> arr) out b.
Proof using All.
  intros Harr Hg Hk Hi Hcase. pose proof (Forall_lookup_1 _ _ _ _ Hin Hi) as Hiok.
  assert (G g !! k = Some (input_region ho (b, now))) as HG.
  { apply group_of_lookup; [done|]. by rewrite Hregions, list_lookup_fmap, Hi. }
  destruct Hcase as [Harrived|Hrec].
  - apply list_elem_of_fmap in Harrived as ([[id j] r] & E & Hin'). cbn in E. injection E as <- <-.
    rewrite Forall_forall in Harr. destruct (Harr _ Hin') as (Hid & Hj & Hgen). cbn in Hgen.
    unfold genuine in Hgen. rewrite (proj2 (Nat.ltb_lt _ _)) in Hgen by done.
    assert (r = input_region ho (b, now)) as -> by congruence.
    exists (input_region ho (b, now)). split.
    + right. exists (arrival_packet ds ps (g, k, input_region ho (b, now))). split; [apply list_elem_of_fmap; by eexists|].
      unfold arrival_packet, shard_packet. by rewrite drop_fec_packet.
    + rewrite <- (resize_all (input_region ho (b, now)) 0) at 1. by apply input_payload.
  - exists (padded_region G g k). split; [by left|]. unfold padded_region. rewrite (nth_lookup_Some _ _ _ _ HG).
    apply input_payload; [done|]. apply longest_le. by eapply list_elem_of_lookup_2.
Qed.
End EndToEnd.

(** C15: forward error correction, end to end.  Of the packets an encoder sends,
    however many, let any arrive in any order, any number of times.  Then whatever
    the decoder returns is the KCP bytes of a packet that was sent; and of every
    group from which as many different packets arrived as it has data shards, parity
    or data, before the first packet of a group more than three newer - the decoder
    discards it then - every packet is there: received, or returned by the decoder.
    The packet numbers up to three groups past this one are below 2^31, the half of
    the circle a new decoder compares in. *)
Theorem fec_repairs ds ps offset rto inputs e d snmp :
  fec_encoder_new (Z.of_nat ds) (Z.of_nat ps) offset = Ok (Some e) ->
  fec_decoder_new (Z.of_nat ds) (Z.of_nat ps) = Ok (Some d) ->
  Forall (input_ok offset) inputs ->
  (zlen inputs + 2) * Z.of_nat (ds + ps) <= paws (ds + ps) ->
  exists wire e', encoder_run inputs rto e snmp = Ok (wire, e', snmp) /\
  forall arrivals, Forall (fun p => p ∈ after_crypto offset wire) arrivals ->
    exists out d' snmp', decoder_run arrivals d snmp = Ok (out, d', snmp') /\
      (forall r, r ∈ out -> exists i, i ∈ inputs /\ region_payload r = Some (drop (offset + 8) (fst i))) /\
      forall g before after k b now, 0 <= g -> (g + 3) * Z.of_nat (ds + ps) < 2147483648 ->
        arrivals = before ++ after -> Forall (packet_before (Z.of_nat (ds + ps)) g) before ->
        enough ds (ds + ps) g before -> (k < ds)%nat ->
        inputs !! (Z.to_nat g * ds + k)%nat = Some (b, now) -> recovered_kcp offset before out b.
Proof.
  intros Ee Ed Hin Hlen.
  pose proof (encoder_codec _ _ _ _ Ee) as Ce. pose proof (decoder_codec _ _ _ Ed) as Cd. rewrite !Nat2Z.id in Ce, Cd.
  assert (fd_codec d = fe_codec e) as Ec by congruence.
  destruct (codec_new_shape _ _ _ Ce) as (Hc & Hcd & Hcp & _).
  pose proof (fec_encoder_new_ok (Z.of_nat ds) (Z.of_nat ps) offset) as He. rewrite Ee in He.
  destruct He as (Hpos & He & Eds & Eps & Eho). rewrite Nat2Z.id in Eds, Eps.
  assert (0 < ds)%nat as Hds by lia. assert (0 < ps)%nat as Hps by lia. assert (ds + ps <= 256)%nat as Hss by lia.
  destruct (encoder_run_ok ds ps offset (fe_codec e) rto inputs e 0 [] [] snmp He) as (wire & e' & Erun & _ & Hwire); try done.
  cbn [app] in Hwire. exists wire, e'. split; [done|]. intros arrivals Harr.
  set (regions := input_region offset <$> inputs) in *.
  destruct (arrivals_of ds ps offset (fe_codec e) regions Hds Hps Hss Hc Hcd Hcp inputs Hin eq_refl wire arrivals Hwire Harr)
    as (arr & Hok & ->).
  assert (forall id, Forall (fun r => bytes r /\ (2 <= length r)%nat) (group_of ds regions id)) as HG.
  { intros id. apply group_of_Forall.
    exact (regions_ok ds ps offset (fe_codec e) regions Hds Hps Hss Hc Hcd Hcp inputs Hin eq_refl). }
  destruct (new_tracks ds ps d (group_of ds regions) Ed) as [Htr Hnewest]. rewrite Ec in Htr.
  destruct (run_sound ds ps (fe_codec e) (group_of ds regions) Hds Hps Hss Hc Hcd Hcp HG arr d (fun _ => []) snmp Htr Hok)
    as (out & d' & snmp' & E' & Edec & _ & Hsound).
  exists out, d', snmp'. split; [done|]. split.
  { intros r Hr. rewrite Forall_forall in Hsound.
    apply (stream_region_payload ds ps offset (fe_codec e) regions Hds Hps Hss Hc Hcd Hcp inputs Hin eq_refl). by apply Hsound. }
  intros g before after k b now Hg0 Hwrap Esplit Hbefore Hen Hk Hi.
  apply fmap_app_inv in Esplit as (arr1 & arr2 & -> & -> & ->). apply Forall_app in Hok as [Hok1 _].
  pose proof (arrivals_before ds ps offset (fe_codec e) regions Hds Hps Hss Hc Hcd Hcp inputs Hin eq_refl arr1 g Hok1 Hbefore) as Hb1.
  destruct (enough_seen ds ps offset (fe_codec e) regions Hds Hps Hss Hc Hcd Hcp inputs Hin eq_refl arr1 g Hok1 Hen)
    as (ks & Hnd & Hl & Hks).
  destruct (run_progress ds ps (fe_codec e) (group_of ds regions) Hds Hps Hss Hc Hcd Hcp HG g Hg0 Hwrap arr1 d (fun _ => []) snmp [] [] Htr)
    as (out1 & d1 & s1 & E1 & Edec1 & Htr1 & Hprog).
  { rewrite Hnewest. unfold newest_ok, MAX_SHARD_SETS in *. lia. }
  { split; [by intros j Hj%elem_of_nil|]. right. by intros j Hj%elem_of_nil. }
  { done. }
  assert (Hout : forall x, x ∈ out1 -> x ∈ out).
  { intros x Hx. rewrite fmap_app, decoder_run_app, Edec1 in Edec. cbn [mbind result_bind] in Edec.
    destruct (decoder_run _ d1 s1) as [[[outs ?] ?]|?|]; [|done..]. cbn [mbind result_bind] in Edec. injection Edec as <- _ _.
    apply elem_of_app. by left. }
  apply (delivered_payload ds ps offset (fe_codec e) regions Hds Hps Hss Hc Hcd Hcp inputs Hin eq_refl arr1 out g k b now); try done.
  destruct (progress_complete ds ps (fe_codec e) (group_of ds regions) Hds Hps Hss Hc Hcd Hcp HG g Hg0 Hwrap d1 E1 (fst <$> arr1) out1 ks
    Htr1 Hprog Hnd Hl Hks k Hk) as [|]; [by left|right; by apply Hout].
Qed.

Definition example_inputs : list (list Z * Z) := [(repeat 7 20, 1000); (repeat 9 31, 1003)].

Lemma example_inputs_ok : Forall (input_ok 8) example_inputs.
Proof.
  unfold example_inputs, input_ok, MTU_LIMIT.
  repeat (apply List.Forall_cons; [split; [apply Forall_forall; intros z Hz; apply list_elem_of_In, repeat_spec in Hz; subst; unfold is_u8; lia|cbn; lia]|]).
  constructor.
Qed.

(** A (2, 1) encoder turns the two packets into a group of three. *)
Lemma example_wire e : fec_encoder_new 2 1 8 = Ok (Some e) ->
  exists d0 d1 p e' w, encoder_run example_inputs 500 e snmp_new = Ok ([d0; d1; p], e', snmp_new) /\
    drop 8 d0 = fec_packet 0 TYPE_DATA (input_region 8 (repeat 7 20, 1000)) /\
    drop 8 d1 = fec_packet 1 TYPE_DATA (input_region 8 (repeat 9 31, 1003)) /\
    drop 8 p = fec_packet 2 TYPE_PARITY w.
Proof.
  intros Ee. pose proof (fec_encoder_new_ok 2 1 8) as He. rewrite Ee in He. destruct He as (_ & He & Eds & Eps & Eho).
  pose proof example_inputs_ok as Hin. apply Forall_cons in Hin as [[Hb0 Hl0] [[Hb1 Hl1] _]%Forall_cons]. cbn [fst] in *.
  pose proof (ep_offset _ (eo_params _ _ _ He)) as Eoff. pose proof (ep_size _ (eo_params _ _ _ He)) as Ess.
  rewrite Eds, Eps in Ess. change (Z.to_nat 2 + Z.to_nat 1)%nat with 3%nat in Ess. change (Z.to_nat 2) with 2%nat in Eds.
  destruct (fec_encode_spec e 0 [] (repeat 7 20) 500 1000 snmp_new He) as (ps0 & e1 & E0 & Hsame & Ets & Hcase); [lia|done|].
  rewrite Eds in Hcase. cbn [length Nat.add Nat.eqb app] in Hcase. destruct Hcase as [He1 Hps0].
  pose proof Hsame as (F1 & F2 & F3 & F4 & F5 & F6 & F7).
  destruct (fec_encode_spec e1 0 _ (repeat 9 31) 500 1003 snmp_new He1) as (ps1 & e2 & E1 & _ & _ & Hcase); [lia|done|].
  rewrite F1, F2, Eds, Eps, Ets in Hcase. cbn [length Nat.add Nat.eqb app] in Hcase. destruct Hcase as [_ Hpar].
  change (i64_sat_sub 1003 1000 <? 500) with true in Hpar. cbv iota in Hpar.
  change (seq 2 (Z.to_nat 1)) with [2%nat] in Hpar. inversion Hpar as [|k p ks pl (room & w & Hroom & Hw & Ep) Hnil Ek Epl]; subst.
  apply Forall2_nil_inv_l in Hnil as ->.
  exists (data_packet e (repeat 7 20)), (data_packet e1 (repeat 9 31)), (room ++ fec_packet (0 * Z.of_nat (total_shards (fe_codec e1)) + Z.of_nat 2) TYPE_PARITY w), e2, w.
  split; [|split; [|split]].
  - unfold example_inputs. cbn [encoder_run]. rewrite E0. cbn [mbind result_bind]. rewrite E1. cbn [mbind result_bind].
    rewrite Hps0, <- Epl. reflexivity.
  - unfold data_packet. rewrite (eo_next _ _ _ He), Eoff, Eho, drop_app_length' by reflexivity. reflexivity.
  - unfold data_packet. rewrite (eo_next _ _ _ He1), F3, F5, F6, Eoff, Eho, Ess, drop_app_length' by reflexivity. reflexivity.
  - rewrite drop_app_length' by congruence. reflexivity.
Qed.

(** The first packet is lost; the second and the parity shard bring it back. *)
Lemma fec_repairs_witness :
  exists e d wire e' d1 p, fec_encoder_new 2 1 8 = Ok (Some e) /\ fec_decoder_new 2 1 = Ok (Some d) /\
    encoder_run example_inputs 500 e snmp_new = Ok (wire, e', snmp_new) /\
    exists out d' snmp', decoder_run [p; d1] d snmp_new = Ok (out, d', snmp') /\
      recovered_kcp 8 [p; d1] out (repeat 7 20).
Proof.
  pose proof (fec_encoder_new_ok 2 1 8) as He. pose proof (fec_decoder_new_ok 2 1) as Hd.
  destruct (fec_encoder_new 2 1 8) as [[e|]|err|] eqn:Ee; [|lia|lia|destruct He].
  destruct (fec_decoder_new 2 1) as [[d|]|err|] eqn:Ed; [|lia|destruct Hd|destruct Hd].
  destruct (fec_repairs 2 1 8 500 example_inputs e d snmp_new Ee Ed example_inputs_ok) as (wire & e' & Erun & Hrec).
  { vm_compute. discriminate. }
  destruct (example_wire e Ee) as (d0 & d1 & p & e2 & w & Ewire & _ & E1 & Ep). rewrite Erun in Ewire. injection Ewire as -> _.
  assert (fec_seqid (drop 8 p) = Ok 2) as Sp by (rewrite Ep; apply fec_seqid_packet; unfold is_u32; lia).
  assert (fec_seqid (drop 8 d1) = Ok 1) as S1 by (rewrite E1; apply fec_seqid_packet; unfold is_u32; lia).
  destruct (Hrec [drop 8 p; drop 8 d1]) as (out & d' & s' & Erun' & _ & Hc).
  { constructor; [|constructor; [|constructor]]; [right; right; left|right; left]. }
  exists e, d, [d0; d1; p], e', (drop 8 d1), (drop 8 p). split; [reflexivity|]. split; [reflexivity|]. split; [exact Erun|].
  exists out, d', s'. split; [exact Erun'|].
  apply (Hc 0 [drop 8 p; drop 8 d1] [] 0%nat (repeat 7 20) 1000); [lia|lia|reflexivity| | |lia|reflexivity].
  { constructor; [|constructor; [|constructor]]; (eexists; split; [eassumption|vm_compute; discriminate]). }
  exists [2%nat; 1%nat]. split; [apply (bool_decide_unpack _); vm_compute; exact I|]. split; [cbn; lia|].
  intros k Hk. apply elem_of_cons in Hk as [->|Hk].
  - exists (drop 8 p). split; [left|]. split; [exact Sp|lia].
  - apply list_elem_of_singleton in Hk as ->. exists (drop 8 d1). split; [right; left|]. split; [exact S1|lia].
Defined.

(** C24: the decoder is total.  Whatever bytes arrive, any number of packets of any
    length, with any sequence numbers and types, the decoder answers without a
    panic, even while it adopts new shard counts, and stays consistent. *)
Theorem fec_decoder_total ds ps d snmp pkts :
  fec_decoder_new ds ps = Ok (Some d) -> Forall bytes pkts ->
  exists out d' snmp', decoder_run pkts d snmp = Ok (out, d', snmp') /\ dec_ok d'.
Proof.
  intros Ed Hb. pose proof (fec_decoder_new_ok ds ps) as Hd. rewrite Ed in Hd. destruct Hd as (_ & Hd & _).
  clear Ed. revert d snmp Hd. induction Hb as [|pkt pkts Hb _ IH]; intros d snmp Hd; [by eexists _, _, _|].
  cbn [decoder_run]. destruct (decode_ok pkt d snmp Hd Hb) as (out & d1 & s1 & -> & Hd1). cbn [mbind result_bind].
  destruct (IH d1 s1 Hd1) as (outs & d2 & s2 & -> & Hd2). cbn [mbind result_bind]. by eexists _, _, _.
Qed.

Definition example_garbage : list (list Z) := [[]; [1; 0; 0; 0; 242; 0]; [0; 0; 0; 0; 241; 0; 9]; [2; 0; 0; 0; 255; 255; 1; 2]].

Lemma fec_decoder_total_witness :
  exists d out d' snmp', fec_decoder_new 2 1 = Ok (Some d) /\ decoder_run example_garbage d snmp_new = Ok (out, d', snmp').
Proof.
  pose proof (fec_decoder_new_ok 2 1) as Hd.
  destruct (fec_decoder_new 2 1) as [[d|]|err|] eqn:Ed; [|lia|destruct Hd|destruct Hd].
  destruct (fec_decoder_total 2 1 d snmp_new example_garbage Ed) as (out & d' & s' & Erun & _).
  { repeat constructor; unfold is_u8; lia. }
  exists d, out, d', s'. split; [reflexivity|exact Erun].
Defined.

(** C25: one call of [encode].  A packet too short for the header or too long for
    a slot is refused; any other is sealed with the group's next number and its
    size.  The packet that completes a group brings, unless the previous packet is
    too long ago, the parity shards of the code word of the group's regions, with
    the numbers that follow; either way the next group starts. *)
Theorem encode_call e g regs b rto now snmp :
  enc_ok e g regs -> bytes b ->
  let r := shard_region (drop (fe_payload_offset e + 2) b) in
  match encode b rto now e snmp with
  | Err err =>
      (err = PacketTooShort (length b) (fe_payload_offset e + 2) /\ (length b < fe_payload_offset e + 2)%nat) \/
      (err = PacketTooLarge (length b) MTU_LIMIT /\ (MTU_LIMIT < length b)%nat)
  | Ok (ps, b', e', snmp') =>
      snmp' = snmp /\ fe_ts_latest_packet e' = now /\
      b' = take (fe_header_offset e) b ++
        fec_packet (g * Z.of_nat (fe_shard_size e) + zlen regs) TYPE_DATA r /\
      if (length regs + 1 =? fe_data_shards e)%nat then
        enc_ok e' (next_group e g) [] /\
        if i64_sat_sub now (fe_ts_latest_packet e) <? rto
        then Forall2 (parity_packet (fe_codec e) (fe_header_offset e) g (regs ++ [r]))
               (seq (fe_data_shards e) (fe_parity_shards e)) (parity_iter ps)
        else parity_iter ps = []
      else enc_ok e' g (regs ++ [r]) /\ parity_iter ps = []
  | Panic => False
  end.
Proof.
  intros He Hb r. destruct (decide (length b < fe_payload_offset e + 2)%nat) as [Hs|Hs].
  { unfold encode. rewrite (proj2 (Nat.ltb_lt _ _)) by done. by left. }
  destruct (decide (MTU_LIMIT < length b)%nat) as [Hm|Hm].
  { unfold encode. rewrite (proj2 (Nat.ltb_ge _ _)), (proj2 (Nat.ltb_lt _ _)) by lia. by right. }
  destruct (fec_encode_spec e g regs b rto now snmp He) as (ps & e' & -> & _ & Ht & Hcase); [lia|done|].
  split; [done|]. split; [done|]. split; [|exact Hcase]. unfold data_packet. by rewrite (eo_next _ _ _ He).
Qed.

Lemma encode_call_witness :
  exists e, fec_encoder_new 2 1 8 = Ok (Some e) /\
    match encode (repeat 7 20) 500 1000 e snmp_new with
    | Ok (ps, b', _, _) => b' = take 8 (repeat 7 20) ++ fec_packet 0 TYPE_DATA (shard_region (drop 16 (repeat 7 20)))
    | _ => False
    end.
Proof.
  pose proof (fec_encoder_new_ok 2 1 8) as He.
  destruct (fec_encoder_new 2 1 8) as [[e|]|err|] eqn:Ee; [|lia|lia|destruct He].
  destruct He as (_ & He & _ & _ & Eho). pose proof (ep_offset _ (eo_params _ _ _ He)) as Eoff.
  exists e. split; [reflexivity|].
  pose proof (encode_call e 0 [] (repeat 7 20) 500 1000 snmp_new He) as Hc.
  destruct (encode (repeat 7 20) 500 1000 e snmp_new) as [[[[ps b'] e'] s']|err|].
  - destruct Hc as (_ & _ & Eb & _).
    { apply Forall_forall; intros z Hz; apply list_elem_of_In, repeat_spec in Hz; subst; unfold is_u8; lia. }
    rewrite Eoff, Eho in Eb. exact Eb.
  - destruct Hc as [[_ Hl]|[_ Hl]].
    { apply Forall_forall; intros z Hz; apply list_elem_of_In, repeat_spec in Hz; subst; unfold is_u8; lia. }
    { rewrite Eoff, Eho in Hl. cbn in Hl. lia. }
    { unfold MTU_LIMIT in Hl. cbn in Hl. lia. }
  - apply Hc. apply Forall_forall; intros z Hz; apply list_elem_of_In, repeat_spec in Hz; subst; unfold is_u8; lia.
Defined.

(** Shard counts.  Encoder and decoder are off for a count that is not
    positive; more than 256 shards are the codec's error for the encoder and no
    decoder; for all other counts both are there, with the state the other
    theorems start from. *)
Theorem fec_parameters ds ps offset :
  match fec_encoder_new ds ps offset with
  | Ok None => ds <= 0 \/ ps <= 0
  | Ok (Some e) => 0 < ds /\ 0 < ps /\ ds + ps <= 256 /\ enc_ok e 0 [] /\ fe_header_offset e = offset
  | Err err => err = ECodec MaxShardNum /\ 0 < ds /\ 0 < ps /\ 256 < ds + ps
  | Panic => False
  end /\
  match fec_decoder_new ds ps with
  | Ok None => ds <= 0 \/ ps <= 0 \/ 256 < ds + ps
  | Ok (Some d) => 0 < ds /\ 0 < ps /\ ds + ps <= 256 /\ dec_ok d /\ fd_shard_set d = ∅ /\ fd_should_tune d = false
  | _ => False
  end.
Proof.
  pose proof (fec_encoder_new_ok ds ps offset) as He. pose proof (fec_decoder_new_ok ds ps) as Hd. split.
  - destruct (fec_encoder_new ds ps offset) as [[e|]|err|]; [|done|done|done].
    by destruct He as ((? & ? & ?) & ? & _ & _ & ?).
  - destruct (fec_decoder_new ds ps) as [[d|]|err|]; [|done|done|done]. by destruct Hd as ((? & ? & ?) & ? & _ & _ & ? & _ & ?).
Qed.

(** out-of-band packets.  [encode_oob] seals any packet that has room for the
    headers without taking a sequence number, and its packet passes a decoder by:
    nothing is returned, and no group, parameter or counter changes. *)
Theorem oob_passes_by e g regs b d snmp :
  enc_ok e g regs -> dec_ok d ->
  if (length b <? fe_payload_offset e + 2)%nat
  then encode_oob b e = Err (PacketTooShort (length b) (fe_payload_offset e + 2))
  else encode_oob b e = Ok (oob_packet e b) /\
    exists t, decode (drop (fe_header_offset e) (oob_packet e b)) d snmp = Ok ([], d <| fd_auto_tune := t |>, snmp).
Proof.
  intros He Hd. pose proof (ep_offset _ (eo_params _ _ _ He)) as Hoff.
  destruct (Nat.ltb_spec (length b) (fe_payload_offset e + 2)) as [Hs|Hl].
  { unfold encode_oob. by rewrite (proj2 (Nat.ltb_lt _ _)). }
  split; [by apply encode_oob_ok|]. unfold oob_packet. rewrite drop_app_length' by (lens; lia).
  set (region := le_bytes 2 _ ++ _). unfold decode. rewrite length_fec_packet, (proj2 (Nat.ltb_ge _ _)) by (unfold FEC_HEADER_SIZE; lia).
  rewrite fec_seqid_packet, fec_flag_packet by (unfold is_u32, is_u16, OOB_SEQID, TYPE_OOB; lia). cbn [mbind result_bind].
  destruct (sample_ok (TYPE_OOB =? TYPE_DATA) OOB_SEQID _ (do_tune _ Hd)) as (t & -> & _). cbn [mbind result_bind].
  exists t. change (fd_paws (d <| fd_auto_tune := t |>)) with (fd_paws d). destruct Hd as [Hss (Hds & Hps & Hmax) Hpaws _ _ _ _ _].
  destruct (paws_spec (fd_shard_size d)) as (_ & _ & _ & Hle); [lia|].
  rewrite (proj2 (Z.leb_le _ _)) by (unfold OOB_SEQID; lia). done.
Qed.

Lemma oob_passes_by_witness :
  exists e d, fec_encoder_new 2 1 8 = Ok (Some e) /\ fec_decoder_new 2 1 = Ok (Some d) /\
    encode_oob (repeat 5 18) e = Ok (oob_packet e (repeat 5 18)) /\
    exists t, decode (drop 8 (oob_packet e (repeat 5 18))) d snmp_new = Ok ([], d <| fd_auto_tune := t |>, snmp_new).
Proof.
  pose proof (fec_encoder_new_ok 2 1 8) as He. pose proof (fec_decoder_new_ok 2 1) as Hd.
  destruct (fec_encoder_new 2 1 8) as [[e|]|err|] eqn:Ee; [|lia|lia|destruct He].
  destruct (fec_decoder_new 2 1) as [[d|]|err|] eqn:Ed; [|lia|destruct Hd|destruct Hd].
  destruct He as (_ & He & _ & _ & Eho). destruct Hd as (_ & Hd & _).
  pose proof (oob_passes_by e 0 [] (repeat 5 18) d snmp_new He Hd) as Hoob.
  pose proof (ep_offset _ (eo_params _ _ _ He)) as Eoff. rewrite Eho in *. rewrite Eoff in Hoob. cbn [Nat.ltb Nat.leb Nat.add length repeat] in Hoob.
  exists e, d. split; [reflexivity|]. split; [reflexivity|]. exact Hoob.
Defined.
