(* ===== verification/Qpp.v ===== *)
(** * The quantum permutation pad: [crates/qpp]

    [bigint.rs], [prng.rs] and [qpp.rs]: the generator [xoshiro256**], the
    derivation of the permutation matrices from a seed, and the byte transform.

    The cryptographic primitives come from third-party crates and are the class
    [Crypto]: HMAC-SHA256, PBKDF2-HMAC-SHA1, SHA-256 and the AES-256 block, with the
    sizes of what they return as laws.  An index out of range, a division by zero
    and a failed assertion are [Panic]. *)
From stdpp Require Import base list strings.
From Stdlib Require Import ZArith Lia.
From S2P Require Import Prelude Word GoSort.
Local Open Scope Z_scope.

(** ** Primitives of other crates *)

Class Crypto := {
  hmac_sha256 : list Z -> list Z -> list Z;             (** key, message *)
  pbkdf2_sha1 : list Z -> list Z -> Z -> list Z;        (** password, salt, rounds; 32 bytes *)
  sha256 : list Z -> list Z;
  aes256_encrypt : list Z -> list Z -> list Z;          (** key, block *)
  hmac_size : forall k m, length (hmac_sha256 k m) = 32%nat;
  pbkdf2_size : forall p s n, length (pbkdf2_sha1 p s n) = 32%nat;
  sha_size : forall m, length (sha256 m) = 32%nat;
  aes_size : forall k b, length b = 16%nat -> length (aes256_encrypt k b) = 16%nat;
  hmac_bytes : forall k m, bytes (hmac_sha256 k m);
  pbkdf2_bytes : forall p s n, bytes (pbkdf2_sha1 p s n);
  sha_bytes : forall m, bytes (sha256 m);
  aes_bytes : forall k b, bytes b -> bytes (aes256_encrypt k b);
}.

(** ** [bigint.rs]: [BigUint]

    Little-endian limbs of 64 bits. *)
Abbreviation BigUint := (list Z).

Definition from_u64 (v : Z) : BigUint := if v =? 0 then [] else [v].

(** The loop of [mul_u64]: the new limbs and the carry out of the last one. *)
Fixpoint mul_limbs (m carry : Z) (limbs : BigUint) : list Z * Z :=
  match limbs with
  | [] => ([], carry)
  | limb :: limbs =>
      let wide := limb * m + carry in
      let '(l, c) := mul_limbs m (u64 (Z.shiftr wide 64)) limbs in
      (u64 wide :: l, c)
  end.

Definition mul_u64 (n : BigUint) (m : Z) : BigUint :=
  if m =? 0 then []
  else
    let '(limbs, carry) := mul_limbs m 0 n in
    if negb (carry =? 0) then limbs ++ [carry] else limbs.

(** [u64::leading_zeros]. *)
Definition leading_zeros (v : Z) : Z := if v =? 0 then 64 else 63 - Z.log2 v.

Definition bit_len (n : BigUint) : Z :=
  match last n with
  | None => 0
  | Some top => zlen n * 64 - leading_zeros top
  end.

(** ** [prng.rs] *)

(** [xoshiro: [u64; 4]]. *)
Record Xoshiro := mkXoshiro { s0 : Z; s1 : Z; s2 : Z; s3 : Z }.

Record Rand := mkRand {
  xoshiro : Xoshiro;
  seed64 : Z;
  count : Z;
}.

#[export] Instance xoshiro_eta : EtaRecord Xoshiro := fun s => mkXoshiro (s0 s) (s1 s) (s2 s) (s3 s).
#[export] Instance rand_eta : EtaRecord Rand := fun r => mkRand (xoshiro r) (seed64 r) (count r).

(** [rotate_left], for [0 < k < 64]. *)
Definition rol64 (x k : Z) : Z := Z.lor (u64 (Z.shiftl x k)) (Z.shiftr x (64 - k)).

(** The output and the state after one step. *)
Definition xoshiro256ss (s : Xoshiro) : Z * Xoshiro :=
  let result := u64 (rol64 (u64 (s1 s * 5)) 7 * 9) in
  let t := u64 (Z.shiftl (s1 s) 17) in
  let s := s <| s2 := Z.lxor (s2 s) (s0 s) |> in
  let s := s <| s3 := Z.lxor (s3 s) (s1 s) |> in
  let s := s <| s1 := Z.lxor (s1 s) (s2 s) |> in
  let s := s <| s0 := Z.lxor (s0 s) (s3 s) |> in
  let s := s <| s2 := Z.lxor (s2 s) t |> in
  let s := s <| s3 := rol64 (s3 s) 45 |> in
  (result, s).

Definition next_u64 (rd : Rand) : Z * Rand :=
  let '(v, s) := xoshiro256ss (xoshiro rd) in (v, rd <| xoshiro := s |>).

(** [&state[i..i + 8]] read as a little-endian word. *)
Definition word_at (state : list Z) (i : nat) : io Z :=
  if (i + 8 <=? length state)%nat then Ok (le_val (take 8 (drop i state))) else Panic.

Definition new_rand (state : list Z) : io Rand :=
  a ← word_at state 0; b ← word_at state 8; c ← word_at state 16; d ← word_at state 24;
  let '(v, s) := xoshiro256ss (mkXoshiro a b c d) in
  Ok (mkRand s v 0).

(** ** Constants of [qpp.rs]; strings as their bytes *)

Definition ascii_bytes (s : String.string) : list Z :=
  (fun c => Z.of_nat (Ascii.nat_of_ascii c)) <$> String.list_ascii_of_string s.

Definition PM_SELECTOR_IDENTIFIER : list Z := ascii_bytes "PERMUTATION_MATRIX_SELECTOR"%string.
Definition SHUFFLE_SALT : list Z := ascii_bytes "___QUANTUM_PERMUTATION_PAD_SHUFFLE_SALT___"%string.
Definition PRNG_SALT : list Z := ascii_bytes "___QUANTUM_PERMUTATION_PAD_PRNG_SALT___"%string.
Definition PBKDF2_LOOPS : Z := 128.
Definition CHUNK_DERIVE_SALT : list Z := ascii_bytes "___QUANTUM_PERMUTATION_PAD_SEED_DERIVE___"%string.
Definition CHUNK_DERIVE_LOOPS : Z := 1024.
Definition PAD_SWITCH : Z := 8.
Definition QUBITS : Z := 8.
Definition MATRIX_BYTES : nat := 256.

(** ** Pads

    [Matrix] is [[u8; 256]]. *)
Abbreviation Matrix := (list Z).

(** [fill]: [pad[0] = 0], then [pad[i] = pad[i - 1] + 1] with wrap-around. *)
Definition fill (pad : Matrix) : io Matrix :=
  if (0 <? length pad)%nat then
    for_range 1 (length pad)
      (fun i pad => p ← unwrap (pad !! (i - 1)%nat); Ok (<[i := u8 (p + 1)]> pad)) (<[0%nat := 0]> pad)
  else Panic.

(** [reverse]: [rpad[pad[i]] = i]. *)
Definition reverse_step (pad : Matrix) (i : nat) (rpad : Matrix) : io Matrix :=
  p ← unwrap (pad !! i);
  if (Z.to_nat p <? length rpad)%nat then Ok (<[Z.to_nat p := u8 (Z.of_nat i)]> rpad) else Panic.

Definition reverse (pad rpad : Matrix) : io Matrix :=
  for_range 0 (length pad) (reverse_step pad) rpad.

(** The remainder of a big-endian number, byte by byte; [None] of a zero divisor
    is the panic. *)
Definition mod_big_endian (sum : list Z) (m : Z) : io Z :=
  if m =? 0 then (match sum with [] => Ok 0 | _ => Panic end)
  else Ok (fold_left (fun rem b => Z.lor (u32 (Z.shiftl rem 8)) b mod m) sum 0).

(** [{:b}] of an unsigned number: its binary digits. *)
Fixpoint binary_digits (p : positive) : list Z :=
  match p with
  | xH => [49]
  | xO p => binary_digits p ++ [48]
  | xI p => binary_digits p ++ [49]
  end.

Definition format_b (n : Z) : list Z :=
  match n with Zpos p => binary_digits p | _ => [48] end.

Section Primitives.
Context {crypto : Crypto}.

Definition create_prng (seed : list Z) : io Rand :=
  let sum := hmac_sha256 seed PM_SELECTOR_IDENTIFIER in
  new_rand (pbkdf2_sha1 sum PRNG_SALT PBKDF2_LOOPS).

Definition fast_prng (seed : list Z) : io Rand := new_rand (sha256 seed).

(** One pass of an AES block over the two halves of the 32-byte value. *)
Definition aes_pass (sum key : list Z) : list Z :=
  aes256_encrypt key (take 16 sum) ++ aes256_encrypt key (take 16 (drop 16 sum)).

(** One round of the Fisher-Yates loop; the loop runs [i] from the last index
    down to 1. *)
Definition shuffle_step (blocks : list (list Z)) (i : nat) (st : list Z * Matrix)
  : io (list Z * Matrix) :=
  let '(sum, pad) := st in
  let sum := fold_left aes_pass blocks sum in
  j ← mod_big_endian sum (Z.of_nat i + 1);
  pad ← GoSort.swap i (Z.to_nat j) pad;
  Ok (sum, pad).

(** [for i in (1..n).rev()]. *)
Fixpoint for_down (n : nat) (f : nat -> list Z * Matrix -> io (list Z * Matrix)) st :=
  match n with
  | O | S O => Ok st
  | S n => st ← f n st; for_down n f st
  end.

Definition shuffle (chunk : list Z) (pad : Matrix) (pad_id : Z) (blocks : list (list Z)) : io Matrix :=
  let message := ascii_bytes "QPP_"%string ++ format_b pad_id in
  let sum := hmac_sha256 chunk message in
  st ← for_down (length pad) (shuffle_step blocks) (sum, pad);
  Ok (snd st).

(** ** Seeds *)

(** [for i in (1..perms_count).rev() { perms.mul_u64(i) }]. *)
Fixpoint factorial_loop (i : nat) (perms : BigUint) : BigUint :=
  match i with
  | O => perms
  | S i' => factorial_loop i' (mul_u64 perms (Z.of_nat i))
  end.

(** [checked_shl] refuses 64 and more. *)
Definition qpp_minimum_seed_length (qubits : Z) : Z :=
  let perms_count := if qubits <? 64 then Z.shiftl 1 qubits else 0 in
  let perms := factorial_loop (Z.to_nat (perms_count - 1)) (from_u64 perms_count) in
  let byte_len := (bit_len perms + 7) / 8 in
  if byte_len =? 0 then 1 else byte_len.

Definition qpp_minimum_pads (qubits : Z) : Z :=
  let byte_len := qpp_minimum_seed_length qubits in
  let minpads := byte_len / 32 in
  let left := byte_len mod 32 in
  if 0 <? left then minpads + 1 else minpads.

(** The 32 bytes read cyclically from position [idx]. *)
Definition seed_chunk (seed : list Z) (idx : nat) : io (list Z) :=
  for_range 0 32 (fun i chunk =>
    match length seed with
    | O => Panic
    | _ => b ← unwrap (seed !! ((idx + i) mod length seed)%nat); Ok (chunk ++ [b])
    end) [].

Definition seed_to_chunks (seed : list Z) (qubits : Z) : io (list (list Z)) :=
  let seed := if (length seed <? 32)%nat then pbkdf2_sha1 seed CHUNK_DERIVE_SALT PBKDF2_LOOPS else seed in
  let byte_length := qpp_minimum_seed_length qubits in
  let chunk_count := Z.to_nat (Z.max ((byte_length + 31) / 32) 1) in
  for_range 0 chunk_count (fun n chunks =>
    chunk ← seed_chunk seed (32 * n);
    Ok (chunks ++ [pbkdf2_sha1 chunk CHUNK_DERIVE_SALT CHUNK_DERIVE_LOOPS])) [].

(** ** The pad set *)
Record QuantumPermutationPad := mkQpp {
  pads : list Matrix;
  rpads : list Matrix;
  num_pads : Z;
  enc_rand : Rand;
  dec_rand : Rand;
}.

#[export] Instance qpp_eta : EtaRecord QuantumPermutationPad :=
  fun q => mkQpp (pads q) (rpads q) (num_pads q) (enc_rand q) (dec_rand q).

(** One iteration of the loop of [new]: pad [i] and its inverse. *)
Definition make_pad (chunks blocks : list (list Z)) (i : nat) : io (Matrix * Matrix) :=
  pad ← fill (replicate MATRIX_BYTES 0);
  chunk ← (match length chunks with O => Panic | n => unwrap (chunks !! (i mod n)%nat) end);
  pad ← shuffle chunk pad (u16 (Z.of_nat i)) blocks;
  rpad ← reverse pad (replicate MATRIX_BYTES 0);
  Ok (pad, rpad).

Definition qpp_new (seed : list Z) (num_pads : Z) : io QuantumPermutationPad :=
  if num_pads <=? 0 then Panic
  else
    chunks ← seed_to_chunks seed QUBITS;
    let blocks := (fun chunk => pbkdf2_sha1 chunk SHUFFLE_SALT PBKDF2_LOOPS) <$> chunks in
    st ← for_range 0 (Z.to_nat num_pads) (fun i '(ps, rs) =>
      p ← make_pad chunks blocks i;
      Ok (ps ++ [fst p], rs ++ [snd p])) ([], []);
    e ← create_prng seed;
    d ← create_prng seed;
    Ok (mkQpp (fst st) (snd st) num_pads e d).
End Primitives.

(** ** The byte transform

    [encrypt_with_prng] and [decrypt_with_prng] are the same walk over the data
    with another byte operation and another set of pads. *)
Definition ByteOp := Matrix -> Z -> Z -> io Z.

(** [base[data ^ rr]] and [base[data] ^ rr]. *)
Definition enc_byte : ByteOp := fun base rr b => unwrap (base !! Z.to_nat (Z.lxor b rr)).
Definition dec_byte : ByteOp := fun base rr b => p ← unwrap (base !! Z.to_nat b); Ok (Z.lxor p rr).

(** [&pads[r as u16 % num_pads]]. *)
Definition select_pad (pads : list Matrix) (num_pads r : Z) : io Matrix :=
  if num_pads =? 0 then Panic else unwrap (pads !! Z.to_nat (u16 r mod num_pads)).

Section Transform.
Context (op : ByteOp) (tables : list Matrix) (n : Z).

(** The local variables of the walk: [r], [base], [s] and [count]. *)
Record Walk := mkWalk { wk_r : Z; wk_base : Matrix; wk_s : Xoshiro; wk_count : Z }.

(** [r = xoshiro256ss(&mut s); base = &pads[..]]. *)
Definition next_word (w : Walk) (count : Z) : io Walk :=
  let '(r, s) := xoshiro256ss (wk_s w) in
  base ← select_pad tables n r;
  Ok (mkWalk r base s count).

(** [(r >> (count << 3)) as u8]. *)
Definition random_byte (r count : Z) : Z := u8 (Z.shiftr r (u8 (Z.shiftl count 3))).

(** The loop over the bytes left of the current word: the bytes written, those
    not reached, and the state. *)
Fixpoint head_loop (w : Walk) (data : list Z) : io (list Z * list Z * Walk) :=
  match data with
  | [] => Ok ([], [], w)
  | b :: data =>
      b' ← op (wk_base w) (random_byte (wk_r w) (wk_count w)) b;
      let count := wk_count w + 1 in
      if count =? PAD_SWITCH then
        w ← next_word w 0;
        Ok ([b'], data, w)
      else
        '(out, rest, w) ← head_loop (mkWalk (wk_r w) (wk_base w) (wk_s w) count) data;
        Ok (b' :: out, rest, w)
  end.

(** The loop over the groups of eight bytes; what is left is the tail. *)
Fixpoint group_loop (w : Walk) (data : list Z) : io (list Z * list Z * Walk) :=
  match data with
  | d0 :: d1 :: d2 :: d3 :: d4 :: d5 :: d6 :: d7 :: data =>
      let r := wk_r w in
      let base := wk_base w in
      e0 ← op base (u8 r) d0;
      e1 ← op base (u8 (Z.shiftr r 8)) d1;
      e2 ← op base (u8 (Z.shiftr r 16)) d2;
      e3 ← op base (u8 (Z.shiftr r 24)) d3;
      e4 ← op base (u8 (Z.shiftr r 32)) d4;
      e5 ← op base (u8 (Z.shiftr r 40)) d5;
      e6 ← op base (u8 (Z.shiftr r 48)) d6;
      e7 ← op base (u8 (Z.shiftr r 56)) d7;
      w ← next_word w (wk_count w);
      '(out, tail, w) ← group_loop w data;
      Ok (e0 :: e1 :: e2 :: e3 :: e4 :: e5 :: e6 :: e7 :: out, tail, w)
  | _ => Ok ([], data, w)
  end.

Fixpoint tail_loop (w : Walk) (data : list Z) : io (list Z * Walk) :=
  match data with
  | [] => Ok ([], w)
  | b :: data =>
      b' ← op (wk_base w) (random_byte (wk_r w) (wk_count w)) b;
      '(out, w) ← tail_loop (mkWalk (wk_r w) (wk_base w) (wk_s w) (wk_count w + 1)) data;
      Ok (b' :: out, w)
  end.

(** The walk over a nonempty slice, and the write-back of the generator. *)
Definition walk_data (data : list Z) (rand : Rand) : io (list Z * Rand) :=
  let size := zlen data in
  base ← select_pad tables n (seed64 rand);
  let w := mkWalk (seed64 rand) base (xoshiro rand) (count rand) in
  '(head, rest, w) ← (if negb (count rand =? 0) then head_loop w data else Ok ([], data, w));
  '(groups, tail, w) ← group_loop w rest;
  '(last, w) ← tail_loop w tail;
  Ok (head ++ groups ++ last,
      rand <| xoshiro := wk_s w |> <| seed64 := wk_r w |>
           <| count := Z.land (u8 (count rand + u8 size)) (PAD_SWITCH - 1) |>).

Definition with_prng (data : list Z) (rand : Rand) : io (list Z * Rand) :=
  match data with
  | [] => Ok ([], rand)
  | _ => walk_data data rand
  end.
End Transform.

Section Streams.
Context (q : QuantumPermutationPad).

Definition encrypt_with_prng : list Z -> Rand -> io (list Z * Rand) :=
  with_prng enc_byte (pads q) (num_pads q).

Definition decrypt_with_prng : list Z -> Rand -> io (list Z * Rand) :=
  with_prng dec_byte (rpads q) (num_pads q).

(** The two methods that use the generators of the pad set. *)
Definition qpp_encrypt (data : list Z) : io (list Z * QuantumPermutationPad) :=
  '(out, rand) ← encrypt_with_prng data (enc_rand q);
  Ok (out, q <| enc_rand := rand |>).

Definition qpp_decrypt (data : list Z) : io (list Z * QuantumPermutationPad) :=
  '(out, rand) ← decrypt_with_prng data (dec_rand q);
  Ok (out, q <| dec_rand := rand |>).
End Streams.
