(* ===== verification/QppSpec.v ===== *)
(** * The permutation pads: lemmas

    The walks over the data are a byte-at-a-time transform ([walk_bytewise]); the
    reverse pads undo the pads ([bytewise_inverse]).  The limbs of [bigint.rs] compute with
    the numbers they stand for ([factorial_loop_ok], [bit_len_ok]); the pads a seed gives are
    permutations of the bytes and their reverses, whatever the primitives return
    ([make_pad_ok]); a seed of any length gives a pad set ([qpp_new_ok]). *)
From stdpp Require Import base list strings.
From Stdlib Require Import ZArith Lia.
From S2P Require Import Prelude Word GoSort GoSortSpec Qpp.
Local Open Scope Z_scope.

(** ** The transform, a byte at a time *)

(** One byte: the pad of the current word, one byte of the word, and a new word
    after the eighth. *)
Definition byte_step (op : ByteOp) (tables : list Matrix) (n : Z) (rand : Rand) (b : Z) : io (Z * Rand) :=
  base ← select_pad tables n (seed64 rand);
  b' ← op base (random_byte (seed64 rand) (count rand)) b;
  let c := count rand + 1 in
  if c =? PAD_SWITCH then let '(r, s) := xoshiro256ss (xoshiro rand) in Ok (b', mkRand s r 0)
  else Ok (b', mkRand (xoshiro rand) (seed64 rand) c).

Fixpoint bytewise (op : ByteOp) tables n (data : list Z) (rand : Rand) : io (list Z * Rand) :=
  match data with
  | [] => Ok ([], rand)
  | b :: data =>
      '(b', rand) ← byte_step op tables n rand b;
      '(out, rand) ← bytewise op tables n data rand;
      Ok (b' :: out, rand)
  end.

Definition rand_ok (rand : Rand) : Prop := 0 <= count rand < PAD_SWITCH.

Section Transform.
Context (op : ByteOp) (tables : list Matrix) (n : Z).
Context (Hn : 0 < n) (Htables : zlen tables = n).

Lemma select_pad_ok r : exists m, select_pad tables n r = Ok m /\ m ∈ tables.
Proof using All.
  unfold select_pad. destruct (Z.eqb_spec n 0); [lia|].
  destruct (lookup_lt_is_Some_2 tables (Z.to_nat (u16 r mod n))) as [m Hm].
  { unfold zlen in Htables. pose proof (Z.mod_pos_bound (u16 r) n). lia. }
  rewrite Hm. exists m. split; [done|]. by eapply list_elem_of_lookup_2.
Qed.

Lemma bytewise_app a b rand :
  bytewise op tables n (a ++ b) rand =
  ('(o1, r1) ← bytewise op tables n a rand;
   '(o2, r2) ← bytewise op tables n b r1; Ok (o1 ++ o2, r2)).
Proof.
  revert rand; induction a as [|x a IH]; intros rand; cbn [app bytewise mbind result_bind].
  - by destruct (bytewise op tables n b rand) as [[??]| |].
  - destruct (byte_step op tables n rand x) as [[x' r]| |]; cbn [mbind result_bind]; [|done..].
    rewrite IH. destruct (bytewise op tables n a r) as [[o1 r1]| |]; cbn [mbind result_bind]; [|done..].
    by destruct (bytewise op tables n b r1) as [[??]| |].
Qed.

(** The generator after [len] bytes. *)
Lemma byte_step_count rand b b' rand' : rand_ok rand ->
  byte_step op tables n rand b = Ok (b', rand') ->
  rand_ok rand' /\ count rand' = (count rand + 1) mod 8.
Proof.
  unfold rand_ok, byte_step, PAD_SWITCH. intros Hr E.
  destruct (select_pad _ _ _); [|done..]. cbn [mbind result_bind] in E.
  destruct (op _ _ _); [|done..]. cbn [mbind result_bind] in E.
  destruct (Z.eqb_spec (count rand + 1) 8).
  - destruct (xoshiro256ss _). injection E as <- <-. cbn [count]. rewrite e. by cbn.
  - injection E as <- <-. cbn [count]. rewrite Z.mod_small; lia.
Qed.

Lemma bytewise_count data rand out rand' : rand_ok rand ->
  bytewise op tables n data rand = Ok (out, rand') ->
  rand_ok rand' /\ count rand' = (count rand + zlen data) mod 8 /\ length out = length data.
Proof.
  revert rand out; induction data as [|b data IH]; intros rand out Hr E; cbn [bytewise] in E.
  - injection E as <- <-. unfold rand_ok, PAD_SWITCH in *.
    change (zlen []) with 0. rewrite Z.add_0_r, Z.mod_small by lia. done.
  - destruct (byte_step op tables n rand b) as [[b' r]| |] eqn:Eb; [|done..]. cbn [mbind result_bind] in E.
    destruct (byte_step_count _ _ _ _ Hr Eb) as [Hr1 Hc1].
    destruct (bytewise op tables n data r) as [[o r1]| |] eqn:Er; [|done..]. cbn [mbind result_bind] in E.
    injection E as <- <-. destruct (IH _ _ Hr1 Er) as (? & Hc & ?). split_and!; [done| |cbn; lia].
    rewrite Hc, Hc1, zlen_cons, Zplus_mod_idemp_l. f_equal. lia.
Qed.

(** *** The walks *)

Definition rand_of (w : Walk) : Rand := mkRand (wk_s w) (wk_r w) (wk_count w).
Definition walk_ok (w : Walk) : Prop :=
  select_pad tables n (wk_r w) = Ok (wk_base w) /\ 0 <= wk_count w < PAD_SWITCH.

(** What a loop did to a prefix of the data, and what is left to do. *)
Definition walked (m : io (list Z * list Z * Walk)) (data : list Z) (w : Walk) (P : list Z -> Walk -> Prop) : Prop :=
  match m with
  | Ok (out, rest, w') =>
      bytewise op tables n data (rand_of w) =
        ('(o, rand) ← bytewise op tables n rest (rand_of w'); Ok (out ++ o, rand)) /\
      walk_ok w' /\ P rest w'
  | Err e => False
  | Panic => bytewise op tables n data (rand_of w) = Panic
  end.

Lemma next_word_ok w : exists w', next_word tables n w 0 = Ok w' /\ walk_ok w' /\ wk_count w' = 0 /\
  rand_of w' = mkRand (snd (xoshiro256ss (wk_s w))) (fst (xoshiro256ss (wk_s w))) 0.
Proof using All.
  unfold next_word. destruct (xoshiro256ss (wk_s w)) as [r s]. cbn [fst snd].
  destruct (select_pad_ok r) as (m & E & _). rewrite E. cbn [mbind result_bind].
  eexists. split; [done|]. unfold walk_ok, PAD_SWITCH. cbn. split_and!; done || lia.
Qed.

(** A byte of the walk is a byte of the transform. *)
Lemma walk_step w b : walk_ok w ->
  byte_step op tables n (rand_of w) b =
  (b' ← op (wk_base w) (random_byte (wk_r w) (wk_count w)) b;
   if wk_count w + 1 =? PAD_SWITCH
   then let '(r, s) := xoshiro256ss (wk_s w) in Ok (b', mkRand s r 0)
   else Ok (b', mkRand (wk_s w) (wk_r w) (wk_count w + 1))).
Proof. intros [E _]. unfold byte_step. cbn [rand_of seed64 count xoshiro]. by rewrite E. Qed.

Lemma head_loop_ok data w : walk_ok w ->
  walked (head_loop op tables n w data) data w (fun rest w' => rest = [] \/ wk_count w' = 0).
Proof using All.
  revert w; induction data as [|b data IH]; intros w Hw; unfold walked; cbn [head_loop bytewise].
  - cbn. auto.
  - rewrite walk_step by done.
    destruct (op (wk_base w) _ b) as [b'|[]|]; [|cbn; done]. cbn [mbind result_bind].
    destruct (Z.eqb_spec (wk_count w + 1) PAD_SWITCH) as [E|E].
    + destruct (next_word_ok w) as (w' & Ew & Hw' & Hc & Er). rewrite Ew. cbn [mbind result_bind walked].
      destruct (xoshiro256ss (wk_s w)) as [r s]. cbn [fst snd mbind result_bind] in *. rewrite Er.
      split; [|by split_and!; auto]. by destruct (bytewise _ _ _ _ _) as [[??]| |].
    + assert (Hw1 : walk_ok (mkWalk (wk_r w) (wk_base w) (wk_s w) (wk_count w + 1))).
      { destruct Hw as [? ?]. split; cbn; [done|lia]. }
      specialize (IH _ Hw1).
      change (mkRand (wk_s w) (wk_r w) (wk_count w + 1))
        with (rand_of (mkWalk (wk_r w) (wk_base w) (wk_s w) (wk_count w + 1))).
      destruct (head_loop _ _ _ _ data) as [[[out rest] w']|[]|]; cbn [mbind result_bind walked] in *.
      * destruct IH as (-> & ? & ?). split; [|done]. by destruct (bytewise _ _ _ rest _) as [[??]| |].
      * by rewrite IH.
Qed.

(** The bytes of one word: the first seven, and the one that draws the next word. *)
Lemma word_byte r s base i j b : select_pad tables n r = Ok base -> i + 1 = j -> j <> PAD_SWITCH ->
  byte_step op tables n (mkRand s r i) b = (b' ← op base (random_byte r i) b; Ok (b', mkRand s r j)).
Proof.
  intros E <- Hj. unfold byte_step. cbn [seed64 count xoshiro]. rewrite E. cbn [mbind result_bind].
  by rewrite (proj2 (Z.eqb_neq _ _) Hj).
Qed.

Lemma word_last_byte r s base b : select_pad tables n r = Ok base ->
  byte_step op tables n (mkRand s r 7) b =
  (b' ← op base (random_byte r 7) b; Ok (b', mkRand (snd (xoshiro256ss s)) (fst (xoshiro256ss s)) 0)).
Proof.
  intros E. unfold byte_step. cbn [seed64 count xoshiro]. rewrite E. cbn [mbind result_bind].
  change (7 + 1 =? PAD_SWITCH) with true. by destruct (xoshiro256ss s).
Qed.

Lemma random_byte_0 r : random_byte r 0 = u8 r.
Proof. unfold random_byte. cbn. by rewrite Z.shiftr_0_r. Qed.

Ltac one_byte H i j k d :=
  rewrite (word_byte _ _ _ i j _ H) by done;
  match goal with
  | |- context [op ?base (random_byte ?r i) d] =>
      change (random_byte r i) with (u8 (Z.shiftr r k));
      destruct (op base (u8 (Z.shiftr r k)) d) as [?|[]|]; [|done]; cbn [mbind result_bind]
  end.

(** A word of the walk is eight bytes of the transform. *)
Lemma word_walked r s base d0 d1 d2 d3 d4 d5 d6 d7 data : select_pad tables n r = Ok base ->
  bytewise op tables n (d0 :: d1 :: d2 :: d3 :: d4 :: d5 :: d6 :: d7 :: data) (mkRand s r 0) =
  (e0 ← op base (u8 r) d0;
   e1 ← op base (u8 (Z.shiftr r 8)) d1;
   e2 ← op base (u8 (Z.shiftr r 16)) d2;
   e3 ← op base (u8 (Z.shiftr r 24)) d3;
   e4 ← op base (u8 (Z.shiftr r 32)) d4;
   e5 ← op base (u8 (Z.shiftr r 40)) d5;
   e6 ← op base (u8 (Z.shiftr r 48)) d6;
   e7 ← op base (u8 (Z.shiftr r 56)) d7;
   '(out, rand) ← bytewise op tables n data (mkRand (snd (xoshiro256ss s)) (fst (xoshiro256ss s)) 0);
   Ok (e0 :: e1 :: e2 :: e3 :: e4 :: e5 :: e6 :: e7 :: out, rand)).
Proof.
  intros E. cbn [bytewise].
  rewrite (word_byte _ _ _ 0 1 _ E) by done.
  rewrite random_byte_0. destruct (op base (u8 r) d0) as [?|[]|]; [|done]. cbn [mbind result_bind].
  one_byte E 1 2 8 d1. one_byte E 2 3 16 d2. one_byte E 3 4 24 d3.
  one_byte E 4 5 32 d4. one_byte E 5 6 40 d5. one_byte E 6 7 48 d6.
  rewrite (word_last_byte _ _ _ _ E). change (random_byte r 7) with (u8 (Z.shiftr r 56)).
  destruct (op base (u8 (Z.shiftr r 56)) d7) as [?|[]|]; [|done]. cbn [mbind result_bind].
  by destruct (bytewise _ _ _ data _) as [[??]|[]|].
Qed.

Lemma group_loop_ok data w : walk_ok w -> wk_count w = 0 ->
  walked (group_loop op tables n w data) data w (fun rest w' => (length rest < 8)%nat /\ wk_count w' = 0).
Proof using All.
  remember (length data) as len eqn:El. revert data El w.
  induction len as [len IH] using lt_wf_ind. intros data -> w Hw Hc.
  assert (Hshort : (length data < 8)%nat -> walked (Ok ([], data, w)) data w
    (fun rest w' => (length rest < 8)%nat /\ wk_count w' = 0)).
  { intros. cbn. split_and!; try done. by destruct (bytewise _ _ _ data _) as [[??]|[]|]. }
  do 8 (destruct data as [|? data]; [apply Hshort; cbn; lia|]). clear Hshort.
  destruct (next_word_ok w) as (w' & Ew & Hw' & Hc' & Er).
  destruct w as [r base s c]. cbn [wk_count] in Hc. subst c. destruct Hw as [Eb _]. cbn [wk_r wk_base] in Eb.
  cbn [group_loop wk_r wk_base wk_count]. unfold walked.
  change (rand_of (mkWalk r base s 0)) with (mkRand s r 0). rewrite (word_walked _ _ _ _ _ _ _ _ _ _ _ _ Eb).
  do 8 (match goal with |- context [op base ?b ?d] => destruct (op base b d) as [?|[]|]; [|done] end;
    cbn [mbind result_bind]).
  rewrite Ew. cbn [mbind result_bind wk_s] in *. rewrite <- Er.
  specialize (IH (length data) ltac:(cbn; lia) data eq_refl w' Hw' Hc').
  destruct (group_loop _ _ _ w' data) as [[[out rest] w1]|[]|]; cbn [mbind result_bind walked] in *.
  - destruct IH as (-> & ? & ?). split; [|done]. by destruct (bytewise _ _ _ rest _) as [[??]|[]|].
  - by rewrite IH.
Qed.

Lemma tail_loop_ok data w : walk_ok w -> wk_count w + zlen data < PAD_SWITCH ->
  bytewise op tables n data (rand_of w) =
  ('(out, w') ← tail_loop op w data; Ok (out, rand_of w')).
Proof using All.
  revert w; induction data as [|b data IH]; intros w Hw Hl; cbn [tail_loop bytewise]; [done|].
  rewrite walk_step by done. rewrite zlen_cons in Hl. pose proof (zlen_nonneg data).
  destruct (op (wk_base w) _ b) as [b'|[]|]; [|cbn; done]. cbn [mbind result_bind].
  rewrite (proj2 (Z.eqb_neq _ _)) by lia. cbn [mbind result_bind].
  change (mkRand (wk_s w) (wk_r w) (wk_count w + 1))
    with (rand_of (mkWalk (wk_r w) (wk_base w) (wk_s w) (wk_count w + 1))).
  rewrite IH; [|destruct Hw as [? ?]; split; cbn; [done|lia]|cbn; lia].
  by destruct (tail_loop _ _ _) as [[??]| |].
Qed.

Lemma count_written c size : 0 <= c < PAD_SWITCH -> Z.land (u8 (c + u8 size)) (PAD_SWITCH - 1) = (c + size) mod 8.
Proof.
  intros Hc. change (PAD_SWITCH - 1) with (Z.ones 3). rewrite Z.land_ones by lia. change (2 ^ 3) with 8.
  unfold u8. zlia.
Qed.

(** The walk computes the transform; the generator written back is the one the
    transform ends with. *)
Lemma walk_data_bytewise data rand : rand_ok rand ->
  walk_data op tables n data rand = bytewise op tables n data rand.
Proof using All.
  intros Hr. unfold walk_data. cbn zeta.
  destruct (select_pad_ok (seed64 rand)) as (base & Es & _). rewrite Es. cbn [mbind result_bind].
  set (w := mkWalk (seed64 rand) base (xoshiro rand) (count rand)).
  assert (Hw : walk_ok w) by done.
  assert (Ew : rand_of w = rand) by by destruct rand.
  assert (H1 : walked (if negb (count rand =? 0) then head_loop op tables n w data else Ok ([], data, w)) data w
                 (fun rest w' => rest = [] \/ wk_count w' = 0)).
  { destruct (Z.eqb_spec (count rand) 0); cbn [negb]; [|by apply head_loop_ok].
    cbn. split_and!; auto. by destruct (bytewise _ _ _ data _) as [[??]|[]|]. }
  destruct (if negb _ then _ else _) as [[[head rest] w1]|[]|]; cbn [mbind result_bind walked] in *; [|by rewrite <- Ew].
  destruct H1 as (E1 & Hw1 & Hrest).
  assert (H2 : walked (group_loop op tables n w1 rest) rest w1 (fun tail w' => wk_count w' + zlen tail < PAD_SWITCH)).
  { destruct (decide (rest = [])) as [->|Hne].
    { cbn. destruct Hw1. split_and!; [done|done|rewrite zlen_nil; lia]. }
    destruct Hrest as [?|Hc]; [done|]. pose proof (group_loop_ok rest w1 Hw1 Hc) as H.
    destruct (group_loop _ _ _ w1 rest) as [[[out t] w2]|[]|]; cbn [walked] in *; [|done].
    destruct H as (? & ? & ? & ?). unfold zlen, PAD_SWITCH. split_and!; [done|done|lia]. }
  destruct (group_loop _ _ _ w1 rest) as [[[groups tail] w2]|[]|]; cbn [mbind result_bind walked] in *;
    [|by rewrite <- Ew, E1, H2].
  destruct H2 as (E2 & Hw2 & Hl). rewrite E2, (tail_loop_ok tail w2 Hw2 Hl) in E1.
  rewrite Ew in E1. destruct (tail_loop op w2 tail) as [[last w3]|[]|]; cbn [mbind result_bind] in *; [|done].
  rewrite E1. destruct (bytewise_count _ _ _ _ Hr E1) as (_ & Hc & _).
  rewrite count_written by done. rewrite <- Hc. by destruct w3.
Qed.

Lemma walk_bytewise data rand : rand_ok rand -> with_prng op tables n data rand = bytewise op tables n data rand.
Proof using All. intros Hr. destruct data; [done|]. by apply walk_data_bytewise. Qed.
End Transform.

(** ** The reverse pads undo the pads *)

(** [rp] inverts [p]: both map bytes to bytes. *)
Definition inverse_pads (p rp : Matrix) : Prop :=
  forall b, is_u8 b -> exists c, p !! Z.to_nat b = Some c /\ is_u8 c /\ rp !! Z.to_nat c = Some b.

Lemma random_byte_u8 r c : is_u8 (random_byte r c).
Proof. apply u8_range. Qed.

Lemma byte_inverse p rp rr b : inverse_pads p rp -> is_u8 b -> is_u8 rr ->
  exists c, enc_byte p rr b = Ok c /\ is_u8 c /\ dec_byte rp rr c = Ok b.
Proof.
  intros Hp Hb Hr. destruct (Hp (Z.lxor b rr)) as (c & Hc & Hcb & Hrc); [by apply lxor_byte|].
  exists c. unfold enc_byte, dec_byte. rewrite Hc, Hrc. cbn. split_and!; [done..|].
  by rewrite Z.lxor_assoc, Z.lxor_nilpotent, Z.lxor_0_r.
Qed.

Section Inverse.
Context (tables rtables : list Matrix) (n : Z).
Context (Hn : 0 < n) (Htables : zlen tables = n) (Hinv : Forall2 inverse_pads tables rtables).

Lemma select_inverse r : exists p rp,
  select_pad tables n r = Ok p /\ select_pad rtables n r = Ok rp /\ inverse_pads p rp.
Proof using All.
  destruct (select_pad_ok enc_byte tables n Hn Htables r) as (p & Ep & _). unfold select_pad in *.
  destruct (n =? 0); [done|]. destruct (tables !! _) as [p'|] eqn:E; [|done]. injection Ep as ->.
  destruct (Forall2_lookup_l _ _ _ _ _ Hinv E) as (rp & Er & Hp). exists p, rp. by rewrite Er.
Qed.

Lemma step_inverse rand b : is_u8 b -> exists c rand',
  byte_step enc_byte tables n rand b = Ok (c, rand') /\ is_u8 c /\
  byte_step dec_byte rtables n rand c = Ok (b, rand').
Proof using All.
  intros Hb. destruct (select_inverse (seed64 rand)) as (p & rp & Ep & Erp & Hp).
  destruct (byte_inverse p rp (random_byte (seed64 rand) (count rand)) b Hp Hb) as (c & Ec & Hc & Ed);
    [apply random_byte_u8|].
  exists c. unfold byte_step. rewrite Ep, Erp. cbn [mbind result_bind]. rewrite Ec, Ed. cbn [mbind result_bind].
  destruct (_ =? _); [destruct (xoshiro256ss _)|]; eauto.
Qed.

Lemma bytewise_inverse data rand : bytes data -> exists out rand',
  bytewise enc_byte tables n data rand = Ok (out, rand') /\ bytes out /\
  bytewise dec_byte rtables n out rand = Ok (data, rand').
Proof using All.
  intros Hd. revert rand. induction Hd as [|b data Hb Hd IH]; intros rand; cbn [bytewise].
  - exists [], rand. split_and!; [done|constructor|done].
  - destruct (step_inverse rand b Hb) as (c & r & E1 & Hc & E2). rewrite E1. cbn [mbind result_bind].
    destruct (IH r) as (out & r' & E3 & Ho & E4). rewrite E3. cbn [mbind result_bind].
    exists (c :: out), r'. split_and!; [done|by constructor|]. cbn [bytewise].
    rewrite E2. cbn [mbind result_bind]. by rewrite E4.
Qed.
End Inverse.

(** *** A stream cut into calls *)

Section Stream.
Context (f : list Z -> Rand -> io (list Z * Rand)).

(** Successive calls on the pieces of a stream, with the same generator. *)
Fixpoint stream (pieces : list (list Z)) (rand : Rand) : io (list (list Z) * Rand) :=
  match pieces with
  | [] => Ok ([], rand)
  | data :: pieces =>
      '(out, rand) ← f data rand;
      '(outs, rand) ← stream pieces rand;
      Ok (out :: outs, rand)
  end.
End Stream.

Lemma stream_bytewise op tables n pieces rand : 0 < n -> zlen tables = n -> rand_ok rand ->
  match stream (with_prng op tables n) pieces rand with
  | Ok (outs, rand') => bytewise op tables n (concat pieces) rand = Ok (concat outs, rand')
  | Err _ => False
  | Panic => bytewise op tables n (concat pieces) rand = Panic
  end.
Proof.
  intros Hn Ht. revert rand. induction pieces as [|data pieces IH]; intros rand Hr; cbn [stream concat]; [done|].
  rewrite walk_bytewise, bytewise_app by done.
  destruct (bytewise op tables n data rand) as [[out r]|[]|] eqn:E; cbn [mbind result_bind]; [|done].
  destruct (bytewise_count _ _ _ _ _ _ _ Hr E) as (Hr1 & _ & _).
  specialize (IH r Hr1). destruct (stream _ pieces r) as [[outs r']|[]|]; cbn [mbind result_bind]; [|by rewrite IH].
  by rewrite IH.
Qed.

(** ** Big numbers *)

Definition is_u64 (z : Z) : Prop := 0 <= z < 18446744073709551616.

Fixpoint big_val (n : BigUint) : Z :=
  match n with
  | [] => 0
  | limb :: n => limb + 18446744073709551616 * big_val n
  end.

(** No leading zero limb. *)
Definition big_ok (n : BigUint) : Prop := Forall is_u64 n /\ last n <> Some 0.

Lemma big_val_app a b : big_val (a ++ b) = big_val a + 18446744073709551616 ^ zlen a * big_val b.
Proof.
  induction a as [|x a IH]; cbn [app big_val].
  - change (zlen []) with 0. rewrite Z.pow_0_r. lia.
  - rewrite IH, zlen_cons, Z.pow_add_r, Z.pow_1_r by (pose proof (zlen_nonneg a); lia). lia.
Qed.

Lemma big_val_range n : Forall is_u64 n -> 0 <= big_val n < 18446744073709551616 ^ zlen n.
Proof.
  induction 1 as [|x n Hx Hn IH]; cbn [big_val]; [done|].
  rewrite zlen_cons, Z.pow_add_r, Z.pow_1_r by (pose proof (zlen_nonneg n); lia).
  unfold is_u64 in Hx. lia.
Qed.

(** The top limb bounds the value from below. *)
Lemma big_val_top n top : Forall is_u64 n -> last n = Some top ->
  exists low, big_val n = low + 18446744073709551616 ^ (zlen n - 1) * top /\
    0 <= low < 18446744073709551616 ^ (zlen n - 1) /\ is_u64 top.
Proof.
  intros Hn (l & ->)%last_Some. apply Forall_app in Hn as [Hl Ht].
  exists (big_val l). rewrite big_val_app, zlen_app. change (zlen [top]) with 1. cbn [big_val].
  replace (zlen l + 1 - 1) with (zlen l) by lia.
  split; [lia|]. apply Forall_cons_1 in Ht as [Ht _]. split; [by apply big_val_range|done].
Qed.

Lemma from_u64_ok v : is_u64 v -> big_ok (from_u64 v) /\ big_val (from_u64 v) = v.
Proof.
  unfold from_u64, big_ok. intros Hv. destruct (Z.eqb_spec v 0) as [->|Hn]; cbn; [done|].
  split_and!; [by constructor|by intros [= ?]|lia].
Qed.

Lemma mul_limbs_ok m carry limbs : is_u64 m -> is_u64 carry -> Forall is_u64 limbs ->
  let '(l, c) := mul_limbs m carry limbs in
  Forall is_u64 l /\ is_u64 c /\ length l = length limbs /\
  big_val l + 18446744073709551616 ^ zlen limbs * c = big_val limbs * m + carry.
Proof.
  intros Hm Hc Hl. revert carry Hc. induction Hl as [|x limbs Hx Hl IH]; intros carry Hc; cbn [mul_limbs big_val].
  - change (zlen []) with 0. split_and!; [done..|]. rewrite Z.pow_0_r. lia.
  - assert (Hhi : u64 (Z.shiftr (x * m + carry) 64) = (x * m + carry) / 18446744073709551616).
    { rewrite Z.shiftr_div_pow2 by lia. change (2 ^ 64) with 18446744073709551616. unfold u64.
      unfold is_u64 in *. apply Z.mod_small. split; [apply Z.div_pos; nia|]. apply Z.div_lt_upper_bound; nia. }
    rewrite Hhi. specialize (IH ((x * m + carry) / 18446744073709551616)).
    destruct (mul_limbs m _ limbs) as [l c].
    destruct IH as (Hl' & Hc' & Hlen & Hv).
    { rewrite <- Hhi. unfold is_u64, u64. apply Z.mod_pos_bound. lia. }
    split_and!; [constructor; [unfold is_u64, u64; apply Z.mod_pos_bound; lia|done]|done|cbn; lia|].
    cbn [big_val]. rewrite zlen_cons, Z.pow_add_r, Z.pow_1_r by (pose proof (zlen_nonneg limbs); lia).
    unfold u64. pose proof (Z.div_mod (x * m + carry) 18446744073709551616 ltac:(lia)). nia.
Qed.

(** The top limb is not zero unless the number is. *)
Lemma big_val_nonzero n : big_ok n -> big_val n <> 0 <-> n <> [].
Proof.
  intros [Hn Hl]. split; [by intros H ->|]. intros Hne.
  destruct (last n) as [top|] eqn:E; [|by apply last_None in E].
  destruct (big_val_top n top Hn E) as (low & -> & Hlow & Ht). unfold is_u64 in Ht.
  assert (top <> 0) by congruence.
  enough (0 < 18446744073709551616 ^ (zlen n - 1) * top) by lia.
  apply Z.mul_pos_pos; [|lia]. apply Z.pow_pos_nonneg; [lia|].
  destruct n; [done|]. rewrite zlen_cons. pose proof (zlen_nonneg n). lia.
Qed.

Lemma mul_u64_ok n m : big_ok n -> is_u64 m -> big_ok (mul_u64 n m) /\ big_val (mul_u64 n m) = big_val n * m.
Proof.
  intros Hn Hm. unfold mul_u64. destruct (Z.eqb_spec m 0) as [->|Hnz]; [cbn; split; [done|lia]|].
  pose proof (mul_limbs_ok m 0 n Hm ltac:(done) (proj1 Hn)) as H.
  destruct (mul_limbs m 0 n) as [l c]. destruct H as (Hl & Hc & Hlen & Hv).
  assert (Ezl : zlen n = zlen l) by (unfold zlen; lia).
  destruct (Z.eqb_spec c 0) as [->|Hcz]; cbn [negb].
  - split; [|lia]. split; [done|]. intros Htop.
    destruct (big_val_top l 0 Hl Htop) as (low & Elow & Hlow & _).
    (* a zero top limb would make the product smaller than the number *)
    destruct (decide (n = [])) as [->|Hne]; [destruct l; [done|cbn in Hlen; lia]|].
    destruct (last n) as [top|] eqn:Et; [|by apply last_None in Et].
    destruct (big_val_top n top (proj1 Hn) Et) as (low' & Elow' & Hlow' & Ht). rewrite Ezl in *.
    assert (top <> 0) by (intros ->; by destruct Hn). unfold is_u64 in Ht, Hm.
    pose proof (Z.pow_nonneg 18446744073709551616 (zlen l - 1) ltac:(lia)). nia.
  - split; [split; [apply Forall_app; split; [done|by constructor]|rewrite last_snoc; congruence]|].
    rewrite big_val_app. cbn [big_val]. rewrite <- Ezl. lia.
Qed.

(** [bit_len] is the number of binary digits. *)
Lemma bit_len_ok n : big_ok n -> bit_len n = if big_val n =? 0 then 0 else Z.log2 (big_val n) + 1.
Proof.
  intros Hn. unfold bit_len. destruct (last n) as [top|] eqn:E.
  - assert (Hne : n <> []) by (by intros ->).
    rewrite (proj2 (Z.eqb_neq _ _)) by by apply big_val_nonzero.
    destruct (big_val_top n top (proj1 Hn) E) as (low & Ev & Hlow & Ht).
    assert (Hnz : top <> 0) by (intros ->; by destruct Hn). unfold leading_zeros.
    rewrite (proj2 (Z.eqb_neq _ _) Hnz). unfold is_u64 in Ht.
    assert (Hz : 0 <= zlen n - 1) by (destruct n; [done|]; rewrite zlen_cons; pose proof (zlen_nonneg n); lia).
    change 18446744073709551616 with (2 ^ 64) in *. rewrite <- Z.pow_mul_r in * by lia.
    enough (Z.log2 (big_val n) = 64 * (zlen n - 1) + Z.log2 top) by lia.
    pose proof (Z.log2_spec top ltac:(lia)) as [H1 H2]. pose proof (Z.log2_nonneg top).
    apply Z.log2_unique; [lia|]. rewrite Ev. rewrite <- Z.add_succ_r, !Z.pow_add_r by lia. nia.
  - apply last_None in E as ->. done.
Qed.

(** ** The minimum seed length *)

Fixpoint zfact (n : nat) : Z := match n with O => 1 | S m => Z.of_nat n * zfact m end.

Lemma zfact_pos n : 0 < zfact n.
Proof. induction n as [|n IH]; cbn [zfact]; lia. Qed.

Lemma factorial_loop_ok i n : Z.of_nat i < 18446744073709551616 -> big_ok n ->
  big_ok (factorial_loop i n) /\ big_val (factorial_loop i n) = big_val n * zfact i.
Proof.
  revert n. induction i as [|i IH]; intros n Hi Hn; cbn [factorial_loop zfact]; [split; [done|lia]|].
  destruct (mul_u64_ok n (Z.of_nat (S i)) Hn) as [Hm Em]; [unfold is_u64; lia|].
  destruct (IH (mul_u64 n (Z.of_nat (S i))) ltac:(lia) Hm) as [H1 H2]. split; [done|]. rewrite H2, Em. lia.
Qed.

(** The bytes that hold the number of permutations of [2^qubits] symbols. *)
Lemma qpp_minimum_seed_length_ok qubits : 0 <= qubits < 64 ->
  qpp_minimum_seed_length qubits = (Z.log2 (zfact (Z.to_nat (2 ^ qubits))) + 1 + 7) / 8.
Proof.
  intros Hq. unfold qpp_minimum_seed_length. rewrite (proj2 (Z.ltb_lt _ _)) by lia.
  rewrite Z.shiftl_1_l. set (p := 2 ^ qubits).
  assert (Hp : 0 < p < 18446744073709551616).
  { split; [by apply Z.pow_pos_nonneg; lia|]. change 18446744073709551616 with (2 ^ 64). apply Z.pow_lt_mono_r; lia. }
  destruct (from_u64_ok p) as [H1 E1]; [unfold is_u64; lia|].
  destruct (factorial_loop_ok (Z.to_nat (p - 1)) (from_u64 p) ltac:(lia) H1) as [H2 E2].
  rewrite bit_len_ok by done. rewrite E2, E1.
  replace (Z.to_nat p) with (S (Z.to_nat (p - 1))) by lia. cbn [zfact].
  replace (Z.of_nat (S (Z.to_nat (p - 1)))) with p by lia.
  set (f := zfact (Z.to_nat (p - 1))). assert (0 < f) by apply zfact_pos.
  rewrite (proj2 (Z.eqb_neq (p * f) 0)) by nia.
  pose proof (Z.log2_nonneg (p * f)).
  rewrite (proj2 (Z.eqb_neq _ _)); [done|]. zlia.
Qed.

(** ** Shuffling *)

(** The number with big-endian bytes [l]. *)
Definition be_val (l : list Z) : Z := fold_left (fun acc b => acc * 256 + b) l 0.

Lemma rem_step rem b m : 0 < m <= 256 -> 0 <= rem < m -> is_u8 b ->
  Z.lor (u32 (Z.shiftl rem 8)) b mod m = (rem * 256 + b) mod m.
Proof.
  intros Hm Hr Hb. rewrite Z.shiftl_mul_pow2 by lia. change (2 ^ 8) with 256.
  rewrite u32_id by (unfold is_u32; lia).
  f_equal.
  enough (Z.land (rem * 256) b = 0) as E by (pose proof (Z.add_lor_land (rem * 256) b); lia).
  apply Z.bits_inj'. intros k Hk. rewrite Z.land_spec, Z.bits_0. change 256 with (2 ^ 8).
  destruct (Z.ltb_spec k 8).
  - by rewrite Z.mul_pow2_bits_low.
  - apply andb_false_intro2. destruct (decide (b = 0)) as [->|]; [apply Z.bits_0|].
    apply Z.bits_above_log2; [apply Hb|]. apply Z.log2_lt_pow2; [unfold is_u8 in Hb; lia|].
    unfold is_u8 in Hb. change 256 with (2 ^ 8) in Hb.
    pose proof (Z.pow_le_mono_r 2 8 k ltac:(lia) ltac:(lia)). lia.
Qed.

(** The byte-wise remainder is the remainder of the number. *)
Lemma mod_big_endian_ok sum m : 0 < m <= 256 -> bytes sum -> mod_big_endian sum m = Ok (be_val sum mod m).
Proof.
  intros Hm Hs. unfold mod_big_endian, be_val. rewrite (proj2 (Z.eqb_neq _ _)) by lia. f_equal.
  assert (Hgen : forall rem acc, 0 <= rem < m -> rem = acc mod m ->
    fold_left (fun rem b => Z.lor (u32 (Z.shiftl rem 8)) b mod m) sum rem =
    fold_left (fun acc b => acc * 256 + b) sum acc mod m).
  { induction Hs as [|b sum Hb Hs IH]; intros rem acc Hr E; cbn [fold_left]; [done|].
    apply IH.
    - rewrite rem_step by done. apply Z.mod_pos_bound. lia.
    - rewrite rem_step, E by done. rewrite Z.add_mod, Z.mul_mod_idemp_l, <- Z.add_mod by lia. done. }
  apply Hgen; [lia|]. by rewrite Z.mod_0_l by lia.
Qed.

Section Crypto.
Context {crypto : Crypto}.

Definition block_ok (sum : list Z) : Prop := length sum = 32%nat /\ bytes sum.

Lemma aes_pass_ok sum key : block_ok sum -> block_ok (aes_pass sum key).
Proof.
  intros [Hl Hb]. unfold aes_pass. split.
  - rewrite length_app, !aes_size; [done|rewrite length_take, length_drop; lia|rewrite length_take; lia].
  - apply Forall_app. split; apply aes_bytes; [by apply Forall_take|by apply Forall_take, Forall_drop].
Qed.

Lemma aes_passes_ok blocks sum : block_ok sum -> block_ok (fold_left aes_pass blocks sum).
Proof. revert sum. induction blocks as [|key blocks IH]; intros sum H; cbn; [done|]. by apply IH, aes_pass_ok. Qed.

(** A round exchanges [pad[i]] with the entry the value chooses, [value mod (i + 1)]. *)
Lemma shuffle_step_ok blocks i sum pad : block_ok sum -> length pad = 256%nat -> (i < 256)%nat ->
  exists pad', shuffle_step blocks i (sum, pad) = Ok (fold_left aes_pass blocks sum, pad') /\ pad' ≡ₚ pad.
Proof.
  intros Hs Hl Hi. unfold shuffle_step.
  pose proof (aes_passes_ok blocks sum Hs) as [_ Hb]. rewrite mod_big_endian_ok by (lia || done).
  cbn [mbind result_bind]. set (v := be_val _). pose proof (Z.mod_pos_bound v (Z.of_nat i + 1) ltac:(lia)).
  destruct (swap_ok pad i (Z.to_nat (v mod (Z.of_nat i + 1)))) as (p & E & Hp); [lia..|].
  rewrite E. cbn. eauto.
Qed.

Lemma for_down_ok blocks m sum pad : block_ok sum -> length pad = 256%nat -> (m <= 256)%nat ->
  exists sum' pad', for_down m (shuffle_step blocks) (sum, pad) = Ok (sum', pad') /\ pad' ≡ₚ pad.
Proof.
  revert sum pad. induction m as [|m IH]; intros sum pad Hs Hl Hm; [by eauto|].
  cbn [for_down]. destruct m as [|m']; [by eauto|]. set (m := S m') in *.
  destruct (shuffle_step_ok blocks m sum pad Hs Hl ltac:(lia)) as (p & E & Hp). rewrite E. cbn [mbind result_bind].
  destruct (IH (fold_left aes_pass blocks sum) p) as (s' & p' & E' & Hp');
    [by apply aes_passes_ok|by rewrite Hp|lia|].
  exists s', p'. split; [done|by rewrite Hp'].
Qed.

Lemma shuffle_ok chunk pad pad_id blocks : length pad = 256%nat ->
  exists pad', shuffle chunk pad pad_id blocks = Ok pad' /\ pad' ≡ₚ pad.
Proof.
  intros Hl. unfold shuffle. rewrite Hl.
  edestruct (for_down_ok blocks 256) as (s & p & E & Hp); [|exact Hl|done|].
  2: { rewrite E. cbn. eauto. }
  split; [apply hmac_size|apply hmac_bytes].
Qed.

(** ** Pads *)

(** The identity permutation. *)
Definition identity_pad : Matrix := Z.of_nat <$> seq 0 MATRIX_BYTES.

(** A permutation of the byte values. *)
Definition pad_ok (pad : Matrix) : Prop := pad ≡ₚ identity_pad.

Lemma fill_ok : fill (replicate MATRIX_BYTES 0) = Ok identity_pad.
Proof. by vm_compute. Qed.

Lemma pad_ok_length pad : pad_ok pad -> length pad = 256%nat.
Proof. unfold pad_ok, identity_pad. intros ->. by rewrite length_fmap, length_seq. Qed.

Lemma pad_ok_nodup pad : pad_ok pad -> NoDup pad.
Proof. unfold pad_ok, identity_pad. intros ->. apply NoDup_fmap_2; [apply _|apply NoDup_seq]. Qed.

Lemma pad_ok_byte pad k c : pad_ok pad -> pad !! k = Some c -> is_u8 c.
Proof.
  unfold pad_ok. intros Hp Hk%list_elem_of_lookup_2. rewrite Hp in Hk. unfold identity_pad in Hk.
  apply list_elem_of_fmap in Hk as (i & -> & Hi%elem_of_seq). unfold is_u8, MATRIX_BYTES in *. lia.
Qed.

(** [reverse] gives the inverse of a permutation. *)
Lemma reverse_ok pad : pad_ok pad ->
  exists rpad, reverse pad (replicate MATRIX_BYTES 0) = Ok rpad /\ inverse_pads pad rpad.
Proof.
  intros Hp. pose proof (pad_ok_length pad Hp) as Hl. unfold reverse.
  destruct (for_range_inv (fun i (r : Matrix) => length r = 256%nat /\
      forall k c, (k < i)%nat -> pad !! k = Some c -> r !! Z.to_nat c = Some (Z.of_nat k))
    0 (length pad) (reverse_step pad) (replicate MATRIX_BYTES 0)) as (rpad & E & Hlr & Hr); [lia| | |].
  - split; [apply length_replicate|lia].
  - intros i r Hi [Hlr Hr]. destruct (lookup_lt_is_Some_2 pad i ltac:(lia)) as [c Hc].
    pose proof (pad_ok_byte pad i c Hp Hc) as Hcb. unfold is_u8 in Hcb. unfold reverse_step. rewrite Hc.
    cbn [unwrap mbind result_bind]. rewrite (proj2 (Nat.ltb_lt _ _)) by lia. eexists. split; [done|].
    rewrite u8_id by (unfold is_u8; lia). split; [by rewrite length_insert|]. intros k c' Hk Hc'.
    destruct (decide (k = i)) as [->|Hne].
    + rewrite Hc in Hc'. injection Hc' as <-. apply list_lookup_insert_eq. lia.
    + rewrite list_lookup_insert_ne; [apply Hr; [lia|done]|]. intros E.
      pose proof (pad_ok_byte pad k c' Hp Hc') as Hcb'. unfold is_u8 in Hcb'.
      apply Hne. eapply (NoDup_lookup pad); [by apply pad_ok_nodup|done|]. rewrite Hc. f_equal. lia.
  - exists rpad. split; [done|]. intros b Hb. unfold is_u8 in Hb.
    destruct (lookup_lt_is_Some_2 pad (Z.to_nat b) ltac:(lia)) as [c Hc].
    exists c. split_and!; [done|by apply (pad_ok_byte _ _ _ Hp Hc)..|].
    rewrite (Hr (Z.to_nat b) c) by (lia || done). f_equal. lia.
Qed.

Lemma make_pad_ok chunks blocks i : chunks <> [] ->
  exists pad rpad, make_pad chunks blocks i = Ok (pad, rpad) /\ pad_ok pad /\ inverse_pads pad rpad.
Proof.
  intros Hne. unfold make_pad. rewrite fill_ok. cbn [mbind result_bind].
  destruct (length chunks) as [|n] eqn:El; [by destruct chunks|].
  destruct (lookup_lt_is_Some_2 chunks (i mod S n)) as [chunk Hc].
  { rewrite El. apply Nat.mod_upper_bound. lia. }
  rewrite Hc. cbn [unwrap mbind result_bind].
  destruct (shuffle_ok chunk identity_pad (u16 (Z.of_nat i)) blocks) as (pad & E & Hp); [done|].
  rewrite E. cbn [mbind result_bind].
  destruct (reverse_ok pad Hp) as (rpad & E' & Hr). rewrite E'. cbn. eauto.
Qed.

(** ** Seeds *)

(** The bytes of the seed read cyclically from [idx]. *)
Definition seed_cycle (seed : list Z) (idx : nat) : list Z :=
  (fun i => seed !!! ((idx + i) mod length seed)%nat) <$> seq 0 32.

Lemma seed_chunk_ok seed idx : seed <> [] -> seed_chunk seed idx = Ok (seed_cycle seed idx).
Proof.
  intros Hne. unfold seed_chunk.
  destruct (for_range_inv (fun i (chunk : list Z) => chunk = (fun i => seed !!! ((idx + i) mod length seed)%nat) <$> seq 0 i)
    0 32 (fun i chunk =>
    match length seed with
    | O => Panic
    | _ => b ← unwrap (seed !! ((idx + i) mod length seed)%nat); Ok (chunk ++ [b])
    end : io (list Z)) []) as (chunk & E & ->); [lia|done| |done].
  intros i chunk Hi ->. destruct (length seed) as [|n] eqn:El; [by destruct seed|].
  destruct (lookup_lt_is_Some_2 seed ((idx + i) mod S n)) as [b Hb].
  { rewrite El. apply Nat.mod_upper_bound. lia. }
  rewrite Hb. cbn [unwrap mbind result_bind]. eexists. split; [done|].
  rewrite Nat.add_1_r, seq_S, fmap_app. cbn. by rewrite (list_lookup_total_correct _ _ _ Hb).
Qed.

(** The number of chunks: 7 for bytes, so that [qpp_minimum_seed_length] bytes
    of entropy fit. *)
Definition expanded_seed (seed : list Z) : list Z :=
  if (length seed <? 32)%nat then pbkdf2_sha1 seed CHUNK_DERIVE_SALT PBKDF2_LOOPS else seed.

Definition seed_chunks (seed : list Z) (n : nat) : list (list Z) :=
  (fun c => pbkdf2_sha1 (seed_cycle seed (32 * c)) CHUNK_DERIVE_SALT CHUNK_DERIVE_LOOPS) <$> seq 0 n.

Lemma expanded_seed_nonempty seed : expanded_seed seed <> [].
Proof.
  unfold expanded_seed. destruct (Nat.ltb_spec (length seed) 32) as [|Hl].
  - intros E. pose proof (pbkdf2_size seed CHUNK_DERIVE_SALT PBKDF2_LOOPS) as Hs. by rewrite E in Hs.
  - destruct seed; [cbn in Hl; lia|done].
Qed.

Lemma seed_to_chunks_ok seed qubits :
  seed_to_chunks seed qubits =
  Ok (seed_chunks (expanded_seed seed) (Z.to_nat (Z.max ((qpp_minimum_seed_length qubits + 31) / 32) 1))).
Proof.
  unfold seed_to_chunks. fold (expanded_seed seed). set (s := expanded_seed seed).
  set (n := Z.to_nat _).
  destruct (for_range_inv (fun i chunks => chunks = seed_chunks s i) 0 n
    (fun n chunks => chunk ← seed_chunk s (32 * n);
      Ok (chunks ++ [pbkdf2_sha1 chunk CHUNK_DERIVE_SALT CHUNK_DERIVE_LOOPS]) : io (list (list Z))) []) as (chunks & E & ->);
    [lia|done| |done].
  intros i chunks Hi ->. rewrite seed_chunk_ok by apply expanded_seed_nonempty. cbn [mbind result_bind].
  eexists. split; [done|]. unfold seed_chunks. by rewrite Nat.add_1_r, seq_S, fmap_app.
Qed.

Lemma seed_to_chunks_nonempty seed qubits : exists chunks, seed_to_chunks seed qubits = Ok chunks /\ chunks <> [].
Proof.
  rewrite seed_to_chunks_ok. eexists. split; [done|]. unfold seed_chunks.
  destruct (Z.to_nat (Z.max _ 1)) eqn:E; [lia|done].
Qed.

(** ** Generators *)

Lemma new_rand_ok state : length state = 32%nat -> exists rand, new_rand state = Ok rand /\ rand_ok rand.
Proof.
  intros Hl. unfold new_rand, word_at. rewrite Hl. cbn [Nat.leb Nat.add mbind result_bind].
  destruct (xoshiro256ss _). eexists. split; [done|]. by unfold rand_ok, PAD_SWITCH.
Qed.

Lemma create_prng_ok seed : exists rand, create_prng seed = Ok rand /\ rand_ok rand.
Proof. apply new_rand_ok, pbkdf2_size. Qed.

(** A seed of any length gives a pad set for any number of pads. *)
Definition pads_ok (q : QuantumPermutationPad) : Prop :=
  zlen (pads q) = num_pads q /\ Forall pad_ok (pads q) /\ Forall2 inverse_pads (pads q) (rpads q).

Lemma qpp_new_ok seed n : 0 < n ->
  exists q rand, qpp_new seed n = Ok q /\ num_pads q = n /\ pads_ok q /\
    create_prng seed = Ok rand /\ rand_ok rand /\ enc_rand q = rand /\ dec_rand q = rand.
Proof.
  intros Hn. unfold qpp_new. destruct (Z.leb_spec n 0); [lia|].
  destruct (seed_to_chunks_nonempty seed QUBITS) as (chunks & Ec & Hc). rewrite Ec. cbn [mbind result_bind].
  generalize ((fun chunk => pbkdf2_sha1 chunk SHUFFLE_SALT PBKDF2_LOOPS) <$> chunks). intros blocks.
  destruct (for_range_inv (fun i (st : list Matrix * list Matrix) =>
      length (fst st) = i /\ Forall pad_ok (fst st) /\ Forall2 inverse_pads (fst st) (snd st)) 0 (Z.to_nat n)
    (fun i '(ps, rs) => p ← make_pad chunks blocks i; Ok (ps ++ [fst p], rs ++ [snd p]) : io (list Matrix * list Matrix))
    ([], [])) as ([ps rs] & E & Hl & Hp & Hi); [lia|by split_and!; constructor| |].
  { intros i [ps rs] Hi (Hl & Hp & Hinv). cbn [fst snd] in *.
    destruct (make_pad_ok chunks blocks i Hc) as (pad & rpad & E & Hpad & Hr). rewrite E. cbn.
    eexists. split; [done|]. cbn. split_and!; [rewrite length_app; cbn; lia| |].
    - apply Forall_app. split; [done|by constructor].
    - apply Forall2_app; [done|by constructor]. }
  rewrite E. cbn [mbind result_bind]. destruct (create_prng_ok seed) as (rand & Er & Hr). rewrite Er. cbn.
  eexists _, rand. split; [reflexivity|]. cbn [num_pads enc_rand dec_rand].
  split; [reflexivity|]. split; [|split; [reflexivity|split; [exact Hr|split; reflexivity]]].
  unfold pads_ok, zlen. cbn [num_pads pads rpads fst snd] in *.
  split; [lia|]. split; [exact Hp|exact Hi].
Qed.
End Crypto.
