(* ===== verification/QppTheorems.v ===== *)
(** * What the permutation pads guarantee

    The properties of [crates/qpp]: both ends of a stream stay in step however
    their reads and writes are cut, the pads are permutations with their
    inverses, and the word-at-a-time walk is the byte-at-a-time transform. *)
From stdpp Require Import base list strings.
From Stdlib Require Import ZArith Lia.
From S2P Require Import Prelude Word GoSort Qpp QppSpec.
Local Open Scope Z_scope.

(** A stand-in for the primitives: sizes and bytes only, with nothing secret. *)
Definition toy_bytes (n : nat) (seed : list Z) : list Z :=
  (fun i => u8 (7 * Z.of_nat i + fold_right Z.add 1 seed)) <$> seq 0 n.

Lemma toy_bytes_ok n seed : length (toy_bytes n seed) = n /\ bytes (toy_bytes n seed).
Proof.
  unfold toy_bytes. split; [by rewrite length_fmap, length_seq|].
  apply Forall_fmap, Forall_forall. intros i _. apply u8_range.
Qed.

#[refine] Definition toy_crypto : Crypto := {|
  hmac_sha256 k m := toy_bytes 32 (k ++ m);
  pbkdf2_sha1 p s n := toy_bytes 32 (n :: p ++ s);
  sha256 m := toy_bytes 32 m;
  aes256_encrypt k b := toy_bytes 16 (k ++ b);
|}.
Proof. all: intros; apply toy_bytes_ok. Defined.

(** Ends of a stream with the same seed. *)
Lemma qpp_new_inv (crypto : Crypto) seed n q : 0 < n -> qpp_new seed n = Ok q ->
  num_pads q = n /\ pads_ok q /\ rand_ok (enc_rand q) /\ dec_rand q = enc_rand q /\
  create_prng seed = Ok (enc_rand q).
Proof.
  intros Hn E. destruct (qpp_new_ok seed n Hn) as (q' & rand & E' & Hnum & Hq & Er & Hr & He & Hd).
  assert (q' = q) as -> by congruence. rewrite He, Hd. by split_and!.
Qed.

(** What was encrypted decrypts, with the generator where the encryption left it. *)
Lemma decrypts q data rand : 0 < num_pads q -> pads_ok q -> rand_ok rand -> bytes data ->
  exists out rand', bytewise enc_byte (pads q) (num_pads q) data rand = Ok (out, rand') /\
    bytewise dec_byte (rpads q) (num_pads q) out rand = Ok (data, rand').
Proof.
  intros Hn (Hl & _ & Hi) Hr Hd.
  destruct (bytewise_inverse (pads q) (rpads q) (num_pads q) Hn Hl Hi data rand Hd) as (out & r & ? & _ & ?). eauto.
Qed.

Lemma zlen_rpads q : pads_ok q -> zlen (rpads q) = num_pads q.
Proof. intros (<- & _ & Hi). unfold zlen. by rewrite (Forall2_length _ _ _ Hi). Qed.

(** C29: two ends made from one seed stay in step: whatever the writer's calls cut
    the data into and the reader's calls cut the ciphertext into, the reader gets the
    data back and both generators end in the same state; nothing panics.  The two
    generators inside one pad set are in step as well. *)
Theorem qpp_stays_in_step (crypto : Crypto) (seed : list Z) (n : Z) (q : QuantumPermutationPad) (rand : Rand)
    (writes : list (list Z)) :
  0 < n -> qpp_new seed n = Ok q -> create_prng seed = Ok rand -> Forall bytes writes ->
  (exists outs rand', stream (encrypt_with_prng q) writes rand = Ok (outs, rand') /\
     forall reads, concat reads = concat outs -> exists plain,
       stream (decrypt_with_prng q) reads rand = Ok (plain, rand') /\ concat plain = concat writes) /\
  (forall data, bytes data -> exists out q1 q2,
     qpp_encrypt q data = Ok (out, q1) /\ qpp_decrypt q1 out = Ok (data, q2) /\ dec_rand q2 = enc_rand q2).
Proof.
  intros Hn Eq Er Hw. destruct (qpp_new_inv crypto seed n q Hn Eq) as (Hnum & Hq & Hr & Hd & Er').
  assert (rand = enc_rand q) as -> by congruence. assert (Hn' : 0 < num_pads q) by (by rewrite Hnum).
  pose proof (zlen_rpads q Hq) as Hrl. pose proof Hq as (Hpl & _). split.
  - destruct (decrypts q (concat writes) (enc_rand q) Hn' Hq Hr) as (out & rand' & Ee & Ed); [by apply Forall_concat|].
    pose proof (stream_bytewise enc_byte _ _ writes _ Hn' Hpl Hr) as Hs. fold (encrypt_with_prng q) in Hs.
    destruct (stream (encrypt_with_prng q) writes _) as [[outs r]|[]|]; [|congruence].
    exists outs, r. split; [done|]. intros reads Hreads.
    pose proof (stream_bytewise dec_byte _ _ reads _ Hn' Hrl Hr) as Hs'. fold (decrypt_with_prng q) in Hs'.
    rewrite Hreads in Hs'. assert (out = concat outs /\ rand' = r) as [-> ->] by (split; congruence).
    destruct (stream (decrypt_with_prng q) reads _) as [[plain r']|[]|]; [|congruence].
    exists plain. split; congruence.
  - intros data Hb. destruct (decrypts q data (enc_rand q) Hn' Hq Hr Hb) as (out & r & Ee & Ed).
    exists out, (q <| enc_rand := r |>), (q <| enc_rand := r |> <| dec_rand := r |>).
    unfold qpp_encrypt, qpp_decrypt, encrypt_with_prng, decrypt_with_prng. rewrite walk_bytewise, Ee by done.
    cbn. rewrite Hd, walk_bytewise by done. rewrite Ed. done.
Qed.

Lemma qpp_stays_in_step_witness : exists q outs rand',
  @qpp_new toy_crypto [1; 2; 3] 1 = Ok q /\
  stream (encrypt_with_prng q) [[1; 2; 3]; []; [4; 5; 6; 7; 8; 9; 10; 11; 12; 13]] (enc_rand q) = Ok (outs, rand').
Proof.
  destruct (@qpp_new_ok toy_crypto [1; 2; 3] 1 ltac:(done)) as (q & r & E & Hn & Hq & Er & _ & He & _).
  destruct (qpp_stays_in_step toy_crypto [1; 2; 3] 1 q (enc_rand q)
    [[1; 2; 3]; []; [4; 5; 6; 7; 8; 9; 10; 11; 12; 13]]) as [(outs & r' & Eo & _) _].
  - done.
  - exact E.
  - rewrite He. exact Er.
  - repeat constructor; unfold is_u8; done.
  - exists q, outs, r'. split; [exact E|exact Eo].
Defined.

(** for a seed of any length and any positive number of pads, [new] gives that
    many pads, each a permutation of the 256 byte values and its reverse, whatever
    the primitives return; zero pads are refused by the assertion.  The seed is read
    for 7 chunks, since [(2^8)!] takes 211 bytes. *)
Theorem qpp_new_pads (crypto : Crypto) (seed : list Z) (n : Z) :
  (n <= 0 -> qpp_new seed n = Panic) /\
  (0 < n -> exists q, qpp_new seed n = Ok q /\ zlen (pads q) = n /\ zlen (rpads q) = n /\
     forall i pad rpad, pads q !! i = Some pad -> rpads q !! i = Some rpad ->
       pad ≡ₚ Z.of_nat <$> seq 0 256 /\
       forall b, 0 <= b < 256 -> exists c, pad !! Z.to_nat b = Some c /\ rpad !! Z.to_nat c = Some b) /\
  seed_to_chunks seed QUBITS = Ok (seed_chunks (expanded_seed seed) 7).
Proof.
  split_and!.
  - intros Hn. unfold qpp_new. by rewrite (proj2 (Z.leb_le _ _)).
  - intros Hn. destruct (qpp_new_ok seed n Hn) as (q & _ & E & <- & Hq & _).
    exists q. split; [done|]. split; [apply Hq|]. split; [by apply zlen_rpads|].
    destruct Hq as (_ & Hp & Hi). intros i pad rpad Epad Erpad. split; [by apply (Forall_lookup_1 _ _ _ _ Hp Epad)|].
    pose proof (Forall2_lookup_lr _ _ _ _ _ _ Hi Epad Erpad) as Hinv. intros b Hb.
    destruct (Hinv b Hb) as (c & ? & _ & ?). eauto.
  - rewrite seed_to_chunks_ok. assert (Hc : Z.to_nat (Z.max ((qpp_minimum_seed_length QUBITS + 31) / 32) 1) = 7%nat) by by vm_compute.
    by rewrite Hc.
Qed.

Lemma qpp_new_pads_witness : exists q, @qpp_new toy_crypto [] 3 = Ok q.
Proof. destruct (proj1 (proj2 (qpp_new_pads toy_crypto [] 3)) ltac:(done)) as (q & E & _). exists q. exact E. Defined.

(** The minimum seed length is the number of bytes that hold the number of
    permutations, [ceil (bits ((2^qubits)!) / 8)], computed without overflow for
    every [qubits] below 64; it is 211 for bytes and 1 from 64 on. *)
Theorem seed_length_is_entropy (qubits : Z) :
  (0 <= qubits < 64 ->
     qpp_minimum_seed_length qubits = (Z.log2 (zfact (Z.to_nat (2 ^ qubits))) + 1 + 7) / 8) /\
  (64 <= qubits -> qpp_minimum_seed_length qubits = 1) /\
  qpp_minimum_seed_length QUBITS = 211 /\ qpp_minimum_pads QUBITS = 7.
Proof.
  split_and!; [apply qpp_minimum_seed_length_ok| |by vm_compute..].
  intros Hq. unfold qpp_minimum_seed_length. by rewrite (proj2 (Z.ltb_ge _ _)).
Qed.

Lemma seed_length_is_entropy_witness : qpp_minimum_seed_length 70 = 1.
Proof. apply (seed_length_is_entropy 70). lia. Defined.

(** C30: the walk by words (the head of a partly used word, the groups of eight, the
    tail) is the transform one byte at a time, whatever the byte operation, and the
    generator written back is the one after as many bytes. *)
Theorem walk_is_bytewise (op : ByteOp) (tables : list (list Z)) (n : Z) (data : list Z) (rand : Rand) :
  0 < n -> zlen tables = n -> 0 <= count rand < PAD_SWITCH ->
  with_prng op tables n data rand = bytewise op tables n data rand /\
  forall a b, data = a ++ b -> with_prng op tables n data rand =
    ('(o1, r1) ← with_prng op tables n a rand; '(o2, r2) ← with_prng op tables n b r1; Ok (o1 ++ o2, r2)).
Proof.
  intros Hn Ht Hr. split; [by apply walk_bytewise|]. intros a b ->.
  rewrite !walk_bytewise, bytewise_app by done.
  destruct (bytewise op tables n a rand) as [[o1 r1]|[]|] eqn:E; cbn [mbind result_bind]; [|done].
  rewrite walk_bytewise; [done..|]. by apply (bytewise_count op tables n _ _ _ _ Hr E).
Qed.

Lemma walk_is_bytewise_witness :
  with_prng enc_byte [identity_pad] 1 [1; 2] (mkRand (mkXoshiro 1 2 3 4) 5 7) =
  bytewise enc_byte [identity_pad] 1 [1; 2] (mkRand (mkXoshiro 1 2 3 4) 5 7).
Proof.
  refine (proj1 (walk_is_bytewise enc_byte [identity_pad] 1 [1; 2] (mkRand (mkXoshiro 1 2 3 4) 5 7) _ _ _)).
  - done.
  - done.
  - by split.
Defined.

(** The reference sequence of the generator's authors, as the test has it. *)
Example xoshiro_reference :
  let step := fun '(outs, s) => let '(v, s) := xoshiro256ss s in (outs ++ [v], s) in
  fst (Nat.iter 5 step ([], mkXoshiro 1 2 3 4)) =
  [11520; 0; 1509978240; 1215971899390074240; 1216172134540287360].
Proof. by vm_compute. Qed.
