(* ===== verification/SmuxFrame.v ===== *)
(** * smux frames and configuration

    [crates/smux]: the errors of [error.rs], the configuration of [mux.rs] with
    its verification, and the frames of [frame.rs] - the 8-byte header, the
    checks on a received header, the window-update payload. *)
From stdpp Require Import base list.
From Stdlib Require Import ZArith Lia.
From S2P Require Import Prelude Word.
Local Open Scope Z_scope.

(** ** [mux.rs] *)

Definition MAX_FRAME_SIZE_LIMIT : Z := 65535.
Definition MAX_BUFFER_LIMIT : Z := 2147483647.

(** Durations are in nanoseconds. *)
Record Config := mkConfig {
  cf_version : Z;
  cf_keep_alive_disabled : bool;
  cf_keep_alive_interval : Z;
  cf_keep_alive_timeout : Z;
  cf_max_frame_size : Z;
  cf_max_receive_buffer : Z;
  cf_max_stream_buffer : Z;
}.

Definition default_config : Config := mkConfig 1 false 10000000000 30000000000 32768 4194304 65536.

Inductive ConfigError :=
| UnsupportedVersion
| KeepAliveInterval
| KeepAliveTimeout
| FrameSizeNotPositive
| FrameSizeTooLarge
| ReceiveBufferNotPositive
| ReceiveBufferTooLarge
| StreamBufferNotPositive
| StreamBufferAboveReceiveBuffer
| StreamBufferTooLarge.

Definition verify_config (c : Config) : result ConfigError () :=
  if negb ((cf_version c =? 1) || (cf_version c =? 2)) then Err UnsupportedVersion
  else if negb (cf_keep_alive_disabled c) && (cf_keep_alive_interval c =? 0) then Err KeepAliveInterval
  else if negb (cf_keep_alive_disabled c) && (cf_keep_alive_timeout c <? cf_keep_alive_interval c) then Err KeepAliveTimeout
  else if cf_max_frame_size c <=? 0 then Err FrameSizeNotPositive
  else if MAX_FRAME_SIZE_LIMIT <? cf_max_frame_size c then Err FrameSizeTooLarge
  else if cf_max_receive_buffer c <=? 0 then Err ReceiveBufferNotPositive
  else if MAX_BUFFER_LIMIT <? cf_max_receive_buffer c then Err ReceiveBufferTooLarge
  else if cf_max_stream_buffer c <=? 0 then Err StreamBufferNotPositive
  else if cf_max_receive_buffer c <? cf_max_stream_buffer c then Err StreamBufferAboveReceiveBuffer
  else if MAX_BUFFER_LIMIT <? cf_max_stream_buffer c then Err StreamBufferTooLarge
  else Ok ().

(** ** [error.rs] *)

(** [Io] carries the connection's error; nothing here looks inside it. *)
Inductive SmuxError :=
| InvalidProtocol
| Consumed
| GoAway
| Timeout
| WouldBlock
| ClosedPipe
| ConfigErr (e : ConfigError)
| Io (code : Z).

(** ** [frame.rs] *)

Definition CMD_SYN : Z := 0.
Definition CMD_FIN : Z := 1.
Definition CMD_PSH : Z := 2.
Definition CMD_NOP : Z := 3.
Definition CMD_UPD : Z := 4.
Definition SZ_CMD_UPD : Z := 8.
Definition INITIAL_PEER_WINDOW : Z := 262144.
Definition HEADER_SIZE : Z := 8.

Record Frame := mkFrame {
  fr_ver : Z;
  fr_cmd : Z;
  fr_sid : Z;
  fr_data : list Z;
}.

(** A header is its 8 bytes. *)
Abbreviation RawHeader := (list Z).

Definition raw_header_new (version cmd length sid : Z) : RawHeader :=
  version :: cmd :: le_bytes 2 length ++ le_bytes 4 sid.

Definition raw_header_from_bytes (b : list Z) : option RawHeader :=
  if HEADER_SIZE <=? zlen b then Some (take 8 b) else None.

Definition hdr_version (h : RawHeader) : Z := h !!! 0%nat.
Definition hdr_cmd (h : RawHeader) : Z := h !!! 1%nat.
Definition hdr_length (h : RawHeader) : Z := le_val (take 2 (drop 2 h)).
Definition hdr_stream_id (h : RawHeader) : Z := le_val (take 4 (drop 4 h)).

Definition frame_header (f : Frame) : RawHeader :=
  raw_header_new (fr_ver f) (fr_cmd f) (u16 (zlen (fr_data f))) (fr_sid f).

Definition encoded_len (f : Frame) : Z := HEADER_SIZE + zlen (fr_data f).

Definition encode_to (f : Frame) (out : list Z) : list Z := out ++ frame_header f ++ fr_data f.

Definition check_protocol (h : RawHeader) (version : Z) : result SmuxError () :=
  if negb (hdr_version h =? version) then Err InvalidProtocol
  else if (hdr_cmd h =? CMD_NOP) || (hdr_cmd h =? CMD_SYN) || (hdr_cmd h =? CMD_FIN) then
    if negb (hdr_length h =? 0) then Err InvalidProtocol else Ok ()
  else if hdr_cmd h =? CMD_PSH then Ok ()
  else if hdr_cmd h =? CMD_UPD then
    if negb (version =? 2) then Err InvalidProtocol
    else if negb (hdr_length h =? SZ_CMD_UPD) then Err InvalidProtocol
    else Ok ()
  else Err InvalidProtocol.

(** The payload of a window update. *)
Definition upd_header_new (consumed window : Z) : list Z := le_bytes 4 consumed ++ le_bytes 4 window.
Definition upd_header_from_bytes (b : list Z) : option (list Z) :=
  if SZ_CMD_UPD <=? zlen b then Some (take 8 b) else None.
Definition upd_consumed (b : list Z) : Z := le_val (take 4 b).
Definition upd_window (b : list Z) : Z := le_val (take 4 (drop 4 b)).

(** ** Round trips *)

Lemma length_raw_header v c l s : length (raw_header_new v c l s) = 8%nat.
Proof. reflexivity. Qed.

Lemma raw_header_fields v c l s rest : is_u16 l -> is_u32 s ->
  let h := raw_header_new v c l s in
  raw_header_from_bytes (h ++ rest) = Some h /\
  hdr_version h = v /\ hdr_cmd h = c /\ hdr_length h = l /\ hdr_stream_id h = s.
Proof.
  intros Hl Hs h. unfold raw_header_from_bytes. rewrite zlen_app. pose proof (zlen_nonneg rest).
  change (zlen h) with 8. rewrite (proj2 (Z.leb_le _ _)) by (unfold HEADER_SIZE; lia).
  split; [by f_equal; rewrite take_app_length'|]. split; [done|]. split; [done|].
  unfold hdr_length, hdr_stream_id, h, raw_header_new. split.
  - change (take 2 (drop 2 (v :: c :: le_bytes 2 l ++ le_bytes 4 s))) with (le_bytes 2 l).
    rewrite le_val_le_bytes. apply Z.mod_small. exact Hl.
  - change (take 4 (drop 4 (v :: c :: le_bytes 2 l ++ le_bytes 4 s))) with (le_bytes 4 s).
    rewrite le_val_le_bytes. apply Z.mod_small. exact Hs.
Qed.

Lemma upd_header_fields c w : is_u32 c -> is_u32 w ->
  upd_consumed (upd_header_new c w) = c /\ upd_window (upd_header_new c w) = w.
Proof.
  intros Hc Hw. unfold upd_consumed, upd_window, upd_header_new. split.
  - change (take 4 (le_bytes 4 c ++ le_bytes 4 w)) with (le_bytes 4 c).
    rewrite le_val_le_bytes. apply Z.mod_small. exact Hc.
  - change (take 4 (drop 4 (le_bytes 4 c ++ le_bytes 4 w))) with (le_bytes 4 w).
    rewrite le_val_le_bytes. apply Z.mod_small. exact Hw.
Qed.

(** The configurations [verify_config] accepts. *)
Definition config_ok (c : Config) : Prop :=
  (cf_version c = 1 \/ cf_version c = 2) /\
  (cf_keep_alive_disabled c = false ->
     cf_keep_alive_interval c <> 0 /\ cf_keep_alive_interval c <= cf_keep_alive_timeout c) /\
  1 <= cf_max_frame_size c <= 65535 /\
  1 <= cf_max_stream_buffer c <= cf_max_receive_buffer c /\ cf_max_receive_buffer c <= 2147483647.

Lemma verify_config_ok c : verify_config c = Ok () <-> config_ok c.
Proof.
  unfold verify_config, config_ok, MAX_FRAME_SIZE_LIMIT, MAX_BUFFER_LIMIT.
  split; intros H.
  - repeat match type of H with (if ?b then _ else _) = _ => destruct b eqn:?; [done|] end. to_prop.
    rewrite ?orb_true_iff, ?andb_false_iff, ?negb_false_iff in *. to_prop.
    destruct (cf_keep_alive_disabled c); cbn in *; to_prop; intuition (lia || congruence || idtac).
    all: to_prop; try lia.
  - repeat match goal with |- (if ?b then _ else _) = _ => destruct b eqn:? end; try done;
    exfalso; to_prop;  rewrite ?andb_true_iff, ?orb_false_iff, ?negb_true_iff, ?negb_false_iff in *;
    destruct (cf_keep_alive_disabled c); cbn in *; to_prop; intuition (lia || congruence).
Qed.
