(* ===== verification/Shaper.v ===== *)
(** * The smux write shaper: [shaper.rs]

    One binary heap of requests per stream id, in a hash map, and a doubly linked
    list of the stream ids over a slab of slots, with a cursor: the queue every frame
    of a session goes through.  A [node] that is not in the list (an [expect] of the
    source) and a counter below zero are [Panic]. *)
From stdpp Require Import base list gmap.
From Stdlib Require Import ZArith Lia.
From S2P Require Import Prelude Word Heap.
Local Open Scope Z_scope.

(** [session.rs:ClassId], with its discriminants. *)
Inductive ClassId := Ctrl | Data.

#[export] Instance class_id_eq : EqDecision ClassId.
Proof. solve_decision. Defined.

Definition class_discriminant (c : ClassId) : Z := match c with Ctrl => 0 | Data => 1 end.

(** [itimediff]. *)
Definition itimediff (later earlier : Z) : Z := i32 (wsub32 later earlier).

Section Shaper.
Context {T : Type}.

Record WriteRequest := mkWriteRequest {
  wr_class : ClassId;
  wr_sid : Z;
  wr_seq : Z;
  wr_body : T;
}.

(** ** [ShaperHeap]

    The sift loops are those of [BinHeap]. *)
Definition wr_less (a b : WriteRequest) : bool :=
  if decide (wr_class a = wr_class b) then 0 <? itimediff (wr_seq b) (wr_seq a)
  else class_discriminant (wr_class a) <? class_discriminant (wr_class b).

Abbreviation ShaperHeap := (list WriteRequest).

Definition shaper_heap_push (h : ShaperHeap) (req : WriteRequest) : ShaperHeap := heap_push wr_less h req.
Definition shaper_heap_pop (h : ShaperHeap) : option (WriteRequest * ShaperHeap) := heap_pop wr_less h.
Definition shaper_heap_is_empty (h : ShaperHeap) : bool := match h with [] => true | _ => false end.

(** ** [RrList] *)

Record RrNode := mkRrNode {
  rn_sid : Z;
  rn_prev : option nat;
  rn_next : option nat;
}.

Record RrList := mkRrList {
  rr_slots : list (option RrNode);
  rr_free : list nat;             (** the free slots, the last one used first *)
  rr_front : option nat;
  rr_back : option nat;
  rr_len : nat;
}.

#[export] Instance rr_node_eta : EtaRecord RrNode := fun n => mkRrNode (rn_sid n) (rn_prev n) (rn_next n).
#[export] Instance rr_list_eta : EtaRecord RrList :=
  fun l => mkRrList (rr_slots l) (rr_free l) (rr_front l) (rr_back l) (rr_len l).

Definition rr_new : RrList := mkRrList [] [] None None 0.

Definition rr_node (l : RrList) (id : nat) : io RrNode :=
  slot ← unwrap (rr_slots l !! id); unwrap slot.

(** [*self.node_mut(id) = f(node)]. *)
Definition rr_node_mut (l : RrList) (id : nat) (f : RrNode -> RrNode) : io RrList :=
  node ← rr_node l id;
  Ok (l <| rr_slots := <[id := Some (f node)]> (rr_slots l) |>).

Definition rr_sid (l : RrList) (id : nat) : io Z := node ← rr_node l id; Ok (rn_sid node).
Definition rr_next (l : RrList) (id : nat) : io (option nat) := node ← rr_node l id; Ok (rn_next node).

(** [Vec::pop] of the free list. *)
Definition free_pop (free : list nat) : option (nat * list nat) :=
  slot ← last free; Some (slot, take (length free - 1) free).

Definition rr_push_back (l : RrList) (sid : Z) : io (nat * RrList) :=
  let node := mkRrNode sid (rr_back l) None in
  '(id, l) ← (match free_pop (rr_free l) with
    | Some (slot, free) =>
        if (slot <? length (rr_slots l))%nat then
          Ok (slot, l <| rr_free := free |> <| rr_slots := <[slot := Some node]> (rr_slots l) |>)
        else Panic
    | None => Ok (length (rr_slots l), l <| rr_slots := rr_slots l ++ [Some node] |>)
    end : io (nat * RrList));
  l ← (match rr_back l with
    | Some back => rr_node_mut l back (fun n => n <| rn_next := Some id |>)
    | None => Ok (l <| rr_front := Some id |>)
    end : io RrList);
  Ok (id, l <| rr_back := Some id |> <| rr_len := S (rr_len l) |>).

Definition rr_remove (l : RrList) (id : nat) : io RrList :=
  node ← rr_node l id;
  let prev := rn_prev node in
  let next := rn_next node in
  l ← (match prev with
    | Some p => rr_node_mut l p (fun n => n <| rn_next := next |>)
    | None => Ok (l <| rr_front := next |>)
    end : io RrList);
  l ← (match next with
    | Some n => rr_node_mut l n (fun n => n <| rn_prev := prev |>)
    | None => Ok (l <| rr_back := prev |>)
    end : io RrList);
  len ← usize_sub (rr_len l) 1;
  Ok (l <| rr_slots := <[id := None]> (rr_slots l) |> <| rr_free := rr_free l ++ [id] |> <| rr_len := len |>).

(** ** [ShaperQueue] *)

Record ShaperQueue := mkShaperQueue {
  sq_count : nat;
  sq_streams : gmap Z ShaperHeap;
  sq_rr_list : RrList;
  sq_next : option nat;
}.

#[export] Instance shaper_queue_eta : EtaRecord ShaperQueue :=
  fun q => mkShaperQueue (sq_count q) (sq_streams q) (sq_rr_list q) (sq_next q).

Definition shaper_new : ShaperQueue := mkShaperQueue 0 ∅ rr_new None.

Definition shaper_push (q : ShaperQueue) (req : WriteRequest) : io ShaperQueue :=
  let sid := wr_sid req in
  '(q, heap) ← (match sq_streams q !! sid with
    | Some heap => Ok (q, heap)
    | None =>
        '(elem, rr) ← rr_push_back (sq_rr_list q) sid;
        let next := match sq_next q with None => Some elem | next => next end in
        Ok (q <| sq_rr_list := rr |> <| sq_next := next |>, [])
    end : io (ShaperQueue * ShaperHeap));
  Ok (q <| sq_streams := <[sid := shaper_heap_push heap req]> (sq_streams q) |>
        <| sq_count := S (sq_count q) |>).

(** [self.rr_list.next(current).or_else(|| self.rr_list.front())]. *)
Definition next_or_front (l : RrList) (current : nat) : io (option nat) :=
  next ← rr_next l current;
  Ok (match next with None => rr_front l | next => next end).

(** What happens when the heap of [sid] gave [req] and became [heap]. *)
Definition shaper_served (q : ShaperQueue) (current : nat) (sid : Z) (req : WriteRequest) (heap : ShaperHeap)
  : io (option WriteRequest * ShaperQueue) :=
  count ← usize_sub (sq_count q) 1;
  next ← next_or_front (sq_rr_list q) current;
  let q := q <| sq_streams := <[sid := heap]> (sq_streams q) |> <| sq_count := count |> <| sq_next := next |> in
  if shaper_heap_is_empty heap then
    rr ← rr_remove (sq_rr_list q) current;
    let q := q <| sq_streams := delete sid (sq_streams q) |> <| sq_rr_list := rr |> in
    let q := if (rr_len rr =? 0)%nat then q <| sq_next := None |> else q in
    Ok (Some req, q)
  else Ok (Some req, q).

(** The scan; [fuel] bounds the elements it visits. *)
Fixpoint shaper_scan (fuel : nat) (q : ShaperQueue) (start current : nat)
  : io (option WriteRequest * ShaperQueue) :=
  match fuel with
  | O => Panic
  | S fuel =>
      sid ← rr_sid (sq_rr_list q) current;
      match sq_streams q !! sid ≫= shaper_heap_pop with
      | Some (req, heap) => shaper_served q current sid req heap
      | None =>
          current ← next_or_front (sq_rr_list q) current;
          match current with
          | None => Ok (None, q)
          | Some id => if (id =? start)%nat then Ok (None, q) else shaper_scan fuel q start id
          end
      end
  end.

(** A round of the list visits each of its elements once. *)
Definition shaper_pop (q : ShaperQueue) : io (option WriteRequest * ShaperQueue) :=
  match sq_next q with
  | None => Ok (None, q)
  | Some start =>
      if (sq_count q =? 0)%nat then Ok (None, q)
      else shaper_scan (S (rr_len (sq_rr_list q))) q start start
  end.

Definition shaper_is_empty (q : ShaperQueue) : bool := (sq_count q =? 0)%nat.
Definition shaper_len (q : ShaperQueue) : nat := sq_count q.
Definition shaper_num_streams (q : ShaperQueue) : nat := size (sq_streams q).
End Shaper.

Arguments WriteRequest : clear implicits.
Arguments ShaperQueue : clear implicits.
