(* ===== verification/ShaperSpec.v ===== *)
(** * The shaper: its round-robin list over the slab, and the scheduler

    [rr_rep l ns ids]: the slab [l] holds the doubly linked list of the stream ids
    [ids] in the slots [ns].  [push_back] and [remove] keep it so, and never meet a
    slot that is not in the list.

    What [ShaperQueue] promises: per stream a heap of requests, and rounds over
    the streams - those still to be served in this round ([sc_ahead]) and those
    served already ([sc_served]).  The map, the slab list and its cursor implement
    it ([push_refines], [pop_refines]). *)
From stdpp Require Import base list gmap sets.
From Stdlib Require Import ZArith Lia.
From S2P Require Import Prelude Word Heap Shaper.
Local Open Scope nat_scope.

(** ** The round-robin list *)


(** The element before position [i]. *)
Definition before (ns : list nat) (i : nat) : option nat := match i with O => None | S j => ns !! j end.

Record rr_rep (l : RrList) (ns : list nat) (ids : list Z) : Prop := {
  rep_length : length ns = length ids;
  rep_nodup : NoDup ns;
  rep_front : rr_front l = ns !! 0;
  rep_back : rr_back l = before ns (length ns);
  rep_len : rr_len l = length ns;
  rep_node : forall i n sid, ns !! i = Some n -> ids !! i = Some sid ->
    rr_slots l !! n = Some (Some (mkRrNode sid (before ns i) (ns !! S i)));
  rep_free_nodup : NoDup (rr_free l);
  rep_free : forall f, f ∈ rr_free l -> rr_slots l !! f = Some None;
  rep_slab : length (rr_slots l) = length ns + length (rr_free l);
}.

Lemma rr_new_rep : rr_rep rr_new [] [].
Proof. split; cbn; try done || constructor. intros f Hf. by apply not_elem_of_nil in Hf. Qed.

Section Rep.
Context (l : RrList) (ns : list nat) (ids : list Z) (Hrep : rr_rep l ns ids).

Lemma rep_lookup i n : ns !! i = Some n -> exists sid,
  ids !! i = Some sid /\ rr_slots l !! n = Some (Some (mkRrNode sid (before ns i) (ns !! S i))).
Proof using All.
  intros Hn. destruct (lookup_lt_is_Some_2 ids i) as [sid Hs].
  { rewrite <- (rep_length _ _ _ Hrep). by eapply lookup_lt_Some. }
  exists sid. split; [done|]. by apply (rep_node _ _ _ Hrep).
Qed.

Lemma rep_node_ok i n sid : ns !! i = Some n -> ids !! i = Some sid ->
  rr_node l n = Ok (mkRrNode sid (before ns i) (ns !! S i)).
Proof using All. intros Hn Hs. unfold rr_node. by rewrite (rep_node _ _ _ Hrep _ _ _ Hn Hs). Qed.

Lemma rep_sid i n sid : ns !! i = Some n -> ids !! i = Some sid -> rr_sid l n = Ok sid.
Proof using All. intros Hn Hs. unfold rr_sid. by rewrite (rep_node_ok _ _ _ Hn Hs). Qed.

Lemma rep_next i n : ns !! i = Some n -> rr_next l n = Ok (ns !! S i).
Proof using All.
  intros Hn. destruct (rep_lookup i n Hn) as (sid & Hs & _). unfold rr_next.
  by rewrite (rep_node_ok _ _ _ Hn Hs).
Qed.

(** The slot of a position determines it. *)
Lemma rep_position i j n : ns !! i = Some n -> ns !! j = Some n -> i = j.
Proof using All. apply NoDup_lookup, (rep_nodup _ _ _ Hrep). Qed.

Lemma rr_node_mut_ok id node f : rr_slots l !! id = Some (Some node) ->
  rr_node_mut l id f = Ok (l <| rr_slots := <[id := Some (f node)]> (rr_slots l) |>).
Proof using. intros H. unfold rr_node_mut, rr_node. by rewrite H. Qed.
End Rep.

(** ** Appending *)

Lemma free_pop_spec free : match free_pop free with
  | None => free = []
  | Some (slot, free') => free = free' ++ [slot]
  end.
Proof.
  unfold free_pop. destruct (last free) as [slot|] eqn:E; cbn; [|by apply last_None].
  apply last_Some in E as (l & ->). rewrite length_app. cbn [length].
  replace (length l + 1 - 1) with (length l) by lia. by rewrite take_app_length.
Qed.

(** A slot that [push_back] takes: free or new. *)
Lemma alloc_fresh l ns ids id : rr_rep l ns ids -> id ∈ rr_free l \/ id = length (rr_slots l) -> id ∉ ns.
Proof.
  intros Hrep Hid Hin. apply list_elem_of_lookup in Hin as [i Hi].
  destruct (rep_lookup _ _ _ Hrep _ _ Hi) as (sid & _ & Hs). destruct Hid as [Hf| ->].
  - apply (rep_free _ _ _ Hrep) in Hf. congruence.
  - apply lookup_lt_Some in Hs. lia.
Qed.

(** Linking a fresh slot at the back. *)
Lemma link_back l ns ids id sid slots free :
  rr_rep l ns ids -> id ∉ ns ->
  slots !! id = Some (Some (mkRrNode sid (rr_back l) None)) ->
  (forall n, n <> id -> n ∈ ns \/ n ∈ free -> slots !! n = rr_slots l !! n) ->
  NoDup free -> id ∉ free -> (forall f, f ∈ free -> f ∈ rr_free l) ->
  length slots = S (length ns + length free) ->
  exists l', 
    (l1 ← (match rr_back l with
      | Some back => rr_node_mut (mkRrList slots free (rr_front l) (rr_back l) (rr_len l)) back (fun n => n <| rn_next := Some id |>)
      | None => Ok (mkRrList slots free (Some id) (rr_back l) (rr_len l))
      end : io RrList);
     Ok (id, l1 <| rr_back := Some id |> <| rr_len := S (rr_len l1) |>)) = Ok (id, l') /\
    rr_rep l' (ns ++ [id]) (ids ++ [sid]).
Proof.
  intros Hrep Hid Hnode Hsame Hfree Hidf Hsub Hlen. pose proof (rep_length _ _ _ Hrep) as Hl.
  rewrite (rep_back _ _ _ Hrep) in Hnode |- *. destruct (length ns) as [|m] eqn:Em.
  - apply nil_length_inv in Em as ->. destruct ids; [|done]. cbn. eexists. split; [done|].
    assert (Hdom : forall f, f ∈ free -> slots !! f = Some None).
    { intros f Hf. rewrite Hsame; [by apply (rep_free _ _ _ Hrep), Hsub|set_solver|auto]. }
    split; cbn; try done.
    + apply NoDup_singleton.
    + by rewrite (rep_len _ _ _ Hrep).
    + intros [|i] n s; cbn; [|by destruct i]. by intros [= <-] [= <-].
  - destruct (lookup_lt_is_Some_2 ns m ltac:(lia)) as [back Hb]. cbn [before] in *. rewrite Hb in *.
    destruct (rep_lookup _ _ _ Hrep _ _ Hb) as (sb & Hsb & Hslot).
    assert (Hbn : back <> id) by (intros ->; apply Hid; by eapply list_elem_of_lookup_2).
    assert (Hslot' : slots !! back = Some (Some (mkRrNode sb (before ns m) (ns !! S m)))).
    { rewrite Hsame; [done|done|left; by eapply list_elem_of_lookup_2]. }
    rewrite (rr_node_mut_ok (mkRrList slots free (rr_front l) (Some back) (rr_len l)) _ _ _ Hslot'). cbn. eexists. split; [done|].
    assert (Hend : ns !! S m = None) by (apply lookup_ge_None_2; lia). 
    split; cbn.
    + rewrite !length_app. cbn. lia.
    + apply NoDup_app. split_and!; [apply (rep_nodup _ _ _ Hrep)| |apply NoDup_singleton]. set_solver.
    + rewrite lookup_app_l by lia. apply (rep_front _ _ _ Hrep).
    + rewrite length_app, Nat.add_1_r. cbn. rewrite lookup_app_r, Em, Nat.sub_diag by lia. done.
    + rewrite (rep_len _ _ _ Hrep), length_app. cbn. lia.
    + intros i n s Hn Hs. destruct (decide (i = length ns)) as [->|Hi].
      * rewrite list_lookup_middle in Hn by done. injection Hn as <-.
        rewrite Em, Hl, list_lookup_middle in Hs by done. injection Hs as <-.
        rewrite list_lookup_insert_ne by done. rewrite Hnode, Em. cbn [before].
        rewrite lookup_app_l, Hb by lia. do 4 f_equal. symmetry. apply lookup_ge_None_2. rewrite length_app. cbn. lia.
      * assert (Hlt : i < length ns). { apply lookup_lt_Some in Hn. rewrite length_app in Hn. cbn in Hn. lia. }
        rewrite lookup_app_l in Hn by lia. rewrite lookup_app_l in Hs by lia.
        assert (Eb : before (ns ++ [id]) i = before ns i) by (destruct i; cbn; [done|apply lookup_app_l; lia]).
        rewrite Eb. destruct (decide (i = m)) as [->|Him].
        -- assert (n = back) as -> by congruence. rewrite list_lookup_insert_eq by (by eapply lookup_lt_Some).
           assert (s = sb) as -> by congruence. do 2 f_equal.
           rewrite <- Em, (list_lookup_middle ns [] id) by done. reflexivity.
        -- rewrite list_lookup_insert_ne by (intros ->; apply Him; by eapply rep_position).
           rewrite Hsame; [|intros ->; apply Hid; by eapply list_elem_of_lookup_2|left; by eapply list_elem_of_lookup_2].
           rewrite (rep_node _ _ _ Hrep _ _ _ Hn Hs). do 3 f_equal. symmetry. apply lookup_app_l. lia.
    + done.
    + intros f Hf. rewrite list_lookup_insert_ne.
      * rewrite Hsame; [by apply (rep_free _ _ _ Hrep), Hsub|set_solver|auto].
      * intros <-. apply Hsub, (rep_free _ _ _ Hrep) in Hf. congruence.
    + rewrite length_insert, length_app. cbn. lia.
Qed.

Lemma push_back_ok l ns ids sid : rr_rep l ns ids ->
  exists id l', rr_push_back l sid = Ok (id, l') /\ (id ∉ ns) /\ rr_rep l' (ns ++ [id]) (ids ++ [sid]).
Proof.
  intros Hrep. unfold rr_push_back. pose proof (free_pop_spec (rr_free l)) as Hf.
  destruct (free_pop (rr_free l)) as [[slot free]|].
  - assert (Hin : slot ∈ rr_free l) by (rewrite Hf; set_solver).
    pose proof (rep_free _ _ _ Hrep slot Hin) as Hslot. pose proof (lookup_lt_Some _ _ _ Hslot).
    rewrite (proj2 (Nat.ltb_lt _ _)) by done. cbn [mbind result_bind].
    pose proof (alloc_fresh l ns ids slot Hrep (or_introl Hin)) as Hnew.
    pose proof (rep_free_nodup _ _ _ Hrep) as Hnd. rewrite Hf in Hnd. apply NoDup_app in Hnd as (Hnd & Hdis & _).
    destruct (link_back l ns ids slot sid (<[slot := Some (mkRrNode sid (rr_back l) None)]> (rr_slots l)) free)
      as (l' & E & Hl'); try done.
    + by apply list_lookup_insert_eq.
    + intros n Hn _. by apply list_lookup_insert_ne.
    + intros Hs. apply (Hdis slot Hs). set_solver.
    + intros f Hin'. rewrite Hf. set_solver.
    + rewrite length_insert, (rep_slab _ _ _ Hrep), Hf, length_app. cbn. lia.
    + exists slot, l'. split; [exact E|done].
  - cbn [mbind result_bind].
    pose proof (alloc_fresh l ns ids _ Hrep (or_intror eq_refl)) as Hnew.
    destruct (link_back l ns ids (length (rr_slots l)) sid (rr_slots l ++ [Some (mkRrNode sid (rr_back l) None)]) (rr_free l))
      as (l' & E & Hl'); try done.
    + by rewrite list_lookup_middle.
    + intros n Hn [Hin|Hin].
      * apply list_elem_of_lookup in Hin as [i Hi]. destruct (rep_lookup _ _ _ Hrep _ _ Hi) as (? & _ & Hs).
        apply lookup_app_l. by eapply lookup_lt_Some.
      * apply (rep_free _ _ _ Hrep) in Hin. apply lookup_app_l. by eapply lookup_lt_Some.
    + apply (rep_free_nodup _ _ _ Hrep).
    + rewrite Hf. apply not_elem_of_nil.
    + rewrite length_app, (rep_slab _ _ _ Hrep). cbn. lia.
    + exists (length (rr_slots l)), l'. split; [exact E|done].
Qed.

(** ** Removing *)

(** The slots after the neighbours of position [i] are linked to each other. *)
Lemma unlink_slots l ns ids i n : rr_rep l ns ids -> ns !! i = Some n ->
  exists l', 
    (l1 ← (match before ns i with
      | Some p => rr_node_mut l p (fun m => m <| rn_next := ns !! S i |>)
      | None => Ok (l <| rr_front := ns !! S i |>)
      end : io RrList);
     (match ns !! S i with
      | Some q => rr_node_mut l1 q (fun m => m <| rn_prev := before ns i |>)
      | None => Ok (l1 <| rr_back := before ns i |>)
      end : io RrList)) = Ok l' /\
    rr_front l' = (if decide (i = 0) then ns !! 1 else rr_front l) /\
    rr_back l' = (if decide (S i = length ns) then before ns i else rr_back l) /\
    rr_len l' = rr_len l /\ rr_free l' = rr_free l /\ length (rr_slots l') = length (rr_slots l) /\
    (forall m, m ∉ ns -> rr_slots l' !! m = rr_slots l !! m) /\
    (forall k m sid, k <> i -> ns !! k = Some m -> ids !! k = Some sid ->
       rr_slots l' !! m = Some (Some (mkRrNode sid
         (if decide (k = S i) then before ns i else before ns k)
         (if decide (S k = i) then ns !! S i else ns !! S k)))).
Proof.
  intros Hrep Hi. set (slots := rr_slots l).
  assert (Hpos : forall j k m, ns !! j = Some m -> ns !! k = Some m -> j = k) by (intros; by eapply rep_position).
  (* the first link *)
  set (stage1 := match before ns i with Some p => _ | None => _ end).
  assert (H1 : exists l1, stage1 = Ok l1 /\ rr_front l1 = (if decide (i = 0) then ns !! 1 else rr_front l) /\
    rr_back l1 = rr_back l /\ rr_len l1 = rr_len l /\ rr_free l1 = rr_free l /\ length (rr_slots l1) = length slots /\
    (forall m, m ∉ ns -> rr_slots l1 !! m = slots !! m) /\
    (forall k m sid, ns !! k = Some m -> ids !! k = Some sid ->
       rr_slots l1 !! m = Some (Some (mkRrNode sid (before ns k) (if decide (S k = i) then ns !! S i else ns !! S k))))).
  { subst stage1. destruct i as [|j]; cbn [before].
    - exists (l <| rr_front := ns !! 1 |>). split_and!; try done. intros k m sid Hk Hs. rewrite decide_False by lia.
      by apply (rep_node _ _ _ Hrep).
    - destruct (lookup_lt_is_Some_2 ns j) as [p Hp]; [apply lookup_lt_Some in Hi; lia|]. rewrite Hp.
      destruct (rep_lookup _ _ _ Hrep _ _ Hp) as (sp & Hsp & Hslot).
      rewrite (rr_node_mut_ok l _ _ _ Hslot). eexists. split; [reflexivity|]. rewrite decide_False by lia.
      cbn. rewrite length_insert. split_and!; try done.
      + intros m Hm. apply list_lookup_insert_ne. intros ->. apply Hm. by eapply list_elem_of_lookup_2.
      + intros k m sid Hk Hs. destruct (decide (S k = S j)) as [E|E].
        * injection E as ->. assert (m = p) as -> by congruence. rewrite list_lookup_insert_eq by (by eapply lookup_lt_Some).
          assert (sid = sp) as -> by congruence. reflexivity.
        * rewrite list_lookup_insert_ne by (intros ->; apply E; f_equal; by eapply Hpos).
          by apply (rep_node _ _ _ Hrep). }
  destruct H1 as (l1 & -> & Hfront & Hback & Hlen & Hfree & Hslab & Hout & Hin). cbn [mbind result_bind].
  destruct (ns !! S i) as [q|] eqn:Eq.
  - destruct (rep_lookup _ _ _ Hrep _ _ Eq) as (s & Hs & _). pose proof (Hin _ _ _ Eq Hs) as Hq.
    rewrite (rr_node_mut_ok l1 _ _ _ Hq). eexists. split; [reflexivity|]. cbn.
    rewrite (decide_False (P := S i = length ns)) by (apply lookup_lt_Some in Eq; lia).
    rewrite length_insert. split_and!; try done.
    + intros m Hm. rewrite list_lookup_insert_ne by (intros ->; apply Hm; by eapply list_elem_of_lookup_2). by apply Hout.
    + intros k m sid Hk Hm Hsid. destruct (decide (k = S i)) as [->|E].
      * assert (m = q) as -> by congruence. rewrite list_lookup_insert_eq by (by eapply lookup_lt_Some).
        assert (sid = s) as -> by congruence. reflexivity.
      * rewrite list_lookup_insert_ne by (intros ->; apply E; by eapply Hpos).
        by apply Hin.
  - exists (l1 <| rr_back := before ns i |>). split; [done|]. cbn.
    assert (S i = length ns) by (apply lookup_lt_Some in Hi; apply lookup_ge_None in Eq; lia).
    rewrite (decide_True (P := S i = length ns)) by done. split_and!; try done.
    intros k m sid Hk Hm Hsid. rewrite (decide_False (P := k = S i)) by (apply lookup_lt_Some in Hm; lia). by apply Hin.
Qed.

Lemma remove_ok l ns ids i n : rr_rep l ns ids -> ns !! i = Some n ->
  exists l', rr_remove l n = Ok l' /\ rr_rep l' (delete i ns) (delete i ids).
Proof.
  intros Hrep Hi. destruct (rep_lookup _ _ _ Hrep _ _ Hi) as (sid & Hsid & Hslot).
  pose proof (lookup_lt_Some _ _ _ Hi) as Hlt. pose proof (rep_length _ _ _ Hrep) as Hl.
  unfold rr_remove. rewrite (rep_node_ok _ _ _ Hrep _ _ _ Hi Hsid). cbn [mbind result_bind rn_prev rn_next].
  destruct (unlink_slots l ns ids i n Hrep Hi) as (l' & E & Hfront & Hback & Hlen & Hfree & Hslab & Hout & Hin).
  destruct (match before ns i with Some p => _ | None => _ end) as [l1|[]|]; cbn [mbind result_bind] in *; [|done].
  rewrite E. cbn [mbind result_bind]. unfold usize_sub. rewrite Hlen, (rep_len _ _ _ Hrep).
  rewrite (proj2 (Nat.leb_le _ _)) by lia. cbn. eexists. split; [done|].
  assert (Hnin : n ∉ delete i ns).
  { intros [j Hj]%list_elem_of_lookup. destruct (decide (j < i)).
    - rewrite list_lookup_delete_lt in Hj by done. pose proof (rep_position _ _ _ Hrep _ _ _ Hi Hj). lia.
    - rewrite list_lookup_delete_ge in Hj by lia. pose proof (rep_position _ _ _ Hrep _ _ _ Hi Hj). lia. }
  assert (Hnfree : n ∉ rr_free l).
  { intros Hf%(rep_free _ _ _ Hrep). congruence. }
  assert (Hdl : length (delete i ns) = length ns - 1) by (rewrite length_delete by eauto; lia).
  split; cbn.
  - rewrite !length_delete; [lia|by rewrite Hsid|by rewrite Hi].
  - eapply sublist_NoDup; [apply (rep_nodup _ _ _ Hrep)|apply sublist_delete].
  - rewrite Hfront. destruct (decide (i = 0)) as [->|].
    + by rewrite list_lookup_delete_ge by lia.
    + rewrite list_lookup_delete_lt by lia. apply (rep_front _ _ _ Hrep).
  - rewrite Hback, Hdl, (rep_back _ _ _ Hrep). destruct (decide (S i = length ns)) as [E1|E1].
    + replace (length ns - 1) with i by lia. destruct i as [|j]; cbn; [done|]. by rewrite list_lookup_delete_lt by lia.
    + destruct (length ns) as [|[|k]] eqn:Ek; cbn; [lia|lia|].
      by rewrite list_lookup_delete_ge by lia.
  - by rewrite Hdl.
  - intros j m s Hj Hs.
    assert (Hne : m <> n) by (intros ->; apply Hnin; by eapply list_elem_of_lookup_2).
    rewrite list_lookup_insert_ne by done. destruct (decide (j < i)) as [Hji|Hji].
    + rewrite list_lookup_delete_lt in Hj by done. rewrite list_lookup_delete_lt in Hs by done.
      rewrite (Hin j m s) by (lia || done). rewrite (decide_False (P := j = S i)) by lia.
      replace (before (delete i ns) j) with (before ns j)
        by (destruct j; cbn; [done|by rewrite list_lookup_delete_lt by lia]).
      destruct (decide (S j = i)) as [<-|].
      * by rewrite list_lookup_delete_ge by lia.
      * by rewrite list_lookup_delete_lt by lia.
    + rewrite list_lookup_delete_ge in Hj by lia. rewrite list_lookup_delete_ge in Hs by lia.
      rewrite (Hin (S j) m s) by (lia || done). rewrite (decide_False (P := S (S j) = i)) by lia.
      rewrite list_lookup_delete_ge by lia. destruct (decide (S j = S i)) as [Ej|Ej].
      * injection Ej as ->. destruct i as [|i']; cbn; [done|]. by rewrite list_lookup_delete_lt by lia.
      * destruct j as [|j']; [lia|]. cbn. by rewrite list_lookup_delete_ge by lia.
  - rewrite Hfree. apply NoDup_app. split_and!; [apply (rep_free_nodup _ _ _ Hrep)|set_solver|apply NoDup_singleton].
  - rewrite Hfree. intros f [Hf|Hf%list_elem_of_singleton]%elem_of_app.
    + rewrite list_lookup_insert_ne by (by intros ->). pose proof (rep_free _ _ _ Hrep f Hf) as Hff.
      rewrite Hout; [done|]. intros [j Hj]%list_elem_of_lookup.
      destruct (rep_lookup _ _ _ Hrep _ _ Hj) as (? & _ & ?). congruence.
    + subst f. apply list_lookup_insert_eq. rewrite Hslab. by eapply lookup_lt_Some.
  - rewrite length_insert, Hslab, (rep_slab _ _ _ Hrep), Hdl, Hfree, length_app. cbn. lia.
Qed.


Section Spec.
Context {T : Type}.
Abbreviation WR := (WriteRequest T).
Implicit Types (q : ShaperQueue T) (req : WR) (h : list WR).

(** ** The scheduler *)

Record Sched := mkSched {
  sc_ahead : list Z;
  sc_served : list Z;
  sc_streams : gmap Z (list WR);
}.

Definition sched_empty : Sched := mkSched [] [] ∅.

(** A new stream joins the end of the round. *)
Definition sched_push (s : Sched) req : Sched :=
  let sid := wr_sid req in
  match sc_streams s !! sid with
  | Some h => mkSched (sc_ahead s) (sc_served s) (<[sid := shaper_heap_push h req]> (sc_streams s))
  | None => mkSched (sc_ahead s ++ [sid]) (sc_served s) (<[sid := shaper_heap_push [] req]> (sc_streams s))
  end.

(** The next stream of the round gives its first request; it is served again in
    the next round unless it has no more. *)
Definition sched_pop (s : Sched) : option (WR * Sched) :=
  match sc_ahead s with
  | [] => None
  | sid :: ahead =>
      '(req, h) ← sc_streams s !! sid ≫= shaper_heap_pop;
      let served := match h with [] => sc_served s | _ => sc_served s ++ [sid] end in
      let streams := match h with [] => delete sid (sc_streams s) | _ => <[sid := h]> (sc_streams s) end in
      Some (req, match ahead with [] => mkSched served [] streams | _ => mkSched ahead served streams end)
  end.

(** ** Requests that are queued *)

Definition pending_of (m : gmap Z (list WR)) : list WR := concat (map_to_list m).*2.

Lemma pending_insert_new m sid h : m !! sid = None -> pending_of (<[sid := h]> m) ≡ₚ h ++ pending_of m.
Proof. intros Hn. unfold pending_of. by rewrite map_to_list_insert. Qed.

Lemma pending_delete m sid h : m !! sid = Some h -> pending_of m ≡ₚ h ++ pending_of (delete sid m).
Proof. intros Hs. unfold pending_of. by rewrite <- (map_to_list_delete m sid h Hs). Qed.

Lemma pending_insert m sid h h' : m !! sid = Some h ->
  pending_of (<[sid := h']> m) ≡ₚ h' ++ pending_of (delete sid m).
Proof.
  intros Hs. rewrite <- insert_delete_eq. apply pending_insert_new. apply lookup_delete_eq.
Qed.

Lemma elem_of_pending m req : req ∈ pending_of m <-> exists sid h, m !! sid = Some h /\ req ∈ h.
Proof.
  unfold pending_of. rewrite list_elem_of_In, in_concat. split.
  - intros (h & Hh & Hr). apply list_elem_of_In, list_elem_of_fmap in Hh as ([sid h'] & -> & Hm%elem_of_map_to_list).
    exists sid, h'. split; [done|by apply list_elem_of_In].
  - intros (sid & h & Hm & Hr). exists h. rewrite <- !list_elem_of_In. split; [|done].
    apply list_elem_of_fmap. exists (sid, h). by rewrite elem_of_map_to_list.
Qed.

(** ** Well-formed schedulers *)

Record sched_ok (s : Sched) : Prop := {
  ok_nodup : NoDup (sc_served s ++ sc_ahead s);
  ok_dom : forall sid, is_Some (sc_streams s !! sid) <-> sid ∈ sc_served s ++ sc_ahead s;
  ok_heaps : forall sid h, sc_streams s !! sid = Some h -> h <> [] /\ Forall (fun req => wr_sid req = sid) h;
  ok_ahead : sc_ahead s = [] -> sc_served s = [];
}.

Lemma sched_empty_ok : sched_ok sched_empty.
Proof.
  split; cbn; [constructor| |done|done]. intros sid. rewrite lookup_empty. split; [by intros [??]|].
  by intros H%not_elem_of_nil.
Qed.

Lemma heap_push_Forall (P : WR -> Prop) h req : Forall P h -> P req -> Forall P (shaper_heap_push h req).
Proof. intros Hh Hr. unfold shaper_heap_push. rewrite heap_push_perm. by constructor. Qed.

Lemma heap_push_nonempty h req : shaper_heap_push h req <> [].
Proof.
  intros E. pose proof (heap_push_perm wr_less h req) as Hp. unfold shaper_heap_push in E. rewrite E in Hp.
  by apply Permutation_nil_cons in Hp.
Qed.

Lemma heap_pop_cases h : h <> [] -> exists req h', shaper_heap_pop h = Some (req, h') /\ req :: h' ≡ₚ h.
Proof.
  intros Hh. unfold shaper_heap_pop. pose proof (heap_pop_spec wr_less h) as Hs. destruct h as [|x h]; [done|].
  destruct Hs as (h' & E & Hp). eauto.
Qed.

Lemma sched_push_ok s req : sched_ok s -> sched_ok (sched_push s req).
Proof.
  intros Hs. unfold sched_push. destruct (sc_streams s !! wr_sid req) as [h|] eqn:E.
  - split; cbn; [apply (ok_nodup _ Hs)| | |apply (ok_ahead _ Hs)].
    + intros sid. rewrite <- (ok_dom _ Hs). destruct (decide (sid = wr_sid req)) as [->|].
      * rewrite lookup_insert_eq, E. split; by eexists.
      * by rewrite lookup_insert_ne by done.
    + intros sid h'. destruct (decide (sid = wr_sid req)) as [->|].
      * rewrite lookup_insert_eq. intros [= <-]. split; [apply heap_push_nonempty|].
        apply heap_push_Forall; [by apply (ok_heaps _ Hs)|done].
      * rewrite lookup_insert_ne by done. apply (ok_heaps _ Hs).
  - assert (Hnew : wr_sid req ∉ sc_served s ++ sc_ahead s).
    { intros Hin%(ok_dom _ Hs). rewrite E in Hin. by destruct Hin. }
    split; cbn.
    + rewrite app_assoc. apply NoDup_app. split_and!; [apply (ok_nodup _ Hs)|set_solver|apply NoDup_singleton].
    + intros sid. rewrite app_assoc. destruct (decide (sid = wr_sid req)) as [->|].
      * rewrite lookup_insert_eq. split; [set_solver|by eexists].
      * rewrite lookup_insert_ne by done. rewrite (ok_dom _ Hs). set_solver.
    + intros sid h'. destruct (decide (sid = wr_sid req)) as [->|].
      * rewrite lookup_insert_eq. intros [= <-]. split; [done|by repeat constructor].
      * rewrite lookup_insert_ne by done. apply (ok_heaps _ Hs).
    + by destruct (sc_ahead s).
Qed.

(** A pop of a well-formed scheduler, in full. *)
Lemma sched_pop_cases s : sched_ok s ->
  match sc_ahead s with
  | [] => sched_pop s = None /\ sc_streams s = ∅
  | sid :: ahead => exists h req h', sc_streams s !! sid = Some h /\ shaper_heap_pop h = Some (req, h') /\
      req :: h' ≡ₚ h /\ wr_sid req = sid /\
      let served := match h' with [] => sc_served s | _ => sc_served s ++ [sid] end in
      let streams := match h' with [] => delete sid (sc_streams s) | _ => <[sid := h']> (sc_streams s) end in
      sched_pop s = Some (req, match ahead with [] => mkSched served [] streams | _ => mkSched ahead served streams end)
  end.
Proof.
  intros Hs. unfold sched_pop. destruct (sc_ahead s) as [|sid ahead] eqn:Ea.
  - split; [done|]. pose proof (ok_ahead _ Hs Ea) as Es. apply map_eq. intros sid. rewrite lookup_empty.
    destruct (sc_streams s !! sid) as [h|] eqn:E; [|done]. exfalso.
    assert (is_Some (sc_streams s !! sid)) as Hin by by eexists. apply (ok_dom _ Hs) in Hin. rewrite Ea, Es in Hin.
    by apply not_elem_of_nil in Hin.
  - destruct (proj2 (ok_dom _ Hs sid)) as [h Hh]; [rewrite Ea; set_solver|].
    destruct (ok_heaps _ Hs _ _ Hh) as [Hne Hsid]. destruct (heap_pop_cases h Hne) as (req & h' & Ep & Hp).
    exists h, req, h'. rewrite Hh. cbn. rewrite Ep. cbn. split_and!; try done.
    rewrite <- Hp in Hsid. by apply Forall_cons_1 in Hsid as [? _].
Qed.

Lemma sched_pop_ok s req s' : sched_ok s -> sched_pop s = Some (req, s') -> sched_ok s'.
Proof.
  intros Hs Hp. pose proof (sched_pop_cases s Hs) as Hc.
  destruct (sc_ahead s) as [|sid ahead] eqn:Ea; [by destruct Hc; congruence|].
  destruct Hc as (h & r & h' & Hh & _ & Hperm & Hr & E). rewrite E in Hp. injection Hp as <- <-. clear E.
  pose proof (ok_nodup _ Hs) as Hnd. rewrite Ea in Hnd. pose proof (ok_dom _ Hs) as Hdom. rewrite Ea in Hdom.
  set (served := match h' with [] => _ | _ => _ end). set (streams := match h' with [] => delete _ _ | _ => _ end).
  assert (Hnd' : NoDup (served ++ ahead)).
  { apply NoDup_app in Hnd as (H1 & H2 & H3). apply NoDup_cons in H3 as [H3 H4]. subst served. destruct h'.
    - apply NoDup_app. split_and!; [done|set_solver|done].
    - rewrite <- app_assoc. apply NoDup_app. split_and!; [done|set_solver|]. by apply NoDup_cons. }
  assert (Hdom' : forall x, is_Some (streams !! x) <-> x ∈ served ++ ahead).
  { intros x. specialize (Hdom x). apply NoDup_app in Hnd as (_ & H2 & H3). apply NoDup_cons in H3 as [H3 _].
    subst served streams. destruct h' as [|y h'].
    - destruct (decide (x = sid)) as [->|].
      + rewrite lookup_delete_eq. split; [by intros [??]|]. set_solver.
      + rewrite lookup_delete_ne by done. rewrite Hdom. set_solver.
    - destruct (decide (x = sid)) as [->|].
      + rewrite lookup_insert_eq. split; [set_solver|by eexists].
      + rewrite lookup_insert_ne by done. rewrite Hdom. set_solver. }
  assert (Hheaps : forall x g, streams !! x = Some g -> g <> [] /\ Forall (fun req => wr_sid req = x) g).
  { intros x g. destruct (ok_heaps _ Hs _ _ Hh) as [_ Hsid]. subst streams. destruct h' as [|y h'].
    - intros [Hne Hg]%lookup_delete_Some. by apply (ok_heaps _ Hs).
    - intros [[<- <-]|[Hne Hg]]%lookup_insert_Some; [|by apply (ok_heaps _ Hs)].
      split; [done|]. rewrite <- Hperm in Hsid. by apply Forall_cons_1 in Hsid as [_ ?]. }
  destruct ahead as [|x ahead]; split; cbn; rewrite ?app_nil_r in *; try done.
Qed.

(** Nothing is lost and nothing invented. *)
Lemma sched_push_pending s req : pending_of (sc_streams (sched_push s req)) ≡ₚ req :: pending_of (sc_streams s).
Proof.
  unfold sched_push. destruct (sc_streams s !! wr_sid req) as [h|] eqn:E; cbn [sc_streams].
  - rewrite (pending_insert _ _ _ _ E), (pending_delete _ _ _ E). unfold shaper_heap_push. by rewrite heap_push_perm.
  - rewrite (pending_insert_new _ _ _ E). unfold shaper_heap_push. by rewrite heap_push_perm.
Qed.

Lemma sched_pop_pending s : sched_ok s -> match sched_pop s with
  | Some (req, s') => req :: pending_of (sc_streams s') ≡ₚ pending_of (sc_streams s)
  | None => pending_of (sc_streams s) = []
  end.
Proof.
  intros Hs. pose proof (sched_pop_cases s Hs) as Hc. destruct (sc_ahead s) as [|sid ahead].
  - destruct Hc as [-> ->]. done.
  - destruct Hc as (h & r & h' & Hh & _ & Hperm & _ & ->). rewrite (pending_delete _ _ _ Hh), <- Hperm.
    transitivity (r :: pending_of (match h' with [] => delete sid (sc_streams s) | _ => <[sid := h']> (sc_streams s) end)).
    { by destruct ahead. }
    cbn. constructor. destruct h' as [|y h']; [done|]. by rewrite (pending_insert _ _ _ _ Hh).
Qed.

(** ** The queue implements the scheduler *)

Record sq_rep q (s : Sched) : Prop := {
  sq_sched : sched_ok s;
  sq_map : sq_streams q = sc_streams s;
  sq_cnt : sq_count q = length (pending_of (sc_streams s));
  sq_list : exists ns, rr_rep (sq_rr_list q) ns (sc_served s ++ sc_ahead s) /\
      sq_next q = ns !! length (sc_served s);
}.

Lemma shaper_new_rep : sq_rep shaper_new sched_empty.
Proof. split; cbn; [apply sched_empty_ok|done|done|]. exists []. split; [apply rr_new_rep|done]. Qed.

Lemma rep_next_some q s ns : sq_rep q s -> rr_rep (sq_rr_list q) ns (sc_served s ++ sc_ahead s) ->
  ns !! length (sc_served s) = None <-> sc_ahead s = [].
Proof.
  intros Hq Hr. rewrite lookup_ge_None, (rep_length _ _ _ Hr), length_app. destruct (sc_ahead s); cbn; split; try done; lia.
Qed.

Lemma push_refines q s req : sq_rep q s -> exists q', shaper_push q req = Ok q' /\ sq_rep q' (sched_push s req).
Proof.
  intros Hq. pose proof (sched_push_ok s req (sq_sched _ _ Hq)) as Hok.
  pose proof (sched_push_pending s req) as Hpend. apply Permutation_length in Hpend. cbn in Hpend.
  unfold shaper_push. rewrite (sq_map _ _ Hq). unfold sched_push in *.
  destruct (sc_streams s !! wr_sid req) as [h|] eqn:E; cbn [mbind result_bind].
  - eexists. split; [done|]. split; cbn; [done|by rewrite (sq_map _ _ Hq)|by rewrite (sq_cnt _ _ Hq)|].
    apply (sq_list _ _ Hq).
  - destruct (sq_list _ _ Hq) as (ns & Hrep & Hnext).
    destruct (push_back_ok _ _ _ (wr_sid req) Hrep) as (id & l' & El & Hid & Hrep'). rewrite El. cbn.
    eexists. split; [done|]. split; cbn; [done|by rewrite (sq_map _ _ Hq)|by rewrite (sq_cnt _ _ Hq)|].
    exists (ns ++ [id]). rewrite app_assoc. split; [done|]. rewrite Hnext.
    destruct (ns !! length (sc_served s)) as [n|] eqn:En.
    + symmetry. by apply lookup_app_l_Some.
    + apply (rep_next_some q s ns Hq Hrep) in En. pose proof (ok_ahead _ (sq_sched _ _ Hq) En) as Es.
      rewrite En, Es in *. apply rep_length in Hrep. by destruct ns.
Qed.

(** What a pop leaves of the round. *)
Definition round_next (ahead served : list Z) (streams : gmap Z (list WR)) : Sched :=
  match ahead with [] => mkSched served [] streams | _ => mkSched ahead served streams end.

(** The stream keeps requests: its element stays, the cursor moves on. *)
Lemma served_stays q s ns sid ahead cur req h' :
  sq_rep q s -> rr_rep (sq_rr_list q) ns (sc_served s ++ sid :: ahead) -> ns !! length (sc_served s) = Some cur ->
  h' <> [] -> sq_count q <> 0 ->
  let s' := round_next ahead (sc_served s ++ [sid]) (<[sid := h']> (sc_streams s)) in
  sched_ok s' -> S (length (pending_of (sc_streams s'))) = sq_count q ->
  exists q', shaper_served q cur sid req h' = Ok (Some req, q') /\ sq_rep q' s'.
Proof.
  intros Hq Hrep Hcur Hne Hcnt s' Hok Hpend. unfold shaper_served, usize_sub, next_or_front.
  rewrite (proj2 (Nat.leb_le _ _)) by lia. cbn [mbind result_bind]. rewrite (rep_next _ _ _ Hrep _ _ Hcur).
  cbn [mbind result_bind]. destruct h' as [|y h']; [done|]. cbn [shaper_heap_is_empty].
  eexists. split; [reflexivity|]. pose proof (rep_length _ _ _ Hrep) as Hlen. rewrite length_app in Hlen. cbn in Hlen.
  split; cbn; [done|rewrite (sq_map _ _ Hq); by destruct ahead|lia|].
  exists ns. subst s'. destruct ahead as [|x ahead]; cbn.
  - split; [done|]. rewrite lookup_ge_None_2 by (cbn in Hlen; lia). apply (rep_front _ _ _ Hrep).
  - rewrite <- app_assoc. split; [done|]. rewrite length_app, Nat.add_1_r.
    destruct (lookup_lt_is_Some_2 ns (S (length (sc_served s)))) as [m Hm]; [cbn in Hlen; lia|]. by rewrite Hm.
Qed.

(** The stream is done: its element leaves the list. *)
Lemma served_leaves q s ns sid ahead cur req :
  sq_rep q s -> rr_rep (sq_rr_list q) ns (sc_served s ++ sid :: ahead) -> ns !! length (sc_served s) = Some cur ->
  sq_count q <> 0 ->
  let s' := round_next ahead (sc_served s) (delete sid (sc_streams s)) in
  sched_ok s' -> S (length (pending_of (sc_streams s'))) = sq_count q ->
  exists q', shaper_served q cur sid req [] = Ok (Some req, q') /\ sq_rep q' s'.
Proof.
  intros Hq Hrep Hcur Hcnt s' Hok Hpend. unfold shaper_served, usize_sub, next_or_front.
  rewrite (proj2 (Nat.leb_le _ _)) by lia. cbn [mbind result_bind]. rewrite (rep_next _ _ _ Hrep _ _ Hcur).
  cbn [mbind result_bind shaper_heap_is_empty]. set (i := length (sc_served s)) in *.
  destruct (remove_ok _ _ _ _ _ Hrep Hcur) as (l' & El & Hrep').
  pose proof (rep_length _ _ _ Hrep) as Hlen. rewrite length_app in Hlen. cbn [length] in Hlen. fold i in Hlen.
  pose proof (rep_length _ _ _ Hrep') as Hlen'. unfold i in Hrep'. rewrite delete_middle in Hrep'. fold i in Hrep'.
  match goal with |- context [rr_remove ?l cur] => change (rr_remove l cur) with (rr_remove (sq_rr_list q) cur) end.
  rewrite El. cbn [mbind result_bind].
  pose proof (rep_len _ _ _ Hrep') as Hl'. rewrite length_delete in Hl' by (by rewrite Hcur).
  eexists. split; [reflexivity|]. rewrite Hl'.
  assert (Hmap : delete sid (<[sid := []]> (sc_streams s)) = delete sid (sc_streams s)) by apply delete_insert_eq.
  destruct (Nat.eqb_spec (length ns - 1) 0) as [E0|E0]; split; cbn; try done;
    try (rewrite (sq_map _ _ Hq), Hmap; by destruct ahead); try lia; exists (delete i ns); subst s'.
  - assert (i = 0 /\ ahead = []) as [Ei ->] by (destruct ahead; cbn in *; split; try done; lia). cbn.
    apply nil_length_inv in Ei. rewrite Ei in *. split; [done|].
    symmetry. apply lookup_ge_None_2. rewrite length_delete by (by rewrite Hcur). lia.
  - destruct ahead as [|x ahead]; cbn.
    + rewrite app_nil_r in Hrep'. split; [done|]. rewrite lookup_ge_None_2 by (cbn in Hlen; lia).
      rewrite (rep_front _ _ _ Hrep). symmetry. apply list_lookup_delete_lt. cbn in Hlen. lia.
    + split; [done|]. fold i. rewrite list_lookup_delete_ge by done.
      destruct (lookup_lt_is_Some_2 ns (S i)) as [m Hm]; [cbn in Hlen; lia|]. by rewrite Hm.
Qed.

(** The pop serves the cursor's stream at its first step. *)
Lemma pop_refines q s : sq_rep q s -> exists q',
  shaper_pop q = Ok (fst <$> sched_pop s, q') /\
  sq_rep q' (match sched_pop s with Some (_, s') => s' | None => s end).
Proof.
  intros Hq. pose proof (sq_sched _ _ Hq) as Hok. pose proof (sched_pop_cases s Hok) as Hc.
  pose proof (sched_pop_pending s Hok) as Hpend.
  destruct (sq_list _ _ Hq) as (ns & Hrep & Hnext). unfold shaper_pop. rewrite Hnext.
  destruct (sc_ahead s) as [|sid ahead] eqn:Ea.
  { destruct Hc as [-> _]. exists q. rewrite (proj2 (rep_next_some q s ns Hq ltac:(by rewrite Ea)) Ea). done. }
  destruct Hc as (h & req & h' & Hh & Epop & Hperm & Hsid & E). cbn zeta in E.
  destruct (lookup_lt_is_Some_2 ns (length (sc_served s))) as [cur Hcur].
  { rewrite (rep_length _ _ _ Hrep), length_app. cbn. lia. }
  rewrite Hcur. rewrite E in Hpend |- *. pose proof (sq_cnt _ _ Hq) as Hcnt. rewrite <- Hpend in Hcnt. cbn [length] in Hcnt.
  destruct (Nat.eqb_spec (sq_count q) 0); [lia|]. cbn [shaper_scan fmap option_fmap option_map fst].
  rewrite (rep_sid _ _ _ Hrep _ _ _ Hcur ltac:(by apply list_lookup_middle)). cbn [mbind result_bind].
  rewrite (sq_map _ _ Hq), Hh. cbn [mbind option_bind]. rewrite Epop.
  pose proof (sched_pop_ok s req _ Hok E) as Hok'. fold (round_next ahead) in *. destruct h' as [|y h'].
  - by apply (served_leaves q s ns).
  - by apply (served_stays q s ns).
Qed.
End Spec.
