(* ===== verification/ShaperTheorems.v ===== *)
(** * What the shaper guarantees

    The properties of [shaper.rs] over any sequence of pushes and pops: the frames
    leave in rounds over the streams, none is lost, a stream's frames keep their
    order, and no stream starves. *)
From stdpp Require Import base list gmap sets.
From Stdlib Require Import ZArith Lia.
From S2P Require Import Prelude Word Heap Shaper ShaperSpec.
Local Open Scope nat_scope.

Section Runs.
Context {T : Type}.
Abbreviation WR := (WriteRequest T).
Implicit Types (q : ShaperQueue T) (req : WR) (h : list WR) (s : @Sched T).

Inductive shaper_op := Push (req : WR) | Pop.

(** The operations in order, with what the pops returned. *)
Fixpoint shaper_run q (ops : list shaper_op) : io (list (option WR) * ShaperQueue T) :=
  match ops with
  | [] => Ok ([], q)
  | Push req :: ops => q ← shaper_push q req; shaper_run q ops
  | Pop :: ops => '(out, q) ← shaper_pop q; '(outs, q) ← shaper_run q ops; Ok (out :: outs, q)
  end.

Fixpoint sched_run s (ops : list shaper_op) : list (option WR) * Sched :=
  match ops with
  | [] => ([], s)
  | Push req :: ops => sched_run (sched_push s req) ops
  | Pop :: ops =>
      match sched_pop s with
      | Some (req, s) => let '(outs, s) := sched_run s ops in (Some req :: outs, s)
      | None => let '(outs, s) := sched_run s ops in (None :: outs, s)
      end
  end.

Definition pushed (ops : list shaper_op) : list WR :=
  omap (fun op => match op with Push req => Some req | Pop => None end) ops.
Fixpoint pops (ops : list shaper_op) : nat :=
  match ops with [] => 0 | Pop :: ops => S (pops ops) | Push _ :: ops => pops ops end.

(** The requests in the queue. *)
Definition queued q : list WR := pending_of (sq_streams q).

Lemma run_refines q s ops : sq_rep q s -> exists q',
  shaper_run q ops = Ok (fst (sched_run s ops), q') /\ sq_rep q' (snd (sched_run s ops)).
Proof.
  revert q s. induction ops as [|[req|] ops IH]; intros q s Hq; cbn [shaper_run sched_run].
  - eauto.
  - destruct (push_refines q s req Hq) as (q1 & E & Hq1). rewrite E. by apply IH.
  - destruct (pop_refines q s Hq) as (q1 & E & Hq1). rewrite E. cbn [mbind result_bind].
    destruct (IH _ _ Hq1) as (q2 & E2 & Hq2). rewrite E2. cbn [mbind result_bind]. exists q2.
    destruct (sched_pop s) as [[req s1]|]; destruct (sched_run _ ops) as [outs s2]; done.
Qed.

Lemma sched_run_conserves s ops : sched_ok s ->
  sched_ok (snd (sched_run s ops)) /\
  omap id (fst (sched_run s ops)) ++ pending_of (sc_streams (snd (sched_run s ops))) ≡ₚ
  pushed ops ++ pending_of (sc_streams s).
Proof.
  revert s. induction ops as [|[req|] ops IH]; intros s Hs; cbn [sched_run].
  - done.
  - destruct (IH _ (sched_push_ok s req Hs)) as [H1 H2]. split; [done|].
    rewrite H2, sched_push_pending. cbn. by rewrite <- Permutation_middle.
  - pose proof (sched_pop_pending s Hs) as Hp. destruct (sched_pop s) as [[req s1]|] eqn:E.
    + destruct (IH s1 (sched_pop_ok _ _ _ Hs E)) as [H1 H2]. destruct (sched_run s1 ops) as [outs s2].
      split; [done|]. cbn in *. rewrite H2, <- Hp. by rewrite <- Permutation_middle.
    + destruct (IH s Hs) as [H1 H2]. destruct (sched_run s ops) as [outs s2]. by split.
Qed.

(** ** Rounds *)

(** The order in which the streams are served from now on. *)
Definition sc_order s : list Z := sc_ahead s ++ sc_served s.

Lemma order_dom s sid : sched_ok s -> is_Some (sc_streams s !! sid) <-> sid ∈ sc_order s.
Proof. intros Hs. rewrite (ok_dom _ Hs). unfold sc_order. set_solver. Qed.

Lemma num_streams_order s : sched_ok s -> size (sc_streams s) = length (sc_order s).
Proof.
  intros Hs. rewrite <- size_dom. unfold sc_order.
  assert (Hp : sc_ahead s ++ sc_served s ≡ₚ sc_served s ++ sc_ahead s) by apply Permutation_app_comm.
  replace (dom (sc_streams s)) with (list_to_set (C := gset Z) (sc_ahead s ++ sc_served s)).
  { apply size_list_to_set. rewrite Hp. apply (ok_nodup _ Hs). }
  apply set_eq. intros sid. rewrite elem_of_list_to_set, elem_of_dom, Hp. symmetry. apply (ok_dom _ Hs).
Qed.

Lemma sched_push_order s req : sc_order (sched_push s req) = sc_order s \/
  sc_order (sched_push s req) = sc_ahead s ++ wr_sid req :: sc_served s.
Proof.
  unfold sched_push, sc_order. destruct (sc_streams s !! wr_sid req); cbn; [by left|right].
  by rewrite <- app_assoc.
Qed.

Lemma sched_pop_order s : sched_ok s -> match sc_order s with
  | [] => sched_pop s = None
  | sid :: rest => exists req s', sched_pop s = Some (req, s') /\ wr_sid req = sid /\
      (sc_order s' = rest \/ sc_order s' = rest ++ [sid])
  end.
Proof.
  intros Hs. pose proof (sched_pop_cases s Hs) as Hc. unfold sc_order.
  destruct (sc_ahead s) as [|sid ahead] eqn:Ea.
  - rewrite (ok_ahead _ Hs Ea). cbn. by destruct Hc.
  - destruct Hc as (h & req & h' & _ & _ & _ & Hsid & E). cbn [app]. eexists req, _. split; [exact E|].
    split; [done|]. destruct h', ahead; cbn; rewrite ?app_nil_r, ?app_assoc; auto.
Qed.

(** A stream that waits behind [k] others is served within [k + 1] pops, and one
    more for each stream that joins. *)
Lemma served_within s ops sid k : sched_ok s -> sc_order s !! k = Some sid ->
  k + length (pushed ops) < pops ops ->
  exists req, Some req ∈ fst (sched_run s ops) /\ wr_sid req = sid.
Proof.
  revert s k. induction ops as [|[req|] ops IH]; intros s k Hs Hk Hlt; cbn [sched_run].
  - cbn in Hlt. lia.
  - change (pops (Push req :: ops)) with (pops ops) in Hlt.
    change (length (pushed (Push req :: ops))) with (S (length (pushed ops))) in Hlt.
    assert (exists k', sc_order (sched_push s req) !! k' = Some sid /\ k' <= S k) as (k' & Hk' & Hle).
    { destruct (sched_push_order s req) as [->| ->]; [by exists k; split; [|lia]|].
      unfold sc_order in Hk. destruct (decide (k < length (sc_ahead s))).
      - exists k. rewrite lookup_app_l in * by done. split; [done|lia].
      - exists (S k). rewrite lookup_app_r in * by lia. replace (S k - length (sc_ahead s)) with (S (k - length (sc_ahead s))) by lia.
        split; [done|lia]. }
    apply (IH _ k'); [by apply sched_push_ok|done|lia].
  - change (pushed (Pop :: ops)) with (pushed ops) in Hlt. change (pops (Pop :: ops)) with (S (pops ops)) in Hlt.
    pose proof (sched_pop_order s Hs) as Ho. destruct (sc_order s) as [|x rest]; [done|].
    destruct Ho as (req & s' & E & Hx & Ho). rewrite E. destruct (sched_run s' ops) as [outs s2] eqn:Er.
    destruct k as [|k]; cbn in Hk.
    + injection Hk as ->. exists req. split; [left|done].
    + destruct (IH s' k) as (r & Hr & Hsid); [by apply (sched_pop_ok s req)| |lia|].
      { destruct Ho as [->| ->]; [done|]. by apply lookup_app_l_Some. }
      rewrite Er in Hr. cbn [fst] in *. exists r. split; [by right|done].
Qed.

(** ** Priorities *)

(** Sequence numbers in one half of the number circle. *)
Definition in_window (base : Z) req : Prop := (0 <= itimediff (wr_seq req) base)%Z.
Definition windowed h : Prop := exists base, Forall (in_window base) h.

Definition wr_key (base : Z) req : Z :=
  (class_discriminant (wr_class req) * 2147483648 + itimediff (wr_seq req) base)%Z.

(** Inside a window the wrapping difference is the difference of the positions. *)
Lemma window_diff base x y : in_window base x -> in_window base y ->
  itimediff (wr_seq y) (wr_seq x) = (itimediff (wr_seq y) base - itimediff (wr_seq x) base)%Z.
Proof.
  unfold in_window. intros Hx Hy. pose proof (itimediff_range (wr_seq x) base) as Rx.
  pose proof (itimediff_range (wr_seq y) base) as Ry. unfold is_i32 in Rx, Ry.
  change itimediff with _itimediff in *. apply itimediff_intro; [unfold is_i32; lia|].
  rewrite <- (u32_sub_l (_itimediff _ _)), <- (u32_sub_r _ (_itimediff _ _)), !itimediff_u32.
  rewrite u32_sub_l, u32_sub_r. f_equal. lia.
Qed.

Lemma window_range base x : in_window base x -> (0 <= itimediff (wr_seq x) base < 2147483648)%Z.
Proof.
  unfold in_window. change itimediff with _itimediff. pose proof (itimediff_range (wr_seq x) base) as R.
  unfold is_i32 in R. lia.
Qed.

Lemma wr_less_key base : less_by_key wr_less (wr_key base) (in_window base).
Proof.
  intros x y Hx Hy. pose proof (window_range base x Hx). pose proof (window_range base y Hy).
  unfold wr_less, wr_key. destruct (decide _) as [Ec|Ec].
  - rewrite (window_diff base x y Hx Hy), Ec.
    apply eq_true_iff_eq. rewrite !Z.ltb_lt. lia.
  - apply eq_true_iff_eq. rewrite !Z.ltb_lt. destruct (wr_class x), (wr_class y); try done; cbn; lia.
Qed.

(** No request of the heap sorts before its parent. *)
Definition heap_inv h : Prop := forall c x y, 0 < c ->
  h !! c = Some x -> h !! ((c - 1) / 2) = Some y -> wr_less x y = false.

Lemma heap_inv_ordered `{Inhabited WR} base h : Forall (in_window base) h ->
  heap_inv h <-> heap_ordered (wr_key base) h.
Proof.
  intros Hw. unfold heap_inv, heap_ordered, heap_ordered_upto.
  assert (Hpar : forall c, 0 < c -> (c - 1) / 2 < c) by (intros; apply Nat.Div0.div_lt_upper_bound; lia).
  split.
  - intros Hi c Hc. specialize (Hpar c ltac:(lia)).
    destruct (lookup_lt_is_Some_2 h c ltac:(lia)) as [x Hx], (lookup_lt_is_Some_2 h ((c - 1) / 2) ltac:(lia)) as [y Hy].
    specialize (Hi c x y ltac:(lia) Hx Hy). rewrite (wr_less_key base) in Hi by by eapply Forall_lookup_1.
    apply Z.ltb_ge in Hi. by rewrite (list_lookup_total_correct _ _ _ Hx), (list_lookup_total_correct _ _ _ Hy).
  - intros Ho c x y Hc Hx Hy. specialize (Ho c). rewrite (wr_less_key base) by by eapply Forall_lookup_1.
    apply Z.ltb_ge. rewrite (list_lookup_total_correct _ _ _ Hx), (list_lookup_total_correct _ _ _ Hy) in Ho.
    apply Ho. apply lookup_lt_Some in Hx. lia.
Qed.

Lemma push_inv h req : windowed (shaper_heap_push h req) -> heap_inv h -> heap_inv (shaper_heap_push h req).
Proof.
  intros [base Hw] Hi. pose (Hinh := populate req : Inhabited WR).
  assert (Hw' : Forall (in_window base) (req :: h)).
  { unfold shaper_heap_push in Hw. by rewrite heap_push_perm in Hw. }
  apply Forall_cons in Hw' as [Hr Hh]. apply (heap_inv_ordered base); [done|].
  apply (heap_push_ordered wr_less (wr_key base) (in_window base)); [apply wr_less_key|done..|].
  by apply (heap_inv_ordered base).
Qed.

Lemma pop_inv h req h' : windowed h -> heap_inv h -> shaper_heap_pop h = Some (req, h') ->
  windowed h' /\ heap_inv h' /\
  Forall (fun r => (wr_class r = Ctrl -> wr_class req = Ctrl) /\
    (wr_class r = wr_class req -> (0 <= itimediff (wr_seq r) (wr_seq req))%Z)) h'.
Proof.
  intros [base Hw] Hi E. pose (Hinh := populate req : Inhabited WR).
  destruct (heap_pop_min wr_less (wr_key base) (in_window base) (wr_less_key base) h req h' Hw) as (Ho & Hmin & Hp).
  { by apply (heap_inv_ordered base). }
  { done. }
  rewrite <- Hp in Hw. apply Forall_cons in Hw as [Hr Hw]. split; [by exists base|]. split; [by apply (heap_inv_ordered base)|].
  apply Forall_forall. intros r Hin. rewrite Forall_forall in Hmin, Hw. specialize (Hmin r Hin).
  pose proof (window_range base r (Hw r Hin)). pose proof (window_range base req Hr). unfold wr_key in Hmin. split.
  - intros Er. rewrite Er in Hmin. destruct (wr_class req); [done|]. cbn in Hmin. lia.
  - intros Er. rewrite (window_diff base req r Hr (Hw r Hin)), Er in *. lia.
Qed.

(** The sequence numbers queued in a stream are never further apart than half the
    number circle. *)
Definition streams_inv s : Prop := forall sid h, sc_streams s !! sid = Some h -> windowed h /\ heap_inv h.

Fixpoint windowed_run s (ops : list shaper_op) : Prop :=
  match ops with
  | [] => True
  | Push req :: ops =>
      match sc_streams (sched_push s req) !! wr_sid req with Some h => windowed h | None => False end /\
      windowed_run (sched_push s req) ops
  | Pop :: ops => windowed_run (match sched_pop s with Some (_, s) => s | None => s end) ops
  end.

Lemma push_streams s req :
  sc_streams (sched_push s req) = <[wr_sid req := shaper_heap_push (default [] (sc_streams s !! wr_sid req)) req]> (sc_streams s).
Proof. unfold sched_push. by destruct (sc_streams s !! wr_sid req). Qed.

Lemma pop_streams s req s' sid h : sched_ok s -> sched_pop s = Some (req, s') -> sc_streams s' !! sid = Some h ->
  (sid <> wr_sid req /\ sc_streams s !! sid = Some h) \/
  exists h0, sid = wr_sid req /\ sc_streams s !! sid = Some h0 /\ shaper_heap_pop h0 = Some (req, h).
Proof.
  intros Hs E Hh. pose proof (sched_pop_cases s Hs) as Hc. destruct (sc_ahead s) as [|x ahead]; [by destruct Hc; congruence|].
  destruct Hc as (h0 & r & h' & Hh0 & Ep & _ & Hx & E'). rewrite E' in E. injection E as <- <-.
  assert (Hm : (match h' with [] => delete x (sc_streams s) | _ => <[x := h']> (sc_streams s) end) !! sid = Some h)
    by by destruct ahead. clear Hh.
  destruct h' as [|y h'].
  - apply lookup_delete_Some in Hm as [Hne Hm]. left. by rewrite Hx.
  - apply lookup_insert_Some in Hm as [[<- <-]|[Hne Hm]]; [right; eauto|left]. by rewrite Hx.
Qed.

Lemma run_streams_inv s ops : sched_ok s -> streams_inv s -> windowed_run s ops ->
  streams_inv (snd (sched_run s ops)).
Proof.
  revert s. induction ops as [|[req|] ops IH]; intros s Hs Hi Hw; cbn [sched_run]; [done| |].
  - destruct Hw as [Hw Hrun]. apply IH; [by apply sched_push_ok| |done].
    rewrite push_streams in *. rewrite lookup_insert_eq in Hw. intros sid h. rewrite push_streams.
    intros [[<- <-]|[_ Hh]]%lookup_insert_Some; [|exact (Hi _ _ Hh)]. split; [done|]. apply push_inv; [done|].
    destruct (sc_streams s !! wr_sid req) as [h|] eqn:E; cbn; [exact (proj2 (Hi _ _ E))|]. intros c x y _ Hx. by destruct c.
  - cbn [windowed_run] in Hw. destruct (sched_pop s) as [[req s']|] eqn:E.
    + specialize (IH s' (sched_pop_ok _ _ _ Hs E)). destruct (sched_run s' ops) as [outs s2] eqn:Er. cbn [snd] in *.
      apply IH; [|done]. intros sid h Hh. destruct (pop_streams s req s' sid h Hs E Hh) as [[_ Hh']|(h0 & -> & Hh0 & Ep)].
      * exact (Hi _ _ Hh').
      * destruct (Hi _ _ Hh0) as [Hw0 Hi0]. by destruct (pop_inv h0 req h Hw0 Hi0 Ep) as (? & ? & _).
    + specialize (IH s Hs). destruct (sched_run s ops) as [outs s2]. by apply IH.
Qed.

(** It is enough that the numbers pushed in the run are. *)
Lemma windowed_pushes base s ops : sched_ok s -> Forall (in_window base) (pushed ops) ->
  (forall sid h, sc_streams s !! sid = Some h -> Forall (in_window base) h) -> windowed_run s ops.
Proof.
  revert s. induction ops as [|[req|] ops IH]; intros s Hs Hp Hm; cbn [windowed_run]; [done| |].
  - change (pushed (Push req :: ops)) with (req :: pushed ops) in Hp. apply Forall_cons in Hp as [Hr Hp].
    assert (Hh : Forall (in_window base) (shaper_heap_push (default [] (sc_streams s !! wr_sid req)) req)).
    { apply heap_push_Forall; [|done]. destruct (sc_streams s !! wr_sid req) eqn:E; [by eapply Hm|constructor]. }
    split; [rewrite push_streams, lookup_insert_eq; by exists base|].
    apply IH; [by apply sched_push_ok|done|]. intros sid h. rewrite push_streams.
    intros [[<- <-]|[_ E]]%lookup_insert_Some; [done|by eapply Hm].
  - destruct (sched_pop s) as [[req s']|] eqn:E; [|by apply IH].
    apply IH; [by eapply sched_pop_ok|done|]. intros sid h Hh.
    destruct (pop_streams s req s' sid h Hs E Hh) as [[_ Hh']|(h0 & -> & Hh0 & Ep)]; [by eapply Hm|].
    destruct (heap_pop_cases h0) as (r & h1 & Ep' & Hperm); [by apply (ok_heaps _ Hs) in Hh0 as [? _]|].
    rewrite Ep in Ep'. injection Ep' as <- <-. specialize (Hm _ _ Hh0). rewrite <- Hperm in Hm.
    by apply Forall_cons in Hm as [_ ?].
Qed.

(** ** The properties *)

(** C20: any sequence of pushes and pops runs without a panic, and the frames leave in
    rounds: the queue returns what the scheduler returns - each pop serves the first
    stream still waiting in the round, a stream with more to send waits for the next
    round, a new stream joins the end of this one.  The slab has a slot per stream that
    waits and the slots freed. *)
Theorem shaper_round_robin (ops : list shaper_op) :
  exists q, shaper_run shaper_new ops = Ok (fst (sched_run sched_empty ops), q) /\
    sq_streams q = sc_streams (snd (sched_run sched_empty ops)) /\
    length (rr_slots (sq_rr_list q)) = shaper_num_streams q + length (rr_free (sq_rr_list q)).
Proof.
  destruct (run_refines _ _ ops shaper_new_rep) as (q & E & Hq). exists q. split; [done|]. split; [apply (sq_map _ _ Hq)|].
  destruct (sq_list _ _ Hq) as (ns & Hrep & _). rewrite (rep_slab _ _ _ Hrep). f_equal.
  rewrite (rep_length _ _ _ Hrep). unfold shaper_num_streams.
  rewrite (sq_map _ _ Hq), (num_streams_order _ (sq_sched _ _ Hq)). unfold sc_order. rewrite !length_app. lia.
Qed.

(** no frame is lost, duplicated or invented: what the pops returned and what is
    still queued are, together, what was pushed; the length is the number of frames
    queued, and a pop returns nothing only when nothing is queued. *)
Theorem shaper_conserves (ops : list shaper_op) outs q :
  shaper_run shaper_new ops = Ok (outs, q) ->
  omap id outs ++ queued q ≡ₚ pushed ops /\ shaper_len q = length (queued q) /\
  exists out q', shaper_pop q = Ok (out, q') /\ (out = None <-> queued q = []).
Proof.
  intros E. destruct (run_refines _ _ ops shaper_new_rep) as (q0 & E' & Hq). rewrite E in E'. injection E' as -> <-.
  destruct (sched_run_conserves _ ops sched_empty_ok) as [Hs Hp]. unfold queued. rewrite (sq_map _ _ Hq).
  split; [|split; [apply (sq_cnt _ _ Hq)|]].
  - rewrite Hp. change (pending_of (sc_streams sched_empty)) with (@nil WR). by rewrite app_nil_r.
  - destruct (pop_refines _ _ Hq) as (q' & Epop & _). eexists _, q'. split; [exact Epop|].
    pose proof (sched_pop_pending _ Hs) as Hpend. destruct (sched_pop _) as [[req s']|]; cbn; [|done].
    split; [done|]. intros Hn. rewrite Hn in Hpend. symmetry in Hpend. by apply Permutation_nil_cons in Hpend.
Qed.

(** C36: as long as the sequence numbers queued in a stream stay within half the number
    circle, the frame a pop returns is the first of its stream: no control frame of the
    stream stays behind a data frame, and none of its class that is left has an earlier
    number.  So a FIN, which is a data frame, never overtakes the stream's data. *)
Theorem shaper_keeps_stream_order (ops : list shaper_op) outs q req q' :
  windowed_run sched_empty ops ->
  shaper_run shaper_new ops = Ok (outs, q) -> shaper_pop q = Ok (Some req, q') ->
  forall r, r ∈ queued q' -> wr_sid r = wr_sid req ->
    (wr_class r = Ctrl -> wr_class req = Ctrl) /\
    (wr_class r = wr_class req -> (0 <= itimediff (wr_seq r) (wr_seq req))%Z).
Proof.
  intros Hw E Epop r Hr Hsid. destruct (run_refines _ _ ops shaper_new_rep) as (q0 & E' & Hq). rewrite E in E'.
  injection E' as -> <-. pose proof (sq_sched _ _ Hq) as Hs.
  assert (Hi : streams_inv (snd (sched_run sched_empty ops))).
  { apply run_streams_inv; [apply sched_empty_ok| |done]. intros sid h Hh. cbn in Hh.
    by rewrite lookup_empty in Hh. }
  destruct (pop_refines _ _ Hq) as (q1 & Epop' & Hq'). rewrite Epop in Epop'. injection Epop' as Eout <-.
  destruct (sched_pop (snd (sched_run sched_empty ops))) as [[req' s']|] eqn:Es; [|done]. injection Eout as ->.
  unfold queued in Hr. rewrite (sq_map _ _ Hq') in Hr. apply elem_of_pending in Hr as (sid & h & Hh & Hin).
  destruct (ok_heaps _ (sq_sched _ _ Hq') _ _ Hh) as [_ Hsids]. rewrite Forall_forall in Hsids.
  pose proof (Hsids r Hin) as Hrs. rewrite Hsid in Hrs.
  destruct (pop_streams _ _ _ _ _ Hs Es Hh) as [[Hne _]|(h0 & _ & Hh0 & Ep)]; [congruence|].
  destruct (Hi _ _ Hh0) as [Hw0 Hi0]. destruct (pop_inv h0 req' h Hw0 Hi0 Ep) as (_ & _ & Hmin).
  rewrite Forall_forall in Hmin. by apply Hmin.
Qed.

(** C37: no stream starves: a stream with a frame queued is served within as many pops
    as there are streams, one more for each frame pushed meanwhile. *)
Theorem shaper_is_fair (ops later : list shaper_op) outs q req :
  shaper_run shaper_new ops = Ok (outs, q) -> req ∈ queued q ->
  shaper_num_streams q + length (pushed later) <= pops later ->
  exists outs' q' r, shaper_run q later = Ok (outs', q') /\ Some r ∈ outs' /\ wr_sid r = wr_sid req.
Proof.
  intros E Hr Hlt. destruct (run_refines _ _ ops shaper_new_rep) as (q0 & E' & Hq). rewrite E in E'. injection E' as -> <-.
  pose proof (sq_sched _ _ Hq) as Hs. set (s := snd (sched_run sched_empty ops)) in *.
  unfold queued in Hr. rewrite (sq_map _ _ Hq) in Hr. apply elem_of_pending in Hr as (sid & h & Hh & Hin).
  destruct (ok_heaps _ Hs _ _ Hh) as [_ Hsids]. rewrite Forall_forall in Hsids. rewrite (Hsids req Hin).
  assert (Hsid : sid ∈ sc_order s) by (apply (order_dom s sid Hs); by eexists).
  apply list_elem_of_lookup in Hsid as [k Hk].
  destruct (run_refines _ _ later Hq) as (q' & E2 & _).
  destruct (served_within s later sid k Hs Hk) as (r & Hr & Hrs); [|by eexists _, q', r].
  enough (k < shaper_num_streams q) by lia. apply lookup_lt_Some in Hk. unfold shaper_num_streams.
  rewrite (sq_map _ _ Hq), (num_streams_order s Hs). done.
Qed.
End Runs.

(** ** Examples *)

(** Two streams: a data frame and an urgent control frame of stream 3, a data frame
    of stream 5 with a number past the wrap-around. *)
Definition example_wr (c : ClassId) (sid seq : Z) : WriteRequest Z := mkWriteRequest c sid seq (seq + 100)%Z.
Definition example_pushes : list (@shaper_op Z) :=
  [Push (example_wr Data 3 4294967295); Push (example_wr Data 5 0); Push (example_wr Ctrl 3 1); Push (example_wr Data 3 2)].
Definition example_queue : ShaperQueue Z :=
  match shaper_run shaper_new example_pushes with Ok (_, q) => q | _ => shaper_new end.

Lemma example_run : shaper_run shaper_new example_pushes = Ok ([], example_queue).
Proof. by vm_compute. Qed.

Example example_order : match shaper_run example_queue [Pop; Pop; Pop; Pop; Pop] with
  | Ok (outs, _) => outs | _ => [] end =
  [Some (example_wr Ctrl 3 1); Some (example_wr Data 5 0); Some (example_wr Data 3 4294967295);
   Some (example_wr Data 3 2); None].
Proof. by vm_compute. Qed.

Lemma shaper_conserves_witness : shaper_len example_queue = length (queued example_queue).
Proof. apply (shaper_conserves example_pushes [] example_queue). exact example_run. Defined.

Definition example_popped : ShaperQueue Z :=
  match shaper_pop example_queue with Ok (_, q) => q | _ => shaper_new end.

Lemma shaper_keeps_stream_order_witness :
  shaper_pop example_queue = Ok (Some (example_wr Ctrl 3 1), example_popped) /\
  forall r, r ∈ queued example_popped -> wr_sid r = 3%Z ->
    (wr_class r = Ctrl -> (0 <= itimediff (wr_seq r) 1)%Z).
Proof.
  assert (E : shaper_pop example_queue = Ok (Some (example_wr Ctrl 3 1), example_popped)) by by vm_compute.
  split; [exact E|]. intros r Hr Hsid Hc.
  refine (proj2 (shaper_keeps_stream_order example_pushes [] example_queue (example_wr Ctrl 3 1) example_popped
    _ example_run E r Hr Hsid) Hc).
  apply (windowed_pushes 4294967295); [apply sched_empty_ok|repeat constructor; done|].
  intros sid h Hh. cbn in Hh. by rewrite lookup_empty in Hh.
Defined.

Lemma shaper_is_fair_witness : exists outs' q' r,
  shaper_run example_queue [Pop; Pop] = Ok (outs', q') /\ Some r ∈ outs' /\ wr_sid r = 5%Z.
Proof.
  apply (shaper_is_fair example_pushes [Pop; Pop] [] example_queue (example_wr Data 5 0)).
  - exact example_run.
  - vm_compute. repeat (left || right).
  - vm_compute. repeat constructor.
Defined.
