(* ===== verification/SmuxStream.v ===== *)
(** * smux streams: [stream.rs]

    The receive buffer of a stream with the accounting of protocol version 2, the
    state a stream shares with its session, and the pieces of the read and write
    calls between two points where they wait.  An [async] call is the sequence of
    its pieces; what happens in between is any other step of the session.  A look at the
    buffer and a look at the flags of the stream are two pieces also where the code does not
    wait in between: other threads run. *)
From stdpp Require Import base list.
From Stdlib Require Import ZArith Lia.
From S2P Require Import Prelude Word SmuxFrame.
Local Open Scope Z_scope.

(** ** [StreamBuf] *)

Record StreamBuf := mkStreamBuf {
  sb_chunks : list (list Z);
  sb_len : nat;
  sb_num_read : Z;
  sb_incr : Z;
}.

#[export] Instance stream_buf_eta : EtaRecord StreamBuf :=
  fun b => mkStreamBuf (sb_chunks b) (sb_len b) (sb_num_read b) (sb_incr b).

Definition stream_buf_default : StreamBuf := mkStreamBuf [] 0 0 0.

(** [consume_front] into a buffer of [blen] bytes: the bytes copied. *)
Definition consume_front (buf : StreamBuf) (blen : nat) : io (list Z * StreamBuf) :=
  match sb_chunks buf with
  | [] => Ok ([], buf)
  | front :: chunks =>
      let n := Nat.min (length front) blen in
      let rest := drop n front in
      len ← usize_sub (sb_len buf) n;
      Ok (take n front,
          buf <| sb_chunks := match rest with [] => chunks | _ => rest :: chunks end |> <| sb_len := len |>)
  end.

(** [pop]. *)
Definition buf_pop (buf : StreamBuf) : io (option (list Z) * StreamBuf) :=
  match sb_chunks buf with
  | [] => Ok (None, buf)
  | chunk :: chunks =>
      len ← usize_sub (sb_len buf) (length chunk);
      Ok (Some chunk, buf <| sb_chunks := chunks |> <| sb_len := len |>)
  end.

Definition account_read (buf : StreamBuf) (n : nat) (max_stream_buffer : Z) : Z * StreamBuf :=
  let n := u32 (Z.of_nat n) in
  let buf := buf <| sb_num_read := wadd32 (sb_num_read buf) n |> <| sb_incr := wadd32 (sb_incr buf) n |> in
  if (u32 (Z.quot max_stream_buffer 2) <=? sb_incr buf) || (sb_num_read buf =? n)
  then (sb_num_read buf, buf <| sb_incr := 0 |>)
  else (0, buf).

(** ** [StreamInner]

    [die], [fin_event] and [write_closed] are the cancelled flags of the source's
    tokens; the wake-up permits carry no state a result depends on. *)
Record StreamInner := mkStreamInner {
  st_id : Z;
  st_version : Z;
  st_frame_size : Z;
  st_buffer : StreamBuf;
  st_die : bool;
  st_die_once : bool;
  st_fin_event : bool;
  st_write_closed : bool;
  st_write_closed_once : bool;
  st_num_written : Z;
  st_peer_consumed : Z;
  st_peer_window : Z;
}.

#[export] Instance stream_inner_eta : EtaRecord StreamInner :=
  fun t => mkStreamInner (st_id t) (st_version t) (st_frame_size t) (st_buffer t) (st_die t) (st_die_once t)
    (st_fin_event t) (st_write_closed t) (st_write_closed_once t) (st_num_written t) (st_peer_consumed t)
    (st_peer_window t).

Definition stream_new (id : Z) (config : Config) : StreamInner :=
  mkStreamInner id (u8 (cf_version config)) (cf_max_frame_size config) stream_buf_default
    false false false false false 0 0 INITIAL_PEER_WINDOW.

Definition push_bytes (t : StreamInner) (data : list Z) : StreamInner :=
  let buf := st_buffer t in
  let buf := buf <| sb_len := (sb_len buf + length data)%nat |> in
  t <| st_buffer := (buf <| sb_chunks := sb_chunks buf ++ [data] |>) |>.

(** [close_die] and [close_write_side]: whether this call made the transition. *)
Definition close_die (t : StreamInner) : bool * StreamInner :=
  if st_die_once t then (false, t) else (true, t <| st_die_once := true |> <| st_die := true |>).
Definition close_write_side (t : StreamInner) : bool * StreamInner :=
  if st_write_closed_once t then (false, t)
  else (true, t <| st_write_closed_once := true |> <| st_write_closed := true |>).

Definition stream_update (t : StreamInner) (consumed window : Z) : StreamInner :=
  t <| st_peer_consumed := consumed |> <| st_peer_window := window |>.

(** [recycle_tokens]: the tokens freed. *)
Definition recycle_tokens (t : StreamInner) : nat * StreamInner :=
  let buf := st_buffer t in
  (sb_len buf, t <| st_buffer := (buf <| sb_chunks := [] |> <| sb_len := 0%nat |>) |>).

(** ** Reading *)

Inductive TryRead :=
| Read (data : list Z)
| Eof
| TryWouldBlock.

(** The critical section of [try_read]; the second component is the window update
    due, 0 for none. *)
Definition read_section (config : Config) (t : StreamInner) (blen : nat) : io (list Z * Z * StreamInner) :=
  '(data, buf) ← consume_front (st_buffer t) blen;
  let '(notify, buf) :=
    if cf_version config =? 2 then account_read buf (length data) (cf_max_stream_buffer config) else (0, buf) in
  Ok (data, notify, t <| st_buffer := buf |>).

(** [pop_chunk]. *)
Definition pop_chunk (config : Config) (t : StreamInner) : io (option (list Z) * Z * StreamInner) :=
  '(chunk, buf) ← buf_pop (st_buffer t);
  let n := match chunk with Some chunk => length chunk | None => 0%nat end in
  let '(notify, buf) :=
    if cf_version config =? 2 then account_read buf n (cf_max_stream_buffer config) else (0, buf) in
  Ok (chunk, notify, t <| st_buffer := buf |>).

Inductive WaitRead :=
| Wakeup
| WaitEof
| WaitFailed (e : SmuxError).

(** The part of [wait_read] that answers without waiting, in its fixed order; [None] when it
    waits.  Each argument is what its own check finds, the checks coming one after the
    other: the buffer, the FIN event, the session's errors, [die]. *)
Definition wait_read_now (buffer : StreamBuf) (fin : bool) (read_error proto_error : option SmuxError) (die : bool)
    : option WaitRead :=
  match sb_chunks buffer with
  | _ :: _ => Some Wakeup
  | [] =>
      if fin then Some WaitEof
      else match read_error, proto_error with
      | Some e, _ => Some (WaitFailed e)
      | None, Some e => Some (WaitFailed e)
      | None, None => if die then Some (WaitFailed ClosedPipe) else None
      end
  end.

(** The branch of the wait that answers when the peer's FIN comes. *)
Definition wait_read_fin (buffer : StreamBuf) : WaitRead := match sb_chunks buffer with [] => WaitEof | _ => Wakeup end.

(** The branch of the wait that answers when the stream closes: the buffer, then the FIN
    event. *)
Definition wait_read_died (buffer : StreamBuf) (fin : bool) : WaitRead :=
  match sb_chunks buffer with
  | [] => if fin then WaitEof else WaitFailed ClosedPipe
  | _ => Wakeup
  end.

(** The frame of [send_window_update]. *)
Definition window_update_frame (config : Config) (t : StreamInner) (consumed : Z) : Frame :=
  mkFrame (st_version t) CMD_UPD (st_id t)
    (upd_header_new consumed (u32 (cf_max_stream_buffer config))).

(** The update [read_chunk] leaves to a sender task: the newest count, 0 for none, and
    whether the task runs. *)
Record PendingUpdate := mkPendingUpdate {
  pu_consumed : Z;
  pu_sending : bool;
}.

#[export] Instance pending_update_eta : EtaRecord PendingUpdate :=
  fun p => mkPendingUpdate (pu_consumed p) (pu_sending p).

(** [queue_window_update]: whether it starts a task. *)
Definition queue_window_update (p : PendingUpdate) (consumed : Z) : bool * PendingUpdate :=
  let p := p <| pu_consumed := consumed |> in
  if pu_sending p then (false, p) else (true, p <| pu_sending := true |>).

(** The task's turn: the count to send, or [None] when it ends. *)
Definition sender_take (closed : bool) (p : PendingUpdate) : option Z * PendingUpdate :=
  let consumed := pu_consumed p in
  if (consumed =? 0) || closed then (None, mkPendingUpdate 0 false)
  else (Some consumed, p <| pu_consumed := 0 |>).

(** ** Writing *)

Definition check_write_closed (t : StreamInner) : result SmuxError () :=
  if st_write_closed t || st_die t then Err ClosedPipe else Ok ().

(** The progress of one write call: [off] of [src] has been framed, and the
    current pass may go to [limit]. *)
Record Writer := mkWriter {
  wr_src : list Z;
  wr_off : nat;
  wr_limit : nat;
}.

#[export] Instance writer_eta : EtaRecord Writer := fun w => mkWriter (wr_src w) (wr_off w) (wr_limit w).

(** The start of [write]: [Ok None] for an empty source, which is written. *)
Definition write_start (config : Config) (t : StreamInner) (src : list Z) : result SmuxError (option Writer) :=
  match src with
  | [] => Ok None
  | _ =>
      check_write_closed t;;
      (** version 1 goes to the end at once; version 2 asks for the window first *)
      Ok (Some (mkWriter src 0 (if cf_version config =? 2 then 0%nat else length src)))
  end.

(** The window of [write_v2]; a negative number in flight is the error. *)
Definition send_window (t : StreamInner) : result SmuxError Z :=
  let inflight := i32 (wsub32 (st_num_written t) (st_peer_consumed t)) in
  if inflight <? 0 then Err Consumed else Ok (i32 (i32 (st_peer_window t) - inflight)).

(** One pass of the loop of [write_v2]: how far it may go. *)
Definition write_v2_pass (t : StreamInner) (w : Writer) : result SmuxError Writer :=
  win ← send_window t;
  Ok (if 0 <? win
      then w <| wr_limit := (wr_off w + Nat.min (length (wr_src w) - wr_off w) (Z.to_nat win))%nat |>
      else w <| wr_limit := wr_off w |>).

(** The next frame of the pass, [None] at its end. *)
Definition next_frame (t : StreamInner) (w : Writer) : option Frame :=
  if (wr_off w <? wr_limit w)%nat then
    let size := Nat.min (wr_limit w - wr_off w) (Z.to_nat (st_frame_size t)) in
    Some (mkFrame (st_version t) CMD_PSH (st_id t) (take size (drop (wr_off w) (wr_src w))))
  else None.

(** What [write_frame] does when the frame was handed over, or failed. *)
Definition frame_written (t : StreamInner) (w : Writer) (f : Frame) : StreamInner * Writer :=
  (t <| st_num_written := wadd32 (st_num_written t) (u32 (zlen (fr_data f))) |>,
   w <| wr_off := (wr_off w + length (fr_data f))%nat |>).

(** All of [src] is framed. *)
Definition write_done (w : Writer) : bool := (length (wr_src w) <=? wr_off w)%nat.
