(* ===== verification/SmuxSession.v ===== *)
(** * The smux session: [session.rs]

    The state the tasks and the streams share, and each piece of their loops
    between two points where they wait.  The stream objects live in a store
    ([ss_objs]): the session's map and the handles of the callers refer to them, and a
    stream that left the map is still read through its handles.

    The reading task works on the bytes that have arrived; a piece that needs more
    of them, a token or room in the accept queue answers that it waits. *)
From stdpp Require Import base list gmap.
From Stdlib Require Import ZArith Lia.
From S2P Require Import Prelude Word SmuxFrame Shaper SmuxStream.
Local Open Scope Z_scope.

Definition DEFAULT_ACCEPT_BACKLOG : nat := 1024.
Definition MAX_SHAPER_SIZE : nat := 1024.

(** A queued frame and who waits for its result. *)
Record RequestBody := mkRequestBody {
  rb_frame : Frame;
  rb_result : nat;
}.

Record Session := mkSession {
  ss_config : Config;
  ss_version : Z;
  ss_next_id : Z;
  ss_go_away : bool;
  ss_bucket : Z;
  ss_streams : gmap Z nat;
  ss_objs : list StreamInner;
  ss_die : bool;
  ss_closed : bool;
  ss_read_error : option SmuxError;
  ss_write_error : option SmuxError;
  ss_proto_error : option SmuxError;
  ss_accepts : list nat;
  ss_active : bool;
  ss_request_id : Z;
  ss_shaper : ShaperQueue RequestBody;
  ss_slots : nat;
}.

#[export] Instance session_eta : EtaRecord Session :=
  fun s => mkSession (ss_config s) (ss_version s) (ss_next_id s) (ss_go_away s) (ss_bucket s) (ss_streams s)
    (ss_objs s) (ss_die s) (ss_closed s) (ss_read_error s) (ss_write_error s) (ss_proto_error s) (ss_accepts s)
    (ss_active s) (ss_request_id s) (ss_shaper s) (ss_slots s).

Definition session_new (config : Config) (client : bool) : Session :=
  mkSession config (u8 (cf_version config)) (if client then 1 else 0) false (i32 (cf_max_receive_buffer config))
    ∅ [] false false None None None [] false 0 shaper_new MAX_SHAPER_SIZE.

(** [ErrorSlot::set]: the first error stays. *)
Definition slot_set (slot : option SmuxError) (err : SmuxError) : option SmuxError :=
  match slot with None => Some err | _ => slot end.

Definition notify_read_error (s : Session) (err : SmuxError) : Session :=
  s <| ss_read_error := slot_set (ss_read_error s) err |>.
Definition notify_write_error (s : Session) (err : SmuxError) : Session :=
  s <| ss_write_error := slot_set (ss_write_error s) err |>.
Definition notify_proto_error (s : Session) (err : SmuxError) : Session :=
  s <| ss_proto_error := slot_set (ss_proto_error s) err |>.

Definition return_tokens (s : Session) (n : nat) : Session :=
  s <| ss_bucket := i32 (ss_bucket s + i32 (Z.of_nat n)) |>.

(** [SessionShared::stream_closed]. *)
Definition remove_stream (s : Session) (sid : Z) : Session :=
  s <| ss_streams := delete sid (ss_streams s) |>.

Definition is_closed (s : Session) : bool := ss_closed s.
Definition num_streams (s : Session) : nat := if is_closed s then 0%nat else size (ss_streams s).
Definition recv_failed (s : Session) : bool :=
  match ss_read_error s, ss_proto_error s with None, None => false | _, _ => true end.
Definition recv_starved (s : Session) : bool := ss_bucket s <=? 0.

(** A stream object of the store. *)
Definition get_obj (s : Session) (o : nat) : io StreamInner := unwrap (ss_objs s !! o).
Definition set_obj (s : Session) (o : nat) (t : StreamInner) : Session :=
  s <| ss_objs := <[o := t]> (ss_objs s) |>.

(** ** Opening streams *)

(** The id of a new stream. *)
Definition next_stream (s : Session) : Session * result SmuxError Z :=
  if is_closed s then (s, Err ClosedPipe)
  else if ss_go_away s then (s, Err GoAway)
  else if wadd32 (ss_next_id s) 2 <? ss_next_id s then (s <| ss_go_away := true |>, Err GoAway)
  else let id := wadd32 (ss_next_id s) 2 in (s <| ss_next_id := id |>, Ok id).

Definition syn_frame (s : Session) (sid : Z) : Frame := mkFrame (ss_version s) CMD_SYN sid [].

(** Once the SYN was written: the stream joins the map. *)
Definition register_stream (s : Session) (sid : Z) : Session * result SmuxError nat :=
  match ss_read_error s, ss_write_error s with
  | Some e, _ => (s, Err e)
  | None, Some e => (s, Err e)
  | None, None =>
      if ss_die s then (s, Err ClosedPipe)
      else
        let o := length (ss_objs s) in
        (s <| ss_objs := ss_objs s ++ [stream_new sid (ss_config s)] |>
           <| ss_streams := <[sid := o]> (ss_streams s) |>, Ok o)
  end.

(** [accept_stream] when a stream is there. *)
Definition accept_now (s : Session) : option (nat * Session) :=
  match ss_accepts s with
  | [] => None
  | o :: accepts => Some (o, s <| ss_accepts := accepts |>)
  end.

(** ** Queueing frames: [write_frame_internal] *)

(** The sequence number, taken before the wait for a slot. *)
Definition take_seq (s : Session) : Z * Session :=
  let seq := wadd32 (ss_request_id s) 1 in (seq, s <| ss_request_id := seq |>).

(** The push once a slot is there; [None] while none is. *)
Definition enqueue (s : Session) (class : ClassId) (seq : Z) (frame : Frame) (result : nat) : option (io Session) :=
  match ss_slots s with
  | O => None
  | S slots =>
      Some (q ← shaper_push (ss_shaper s) (mkWriteRequest class (fr_sid frame) seq (mkRequestBody frame result));
            Ok (s <| ss_shaper := q |> <| ss_slots := slots |>))
  end.

(** ** [send_loop] *)

(** The next frame: the bytes handed to the connection and who waits. *)
Definition send_next (s : Session) : io (option (list Z * nat) * Session) :=
  '(req, q) ← shaper_pop (ss_shaper s);
  match req with
  | None => Ok (None, s <| ss_shaper := q |>)
  | Some req =>
      let frame := rb_frame (wr_body req) in
      let header := raw_header_new (fr_ver frame) (fr_cmd frame) (u16 (zlen (fr_data frame))) (fr_sid frame) in
      Ok (Some (header ++ fr_data frame, rb_result (wr_body req)),
          s <| ss_shaper := q |> <| ss_slots := S (ss_slots s) |>)
  end.

(** What the connection said: the payload bytes written for the caller; an error
    also stops the task. *)
Definition send_outcome (s : Session) (written : result SmuxError Z) : result SmuxError Z * Session :=
  match written with
  | Ok n => (Ok (Z.max (n - HEADER_SIZE) 0), s)
  | Err e => (Err e, notify_write_error s e)
  | Panic => (Panic, s)
  end.

(** ** Stream operations that reach the session *)

Definition try_half_close_cleanup (s : Session) (o : nat) : io Session :=
  t ← get_obj s o;
  if negb (st_fin_event t) || negb (st_write_closed t) then Ok s
  else Ok (remove_stream (set_obj s o (snd (close_die t))) (st_id t)).

(** [StreamInner::fin]. *)
Definition stream_fin (s : Session) (o : nat) : io Session :=
  t ← get_obj s o;
  try_half_close_cleanup (set_obj s o (t <| st_fin_event := true |>)) o.

(** [StreamInner::stream_closed]: the tokens of what was never read come back, then the
    stream leaves the map. *)
Definition stream_recycle (s : Session) (o : nat) : io Session :=
  t ← get_obj s o;
  let '(n, t) := recycle_tokens t in
  let s := set_obj s o t in
  Ok (if (0 <? n)%nat then return_tokens s n else s).
Definition stream_closed (s : Session) (o : nat) : io Session :=
  t ← get_obj s o;
  s ← stream_recycle s o;
  Ok (remove_stream s (st_id t)).

(** [close_write] up to the FIN, and after it. *)
Definition close_write_start (s : Session) (o : nat) : io (result SmuxError Frame * Session) :=
  t ← get_obj s o;
  let '(first, t) := close_write_side t in
  if negb first then Ok (Err ClosedPipe, s)
  else Ok (Ok (mkFrame (st_version t) CMD_FIN (st_id t) []), set_obj s o t).

(** [close] up to the FIN; after it [stream_closed]. *)
Definition close_start (s : Session) (o : nat) : io (result SmuxError Frame * Session) :=
  t ← get_obj s o;
  let '(first, t) := close_die t in
  if negb first then Ok (Err ClosedPipe, s)
  else
    let '(_, t) := close_write_side t in
    Ok (Ok (mkFrame (st_version t) CMD_FIN (st_id t) []), set_obj s o t).

(** [Drop for Stream]: as [close], with the tokens returned before the FIN. *)
Definition drop_stream (s : Session) (o : nat) : io (option Frame * Session) :=
  '(started, s) ← close_start s o;
  match started with
  | Ok frame => s ← stream_closed s o; Ok (Some frame, s)
  | _ => Ok (None, s)
  end.

(** [Drop for StreamInner]: the last reference is gone. *)
Definition drop_inner (s : Session) (o : nat) : io Session :=
  t ← get_obj s o;
  let buf := st_buffer t in
  let n := sb_len buf in
  let s := set_obj s o (t <| st_buffer := (buf <| sb_chunks := [] |> <| sb_len := 0%nat |>) |>) in
  Ok (if (0 <? n)%nat then return_tokens s n else s).

(** [try_read] into [blen] bytes, up to the check of [die]: the bytes the reader gets, [None]
    for none, and the window update to send before it returns, 0 for none. *)
Definition try_read_take (s : Session) (o blen : nat) : io (option (list Z) * Z * Session) :=
  t ← get_obj s o;
  '(data, notify, t) ← read_section (ss_config s) t blen;
  let s := set_obj s o t in
  match data with
  | [] => Ok (None, 0, s)
  | _ => Ok (Some data, notify, return_tokens s (length data))
  end.

(** One attempt of [read_chunk], up to the same check: the payload and the update it owes. *)
Definition try_read_chunk (s : Session) (o : nat) : io (option (list Z) * Z * Session) :=
  t ← get_obj s o;
  '(chunk, notify, t) ← pop_chunk (ss_config s) t;
  let s := set_obj s o t in
  match chunk with
  | Some chunk => Ok (Some chunk, notify, return_tokens s (length chunk))
  | None => Ok (None, 0, s)
  end.

(** The rest of either: the answer, from what was taken and the state when [die] is checked.
    The lock of the buffer is free in between, so other steps may come before it. *)
Definition try_read_answer (taken : option (list Z)) (s : Session) (o : nat) : io TryRead :=
  match taken with
  | Some data => Ok (Read data)
  | None => t ← get_obj s o; Ok (if st_die t then Eof else TryWouldBlock)
  end.

(** The writer's step when its frame was written: the stream counts the bytes. *)
Definition write_advance (s : Session) (o : nat) (w : Writer) (f : Frame) : io (Session * Writer) :=
  t ← get_obj s o;
  let '(t, w) := frame_written t w f in
  Ok (set_obj s o t, w).

(** ** [recv_loop] *)

(** One iteration on the bytes that have arrived.  An iteration that needs the rest
    of a frame is tried again from the header: nothing can have taken the tokens or
    changed the verdict on the header meanwhile. *)
Inductive RecvStep :=
| RecvStarved                                       (** waits for tokens *)
| RecvNeed (s : Session)                            (** waits for the rest of a frame *)
| RecvBacklog (s : Session) (o : nat) (input : list Z)  (** waits to hand over a stream *)
| RecvStop (s : Session)                            (** the task ends *)
| RecvNext (s : Session) (input : list Z).

(** [accepts_tx.send]: [None] while the queue is full. *)
Definition accept_send (s : Session) (o : nat) : option Session :=
  if (DEFAULT_ACCEPT_BACKLOG <=? length (ss_accepts s))%nat then None
  else Some (s <| ss_accepts := ss_accepts s ++ [o] |>).

Definition recv_syn (s : Session) (sid : Z) (rest : list Z) : RecvStep :=
  match ss_streams s !! sid with
  | Some _ => RecvNext s rest
  | None =>
      let o := length (ss_objs s) in
      let s := s <| ss_objs := ss_objs s ++ [stream_new sid (ss_config s)] |>
                 <| ss_streams := <[sid := o]> (ss_streams s) |> in
      match accept_send s o with
      | Some s => RecvNext s rest
      | None => RecvBacklog s o rest
      end
  end.

(** Data for a stream that is not in the map is dropped and costs no tokens. *)
Definition recv_psh (s : Session) (sid : Z) (payload : list Z) : io Session :=
  match ss_streams s !! sid with
  | Some o =>
      t ← get_obj s o;
      let s := set_obj s o (push_bytes t payload) in
      Ok (s <| ss_bucket := i32 (ss_bucket s - i32 (zlen payload)) |>)
  | None => Ok s
  end.

Definition recv_upd (s : Session) (sid : Z) (upd : list Z) : io Session :=
  match ss_streams s !! sid with
  | Some o => t ← get_obj s o; Ok (set_obj s o (stream_update t (upd_consumed upd) (upd_window upd)))
  | None => Ok s
  end.

Definition recv_fin (s : Session) (sid : Z) : io Session :=
  match ss_streams s !! sid with
  | Some o => stream_fin s o
  | None => Ok s
  end.

(** The frame whose header is [hdr], at the front of [rest]. *)
Definition recv_frame (s : Session) (hdr rest : list Z) : io RecvStep :=
  let sid := hdr_stream_id hdr in
  let cmd := hdr_cmd hdr in
  let length := Z.to_nat (hdr_length hdr) in
  if cmd =? CMD_NOP then Ok (RecvNext s rest)
  else if cmd =? CMD_SYN then
    Ok (recv_syn s sid rest)
  else if cmd =? CMD_FIN then s ← recv_fin s sid; Ok (RecvNext s rest)
  else if cmd =? CMD_PSH then
    if (length =? 0)%nat then Ok (RecvNext s rest)
    else if (List.length rest <? length)%nat then Ok (RecvNeed s)
    else s ← recv_psh s sid (take length rest); Ok (RecvNext s (drop length rest))
  else if cmd =? CMD_UPD then
    if (List.length rest <? 8)%nat then Ok (RecvNeed s)
    else s ← recv_upd s sid (take 8 rest); Ok (RecvNext s (drop 8 rest))
  else Ok (RecvStop (notify_proto_error s InvalidProtocol)).

Definition recv_step (s : Session) (input : list Z) : io RecvStep :=
  if (ss_bucket s <=? 0) && negb (is_closed s) then Ok RecvStarved
  else
    match raw_header_from_bytes input with
    | None => Ok (RecvNeed s)
    | Some hdr =>
        let s := s <| ss_active := true |> in
        match check_protocol hdr (ss_version s) with
        | Ok _ => recv_frame s hdr (drop 8 input)
        | _ => Ok (RecvStop (notify_proto_error s InvalidProtocol))
        end
    end.

(** ** Closing the session *)

Definition session_close_obj (t : StreamInner) : StreamInner := snd (close_die t).

(** [close_shared]: whether this call closed it; every stream of the map dies. *)
Definition close_shared (s : Session) : bool * Session :=
  if ss_closed s then (false, s)
  else
    let objs := map_fold (fun _ o objs => alter session_close_obj o objs) (ss_objs s) (ss_streams s) in
    (true, s <| ss_closed := true |> <| ss_die := true |> <| ss_streams := ∅ |> <| ss_objs := objs |>).

(** [keepalive]: the frame of a ping, and the tick of the timeout: whether it closes
    the session. *)
Definition nop_frame (s : Session) : Frame := mkFrame (ss_version s) CMD_NOP 0 [].

Definition expiry_tick (s : Session) : bool * Session :=
  if ss_active s then (false, s <| ss_active := false |>)
  else if 0 <? ss_bucket s then close_shared s
  else (false, s).
