(* ===== verification/SmuxInv.v ===== *)
(** * The invariant of a smux session

    [session_step]: one piece of any task or call, with the event a reader or a
    peer sees.  [session_ok]: the tokens account for every byte that is buffered, the
    slots for every frame that is queued, the map refers to streams of the store.  Every
    piece keeps it and none panics. *)
From stdpp Require Import base list gmap.
From Stdlib Require Import ZArith Lia.
From S2P Require Import Prelude Word SmuxFrame Shaper ShaperSpec SmuxStream SmuxSession.
Local Open Scope Z_scope.

(** ** Steps *)

Inductive Event :=
| Received (o : nat) (data : list Z)      (** a payload reached the stream's buffer *)
| Delivered (o : nat) (data : list Z)     (** a reader got bytes *)
| Discarded (o : nat)                     (** what was not read is thrown away *)
| Silent.

(** The payload a frame brings to a stream, as the buffer sees it. *)
Definition recv_event (s : Session) (input : list Z) (s' : Session) : Event :=
  match raw_header_from_bytes input with
  | Some hdr =>
      match ss_streams s !! hdr_stream_id hdr with
      | Some o =>
          if (hdr_cmd hdr =? CMD_PSH) && negb (hdr_length hdr =? 0)
          then Received o (take (Z.to_nat (hdr_length hdr)) (drop 8 input)) else Silent
      | None => Silent
      end
  | None => Silent
  end.

Definition read_event (o : nat) (taken : option (list Z)) : Event :=
  match taken with Some data => Delivered o data | None => Silent end.

Inductive session_step (s : Session) : Event -> Session -> Prop :=
| step_next_stream : session_step s Silent (fst (next_stream s))
| step_register sid : session_step s Silent (fst (register_stream s sid))
| step_accept o s' : accept_now s = Some (o, s') -> session_step s Silent s'
| step_take_seq : session_step s Silent (snd (take_seq s))
| step_enqueue class seq frame result s' :
    enqueue s class seq frame result = Some (Ok s') -> session_step s Silent s'
| step_send sent s' : send_next s = Ok (sent, s') -> session_step s Silent s'
| step_send_outcome written : session_step s Silent (snd (send_outcome s written))
| step_close_write_start o r s' : close_write_start s o = Ok (r, s') -> session_step s Silent s'
| step_half_close o s' : try_half_close_cleanup s o = Ok s' -> session_step s Silent s'
| step_close_start o r s' : close_start s o = Ok (r, s') -> session_step s Silent s'
| step_recycle o s' : stream_recycle s o = Ok s' -> session_step s (Discarded o) s'
| step_remove sid : session_step s Silent (remove_stream s sid)
| step_drop_inner o s' : drop_inner s o = Ok s' -> session_step s (Discarded o) s'
| step_read o blen r notify s' : (0 < blen)%nat ->
    try_read_take s o blen = Ok (r, notify, s') -> session_step s (read_event o r) s'
| step_read_chunk o r notify s' :
    try_read_chunk s o = Ok (r, notify, s') -> session_step s (read_event o r) s'
| step_write_advance o w f s' w' : write_advance s o w f = Ok (s', w') -> session_step s Silent s'
| step_recv_next input s' rest : bytes input ->
    recv_step s input = Ok (RecvNext s' rest) -> session_step s (recv_event s input s') s'
| step_recv_need input s' : bytes input -> recv_step s input = Ok (RecvNeed s') -> session_step s Silent s'
| step_recv_backlog input s' o rest : bytes input ->
    recv_step s input = Ok (RecvBacklog s' o rest) -> session_step s Silent s'
| step_recv_stop input s' : bytes input -> recv_step s input = Ok (RecvStop s') -> session_step s Silent s'
| step_accept_send o s' : accept_send s o = Some s' -> (o < length (ss_objs s))%nat -> session_step s Silent s'
| step_read_error err : session_step s Silent (notify_read_error s err)
| step_close : session_step s Silent (snd (close_shared s))
| step_expiry : session_step s Silent (snd (expiry_tick s)).

Inductive session_run (config : Config) (client : bool) : list Event -> Session -> Prop :=
| run_start : session_run config client [] (session_new config client)
| run_step tr s e s' : session_run config client tr s -> session_step s e s' ->
    session_run config client (tr ++ [e]) s'.

(** Steps from a state of the session on, where any step may follow another. *)
Inductive session_steps (s : Session) : list Event -> Session -> Prop :=
| steps_none : session_steps s [] s
| steps_step tr s1 e s2 : session_steps s tr s1 -> session_step s1 e s2 -> session_steps s (tr ++ [e]) s2.

Lemma run_steps config client tr s tr' s' : session_run config client tr s -> session_steps s tr' s' ->
  session_run config client (tr ++ tr') s'.
Proof.
  intros Hrun. induction 1 as [|tr' s1 e s2 _ IH Hstep]; [by rewrite app_nil_r|]. rewrite app_assoc. by eapply run_step.
Qed.

(** ** The invariant *)

Definition buf_ok (b : StreamBuf) : Prop :=
  sb_len b = length (concat (sb_chunks b)) /\ Forall (fun c => c <> []) (sb_chunks b).

(** All bytes that are buffered. *)
Definition buffered (s : Session) : nat := sum_list ((fun t => sb_len (st_buffer t)) <$> ss_objs s).

Record session_ok (s : Session) : Prop := {
  so_config : config_ok (ss_config s);
  so_bufs : Forall (fun t => buf_ok (st_buffer t)) (ss_objs s);
  so_tokens : ss_bucket s = i32 (cf_max_receive_buffer (ss_config s) - Z.of_nat (buffered s));
  so_bound : ss_closed s = false ->
    Z.of_nat (buffered s) <= cf_max_receive_buffer (ss_config s) + 65534;
  so_map : forall sid o, ss_streams s !! sid = Some o -> exists t, ss_objs s !! o = Some t /\ st_id t = sid;
  so_accepts : Forall (fun o => (o < length (ss_objs s))%nat) (ss_accepts s);
  so_die : ss_die s = ss_closed s;
  so_shaper : exists sched, sq_rep (ss_shaper s) sched;
  so_slots : (ss_slots s + sq_count (ss_shaper s))%nat = MAX_SHAPER_SIZE;
}.

Section Sums.
Context {A : Type} (f : A -> nat).

Lemma sum_list_snoc l x : sum_list (f <$> l ++ [x]) = (sum_list (f <$> l) + f x)%nat.
Proof. induction l as [|y l IH]; cbn in *; lia. Qed.

Lemma sum_list_insert l o x y : l !! o = Some x ->
  (sum_list (f <$> <[o := y]> l) + f x = sum_list (f <$> l) + f y)%nat.
Proof.
  revert o. induction l as [|z l IH]; intros [|o] Ho; try done.
  - injection Ho as ->. change (f y + sum_list (f <$> l) + f x = f x + sum_list (f <$> l) + f y)%nat. lia.
  - specialize (IH o Ho).
    change (f z + sum_list (f <$> <[o := y]> l) + f x = f z + sum_list (f <$> l) + f y)%nat. lia.
Qed.
End Sums.

(** The parts of the state the invariant looks at. *)
Record same_parts (s s' : Session) : Prop := {
  sp_config : ss_config s' = ss_config s;
  sp_bucket : ss_bucket s' = ss_bucket s;
  sp_objs : ss_objs s' = ss_objs s;
  sp_closed : ss_closed s' = ss_closed s;
  sp_die : ss_die s' = ss_die s;
  sp_accepts : ss_accepts s' = ss_accepts s;
  sp_shaper : ss_shaper s' = ss_shaper s;
  sp_slots : ss_slots s' = ss_slots s;
  sp_map : forall sid o, ss_streams s' !! sid = Some o -> ss_streams s !! sid = Some o;
}.

Lemma session_ok_same s s' : session_ok s -> same_parts s s' -> session_ok s'.
Proof.
  intros [] []. unfold buffered in *. split; unfold buffered; rewrite ?sp_config0, ?sp_bucket0, ?sp_objs0,
    ?sp_closed0, ?sp_die0, ?sp_accepts0, ?sp_shaper0, ?sp_slots0; auto.
Qed.

Lemma buffered_set s o t t' : ss_objs s !! o = Some t ->
  (buffered (set_obj s o t') + sb_len (st_buffer t) = buffered s + sb_len (st_buffer t'))%nat.
Proof. intros H. exact (sum_list_insert (fun t => sb_len (st_buffer t)) _ _ _ t' H). Qed.

(** Replacing a stream by one with the same id, the bucket following the bytes. *)
Lemma set_obj_ok s o t t' bucket : session_ok s -> ss_objs s !! o = Some t ->
  st_id t' = st_id t -> buf_ok (st_buffer t') ->
  bucket = i32 (cf_max_receive_buffer (ss_config s) - Z.of_nat (buffered (set_obj s o t'))) ->
  (ss_closed s = false -> Z.of_nat (buffered (set_obj s o t')) <= cf_max_receive_buffer (ss_config s) + 65534) ->
  session_ok ((set_obj s o t') <| ss_bucket := bucket |>).
Proof.
  intros [] Ho Hid Hb Hbucket Hbound. split; cbn; auto.
  - by apply Forall_insert.
  - intros sid o' Hs. destruct (so_map0 _ _ Hs) as (t0 & Ht0 & <-). destruct (decide (o' = o)) as [->|].
    + exists t'. rewrite list_lookup_insert_eq by (by eapply lookup_lt_Some). split; congruence.
    + exists t0. by rewrite list_lookup_insert_ne.
  - by rewrite length_insert.
Qed.

(** The stream keeps as many bytes: nothing to account for. *)
Lemma set_obj_same_len s o t t' : session_ok s -> ss_objs s !! o = Some t -> st_id t' = st_id t ->
  sb_chunks (st_buffer t') = sb_chunks (st_buffer t) -> sb_len (st_buffer t') = sb_len (st_buffer t) ->
  session_ok (set_obj s o t').
Proof.
  intros Hs Ho Hid Hc Hl. pose proof (buffered_set s o t t' Ho) as Hsum.
  assert (E : buffered (set_obj s o t') = buffered s) by lia.
  assert (Hb : buf_ok (st_buffer t')).
  { pose proof (Forall_lookup_1 _ _ _ _ (so_bufs _ Hs) Ho) as [H1 H2]. split; rewrite Hc; [congruence|done]. }
  pose proof (set_obj_ok s o t t' (ss_bucket s) Hs Ho Hid Hb) as H. rewrite E in H.
  specialize (H (so_tokens _ Hs) (so_bound _ Hs)).
  apply (session_ok_same _ _ H). by split.
Qed.

Lemma i32_add a b : i32 (i32 a + b) = i32 (a + b).
Proof. unfold i32. zlia. Qed.
Lemma i32_add_r a b : i32 (a + i32 b) = i32 (a + b).
Proof. unfold i32. zlia. Qed.
Lemma i32_sub_r a b : i32 (a - i32 b) = i32 (a - b).
Proof. unfold i32. zlia. Qed.
Lemma i32_sub_l a b : i32 (i32 a - b) = i32 (a - b).
Proof. unfold i32. zlia. Qed.

(** The stream loses [n] bytes and the session gets [n] tokens back. *)
Lemma set_obj_tokens s o t t' n : session_ok s -> ss_objs s !! o = Some t -> st_id t' = st_id t ->
  buf_ok (st_buffer t') -> (sb_len (st_buffer t') + n = sb_len (st_buffer t))%nat ->
  session_ok (return_tokens (set_obj s o t') n).
Proof.
  intros Hs Ho Hid Hb Hn. pose proof (buffered_set s o t t' Ho) as Hsum.
  apply (set_obj_ok s o t t' _ Hs Ho Hid Hb).
  - change (ss_bucket (set_obj s o t')) with (ss_bucket s).
    rewrite (so_tokens _ Hs), i32_add, i32_add_r. f_equal. lia.
  - intros Hc. pose proof (so_bound _ Hs Hc). lia.
Qed.

(** ** The buffer operations *)

Lemma concat_nonempty_cons (c : list Z) chunks : length (concat (c :: chunks)) = (length c + length (concat chunks))%nat.
Proof. cbn. by rewrite length_app. Qed.

(** A read takes a prefix of what is buffered, and something if anything is. *)
Lemma consume_front_ok b blen : buf_ok b -> exists data b',
  consume_front b blen = Ok (data, b') /\ buf_ok b' /\
  concat (sb_chunks b) = data ++ concat (sb_chunks b') /\ (sb_len b' + length data = sb_len b)%nat /\
  sb_num_read b' = sb_num_read b /\ sb_incr b' = sb_incr b /\
  ((0 < blen)%nat -> data = [] -> sb_chunks b' = []).
Proof.
  intros [Hl Hne]. unfold consume_front. destruct (sb_chunks b) as [|front chunks] eqn:Ec.
  - exists [], b. rewrite Ec. split; [done|]. split; [split; by rewrite Ec|]. cbn. split_and!; done || lia.
  - apply Forall_cons in Hne as [Hf Hne]. rewrite concat_nonempty_cons in Hl. set (n := Nat.min (length front) blen).
    unfold usize_sub. rewrite (proj2 (Nat.leb_le _ _)) by lia. cbn [mbind result_bind].
    eexists _, _. split; [reflexivity|]. unfold buf_ok. cbn.
    assert (Hd : concat (match drop n front with [] => chunks | _ => drop n front :: chunks end)
                 = drop n front ++ concat chunks) by by destruct (drop n front).
    rewrite Hd, app_assoc, take_drop, !length_app, length_drop, length_take. split_and!; try done; try lia.
    + destruct (drop n front) eqn:Edrop; [done|]. by constructor.
    + intros Hb Ht. exfalso. apply Hf. apply nil_length_inv. apply (f_equal length) in Ht.
      rewrite length_take in Ht. cbn in Ht. lia.
Qed.

Lemma buf_pop_ok b : buf_ok b -> exists chunk b', buf_pop b = Ok (chunk, b') /\ buf_ok b' /\
  concat (sb_chunks b) = default [] chunk ++ concat (sb_chunks b') /\
  (sb_len b' + length (default [] chunk) = sb_len b)%nat /\
  sb_num_read b' = sb_num_read b /\ sb_incr b' = sb_incr b /\
  match chunk with Some c => c <> [] | None => sb_chunks b' = [] end.
Proof.
  intros [Hl Hne]. unfold buf_pop. destruct (sb_chunks b) as [|chunk chunks] eqn:Ec.
  - exists None, b. rewrite Ec. split; [done|]. split; [split; by rewrite Ec|]. cbn. split_and!; done || lia.
  - apply Forall_cons in Hne as [Hf Hne]. rewrite concat_nonempty_cons in Hl. unfold usize_sub.
    rewrite (proj2 (Nat.leb_le _ _)) by lia. cbn [mbind result_bind].
    eexists (Some chunk), _. split; [reflexivity|]. unfold buf_ok. cbn. split_and!; try done; lia.
Qed.

(** The accounting touches only the counters. *)
Lemma account_read_parts b n w : sb_chunks (snd (account_read b n w)) = sb_chunks b /\
  sb_len (snd (account_read b n w)) = sb_len b.
Proof. unfold account_read. by destruct (_ || _). Qed.

Lemma buf_ok_parts b b' : buf_ok b -> sb_chunks b' = sb_chunks b -> sb_len b' = sb_len b -> buf_ok b'.
Proof. intros [H1 H2] Ec El. split; rewrite Ec; [congruence|done]. Qed.

Lemma push_bytes_ok t data : buf_ok (st_buffer t) -> data <> [] -> buf_ok (st_buffer (push_bytes t data)).
Proof.
  intros [H1 H2] Hd. split; cbn.
  - rewrite concat_app, length_app, <- H1. cbn. rewrite app_nil_r. done.
  - apply Forall_app. split; [done|by constructor].
Qed.

(** The pieces of a read, with the accounting. *)
Lemma read_section_ok config t blen : buf_ok (st_buffer t) -> exists data notify t',
  read_section config t blen = Ok (data, notify, t') /\ buf_ok (st_buffer t') /\ st_id t' = st_id t /\
  st_die t' = st_die t /\
  concat (sb_chunks (st_buffer t)) = data ++ concat (sb_chunks (st_buffer t')) /\
  (sb_len (st_buffer t') + length data = sb_len (st_buffer t))%nat /\
  ((0 < blen)%nat -> data = [] -> sb_chunks (st_buffer t') = []).
Proof.
  intros Hb. destruct (consume_front_ok _ blen Hb) as (data & b & E & Hb' & Hc & Hl & _ & _ & Hnil).
  unfold read_section. rewrite E. cbn [mbind result_bind]. destruct (cf_version config =? 2).
  - destruct (account_read_parts b (length data) (cf_max_stream_buffer config)) as [Ec El].
    destruct (account_read b _ _) as [notify b']. cbn [snd] in *. eexists _, _, _. split; [reflexivity|].
    cbn. rewrite Ec, El. split_and!; try done. by apply (buf_ok_parts b).
  - eexists _, _, _. split; [reflexivity|]. cbn. done.
Qed.

Lemma pop_chunk_ok config t : buf_ok (st_buffer t) -> exists chunk notify t',
  pop_chunk config t = Ok (chunk, notify, t') /\ buf_ok (st_buffer t') /\ st_id t' = st_id t /\
  st_die t' = st_die t /\
  concat (sb_chunks (st_buffer t)) = default [] chunk ++ concat (sb_chunks (st_buffer t')) /\
  (sb_len (st_buffer t') + length (default [] chunk) = sb_len (st_buffer t))%nat /\
  match chunk with Some c => c <> [] | None => sb_chunks (st_buffer t') = [] end.
Proof.
  intros Hb. destruct (buf_pop_ok _ Hb) as (chunk & b & E & Hb' & Hc & Hl & _ & _ & Hnil).
  unfold pop_chunk. rewrite E. cbn [mbind result_bind]. destruct (cf_version config =? 2).
  - set (n := match chunk with Some c => _ | None => _ end).
    destruct (account_read_parts b n (cf_max_stream_buffer config)) as [Ec El].
    destruct (account_read b n _) as [notify b']. cbn [snd] in *. eexists _, _, _. split; [reflexivity|].
    cbn. rewrite Ec, El. split_and!; try done. by apply (buf_ok_parts b).
  - eexists _, _, _. split; [reflexivity|]. cbn. done.
Qed.
