(* ===== verification/SmuxRun.v ===== *)
(** * Every piece of a smux session keeps the invariant

    Each piece succeeds on the streams of the store, keeps [session_ok], and changes
    what the streams hold by exactly the event it shows. *)
From stdpp Require Import base list gmap.
From Stdlib Require Import ZArith Lia.
From S2P Require Import Prelude Word SmuxFrame Shaper ShaperSpec SmuxStream SmuxSession SmuxInv.
Local Open Scope Z_scope.

(** The bytes a stream holds. *)
Definition contents (s : Session) (o : nat) : list Z :=
  match ss_objs s !! o with Some t => concat (sb_chunks (st_buffer t)) | None => [] end.

Definition received (o : nat) (e : Event) : list Z :=
  match e with Received o' data => if decide (o' = o) then data else [] | _ => [] end.
Definition delivered (o : nat) (e : Event) : list Z :=
  match e with Delivered o' data => if decide (o' = o) then data else [] | _ => [] end.

(** The event accounts for the change. *)
Definition accounts (s : Session) (e : Event) (s' : Session) : Prop :=
  forall o, e <> Discarded o -> contents s o ++ received o e = delivered o e ++ contents s' o.

(** The piece keeps the invariant and its event accounts for it. *)
Definition good (s : Session) (e : Event) (s' : Session) : Prop := session_ok s' /\ accounts s e s'.

Lemma accounts_objs s s' : (forall o, contents s' o = contents s o) -> accounts s Silent s'.
Proof. intros H o _. cbn. by rewrite app_nil_r, H. Qed.

Lemma good_same s s' : session_ok s -> same_parts s s' -> good s Silent s'.
Proof.
  intros Hs Hp. split; [by apply (session_ok_same s)|]. apply accounts_objs. intros o.
  unfold contents. by rewrite (sp_objs _ _ Hp).
Qed.

Lemma good_after s s1 s2 : good s Silent s1 -> good s1 Silent s2 -> good s Silent s2.
Proof.
  intros [_ A1] [H2 A2]. split; [done|]. intros o Hd. specialize (A1 o Hd). specialize (A2 o Hd). cbn in *.
  rewrite app_nil_r in *. congruence.
Qed.

Lemma contents_set s o t t' o' : ss_objs s !! o = Some t ->
  contents (set_obj s o t') o' = if decide (o' = o) then concat (sb_chunks (st_buffer t')) else contents s o'.
Proof.
  intros Ho. unfold contents. cbn. destruct (decide (o' = o)) as [->|].
  - by rewrite list_lookup_insert_eq by by eapply lookup_lt_Some.
  - by rewrite list_lookup_insert_ne.
Qed.

Lemma contents_at s o t : ss_objs s !! o = Some t -> contents s o = concat (sb_chunks (st_buffer t)).
Proof. unfold contents. by intros ->. Qed.

(** A stream whose bytes stay. *)
Lemma set_obj_good s o t t' : session_ok s -> ss_objs s !! o = Some t -> st_id t' = st_id t ->
  st_buffer t' = st_buffer t -> good s Silent (set_obj s o t').
Proof.
  intros Hs Ho Hid Hb. split.
  - apply (set_obj_same_len s o t); try done; by rewrite Hb.
  - apply accounts_objs. intros o'. rewrite (contents_set _ _ _ _ _ Ho). destruct (decide (o' = o)) as [->|]; [|done].
    by rewrite Hb, (contents_at _ _ _ Ho).
Qed.

Lemma remove_good s sid : session_ok s -> good s Silent (remove_stream s sid).
Proof.
  intros Hs. apply good_same; [done|]. split; try done. cbn. intros x o [_ H]%lookup_delete_Some. done.
Qed.

Lemma has_obj s o : (o < length (ss_objs s))%nat -> exists t, ss_objs s !! o = Some t.
Proof. intros H. by apply lookup_lt_is_Some_2 in H. Qed.

(** ** The stream operations *)

Lemma half_close_ok s o t : session_ok s -> ss_objs s !! o = Some t ->
  exists s', try_half_close_cleanup s o = Ok s' /\ good s Silent s'.
Proof.
  intros Hs Ho. unfold try_half_close_cleanup, get_obj. rewrite Ho. cbn [unwrap mbind result_bind].
  destruct (_ || _); eexists; (split; [reflexivity|]); [by apply good_same|].
  assert (Hg : good s Silent (set_obj s o (snd (close_die t)))).
  { apply (set_obj_good s o t); try done; unfold close_die; by destruct (st_die_once t). }
  apply (good_after _ _ _ Hg). apply remove_good, Hg.
Qed.

Lemma stream_fin_ok s o t : session_ok s -> ss_objs s !! o = Some t ->
  exists s', stream_fin s o = Ok s' /\ good s Silent s'.
Proof.
  intros Hs Ho. unfold stream_fin, get_obj. rewrite Ho. cbn [unwrap mbind result_bind].
  set (s1 := set_obj s o (t <| st_fin_event := true |>)).
  assert (Hg : good s Silent s1) by by apply (set_obj_good s o t).
  destruct (half_close_ok s1 o (t <| st_fin_event := true |>)) as (s2 & E & Hg2); [apply Hg| |].
  { cbn. apply list_lookup_insert_eq. by eapply lookup_lt_Some. }
  exists s2. split; [exact E|]. by apply (good_after s s1).
Qed.

Lemma close_write_start_ok s o t : session_ok s -> ss_objs s !! o = Some t ->
  exists r s', close_write_start s o = Ok (r, s') /\ good s Silent s'.
Proof.
  intros Hs Ho. unfold close_write_start, get_obj, close_write_side. rewrite Ho. cbn [unwrap mbind result_bind].
  destruct (st_write_closed_once t); cbn [negb]; eexists _, _; (split; [reflexivity|]);
    [by apply good_same|by apply (set_obj_good s o t)].
Qed.

Lemma close_start_ok s o t : session_ok s -> ss_objs s !! o = Some t ->
  exists r s', close_start s o = Ok (r, s') /\ good s Silent s' /\ length (ss_objs s') = length (ss_objs s).
Proof.
  intros Hs Ho. unfold close_start, get_obj, close_die, close_write_side. rewrite Ho. cbn [unwrap mbind result_bind].
  destruct (st_die_once t); cbn [negb].
  - eexists _, _. split; [reflexivity|]. split; [by apply good_same|done].
  - destruct (st_write_closed_once _); eexists _, _; (split; [reflexivity|]);
      (split; [by apply (set_obj_good s o t)|cbn; apply length_insert]).
Qed.

(** Throwing away what a stream holds gives its tokens back. *)
Lemma discard_ok s o t : session_ok s -> ss_objs s !! o = Some t ->
  let buf := st_buffer t in
  let t' := t <| st_buffer := (buf <| sb_chunks := [] |> <| sb_len := 0%nat |>) |> in
  good s (Discarded o) (if (0 <? sb_len buf)%nat then return_tokens (set_obj s o t') (sb_len buf) else set_obj s o t').
Proof.
  intros Hs Ho buf t'.
  assert (Hacc : accounts s (Discarded o) (set_obj s o t')).
  { intros o' Hne. rewrite (contents_set _ _ _ _ _ Ho), decide_False by (intros ->; done). cbn. by rewrite app_nil_r. }
  destruct (Nat.ltb_spec 0 (sb_len buf)).
  - split; [|exact Hacc]. by apply (set_obj_tokens s o t).
  - split; [|exact Hacc]. pose proof (Forall_lookup_1 _ _ _ _ (so_bufs _ Hs) Ho) as [H1 H2]. fold buf in H1, H2.
    apply (set_obj_same_len s o t); try done; cbn; fold buf; [|lia].
    assert (length (concat (sb_chunks buf)) = 0%nat) as H0 by lia. destruct (sb_chunks buf) as [|c cs]; [done|].
    apply Forall_cons in H2 as [Hc _]. rewrite concat_nonempty_cons in H0. destruct c; [done|cbn in H0; lia].
Qed.

Lemma stream_recycle_ok s o t : session_ok s -> ss_objs s !! o = Some t ->
  exists s', stream_recycle s o = Ok s' /\ good s (Discarded o) s'.
Proof.
  intros Hs Ho. unfold stream_recycle, get_obj, recycle_tokens. rewrite Ho. cbn [unwrap mbind result_bind].
  eexists. split; [reflexivity|]. apply (discard_ok s o t Hs Ho).
Qed.

Lemma stream_closed_ok s o t : session_ok s -> ss_objs s !! o = Some t ->
  exists s', stream_closed s o = Ok s' /\ good s (Discarded o) s'.
Proof.
  intros Hs Ho. unfold stream_closed, get_obj. rewrite Ho. cbn [unwrap mbind result_bind].
  destruct (stream_recycle_ok s o t Hs Ho) as (s1 & -> & Hok & Hacc). cbn [mbind result_bind].
  eexists. split; [reflexivity|]. split; [by apply remove_good|exact Hacc].
Qed.

Lemma drop_inner_ok s o t : session_ok s -> ss_objs s !! o = Some t ->
  exists s', drop_inner s o = Ok s' /\ good s (Discarded o) s'.
Proof.
  intros Hs Ho. unfold drop_inner, get_obj. rewrite Ho. cbn [unwrap mbind result_bind].
  eexists. split; [reflexivity|]. apply (discard_ok s o t Hs Ho).
Qed.

(** ** Reading *)

Lemma delivered_good s o t t' data : session_ok s -> ss_objs s !! o = Some t -> st_id t' = st_id t ->
  buf_ok (st_buffer t') -> concat (sb_chunks (st_buffer t)) = data ++ concat (sb_chunks (st_buffer t')) ->
  (sb_len (st_buffer t') + length data = sb_len (st_buffer t))%nat ->
  good s (Delivered o data) (return_tokens (set_obj s o t') (length data)).
Proof.
  intros Hs Ho Hid Hb Hc Hl. split; [by apply (set_obj_tokens s o t)|]. intros o' _. cbn [received delivered].
  change (contents (return_tokens (set_obj s o t') (length data)) o') with (contents (set_obj s o t') o').
  rewrite app_nil_r, (contents_set _ _ _ _ _ Ho). destruct (decide (o = o')) as [<-|].
  - by rewrite decide_True, (contents_at _ _ _ Ho), Hc.
  - by rewrite decide_False by done.
Qed.

Lemma empty_read_good s o t t' : session_ok s -> ss_objs s !! o = Some t -> st_id t' = st_id t ->
  buf_ok (st_buffer t') -> concat (sb_chunks (st_buffer t)) = concat (sb_chunks (st_buffer t')) ->
  sb_len (st_buffer t') = sb_len (st_buffer t) -> good s Silent (set_obj s o t').
Proof.
  intros Hs Ho Hid Hb Hc Hl. pose proof (delivered_good s o t t' [] Hs Ho Hid Hb Hc ltac:(cbn; lia)) as [Hok Hacc].
  split.
  - apply (session_ok_same _ _ Hok). split; try done. cbn. rewrite Z.add_0_r.
    unfold return_tokens. change (ss_bucket (set_obj s o t')) with (ss_bucket s).
    rewrite (so_tokens _ Hs). cbn. unfold i32. zlia.
  - intros o' _. specialize (Hacc o' ltac:(done)). cbn in *. by destruct (decide (o = o')).
Qed.

(** A look at an empty buffer. *)
Lemma empty_read_section s o t t' : session_ok s -> ss_objs s !! o = Some t -> st_id t' = st_id t ->
  buf_ok (st_buffer t') -> concat (sb_chunks (st_buffer t)) = [] -> concat (sb_chunks (st_buffer t')) = [] ->
  sb_len (st_buffer t') = sb_len (st_buffer t) ->
  good s Silent (set_obj s o t') /\ contents s o = [] /\ contents (set_obj s o t') o = [] /\ 0 = 0.
Proof.
  intros Hs Ho Hid Hb Hc Hc' Hl. split_and!; [|by rewrite (contents_at _ _ _ Ho)| |done].
  - apply (empty_read_good s o t); try done. congruence.
  - by rewrite (contents_set _ _ _ _ _ Ho), decide_True.
Qed.

(** A reader gets the next bytes of the stream, and none only when the buffer is empty. *)
Lemma try_read_ok s o t blen : session_ok s -> ss_objs s !! o = Some t -> (0 < blen)%nat ->
  exists r notify s', try_read_take s o blen = Ok (r, notify, s') /\ good s (read_event o r) s' /\
    match r with
    | Some data => data <> []
    | None => contents s o = [] /\ contents s' o = [] /\ notify = 0
    end.
Proof.
  intros Hs Ho Hb. pose proof (Forall_lookup_1 _ _ _ _ (so_bufs _ Hs) Ho) as Hbuf.
  unfold try_read_take, get_obj. rewrite Ho. cbn [unwrap mbind result_bind].
  destruct (read_section_ok (ss_config s) t blen Hbuf) as (data & notify & t' & E & Hbuf' & Hid & Hdie & Hc & Hl & Hnil).
  rewrite E. cbn [mbind result_bind]. destruct data as [|b data].
  - specialize (Hnil Hb eq_refl). rewrite Hnil in Hc.
    eexists _, _, _. split; [reflexivity|]. apply (empty_read_section s o t t'); [done|done|done|done|by rewrite Hc|by rewrite Hnil|cbn in Hl; lia].
  - eexists _, _, _. split; [reflexivity|]. split; [by apply (delivered_good s o t)|done].
Qed.

Lemma try_read_chunk_ok s o t : session_ok s -> ss_objs s !! o = Some t ->
  exists r notify s', try_read_chunk s o = Ok (r, notify, s') /\ good s (read_event o r) s' /\
    match r with
    | Some data => data <> []
    | None => contents s o = [] /\ contents s' o = [] /\ notify = 0
    end.
Proof.
  intros Hs Ho. pose proof (Forall_lookup_1 _ _ _ _ (so_bufs _ Hs) Ho) as Hbuf.
  unfold try_read_chunk, get_obj. rewrite Ho. cbn [unwrap mbind result_bind].
  destruct (pop_chunk_ok (ss_config s) t Hbuf) as (chunk & notify & t' & E & Hbuf' & Hid & Hdie & Hc & Hl & Hnil).
  rewrite E. cbn [mbind result_bind]. destruct chunk as [chunk|]; cbn [default] in *.
  - eexists _, _, _. split; [reflexivity|]. split; [by apply (delivered_good s o t)|done].
  - rewrite Hnil in Hc. eexists _, _, _. split; [reflexivity|].
    apply (empty_read_section s o t t'); [done|done|done|done|by rewrite Hc|by rewrite Hnil|cbn in Hl; lia].
Qed.

Lemma write_advance_ok s o t w f : session_ok s -> ss_objs s !! o = Some t ->
  exists s' w', write_advance s o w f = Ok (s', w') /\ good s Silent s'.
Proof.
  intros Hs Ho. unfold write_advance, get_obj. rewrite Ho. cbn [unwrap mbind result_bind frame_written].
  eexists _, _. split; [reflexivity|]. by apply (set_obj_good s o t).
Qed.

(** ** Opening streams *)

(** A new stream object, empty, that the map may now refer to. *)
Lemma new_stream_good s sid : session_ok s ->
  good s Silent (s <| ss_objs := ss_objs s ++ [stream_new sid (ss_config s)] |>
                   <| ss_streams := <[sid := length (ss_objs s)]> (ss_streams s) |>).
Proof.
  intros Hs. assert (E : forall m, buffered (s <| ss_objs := ss_objs s ++ [stream_new sid (ss_config s)] |>
    <| ss_streams := m |>) = buffered s) by (intros m; unfold buffered; cbn; rewrite sum_list_snoc; cbn; lia).
  split; [destruct Hs as [???? Hmap Hacc ???]; split; rewrite ?E; cbn; auto|].
  - apply Forall_app. split; [done|]. constructor; [|done]. by split.
  - intros sid' o [[<- <-]|[_ Ho]]%lookup_insert_Some.
    + exists (stream_new sid (ss_config s)). split; [|done]. by rewrite lookup_app_r, Nat.sub_diag by lia.
    + destruct (Hmap _ _ Ho) as (t & Ht & Hid). exists t. split; [|done]. by apply lookup_app_l_Some.
  - apply (Forall_impl _ _ _ Hacc). intros o. rewrite length_app. lia.
  - apply accounts_objs. intros o. unfold contents. cbn.
    destruct (Nat.lt_trichotomy o (length (ss_objs s))) as [H|[->|H]].
    + by rewrite lookup_app_l.
    + by rewrite lookup_app_r, Nat.sub_diag, (lookup_ge_None_2 (ss_objs s)) by lia.
    + rewrite !lookup_ge_None_2; [done|lia|rewrite length_app; cbn; lia].
Qed.

Lemma next_stream_good s : session_ok s -> good s Silent (fst (next_stream s)).
Proof. intros Hs. apply good_same; [done|]. unfold next_stream. repeat case_match; by split. Qed.

Lemma register_good s sid : session_ok s -> good s Silent (fst (register_stream s sid)).
Proof.
  intros Hs. unfold register_stream. repeat case_match; try (by apply good_same). by apply new_stream_good.
Qed.

Lemma with_accepts_good s accepts : session_ok s -> Forall (fun o => (o < length (ss_objs s))%nat) accepts ->
  good s Silent (s <| ss_accepts := accepts |>).
Proof. intros [] Ha. split; [by split|]. by apply accounts_objs. Qed.

Lemma accept_now_good s o s' : session_ok s -> accept_now s = Some (o, s') -> good s Silent s'.
Proof.
  intros Hs. unfold accept_now. destruct (ss_accepts s) as [|o' rest] eqn:E; [done|]. injection 1 as <- <-.
  apply with_accepts_good; [done|]. pose proof (so_accepts _ Hs) as H. rewrite E in H. by apply Forall_cons in H as [_ H].
Qed.

Lemma accept_send_good s o s' : session_ok s -> accept_send s o = Some s' -> (o < length (ss_objs s))%nat ->
  good s Silent s'.
Proof.
  intros Hs E Ho. unfold accept_send in E. destruct (_ <=? _)%nat; [done|]. injection E as <-.
  apply with_accepts_good; [done|]. apply Forall_app. split; [apply Hs|]. by constructor.
Qed.

(** ** The queue of frames *)

Lemma with_shaper_good s q slots : session_ok s -> (exists sched, sq_rep q sched) ->
  (slots + sq_count q)%nat = MAX_SHAPER_SIZE -> good s Silent (s <| ss_shaper := q |> <| ss_slots := slots |>).
Proof. intros [] Hq Hn. split; [by split|]. by apply accounts_objs. Qed.

Lemma enqueue_ok s class seq frame result slots : session_ok s -> ss_slots s = S slots ->
  exists s', enqueue s class seq frame result = Some (Ok s') /\ good s Silent s'.
Proof.
  intros Hs Hn. destruct (so_shaper _ Hs) as (sched & Hq). unfold enqueue. rewrite Hn.
  destruct (push_refines _ _ (mkWriteRequest class (fr_sid frame) seq (mkRequestBody frame result)) Hq) as (q & -> & Hq').
  cbn [mbind result_bind]. eexists. split; [reflexivity|]. apply with_shaper_good; [done|by eexists|].
  pose proof (so_slots _ Hs) as Hslots. rewrite Hn, (sq_cnt _ _ Hq) in Hslots. rewrite (sq_cnt _ _ Hq').
  pose proof (sched_push_pending sched (mkWriteRequest class (fr_sid frame) seq (mkRequestBody frame result))) as Hp.
  apply Permutation_length in Hp. cbn in Hp. lia.
Qed.

Lemma send_next_ok s : session_ok s -> exists sent s', send_next s = Ok (sent, s') /\ good s Silent s'.
Proof.
  intros Hs. destruct (so_shaper _ Hs) as (sched & Hq). unfold send_next.
  destruct (pop_refines _ _ Hq) as (q & -> & Hq'). cbn [mbind result_bind].
  pose proof (sched_pop_pending sched (sq_sched _ _ Hq)) as Hp.
  pose proof (so_slots _ Hs) as Hslots. rewrite (sq_cnt _ _ Hq) in Hslots.
  destruct (sched_pop sched) as [[req sched']|]; cbn [fmap option_fmap option_map fst].
  - eexists _, _. split; [reflexivity|]. apply with_shaper_good; [done|by eexists|].
    apply Permutation_length in Hp. cbn in Hp. rewrite (sq_cnt _ _ Hq'). lia.
  - eexists _, _. split; [reflexivity|].
    apply (with_shaper_good s q (ss_slots s)); [done|by eexists|]. rewrite (sq_cnt _ _ Hq'). done.
Qed.

Lemma send_outcome_good s written : session_ok s -> good s Silent (snd (send_outcome s written)).
Proof. intros Hs. apply good_same; [done|]. by destruct written. Qed.

(** ** Receiving *)

Lemma push_bytes_good s o t data : session_ok s -> ss_objs s !! o = Some t -> data <> [] ->
  zlen data <= 65535 -> (0 < ss_bucket s \/ ss_closed s = true) ->
  good s (Received o data) ((set_obj s o (push_bytes t data)) <| ss_bucket := i32 (ss_bucket s - i32 (zlen data)) |>).
Proof.
  intros Hs Ho Hne Hlen Hb. pose proof (Forall_lookup_1 _ _ _ _ (so_bufs _ Hs) Ho) as Hbuf.
  pose proof (buffered_set s o t (push_bytes t data) Ho) as Hsum.
  change (sb_len (st_buffer (push_bytes t data))) with (sb_len (st_buffer t) + length data)%nat in Hsum.
  unfold zlen in *. split.
  - apply (set_obj_ok s o t); [done..|by apply push_bytes_ok| |].
    + rewrite (so_tokens _ Hs), i32_sub_r, i32_sub_l. f_equal. lia.
    + intros Hc. destruct Hb as [Hb|Hb]; [|congruence]. pose proof (so_bound _ Hs Hc) as Hbound.
      destruct (so_config _ Hs) as (_ & _ & _ & _ & Hmax). rewrite (so_tokens _ Hs) in Hb.
      rewrite i32_id in Hb by (unfold is_i32; lia). lia.
  - intros o' _. change (contents _ o') with (contents (set_obj s o (push_bytes t data)) o') at 2.
    rewrite (contents_set _ _ _ _ _ Ho). cbn [received delivered]. destruct (decide (o = o')) as [<-|Hne'].
    + rewrite decide_True, (contents_at _ _ _ Ho) by done. cbn. by rewrite concat_app; cbn; rewrite app_nil_r.
    + by rewrite decide_False, app_nil_r.
Qed.

Lemma recv_upd_ok s sid upd : session_ok s -> exists s', recv_upd s sid upd = Ok s' /\ good s Silent s'.
Proof.
  intros Hs. unfold recv_upd, get_obj. destruct (ss_streams s !! sid) as [o|] eqn:E.
  - destruct (so_map _ Hs _ _ E) as (t & Ht & _). rewrite Ht. cbn [unwrap mbind result_bind].
    eexists. split; [reflexivity|]. by apply (set_obj_good s o t).
  - eexists. split; [reflexivity|]. by apply good_same.
Qed.

Lemma recv_fin_ok s sid : session_ok s -> exists s', recv_fin s sid = Ok s' /\ good s Silent s'.
Proof.
  intros Hs. unfold recv_fin. destruct (ss_streams s !! sid) as [o|] eqn:E.
  - destruct (so_map _ Hs _ _ E) as (t & Ht & _). by apply (stream_fin_ok s o t).
  - eexists. split; [reflexivity|]. by apply good_same.
Qed.

Lemma recv_psh_ok s sid payload : session_ok s -> payload <> [] -> zlen payload <= 65535 ->
  (0 < ss_bucket s \/ ss_closed s = true) ->
  exists s', recv_psh s sid payload = Ok s' /\
    good s (match ss_streams s !! sid with Some o => Received o payload | None => Silent end) s'.
Proof.
  intros Hs Hne Hlen Hb. unfold recv_psh, get_obj. destruct (ss_streams s !! sid) as [o|] eqn:E.
  - destruct (so_map _ Hs _ _ E) as (t & Ht & _). rewrite Ht. cbn [unwrap mbind result_bind].
    eexists. split; [reflexivity|]. exact (push_bytes_good s o t payload Hs Ht Hne Hlen Hb).
  - eexists. split; [reflexivity|]. by apply good_same.
Qed.

Lemma recv_syn_good s sid rest : session_ok s ->
  match recv_syn s sid rest with
  | RecvNext s' _ | RecvBacklog s' _ _ => good s Silent s'
  | _ => False
  end.
Proof.
  intros Hs. unfold recv_syn. destruct (ss_streams s !! sid) eqn:E; [by apply good_same|].
  pose proof (new_stream_good s sid Hs) as Hg.
  match goal with |- context [accept_send ?x _] => set (s1 := x) in * end.
  destruct (accept_send s1 _) as [s2|] eqn:Ea; [|done]. apply (good_after _ _ _ Hg).
  eapply accept_send_good; [apply Hg|exact Ea|]. unfold s1. cbn. rewrite length_app. cbn. lia.
Qed.

(** The state an iteration leaves. *)
Definition recv_state (s : Session) (r : RecvStep) : Session :=
  match r with
  | RecvStarved => s
  | RecvNeed s' | RecvBacklog s' _ _ | RecvStop s' | RecvNext s' _ => s'
  end.

Definition recv_silent (r : RecvStep) : bool := match r with RecvNext _ _ => false | _ => true end.

(** What an iteration on the header [hdr] shows. *)
Definition frame_event (s : Session) (hdr rest : list Z) : Event :=
  match ss_streams s !! hdr_stream_id hdr with
  | Some o => if (hdr_cmd hdr =? CMD_PSH) && negb (hdr_length hdr =? 0)
              then Received o (take (Z.to_nat (hdr_length hdr)) rest) else Silent
  | None => Silent
  end.

Lemma hdr_length_bound hdr : bytes hdr -> 0 <= hdr_length hdr <= 65535.
Proof.
  intros Hb. unfold hdr_length. set (l := take 2 (drop 2 hdr)).
  assert (Hl : bytes l) by by apply Forall_take, Forall_drop.
  pose proof (le_val_range l Hl) as H.
  assert (Hlen : (length l <= 2)%nat) by (unfold l; rewrite length_take; lia).
  assert (256 ^ Z.of_nat (length l) <= 256 ^ 2) by (apply Z.pow_le_mono_r; lia). lia.
Qed.

Lemma recv_frame_ok s hdr rest : session_ok s -> bytes hdr -> (0 < ss_bucket s \/ ss_closed s = true) ->
  exists r, recv_frame s hdr rest = Ok r /\
    good s (if recv_silent r then Silent else frame_event s hdr rest) (recv_state s r).
Proof.
  intros Hs Hh Hb. pose proof (hdr_length_bound hdr Hh) as Hl. unfold recv_frame.
  assert (Hsame : good s Silent s) by by apply good_same.
  assert (Hev : hdr_cmd hdr <> CMD_PSH -> frame_event s hdr rest = Silent).
  { intros Hc. unfold frame_event. rewrite (proj2 (Z.eqb_neq _ _) Hc). by case_match. }
  destruct (Z.eqb_spec (hdr_cmd hdr) CMD_NOP) as [Hc|_].
  { eexists. split; [reflexivity|]. cbn. by rewrite Hev by (rewrite Hc; done). }
  destruct (Z.eqb_spec (hdr_cmd hdr) CMD_SYN) as [Hc|_].
  { eexists. split; [reflexivity|]. rewrite Hev by (rewrite Hc; done).
    pose proof (recv_syn_good s (hdr_stream_id hdr) rest Hs) as H. by destruct (recv_syn _ _ _). }
  destruct (Z.eqb_spec (hdr_cmd hdr) CMD_FIN) as [Hc|_].
  { destruct (recv_fin_ok s (hdr_stream_id hdr) Hs) as (s' & -> & Hg). cbn [mbind result_bind].
    eexists. split; [reflexivity|]. cbn. by rewrite Hev by (rewrite Hc; done). }
  destruct (Z.eqb_spec (hdr_cmd hdr) CMD_PSH) as [Hc|Hc].
  { unfold frame_event. rewrite Hc, Z.eqb_refl.
    destruct (Nat.eqb_spec (Z.to_nat (hdr_length hdr)) 0).
    { eexists. split; [reflexivity|]. cbn. rewrite (proj2 (Z.eqb_eq _ _)) by lia. by case_match. }
    destruct (Nat.ltb_spec (length rest) (Z.to_nat (hdr_length hdr))); [by eexists; split; [reflexivity|]|].
    destruct (recv_psh_ok s (hdr_stream_id hdr) (take (Z.to_nat (hdr_length hdr)) rest)) as (s' & -> & Hg);
      [done| | |done|].
    - intros Ht. apply (f_equal length) in Ht. rewrite length_take in Ht. cbn in Ht. lia.
    - unfold zlen. rewrite length_take. lia.
    - cbn [mbind result_bind]. eexists. split; [reflexivity|]. cbn. by rewrite (proj2 (Z.eqb_neq _ _)) by lia. }
  destruct (Z.eqb_spec (hdr_cmd hdr) CMD_UPD).
  { destruct (_ <? _)%nat; [by eexists; split; [reflexivity|]|].
    destruct (recv_upd_ok s (hdr_stream_id hdr) (take 8 rest) Hs) as (s' & -> & Hg). cbn [mbind result_bind].
    eexists. split; [reflexivity|]. cbn. by rewrite Hev. }
  eexists. split; [reflexivity|]. cbn. by apply good_same.
Qed.

Lemma recv_step_ok s input : session_ok s -> bytes input ->
  exists r, recv_step s input = Ok r /\
    good s (if recv_silent r then Silent else recv_event s input (recv_state s r)) (recv_state s r).
Proof.
  intros Hs Hi. unfold recv_step, recv_event. assert (Hsame : good s Silent s) by by apply good_same.
  destruct ((ss_bucket s <=? 0) && negb (is_closed s)) eqn:Hstarved; [by eexists; split; [reflexivity|]|].
  destruct (raw_header_from_bytes input) as [hdr|] eqn:E; [|by eexists; split; [reflexivity|]].
  set (s1 := s <| ss_active := true |>). assert (Hg1 : good s Silent s1) by by apply good_same.
  assert (Hhdr : bytes hdr).
  { unfold raw_header_from_bytes in E. destruct (HEADER_SIZE <=? zlen input); [|done]. injection E as <-. by apply Forall_take. }
  assert (Hb : 0 < ss_bucket s1 \/ ss_closed s1 = true).
  { apply andb_false_iff in Hstarved as [H|H]; [left; cbn; lia|right; cbn; unfold is_closed in H].
    by destruct (ss_closed s). }
  destruct (check_protocol hdr (ss_version s1));
    [|eexists; split; [reflexivity|]; cbn; by apply good_same..].
  destruct (recv_frame_ok s1 hdr (drop 8 input) (proj1 Hg1) Hhdr Hb) as (r & -> & Hok & Hacc).
  exists r. split; [done|]. split.
  - destruct r; try exact Hok. exact Hs.
  - intros o Hd. specialize (Hacc o). change (contents s o) with (contents s1 o).
    destruct r; cbn [recv_silent recv_state] in *; by apply Hacc.
Qed.

(** ** Closing *)

Definition same_bytes (t t' : StreamInner) : Prop := st_id t' = st_id t /\ st_buffer t' = st_buffer t.

Lemma session_close_bytes t : same_bytes t (session_close_obj t).
Proof. unfold session_close_obj, close_die. by destruct (st_die_once t). Qed.

(** Marking streams of the map leaves every stream its bytes. *)
Lemma close_all_bytes (m : gmap Z nat) objs :
  let objs' := map_fold (fun _ o objs => alter session_close_obj o objs) objs m in
  length objs' = length objs /\
  (forall o t', objs' !! o = Some t' -> exists t, objs !! o = Some t /\ same_bytes t t') /\
  (forall o t, objs !! o = Some t -> exists t', objs' !! o = Some t' /\ same_bytes t t').
Proof.
  intros objs'. subst objs'. revert m.
  apply (map_fold_weak_ind (fun objs' m => length objs' = length objs /\
    (forall o t', objs' !! o = Some t' -> exists t, objs !! o = Some t /\ same_bytes t t') /\
    (forall o t, objs !! o = Some t -> exists t', objs' !! o = Some t' /\ same_bytes t t'))).
  - split; [done|]. split; intros o t Ht; exists t; by split.
  - intros _ o m objs' _ (Hl & H1 & H2). split_and!; [by rewrite length_alter| |].
    + intros o' t'. rewrite list_lookup_alter. case_decide; [subst o'|by apply H1].
      intros (t1 & Ht1 & ->)%fmap_Some. destruct (H1 _ _ Ht1) as (t & Ht & Hid & Hb). exists t. split; [congruence|].
      destruct (session_close_bytes t1). split; congruence.
    + intros o' t Ht. destruct (H2 _ _ Ht) as (t1 & Ht1 & Hid & Hb). rewrite list_lookup_alter.
      destruct (session_close_bytes t1). case_decide; subst; rewrite Ht1; cbn; eexists; (split; [done|]); split; congruence.
Qed.

Lemma sum_list_ext {A} (f : A -> nat) l l' : length l' = length l ->
  (forall o x x', l !! o = Some x -> l' !! o = Some x' -> f x' = f x) -> sum_list (f <$> l') = sum_list (f <$> l).
Proof.
  intros Hlen Hf. enough (E : f <$> l' = f <$> l) by by rewrite E.
  apply list_eq_same_length with (length l); [by rewrite length_fmap|by rewrite length_fmap|].
  intros o x y _. rewrite !list_lookup_fmap. intros (a & Ha & ->)%fmap_Some (b & Hb & ->)%fmap_Some.
  by apply (Hf o).
Qed.

Lemma close_shared_good s : session_ok s -> good s Silent (snd (close_shared s)).
Proof.
  intros Hs. unfold close_shared. destruct (ss_closed s) eqn:Hc; [by apply good_same|].
  destruct (close_all_bytes (ss_streams s) (ss_objs s)) as (Hlen & H1 & H2). cbn [snd].
  set (objs := map_fold _ _ _) in *. cbn zeta in *.
  assert (Hsum : sum_list ((fun t => sb_len (st_buffer t)) <$> objs)
    = sum_list ((fun t => sb_len (st_buffer t)) <$> ss_objs s)).
  { apply sum_list_ext; [done|]. intros o t t' Ht Ht'. destruct (H1 _ _ Ht') as (t0 & Ht0 & _ & Hb). congruence. }
  split.
  - destruct Hs as [Hcfg Hbufs Htok _ _ Hacc _ Hsh Hsl]. split; unfold buffered in *; cbn; rewrite ?Hsum; try done.
    + apply Forall_lookup_2. intros o t' Ht'. destruct (H1 _ _ Ht') as (t & Ht & _ & ->).
      by apply (Forall_lookup_1 _ _ _ _ Hbufs Ht).
    + by rewrite Hlen.
  - apply accounts_objs. intros o. unfold contents. cbn. destruct (ss_objs s !! o) as [t|] eqn:E.
    + destruct (H2 _ _ E) as (t' & -> & _ & ->). done.
    + destruct (objs !! o) as [t'|] eqn:E'; [|done]. destruct (H1 _ _ E') as (t & Ht & _). congruence.
Qed.

Lemma expiry_good s : session_ok s -> good s Silent (snd (expiry_tick s)).
Proof.
  intros Hs. unfold expiry_tick. destruct (ss_active s); [by apply good_same|].
  destruct (_ <? _); [by apply close_shared_good|by apply good_same].
Qed.

(** ** Every step *)

Lemma lift_obj {A} s o (f : StreamInner -> io A) x : (t ← get_obj s o; f t) = Ok x ->
  exists t, ss_objs s !! o = Some t.
Proof. unfold get_obj. destruct (ss_objs s !! o) as [t|]; [by exists t|done]. Qed.

(** The piece [E : f s o = Ok _] of a stream, by its lemma at that stream. *)
Ltac stream_piece E lem :=
  let t := fresh "t" in let Ht := fresh "Ht" in
  destruct (lift_obj _ _ _ _ E) as (t & Ht); pose proof (lem t Ht); destruct_and?; naive_solver congruence.

Lemma session_step_good s e s' : session_ok s -> session_step s e s' -> good s e s'.
Proof.
  intros Hs Hstep. destruct Hstep as [|sid|o s' E| |class seq frame result s' E|sent s' E|written|o r s' E|o s' E
    |o r s' E|o s' E|sid|o s' E|o blen r notify s' Hb E|o r notify s' E|o w f s' w' E|input s' rest Hi E|input s' Hi E
    |input s' o rest Hi E|input s' Hi E|o s' E Ho|err| |].
  - by apply next_stream_good.
  - by apply register_good.
  - by apply (accept_now_good s o).
  - by apply good_same.
  - destruct (ss_slots s) as [|slots] eqn:Es; [by unfold enqueue in E; rewrite Es in E|].
    destruct (enqueue_ok s class seq frame result slots Hs Es) as (s1 & E1 & Hg). congruence.
  - destruct (send_next_ok s Hs) as (? & ? & E1 & Hg). congruence.
  - by apply send_outcome_good.
  - stream_piece E (fun t => close_write_start_ok s o t Hs).
  - stream_piece E (fun t => half_close_ok s o t Hs).
  - stream_piece E (fun t => close_start_ok s o t Hs).
  - stream_piece E (fun t => stream_recycle_ok s o t Hs).
  - by apply remove_good.
  - stream_piece E (fun t => drop_inner_ok s o t Hs).
  - stream_piece E (fun t Ht => try_read_ok s o t blen Hs Ht Hb).
  - stream_piece E (fun t => try_read_chunk_ok s o t Hs).
  - stream_piece E (fun t => write_advance_ok s o t w f Hs).
  - destruct (recv_step_ok s input Hs Hi) as (r & E1 & Hg). rewrite E in E1. by injection E1 as <-.
  - destruct (recv_step_ok s input Hs Hi) as (r & E1 & Hg). rewrite E in E1. by injection E1 as <-.
  - destruct (recv_step_ok s input Hs Hi) as (r & E1 & Hg). rewrite E in E1. by injection E1 as <-.
  - destruct (recv_step_ok s input Hs Hi) as (r & E1 & Hg). rewrite E in E1. by injection E1 as <-.
  - by apply (accept_send_good s o).
  - by apply good_same.
  - by apply close_shared_good.
  - by apply expiry_good.
Qed.
