(* ===== verification/SmuxWire.v ===== *)
(** * From one writer to the peer's buffer

    [write_frames]: the loop of a write over one pass, and [recv_frames]: the receiving
    task on the bytes of frames that have all arrived.  What a write frames is what the
    peer's stream holds afterwards. *)
From stdpp Require Import base list gmap.
From Stdlib Require Import ZArith Lia.
From S2P Require Import Prelude Word SmuxFrame Shaper ShaperSpec SmuxStream SmuxSession SmuxInv.
From S2P Require Import SmuxRun.
Local Open Scope Z_scope.

(** ** The loop of a write *)

(** [while off < limit]: the frames of the pass in order, every one written. *)
Fixpoint write_frames (fuel : nat) (t : StreamInner) (w : Writer) : list Frame * (StreamInner * Writer) :=
  match fuel with
  | O => ([], (t, w))
  | S fuel =>
      match next_frame t w with
      | None => ([], (t, w))
      | Some f =>
          let '(t, w) := frame_written t w f in
          let '(fs, end_) := write_frames fuel t w in
          (f :: fs, end_)
      end
  end.

Definition payloads (fs : list Frame) : list Z := concat (fr_data <$> fs).

(** A frame a writer of stream [t] makes. *)
Definition data_frame (t : StreamInner) (f : Frame) : Prop :=
  fr_ver f = st_version t /\ fr_cmd f = CMD_PSH /\ fr_sid f = st_id t /\
  fr_data f <> [] /\ zlen (fr_data f) <= st_frame_size t.

Lemma next_frame_spec t w f : 1 <= st_frame_size t -> (wr_limit w <= length (wr_src w))%nat ->
  next_frame t w = Some f -> data_frame t f /\ (wr_off w + length (fr_data f) <= wr_limit w)%nat /\
    fr_data f = take (length (fr_data f)) (drop (wr_off w) (wr_src w)).
Proof.
  intros Hfs Hlim. unfold next_frame. destruct (Nat.ltb_spec (wr_off w) (wr_limit w)); [|done]. intros [= <-].
  set (size := Nat.min _ _). assert (Hlen : length (take size (drop (wr_off w) (wr_src w))) = size).
  { rewrite length_take, length_drop. lia. }
  unfold data_frame. cbn [fr_ver fr_cmd fr_sid fr_data]. unfold zlen. rewrite Hlen. split; [|split; [lia|done]].
  split_and!; try done; [|lia]. intros E. apply (f_equal length) in E. rewrite Hlen in E. cbn in E. lia.
Qed.

(** The loop ends at the limit; its frames are the bytes up to it. *)
Lemma write_frames_end fuel t w : wr_off w = wr_limit w -> write_frames fuel t w = ([], (t, w)).
Proof. intros E. destruct fuel; cbn; [done|]. unfold next_frame. by rewrite (proj2 (Nat.ltb_ge _ _)) by lia. Qed.

Lemma write_frames_spec src limit fuel : forall t off, 1 <= st_frame_size t -> is_u32 (st_num_written t) ->
  (off <= limit <= length src)%nat -> (limit - off <= fuel)%nat -> exists fs,
  write_frames fuel t (mkWriter src off limit) =
    (fs, (t <| st_num_written := u32 (st_num_written t + Z.of_nat (limit - off)) |>, mkWriter src limit limit)) /\
  payloads fs = take (limit - off) (drop off src) /\ Forall (data_frame t) fs.
Proof.
  induction fuel as [|fuel IH]; intros t off Hfs Hnw Hw Hfuel; (destruct (decide (off = limit)) as [->|Hne];
    [exists []; rewrite write_frames_end, Nat.sub_diag, Z.add_0_r, u32_id by done; by destruct t|]); [lia|].
  cbn [write_frames]. destruct (next_frame t (mkWriter src off limit)) as [f|] eqn:E; cycle 1.
  { unfold next_frame in E. cbn [wr_off wr_limit] in E. by rewrite (proj2 (Nat.ltb_lt off limit)) in E by lia. }
  apply next_frame_spec in E as (Hf & Hoff & Hdata); [|lia|cbn; lia]. cbn [wr_off wr_limit wr_src] in *.
  unfold frame_written. unfold zlen. set (n := length (fr_data f)) in *.
  assert (Hn : (0 < n)%nat) by (subst n; destruct Hf as (_ & _ & _ & Hd & _); destruct (fr_data f); [done|cbn; lia]).
  destruct (IH (t <| st_num_written := wadd32 (st_num_written t) (u32 (Z.of_nat n)) |>) (off + n)%nat)
    as (fs & E & Hp & Hall); [done|apply u32_range|lia|lia|].
  match goal with |- context [write_frames fuel _ ?w] => change w with (mkWriter src (off + n) limit) end.
  rewrite E. exists (f :: fs). split; [|split].
  - replace (u32 (st_num_written t + _)) with
      (u32 (wadd32 (st_num_written t) (u32 (Z.of_nat n)) + Z.of_nat (limit - (off + n)))); [done|].
    replace (limit - off)%nat with (n + (limit - (off + n)))%nat by lia.
    rewrite Nat2Z.inj_add. unfold wadd32, u32. zlia.
  - unfold payloads in *. cbn. rewrite Hp, Hdata. replace (limit - off)%nat with (n + (limit - (off + n)))%nat by lia.
    rewrite <- (drop_drop src n off). by rewrite take_take_drop.
  - by constructor.
Qed.

(** One pass of a write: the window of version 2, everything in version 1. *)
Definition write_pass (config : Config) (t : StreamInner) (w : Writer) : result SmuxError Writer :=
  if cf_version config =? 2 then write_v2_pass t w else Ok w.

Lemma write_pass_spec config t src w0 w : write_start config t src = Ok (Some w0) -> write_pass config t w0 = Ok w ->
  wr_src w = src /\ wr_off w = 0%nat /\ (wr_limit w <= length src)%nat /\ (cf_version config <> 2 -> wr_limit w = length src).
Proof.
  unfold write_start, write_pass. destruct src as [|b src]; [done|]. generalize (b :: src). clear b src. intros src H.
  apply bind_Ok in H as (_ & _ & [= <-]). destruct (Z.eqb_spec (cf_version config) 2).
  - unfold write_v2_pass. intros H. apply bind_Ok in H as (win & _ & [= <-]). destruct (0 <? win); cbn -[Nat.min]; split_and!; done || lia.
  - intros [= <-]. cbn. split_and!; done || lia.
Qed.

(** ** The receiving task on bytes that have arrived *)

(** [loop]: iterations until one waits or stops, with the bytes it left. *)
Fixpoint recv_loop (fuel : nat) (s : Session) (input : list Z) : io (Session * list Z) :=
  match fuel with
  | O => Ok (s, input)
  | S fuel =>
      r ← recv_step s input;
      match r with
      | RecvNext s rest => recv_loop fuel s rest
      | _ => Ok (recv_state s r, input)
      end
  end.

(** The bytes of frames in a row. *)
Definition encode_all (fs : list Frame) : list Z := concat ((fun f => encode_to f []) <$> fs).

(** A data frame for an open stream joins its buffer and costs its length. *)
Lemma recv_data_frame s f o rest : session_ok s -> ss_streams s !! fr_sid f = Some o ->
  fr_ver f = ss_version s -> fr_cmd f = CMD_PSH -> is_u32 (fr_sid f) -> fr_data f <> [] ->
  zlen (fr_data f) <= 65535 -> zlen (fr_data f) <= ss_bucket s <= 2147483647 ->
  exists s', recv_step s (encode_to f [] ++ rest) = Ok (RecvNext s' rest) /\ session_ok s' /\
    contents s' o = contents s o ++ fr_data f /\ ss_streams s' = ss_streams s /\ ss_version s' = ss_version s /\
    ss_bucket s' = ss_bucket s - zlen (fr_data f).
Proof.
  intros Hs Ho Hv Hc Hsid Hne Hlen Hb. unfold zlen in *.
  assert (Hpos : (0 < length (fr_data f))%nat) by (destruct (fr_data f); [done|cbn; lia]).
  unfold encode_to. rewrite app_nil_l, <- app_assoc. unfold frame_header. unfold zlen.
  assert (Hu : u16 (Z.of_nat (length (fr_data f))) = Z.of_nat (length (fr_data f))) by (unfold u16; zlia). rewrite Hu.
  set (h := raw_header_new _ _ _ _).
  destruct (raw_header_fields (fr_ver f) (fr_cmd f) (Z.of_nat (length (fr_data f))) (fr_sid f) (fr_data f ++ rest))
    as (Eh & Hhv & Hhc & Hhl & Hhs); [unfold is_u16; lia|done|]. fold h in Eh, Hhv, Hhc, Hhl, Hhs.
  unfold recv_step. rewrite (proj2 (Z.leb_gt _ _)) by lia. cbn [andb]. rewrite Eh.
  set (s1 := s <| ss_active := true |>).
  assert (Hg1 : good s Silent s1) by by apply good_same.
  assert (Ecp : check_protocol h (ss_version s1) = Ok ()).
  { unfold check_protocol. rewrite Hhv, Hhc, Hc, Hv. change (ss_version s1) with (ss_version s).
    by rewrite Z.eqb_refl. }
  rewrite Ecp. change (drop 8 (h ++ fr_data f ++ rest)) with (fr_data f ++ rest).
  unfold recv_frame. rewrite Hhc, Hc, Hhl, Hhs, Nat2Z.id.
  change (CMD_PSH =? CMD_NOP) with false. change (CMD_PSH =? CMD_SYN) with false.
  change (CMD_PSH =? CMD_FIN) with false. rewrite Z.eqb_refl. cbn iota.
  rewrite (proj2 (Nat.eqb_neq _ _)) by lia. rewrite (proj2 (Nat.ltb_ge _ _)) by (rewrite length_app; lia).
  rewrite take_app_length, drop_app_length.
  destruct (so_map _ Hs _ _ Ho) as (t & Ht & _).
  assert (Hb1 : 0 < ss_bucket s1) by (change (0 < ss_bucket s); lia).
  pose proof (push_bytes_good s1 o t (fr_data f) (proj1 Hg1) Ht Hne Hlen (or_introl Hb1)) as [Hok Hacc].
  unfold recv_psh. change (ss_streams s1) with (ss_streams s). rewrite Ho. unfold get_obj.
  change (ss_objs s1) with (ss_objs s). rewrite Ht. cbn [unwrap mbind result_bind].
  eexists. split; [reflexivity|]. split; [exact Hok|]. split.
  - specialize (Hacc o ltac:(done)). cbn [received delivered] in Hacc. rewrite decide_True in Hacc by done. by symmetry.
  - split; [done|]. split; [done|]. cbn [ss_bucket]. change (ss_bucket (set_obj _ _ _)) with (ss_bucket s).
    unfold zlen. rewrite i32_sub_r. apply i32_id. unfold is_i32. lia.
Qed.

(** Frames in a row, for tokens that are there. *)
Lemma recv_data_frames sid o fs : forall s, is_u32 sid -> session_ok s -> ss_streams s !! sid = Some o ->
  Forall (fun f => fr_ver f = ss_version s /\ fr_cmd f = CMD_PSH /\ fr_sid f = sid /\ fr_data f <> [] /\
    zlen (fr_data f) <= 65535) fs ->
  zlen (payloads fs) <= ss_bucket s <= 2147483647 ->
  exists s', recv_loop (length fs) s (encode_all fs) = Ok (s', []) /\ session_ok s' /\
    contents s' o = contents s o ++ payloads fs /\ ss_bucket s' = ss_bucket s - zlen (payloads fs).
Proof.
  induction fs as [|f fs IH]; intros s Hsid Hs Ho Hall Hb.
  - exists s. cbn. rewrite app_nil_r, Z.sub_0_r. done.
  - apply Forall_cons in Hall as ((Hv & Hc & Hf & Hne & Hlen) & Hall).
    change (payloads (f :: fs)) with (fr_data f ++ payloads fs) in *. rewrite zlen_app in *.
    pose proof (zlen_nonneg (payloads fs)). pose proof (zlen_nonneg (fr_data f)).
    change (encode_all (f :: fs)) with (encode_to f [] ++ encode_all fs).
    destruct (recv_data_frame s f o (encode_all fs) Hs) as (s1 & E1 & Hs1 & Hc1 & Hm1 & Hv1 & Hb1);
      [by rewrite Hf|done|done|by rewrite Hf|done|done|lia|].
    destruct (IH s1 Hsid Hs1) as (s2 & E2 & Hs2 & Hc2 & Hb2); [by rewrite Hm1|by rewrite Hv1|lia|].
    exists s2. cbn [length recv_loop]. rewrite E1. cbn [mbind result_bind]. split; [exact E2|]. split; [done|].
    rewrite Hc2, Hc1, <- app_assoc. split; [done|lia].
Qed.
