(* ===== verification/SmuxFlow.v ===== *)
(** * The sliding window of a stream

    One direction of a stream of protocol version 2 between two peers: the writer's
    [StreamInner], the reader's, the payloads on the way to the reader and the window
    updates on the way back.  A step is one piece of [write_v2], of a read, or the arrival
    of a frame, and is labelled with the bytes a reader took.  [read] and [write_to] send their
    update themselves, [read_chunk] leaves it to a task; a stream is read in one way at a
    time, so that the first two run when no task does. *)
From stdpp Require Import base list.
From Stdlib Require Import ZArith Lia.
From S2P Require Import Prelude Word SmuxFrame SmuxStream SmuxSession SmuxInv SmuxWire.
Local Open Scope Z_scope.

Record Flow := mkFlow {
  fl_sender : StreamInner;
  fl_writer : option Writer;
  fl_pending : option Frame;       (** handed over, not yet counted *)
  fl_data : list (list Z);
  fl_updates : list (list Z);
  fl_receiver : StreamInner;
  fl_queued : PendingUpdate;       (** the update the reader's sender task has to send *)
}.

#[export] Instance flow_eta : EtaRecord Flow :=
  fun f => mkFlow (fl_sender f) (fl_writer f) (fl_pending f) (fl_data f) (fl_updates f) (fl_receiver f)
    (fl_queued f).

(** The update [read] and [write_to] send: only one that took something and has one due. *)
Definition owed (config : Config) (t : StreamInner) (data : list Z) (notify : Z) : list (list Z) :=
  match data with
  | [] => []
  | _ => if 0 <? notify then [fr_data (window_update_frame config t notify)] else []
  end.

Inductive flow_step (cs cr : Config) (f : Flow) : Z -> Flow -> Prop :=
| flow_write src w : fl_writer f = None -> write_start cs (fl_sender f) src = Ok (Some w) ->
    flow_step cs cr f 0 (f <| fl_writer := Some w |>)
| flow_pass w w' : fl_writer f = Some w -> fl_pending f = None -> next_frame (fl_sender f) w = None ->
    write_done w = false -> write_v2_pass (fl_sender f) w = Ok w' ->
    flow_step cs cr f 0 (f <| fl_writer := Some w' |>)
| flow_emit w fr : fl_writer f = Some w -> fl_pending f = None -> next_frame (fl_sender f) w = Some fr ->
    flow_step cs cr f 0 (f <| fl_pending := Some fr |> <| fl_data := fl_data f ++ [fr_data fr] |>)
| flow_count w fr t w' : fl_writer f = Some w -> fl_pending f = Some fr -> frame_written (fl_sender f) w fr = (t, w') ->
    flow_step cs cr f 0 (f <| fl_pending := None |> <| fl_sender := t |> <| fl_writer := Some w' |>)
| flow_end w : fl_writer f = Some w -> fl_pending f = None -> write_done w = true ->
    flow_step cs cr f 0 (f <| fl_writer := None |>)
| flow_arrive d rest : fl_data f = d :: rest ->
    flow_step cs cr f 0 (f <| fl_data := rest |> <| fl_receiver := push_bytes (fl_receiver f) d |>)
| flow_read blen data notify t : pu_sending (fl_queued f) = false -> read_section cr (fl_receiver f) blen = Ok (data, notify, t) ->
    flow_step cs cr f (zlen data)
      (f <| fl_receiver := t |> <| fl_updates := fl_updates f ++ owed cr t data notify |>)
| flow_write_to chunk notify t : pu_sending (fl_queued f) = false -> pop_chunk cr (fl_receiver f) = Ok (chunk, notify, t) ->
    flow_step cs cr f (zlen (default [] chunk))
      (f <| fl_receiver := t |> <| fl_updates := fl_updates f ++ owed cr t (default [] chunk) notify |>)
| flow_chunk chunk notify t : pop_chunk cr (fl_receiver f) = Ok (Some chunk, notify, t) ->
    flow_step cs cr f (zlen chunk)
      (f <| fl_receiver := t |>
         <| fl_queued := if 0 <? notify then snd (queue_window_update (fl_queued f) notify) else fl_queued f |>)
| flow_no_chunk notify t : pop_chunk cr (fl_receiver f) = Ok (None, notify, t) ->
    flow_step cs cr f 0 (f <| fl_receiver := t |>)
| flow_sender_turn consumed p : pu_sending (fl_queued f) = true -> sender_take false (fl_queued f) = (consumed, p) ->
    flow_step cs cr f 0
      (f <| fl_queued := p |>
         <| fl_updates := fl_updates f ++ match consumed with
              | Some c => [fr_data (window_update_frame cr (fl_receiver f) c)]
              | None => []
              end |>)
| flow_update u rest : fl_updates f = u :: rest ->
    flow_step cs cr f 0
      (f <| fl_updates := rest |> <| fl_sender := stream_update (fl_sender f) (upd_consumed u) (upd_window u) |>).

Definition flow_new (cs cr : Config) (sid : Z) : Flow :=
  mkFlow (stream_new sid cs) None None [] [] (stream_new sid cr) (mkPendingUpdate 0 false).

(** Runs, with the bytes read. *)
Inductive flow_run (cs cr : Config) (sid : Z) : Z -> Flow -> Prop :=
| flow_start : flow_run cs cr sid 0 (flow_new cs cr sid)
| flow_next n f k f' : flow_run cs cr sid n f -> flow_step cs cr f k f' -> flow_run cs cr sid (n + k) f'.

(** ** The invariant *)

(** The values of the updates on the way, each as new as the one before. *)
Fixpoint chain (c : Z) (cs : list Z) : Prop :=
  match cs with
  | [] => True
  | c' :: cs => c <= c' /\ chain c' cs
  end.

Fixpoint newest (c : Z) (cs : list Z) : Z :=
  match cs with
  | [] => c
  | c' :: cs => newest c' cs
  end.

Lemma chain_snoc cs c c' : chain c cs -> newest c cs <= c' ->
  chain c (cs ++ [c']) /\ newest c (cs ++ [c']) = c'.
Proof.
  revert c. induction cs as [|x cs IH]; intros c; cbn [chain newest app]; [done|]. intros [Hx Hc] Hl.
  destruct (IH x Hc Hl). done.
Qed.

Lemma chain_init cs c c' : chain c (cs ++ [c']) -> chain c cs /\ newest c cs <= c' /\ newest c (cs ++ [c']) = c'.
Proof. revert c. induction cs as [|x cs IH]; intros c; cbn [chain newest app]; [tauto|]. intros [Hx Hc]. apply IH in Hc. tauto. Qed.

Lemma chain_le cs c : chain c cs -> c <= newest c cs.
Proof. revert c. induction cs as [|x cs IH]; intros c; cbn; [lia|]. intros [Hx Hc]. specialize (IH x Hc). lia. Qed.

(** The bytes handed over and not counted; what the pass may still frame. *)
Definition uncounted (f : Flow) : Z := match fl_pending f with Some fr => zlen (fr_data fr) | None => 0 end.
Definition to_frame (f : Flow) : Z :=
  match fl_writer f with Some w => Z.of_nat (wr_limit w - wr_off w) - uncounted f | None => 0 end.
Definition in_flight (f : Flow) : Z := zlen (concat (fl_data f)).

(** A sender that sees room frames more of what it has to write. *)
Lemma pass_frames t w : 1 <= st_frame_size t -> write_done w = false -> forall win, send_window t = Ok win -> 0 < win ->
  exists w' fr, write_v2_pass t w = Ok w' /\ next_frame t w' = Some fr.
Proof.
  intros Hfs Hd win E Hwin. unfold write_v2_pass. rewrite E. cbn [mbind result_bind].
  rewrite (proj2 (Z.ltb_lt 0 win)) by done. eexists _, _. split; [reflexivity|]. unfold next_frame.
  unfold write_done in Hd. apply Nat.leb_gt in Hd.
  rewrite (proj2 (Nat.ltb_lt _ _)); [reflexivity|]. cbn -[Nat.min Nat.sub]. lia.
Qed.
Section Window.
Context (cs cr : Config).
Let W : Z := cf_max_stream_buffer cr.

(** The updates that tell these counts. *)
Definition told (updates : list Z) : list (list Z) := (fun c => upd_header_new (u32 c) W) <$> updates.

(** The update the task is about to send. *)
Definition queued (f : Flow) : list (list Z) :=
  if 0 <? pu_consumed (fl_queued f) then [upd_header_new (pu_consumed (fl_queued f)) W] else [].

(** The most that may be on the way to the reader and in its buffer. *)
Definition window_max : Z := Z.max INITIAL_PEER_WINDOW (cf_max_stream_buffer cr).

(** [sent] bytes were handed over, [read] were read, the writer knows of [acked], and the
    last update sent said [told]. *)
Record flow_ok (f : Flow) (sent read acked : Z) (updates : list Z) : Prop := {
  fo_sent : sent = read + Z.of_nat (sb_len (st_buffer (fl_receiver f))) + in_flight f;
  fo_written : st_num_written (fl_sender f) = u32 (sent - uncounted f);
  fo_read : sb_num_read (st_buffer (fl_receiver f)) = u32 read;
  fo_acked : st_peer_consumed (fl_sender f) = u32 acked;
  fo_updates : fl_updates f ++ queued f = told updates;
  fo_queued : 0 <= pu_consumed (fl_queued f) /\ (pu_sending (fl_queued f) = false -> pu_consumed (fl_queued f) = 0);
  fo_chain : 0 <= acked /\ chain acked updates /\ newest acked updates <= read;
  fo_window : (st_peer_window (fl_sender f) = INITIAL_PEER_WINDOW /\ acked = 0) \/ st_peer_window (fl_sender f) = W;
  fo_bound : sent + to_frame f <= acked + window_max;
  fo_room : 0 <= to_frame f;
  fo_writer : match fl_writer f with
              | Some w => (wr_limit w <= length (wr_src w))%nat /\ (fl_pending f = None \/ (wr_off w <= wr_limit w)%nat)
              | None => fl_pending f = None
              end;
  fo_frames : 1 <= st_frame_size (fl_sender f);
  fo_buf : buf_ok (st_buffer (fl_receiver f)) /\ Forall (fun d => d <> []) (fl_data f);
  fo_credit : read < 4294967296 -> sb_incr (st_buffer (fl_receiver f)) = read - newest acked updates /\
    (0 < read -> 0 < newest acked updates) /\
    (read - newest acked updates < W / 2 \/ read = newest acked updates);
}.

Hypothesis HW : 1 <= W <= 2147483647.

Lemma account_read_eq b n :
  account_read b n W =
    let num := wadd32 (sb_num_read b) (u32 (Z.of_nat n)) in
    let incr := wadd32 (sb_incr b) (u32 (Z.of_nat n)) in
    if (u32 (Z.quot W 2) <=? incr) || (num =? u32 (Z.of_nat n))
    then (num, mkStreamBuf (sb_chunks b) (sb_len b) num 0)
    else (0, mkStreamBuf (sb_chunks b) (sb_len b) num incr).
Proof. reflexivity. Qed.

(** The accounting of a read: an update is due, with the new count, or the credit stays. *)
Lemma account_read_spec b n read last : sb_num_read b = u32 read -> 0 <= read -> read + Z.of_nat n < 4294967296 ->
  sb_incr b = read - last -> 0 <= last <= read -> (0 < read -> 0 < last) -> (read - last < W / 2 \/ read = last) ->
  let '(notify, b') := account_read b n W in
  sb_num_read b' = u32 (read + Z.of_nat n) /\
  ((sb_incr b' = 0 /\ notify = read + Z.of_nat n /\ (n = 0%nat -> read = last)) \/
   (sb_incr b' = read + Z.of_nat n - last /\ notify = 0 /\ read + Z.of_nat n - last < W / 2 /\
    (0 < read + Z.of_nat n -> 0 < last))).
Proof.
  intros Hr H0 Hbound Hi Hl Hpos Hw. rewrite account_read_eq. cbv zeta.
  assert (Hn : u32 (Z.of_nat n) = Z.of_nat n) by (apply u32_id; unfold is_u32; lia). rewrite Hn.
  assert (Hi' : wadd32 (sb_incr b) (Z.of_nat n) = read - last + Z.of_nat n).
  { rewrite Hi. unfold wadd32. apply u32_id. unfold is_u32. lia. }
  assert (Hr' : wadd32 (sb_num_read b) (Z.of_nat n) = read + Z.of_nat n).
  { rewrite Hr. unfold wadd32. rewrite (u32_id read) by (unfold is_u32; lia). apply u32_id. unfold is_u32. lia. }
  assert (Hq : u32 (Z.quot W 2) = W / 2).
  { rewrite Z.quot_div_nonneg by lia. apply u32_id. unfold is_u32. zlia. }
  rewrite Hq, Hi', Hr'.
  assert (Hru : u32 (read + Z.of_nat n) = read + Z.of_nat n) by (apply u32_id; unfold is_u32; lia).
  destruct (Z.leb_spec (W / 2) (read - last + Z.of_nat n)); cbn [orb]; cbv beta iota.
  - split; [by rewrite Hru|]. left. split; [done|]. split; [done|]. intros ->. lia.
  - destruct (Z.eqb_spec (read + Z.of_nat n) (Z.of_nat n)); cbv beta iota; split; try (by rewrite Hru).
    + left. split; [done|]. split; [done|]. lia.
    + right. split; [cbn; lia|]. split; [done|]. lia.
Qed.

Lemma account_read_any b n : let '(notify, b') := account_read b n W in
  sb_num_read b' = u32 (sb_num_read b + Z.of_nat n) /\ sb_chunks b' = sb_chunks b /\ sb_len b' = sb_len b /\
  (notify = 0 \/ notify = u32 (sb_num_read b + Z.of_nat n)).
Proof.
  rewrite account_read_eq. cbv zeta.
  assert (E : wadd32 (sb_num_read b) (u32 (Z.of_nat n)) = u32 (sb_num_read b + Z.of_nat n)) by (unfold wadd32, u32; zlia).
  rewrite E. destruct (_ || _); cbn; auto.
Qed.

(** What a read of either kind does to the buffer. *)
Definition took (t t' : StreamInner) (data : list Z) (notify : Z) : Prop :=
  exists b, account_read b (length data) W = (notify, st_buffer t') /\ buf_ok b /\
    (sb_len b + length data = sb_len (st_buffer t))%nat /\
    sb_num_read b = sb_num_read (st_buffer t) /\ sb_incr b = sb_incr (st_buffer t).

Hypothesis Hv : cf_version cr = 2.

Lemma read_section_took t blen data notify t' : buf_ok (st_buffer t) ->
  read_section cr t blen = Ok (data, notify, t') -> took t t' data notify.
Proof.
  intros Hb. unfold read_section, took. rewrite Hv, Z.eqb_refl.
  destruct (consume_front_ok _ blen Hb) as (d & b & -> & Hb' & _ & Hl & Hn & Hi & _). cbn [mbind result_bind].
  fold W. destruct (account_read b (length d) W) as [n b'] eqn:E. intros [= <- <- <-]. exists b. done.
Qed.

Lemma pop_chunk_took t chunk notify t' : buf_ok (st_buffer t) ->
  pop_chunk cr t = Ok (chunk, notify, t') -> took t t' (default [] chunk) notify.
Proof.
  intros Hb. unfold pop_chunk, took. rewrite Hv, Z.eqb_refl.
  destruct (buf_pop_ok _ Hb) as (c & b & -> & Hb' & _ & Hl & Hn & Hi & _). cbn [mbind result_bind].
  fold W. destruct (account_read b _ W) as [n b'] eqn:E. intros [= <- <- <-]. exists b.
  split; [by destruct c|]. done.
Qed.

Lemma owed_cases t data notify : (owed cr t data notify = [] /\ (data = [] \/ notify <= 0)) \/
  (owed cr t data notify = [upd_header_new notify W] /\ data <> [] /\ 0 < notify).
Proof.
  unfold owed. destruct data as [|b data]; [auto|]. destruct (Z.ltb_spec 0 notify); [right|auto].
  unfold window_update_frame. cbn [fr_data]. fold W. rewrite u32_id by (unfold is_u32; lia). done.
Qed.

(** The claim of [fo_credit]. *)
Definition credit_ok (incr read last : Z) : Prop :=
  read < 4294967296 -> incr = read - last /\ (0 < read -> 0 < last) /\ (read - last < W / 2 \/ read = last).

Lemma with_receiver f sent read acked updates t' k updates' on_way q : flow_ok f sent read acked updates ->
  (sb_len (st_buffer t') + k = sb_len (st_buffer (fl_receiver f)))%nat ->
  sb_num_read (st_buffer t') = u32 (read + Z.of_nat k) -> buf_ok (st_buffer t') ->
  chain acked updates' -> newest acked updates' <= read + Z.of_nat k ->
  credit_ok (sb_incr (st_buffer t')) (read + Z.of_nat k) (newest acked updates') ->
  0 <= pu_consumed q -> (pu_sending q = false -> pu_consumed q = 0) ->
  on_way ++ (if 0 <? pu_consumed q then [upd_header_new (pu_consumed q) W] else [])
    = told updates' ->
  flow_ok (f <| fl_receiver := t' |> <| fl_updates := on_way |> <| fl_queued := q |>)
    sent (read + Z.of_nat k) acked updates'.
Proof.
  intros [] Hlen Hnum Hb Hc Hn Hcr Hq1 Hq2 Hups. split; cbn; try done.
  - change (in_flight _) with (in_flight f). lia.
  - split; [apply fo_chain0|done].
  - split; [done|apply fo_buf0].
Qed.

(** After a read: nothing new is due, or the count itself is. *)
Lemma took_cases f sent read acked updates t' data notify : flow_ok f sent read acked updates -> 0 <= read ->
  took (fl_receiver f) t' data notify -> let read' := read + Z.of_nat (length data) in
  (sb_len (st_buffer t') + length data = sb_len (st_buffer (fl_receiver f)))%nat /\
  sb_num_read (st_buffer t') = u32 read' /\ buf_ok (st_buffer t') /\ chain acked updates /\
  newest acked updates <= read' /\
  (data = [] \/ notify = 0 -> credit_ok (sb_incr (st_buffer t')) read' (newest acked updates)) /\
  (data <> [] -> 0 < notify -> notify = u32 read' /\ credit_ok (sb_incr (st_buffer t')) read' read') /\ 0 <= notify.
Proof.
  intros Hf Hread (b & Hacc & Hb & Hlen & Hnum & Hincr) read'. pose proof (account_read_any b (length data)) as Hany.
  rewrite Hacc in Hany. destruct Hany as (Hnum' & Hch & Hlen' & Hnot). rewrite Hnum, (fo_read _ _ _ _ _ Hf) in Hnum', Hnot.
  assert (Hadd : u32 (u32 read + Z.of_nat (length data)) = u32 read') by (unfold u32; zlia).
  rewrite Hadd in Hnum', Hnot. pose proof (fo_credit _ _ _ _ _ Hf) as Hcr.
  destruct (fo_chain _ _ _ _ _ Hf) as (Hc0 & Hc1 & Hc2). pose proof (chain_le _ _ Hc1) as Hle.
  assert (Hspec : read' < 4294967296 -> _ ) by
    (intros H; destruct (Hcr ltac:(lia)) as (H1 & H2 & H3); rewrite <- Hincr in H1;
     exact (account_read_spec b (length data) read (newest acked updates) ltac:(rewrite Hnum; apply Hf) Hread H H1
       ltac:(lia) H2 H3)).
  rewrite Hacc in Hspec. pose proof (buf_ok_parts _ _ Hb Hch Hlen') as Hb'. fold read' in Hspec.
  split; [lia|]. split; [done|]. split; [done|]. split; [done|]. split; [lia|]. split; [|split].
  - intros Hno H. destruct (Hspec H) as (_ & [(Hi & Hn & Hz)|(Hi & Hn & Hlt & Hp)]); [|split_and!; [lia|done|by left]].
    assert (Hnil : length data = 0%nat) by (destruct Hno as [->|Hno]; [done|]; lia).
    specialize (Hz Hnil). split_and!; [lia| |lia]. intros. apply (Hcr ltac:(lia)). lia.
  - intros Hd Hpos. destruct Hnot as [->| ->]; [lia|]. split; [done|].
    intros H. destruct (Hspec H) as (_ & [(Hi & Hn & Hz)|(Hi & Hn & Hlt & Hp)]); [split_and!; lia|lia].
  - pose proof (u32_range read'). unfold is_u32 in *. lia.
Qed.

Lemma told_snoc us c : told (us ++ [c]) = told us ++ [upd_header_new (u32 c) W].
Proof. unfold told. by rewrite fmap_app. Qed.

(** [read] and [write_to]. *)
Lemma took_ok f sent read acked updates t' data notify : flow_ok f sent read acked updates -> 0 <= read ->
  pu_sending (fl_queued f) = false -> took (fl_receiver f) t' data notify ->
  exists updates', flow_ok (f <| fl_receiver := t' |> <| fl_updates := fl_updates f ++ owed cr t' data notify |>)
    sent (read + zlen data) acked updates'.
Proof.
  intros Hf Hread Hq Ht. destruct (took_cases f sent read acked updates t' data notify Hf Hread Ht)
    as (Hlen & Hnum & Hb & Hc & Hn & Hno & Hyes & Hnn).
  destruct (fo_queued _ _ _ _ _ Hf) as [Hq0 Hq1]. pose proof (fo_updates _ _ _ _ _ Hf) as Hups.
  unfold queued in Hups. rewrite (Hq1 Hq) in Hups. cbn [Z.ltb Z.compare] in Hups. rewrite app_nil_r in Hups. rewrite Hups.
  destruct (owed_cases t' data notify) as [[-> Hd]|(-> & Hd & Hpos)].
  - exists updates. rewrite app_nil_r.
    apply (with_receiver f sent read acked updates t' (length data) updates (told updates) (fl_queued f) Hf); try done.
    + apply Hno. destruct Hd as [->|Hd]; [by left|right; lia].
    + rewrite (Hq1 Hq). cbn [Z.ltb Z.compare]. by rewrite app_nil_r.
  - destruct (Hyes Hd Hpos) as [-> Hcr]. set (read' := read + Z.of_nat (length data)) in *.
    exists (updates ++ [read']). destruct (chain_snoc updates acked read' Hc Hn) as [Hc' Hnew].
    rewrite <- told_snoc.
    apply (with_receiver f sent read acked updates t' (length data) (updates ++ [read']) (told (updates ++ [read']))
      (fl_queued f) Hf); try done; rewrite ?Hnew; [lia|done|].
    rewrite (Hq1 Hq). cbn [Z.ltb Z.compare]. by rewrite app_nil_r.
Qed.

(** [read_chunk]: the newest count replaces the one the task has not taken. *)
Lemma queue_ok f sent read acked updates t' data notify : flow_ok f sent read acked updates -> 0 <= read ->
  data <> [] -> took (fl_receiver f) t' data notify ->
  exists updates', flow_ok (f <| fl_receiver := t' |>
      <| fl_queued := if 0 <? notify then snd (queue_window_update (fl_queued f) notify) else fl_queued f |>)
    sent (read + zlen data) acked updates'.
Proof.
  intros Hf Hread Hd Ht. destruct (took_cases f sent read acked updates t' data notify Hf Hread Ht)
    as (Hlen & Hnum & Hb & Hc & Hn & Hno & Hyes & Hnn).
  destruct (fo_queued _ _ _ _ _ Hf) as [Hq0 Hq1]. pose proof (fo_updates _ _ _ _ _ Hf) as Hups.
  unfold queued in Hups. destruct (Z.ltb_spec 0 notify) as [Hpos|Hz]; cycle 1.
  { exists updates. apply (with_receiver f sent read acked updates t' (length data) updates (fl_updates f) (fl_queued f) Hf);
      try done. apply Hno. right. lia. }
  destruct (Hyes Hd Hpos) as [-> Hcr]. set (read' := read + Z.of_nat (length data)) in *.
  assert (Hold : exists us, fl_updates f = told us /\ chain acked us /\ newest acked us <= read').
  { destruct (Z.ltb_spec 0 (pu_consumed (fl_queued f))).
    - destruct updates as [|c us _] using rev_ind; [by destruct (fl_updates f)|].
      rewrite told_snoc in Hups. apply app_inj_2 in Hups as [Hups _]; [|done]. exists us. split; [done|].
      apply chain_init in Hc as (Hc & Hl & Hnew). rewrite Hnew in Hn. split; [done|lia].
    - exists updates. rewrite app_nil_r in Hups. done. }
  destruct Hold as (us & Eus & Hcus & Hnus). exists (us ++ [read']).
  destruct (chain_snoc us acked read' Hcus Hnus) as [Hc' Hnew].
  apply (with_receiver f sent read acked updates t' (length data) _ (fl_updates f) _ Hf); try done; rewrite ?Hnew; try done;
    unfold queue_window_update; cbn -[Z.ltb]; destruct (pu_sending (fl_queued f)) eqn:Eq; cbn -[Z.ltb]; rewrite ?Eq; try done; try lia;
    rewrite (proj2 (Z.ltb_lt _ _)) by done; by rewrite Eus, told_snoc.
Qed.

Lemma empty_chunk_ok f sent read acked updates t' notify : flow_ok f sent read acked updates -> 0 <= read ->
  took (fl_receiver f) t' [] notify -> exists updates', flow_ok (f <| fl_receiver := t' |>) sent read acked updates'.
Proof.
  intros Hf Hread Ht. destruct (took_cases f sent read acked updates t' [] notify Hf Hread Ht)
    as (Hlen & Hnum & Hb & Hc & Hn & Hno & _). cbn zeta in *. rewrite Z.add_0_r in *.
  exists updates. pose proof (with_receiver f sent read acked updates t' 0 updates (fl_updates f) (fl_queued f) Hf) as H.
  rewrite Z.add_0_r in H. apply H; try done; [by apply Hno; left|by apply Hf..].
Qed.

(** The task hands the update over. *)
Lemma sender_turn_ok f sent read acked updates consumed p : flow_ok f sent read acked updates ->
  sender_take false (fl_queued f) = (consumed, p) ->
  flow_ok (f <| fl_queued := p |>
    <| fl_updates := fl_updates f ++ match consumed with
         | Some c => [fr_data (window_update_frame cr (fl_receiver f) c)]
         | None => []
         end |>) sent read acked updates.
Proof.
  intros [] E. unfold sender_take in E. rewrite orb_false_r in E. unfold queued in fo_updates0.
  destruct (Z.eqb_spec (pu_consumed (fl_queued f)) 0) as [Hz|Hz]; injection E as <- <-.
  - rewrite Hz in fo_updates0. split; try done. cbn. by rewrite app_nil_r.
  - rewrite (proj2 (Z.ltb_lt _ _)) in fo_updates0 by lia. unfold window_update_frame. cbn [fr_data]. fold W.
    rewrite (u32_id W) by (unfold is_u32; lia). split; try done.
    unfold queued. cbn. by rewrite app_nil_r.
Qed.

Hypothesis Hcs : cf_version cs = 2.

Lemma write_start_v2 t src w : write_start cs t src = Ok (Some w) -> w = mkWriter src 0 0.
Proof.
  unfold write_start. destruct src; [done|]. intros H. apply bind_Ok in H as (_ & _ & [= <-]). by rewrite Hcs.
Qed.

(** What the writer sees of the window is the truth. *)
Lemma send_window_ok f sent read acked updates : flow_ok f sent read acked updates -> fl_pending f = None ->
  send_window (fl_sender f) = Ok (st_peer_window (fl_sender f) - (sent - acked)) /\
  1 <= st_peer_window (fl_sender f) <= window_max.
Proof.
  intros Hf Hp. destruct (fo_chain _ _ _ _ _ Hf) as (Hc0 & Hc1 & Hc2). pose proof (chain_le _ _ Hc1) as Hle.
  pose proof (fo_sent _ _ _ _ _ Hf) as Hs. pose proof (fo_bound _ _ _ _ _ Hf) as Hb. pose proof (fo_room _ _ _ _ _ Hf).
  assert (0 <= in_flight f) by apply zlen_nonneg.
  assert (HP : 1 <= st_peer_window (fl_sender f) <= window_max /\ window_max <= 2147483647).
  { unfold window_max, INITIAL_PEER_WINDOW in *. fold W. destruct (fo_window _ _ _ _ _ Hf) as [[-> _]| ->];
      unfold INITIAL_PEER_WINDOW; lia. }
  split; [|apply HP]. unfold send_window. rewrite (fo_written _ _ _ _ _ Hf), (fo_acked _ _ _ _ _ Hf).
  unfold uncounted. rewrite Hp.
  assert (E : i32 (wsub32 (u32 (sent - 0)) (u32 acked)) = sent - acked).
  { unfold i32, wsub32, u32. zlia. }
  rewrite E, (proj2 (Z.ltb_ge _ _)) by lia. f_equal. rewrite !i32_id; unfold is_i32; try lia.
  rewrite i32_id; unfold is_i32; lia.
Qed.

Lemma pass_ok f sent read acked updates w w' : flow_ok f sent read acked updates -> fl_writer f = Some w ->
  fl_pending f = None -> write_done w = false -> write_v2_pass (fl_sender f) w = Ok w' ->
  flow_ok (f <| fl_writer := Some w' |>) sent read acked updates.
Proof.
  intros Hf Hw Hp Hd. destruct (send_window_ok _ _ _ _ _ Hf Hp) as [E HP]. unfold write_v2_pass. rewrite E.
  cbn [mbind result_bind]. unfold write_done in Hd. apply Nat.leb_gt in Hd.
  pose proof (fo_room _ _ _ _ _ Hf). pose proof (fo_bound _ _ _ _ _ Hf).
  set (win := st_peer_window _ - _) in *. intros [= <-].
  assert (Hto : let w' := if 0 <? win then w <| wr_limit := (wr_off w + Nat.min (length (wr_src w) - wr_off w) (Z.to_nat win))%nat |>
      else w <| wr_limit := wr_off w |> in
    0 <= Z.of_nat (wr_limit w' - wr_off w') <= Z.max 0 win /\ (wr_limit w' <= length (wr_src w'))%nat).
  { destruct (Z.ltb_spec 0 win); cbn -[Nat.min Nat.sub Z.max]; lia. }
  destruct Hf. cbn zeta in Hto. set (w' := if 0 <? win then _ else _) in *.
  split; cbn; try done; unfold to_frame, uncounted in *; cbn; rewrite ?Hp in *; try lia. split; [apply Hto|by left].
Qed.

Lemma flow_emit_ok f sent read acked updates w fr : flow_ok f sent read acked updates -> fl_writer f = Some w ->
  fl_pending f = None -> next_frame (fl_sender f) w = Some fr ->
  flow_ok (f <| fl_pending := Some fr |> <| fl_data := fl_data f ++ [fr_data fr] |>) (sent + zlen (fr_data fr)) read acked
    updates.
Proof.
  intros [] Hw Hp Hnext. unfold to_frame, uncounted, in_flight in *. rewrite Hw, Hp in *. destruct fo_writer0 as [Hlim _].
  destruct (next_frame_spec _ _ _ fo_frames0 Hlim Hnext) as ((_ & _ & _ & Hne & _) & Hoff & _).
  assert (Hin : in_flight (f <| fl_pending := Some fr |> <| fl_data := fl_data f ++ [fr_data fr] |>)
    = in_flight f + zlen (fr_data fr)).
  { unfold in_flight. cbn. rewrite concat_app. cbn. by rewrite app_nil_r, zlen_app. }
  assert (0 < zlen (fr_data fr)) by (unfold zlen; destruct (fr_data fr); [done|cbn; lia]).
  split; unfold to_frame, uncounted; try rewrite Hin; cbn; rewrite ?Hw; try done; unfold in_flight, zlen in *; try lia.
  - rewrite fo_written0. f_equal. lia.
  - split; [apply fo_buf0|]. apply Forall_app. split; [apply fo_buf0|by constructor].
Qed.

Lemma count_ok f sent read acked updates w fr t w' : flow_ok f sent read acked updates -> fl_writer f = Some w ->
  fl_pending f = Some fr -> frame_written (fl_sender f) w fr = (t, w') ->
  flow_ok (f <| fl_pending := None |> <| fl_sender := t |> <| fl_writer := Some w' |>) sent read acked updates.
Proof.
  intros [] Hw Hp [= <- <-]. unfold to_frame, uncounted, in_flight in *. rewrite Hw, Hp in *. pose proof (zlen_nonneg (fr_data fr)).
  split; unfold to_frame, uncounted, in_flight, zlen in *; cbn; try done; try lia.
  - rewrite fo_written0. unfold wadd32, u32. zlia.
  - split; [apply fo_writer0|by left].
Qed.

Lemma arrive_ok f sent read acked updates d rest : flow_ok f sent read acked updates -> fl_data f = d :: rest ->
  flow_ok (f <| fl_data := rest |> <| fl_receiver := push_bytes (fl_receiver f) d |>) sent read acked updates.
Proof.
  intros [] Hd. unfold in_flight in *. rewrite Hd in *. destruct fo_buf0 as [Hb Hall]. apply Forall_cons in Hall as [Hne Hall].
  cbn [concat] in *. rewrite zlen_app in *. split; try done; unfold in_flight, zlen in *; cbn; try lia.
  split; [by apply push_bytes_ok|done].
Qed.

Lemma update_ok f sent read acked updates u rest : flow_ok f sent read acked updates -> fl_updates f = u :: rest ->
  exists acked' updates', flow_ok (f <| fl_updates := rest |>
    <| fl_sender := stream_update (fl_sender f) (upd_consumed u) (upd_window u) |>) sent read acked' updates'.
Proof.
  intros [] Hu. rewrite Hu in fo_updates0. destruct updates as [|c updates]; [done|]. injection fo_updates0 as -> Hups.
  exists c, updates. destruct fo_chain0 as (Hc0 & [Hc1 Hc2] & Hc3). cbn [newest] in *.
  destruct (upd_header_fields (u32 c) W) as [-> ->]; [apply u32_range|unfold is_u32; lia|].
  split; unfold to_frame, uncounted, in_flight in *; cbn; try done; try lia. split; [lia|done].
Qed.

Lemma flow_step_ok f k f' sent read acked updates : flow_ok f sent read acked updates -> 0 <= read ->
  flow_step cs cr f k f' -> exists sent' acked' updates', flow_ok f' sent' (read + k) acked' updates'.
Proof.
  intros Hf Hr Hstep. destruct Hstep as [src w Hw E|w w' Hw Hp _ Hd E|w fr Hw Hp E|w fr t w' Hw Hp E|w Hw Hp Hd
    |d rest E|blen data notify t Hq E|chunk notify t Hq E|chunk notify t E|notify t E|consumed p Hq E|u rest E]; rewrite ?Z.add_0_r.
  - apply write_start_v2 in E as ->. exists sent, acked, updates. destruct Hf. rewrite Hw in fo_writer0.
    unfold to_frame, uncounted in *. rewrite Hw, fo_writer0 in *.
    split; unfold to_frame, uncounted; cbn; rewrite ?fo_writer0; try done; try lia.
  - exists sent, acked, updates. by apply (pass_ok f sent read acked updates w).
  - exists (sent + zlen (fr_data fr)), acked, updates. by apply (flow_emit_ok f _ _ _ _ w).
  - exists sent, acked, updates. by apply (count_ok f sent read acked updates w fr).
  - exists sent, acked, updates. destruct Hf. unfold to_frame, uncounted in *. rewrite Hw, Hp in *.
    split; unfold to_frame, uncounted; cbn; rewrite ?Hp; try done; lia.
  - exists sent, acked, updates. by apply arrive_ok.
  - apply (read_section_took _ _ _ _ _ (proj1 (fo_buf _ _ _ _ _ Hf))) in E.
    destruct (took_ok f sent read acked updates t data notify Hf Hr Hq E) as (u & H). eauto.
  - apply (pop_chunk_took _ _ _ _ (proj1 (fo_buf _ _ _ _ _ Hf))) in E.
    destruct (took_ok f sent read acked updates t _ notify Hf Hr Hq E) as (u & H). eauto.
  - assert (Hne : chunk <> []).
    { destruct (pop_chunk_ok cr _ (proj1 (fo_buf _ _ _ _ _ Hf))) as (c & n & t2 & E2 & _ & _ & _ & _ & _ & Hc).
      rewrite E in E2. injection E2 as <- _ _. done. }
    apply (pop_chunk_took _ _ _ _ (proj1 (fo_buf _ _ _ _ _ Hf))) in E.
    destruct (queue_ok f sent read acked updates t chunk notify Hf Hr Hne E) as (u & H). eauto.
  - apply (pop_chunk_took _ _ _ _ (proj1 (fo_buf _ _ _ _ _ Hf))) in E.
    destruct (empty_chunk_ok f sent read acked updates t notify Hf Hr E) as (u & H). eauto.
  - exists sent, acked, updates. by apply sender_turn_ok.
  - destruct (update_ok f sent read acked updates u rest Hf E) as (a & us & H). eauto.
Qed.

Hypothesis Hframe : 1 <= cf_max_frame_size cs.

Lemma flow_new_ok sid : flow_ok (flow_new cs cr sid) 0 0 0 [].
Proof.
  split; cbn; try done; try lia.
  unfold window_max, INITIAL_PEER_WINDOW. lia.
Qed.

Lemma flow_run_ok sid n f : flow_run cs cr sid n f ->
  0 <= n /\ exists sent acked updates, flow_ok f sent n acked updates.
Proof.
  induction 1 as [|n f k f' _ (Hn & sent & acked & updates & Hf) Hstep].
  - split; [done|]. exists 0, 0, []. apply flow_new_ok.
  - split; [|by apply (flow_step_ok f k f' sent n acked updates)].
    assert (0 <= k) by (inversion Hstep; subst; try lia; apply zlen_nonneg). lia.
Qed.

End Window.

(** ** The window at the end of the counters

    [account_read] reports the count itself, and 0 for "none due": an update that falls due
    exactly when the count passes [2^32] is dropped.  The run below reads [h] bytes at a time
    until then, for a window of [2h] bytes. *)
Section Stall.
Context (cs cr : Config) (sid : Z) (h : nat).
Hypothesis Hcs : cf_version cs = 2.
Hypothesis Hcr : cf_version cr = 2.
Hypothesis Hh : (1 <= h)%nat.
Hypothesis HW : cf_max_stream_buffer cr = 2 * Z.of_nat h.
Hypothesis Hsmall : 2 * Z.of_nat h <= INITIAL_PEER_WINDOW.
Hypothesis Hframe : 2 * Z.of_nat h <= cf_max_frame_size cs.

(** Everything written was counted, everything read was accounted for. *)
Definition sender_at (written acked window : Z) : StreamInner :=
  (stream_new sid cs) <| st_num_written := written |> <| st_peer_consumed := acked |> <| st_peer_window := window |>.
Definition receiver_at (read : Z) : StreamInner :=
  (stream_new sid cr) <| st_buffer := mkStreamBuf [] 0 read 0 |>.
Definition flow_at (written acked window read : Z) (updates : list (list Z)) : Flow :=
  mkFlow (sender_at written acked window) None None [] updates (receiver_at read) (mkPendingUpdate 0 false).

Lemma next_silent n f f' : flow_run cs cr sid n f -> flow_step cs cr f 0 f' -> flow_run cs cr sid n f'.
Proof. intros H Hs. rewrite <- (Z.add_0_r n). by apply (flow_next cs cr sid n f). Qed.

Definition receiver_holding (data : list Z) (read : Z) : StreamInner :=
  (stream_new sid cr) <| st_buffer := mkStreamBuf [data] (length data) read 0 |>.

(** A read of everything, of half a window or more: an update is due. *)
Lemma read_all data read : data <> [] -> (h <= length data)%nat -> Z.of_nat (length data) < 4294967296 ->
  let read' := wadd32 read (u32 (zlen data)) in
  read_section cr (receiver_holding data read) (length data) = Ok (data, read', receiver_at read').
Proof.
  intros Hne Hlen Hu read'. unfold read_section.
  assert (E : consume_front (st_buffer (receiver_holding data read)) (length data) = Ok (data, mkStreamBuf [] 0 read 0)).
  { unfold consume_front. change (sb_chunks (st_buffer (receiver_holding data read))) with [data].
    change (sb_len (st_buffer (receiver_holding data read))) with (length data). cbv zeta iota.
    rewrite Nat.min_id. unfold usize_sub. rewrite Nat.leb_refl. cbn [mbind result_bind].
    by rewrite take_ge, drop_ge, Nat.sub_diag by lia. }
  rewrite E. cbn [mbind result_bind]. rewrite Hcr, Z.eqb_refl, account_read_eq. cbv zeta.
  rewrite HW. replace (u32 (Z.quot (2 * Z.of_nat h) 2)) with (Z.of_nat h); cycle 1.
  { rewrite Z.mul_comm, Z.quot_mul by lia. symmetry. apply u32_id. unfold is_u32, INITIAL_PEER_WINDOW in *. lia. }
  cbn [sb_num_read sb_incr sb_chunks sb_len].
  assert (Ei : wadd32 0 (u32 (Z.of_nat (length data))) = Z.of_nat (length data)).
  { unfold wadd32. rewrite Z.add_0_l, u32_idem. apply u32_id. unfold is_u32. lia. }
  rewrite Ei, (proj2 (Z.leb_le _ _)) by lia. done.
Qed.

(** [d] bytes written, framed, counted, received and read at once. *)
Lemma flow_cycle n m acked window d : flow_run cs cr sid n (flow_at m acked window m []) -> is_u32 m ->
  (h <= d <= 2 * h)%nat -> (exists win, send_window (sender_at m acked window) = Ok win /\ Z.of_nat d <= win) ->
  let m' := wadd32 m (Z.of_nat d) in
  flow_run cs cr sid (n + Z.of_nat d)
    (flow_at m' acked window m' (if 0 <? m' then [upd_header_new m' (2 * Z.of_nat h)] else [])).
Proof.
  intros H0 Hm Hd (win & Ewin & Hwin) m'. set (src := replicate d 0).
  assert (Hlen : length src = d) by apply length_replicate.
  assert (Hsrc : src <> []) by (intros E; rewrite E in Hlen; cbn in Hlen; lia).
  assert (Hud : u32 (Z.of_nat d) = Z.of_nat d) by (apply u32_id; unfold is_u32, INITIAL_PEER_WINDOW in *; lia).
  assert (Estart : write_start cs (sender_at m acked window) src = Ok (Some (mkWriter src 0 0))).
  { unfold write_start. destruct src; [done|]. cbn -[Z.eqb]. by rewrite Hcs. }
  eapply next_silent in H0; [|eapply flow_write; [reflexivity|exact Estart]].
  assert (Epass : write_v2_pass (sender_at m acked window) (mkWriter src 0 0) = Ok (mkWriter src 0 d)).
  { unfold write_v2_pass. rewrite Ewin. cbn [mbind result_bind]. rewrite (proj2 (Z.ltb_lt _ _)) by lia.
    cbn [wr_off wr_src]. replace (Nat.min _ _) with d by lia. done. }
  assert (Hnd : write_done (mkWriter src 0 0) = false) by (unfold write_done; cbn [wr_src wr_off]; apply Nat.leb_gt; lia).
  eapply next_silent in H0; [|eapply flow_pass; [reflexivity..|exact Hnd|exact Epass]].
  assert (Enext : next_frame (sender_at m acked window) (mkWriter src 0 d) = Some (mkFrame 2 CMD_PSH sid src)).
  { unfold next_frame. cbn [wr_off wr_limit wr_src]. rewrite (proj2 (Nat.ltb_lt _ _)) by lia. f_equal.
    assert (Ev : st_version (sender_at m acked window) = 2) by (cbn; by rewrite Hcs). rewrite Ev.
    change (st_frame_size _) with (cf_max_frame_size cs). rewrite drop_0, take_ge by lia. done. }
  eapply next_silent in H0; [|eapply flow_emit; [reflexivity..|exact Enext]].
  eapply next_silent in H0; [|eapply flow_count; [reflexivity..]].
  eapply next_silent in H0; [|eapply flow_end; [reflexivity..|]]; cycle 1.
  { unfold write_done. cbn [wr_src wr_off fr_data]. apply Nat.leb_le. cbn. lia. }
  eapply next_silent in H0; [|eapply flow_arrive; reflexivity].
  match type of H0 with flow_run _ _ _ _ ?f =>
    change f with (mkFlow (sender_at (wadd32 m (u32 (zlen src))) acked window) None None [] [] (receiver_holding src m)
      (mkPendingUpdate 0 false)) in H0 end.
  assert (Ez : wadd32 m (u32 (zlen src)) = m') by (unfold zlen; by rewrite Hlen, Hud). rewrite Ez in H0.
  assert (Eread : read_section cr (receiver_holding src m) d = Ok (src, m', receiver_at m')) by
    (rewrite <- Ez, <- Hlen; apply read_all; [done|lia|unfold INITIAL_PEER_WINDOW in *; lia]).
  eapply flow_next in H0; [|eapply flow_read; [reflexivity|exact Eread]].
  unfold zlen in H0. rewrite Hlen in H0. cbn [fl_updates] in H0. rewrite app_nil_l in H0.
  replace (owed cr (receiver_at m') src m') with (if 0 <? m' then [upd_header_new m' (2 * Z.of_nat h)] else []) in H0;
    [exact H0|].
  unfold owed. destruct src; [done|]. unfold window_update_frame. cbn [fr_data]. rewrite HW, u32_id; [done|].
  unfold is_u32, INITIAL_PEER_WINDOW in *. lia.
Qed.

(** With the update back: another half window. *)
Lemma flow_round n m window : flow_run cs cr sid n (flow_at m m window m []) -> 0 <= m ->
  m + Z.of_nat h < 4294967296 -> Z.of_nat h <= window <= INITIAL_PEER_WINDOW ->
  flow_run cs cr sid (n + Z.of_nat h) (flow_at (m + Z.of_nat h) (m + Z.of_nat h) (2 * Z.of_nat h) (m + Z.of_nat h) []).
Proof.
  intros H Hm Hlt Hwin. assert (Hu : wadd32 m (Z.of_nat h) = m + Z.of_nat h).
  { unfold wadd32. apply u32_id. unfold is_u32. lia. }
  assert (Ewin : send_window (sender_at m m window) = Ok window).
  { unfold send_window. cbn [sender_at st_num_written st_peer_consumed st_peer_window].
    change (st_num_written (sender_at m m window)) with m. change (st_peer_consumed (sender_at m m window)) with m.
    change (st_peer_window (sender_at m m window)) with window. unfold wsub32. rewrite Z.sub_diag.
    change (i32 (u32 0)) with 0. cbn [Z.ltb Z.compare]. unfold INITIAL_PEER_WINDOW in *.
    rewrite Z.sub_0_r, !i32_id; [done|unfold is_i32; lia..|rewrite i32_id; unfold is_i32; lia]. }
  apply (flow_cycle n m m window h) in H; [|unfold is_u32; lia|lia|exists window; split; [done|lia]].
  cbn zeta in H. rewrite Hu, (proj2 (Z.ltb_lt _ _)) in H by lia.
  eapply next_silent in H; [|eapply flow_update; reflexivity].
  destruct (upd_header_fields (m + Z.of_nat h) (2 * Z.of_nat h)) as [E1 E2]; [unfold is_u32, INITIAL_PEER_WINDOW in *; lia..|].
  cbn [fl_sender flow_at] in H. rewrite E1, E2 in H. exact H.
Qed.

(** Whole rounds up to [k] half windows. *)
Lemma flow_rounds k : Z.of_nat h * Z.of_nat (S k) < 4294967296 ->
  flow_run cs cr sid (Z.of_nat h * Z.of_nat (S k)) (flow_at (Z.of_nat h * Z.of_nat (S k)) (Z.of_nat h * Z.of_nat (S k))
    (2 * Z.of_nat h) (Z.of_nat h * Z.of_nat (S k)) []).
Proof.
  induction k as [|k IH]; intros Hk.
  - replace (Z.of_nat h * Z.of_nat 1) with (0 + Z.of_nat h) by lia.
    apply (flow_round 0 0 INITIAL_PEER_WINDOW); [apply flow_start|lia..].
  - replace (Z.of_nat h * Z.of_nat (S (S k))) with (Z.of_nat h * Z.of_nat (S k) + Z.of_nat h) by lia.
    apply (flow_round _ _ (2 * Z.of_nat h)); [apply IH; lia|lia..].
Qed.

(** The window that never opens again: everything was read, no update is on its way, and
    the writer has no room. *)
Lemma flow_stall k : Z.of_nat h * Z.of_nat (S k) = 4294967296 - 2 * Z.of_nat h ->
  exists f, flow_run cs cr sid 4294967296 f /\ fl_data f = [] /\ fl_updates f = [] /\ fl_pending f = None /\
    sb_len (st_buffer (fl_receiver f)) = 0%nat /\ pu_sending (fl_queued f) = false /\ send_window (fl_sender f) = Ok 0.
Proof.
  intros Hk. set (m := 4294967296 - 2 * Z.of_nat h). pose proof (flow_rounds k ltac:(lia)) as H. rewrite Hk in H.
  fold m in H. assert (Hsub : forall w, i32 (wsub32 w w) = 0) by (intros w; unfold i32, wsub32, u32; zlia).
  apply (flow_cycle m m m (2 * Z.of_nat h) (2 * h)) in H; [|unfold is_u32, INITIAL_PEER_WINDOW in *; lia|lia|].
  - cbn zeta in H. assert (E : wadd32 m (Z.of_nat (2 * h)) = 0).
    { unfold wadd32, u32. replace (m + Z.of_nat (2 * h)) with 4294967296 by lia. done. }
    rewrite E in H. cbn [Z.ltb Z.compare] in H.
    exists (flow_at 0 m (2 * Z.of_nat h) 0 []). split; [|do 5 (split; [reflexivity|])].
    + replace 4294967296 with (m + Z.of_nat (2 * h)) at 1 by lia. exact H.
    + unfold send_window. cbn [flow_at fl_sender]. change (st_num_written _) with 0. change (st_peer_consumed _) with m.
      change (st_peer_window _) with (2 * Z.of_nat h).
      assert (Ei : i32 (wsub32 0 m) = 2 * Z.of_nat h).
      { unfold wsub32, u32. unfold INITIAL_PEER_WINDOW in *. unfold i32. zlia. }
      rewrite Ei, (proj2 (Z.ltb_ge _ _)) by lia. f_equal. rewrite (i32_id (2 * Z.of_nat h)), Z.sub_diag; [done|].
      unfold is_i32, INITIAL_PEER_WINDOW in *. lia.
  - exists (2 * Z.of_nat h). split; [|lia]. unfold send_window. change (st_num_written _) with m.
    change (st_peer_consumed _) with m. change (st_peer_window _) with (2 * Z.of_nat h). rewrite Hsub.
    cbn [Z.ltb Z.compare]. f_equal. unfold INITIAL_PEER_WINDOW in *.
    rewrite Z.sub_0_r, !i32_id; [done|unfold is_i32; lia..|rewrite i32_id; unfold is_i32; lia].
Qed.
End Stall.
