(* ===== verification/SmuxTheorems.v ===== *)
(** * What a smux session promises

    For every run of the pieces of a session: the tokens account for every buffered
    byte, no piece of any task panics, and each stream delivers exactly the payloads
    that arrived for it, in order.  For the frames: they are parsed as they were
    written, and the pieces of a write are its bytes. *)
From stdpp Require Import base list gmap.
From Stdlib Require Import ZArith Lia.
From S2P Require Import Prelude Word SmuxFrame Shaper ShaperSpec SmuxStream SmuxSession SmuxInv.
From S2P Require Import SmuxRun SmuxWire SmuxFlow.
Local Open Scope Z_scope.

(** ** Runs *)

Lemma session_new_ok config client : config_ok config -> session_ok (session_new config client).
Proof.
  intros Hc. split; try done; cbn.
  - by rewrite Z.sub_0_r.
  - intros _. destruct Hc as (_ & _ & _ & ?). lia.
  - exists sched_empty. apply shaper_new_rep.
Qed.

Lemma session_run_ok config client tr s : config_ok config -> session_run config client tr s -> session_ok s.
Proof.
  intros Hc. induction 1 as [|tr s e s' _ IH Hstep]; [by apply session_new_ok|].
  by apply (session_step_good s e s').
Qed.

Lemma stream_fin_config s o s' : stream_fin s o = Ok s' -> ss_config s' = ss_config s.
Proof.
  unfold stream_fin, try_half_close_cleanup, get_obj. intros H.
  by ok_inv.
Qed.

Lemma recv_parts_config s s' sid payload rest :
  (recv_fin s sid = Ok s' -> ss_config s' = ss_config s) /\
  (recv_psh s sid payload = Ok s' -> ss_config s' = ss_config s) /\
  (recv_upd s sid payload = Ok s' -> ss_config s' = ss_config s) /\
  ss_config (recv_state s (recv_syn s sid rest)) = ss_config s.
Proof.
  unfold recv_syn, accept_send, recv_fin, recv_psh, recv_upd, get_obj. split; [|split; [|split]].
  - case_match; [apply stream_fin_config|by intros [= ->]].
  - intros H. by ok_inv.
  - intros H. by ok_inv.
  - destruct (ss_streams s !! sid); [done|]. match goal with |- context [if ?b then None else _] => by destruct b end.
Qed.

Lemma recv_frame_config s hdr rest r : recv_frame s hdr rest = Ok r -> ss_config (recv_state s r) = ss_config s.
Proof.
  pose proof (fun s' payload => recv_parts_config s s' (hdr_stream_id hdr) payload rest) as Hp.
  unfold recv_frame. intros H.
  destruct (_ =? CMD_NOP); [by injection H as <-|].
  destruct (_ =? CMD_SYN); [injection H as <-; by apply (Hp s [])|].
  destruct (_ =? CMD_FIN); [apply bind_Ok in H as (s' & E & [= <-]); revert E; apply (Hp s' [])|].
  destruct (_ =? CMD_PSH).
  { destruct (_ =? _)%nat; [by injection H as <-|]. destruct (_ <? _)%nat; [by injection H as <-|].
    apply bind_Ok in H as (s' & E & [= <-]). by revert E; apply Hp. }
  destruct (_ =? CMD_UPD); [|by injection H as <-]. destruct (_ <? _)%nat; [by injection H as <-|].
  apply bind_Ok in H as (s' & E & [= <-]). by revert E; apply Hp.
Qed.

Lemma recv_config s input r : recv_step s input = Ok r -> ss_config (recv_state s r) = ss_config s.
Proof.
  unfold recv_step. intros H. ok_inv; try done. apply recv_frame_config in H. by destruct r.
Qed.

Lemma close_shared_config s : ss_config (snd (close_shared s)) = ss_config s.
Proof. unfold close_shared. by case_match. Qed.

Lemma step_config s e s' : session_step s e s' -> ss_config s' = ss_config s.
Proof.
  intros H. destruct H; cbn; unfold next_stream, register_stream, accept_now, enqueue, send_next, send_outcome,
    close_write_start, try_half_close_cleanup, close_start, stream_recycle, drop_inner, try_read_take, try_read_chunk,
    write_advance, accept_send, expiry_tick, get_obj in *;
  try (by ok_inv); try exact (recv_config _ _ _ H0).
  - apply close_shared_config.
  - destruct (ss_active s); [done|]. destruct (_ <? _); [apply close_shared_config|done].
Qed.

Lemma run_config config client tr s : session_run config client tr s -> ss_config s = config.
Proof. induction 1 as [|tr s e s' _ IH Hstep]; [done|]. by rewrite (step_config _ _ _ Hstep). Qed.

Lemma run_accounts config client tr s o : config_ok config -> session_run config client tr s ->
  Discarded o ∉ tr -> concat (received o <$> tr) = concat (delivered o <$> tr) ++ contents s o.
Proof.
  intros Hc. induction 1 as [|tr s e s' Hrun IH Hstep]; intros Hd; [done|].
  rewrite elem_of_app in Hd. destruct (session_step_good s e s' (session_run_ok _ _ _ _ Hc Hrun) Hstep) as [_ Hacc].
  specialize (Hacc o ltac:(intros ->; apply Hd; right; by apply list_elem_of_singleton)).
  rewrite !fmap_app, !concat_app, IH by tauto. cbn. rewrite !app_nil_r, <- !app_assoc. by rewrite Hacc.
Qed.

(** A server's session after a peer opened stream 3 and sent two bytes. *)
Definition example_syn : Session :=
  match recv_step (session_new default_config false) [1;0;0;0;3;0;0;0] with
  | Ok (RecvNext s _) => s
  | _ => session_new default_config false
  end.
Definition example_session : Session :=
  match recv_step example_syn [1;2;2;0;3;0;0;0;7;8] with Ok (RecvNext s _) => s | _ => example_syn end.

Lemma default_config_ok : config_ok default_config.
Proof. by apply verify_config_ok. Qed.

Lemma small_bytes l : forallb (fun b => (0 <=? b) && (b <? 256)) l = true -> bytes l.
Proof.
  intros H. apply Forall_forall. intros b Hb. apply list_elem_of_In in Hb.
  pose proof (proj1 (forallb_forall _ _) H b Hb). cbn beta in *. unfold is_u8. to_prop. lia.
Qed.

Lemma smux_example_syn_run : session_run default_config false [Silent] example_syn.
Proof.
  refine (run_step _ _ [] (session_new default_config false) _ _ (run_start _ _) _).
  exact (step_recv_next (session_new default_config false) [1;0;0;0;3;0;0;0] example_syn [] (small_bytes [1;0;0;0;3;0;0;0] eq_refl) eq_refl).
Qed.

Lemma smux_example_run : session_run default_config false [Silent; Received 0 [7;8]] example_session.
Proof.
  refine (run_step _ _ [Silent] example_syn _ _ smux_example_syn_run _).
  exact (step_recv_next example_syn [1;2;2;0;3;0;0;0;7;8] example_session [] (small_bytes [1;2;2;0;3;0;0;0;7;8] eq_refl) eq_refl).
Qed.

(** ** The theorems *)

(** C19: Tokens.  In every state a session reaches, by any interleaving of its tasks, its
    callers and the frames of any peer, the bucket is the receive buffer's size less the
    bytes that streams hold, in the 32 bits it has; while the session is open it is exactly
    that, at most one frame below zero, and so all the streams together never hold more than
    [max_receive_buffer] and one frame.  At most [MAX_SHAPER_SIZE] frames are queued, and
    every entry of the map is a stream of that id. *)
Theorem smux_tokens config client tr s : config_ok config -> session_run config client tr s ->
  ss_bucket s = i32 (cf_max_receive_buffer config - Z.of_nat (buffered s)) /\
  (is_closed s = false ->
     ss_bucket s = cf_max_receive_buffer config - Z.of_nat (buffered s) /\ -65535 < ss_bucket s) /\
  (sq_count (ss_shaper s) <= MAX_SHAPER_SIZE)%nat /\
  (forall sid o, ss_streams s !! sid = Some o -> exists t, ss_objs s !! o = Some t /\ st_id t = sid).
Proof.
  intros Hc Hrun. pose proof (session_run_ok _ _ _ _ Hc Hrun) as Hs. rewrite <- (run_config _ _ _ _ Hrun) in *.
  split; [apply Hs|]. split; [|split; [pose proof (so_slots _ Hs); lia|apply Hs]].
  intros Hopen. pose proof (so_bound _ Hs Hopen). destruct Hc as (_ & _ & _ & _ & Hmax).
  rewrite (so_tokens _ Hs), i32_id; unfold is_i32; lia.
Qed.

Lemma smux_tokens_witness : ss_bucket example_session = 4194304 - 2.
Proof.
  exact (proj1 (smux_tokens default_config false _ example_session default_config_ok smux_example_run)).
Defined.

(** C17: A stream delivers what arrived.  For a stream whose data was never thrown away by a
    close, the bytes its readers got are, in order, the payloads that arrived for it without
    the bytes still buffered; and a read gets more of them unless there are none when it
    looks into the buffer.  Then it answers the end of the stream if the stream has died by
    the time it looks at that, and that it would block otherwise.  Whatever other steps came
    in between, what either answer leaves in the buffer is exactly what arrived in between
    and no other reader took: data that arrived before the read is never hidden. *)
Theorem smux_delivers config client tr s o t blen : config_ok config -> session_run config client tr s ->
  Discarded o ∉ tr -> ss_objs s !! o = Some t -> (0 < blen)%nat ->
  exists taken notify s1, try_read_take s o blen = Ok (taken, notify, s1) /\
    session_run config client (tr ++ [read_event o taken]) s1 /\
    match taken with
    | Some data => data <> [] /\ concat (received o <$> tr) = concat (delivered o <$> tr) ++ data ++ contents s1 o
    | None => concat (received o <$> tr) = concat (delivered o <$> tr)
    end /\
    forall between s2 t2, session_steps s1 between s2 -> Discarded o ∉ between -> ss_objs s2 !! o = Some t2 ->
      try_read_answer taken s2 o = Ok (match taken with
                                       | Some data => Read data
                                       | None => if st_die t2 then Eof else TryWouldBlock
                                       end) /\
      (taken = None -> concat (received o <$> between) = concat (delivered o <$> between) ++ contents s2 o).
Proof.
  intros Hc Hrun Hd Ho Hb. pose proof (session_run_ok _ _ _ _ Hc Hrun) as Hs.
  destruct (try_read_ok s o t blen Hs Ho Hb) as (taken & notify & s1 & E & Hg & Hr).
  exists taken, notify, s1. split; [done|].
  assert (Hrun' : session_run config client (tr ++ [read_event o taken]) s1).
  { apply (run_step _ _ _ s); [done|]. by apply (step_read s o blen taken notify). }
  split; [done|]. pose proof (run_accounts _ _ _ _ o Hc Hrun Hd) as Eacc. split.
  { rewrite Eacc. destruct taken as [data|].
    - split; [done|]. f_equal. destruct Hg as [_ Hacc]. specialize (Hacc o ltac:(done)). cbn in Hacc.
      by rewrite decide_True, app_nil_r in Hacc.
    - destruct Hr as [-> _]. by rewrite app_nil_r. }
  intros between s2 t2 Hsteps Hd2 Ho2. split.
  { destruct taken; [done|]. unfold try_read_answer, get_obj. by rewrite Ho2. }
  intros ->. destruct Hr as (E0 & _ & _). rewrite E0, app_nil_r in Eacc. pose proof (run_steps _ _ _ _ _ _ Hrun' Hsteps) as Hrun2.
  pose proof (run_accounts _ _ _ _ o Hc Hrun2) as Eacc2. rewrite !fmap_app, !concat_app, Eacc, <- !app_assoc in Eacc2. cbn in Eacc2.
  apply app_inv_head in Eacc2; [done|]. intros [H|[H|H]%elem_of_cons]%elem_of_app; done.
Qed.

(** The end of a stream while data is buffered.  A reader finds nothing; before it looks
    whether the stream died, the peer's data and FIN arrive on a stream whose own side is
    closed, and the task that received them closes it: the reader is told that the stream
    ended, with the data in the buffer. *)
Definition example_race : io (Session * TryRead * Session) :=
  '(_, s) ← close_write_start example_syn 0;
  '(taken, _, s1) ← try_read_take s 0 16;
  r ← recv_step s1 [1;2;2;0;3;0;0;0;7;8];
  match r with
  | RecvNext s2 _ =>
      r ← recv_step s2 [1;1;0;0;3;0;0;0];
      match r with
      | RecvNext s3 _ => answer ← try_read_answer taken s3 0; Ok (s1, answer, s3)
      | _ => Panic
      end
  | _ => Panic
  end.

Lemma eof_hides_data : exists s1 s3, example_race = Ok (s1, Eof, s3) /\ contents s1 0 = [] /\ contents s3 0 = [7; 8] /\
  exists r n s4, try_read_take s3 0 16 = Ok (r, n, s4) /\ r = Some [7; 8].
Proof.
  eexists _, _. split; [vm_compute; reflexivity|]. split; [reflexivity|]. split; [vm_compute; reflexivity|].
  do 3 eexists. split; vm_compute; reflexivity.
Qed.

Lemma never_discarded o tr : Forall (fun e => match e with Discarded _ => False | _ => True end) tr -> Discarded o ∉ tr.
Proof. rewrite Forall_forall. intros Hall Hin. exact (Hall _ Hin). Qed.

(** The payload is taken; and at an empty buffer, the answer is to wait. *)
Lemma smux_delivers_witness :
  (exists taken notify s1, try_read_take example_session 0 1 = Ok (taken, notify, s1) /\
     match taken with Some data => [7; 8] = data ++ contents s1 0 | None => False end) /\
  exists taken notify s1, try_read_take example_syn 0 1 = Ok (taken, notify, s1) /\ try_read_answer taken s1 0 = Ok TryWouldBlock.
Proof.
  split.
  - destruct (smux_delivers default_config false _ example_session 0
      (match ss_objs example_session !! 0%nat with Some t => t | None => stream_new 0 default_config end) 1
      default_config_ok smux_example_run) as (r & n & s1 & E & _ & Hr & _).
    + apply never_discarded. repeat constructor.
    + reflexivity.
    + lia.
    + exists r, n, s1. split; [exact E|]. destruct r as [data|]; [exact (proj2 Hr)|discriminate Hr].
  - destruct (smux_delivers default_config false _ example_syn 0
      (match ss_objs example_syn !! 0%nat with Some t => t | None => stream_new 0 default_config end) 1
      default_config_ok smux_example_syn_run) as (r & n & s1 & E & _ & _ & Ha).
    + apply never_discarded. repeat constructor.
    + reflexivity.
    + lia.
    + exists r, n, s1. split; [exact E|]. vm_compute in E. injection E as <- <- <-.
      exact (proj1 (Ha [] _ _ (steps_none _) (never_discarded _ [] (Forall_nil_2 _)) eq_refl)).
Defined.

(** C35: No panic.  In every state a session reaches, each piece of the receiving and the
    sending task, and each operation on one of its streams, succeeds: whatever bytes the
    peer sends, no length underflows, no index is out of range and no map entry dangles. *)
Theorem smux_total config client tr s : config_ok config -> session_run config client tr s ->
  (forall input, bytes input -> exists r, recv_step s input = Ok r) /\
  (exists sent s', send_next s = Ok (sent, s')) /\
  (forall class seq frame result, (0 < ss_slots s)%nat ->
     exists s', enqueue s class seq frame result = Some (Ok s')) /\
  (forall o blen, (o < length (ss_objs s))%nat -> (0 < blen)%nat ->
     (exists r n s', try_read_take s o blen = Ok (r, n, s')) /\ (exists r n s', try_read_chunk s o = Ok (r, n, s')) /\
     (forall taken, exists answer, try_read_answer taken s o = Ok answer) /\
     (exists r s', close_write_start s o = Ok (r, s')) /\ (exists s', try_half_close_cleanup s o = Ok s') /\
     (exists r s', close_start s o = Ok (r, s')) /\ (exists s', stream_closed s o = Ok s') /\
     (exists f s', drop_stream s o = Ok (f, s')) /\ (exists s', drop_inner s o = Ok s')).
Proof.
  intros Hc Hrun. pose proof (session_run_ok _ _ _ _ Hc Hrun) as Hs. split; [|split; [|split]].
  - intros input Hi. destruct (recv_step_ok s input Hs Hi) as (r & E & _). eauto.
  - destruct (send_next_ok s Hs) as (? & ? & E & _). eauto.
  - intros class seq frame result Hn. destruct (ss_slots s) as [|slots] eqn:E; [lia|].
    destruct (enqueue_ok s class seq frame result slots Hs E) as (s' & E' & _). eauto.
  - intros o blen (t & Ho)%has_obj Hb.
    destruct (try_read_ok s o t blen Hs Ho Hb) as (? & ? & ? & E1 & _).
    destruct (try_read_chunk_ok s o t Hs Ho) as (? & ? & ? & E2 & _).
    destruct (close_write_start_ok s o t Hs Ho) as (? & ? & E3 & _).
    destruct (half_close_ok s o t Hs Ho) as (? & E4 & _).
    destruct (close_start_ok s o t Hs Ho) as (r & s1 & E5 & [Hs1 _] & Hlen).
    destruct (stream_closed_ok s o t Hs Ho) as (? & E6 & _).
    destruct (drop_inner_ok s o t Hs Ho) as (? & E7 & _).
    assert (E8 : exists f s', drop_stream s o = Ok (f, s')).
    { unfold drop_stream. rewrite E5. cbn [mbind result_bind]. destruct r; [|eauto..].
      destruct (has_obj s1 o) as (t1 & Ht1); [rewrite Hlen; by eapply lookup_lt_Some|].
      destruct (stream_closed_ok s1 o t1 Hs1 Ht1) as (s2 & -> & _). cbn [mbind result_bind]. eauto. }
    assert (E9 : forall taken, exists answer, try_read_answer taken s o = Ok answer).
    { intros [data|]; [by eexists|]. unfold try_read_answer, get_obj. rewrite Ho. by eexists. }
    repeat split; eauto.
Qed.

Lemma smux_total_witness : exists sent s', send_next example_session = Ok (sent, s').
Proof. exact (proj1 (proj2 (smux_total default_config false _ example_session default_config_ok smux_example_run))). Defined.

(** C18: A write arrives.  One pass of a write ends, at the end of the source in version 1
    and at the peer's window in version 2, having counted the bytes it wrote; and the
    receiving task of a peer with that many tokens, given the bytes of the frames of the
    pass, leaves none of them and has appended exactly the bytes of the source up to there to
    the stream with the writer's id. *)
Theorem smux_write_arrives config t src w0 w s o :
  write_start config t src = Ok (Some w0) -> write_pass config t w0 = Ok w ->
  1 <= st_frame_size t <= 65535 -> is_u32 (st_num_written t) -> is_u32 (st_id t) ->
  session_ok s -> ss_version s = st_version t -> ss_streams s !! st_id t = Some o ->
  Z.of_nat (wr_limit w) <= ss_bucket s <= 2147483647 ->
  exists fs t' w' s', write_frames (length src) t w = (fs, (t', w')) /\
    (cf_version config <> 2 -> write_done w' = true) /\ next_frame t' w' = None /\
    st_num_written t' = u32 (st_num_written t + Z.of_nat (wr_limit w)) /\
    recv_loop (length fs) s (encode_all fs) = Ok (s', []) /\
    contents s' o = contents s o ++ take (wr_limit w) src /\
    ss_bucket s' = ss_bucket s - Z.of_nat (wr_limit w).
Proof.
  intros Hstart Hpass Hfs Hnw Hid Hs Hv Ho Hb.
  destruct (write_pass_spec _ _ _ _ _ Hstart Hpass) as (Hsrc & Hoff & Hlim & Hv1).
  destruct w as [src' off limit]. cbn [wr_src wr_off wr_limit] in *. subst src' off.
  destruct (write_frames_spec src limit (length src) t 0) as (fs & E & Hp & Hall); [lia|done|lia|lia|].
  rewrite Nat.sub_0_r in *. rewrite drop_0 in Hp.
  assert (Hlen : zlen (payloads fs) = Z.of_nat limit) by (rewrite Hp; unfold zlen; rewrite length_take; lia).
  destruct (recv_data_frames (st_id t) o fs s) as (s' & E' & _ & Hc & Hb'); [done..| |by rewrite Hlen|].
  { apply (Forall_impl _ _ _ Hall). intros f (H1 & H2 & H3 & H4 & H5). split_and!; try done; [congruence|lia]. }
  eexists fs, _, _, s'. split; [exact E|]. rewrite <- Hp, <- Hlen. split_and!; try done.
  - intros H2. unfold write_done. cbn. apply Nat.leb_le. by rewrite Hv1.
  - unfold next_frame. cbn [wr_off wr_limit]. by rewrite Nat.ltb_irrefl.
Qed.

Lemma smux_write_arrives_witness : exists fs s',
  recv_loop (length fs) example_session (encode_all fs) = Ok (s', []) /\ contents s' 0 = [7; 8] ++ [9; 10; 11].
Proof.
  destruct (smux_write_arrives default_config (stream_new 3 default_config) [9; 10; 11] (mkWriter [9; 10; 11] 0 3)
    (mkWriter [9; 10; 11] 0 3) example_session 0) as (fs & t' & w' & s' & _ & _ & _ & _ & E & Hc & _);
    [reflexivity|reflexivity|cbn; lia|unfold is_u32; cbn; lia|unfold is_u32; cbn; lia| |reflexivity|reflexivity| |].
  - exact (session_run_ok _ _ _ _ default_config_ok smux_example_run).
  - change (ss_bucket example_session) with 4194302. cbn. lia.
  - exists fs, s'. split; [exact E|exact Hc].
Defined.



(** The bound on the bytes read is needed: with a window of 8192 bytes, read in halves, the
    update due at [2^32] is lost; everything was read, nothing is on its way, and the writer
    has no room. *)
Theorem window_update_lost :
  let cf := mkConfig 2 false 10000000000 30000000000 32768 4194304 8192 in
  config_ok cf /\ exists f, flow_run cf cf 3 4294967296 f /\ fl_data f = [] /\ fl_updates f = [] /\
    fl_pending f = None /\ sb_len (st_buffer (fl_receiver f)) = 0%nat /\ pu_sending (fl_queued f) = false /\
    send_window (fl_sender f) = Ok 0.
Proof.
  intros cf. split; [by apply verify_config_ok|].
  apply (flow_stall cf cf 3 (Z.to_nat 4096) eq_refl eq_refl) with (k := Z.to_nat 1048573); rewrite ?Nat2Z.inj_succ, ?Z2Nat.id;
    unfold INITIAL_PEER_WINDOW; cbn [cf cf_max_stream_buffer cf_max_frame_size]; lia.
Qed.
