(* ===== verification/CipherWord.v ===== *)
(** * Words of the block ciphers

    Rotations, exclusive or and big-endian bytes of the 32- and 64-bit words the ciphers
    of [crypt] compute with. *)
From stdpp Require Import base list.
From Stdlib Require Import ZArith Lia String.
From S2P Require Import Prelude Word.
Local Open Scope Z_scope.

Create HintDb word.

(** [u32::rotate_left] and [rotate_right] by [n] from 0 to 32. *)
Definition rotl32 (x n : Z) : Z := Z.lor (u32 (Z.shiftl x n)) (Z.shiftr x (32 - n)).
Definition rotr32 (x n : Z) : Z := Z.lor (Z.shiftr x n) (u32 (Z.shiftl x (32 - n))).

(** [to_be_bytes] and [from_be_bytes]. *)
Definition be_bytes (n : nat) (z : Z) : list Z := rev (le_bytes n z).
Definition be_val (l : list Z) : Z := le_val (rev l).

Definition is_u64 (z : Z) : Prop := 0 <= z < 18446744073709551616.

(** [a[i]] of a fixed-size array; the ciphers index by constants and masked values. *)
Definition at_ (l : list Z) (i : Z) : Z := l !!! Z.to_nat i.

(** The errors of the constructors. *)
Inductive CryptError :=
| KeySize (pkg : string) (size : nat)
| Cast5KeySize
| Sm4KeySize (size : nat)
| TeaKeySize
| TeaOddRounds.

(** The words of a key or block, big-endian: [as_chunks::<4>] and [from_be_bytes]. *)
Definition be_words (n : nat) (l : list Z) : list Z :=
  (fun i => be_val (take 4 (drop (4 * i) l))) <$> seq 0 n.
Definition le_words (n : nat) (l : list Z) : list Z :=
  (fun i => le_val (take 4 (drop (4 * i) l))) <$> seq 0 n.

(** ** Bits *)

Lemma high_bit x n i : 0 <= x < 2 ^ n -> n <= i -> Z.testbit x i = false.
Proof.
  intros Hx Hi. destruct (decide (0 <= n)); [|rewrite Z.pow_neg_r in Hx; lia].
  rewrite <- (Z.mod_small x (2 ^ n)) by lia. by apply Z.mod_pow2_bits_high.
Qed.

Lemma range_of_bits x n : 0 <= n -> 0 <= x -> (forall i, n <= i -> Z.testbit x i = false) -> x < 2 ^ n.
Proof.
  intros Hn Hx Hb. enough (E : x = x mod 2 ^ n) by (rewrite E; apply Z.mod_pos_bound; lia).
  apply Z.bits_inj'. intros i Hi. destruct (decide (i < n)).
  - by rewrite Z.mod_pow2_bits_low.
  - rewrite Z.mod_pow2_bits_high by lia. apply Hb. lia.
Qed.

Lemma u32_pow x : is_u32 x <-> 0 <= x < 2 ^ 32.
Proof. done. Qed.
Lemma u64_pow x : is_u64 x <-> 0 <= x < 2 ^ 64.
Proof. done. Qed.

Lemma lxor_range n a b : 0 <= n -> 0 <= a < 2 ^ n -> 0 <= b < 2 ^ n -> 0 <= Z.lxor a b < 2 ^ n.
Proof.
  intros Hn Ha Hb. assert (0 <= Z.lxor a b) by (apply Z.lxor_nonneg; lia). split; [done|].
  apply range_of_bits; try done. intros i Hi. rewrite Z.lxor_spec, !(high_bit _ n) by done. done.
Qed.

Lemma lxor_u32 a b : is_u32 a -> is_u32 b -> is_u32 (Z.lxor a b).
Proof. exact (lxor_range 32 a b ltac:(lia)). Qed.

Lemma lxor_cancel a b : Z.lxor (Z.lxor a b) b = a.
Proof. by rewrite Z.lxor_assoc, Z.lxor_nilpotent, Z.lxor_0_r. Qed.

Lemma rotl32_bit x n i : is_u32 x -> 0 <= n <= 32 -> 0 <= i < 32 ->
  Z.testbit (rotl32 x n) i = if decide (i < n) then Z.testbit x (i + 32 - n) else Z.testbit x (i - n).
Proof.
  intros Hx Hn Hi. unfold rotl32, u32. change 4294967296 with (2 ^ 32).
  rewrite Z.lor_spec, Z.mod_pow2_bits_low, Z.shiftl_spec, Z.shiftr_spec by lia. case_decide.
  - rewrite Z.testbit_neg_r by lia. cbn. f_equal. lia.
  - rewrite (high_bit x 32 (i + (32 - n))) by (done || lia). by rewrite orb_false_r.
Qed.

Lemma rotr32_bit x n i : is_u32 x -> 0 <= n <= 32 -> 0 <= i < 32 ->
  Z.testbit (rotr32 x n) i = if decide (i + n < 32) then Z.testbit x (i + n) else Z.testbit x (i + n - 32).
Proof.
  intros Hx Hn Hi. unfold rotr32, u32. change 4294967296 with (2 ^ 32).
  rewrite Z.lor_spec, Z.mod_pow2_bits_low, Z.shiftl_spec, Z.shiftr_spec by lia. case_decide.
  - rewrite (Z.testbit_neg_r _ (i - (32 - n))) by lia. by rewrite orb_false_r.
  - rewrite (high_bit x 32 (i + n)) by (done || lia). cbn. f_equal. lia.
Qed.

Lemma rotl32_range x n : is_u32 x -> 0 <= n <= 32 -> is_u32 (rotl32 x n).
Proof.
  intros Hx Hn. unfold rotl32. pose proof (u32_range (Z.shiftl x n)) as Hu. unfold is_u32 in *.
  assert (H0 : 0 <= Z.shiftr x (32 - n)) by (apply Z.shiftr_nonneg; lia).
  assert (H1 : 0 <= Z.lor (u32 (Z.shiftl x n)) (Z.shiftr x (32 - n))) by (apply Z.lor_nonneg; lia).
  split; [done|]. apply (range_of_bits _ 32); [lia|done|]. intros i Hi. rewrite Z.lor_spec, Z.shiftr_spec by lia.
  rewrite (high_bit _ 32 i), (high_bit x 32) by (done || lia). done.
Qed.

Lemma rotr32_range x n : is_u32 x -> 0 <= n <= 32 -> is_u32 (rotr32 x n).
Proof.
  intros Hx Hn. unfold rotr32. pose proof (u32_range (Z.shiftl x (32 - n))) as Hu. unfold is_u32 in *.
  assert (H0 : 0 <= Z.shiftr x n) by (apply Z.shiftr_nonneg; lia).
  assert (H1 : 0 <= Z.lor (Z.shiftr x n) (u32 (Z.shiftl x (32 - n)))) by (apply Z.lor_nonneg; lia).
  split; [done|]. apply (range_of_bits _ 32); [lia|done|]. intros i Hi. rewrite Z.lor_spec, Z.shiftr_spec by lia.
  rewrite (high_bit _ 32 i), (high_bit x 32) by (done || lia). done.
Qed.

(** Two words with the same 32 bits. *)
Lemma word_eq x y : is_u32 x -> is_u32 y -> (forall i, 0 <= i < 32 -> Z.testbit x i = Z.testbit y i) -> x = y.
Proof.
  intros Hx Hy H. apply Z.bits_inj'. intros i Hi. destruct (decide (i < 32)); [apply H; lia|].
  by rewrite !(high_bit _ 32) by (done || lia).
Qed.

Lemma rotr_rotl x n : is_u32 x -> 0 <= n <= 32 -> rotr32 (rotl32 x n) n = x.
Proof.
  intros Hx Hn. pose proof (rotl32_range x n Hx Hn). apply word_eq; [by apply rotr32_range|done|].
  intros i Hi. rewrite rotr32_bit by done. case_decide; rewrite rotl32_bit by (done || lia); case_decide; f_equal; lia.
Qed.

Lemma rotl_rotr x n : is_u32 x -> 0 <= n <= 32 -> rotl32 (rotr32 x n) n = x.
Proof.
  intros Hx Hn. pose proof (rotr32_range x n Hx Hn). apply word_eq; [by apply rotl32_range|done|].
  intros i Hi. rewrite rotl32_bit by done. case_decide; rewrite rotr32_bit by (done || lia); case_decide; f_equal; lia.
Qed.

Lemma wsub_wadd x y : is_u32 x -> wsub32 (wadd32 x y) y = x.
Proof. unfold is_u32, wsub32, wadd32, u32. intros. zlia. Qed.
Lemma wadd_wsub x y : is_u32 x -> wadd32 (wsub32 x y) y = x.
Proof. unfold is_u32, wsub32, wadd32, u32. intros. zlia. Qed.
Lemma wadd_range x y : is_u32 (wadd32 x y).
Proof. apply u32_range. Qed.
Lemma wsub_range x y : is_u32 (wsub32 x y).
Proof. apply u32_range. Qed.

(** ** Bytes *)

Lemma length_be_bytes n z : length (be_bytes n z) = n.
Proof. unfold be_bytes. by rewrite length_rev, length_le_bytes. Qed.

Lemma be_bytes_bytes n z : bytes (be_bytes n z).
Proof. apply Forall_rev, le_bytes_bytes. Qed.

Lemma be_val_be_bytes n z : be_val (be_bytes n z) = z mod 256 ^ Z.of_nat n.
Proof. unfold be_val, be_bytes. by rewrite rev_involutive, le_val_le_bytes. Qed.

Lemma be_val_word z : is_u32 z -> be_val (be_bytes 4 z) = z.
Proof. intros. rewrite be_val_be_bytes. by apply Z.mod_small. Qed.

Lemma le_val_word z : is_u32 z -> le_val (le_bytes 4 z) = z.
Proof. intros. rewrite le_val_le_bytes. by apply Z.mod_small. Qed.

Lemma be_bytes_be_val n l : bytes l -> length l = n -> be_bytes n (be_val l) = l.
Proof.
  intros Hb Hl. unfold be_bytes, be_val. rewrite <- Hl, <- length_rev, le_bytes_le_val by by apply Forall_rev.
  apply rev_involutive.
Qed.

Lemma be_val_range l : bytes l -> 0 <= be_val l < 256 ^ Z.of_nat (length l).
Proof. intros Hb. unfold be_val. rewrite <- length_rev. by apply le_val_range, Forall_rev. Qed.

Lemma be_val_u32 l : bytes l -> (length l <= 4)%nat -> is_u32 (be_val l).
Proof.
  intros Hb Hl. pose proof (be_val_range l Hb).
  assert (256 ^ Z.of_nat (length l) <= 256 ^ 4) by (apply Z.pow_le_mono_r; lia). unfold is_u32. lia.
Qed.

Lemma le_val_u32 l : bytes l -> (length l <= 4)%nat -> is_u32 (le_val l).
Proof.
  intros Hb Hl. pose proof (le_val_range l Hb).
  assert (256 ^ Z.of_nat (length l) <= 256 ^ 4) by (apply Z.pow_le_mono_r; lia). unfold is_u32. lia.
Qed.

Lemma take_bytes n m l : bytes l -> bytes (take n (drop m l)).
Proof. intros. by apply Forall_take, Forall_drop. Qed.

Lemma length_take4 m (l : list Z) : (length (take 4 (drop m l)) <= 4)%nat.
Proof. rewrite length_take. lia. Qed.

Lemma be_words_u32 n l : bytes l -> Forall is_u32 (be_words n l).
Proof.
  intros Hb. unfold be_words. apply Forall_fmap, Forall_true. intros i. cbn.
  apply be_val_u32; [by apply take_bytes|apply length_take4].
Qed.

Lemma le_words_u32 n l : bytes l -> Forall is_u32 (le_words n l).
Proof.
  intros Hb. unfold le_words. apply Forall_fmap, Forall_true. intros i. cbn.
  apply le_val_u32; [by apply take_bytes|apply length_take4].
Qed.

Lemma at_u32 l i : Forall is_u32 l -> is_u32 (at_ l i).
Proof.
  intros Hl. unfold at_. destruct (l !! Z.to_nat i) as [x|] eqn:E.
  - rewrite (list_lookup_total_correct _ _ _ E). by apply (Forall_lookup_1 _ _ _ _ Hl E).
  - rewrite list_lookup_total_alt, E. by unfold is_u32.
Qed.

(** Equal up to the order of exclusive ors. *)
Ltac xor_eq :=
  apply Z.bits_inj'; intros ? _; rewrite ?Z.lxor_spec;
  repeat match goal with |- context [Z.testbit ?x ?i] => destruct (Z.testbit x i) end; reflexivity.

(** Two values exclusive-ored in and again in the same order. *)
Lemma lxor_cancel2 l a b : Z.lxor (Z.lxor (Z.lxor (Z.lxor l a) b) a) b = l.
Proof. xor_eq. Qed.

(** The rows of a table checked to hold words. *)
Lemma table_u32 (T : list (list Z)) j :
  forallb (forallb (fun x => (0 <=? x) && (x <? 4294967296))) T = true -> Forall is_u32 (T !!! j).
Proof.
  intros H. destruct (T !! j) as [l|] eqn:E.
  - rewrite (list_lookup_total_correct _ _ _ E). rewrite forallb_forall in H.
    assert (Hl : In l T) by (apply list_elem_of_In; by eapply list_elem_of_lookup_2).
    specialize (H _ Hl). rewrite forallb_forall in H. apply Forall_forall. intros x Hx%list_elem_of_In.
    specialize (H _ Hx). cbn beta in H. unfold is_u32. lia.
  - rewrite list_lookup_total_alt, E. constructor.
Qed.

Lemma be_words_app n c l : length c = 4%nat -> be_words (S n) (c ++ l) = be_val c :: be_words n l.
Proof.
  intros Hc. unfold be_words. cbn [seq fmap list_fmap]. f_equal.
  - by rewrite Nat.mul_0_r, drop_0, take_app_length' by done.
  - rewrite <- fmap_S_seq, <- list_fmap_compose. apply list_fmap_ext. intros _ i _. cbn [compose].
    replace (4 * S i)%nat with (4 + 4 * i)%nat by lia. by rewrite <- drop_drop, drop_app_length' by done.
Qed.

Lemma le_words_app n c l : length c = 4%nat -> le_words (S n) (c ++ l) = le_val c :: le_words n l.
Proof.
  intros Hc. unfold le_words. cbn [seq fmap list_fmap]. f_equal.
  - by rewrite Nat.mul_0_r, drop_0, take_app_length' by done.
  - rewrite <- fmap_S_seq, <- list_fmap_compose. apply list_fmap_ext. intros _ i _. cbn [compose].
    replace (4 * S i)%nat with (4 + 4 * i)%nat by lia. by rewrite <- drop_drop, drop_app_length' by done.
Qed.

Lemma be_words_concat ws : Forall is_u32 ws -> be_words (length ws) (concat (be_bytes 4 <$> ws)) = ws.
Proof.
  induction 1 as [|w ws Hw _ IH]; [done|]. cbn [length fmap list_fmap concat].
  rewrite be_words_app by apply length_be_bytes. by rewrite IH, be_val_word.
Qed.

Lemma le_words_concat ws : Forall is_u32 ws -> le_words (length ws) (concat (le_bytes 4 <$> ws)) = ws.
Proof.
  induction 1 as [|w ws Hw _ IH]; [done|]. cbn [length fmap list_fmap concat].
  rewrite le_words_app by apply length_le_bytes. by rewrite IH, le_val_word.
Qed.

Lemma concat_be_words n : forall l, bytes l -> length l = (4 * n)%nat -> concat (be_bytes 4 <$> be_words n l) = l.
Proof.
  induction n as [|n IH]; intros l Hb Hl; [by destruct l|]. rewrite <- (take_drop 4 l).
  assert (Ht : length (take 4 l) = 4%nat) by (rewrite length_take; lia).
  rewrite be_words_app by done. cbn [fmap list_fmap concat].
  rewrite be_bytes_be_val by (done || by apply Forall_take). f_equal. apply IH; [by apply Forall_drop|].
  rewrite length_drop. lia.
Qed.

Lemma concat_le_words n : forall l, bytes l -> length l = (4 * n)%nat -> concat (le_bytes 4 <$> le_words n l) = l.
Proof.
  induction n as [|n IH]; intros l Hb Hl; [by destruct l|]. rewrite <- (take_drop 4 l).
  assert (Ht : length (take 4 l) = 4%nat) by (rewrite length_take; lia).
  rewrite le_words_app by done. cbn [fmap list_fmap concat].
  rewrite <- Ht at 1. rewrite le_bytes_le_val by by apply Forall_take. f_equal. apply IH; [by apply Forall_drop|].
  rewrite length_drop. lia.
Qed.

Lemma add_shift n a c : 0 <= n -> 0 <= a < 2 ^ n -> a + 2 ^ n * c = Z.lxor a (Z.shiftl c n).
Proof.
  intros Hn Ha. rewrite Z.mul_comm, <- Z.shiftl_mul_pow2 by done. apply Z.add_nocarry_lxor.
  apply Z.bits_inj'. intros i Hi. rewrite Z.land_spec, Z.bits_0, Z.shiftl_spec by done. destruct (decide (i < n)).
  - by rewrite (Z.testbit_neg_r c) by lia; rewrite andb_false_r.
  - by rewrite (high_bit a n) by (done || lia).
Qed.

(** Bytes in their places, by addition and by exclusive or. *)
Lemma bytes_lxor b0 b1 b2 b3 : is_u8 b0 -> is_u8 b1 -> is_u8 b2 -> is_u8 b3 ->
  le_val [b0; b1; b2; b3] =
  Z.lxor (Z.lxor (Z.lxor (Z.shiftl b0 0) (Z.shiftl b1 8)) (Z.shiftl b2 16)) (Z.shiftl b3 24).
Proof.
  unfold is_u8. intros H0 H1 H2 H3. cbn [le_val]. rewrite Z.mul_0_r, Z.add_0_r, Z.shiftl_0_r.
  rewrite <- (add_shift 8), <- (add_shift 16), <- (add_shift 24) by lia. lia.
Qed.

#[export] Hint Resolve lxor_u32 rotl32_range rotr32_range wadd_range wsub_range u32_range be_val_u32 le_val_u32 : word.
