(* ===== verification/Cfb.v ===== *)
(** * The cipher feedback mode: [crypt/cfb.rs]

    Encryption chains the blocks one by one; decryption takes [LANES] blocks at a time, so
    that a cipher that has several encryptions in flight can be used.  [CfbBlock] is what
    the mode needs of a cipher, [CfbLaw] what it relies on. *)
From stdpp Require Import base list.
From Stdlib Require Import ZArith Lia.
From S2P Require Import Prelude Word CipherWord.
Local Open Scope Z_scope.

Definition INITIAL_VECTOR : list Z := [167; 115; 79; 156; 18; 172; 27; 1; 164; 21; 242; 193; 252; 120; 230; 107].
Definition LANES : nat := 8.

(** A block is its [BS] bytes. *)
Class CfbBlock (BS : nat) (C : Type) := {
  encrypt_block : C -> list Z -> list Z;
  encrypt_blocks : C -> list (list Z) -> list (list Z);
}.

Arguments encrypt_block BS {C _} c b.
Arguments encrypt_blocks BS {C _} c ks.

(** The default of [encrypt_blocks]: one block after the other. *)
Definition each_block {C} (encrypt : C -> list Z -> list Z) (c : C) (ks : list (list Z)) : list (list Z) :=
  encrypt c <$> ks.

(** [as_chunks]: the pieces of [n] elements and the rest. *)
Definition as_chunks {A} (n : nat) (l : list A) : list (list A) * list A :=
  let k := (length l / n)%nat in
  ((fun i => take n (drop (i * n) l)) <$> seq 0 k, drop (k * n) l).

Fixpoint xor_in_place (dst src : list Z) : list Z :=
  match dst, src with
  | d :: dst, s :: src => Z.lxor d s :: xor_in_place dst src
  | dst, _ => dst
  end.

Section Cfb.
Context {C : Type} (BS : nat) `{CfbBlock BS C}.
Implicit Types (c : C) (buf tbl x b : list Z).

Definition initial_tbl c : list Z := encrypt_block BS c (take BS INITIAL_VECTOR).

(** The loop of [encrypt] over the whole blocks, then over the rest. *)
Fixpoint encrypt_chain c tbl (blocks : list (list Z)) (rem : list Z) : list Z :=
  match blocks with
  | [] => xor_in_place rem tbl
  | b :: blocks =>
      let b := xor_in_place b tbl in
      b ++ encrypt_chain c (encrypt_block BS c b) blocks rem
  end.

Definition cfb_encrypt c buf : list Z :=
  let '(blocks, rem) := as_chunks BS buf in
  encrypt_chain c (initial_tbl c) blocks rem.

(** One batch of [decrypt]: the key streams of [LANES] blocks at once. *)
Definition decrypt_batch c x (batch : list (list Z)) : list Z * list (list Z) :=
  let ks := (fun i => match i with O => x | S i => batch !!! i end) <$> seq 0 LANES in
  let x := batch !!! (LANES - 1)%nat in
  let ks := encrypt_blocks BS c ks in
  (x, zip_with xor_in_place batch ks).

Fixpoint decrypt_batches c x (batches : list (list (list Z))) : list Z * list Z :=
  match batches with
  | [] => (x, [])
  | batch :: batches =>
      let '(x, out) := decrypt_batch c x batch in
      let '(x, rest) := decrypt_batches c x batches in
      (x, concat out ++ rest)
  end.

(** The blocks after the last batch, with the key stream [tbl] of the first. *)
Fixpoint decrypt_tail c tbl (tail : list (list Z)) (rem : list Z) : list Z :=
  match tail with
  | [] => xor_in_place rem tbl
  | b :: tail =>
      let next := encrypt_block BS c b in
      xor_in_place b tbl ++ decrypt_tail c next tail rem
  end.

Definition cfb_decrypt c buf : list Z :=
  let x := take BS INITIAL_VECTOR in
  let '(blocks, rem) := as_chunks BS buf in
  let '(batches, tail) := as_chunks LANES blocks in
  let '(x, out) := decrypt_batches c x batches in
  out ++ match tail, rem with
         | [], [] => []
         | _, _ => decrypt_tail c (encrypt_block BS c x) tail rem
         end.

(** ** The mode, block by block *)

(** The textbook definitions, on the ciphertext block [x] that comes before. *)
Fixpoint decrypt_ref c x (blocks : list (list Z)) (rem : list Z) : list Z :=
  match blocks with
  | [] => xor_in_place rem (encrypt_block BS c x)
  | b :: blocks => xor_in_place b (encrypt_block BS c x) ++ decrypt_ref c b blocks rem
  end.
End Cfb.

(** What the mode relies on: encrypting a batch is encrypting each of its blocks. *)
Class CfbLaw (BS : nat) (C : Type) `{CfbBlock BS C} : Prop :=
  encrypt_blocks_each : forall (c : C) ks, length ks = LANES -> encrypt_blocks BS c ks = encrypt_block BS c <$> ks.

(** ** Chunks *)

Section Chunks.
Context {A : Type} (n : nat).
Hypothesis Hn : (0 < n)%nat.
Implicit Types l : list A.

Lemma as_chunks_short l : (length l < n)%nat -> as_chunks n l = ([], l).
Proof. intros Hl. unfold as_chunks. rewrite Nat.div_small by done. by rewrite Nat.mul_0_l, drop_0. Qed.

Lemma as_chunks_cons c l : length c = n ->
  as_chunks n (c ++ l) = (c :: fst (as_chunks n l), snd (as_chunks n l)).
Proof.
  intros Hc. unfold as_chunks. rewrite length_app, Hc.
  assert (E : ((n + length l) / n = S (length l / n))%nat).
  { replace (n + length l)%nat with (length l + 1 * n)%nat by lia. rewrite Nat.div_add by lia. lia. }
  rewrite E. cbn [seq fmap list_fmap fst snd]. f_equal.
  - f_equal; [by rewrite Nat.mul_0_l, drop_0, take_app_length'|]. rewrite <- fmap_S_seq, <- list_fmap_compose.
    apply list_fmap_ext. intros _ i _. cbn. rewrite <- drop_drop, drop_app_length' by done. done.
  - cbn [Nat.mul]. rewrite <- drop_drop, drop_app_length' by done. done.
Qed.

(** Every list is whole chunks and a short rest. *)
Lemma chunks_ind (P : list A -> Prop) : (forall l, (length l < n)%nat -> P l) ->
  (forall c l, length c = n -> P l -> P (c ++ l)) -> forall l, P l.
Proof.
  intros H0 HS l. remember (length l) as k eqn:Ek. revert l Ek. induction k as [k IH] using lt_wf_ind. intros l ->.
  destruct (decide (length l < n)%nat); [by apply H0|]. rewrite <- (take_drop n l). apply HS; [rewrite length_take; lia|].
  apply (IH (length (drop n l))); [rewrite length_drop; lia|done].
Qed.

Lemma as_chunks_spec l : concat (fst (as_chunks n l)) ++ snd (as_chunks n l) = l /\
  Forall (fun c => length c = n) (fst (as_chunks n l)) /\ (length (snd (as_chunks n l)) < n)%nat.
Proof.
  induction l as [l Hl|c l Hc IH] using chunks_ind.
  - rewrite as_chunks_short by done. cbn. done.
  - rewrite as_chunks_cons by done. cbn [fst snd concat]. destruct IH as (E & Hall & Hs).
    rewrite <- app_assoc, E. split_and!; [done|by constructor|done].
Qed.
End Chunks.

Lemma length_xor dst : forall src, length (xor_in_place dst src) = length dst.
Proof. induction dst as [|d dst IH]; intros [|s src]; cbn; [done..|by rewrite IH]. Qed.

Lemma xor_twice dst : forall src, xor_in_place (xor_in_place dst src) src = dst.
Proof. induction dst as [|d dst IH]; intros [|s src]; cbn; [done..|]. by rewrite lxor_cancel, IH. Qed.

(** ** The batches are the textbook mode *)

Section CfbSpec.
Context {C : Type} (BS : nat) `{CfbLaw BS C}.
Hypothesis HBS : (0 < BS)%nat.
Implicit Types (c : C) (buf tbl x b rem : list Z) (blocks batch : list (list Z)).

Lemma decrypt_batch_ref c x batch blocks rem : length batch = LANES ->
  let '(x', out) := decrypt_batch BS c x batch in
  concat out ++ decrypt_ref BS c x' blocks rem = decrypt_ref BS c x (batch ++ blocks) rem.
Proof.
  intros Hl. unfold decrypt_batch. rewrite encrypt_blocks_each by by rewrite length_fmap, length_seq.
  do 8 (destruct batch as [|? batch]; [done|]). destruct batch; [|done].
  cbn [seq LANES fmap list_fmap zip_with concat app decrypt_ref lookup_total list_lookup_total Nat.sub].
  by rewrite <- !app_assoc.
Qed.

Lemma decrypt_batches_ref c (batches : list (list (list Z))) : forall x blocks rem,
  Forall (fun batch => length batch = LANES) batches ->
  let '(x', out) := decrypt_batches BS c x batches in
  out ++ decrypt_ref BS c x' blocks rem = decrypt_ref BS c x (concat batches ++ blocks) rem.
Proof.
  induction batches as [|batch batches IH]; intros x blocks rem Hall; cbn [decrypt_batches concat]; [done|].
  apply Forall_cons in Hall as [Hb Hall]. pose proof (decrypt_batch_ref c x batch (concat batches ++ blocks) rem Hb) as E.
  destruct (decrypt_batch BS c x batch) as [x1 out1]. specialize (IH x1 blocks rem Hall).
  destruct (decrypt_batches BS c x1 batches) as [x2 out2]. rewrite <- !app_assoc, IH. exact E.
Qed.

Lemma decrypt_tail_ref c tail : forall x rem,
  decrypt_tail BS c (encrypt_block BS c x) tail rem = decrypt_ref BS c x tail rem.
Proof. induction tail as [|b tail IH]; intros x rem; cbn; [done|]. by rewrite IH. Qed.

Lemma cfb_decrypt_ref c buf : cfb_decrypt BS c buf =
  decrypt_ref BS c (take BS INITIAL_VECTOR) (fst (as_chunks BS buf)) (snd (as_chunks BS buf)).
Proof.
  unfold cfb_decrypt. destruct (as_chunks BS buf) as [blocks rem]. cbn [fst snd].
  pose proof (as_chunks_spec LANES ltac:(unfold LANES; lia) blocks) as (E & Hall & _).
  destruct (as_chunks LANES blocks) as [batches tail]. cbn [fst snd] in *.
  pose proof (decrypt_batches_ref c batches (take BS INITIAL_VECTOR) tail rem Hall) as Hb. rewrite E in Hb.
  destruct (decrypt_batches BS c _ batches) as [x out]. rewrite <- Hb. f_equal.
  rewrite <- decrypt_tail_ref. by destruct tail, rem.
Qed.

(** ** Round trips *)

Lemma encrypt_chain_chunks c blocks : forall x rem, Forall (fun b => length b = BS) blocks -> (length rem < BS)%nat ->
  let out := encrypt_chain BS c (encrypt_block BS c x) blocks rem in
  decrypt_ref BS c x (fst (as_chunks BS out)) (snd (as_chunks BS out)) = concat blocks ++ rem /\
  length out = length (concat blocks ++ rem).
Proof.
  induction blocks as [|b blocks IH]; intros x rem Hall Hrem; cbn [encrypt_chain concat].
  - rewrite as_chunks_short by by rewrite length_xor. cbn. by rewrite xor_twice, length_xor.
  - apply Forall_cons in Hall as [Hb Hall]. set (b' := xor_in_place b _).
    assert (Hb' : length b' = BS) by (unfold b'; by rewrite length_xor).
    destruct (IH b' rem Hall Hrem) as [E El]. rewrite as_chunks_cons by done. cbn [fst snd decrypt_ref].
    rewrite E, !length_app, El, Hb'. unfold b'. rewrite xor_twice, length_app, <- app_assoc. split; [done|lia].
Qed.

Lemma decrypt_ref_chunks c blocks : forall x rem, Forall (fun b => length b = BS) blocks -> (length rem < BS)%nat ->
  let out := decrypt_ref BS c x blocks rem in
  encrypt_chain BS c (encrypt_block BS c x) (fst (as_chunks BS out)) (snd (as_chunks BS out)) = concat blocks ++ rem /\
  length out = length (concat blocks ++ rem).
Proof.
  induction blocks as [|b blocks IH]; intros x rem Hall Hrem; cbn [decrypt_ref concat].
  - rewrite as_chunks_short by by rewrite length_xor. cbn. by rewrite xor_twice, length_xor.
  - apply Forall_cons in Hall as [Hb Hall]. set (b' := xor_in_place b _).
    assert (Hb' : length b' = BS) by (unfold b'; by rewrite length_xor).
    destruct (IH b rem Hall Hrem) as [E El]. rewrite as_chunks_cons by done. cbn [fst snd encrypt_chain].
    assert (Ex : xor_in_place b' (encrypt_block BS c x) = b) by apply xor_twice.
    rewrite Ex, E, !length_app, El, Hb', length_app, <- app_assoc. split; [done|lia].
Qed.

Lemma cfb_encrypt_decrypt c buf : cfb_decrypt BS c (cfb_encrypt BS c buf) = buf /\
  length (cfb_encrypt BS c buf) = length buf.
Proof.
  rewrite cfb_decrypt_ref. unfold cfb_encrypt, initial_tbl.
  pose proof (as_chunks_spec BS HBS buf) as (E & Hall & Hrem). destruct (as_chunks BS buf) as [blocks rem].
  cbn [fst snd] in *. rewrite <- E. by apply encrypt_chain_chunks.
Qed.

Lemma cfb_decrypt_encrypt c buf : cfb_encrypt BS c (cfb_decrypt BS c buf) = buf /\
  length (cfb_decrypt BS c buf) = length buf.
Proof.
  rewrite cfb_decrypt_ref. unfold cfb_encrypt, initial_tbl.
  pose proof (as_chunks_spec BS HBS buf) as (E & Hall & Hrem). destruct (as_chunks BS buf) as [blocks rem].
  cbn [fst snd] in *.
  pose proof (decrypt_ref_chunks c blocks (take BS INITIAL_VECTOR) rem Hall Hrem) as Hd. cbn zeta in Hd.
  rewrite E in Hd. by destruct (as_chunks BS (decrypt_ref _ _ _ _ _)).
Qed.
End CfbSpec.
