(* ===== verification/Tea.v ===== *)
(** * TEA and XTEA: [crypt/tea.rs] and [crypt/xtea.rs]

    Both work on the two big-endian words of an 8-byte block. *)
From stdpp Require Import base list.
From Stdlib Require Import ZArith Lia String.
From S2P Require Import Prelude Word CipherWord Cfb.
Local Open Scope Z_scope.

(** [load] and [store]; [block_to_uint32] and [uint32_to_block]. *)
Definition load (block : list Z) : Z * Z := (be_val (take 4 block), be_val (take 4 (drop 4 block))).
Definition store (v0 v1 : Z) : list Z := be_bytes 4 v0 ++ be_bytes 4 v1.

Lemma load_store v0 v1 : is_u32 v0 -> is_u32 v1 -> load (store v0 v1) = (v0, v1).
Proof.
  intros H0 H1. unfold load, store. rewrite take_app_length', drop_app_length' by by rewrite length_be_bytes.
  rewrite take_ge by by rewrite length_be_bytes. by rewrite !be_val_word.
Qed.

Lemma store_load b : bytes b -> length b = 8%nat -> store (fst (load b)) (snd (load b)) = b.
Proof.
  intros Hb Hl. unfold load, store. cbn [fst snd].
  rewrite !be_bytes_be_val; [|by apply take_bytes|rewrite length_take, length_drop; lia|by apply Forall_take|
    rewrite length_take; lia].
  rewrite (take_ge (drop 4 b)) by (rewrite length_drop; lia). apply take_drop.
Qed.

Lemma load_range b : bytes b -> is_u32 (fst (load b)) /\ is_u32 (snd (load b)).
Proof.
  intros Hb. split; apply be_val_u32; try (by apply Forall_take); try (by apply take_bytes); rewrite length_take; lia.
Qed.

Lemma store_bytes v0 v1 : bytes (store v0 v1) /\ length (store v0 v1) = 8%nat.
Proof. unfold store. split; [by apply Forall_app; split; apply be_bytes_bytes|by rewrite length_app, !length_be_bytes]. Qed.

(** ** TEA *)

Definition DELTA : Z := 2654435769.
Definition TEA_NUM_ROUNDS : nat := 64.

Record Tea := mkTea {
  tea_key : list Z;
  tea_rounds : nat;
}.

Definition tea_new_cipher_with_rounds (key : list Z) (rounds : nat) : result CryptError Tea :=
  if negb (length key =? 16)%nat then Err TeaKeySize
  else if negb (Nat.land rounds 1 =? 0)%nat then Err TeaOddRounds
  else Ok (mkTea (be_words 4 key) rounds).

Definition tea_new_cipher (key : list Z) : result CryptError Tea := tea_new_cipher_with_rounds key TEA_NUM_ROUNDS.

(** What a half round adds to the other word. *)
Definition tea_mix (v sum ka kb : Z) : Z :=
  Z.lxor (Z.lxor (wadd32 (u32 (Z.shiftl v 4)) ka) (wadd32 v sum)) (wadd32 (Z.shiftr v 5) kb).

Fixpoint tea_encrypt_loop (k : list Z) (n : nat) (sum v0 v1 : Z) : Z * Z :=
  match n with
  | O => (v0, v1)
  | S n =>
      let sum := wadd32 sum DELTA in
      let v0 := wadd32 v0 (tea_mix v1 sum (at_ k 0) (at_ k 1)) in
      let v1 := wadd32 v1 (tea_mix v0 sum (at_ k 2) (at_ k 3)) in
      tea_encrypt_loop k n sum v0 v1
  end.

Fixpoint tea_decrypt_loop (k : list Z) (n : nat) (sum v0 v1 : Z) : Z * Z :=
  match n with
  | O => (v0, v1)
  | S n =>
      let v1 := wsub32 v1 (tea_mix v0 sum (at_ k 2) (at_ k 3)) in
      let v0 := wsub32 v0 (tea_mix v1 sum (at_ k 0) (at_ k 1)) in
      let sum := wsub32 sum DELTA in
      tea_decrypt_loop k n sum v0 v1
  end.

Definition tea_encrypt (c : Tea) (block : list Z) : list Z :=
  let '(v0, v1) := load block in
  let '(v0, v1) := tea_encrypt_loop (tea_key c) (tea_rounds c / 2) 0 v0 v1 in
  store v0 v1.

Definition tea_decrypt (c : Tea) (block : list Z) : list Z :=
  let '(v0, v1) := load block in
  let sum := u32 (DELTA * u32 (Z.of_nat (tea_rounds c / 2))) in
  let '(v0, v1) := tea_decrypt_loop (tea_key c) (tea_rounds c / 2) sum v0 v1 in
  store v0 v1.

#[export] Instance tea_cfb : CfbBlock 8 Tea :=
  { encrypt_block := tea_encrypt; encrypt_blocks := each_block tea_encrypt }.
#[export] Instance tea_cfb_law : CfbLaw 8 Tea.
Proof. intros c ks _. reflexivity. Qed.

(** ** XTEA *)

Definition XTEA_NUM_ROUNDS : nat := 64.

(** The precalculated values of the rounds, in pairs. *)
Record Xtea := mkXtea {
  xtea_table : list (Z * Z);
}.

Fixpoint xtea_pairs (k : list Z) (n : nat) (sum : Z) : list (Z * Z) :=
  match n with
  | O => []
  | S n =>
      let t0 := wadd32 sum (at_ k (Z.land sum 3)) in
      let sum := wadd32 sum DELTA in
      let t1 := wadd32 sum (at_ k (Z.land (Z.shiftr sum 11) 3)) in
      (t0, t1) :: xtea_pairs k n sum
  end.

Definition xtea_init_cipher (key : list Z) : Xtea := mkXtea (xtea_pairs (be_words 4 key) (XTEA_NUM_ROUNDS / 2) 0).

Definition xtea_new_cipher (key : list Z) : result CryptError Xtea :=
  if negb (length key =? 16)%nat then Err (KeySize "xtea"%string (length key)) else Ok (xtea_init_cipher key).

Definition xtea_mix (v t : Z) : Z :=
  Z.lxor (wadd32 (Z.lxor (u32 (Z.shiftl v 4)) (Z.shiftr v 5)) v) t.

Definition xtea_round (v : Z * Z) (t : Z * Z) : Z * Z :=
  let '(v0, v1) := v in
  let v0 := wadd32 v0 (xtea_mix v1 (fst t)) in
  (v0, wadd32 v1 (xtea_mix v0 (snd t))).

Definition xtea_unround (v : Z * Z) (t : Z * Z) : Z * Z :=
  let '(v0, v1) := v in
  let v1 := wsub32 v1 (xtea_mix v0 (snd t)) in
  (wsub32 v0 (xtea_mix v1 (fst t)), v1).

Definition xtea_encrypt (c : Xtea) (block : list Z) : list Z :=
  let '(v0, v1) := foldl xtea_round (load block) (xtea_table c) in store v0 v1.
Definition xtea_decrypt (c : Xtea) (block : list Z) : list Z :=
  let '(v0, v1) := foldl xtea_unround (load block) (rev (xtea_table c)) in store v0 v1.

#[export] Instance xtea_cfb : CfbBlock 8 Xtea :=
  { encrypt_block := xtea_encrypt; encrypt_blocks := each_block xtea_encrypt }.
#[export] Instance xtea_cfb_law : CfbLaw 8 Xtea.
Proof. intros c ks _. reflexivity. Qed.

(** ** Decryption undoes encryption *)

Lemma tea_loop_range k n : forall sum v0 v1, is_u32 v0 -> is_u32 v1 ->
  is_u32 (fst (tea_encrypt_loop k n sum v0 v1)) /\ is_u32 (snd (tea_encrypt_loop k n sum v0 v1)).
Proof. induction n as [|n IH]; intros sum v0 v1 H0 H1; cbn; [done|]. apply IH; apply wadd_range. Qed.

(** The sum after [n] rounds from [sum], as decryption computes it. *)
Lemma tea_loop_inverse k n : forall sum v0 v1, is_u32 sum -> is_u32 v0 -> is_u32 v1 ->
  forall m, (let '(w0, w1) := tea_encrypt_loop k n sum v0 v1 in
    tea_decrypt_loop k (n + m) (u32 (sum + DELTA * Z.of_nat n)) w0 w1) = tea_decrypt_loop k m sum v0 v1.
Proof.
  induction n as [|n IH]; intros sum v0 v1 Hs H0 H1 m; cbn [tea_encrypt_loop].
  - rewrite Z.mul_0_r, Z.add_0_r, u32_id by done. done.
  - set (sum' := wadd32 sum DELTA). set (w0 := wadd32 v0 _). set (w1 := wadd32 v1 _).
    specialize (IH sum' w0 w1 ltac:(apply wadd_range) ltac:(apply wadd_range) ltac:(apply wadd_range) (S m)).
    destruct (tea_encrypt_loop k n sum' w0 w1) as [x0 x1].
    replace (S n + m)%nat with (n + S m)%nat by lia.
    replace (u32 (sum + DELTA * Z.of_nat (S n))) with (u32 (sum' + DELTA * Z.of_nat n)); cycle 1.
    { unfold sum', wadd32, u32. rewrite Zplus_mod_idemp_l. f_equal. lia. }
    rewrite IH. cbn [tea_decrypt_loop]. unfold w1. rewrite wsub_wadd by done. unfold w0. rewrite wsub_wadd by done.
    unfold sum'. by rewrite wsub_wadd.
Qed.

Lemma tea_inverse c b : bytes b -> length b = 8%nat -> tea_decrypt c (tea_encrypt c b) = b.
Proof.
  intros Hb Hl. unfold tea_encrypt, tea_decrypt. destruct (load b) as [v0 v1] eqn:E.
  pose proof (load_range b Hb) as [H0 H1]. rewrite E in H0, H1. cbn [fst snd] in *.
  set (n := (tea_rounds c / 2)%nat). pose proof (tea_loop_range (tea_key c) n 0 v0 v1 H0 H1) as [R0 R1].
  pose proof (tea_loop_inverse (tea_key c) n 0 v0 v1 ltac:(unfold is_u32; lia) H0 H1 0) as Hinv.
  destruct (tea_encrypt_loop _ _ _ _ _) as [w0 w1]. cbn [fst snd] in *. rewrite load_store by done.
  rewrite Nat.add_0_r, Z.add_0_l in Hinv. cbn [tea_decrypt_loop] in Hinv.
  replace (u32 (DELTA * u32 (Z.of_nat n))) with (u32 (DELTA * Z.of_nat n)); cycle 1.
  { unfold u32. by rewrite Zmult_mod_idemp_r. }
  rewrite Hinv. pose proof (store_load b Hb Hl) as Hs. by rewrite E in Hs.
Qed.

Lemma xtea_round_inverse v t : is_u32 (fst v) -> is_u32 (snd v) -> xtea_unround (xtea_round v t) t = v.
Proof.
  destruct v as [v0 v1]. cbn [fst snd]. intros H0 H1. unfold xtea_round, xtea_unround. cbn [fst snd].
  by rewrite !wsub_wadd.
Qed.

Lemma xtea_rounds_inverse l : forall v, is_u32 (fst v) -> is_u32 (snd v) ->
  foldl xtea_unround (foldl xtea_round v l) (rev l) = v /\
  is_u32 (fst (foldl xtea_round v l)) /\ is_u32 (snd (foldl xtea_round v l)).
Proof.
  induction l as [|t l IH]; intros v H0 H1; cbn [foldl rev]; [done|].
  assert (Hr : is_u32 (fst (xtea_round v t)) /\ is_u32 (snd (xtea_round v t))) by
    (destruct v; cbn; split; apply wadd_range).
  destruct (IH (xtea_round v t)) as (E & R); [apply Hr..|]. split; [|done].
  rewrite foldl_app, E. cbn [foldl]. by apply xtea_round_inverse.
Qed.

Lemma xtea_inverse c b : bytes b -> length b = 8%nat -> xtea_decrypt c (xtea_encrypt c b) = b.
Proof.
  intros Hb Hl. unfold xtea_encrypt, xtea_decrypt. pose proof (load_range b Hb) as [H0 H1].
  destruct (xtea_rounds_inverse (xtea_table c) (load b) H0 H1) as (E & R0 & R1).
  destruct (foldl xtea_round _ _) as [w0 w1]. cbn [fst snd] in *. rewrite load_store by done. rewrite E.
  pose proof (store_load b Hb Hl) as Hs. by destruct (load b).
Qed.

Lemma tea_output c b : bytes (tea_encrypt c b) /\ length (tea_encrypt c b) = 8%nat.
Proof. unfold tea_encrypt. destruct (load b). destruct (tea_encrypt_loop _ _ _ _ _). apply store_bytes. Qed.
Lemma xtea_output c b : bytes (xtea_encrypt c b) /\ length (xtea_encrypt c b) = 8%nat.
Proof. unfold xtea_encrypt. destruct (foldl _ _ _). apply store_bytes. Qed.

(** The known answers of the source's tests. *)
Example tea_known_answer :
  match tea_new_cipher_with_rounds (Z.of_nat <$> seq 0 16) 16 with
  | Ok c => tea_encrypt c [1; 35; 69; 103; 137; 171; 205; 239]
  | _ => []
  end = [75; 186; 49; 147; 172; 234; 163; 6].
Proof. vm_compute. reflexivity. Qed.

Example xtea_known_answer :
  match xtea_new_cipher (Z.of_nat <$> seq 0 16) with
  | Ok c => xtea_encrypt c [1; 35; 69; 103; 137; 171; 205; 239]
  | _ => []
  end = [20; 102; 151; 99; 164; 86; 225; 216].
Proof. vm_compute. reflexivity. Qed.
