(* ===== verification/Sm4.v ===== *)
(** * SM4: [crypt/sm4.rs]

    The S-box and the linear transform are combined into four tables of words; the tables
    are proved to be that combination. *)
From stdpp Require Import base list.
From Stdlib Require Import ZArith Lia.
From S2P Require Import Prelude Word CipherWord Cfb.
Local Open Scope Z_scope.

Definition FK : list Z := [2746333894; 1453994832; 1736282519; 2993693404].
Definition CK : list Z :=
  [462357; 472066609; 943670861; 1415275113; 1886879365; 2358483617; 2830087869; 3301692121; 3773296373;
   4228057617; 404694573; 876298825; 1347903077; 1819507329; 2291111581; 2762715833; 3234320085; 3705924337;
   4177462797; 337322537; 808926789; 1280531041; 1752135293; 2223739545; 2695343797; 3166948049; 3638552301;
   4110090761; 269950501; 741554753; 1213159005; 1684763257].
Definition SM4_SBOX : list Z :=
  [214; 144; 233; 254; 204; 225; 61; 183; 22; 182; 20; 194; 40; 251; 44; 5; 43; 103; 154; 118; 42; 190; 4; 195;
   170; 68; 19; 38; 73; 134; 6; 153; 156; 66; 80; 244; 145; 239; 152; 122; 51; 84; 11; 67; 237; 207; 172; 98; 228;
   179; 28; 169; 201; 8; 232; 149; 128; 223; 148; 250; 117; 143; 63; 166; 71; 7; 167; 252; 243; 115; 23; 186; 131;
   89; 60; 25; 230; 133; 79; 168; 104; 107; 129; 178; 113; 100; 218; 139; 248; 235; 15; 75; 112; 86; 157; 53; 30;
   36; 14; 94; 99; 88; 209; 162; 37; 34; 124; 59; 1; 33; 120; 135; 212; 0; 70; 87; 159; 211; 39; 82; 76; 54; 2;
   231; 160; 196; 200; 158; 234; 191; 138; 210; 64; 199; 56; 181; 163; 247; 242; 206; 249; 97; 21; 161; 224; 174;
   93; 164; 155; 52; 26; 85; 173; 147; 50; 48; 245; 140; 177; 227; 29; 246; 226; 46; 130; 102; 202; 96; 192; 41;
   35; 171; 13; 83; 78; 111; 213; 219; 55; 69; 222; 253; 142; 47; 3; 255; 106; 114; 109; 108; 91; 81; 141; 27;
   175; 146; 187; 221; 188; 127; 17; 217; 92; 65; 31; 16; 90; 216; 10; 193; 49; 136; 165; 205; 123; 189; 45; 116;
   208; 18; 184; 229; 180; 176; 137; 105; 151; 74; 12; 150; 119; 126; 101; 185; 241; 9; 197; 110; 198; 132; 24;
   240; 125; 236; 58; 220; 77; 32; 121; 238; 95; 62; 215; 203; 57; 72].

(** The linear transform [l]. *)
Definition sm4_l (b : Z) : Z :=
  Z.lxor (Z.lxor (Z.lxor (Z.lxor b (rotl32 b 2)) (rotl32 b 10)) (rotl32 b 18)) (rotl32 b 24).

(** [init_sbox_tables]: the four tables. *)
Definition init_sbox_tables : list (list Z) :=
  let t0 := sm4_l <$> SM4_SBOX in
  [t0; (fun v => rotl32 v 8) <$> t0; (fun v => rotl32 v 16) <$> t0; (fun v => rotl32 v 24) <$> t0].
Definition SBOX_T : list (list Z) := Eval vm_compute in init_sbox_tables.

(** The key schedule's transforms [rl], [l0], [p], [feistel0]. *)
Definition rl (x i : Z) : Z := rotl32 x (i mod 32).
Definition l0 (b : Z) : Z := Z.lxor (Z.lxor b (rl b 13)) (rl b 23).
Definition sm4_p (a : Z) : Z := be_val (at_ SM4_SBOX <$> be_bytes 4 a).
Definition feistel0 (x0 x1 x2 x3 rk : Z) : Z :=
  Z.lxor x0 (l0 (sm4_p (Z.lxor (Z.lxor (Z.lxor x1 x2) x3) rk))).

Record Sm4Cipher := mkSm4Cipher {
  sm4_subkeys : list Z;
}.

(** The four words of a block. *)
Definition Words : Type := Z * Z * Z * Z.
Definition sm4_permute_initial_block (block : list Z) : Words :=
  match be_words 4 block with [w0; w1; w2; w3] => (w0, w1, w2, w3) | _ => (0, 0, 0, 0) end.
Definition sm4_permute_final_block (b : Words) : list Z :=
  let '(b0, b1, b2, b3) := b in be_bytes 4 b0 ++ be_bytes 4 b1 ++ be_bytes 4 b2 ++ be_bytes 4 b3.
Definition reverse_words (b : Words) : Words := let '(b0, b1, b2, b3) := b in (b3, b2, b1, b0).

(** [t]: the round function by the tables. *)
Definition sm4_t (x : Z) : Z :=
  let b := le_bytes 4 x in
  Z.lxor (Z.lxor (Z.lxor (at_ (SBOX_T !!! 0%nat) (at_ b 0)) (at_ (SBOX_T !!! 1%nat) (at_ b 1)))
    (at_ (SBOX_T !!! 2%nat) (at_ b 2))) (at_ (SBOX_T !!! 3%nat) (at_ b 3)).

(** Four rounds, with the keys in the order used. *)
Definition sm4_rounds (b : Words) (k0 k1 k2 k3 : Z) : Words :=
  let '(b0, b1, b2, b3) := b in
  let b0 := Z.lxor b0 (sm4_t (Z.lxor (Z.lxor (Z.lxor b1 b2) b3) k0)) in
  let b1 := Z.lxor b1 (sm4_t (Z.lxor (Z.lxor (Z.lxor b0 b2) b3) k1)) in
  let b2 := Z.lxor b2 (sm4_t (Z.lxor (Z.lxor (Z.lxor b0 b1) b3) k2)) in
  let b3 := Z.lxor b3 (sm4_t (Z.lxor (Z.lxor (Z.lxor b1 b2) b0) k3)) in
  (b0, b1, b2, b3).

(** Iteration [i] of the loops of [crypt_block]. *)
Definition sm4_encrypt_step (subkeys : list Z) (b : Words) (i : nat) : Words :=
  let s := take 4 (drop (4 * i) subkeys) in sm4_rounds b (at_ s 0) (at_ s 1) (at_ s 2) (at_ s 3).
Definition sm4_decrypt_step (subkeys : list Z) (b : Words) (i : nat) : Words :=
  let s := take 4 (drop (31 - 4 * i - 3) subkeys) in sm4_rounds b (at_ s 3) (at_ s 2) (at_ s 1) (at_ s 0).

Definition sm4_crypt_block (subkeys block : list Z) (decrypt : bool) : list Z :=
  let b := sm4_permute_initial_block block in
  let b := if decrypt then foldl (sm4_decrypt_step subkeys) b (seq 0 8)
           else foldl (sm4_encrypt_step subkeys) b (seq 0 8) in
  sm4_permute_final_block (reverse_words b).

Fixpoint sub_keys_loop (ck : list Z) (b : Words) : list Z :=
  match ck with
  | [] => []
  | c :: ck =>
      let '(b0, b1, b2, b3) := b in
      let k := feistel0 b0 b1 b2 b3 c in
      k :: sub_keys_loop ck (b1, b2, b3, k)
  end.

Definition generate_sub_keys (key : list Z) : list Z :=
  let '(b0, b1, b2, b3) := sm4_permute_initial_block key in
  sub_keys_loop CK (Z.lxor b0 (at_ FK 0), Z.lxor b1 (at_ FK 1), Z.lxor b2 (at_ FK 2), Z.lxor b3 (at_ FK 3)).

Definition sm4_new_cipher (key : list Z) : result CryptError Sm4Cipher :=
  if negb (length key =? 16)%nat then Err (Sm4KeySize (length key)) else Ok (mkSm4Cipher (generate_sub_keys key)).

Definition sm4_encrypt (c : Sm4Cipher) (block : list Z) : list Z := sm4_crypt_block (sm4_subkeys c) block false.
Definition sm4_decrypt (c : Sm4Cipher) (block : list Z) : list Z := sm4_crypt_block (sm4_subkeys c) block true.

#[export] Instance sm4_cfb : CfbBlock 16 Sm4Cipher :=
  { encrypt_block := sm4_encrypt; encrypt_blocks := each_block sm4_encrypt }.
#[export] Instance sm4_cfb_law : CfbLaw 16 Sm4Cipher.
Proof. intros c ks _. unfold encrypt_blocks, encrypt_block, sm4_cfb, each_block. reflexivity. Qed.

(** The standard's example, as in the source's tests. *)
Example sm4_known_answer :
  match sm4_new_cipher [1; 35; 69; 103; 137; 171; 205; 239; 254; 220; 186; 152; 118; 84; 50; 16] with
  | Ok c => sm4_encrypt c [1; 35; 69; 103; 137; 171; 205; 239; 254; 220; 186; 152; 118; 84; 50; 16]
  | _ => []
  end = [104; 30; 223; 52; 210; 6; 150; 94; 134; 179; 233; 79; 83; 110; 66; 70].
Proof. vm_compute. reflexivity. Qed.

(** ** Decryption undoes encryption *)

Definition words_ok (w : Words) : Prop :=
  let '(b0, b1, b2, b3) := w in is_u32 b0 /\ is_u32 b1 /\ is_u32 b2 /\ is_u32 b3.

Lemma tables_u32 j : Forall is_u32 (SBOX_T !!! j).
Proof. apply table_u32. vm_compute. reflexivity. Qed.

Lemma sm4_t_range x : is_u32 (sm4_t x).
Proof. unfold sm4_t. repeat apply lxor_u32; apply at_u32, tables_u32. Qed.
#[local] Hint Resolve sm4_t_range : word.

Lemma sm4_rounds_ok b k0 k1 k2 k3 : words_ok b -> words_ok (sm4_rounds b k0 k1 k2 k3).
Proof. destruct b as [[[b0 b1] b2] b3]. intros (H0 & H1 & H2 & H3). cbn. split_and!; auto with word. Qed.

Lemma sm4_rounds_undo b k0 k1 k2 k3 :
  sm4_rounds (reverse_words (sm4_rounds b k0 k1 k2 k3)) k3 k2 k1 k0 = reverse_words b.
Proof.
  destruct b as [[[b0 b1] b2] b3]. unfold sm4_rounds, reverse_words.
  set (c0 := Z.lxor b0 _). set (c1 := Z.lxor b1 _). set (c2 := Z.lxor b2 _). set (c3 := Z.lxor b3 _).
  assert (E3 : Z.lxor c3 (sm4_t (Z.lxor (Z.lxor (Z.lxor c2 c1) c0) k3)) = b3).
  { replace (Z.lxor (Z.lxor (Z.lxor c2 c1) c0) k3) with (Z.lxor (Z.lxor (Z.lxor c1 c2) c0) k3) by xor_eq.
    apply lxor_cancel. }
  assert (E2 : Z.lxor c2 (sm4_t (Z.lxor (Z.lxor (Z.lxor b3 c1) c0) k2)) = b2).
  { replace (Z.lxor (Z.lxor (Z.lxor b3 c1) c0) k2) with (Z.lxor (Z.lxor (Z.lxor c0 c1) b3) k2) by xor_eq.
    apply lxor_cancel. }
  assert (E1 : Z.lxor c1 (sm4_t (Z.lxor (Z.lxor (Z.lxor b3 b2) c0) k1)) = b1).
  { replace (Z.lxor (Z.lxor (Z.lxor b3 b2) c0) k1) with (Z.lxor (Z.lxor (Z.lxor c0 b2) b3) k1) by xor_eq.
    apply lxor_cancel. }
  assert (E0 : Z.lxor c0 (sm4_t (Z.lxor (Z.lxor (Z.lxor b2 b1) b3) k0)) = b0).
  { replace (Z.lxor (Z.lxor (Z.lxor b2 b1) b3) k0) with (Z.lxor (Z.lxor (Z.lxor b1 b2) b3) k0) by xor_eq.
    apply lxor_cancel. }
  by rewrite E3, E2, E1, E0.
Qed.

Lemma sm4_step_undo subkeys b i j : (i + j = 7)%nat ->
  sm4_decrypt_step subkeys (reverse_words (sm4_encrypt_step subkeys b j)) i = reverse_words b.
Proof.
  intros Hij. unfold sm4_decrypt_step, sm4_encrypt_step.
  replace (31 - 4 * i - 3)%nat with (4 * j)%nat by lia. apply sm4_rounds_undo.
Qed.

Lemma reverse_words_twice b : reverse_words (reverse_words b) = b.
Proof. by destruct b as [[[? ?] ?] ?]. Qed.

Lemma permute_initial_eq b w0 w1 w2 w3 : be_words 4 b = [w0; w1; w2; w3] ->
  sm4_permute_initial_block b = (w0, w1, w2, w3).
Proof. unfold sm4_permute_initial_block. by intros ->. Qed.

Lemma words_of_block b : bytes b -> exists w0 w1 w2 w3, be_words 4 b = [w0; w1; w2; w3] /\ words_ok (w0, w1, w2, w3).
Proof.
  intros Hb. pose proof (be_words_u32 4 b Hb) as Hw. remember (be_words 4 b) as w eqn:E.
  assert (Hl : length w = 4%nat) by (rewrite E; unfold be_words; by rewrite length_fmap).
  do 4 (destruct w as [|? w]; [done|]). destruct w; [|done]. eexists _, _, _, _. split; [done|].
  by repeat match goal with H : Forall _ (_ :: _) |- _ => apply Forall_cons in H as [? H] end.
Qed.

Lemma final_words w0 w1 w2 w3 : sm4_permute_final_block (w0, w1, w2, w3) = concat (be_bytes 4 <$> [w0; w1; w2; w3]).
Proof. cbn [sm4_permute_final_block fmap list_fmap concat]. by rewrite app_nil_r. Qed.

Lemma initial_final w : words_ok w -> sm4_permute_initial_block (sm4_permute_final_block w) = w.
Proof.
  destruct w as [[[b0 b1] b2] b3]. intros (H0 & H1 & H2 & H3). rewrite final_words. apply permute_initial_eq.
  apply (be_words_concat [b0; b1; b2; b3]). by rewrite !Forall_cons.
Qed.

Lemma encrypt_steps_ok subkeys l : forall b, words_ok b -> words_ok (foldl (sm4_encrypt_step subkeys) b l).
Proof. induction l as [|i l IH]; intros b Hb; cbn [foldl]; [done|]. by apply IH, sm4_rounds_ok. Qed.

Lemma sm4_inverse c b : bytes b -> length b = 16%nat -> sm4_decrypt c (sm4_encrypt c b) = b.
Proof.
  intros Hb Hl. unfold sm4_decrypt, sm4_encrypt, sm4_crypt_block. cbv zeta iota.
  destruct (words_of_block b Hb) as (w0 & w1 & w2 & w3 & Ew & Hw). rewrite (permute_initial_eq b _ _ _ _ Ew).
  set (k := sm4_subkeys c). set (w := foldl (sm4_encrypt_step k) _ _).
  assert (Hok : words_ok w) by by apply encrypt_steps_ok.
  rewrite initial_final by by destruct w as [[[? ?] ?] ?]; cbn in *; tauto.
  assert (E : foldl (sm4_decrypt_step k) (reverse_words w) (seq 0 8) = reverse_words (w0, w1, w2, w3)).
  { subst w. cbn [seq foldl]. by rewrite !sm4_step_undo by done. }
  rewrite E, reverse_words_twice, final_words, <- Ew. by apply concat_be_words.
Qed.

Lemma sm4_output c b : bytes (sm4_encrypt c b) /\ length (sm4_encrypt c b) = 16%nat.
Proof.
  unfold sm4_encrypt, sm4_crypt_block. cbv zeta. destruct (reverse_words _) as [[[w0 w1] w2] w3]. split.
  - cbn [sm4_permute_final_block]. unfold bytes. rewrite !Forall_app. split_and!; apply be_bytes_bytes.
  - cbn [sm4_permute_final_block]. by rewrite !length_app, !length_be_bytes.
Qed.

(** ** The tables are the S-box under the linear transform *)

Lemma rotl_lxor a b n : is_u32 a -> is_u32 b -> 0 <= n <= 32 -> rotl32 (Z.lxor a b) n = Z.lxor (rotl32 a n) (rotl32 b n).
Proof.
  intros Ha Hb Hn. apply word_eq; [auto with word..|]. intros i Hi. rewrite Z.lxor_spec, !rotl32_bit by auto with word.
  case_decide; by rewrite Z.lxor_spec.
Qed.

Lemma sm4_l_lxor a b : is_u32 a -> is_u32 b -> sm4_l (Z.lxor a b) = Z.lxor (sm4_l a) (sm4_l b).
Proof. intros Ha Hb. unfold sm4_l. rewrite !rotl_lxor by (done || lia). xor_eq. Qed.

(** Each table at a byte is [l] of the substituted byte in its place. *)
Lemma table_entry j b : (j < 4)%nat -> is_u8 b ->
  at_ (SBOX_T !!! j) b = sm4_l (Z.shiftl (at_ SM4_SBOX b) (8 * Z.of_nat j)) /\ is_u8 (at_ SM4_SBOX b).
Proof.
  intros Hj Hb.
  assert (H : forallb (fun j => forallb (fun n => let b := Z.of_nat n in
    (at_ (SBOX_T !!! j) b =? sm4_l (Z.shiftl (at_ SM4_SBOX b) (8 * Z.of_nat j)))
    && (0 <=? at_ SM4_SBOX b) && (at_ SM4_SBOX b <? 256)) (seq 0 256)) (seq 0 4) = true) by (vm_compute; reflexivity).
  rewrite forallb_forall in H. specialize (H j ltac:(apply in_seq; lia)). rewrite forallb_forall in H.
  unfold is_u8 in *. specialize (H (Z.to_nat b) ltac:(apply in_seq; lia)). cbn beta zeta in H.
  rewrite Z2Nat.id in H by lia. apply andb_true_iff in H as [[H1 H2]%andb_true_iff H3]. lia.
Qed.

Lemma shift_u32 b n : is_u8 b -> 0 <= n <= 24 -> is_u32 (Z.shiftl b n).
Proof.
  unfold is_u8, is_u32. intros Hb Hn. rewrite Z.shiftl_mul_pow2 by lia.
  assert (0 < 2 ^ n) by (apply Z.pow_pos_nonneg; lia). assert (2 ^ n <= 2 ^ 24) by (apply Z.pow_le_mono_r; lia). nia.
Qed.

(** [t] is [l] after the byte substitution [p] of the reference. *)
Lemma sm4_t_reference x : is_u32 x -> sm4_t x = sm4_l (sm4_p x).
Proof.
  intros Hx. pose proof (le_bytes_bytes 4 x) as Hb. unfold sm4_t, sm4_p, be_val, be_bytes.
  assert (El : exists b0 b1 b2 b3, le_bytes 4 x = [b0; b1; b2; b3]) by (cbn; eauto).
  destruct El as (b0 & b1 & b2 & b3 & El). rewrite El in *.
  apply Forall_cons in Hb as [H0 Hb]. apply Forall_cons in Hb as [H1 Hb]. apply Forall_cons in Hb as [H2 Hb].
  apply Forall_cons in Hb as [H3 _].
  change (at_ [b0; b1; b2; b3] 0) with b0. change (at_ [b0; b1; b2; b3] 1) with b1.
  change (at_ [b0; b1; b2; b3] 2) with b2. change (at_ [b0; b1; b2; b3] 3) with b3.
  destruct (table_entry 0 b0 ltac:(lia) H0) as [-> S0]. destruct (table_entry 1 b1 ltac:(lia) H1) as [-> S1].
  destruct (table_entry 2 b2 ltac:(lia) H2) as [-> S2]. destruct (table_entry 3 b3 ltac:(lia) H3) as [-> S3].
  change (rev (at_ SM4_SBOX <$> rev [b0; b1; b2; b3])) with [at_ SM4_SBOX b0; at_ SM4_SBOX b1; at_ SM4_SBOX b2; at_ SM4_SBOX b3].
  rewrite bytes_lxor by done.
  rewrite !sm4_l_lxor; [done|..]; repeat apply lxor_u32; apply shift_u32; done || lia.
Qed.
