(* ===== verification/Twofish.v ===== *)
(** * Twofish: [crypt/twofish.rs]

    The key-dependent S-boxes are computed once, with the MDS matrix folded in. *)
From stdpp Require Import base list.
From Stdlib Require Import ZArith Lia String.
From S2P Require Import Prelude Word CipherWord Cfb.
Local Open Scope Z_scope.

Definition MDS_POLYNOMIAL : Z := 361.
Definition RS_POLYNOMIAL : Z := 333.

Definition RS : list (list Z) :=
  [[1; 164; 85; 135; 90; 88; 219; 158];
   [164; 86; 130; 243; 30; 198; 104; 229];
   [2; 161; 252; 193; 71; 174; 61; 25];
   [164; 85; 135; 90; 88; 219; 158; 3]].
Definition TWOFISH_SBOX : list (list Z) :=
  [[169; 103; 179; 232; 4; 253; 163; 118; 154; 146; 128; 120; 228; 221; 209; 56; 13; 198; 53; 152; 24; 247; 236;
    108; 67; 117; 55; 38; 250; 19; 148; 72; 242; 208; 139; 48; 132; 84; 223; 35; 25; 91; 61; 89; 243; 174; 162;
    130; 99; 1; 131; 46; 217; 81; 155; 124; 166; 235; 165; 190; 22; 12; 227; 97; 192; 140; 58; 245; 115; 44; 37;
    11; 187; 78; 137; 107; 83; 106; 180; 241; 225; 230; 189; 69; 226; 244; 182; 102; 204; 149; 3; 86; 212; 28; 30;
    215; 251; 195; 142; 181; 233; 207; 191; 186; 234; 119; 57; 175; 51; 201; 98; 113; 129; 121; 9; 173; 36; 205;
    249; 216; 229; 197; 185; 77; 68; 8; 134; 231; 161; 29; 170; 237; 6; 112; 178; 210; 65; 123; 160; 17; 49; 194;
    39; 144; 32; 246; 96; 255; 150; 92; 177; 171; 158; 156; 82; 27; 95; 147; 10; 239; 145; 133; 73; 238; 45; 79;
    143; 59; 71; 135; 109; 70; 214; 62; 105; 100; 42; 206; 203; 47; 252; 151; 5; 122; 172; 127; 213; 26; 75; 14;
    167; 90; 40; 20; 63; 41; 136; 60; 76; 2; 184; 218; 176; 23; 85; 31; 138; 125; 87; 199; 141; 116; 183; 196;
    159; 114; 126; 21; 34; 18; 88; 7; 153; 52; 110; 80; 222; 104; 101; 188; 219; 248; 200; 168; 43; 64; 220; 254;
    50; 164; 202; 16; 33; 240; 211; 93; 15; 0; 111; 157; 54; 66; 74; 94; 193; 224];
   [117; 243; 198; 244; 219; 123; 251; 200; 74; 211; 230; 107; 69; 125; 232; 75; 214; 50; 216; 253; 55; 113; 241;
    225; 48; 15; 248; 27; 135; 250; 6; 63; 94; 186; 174; 91; 138; 0; 188; 157; 109; 193; 177; 14; 128; 93; 210;
    213; 160; 132; 7; 20; 181; 144; 44; 163; 178; 115; 76; 84; 146; 116; 54; 81; 56; 176; 189; 90; 252; 96; 98;
    150; 108; 66; 247; 16; 124; 40; 39; 140; 19; 149; 156; 199; 36; 70; 59; 112; 202; 227; 133; 203; 17; 208; 147;
    184; 166; 131; 32; 255; 159; 119; 195; 204; 3; 111; 8; 191; 64; 231; 43; 226; 121; 12; 170; 130; 65; 58; 234;
    185; 228; 154; 164; 151; 126; 218; 122; 23; 102; 148; 161; 29; 61; 240; 222; 179; 11; 114; 167; 28; 239; 209;
    83; 62; 143; 51; 38; 95; 236; 118; 42; 73; 129; 136; 238; 33; 196; 26; 235; 217; 197; 57; 153; 205; 173; 49;
    139; 1; 24; 35; 221; 31; 78; 45; 249; 72; 79; 242; 101; 142; 120; 92; 88; 25; 141; 229; 152; 87; 103; 127; 5;
    100; 175; 99; 182; 254; 245; 183; 60; 165; 206; 233; 104; 68; 224; 77; 67; 105; 41; 46; 172; 21; 89; 168; 10;
    158; 110; 71; 223; 52; 53; 106; 207; 220; 34; 201; 192; 155; 137; 212; 237; 171; 18; 162; 13; 82; 187; 2; 47;
    169; 215; 97; 30; 180; 80; 4; 246; 194; 22; 37; 134; 86; 85; 9; 190; 145]].

(** One turn of the branchless multiplier: what is left of [a], [bb[1]] and the result. *)
Definition gf_step (p : Z) (st : Z * Z * Z) : Z * Z * Z :=
  let '(a, bb1, result) := st in
  let result := Z.lxor result (at_ [0; bb1] (Z.land a 1)) in
  (Z.shiftr a 1, Z.lxor (at_ [0; p] (Z.shiftr bb1 7)) (u32 (Z.shiftl bb1 1)), result).

Definition gf_mult (a b p : Z) : Z :=
  let '(a, bb1, result) := Nat.iter 7 (gf_step p) (a, b, 0) in
  u8 (Z.lxor result (at_ [0; bb1] (Z.land a 1))).

Definition mds_column_mult (input : Z) (col : nat) : Z :=
  let mul01 := input in
  let mul5b := gf_mult input 91 MDS_POLYNOMIAL in
  let mulef := gf_mult input 239 MDS_POLYNOMIAL in
  let word a b c d := Z.lor (Z.lor (Z.lor a (Z.shiftl b 8)) (Z.shiftl c 16)) (Z.shiftl d 24) in
  match col with
  | 0%nat => word mul01 mul5b mulef mulef
  | 1%nat => word mulef mulef mul5b mul01
  | 2%nat => word mul5b mulef mul01 mulef
  | _ => word mul5b mul01 mulef mul5b
  end.

(** The fixed permutation [t] at [x]. *)
Definition tq (t : nat) (x : Z) : Z := at_ (TWOFISH_SBOX !!! t) x.

(** [h] of the four bytes [y]. *)
Definition twofish_h (y : list Z) (key : list Z) (offset : nat) : Z :=
  let kb i j := key !!! (4 * (i + offset) + j)%nat in
  let mix (ts : nat * nat * nat * nat) i (y : list Z) :=
    let '(t0, t1, t2, t3) := ts in
    [Z.lxor (tq t0 (at_ y 0)) (kb i 0%nat); Z.lxor (tq t1 (at_ y 1)) (kb i 1%nat);
     Z.lxor (tq t2 (at_ y 2)) (kb i 2%nat); Z.lxor (tq t3 (at_ y 3)) (kb i 3%nat)] in
  let n := (length key / 8)%nat in
  let y := if (n =? 4)%nat then mix (1, 0, 0, 1)%nat 6%nat y else y in
  let y := if (3 <=? n)%nat then mix (1, 1, 0, 0)%nat 4%nat y else y in
  let y := [tq 1 (Z.lxor (tq 0 (Z.lxor (tq 0 (at_ y 0)) (kb 2%nat 0%nat))) (kb 0%nat 0%nat));
            tq 0 (Z.lxor (tq 0 (Z.lxor (tq 1 (at_ y 1)) (kb 2%nat 1%nat))) (kb 0%nat 1%nat));
            tq 1 (Z.lxor (tq 1 (Z.lxor (tq 0 (at_ y 2)) (kb 2%nat 2%nat))) (kb 0%nat 2%nat));
            tq 0 (Z.lxor (tq 1 (Z.lxor (tq 1 (at_ y 3)) (kb 2%nat 3%nat))) (kb 0%nat 3%nat))] in
  foldl Z.lxor 0 (imap (fun i yi => mds_column_mult yi i) y).

Record TwofishCipher := mkTwofishCipher {
  tw_s : list (list Z);
  tw_k : list Z;
}.

(** The S words: [rs] times each 8 bytes of the key. *)
Definition s_word (key : list Z) (i j : nat) : Z :=
  foldl Z.lxor 0 (imap (fun k rs_val => gf_mult (key !!! (8 * i + k)%nat) rs_val RS_POLYNOMIAL) (RS !!! j)).
Definition s_words (key : list Z) : list Z :=
  let k := (length key / 8)%nat in
  (fun n => if (n / 4 <? k)%nat then s_word key (n / 4) (n mod 4) else 0) <$> seq 0 16.

(** The two subkeys of round [i] of the key schedule. *)
Definition subkey_pair (key : list Z) (i : nat) : list Z :=
  let a := twofish_h (replicate 4 (u8 (2 * Z.of_nat i))) key 0 in
  let b := rotl32 (twofish_h (replicate 4 (u8 (2 * Z.of_nat i + 1))) key 1) 8 in
  [wadd32 a b; rotl32 (wadd32 (u32 (b * 2)) a) 9].

(** Entry [x] of the key-dependent S-box [j], for a key of [k] 64-bit words. *)
Definition sbox_entry (s : list Z) (k j : nat) (x : Z) : Z :=
  let q := tq in
  let y t n v := q t (Z.lxor v (at_ s n)) in
  match k with
  | 2%nat =>
      match j with
      | 0%nat => mds_column_mult (y 1%nat 4 (y 0%nat 0 (q 0%nat x))) 0
      | 1%nat => mds_column_mult (y 0%nat 5 (y 0%nat 1 (q 1%nat x))) 1
      | 2%nat => mds_column_mult (y 1%nat 6 (y 1%nat 2 (q 0%nat x))) 2
      | _ => mds_column_mult (y 0%nat 7 (y 1%nat 3 (q 1%nat x))) 3
      end
  | 3%nat =>
      match j with
      | 0%nat => mds_column_mult (y 1%nat 8 (y 0%nat 4 (y 0%nat 0 (q 1%nat x)))) 0
      | 1%nat => mds_column_mult (y 0%nat 9 (y 0%nat 5 (y 1%nat 1 (q 1%nat x)))) 1
      | 2%nat => mds_column_mult (y 1%nat 10 (y 1%nat 6 (y 0%nat 2 (q 0%nat x)))) 2
      | _ => mds_column_mult (y 0%nat 11 (y 1%nat 7 (y 1%nat 3 (q 0%nat x)))) 3
      end
  | _ =>
      match j with
      | 0%nat => mds_column_mult (y 1%nat 12 (y 0%nat 8 (y 0%nat 4 (y 1%nat 0 (q 1%nat x))))) 0
      | 1%nat => mds_column_mult (y 0%nat 13 (y 0%nat 9 (y 1%nat 5 (y 1%nat 1 (q 0%nat x))))) 1
      | 2%nat => mds_column_mult (y 1%nat 14 (y 1%nat 10 (y 0%nat 6 (y 0%nat 2 (q 0%nat x))))) 2
      | _ => mds_column_mult (y 0%nat 15 (y 1%nat 11 (y 1%nat 7 (y 0%nat 3 (q 1%nat x))))) 3
      end
  end.

Definition twofish_new_cipher (key : list Z) : result CryptError TwofishCipher :=
  let keylen := length key in
  if negb (keylen =? 16)%nat && negb (keylen =? 24)%nat && negb (keylen =? 32)%nat then
    Err (KeySize "twofish" keylen)
  else
    let k := (keylen / 8)%nat in
    let s := s_words key in
    let subkeys := concat (subkey_pair key <$> seq 0 20) in
    let sboxes := (fun j => (fun i => sbox_entry s k j (Z.of_nat i)) <$> seq 0 256) <$> seq 0 4 in
    Ok (mkTwofishCipher sboxes subkeys).

(** The S-box lookups of a round. *)
Definition tw_g1 (c : TwofishCipher) (x : Z) : Z :=
  let b := le_bytes 4 x in
  Z.lxor (Z.lxor (Z.lxor (at_ (tw_s c !!! 1%nat) (at_ b 0)) (at_ (tw_s c !!! 2%nat) (at_ b 1)))
    (at_ (tw_s c !!! 3%nat) (at_ b 2))) (at_ (tw_s c !!! 0%nat) (at_ b 3)).
Definition tw_g0 (c : TwofishCipher) (x : Z) : Z :=
  let b := le_bytes 4 x in
  Z.lxor (Z.lxor (Z.lxor (at_ (tw_s c !!! 0%nat) (at_ b 0)) (at_ (tw_s c !!! 1%nat) (at_ b 1)))
    (at_ (tw_s c !!! 2%nat) (at_ b 2))) (at_ (tw_s c !!! 3%nat) (at_ b 3)).

(** The four words of a block. *)
Definition TwWords : Type := Z * Z * Z * Z.
Definition load32l (block : list Z) : TwWords :=
  match le_words 4 block with [w0; w1; w2; w3] => (w0, w1, w2, w3) | _ => (0, 0, 0, 0) end.
Definition store32l (w : TwWords) : list Z :=
  let '(w0, w1, w2, w3) := w in le_bytes 4 w0 ++ le_bytes 4 w1 ++ le_bytes 4 w2 ++ le_bytes 4 w3.

(** Iteration [i] of the loop of [encrypt]: two Feistel rounds. *)
Definition tw_encrypt_round (c : TwofishCipher) (w : TwWords) (i : nat) : TwWords :=
  let '(ia, ib, ic, id) := w in
  let k := drop (8 + i * 4) (tw_k c) in
  let t2 := tw_g1 c ib in
  let t1 := wadd32 (tw_g0 c ia) t2 in
  let ic := rotr32 (Z.lxor ic (wadd32 t1 (at_ k 0))) 1 in
  let id := Z.lxor (rotl32 id 1) (wadd32 (wadd32 t2 t1) (at_ k 1)) in
  let t2 := tw_g1 c id in
  let t1 := wadd32 (tw_g0 c ic) t2 in
  let ia := rotr32 (Z.lxor ia (wadd32 t1 (at_ k 2))) 1 in
  let ib := Z.lxor (rotl32 ib 1) (wadd32 (wadd32 t2 t1) (at_ k 3)) in
  (ia, ib, ic, id).

(** Iteration [i] of the loop of [decrypt], [i] counting down from 8. *)
Definition tw_decrypt_round (c : TwofishCipher) (w : TwWords) (i : nat) : TwWords :=
  let '(ia, ib, ic, id) := w in
  let k := drop (4 + i * 4) (tw_k c) in
  let t2 := tw_g1 c id in
  let t1 := wadd32 (tw_g0 c ic) t2 in
  let ia := Z.lxor (rotl32 ia 1) (wadd32 t1 (at_ k 2)) in
  let ib := rotr32 (Z.lxor ib (wadd32 (wadd32 t2 t1) (at_ k 3))) 1 in
  let t2 := tw_g1 c ib in
  let t1 := wadd32 (tw_g0 c ia) t2 in
  let ic := Z.lxor (rotl32 ic 1) (wadd32 t1 (at_ k 0)) in
  let id := rotr32 (Z.lxor id (wadd32 (wadd32 t2 t1) (at_ k 1))) 1 in
  (ia, ib, ic, id).

Definition twofish_encrypt (c : TwofishCipher) (block : list Z) : list Z :=
  let k n := at_ (tw_k c) n in
  let '(ia, ib, ic, id) := load32l block in
  let w := (Z.lxor ia (k 0), Z.lxor ib (k 1), Z.lxor ic (k 2), Z.lxor id (k 3)) in
  let '(ia, ib, ic, id) := foldl (tw_encrypt_round c) w (seq 0 8) in
  store32l (Z.lxor ic (k 4), Z.lxor id (k 5), Z.lxor ia (k 6), Z.lxor ib (k 7)).

Definition twofish_decrypt (c : TwofishCipher) (block : list Z) : list Z :=
  let k n := at_ (tw_k c) n in
  let '(ta, tb, tc, td) := load32l block in
  let w := (Z.lxor tc (k 6), Z.lxor td (k 7), Z.lxor ta (k 4), Z.lxor tb (k 5)) in
  let '(ia, ib, ic, id) := foldl (tw_decrypt_round c) w (rev (seq 1 8)) in
  store32l (Z.lxor ia (k 0), Z.lxor ib (k 1), Z.lxor ic (k 2), Z.lxor id (k 3)).

#[export] Instance twofish_cfb : CfbBlock 16 TwofishCipher :=
  { encrypt_block := twofish_encrypt; encrypt_blocks := each_block twofish_encrypt }.
#[export] Instance twofish_cfb_law : CfbLaw 16 TwofishCipher.
Proof. intros c ks _. unfold encrypt_blocks, encrypt_block, twofish_cfb, each_block. reflexivity. Qed.

(** The zero block under the zero key, and a 24- and a 32-byte key, as in the source's tests. *)
Definition twofish_block (key block : list Z) : list Z :=
  match twofish_new_cipher key with Ok c => twofish_encrypt c block | Err _ | Panic => [] end.
Example twofish_known_answer_128 : twofish_block (replicate 16 0) (replicate 16 0) =
  [159; 88; 159; 92; 246; 18; 44; 50; 182; 191; 236; 47; 42; 232; 195; 90].
Proof. vm_compute. reflexivity. Qed.
Example twofish_known_answer_192 :
  twofish_block
    [1; 35; 69; 103; 137; 171; 205; 239; 254; 220; 186; 152; 118; 84; 50; 16; 0; 17; 34; 51; 68; 85; 102; 119]
    (replicate 16 0) =
  [207; 209; 210; 229; 169; 190; 156; 223; 80; 31; 19; 184; 146; 189; 34; 72].
Proof. vm_compute. reflexivity. Qed.
Example twofish_known_answer_256 :
  twofish_block
    [1; 35; 69; 103; 137; 171; 205; 239; 254; 220; 186; 152; 118; 84; 50; 16; 0; 17; 34; 51; 68; 85; 102; 119; 136; 153; 170; 187; 204; 221; 238; 255]
    (replicate 16 0) =
  [55; 82; 123; 224; 5; 35; 52; 184; 159; 12; 252; 202; 232; 124; 250; 32].
Proof. vm_compute. reflexivity. Qed.

(** ** Decryption undoes encryption *)

Definition tw_words_ok (w : TwWords) : Prop :=
  let '(ia, ib, ic, id) := w in is_u32 ia /\ is_u32 ib /\ is_u32 ic /\ is_u32 id.

(** The subkeys a cipher made by the constructor has. *)
Definition twofish_keyed (c : TwofishCipher) : Prop := Forall is_u32 (tw_k c).

Lemma subkeys_u32 key l : Forall is_u32 (concat (subkey_pair key <$> l)).
Proof.
  apply Forall_concat, Forall_fmap, Forall_forall. intros i _. unfold compose, subkey_pair. cbv zeta.
  rewrite !Forall_cons. split_and!; [auto with word|apply rotl32_range; [auto with word|lia]|done].
Qed.

Lemma twofish_new_keyed key c : twofish_new_cipher key = Ok c -> twofish_keyed c.
Proof.
  unfold twofish_new_cipher. cbv zeta. destruct (negb _ && _ && _); [done|]. generalize (seq 0 20). intros l H.
  enough (E : tw_k c = concat (subkey_pair key <$> l)) by (unfold twofish_keyed; rewrite E; apply subkeys_u32).
  by injection H as <-.
Qed.

Lemma tw_round_ok c w i : tw_words_ok w -> tw_words_ok (tw_encrypt_round c w i).
Proof.
  destruct w as [[[ia ib] ic] id]. intros (Ha & Hb & Hc & Hd). unfold tw_encrypt_round, tw_words_ok. cbv zeta.
  split_and!; first [apply rotr32_range | apply lxor_u32; [apply rotl32_range|]]; auto with word; lia.
Qed.

Lemma tw_rounds_ok c l : forall w, tw_words_ok w -> tw_words_ok (foldl (tw_encrypt_round c) w l).
Proof. induction l as [|i l IH]; intros w Hw; cbn [foldl]; [done|]. by apply IH, tw_round_ok. Qed.

Lemma tw_round_undo c w i : tw_words_ok w -> tw_decrypt_round c (tw_encrypt_round c w i) (S i) = w.
Proof.
  destruct w as [[[ia ib] ic] id]. intros (Ha & Hb & Hc & Hd). unfold tw_encrypt_round, tw_decrypt_round. cbv zeta.
  replace (4 + S i * 4)%nat with (8 + i * 4)%nat by lia.
  repeat first [rewrite rotl_rotr by (auto with word; lia) | rewrite lxor_cancel | rewrite rotr_rotl by (auto with word; lia)].
  done.
Qed.

Lemma tw_rounds_undo c n : forall w, tw_words_ok w ->
  foldl (tw_decrypt_round c) (foldl (tw_encrypt_round c) w (seq 0 n)) (rev (seq 1 n)) = w.
Proof.
  induction n as [|n IH]; intros w Hw; [done|].
  rewrite !seq_S, foldl_app, rev_app_distr. cbn [rev app foldl]. rewrite tw_round_undo; [by apply IH|]. by apply tw_rounds_ok.
Qed.

Lemma store_load32l b : bytes b -> length b = 16%nat -> store32l (load32l b) = b /\ tw_words_ok (load32l b).
Proof.
  intros Hb Hl. pose proof (le_words_u32 4 b Hb) as Hw. pose proof (concat_le_words 4 b Hb Hl) as Hc. unfold load32l.
  remember (le_words 4 b) as w eqn:E. assert (Hlen : length w = 4%nat) by (rewrite E; unfold le_words; by rewrite length_fmap).
  do 4 (destruct w as [|? w]; [done|]). destruct w; [|done]. rewrite !Forall_cons in Hw. split; [|cbn; tauto].
  rewrite <- Hc. cbn [store32l fmap list_fmap concat]. by rewrite app_nil_r.
Qed.

Lemma load_store32l w : tw_words_ok w -> load32l (store32l w) = w.
Proof.
  destruct w as [[[w0 w1] w2] w3]. intros (H0 & H1 & H2 & H3).
  assert (E : store32l (w0, w1, w2, w3) = concat (le_bytes 4 <$> [w0; w1; w2; w3]))
    by (cbn [store32l fmap list_fmap concat]; by rewrite app_nil_r).
  unfold load32l. rewrite E. pose proof (le_words_concat [w0; w1; w2; w3]) as Hc.
  change (length _) with 4%nat in Hc. rewrite Hc; [done|]. by rewrite !Forall_cons.
Qed.

Lemma twofish_output c b : bytes (twofish_encrypt c b) /\ length (twofish_encrypt c b) = 16%nat.
Proof.
  unfold twofish_encrypt. cbv zeta. destruct (load32l b) as [[[? ?] ?] ?]. destruct (foldl _ _ _) as [[[? ?] ?] ?]. split.
  - cbn [store32l]. unfold bytes. rewrite !Forall_app. split_and!; apply le_bytes_bytes.
  - cbn [store32l]. by rewrite !length_app, !length_le_bytes.
Qed.

Lemma twofish_inverse c b : twofish_keyed c -> bytes b -> length b = 16%nat -> twofish_decrypt c (twofish_encrypt c b) = b.
Proof.
  intros Hk Hb Hl. destruct (store_load32l b Hb Hl) as [Hs Hok]. unfold twofish_decrypt, twofish_encrypt. cbv zeta.
  destruct (load32l b) as [[[ia ib] ic] id] eqn:El. destruct Hok as (Ha & Hbb & Hc & Hd).
  set (k := fun n => at_ (tw_k c) n). assert (Hu : forall n, is_u32 (k n)) by (intros; by apply at_u32).
  fold (k 0) (k 1) (k 2) (k 3) (k 4) (k 5) (k 6) (k 7).
  set (w := (Z.lxor ia (k 0), _, _, _)). assert (Hw : tw_words_ok w) by (cbn; auto with word).
  pose proof (tw_rounds_ok c (seq 0 8) w Hw) as Hr. pose proof (tw_rounds_undo c 8 w Hw) as Hundo.
  destruct (foldl (tw_encrypt_round c) w (seq 0 8)) as [[[ja jb] jc] jd]. destruct Hr as (Ra & Rb & Rc & Rd).
  rewrite load_store32l by (cbn; auto with word). rewrite !lxor_cancel, Hundo. unfold w. by rewrite !lxor_cancel.
Qed.
