(* ===== verification/Des.v ===== *)
(** * DES and Triple DES: [crypt/des.rs]

    The permutations of the block are bit exchanges and the S-boxes are merged with the
    permutation of the round function into eight tables. *)
From stdpp Require Import base list.
From Stdlib Require Import ZArith Lia String.
From S2P Require Import Prelude Word CipherWord Cfb.
Local Open Scope Z_scope.

Definition shl64 (x n : Z) : Z := u64 (Z.shiftl x n).
Definition shl32 (x n : Z) : Z := u32 (Z.shiftl x n).

Definition INITIAL_PERMUTATION : list Z :=
  [6; 14; 22; 30; 38; 46; 54; 62; 4; 12; 20; 28; 36; 44; 52; 60; 2; 10; 18; 26; 34; 42; 50; 58; 0; 8; 16; 24;
   32; 40; 48; 56; 7; 15; 23; 31; 39; 47; 55; 63; 5; 13; 21; 29; 37; 45; 53; 61; 3; 11; 19; 27; 35; 43; 51;
   59; 1; 9; 17; 25; 33; 41; 49; 57].
Definition FINAL_PERMUTATION : list Z :=
  [24; 56; 16; 48; 8; 40; 0; 32; 25; 57; 17; 49; 9; 41; 1; 33; 26; 58; 18; 50; 10; 42; 2; 34; 27; 59; 19; 51;
   11; 43; 3; 35; 28; 60; 20; 52; 12; 44; 4; 36; 29; 61; 21; 53; 13; 45; 5; 37; 30; 62; 22; 54; 14; 46; 6; 38;
   31; 63; 23; 55; 15; 47; 7; 39].
Definition PERMUTATION_FUNCTION : list Z :=
  [16; 25; 12; 11; 3; 20; 4; 15; 31; 17; 9; 6; 27; 14; 1; 22; 30; 24; 8; 18; 0; 5; 29; 23; 13; 19; 2; 26; 10;
   21; 28; 7].
Definition PERMUTED_CHOICE1 : list Z :=
  [7; 15; 23; 31; 39; 47; 55; 63; 6; 14; 22; 30; 38; 46; 54; 62; 5; 13; 21; 29; 37; 45; 53; 61; 4; 12; 20; 28;
   1; 9; 17; 25; 33; 41; 49; 57; 2; 10; 18; 26; 34; 42; 50; 58; 3; 11; 19; 27; 35; 43; 51; 59; 36; 44; 52; 60].
Definition PERMUTED_CHOICE2 : list Z :=
  [42; 39; 45; 32; 55; 51; 53; 28; 41; 50; 35; 46; 33; 37; 44; 52; 30; 48; 40; 49; 29; 36; 43; 54; 15; 4; 25;
   19; 9; 1; 26; 16; 5; 11; 23; 8; 12; 7; 17; 0; 22; 3; 10; 14; 6; 20; 27; 24].
Definition S_BOXES : list (list (list Z)) :=
  [[[14; 4; 13; 1; 2; 15; 11; 8; 3; 10; 6; 12; 5; 9; 0; 7];
    [0; 15; 7; 4; 14; 2; 13; 1; 10; 6; 12; 11; 9; 5; 3; 8];
    [4; 1; 14; 8; 13; 6; 2; 11; 15; 12; 9; 7; 3; 10; 5; 0];
    [15; 12; 8; 2; 4; 9; 1; 7; 5; 11; 3; 14; 10; 0; 6; 13]];
   [[15; 1; 8; 14; 6; 11; 3; 4; 9; 7; 2; 13; 12; 0; 5; 10];
    [3; 13; 4; 7; 15; 2; 8; 14; 12; 0; 1; 10; 6; 9; 11; 5];
    [0; 14; 7; 11; 10; 4; 13; 1; 5; 8; 12; 6; 9; 3; 2; 15];
    [13; 8; 10; 1; 3; 15; 4; 2; 11; 6; 7; 12; 0; 5; 14; 9]];
   [[10; 0; 9; 14; 6; 3; 15; 5; 1; 13; 12; 7; 11; 4; 2; 8];
    [13; 7; 0; 9; 3; 4; 6; 10; 2; 8; 5; 14; 12; 11; 15; 1];
    [13; 6; 4; 9; 8; 15; 3; 0; 11; 1; 2; 12; 5; 10; 14; 7];
    [1; 10; 13; 0; 6; 9; 8; 7; 4; 15; 14; 3; 11; 5; 2; 12]];
   [[7; 13; 14; 3; 0; 6; 9; 10; 1; 2; 8; 5; 11; 12; 4; 15];
    [13; 8; 11; 5; 6; 15; 0; 3; 4; 7; 2; 12; 1; 10; 14; 9];
    [10; 6; 9; 0; 12; 11; 7; 13; 15; 1; 3; 14; 5; 2; 8; 4];
    [3; 15; 0; 6; 10; 1; 13; 8; 9; 4; 5; 11; 12; 7; 2; 14]];
   [[2; 12; 4; 1; 7; 10; 11; 6; 8; 5; 3; 15; 13; 0; 14; 9];
    [14; 11; 2; 12; 4; 7; 13; 1; 5; 0; 15; 10; 3; 9; 8; 6];
    [4; 2; 1; 11; 10; 13; 7; 8; 15; 9; 12; 5; 6; 3; 0; 14];
    [11; 8; 12; 7; 1; 14; 2; 13; 6; 15; 0; 9; 10; 4; 5; 3]];
   [[12; 1; 10; 15; 9; 2; 6; 8; 0; 13; 3; 4; 14; 7; 5; 11];
    [10; 15; 4; 2; 7; 12; 9; 5; 6; 1; 13; 14; 0; 11; 3; 8];
    [9; 14; 15; 5; 2; 8; 12; 3; 7; 0; 4; 10; 1; 13; 11; 6];
    [4; 3; 2; 12; 9; 5; 15; 10; 11; 14; 1; 7; 6; 0; 8; 13]];
   [[4; 11; 2; 14; 15; 0; 8; 13; 3; 12; 9; 7; 5; 10; 6; 1];
    [13; 0; 11; 7; 4; 9; 1; 10; 14; 3; 5; 12; 2; 15; 8; 6];
    [1; 4; 11; 13; 12; 3; 7; 14; 10; 15; 6; 8; 0; 5; 9; 2];
    [6; 11; 13; 8; 1; 4; 10; 7; 9; 5; 0; 15; 14; 2; 3; 12]];
   [[13; 2; 8; 4; 6; 15; 11; 1; 10; 9; 3; 14; 5; 0; 12; 7];
    [1; 15; 13; 8; 10; 3; 7; 4; 12; 5; 6; 11; 0; 14; 9; 2];
    [7; 11; 4; 1; 9; 12; 14; 2; 0; 6; 10; 13; 15; 3; 5; 8];
    [2; 1; 14; 7; 4; 10; 8; 13; 15; 12; 9; 0; 3; 5; 6; 11]]].
Definition KS_ROTATIONS : list Z :=
  [1; 1; 2; 2; 2; 2; 2; 2; 1; 2; 2; 2; 2; 2; 2; 1].

Definition permute_step (src : Z) (len : nat) (block : Z) (position : nat) (p : Z) : Z :=
  let bit := Z.land (Z.shiftr src p) 1 in
  Z.lor block (shl64 bit (Z.of_nat (len - 1 - position))).
Fixpoint permute_loop (src : Z) (len : nat) (ps : list Z) (position : nat) (block : Z) : Z :=
  match ps with
  | [] => block
  | p :: ps => permute_loop src len ps (S position) (permute_step src len block position p)
  end.
Definition permute_block (src : Z) (permutation : list Z) : Z :=
  permute_loop src (length permutation) permutation 0 0.

(** The slot of row [i] and column [j] and its entry. *)
Definition feistel_slot (i j : nat) : nat :=
  Z.to_nat (u8 (Z.lor (Z.lor (Z.shiftl (Z.land (Z.of_nat i) 2) 4) (Z.land (Z.of_nat i) 1)) (Z.shiftl (Z.of_nat j) 1))).
Definition feistel_entry (s i j : nat) : Z :=
  let f := shl64 (at_ ((S_BOXES !!! s) !!! i) (Z.of_nat j)) (4 * (7 - Z.of_nat s)) in
  let f := permute_block f PERMUTATION_FUNCTION in
  u32 (Z.lor (shl64 f 1) (Z.shiftr f 31)).
Definition init_feistel_box : list (list Z) :=
  (fun s => foldl (fun box i => foldl (fun box j => <[feistel_slot i j := feistel_entry s i j]> box) box (seq 0 16))
    (replicate 64 0) (seq 0 4)) <$> seq 0 8.
Definition FEISTEL_BOX : list (list Z) := Eval vm_compute in init_feistel_box.

(** The bit exchanges of [permute_initial_block], in order. *)
Definition exchange_bytes16 (block : Z) : Z :=
  let b1 := Z.shiftr block 48 in
  let b2 := shl64 block 48 in
  Z.lxor block (Z.lxor (Z.lxor (Z.lxor b1 b2) (shl64 b1 48)) (Z.shiftr b2 48)).
Definition exchange_bytes8 (block : Z) : Z :=
  let b1 := Z.land (Z.shiftr block 32) 16711935 in
  let b2 := Z.land block 4278255360 in
  Z.lxor block (Z.lxor (Z.lxor (Z.lxor (shl64 b1 32) b2) (shl64 b1 8)) (shl64 b2 24)).
Definition exchange_nibbles (block : Z) : Z :=
  let b1 := Z.land block 1085086035472220160 in
  let b2 := Z.land block 264913582878960 in
  Z.lxor block (Z.lxor (Z.lxor (Z.lxor b1 b2) (Z.shiftr b1 12)) (shl64 b2 12)).
Definition exchange_pairs (block : Z) : Z :=
  let b1 := Z.land block 3674993371882992384 in
  let b2 := Z.land block 57421771435671756 in
  Z.lxor block (Z.lxor (Z.lxor (Z.lxor b1 b2) (Z.shiftr b1 6)) (shl64 b2 6)).
Definition exchange_bits (block : Z) : Z :=
  let b1 := Z.land block 12297829381041378645 in
  Z.lxor block (Z.lxor (Z.lxor b1 (Z.shiftr b1 33)) (shl64 b1 33)).
Definition permute_initial_block (block : Z) : Z :=
  exchange_bits (exchange_pairs (exchange_nibbles (exchange_bytes8 (exchange_bytes16 block)))).
Definition permute_final_block (block : Z) : Z :=
  exchange_bytes16 (exchange_bytes8 (exchange_nibbles (exchange_pairs (exchange_bits block)))).

(** 28-bit circular left shifts, each of the result of the one before. *)
Fixpoint ks_rotate_loop (last : Z) (rots : list Z) : list Z :=
  match rots with
  | [] => []
  | rot :: rots =>
      let left := Z.shiftr (shl32 last (4 + rot)) 4 in
      let right := Z.shiftr (shl32 last 4) (32 - rot) in
      let o := Z.lor left right in
      o :: ks_rotate_loop o rots
  end.
Definition ks_rotate (input : Z) : list Z := ks_rotate_loop input KS_ROTATIONS.

Definition unpack (x : Z) : Z :=
  let b n := Z.land (Z.shiftr x (6 * n)) 255 in
  Z.lor (Z.lor (Z.lor (Z.lor (Z.lor (Z.lor (Z.lor (b 1) (shl64 (b 3) 8)) (shl64 (b 5) (8 * 2))) (shl64 (b 7) (8 * 3)))
    (shl64 (Z.land x 255) (8 * 4))) (shl64 (b 2) (8 * 5))) (shl64 (b 4) (8 * 6))) (shl64 (b 6) (8 * 7)).

Record DesCipher := mkDesCipher {
  des_subkeys : list Z;
}.

Definition generate_subkeys (key_bytes : list Z) : DesCipher :=
  let key := be_val key_bytes in
  let permuted_key := permute_block key PERMUTED_CHOICE1 in
  let left_rotations := ks_rotate (u32 (Z.shiftr permuted_key 28)) in
  let right_rotations := ks_rotate (Z.shiftr (u32 (shl64 permuted_key 4)) 4) in
  mkDesCipher ((fun i =>
    let pc2_input := Z.lor (shl64 (left_rotations !!! i) 28) (right_rotations !!! i) in
    unpack (permute_block pc2_input PERMUTED_CHOICE2)) <$> seq 0 16).

Definition des_new_cipher (key : list Z) : result CryptError DesCipher :=
  if (length key =? 8)%nat then Ok (generate_subkeys key) else Err (KeySize "des" (length key)).

(** Two rounds: the Feistel function of each half in turn. *)
Definition sb (s : nat) (t : Z) : Z := at_ (FEISTEL_BOX !!! s) (Z.land t 63).
Definition feistel_half (l r k : Z) : Z :=
  let t := Z.lxor r (u32 (Z.shiftr k 32)) in
  let l := Z.lxor l (Z.lxor (Z.lxor (Z.lxor (sb 7 t) (sb 5 (Z.shiftr t 8))) (sb 3 (Z.shiftr t 16))) (sb 1 (Z.shiftr t 24))) in
  let t := Z.lxor (rotl32 r 28) (u32 k) in
  Z.lxor l (Z.lxor (Z.lxor (Z.lxor (sb 6 t) (sb 4 (Z.shiftr t 8))) (sb 2 (Z.shiftr t 16))) (sb 0 (Z.shiftr t 24))).
Definition feistel (l r k0 k1 : Z) : Z * Z :=
  let l := feistel_half l r k0 in
  let r := feistel_half r l k1 in
  (l, r).

(** The loops over the subkeys, forwards and backwards. *)
Definition des_forward (subkeys : list Z) (lr : Z * Z) : Z * Z :=
  foldl (fun '(l, r) i => feistel l r (subkeys !!! (2 * i)%nat) (subkeys !!! (2 * i + 1)%nat)) lr (seq 0 8).
Definition des_backward (subkeys : list Z) (lr : Z * Z) : Z * Z :=
  foldl (fun '(l, r) i =>
    feistel l r (subkeys !!! (15 - 2 * i)%nat) (subkeys !!! (15 - (2 * i + 1))%nat)) lr (seq 0 8).
Definition swap_halves (lr : Z * Z) : Z * Z := let '(l, r) := lr in (r, l).

(** What every mode does before and after its rounds. *)
Definition des_load (block : list Z) : Z * Z :=
  let b := permute_initial_block (be_val block) in
  (rotl32 (u32 (Z.shiftr b 32)) 1, rotl32 (u32 b) 1).
Definition des_store (lr : Z * Z) : list Z :=
  let '(l, r) := lr in
  let left := rotr32 l 1 in
  let right := rotr32 r 1 in
  let pre_output := Z.lor (shl64 right 32) left in
  be_bytes 8 (permute_final_block pre_output).

Definition des_crypt_block (subkeys block : list Z) (decrypt : bool) : list Z :=
  des_store (if decrypt then des_backward subkeys (des_load block) else des_forward subkeys (des_load block)).
Definition des_encrypt (c : DesCipher) (block : list Z) : list Z := des_crypt_block (des_subkeys c) block false.
Definition des_decrypt (c : DesCipher) (block : list Z) : list Z := des_crypt_block (des_subkeys c) block true.

Record TripleDesCipher := mkTripleDesCipher {
  cipher1 : DesCipher;
  cipher2 : DesCipher;
  cipher3 : DesCipher;
}.

Definition new_triple_des_cipher (key : list Z) : result CryptError TripleDesCipher :=
  if (length key =? 24)%nat then
    Ok (mkTripleDesCipher (generate_subkeys (take 8 key)) (generate_subkeys (take 8 (drop 8 key)))
      (generate_subkeys (take 8 (drop 16 key))))
  else Err (KeySize "des" (length key)).

(** Encrypt with the first key, decrypt with the second, encrypt with the third; the middle
    loop runs on the halves the other way round. *)
Definition triple_des_encrypt (c : TripleDesCipher) (block : list Z) : list Z :=
  let lr := des_load block in
  let lr := des_forward (des_subkeys (cipher1 c)) lr in
  let lr := swap_halves (des_backward (des_subkeys (cipher2 c)) (swap_halves lr)) in
  let lr := des_forward (des_subkeys (cipher3 c)) lr in
  des_store lr.
Definition triple_des_decrypt (c : TripleDesCipher) (block : list Z) : list Z :=
  let lr := des_load block in
  let lr := des_backward (des_subkeys (cipher3 c)) lr in
  let lr := swap_halves (des_forward (des_subkeys (cipher2 c)) (swap_halves lr)) in
  let lr := des_backward (des_subkeys (cipher1 c)) lr in
  des_store lr.

#[export] Instance triple_des_cfb : CfbBlock 8 TripleDesCipher :=
  { encrypt_block := triple_des_encrypt; encrypt_blocks := each_block triple_des_encrypt }.
#[export] Instance triple_des_cfb_law : CfbLaw 8 TripleDesCipher.
Proof. intros c ks _. unfold encrypt_blocks, encrypt_block, triple_des_cfb, each_block. reflexivity. Qed.

(** Known answers from the source's tests. *)
Example des_known_answer :
  match des_new_cipher [14; 50; 146; 50; 234; 109; 13; 115] with Ok c => des_encrypt c [135; 135; 135; 135; 135; 135; 135; 135] | Err _ | Panic => [] end =
  [0; 0; 0; 0; 0; 0; 0; 0].
Proof. vm_compute. reflexivity. Qed.
Example triple_des_known_answer :
  match new_triple_des_cipher [211; 125; 69; 238; 34; 233; 207; 82; 244; 101; 162; 79; 112; 209; 129; 138; 61; 190; 47; 57; 199; 113; 210; 233] with
  | Ok c => triple_des_encrypt c [73; 83; 195; 233; 120; 223; 159; 175]
  | Err _ | Panic => []
  end = [83; 64; 81; 36; 216; 60; 249; 136].
Proof. vm_compute. reflexivity. Qed.
