(* ===== verification/DesSpec.v ===== *)
(** * The permutations and the inverse of Triple DES

    The bit exchanges are linear over exclusive or, so they are determined by their values
    on the 64 single bits: they compute the permutations of the tables and undo each other.
    Every mode of the cipher then undoes its counterpart. *)
From stdpp Require Import base list.
From Stdlib Require Import ZArith Lia.
From S2P Require Import Prelude Word CipherWord Cfb Des.
Local Open Scope Z_scope.

(** ** Functions linear over exclusive or *)

Definition linear (f : Z -> Z) : Prop := forall a b, f (Z.lxor a b) = Z.lxor (f a) (f b).

Create HintDb linear.

Lemma linear_id : linear (fun x => x).
Proof. done. Qed.
Lemma linear_lxor f g : linear f -> linear g -> linear (fun x => Z.lxor (f x) (g x)).
Proof. intros Hf Hg a b. rewrite Hf, Hg. xor_eq. Qed.
Lemma linear_land f m : linear f -> linear (fun x => Z.land (f x) m).
Proof.
  intros Hf a b. rewrite Hf. apply Z.bits_inj'. intros i _. rewrite !Z.lxor_spec, !Z.land_spec, Z.lxor_spec.
  by destruct (Z.testbit (f a) i), (Z.testbit (f b) i), (Z.testbit m i).
Qed.
Lemma linear_shiftr f n : 0 <= n -> linear f -> linear (fun x => Z.shiftr (f x) n).
Proof. intros Hn Hf a b. rewrite Hf. apply Z.bits_inj'. intros i Hi. by rewrite !Z.lxor_spec, !Z.shiftr_spec, Z.lxor_spec. Qed.

Lemma u64_bit x i : 0 <= i -> Z.testbit (u64 x) i = bool_decide (i < 64) && Z.testbit x i.
Proof.
  intros Hi. unfold u64. change 18446744073709551616 with (2 ^ 64). case_bool_decide.
  - by rewrite Z.mod_pow2_bits_low.
  - rewrite Z.mod_pow2_bits_high by lia. done.
Qed.

Lemma linear_shl64 f n : linear f -> linear (fun x => shl64 (f x) n).
Proof.
  intros Hf a b. rewrite Hf. unfold shl64. apply Z.bits_inj'. intros i Hi.
  rewrite Z.lxor_spec, !u64_bit by done. rewrite !Z.shiftl_spec, Z.lxor_spec by done. by destruct (bool_decide _).
Qed.

Lemma linear_comp f g : linear f -> linear g -> linear (fun x => f (g x)).
Proof. intros Hf Hg a b. by rewrite Hg, Hf. Qed.

#[export] Hint Resolve linear_id linear_lxor linear_land linear_shl64 linear_shiftr : linear.
#[export] Hint Extern 1 (0 <= _) => lia : linear.

Lemma linear_zero f : linear f -> f 0 = 0.
Proof. intros Hf. specialize (Hf 0 0). by rewrite !Z.lxor_nilpotent in Hf. Qed.

(** Linear functions that agree on the single bits agree on the words. *)
Lemma linear_ext f g (n : nat) : linear f -> linear g ->
  (forall i, (i < n)%nat -> f (2 ^ Z.of_nat i) = g (2 ^ Z.of_nat i)) ->
  forall x, 0 <= x < 2 ^ Z.of_nat n -> f x = g x.
Proof.
  intros Hf Hg. induction n as [|n IH]; intros Hb x Hx.
  - cbn in Hx. replace x with 0 by lia. by rewrite !linear_zero.
  - set (p := 2 ^ Z.of_nat n). assert (Hp : 0 < p) by (apply Z.pow_pos_nonneg; lia).
    assert (E2 : 2 ^ Z.of_nat (S n) = 2 * p) by (unfold p; rewrite <- Z.pow_succ_r by lia; f_equal; lia).
    assert (IH' : forall y, 0 <= y < p -> f y = g y) by (intros; apply IH; [intros; apply Hb; lia|done]).
    destruct (decide (x < p)); [apply IH'; lia|].
    assert (E : x = Z.lxor (x - p) p).
    { transitivity (x - p + p * 1); [lia|]. unfold p at 2. rewrite add_shift by (fold p; lia). f_equal. by rewrite Z.shiftl_1_l. }
    rewrite E, Hf, Hg, IH' by lia. f_equal. apply Hb. lia.
Qed.

(** ** The permutation of a table *)

Lemma permute_loop_bit src len ps : forall position block, (position + length ps = len)%nat -> (len <= 64)%nat ->
  Forall (fun p => 0 <= p) ps -> forall i, 0 <= i ->
  Z.testbit (permute_loop src len ps position block) i =
  Z.testbit block i || bool_decide (i < Z.of_nat (length ps)) && Z.testbit src (ps !!! (length ps - 1 - Z.to_nat i)%nat).
Proof.
  induction ps as [|p ps IH]; intros position block Hlen H64 Hps i Hi; cbn [permute_loop length] in *.
  - rewrite bool_decide_eq_false_2 by lia. by rewrite orb_false_r.
  - apply Forall_cons in Hps as [Hp Hps]. rewrite IH by (done || lia). unfold permute_step, shl64.
    replace (len - 1 - position)%nat with (length ps) by lia.
    rewrite Z.lor_spec, u64_bit, Z.shiftl_spec, Z.land_spec by done.
    destruct (decide (i < Z.of_nat (length ps))); [|destruct (decide (i = Z.of_nat (length ps)))].
    + rewrite (Z.testbit_neg_r _ (i - _)) by lia. rewrite andb_false_l, andb_false_r, orb_false_r.
      rewrite !bool_decide_eq_true_2 by lia. do 2 f_equal.
      replace (S (length ps) - 1 - Z.to_nat i)%nat with (S (length ps - 1 - Z.to_nat i)) by lia. done.
    + subst i. rewrite Z.sub_diag, Z.shiftr_spec by lia. rewrite (bool_decide_eq_false_2 (_ < Z.of_nat (length ps))) by lia.
      rewrite !bool_decide_eq_true_2 by lia. replace (S (length ps) - 1 - _)%nat with 0%nat by lia.
      cbn -[Z.testbit Z.of_nat]. change (Z.testbit 1 0) with true. by rewrite andb_true_r, orb_false_r.
    + rewrite (bool_decide_eq_false_2 (i < Z.of_nat (length ps))), (bool_decide_eq_false_2 (i < Z.of_nat (S _))) by lia.
      rewrite (high_bit 1 1 (i - _)) by lia. by rewrite !andb_false_r, !andb_false_l, !orb_false_r.
Qed.

Lemma linear_permute ps : (length ps <= 64)%nat -> Forall (fun p => 0 <= p) ps -> linear (fun x => permute_block x ps).
Proof.
  intros Hl Hps a b. apply Z.bits_inj'. intros i Hi. unfold permute_block.
  rewrite Z.lxor_spec, !permute_loop_bit by (done || lia). rewrite Z.lxor_spec, Z.bits_0.
  by destruct (bool_decide _).
Qed.

Lemma linear_initial : linear permute_initial_block.
Proof.
  unfold permute_initial_block. apply (linear_comp exchange_bits); [|apply (linear_comp exchange_pairs);
    [|apply (linear_comp exchange_nibbles); [|apply (linear_comp exchange_bytes8)]]];
  cbv delta [exchange_bits exchange_pairs exchange_nibbles exchange_bytes8 exchange_bytes16] beta zeta; auto 20 with linear.
Qed.

Lemma linear_final : linear permute_final_block.
Proof.
  unfold permute_final_block. apply (linear_comp exchange_bytes16); [|apply (linear_comp exchange_bytes8);
    [|apply (linear_comp exchange_nibbles); [|apply (linear_comp exchange_pairs)]]];
  cbv delta [exchange_bits exchange_pairs exchange_nibbles exchange_bytes8 exchange_bytes16] beta zeta; auto 20 with linear.
Qed.

(** The value at every single bit, checked. *)
Ltac on_bits := intros i Hi; do 64 (destruct i as [|i]; [vm_compute; reflexivity|]); lia.

Lemma permute_initial_table x : is_u64 x -> permute_initial_block x = permute_block x INITIAL_PERMUTATION.
Proof.
  apply (linear_ext _ (fun x => permute_block x INITIAL_PERMUTATION) 64).
  - exact linear_initial.
  - apply linear_permute; [cbn; lia|]. repeat (apply Forall_cons; split; [lia|]); apply Forall_nil; done.
  - on_bits.
Qed.

Lemma permute_final_table x : is_u64 x -> permute_final_block x = permute_block x FINAL_PERMUTATION.
Proof.
  apply (linear_ext _ (fun x => permute_block x FINAL_PERMUTATION) 64).
  - exact linear_final.
  - apply linear_permute; [cbn; lia|]. repeat (apply Forall_cons; split; [lia|]); apply Forall_nil; done.
  - on_bits.
Qed.

Lemma final_initial x : is_u64 x -> permute_final_block (permute_initial_block x) = x.
Proof.
  apply (linear_ext (fun x => permute_final_block (permute_initial_block x)) (fun x => x) 64).
  - apply linear_comp; [exact linear_final|exact linear_initial].
  - exact linear_id.
  - on_bits.
Qed.

Lemma initial_final_block x : is_u64 x -> permute_initial_block (permute_final_block x) = x.
Proof.
  apply (linear_ext (fun x => permute_initial_block (permute_final_block x)) (fun x => x) 64).
  - apply linear_comp; [exact linear_initial|exact linear_final].
  - exact linear_id.
  - on_bits.
Qed.

(** ** The halves of a block *)

Lemma permute_loop_nonneg src len ps : Forall (fun p => 0 <= p) ps -> 0 <= src ->
  forall position block, 0 <= block -> 0 <= permute_loop src len ps position block.
Proof.
  intros Hps Hs. induction ps as [|p ps IH]; intros position block Hb; cbn [permute_loop]; [done|].
  apply Forall_cons in Hps as [Hp Hps]. apply IH; [done|]. unfold permute_step, shl64, u64. apply Z.lor_nonneg. split; [done|].
  apply Z.mod_pos_bound. lia.
Qed.

Lemma permute_block_range x ps : (length ps <= 64)%nat -> Forall (fun p => 0 <= p) ps -> 0 <= x ->
  is_u64 (permute_block x ps).
Proof.
  intros Hl Hps Hx. assert (H0 : 0 <= permute_block x ps) by (by apply permute_loop_nonneg).
  apply u64_pow. split; [done|]. apply range_of_bits; [lia|done|]. intros i Hi. unfold permute_block.
  rewrite permute_loop_bit by (done || lia). rewrite Z.bits_0, bool_decide_eq_false_2 by lia. done.
Qed.

Lemma permute_final_range x : is_u64 x -> is_u64 (permute_final_block x).
Proof.
  intros Hx. rewrite permute_final_table by done. apply permute_block_range; [cbn; lia| |unfold is_u64 in Hx; lia].
  repeat (apply Forall_cons; split; [lia|]); by apply Forall_nil.
Qed.
Lemma permute_initial_range x : is_u64 x -> is_u64 (permute_initial_block x).
Proof.
  intros Hx. rewrite permute_initial_table by done. apply permute_block_range; [cbn; lia| |unfold is_u64 in Hx; lia].
  repeat (apply Forall_cons; split; [lia|]); by apply Forall_nil.
Qed.

Definition join_halves (h l : Z) : Z := Z.lor (shl64 h 32) l.

Lemma join_eq h l : is_u32 h -> is_u32 l -> join_halves h l = l + 4294967296 * h.
Proof.
  intros Hh Hl. assert (E : u64 (Z.shiftl h 32) = Z.shiftl h 32).
  { unfold u64. apply Z.mod_small. rewrite Z.shiftl_mul_pow2 by lia. unfold is_u32 in *. lia. }
  unfold join_halves, shl64. rewrite E, (add_shift 32) by (done || lia). apply Z.bits_inj'. intros i Hi.
  rewrite Z.lor_spec, Z.lxor_spec. destruct (decide (i < 32)).
  - rewrite Z.shiftl_spec, Z.testbit_neg_r by lia. by rewrite xorb_false_r.
  - rewrite (high_bit l 32) by (done || lia). by rewrite orb_false_r, xorb_false_l.
Qed.

Lemma join_split x : is_u64 x -> join_halves (u32 (Z.shiftr x 32)) (u32 x) = x.
Proof.
  intros Hx. rewrite join_eq by apply u32_range. rewrite Z.shiftr_div_pow2 by lia. unfold is_u64, u32 in *.
  change (2 ^ 32) with 4294967296. rewrite (Z.mod_small (x / _)) by zlia. zlia.
Qed.

Lemma split_join h l : is_u32 h -> is_u32 l ->
  u32 (Z.shiftr (join_halves h l) 32) = h /\ u32 (join_halves h l) = l /\ is_u64 (join_halves h l).
Proof.
  intros Hh Hl. rewrite join_eq by done. rewrite Z.shiftr_div_pow2 by lia. unfold is_u64, is_u32, u32 in *.
  change (2 ^ 32) with 4294967296. split_and!; zlia.
Qed.

Definition halves_ok (lr : Z * Z) : Prop := is_u32 (fst lr) /\ is_u32 (snd lr).

Lemma des_store_join l r : des_store (l, r) = be_bytes 8 (permute_final_block (join_halves (rotr32 r 1) (rotr32 l 1))).
Proof. done. Qed.

Lemma des_load_ok b : halves_ok (des_load b).
Proof. split; apply rotl32_range; [apply u32_range|lia|apply u32_range|lia]. Qed.

Lemma load_store_halves lr : halves_ok lr -> des_load (des_store lr) = swap_halves lr.
Proof.
  destruct lr as [l r]. intros [Hl Hr]. cbn [fst snd] in Hl, Hr. rewrite des_store_join.
  assert (Rl : is_u32 (rotr32 l 1)) by (apply rotr32_range; [done|lia]).
  assert (Rr : is_u32 (rotr32 r 1)) by (apply rotr32_range; [done|lia]).
  destruct (split_join _ _ Rr Rl) as (Eh & El & Hj). unfold des_load.
  rewrite be_val_be_bytes. change (256 ^ Z.of_nat 8) with (2 ^ 64).
  rewrite Z.mod_small by (by apply u64_pow, permute_final_range).
  rewrite initial_final_block by done. rewrite Eh, El, !rotl_rotr by (done || lia). done.
Qed.

Lemma store_load_halves b : bytes b -> length b = 8%nat -> des_store (swap_halves (des_load b)) = b.
Proof.
  intros Hb Hl. assert (H64 : is_u64 (be_val b)).
  { apply u64_pow. pose proof (be_val_range b Hb) as H. by rewrite Hl in H. }
  unfold des_load. cbn [swap_halves]. rewrite des_store_join, !rotr_rotl by (apply u32_range || lia).
  rewrite join_split by by apply permute_initial_range. rewrite final_initial by done. by apply be_bytes_be_val.
Qed.

(** ** The rounds *)

Lemma box_u32 s : Forall is_u32 (FEISTEL_BOX !!! s).
Proof. apply table_u32. vm_compute. reflexivity. Qed.

Lemma feistel_half_ok l r k : is_u32 l -> is_u32 (feistel_half l r k).
Proof. intros Hl. unfold feistel_half, sb. cbv zeta. repeat apply lxor_u32; try done; apply at_u32, box_u32. Qed.

Lemma feistel_half_undo l r k : feistel_half (feistel_half l r k) r k = l.
Proof. apply lxor_cancel2. Qed.

Lemma feistel_undo l r k0 k1 :
  feistel (snd (feistel l r k0 k1)) (fst (feistel l r k0 k1)) k1 k0 = (r, l).
Proof. unfold feistel. cbn [fst snd]. by rewrite !feistel_half_undo. Qed.

Lemma feistel_ok l r k0 k1 : is_u32 l -> is_u32 r -> halves_ok (feistel l r k0 k1).
Proof. intros. split; by apply feistel_half_ok. Qed.

(** One step of the loops. *)
Definition forward_step (subkeys : list Z) (lr : Z * Z) (i : nat) : Z * Z :=
  feistel (fst lr) (snd lr) (subkeys !!! (2 * i)%nat) (subkeys !!! (2 * i + 1)%nat).
Definition backward_step (subkeys : list Z) (lr : Z * Z) (i : nat) : Z * Z :=
  feistel (fst lr) (snd lr) (subkeys !!! (15 - 2 * i)%nat) (subkeys !!! (15 - (2 * i + 1))%nat).

Lemma foldl_pair_ext {A B C} (f g : A * B -> C -> A * B) l x :
  (forall a b c, f (a, b) c = g (a, b) c) -> foldl f x l = foldl g x l.
Proof. intros H. revert x. induction l as [|c l IH]; intros [a b]; cbn [foldl]; [done|]. by rewrite H, IH. Qed.

Lemma forward_steps subkeys lr : des_forward subkeys lr = foldl (forward_step subkeys) lr (seq 0 8).
Proof. by apply foldl_pair_ext. Qed.
Lemma backward_steps subkeys lr : des_backward subkeys lr = foldl (backward_step subkeys) lr (seq 0 8).
Proof. by apply foldl_pair_ext. Qed.

Lemma backward_forward_step subkeys lr i j : (i + j = 7)%nat ->
  backward_step subkeys (swap_halves (forward_step subkeys lr j)) i = swap_halves lr.
Proof.
  intros Hij. destruct lr as [l r]. unfold backward_step, forward_step. cbn [fst snd].
  replace (15 - 2 * i)%nat with (2 * j + 1)%nat by lia. replace (15 - (2 * i + 1))%nat with (2 * j)%nat by lia.
  pose proof (feistel_undo l r (subkeys !!! (2 * j)%nat) (subkeys !!! (2 * j + 1)%nat)) as H.
  destruct (feistel l r _ _) as [l' r']. exact H.
Qed.

Lemma forward_backward_step subkeys lr i j : (i + j = 7)%nat ->
  forward_step subkeys (swap_halves (backward_step subkeys lr j)) i = swap_halves lr.
Proof.
  intros Hij. destruct lr as [l r]. unfold backward_step, forward_step. cbn [fst snd].
  replace (15 - 2 * j)%nat with (2 * i + 1)%nat by lia. replace (15 - (2 * j + 1))%nat with (2 * i)%nat by lia.
  pose proof (feistel_undo l r (subkeys !!! (2 * i + 1)%nat) (subkeys !!! (2 * i)%nat)) as H.
  destruct (feistel l r _ _) as [l' r']. exact H.
Qed.

Lemma backward_forward subkeys lr : des_backward subkeys (swap_halves (des_forward subkeys lr)) = swap_halves lr.
Proof. rewrite forward_steps, backward_steps. cbn [seq foldl]. by rewrite !backward_forward_step by done. Qed.

Lemma forward_backward subkeys lr : des_forward subkeys (swap_halves (des_backward subkeys lr)) = swap_halves lr.
Proof. rewrite forward_steps, backward_steps. cbn [seq foldl]. by rewrite !forward_backward_step by done. Qed.

Lemma steps_ok (f : Z * Z -> nat -> Z * Z) l : (forall lr i, halves_ok lr -> halves_ok (f lr i)) ->
  forall lr, halves_ok lr -> halves_ok (foldl f lr l).
Proof. intros Hf. induction l as [|i l IH]; intros lr Hlr; cbn [foldl]; auto. Qed.

Lemma forward_ok subkeys lr : halves_ok lr -> halves_ok (des_forward subkeys lr).
Proof. rewrite forward_steps. apply steps_ok. intros [l r] i [Hl Hr]. by apply feistel_ok. Qed.
Lemma backward_ok subkeys lr : halves_ok lr -> halves_ok (des_backward subkeys lr).
Proof. rewrite backward_steps. apply steps_ok. intros [l r] i [Hl Hr]. by apply feistel_ok. Qed.
Lemma des_swap_ok lr : halves_ok lr -> halves_ok (swap_halves lr).
Proof. destruct lr. intros []. by split. Qed.
Lemma swap_twice lr : swap_halves (swap_halves lr) = lr.
Proof. by destruct lr. Qed.
#[export] Hint Resolve forward_ok backward_ok des_swap_ok des_load_ok : word.

(** ** Decryption undoes encryption *)

Lemma des_inverse c b : bytes b -> length b = 8%nat -> des_decrypt c (des_encrypt c b) = b.
Proof.
  intros Hb Hl. unfold des_decrypt, des_encrypt, des_crypt_block. rewrite load_store_halves by auto with word.
  by rewrite backward_forward, store_load_halves.
Qed.

Lemma triple_des_inverse c b : bytes b -> length b = 8%nat -> triple_des_decrypt c (triple_des_encrypt c b) = b.
Proof.
  intros Hb Hl. unfold triple_des_decrypt, triple_des_encrypt. cbv zeta.
  rewrite load_store_halves by auto 10 with word. rewrite backward_forward, swap_twice.
  set (lr := des_forward (des_subkeys (cipher1 c)) _).
  pose proof (forward_backward (des_subkeys (cipher2 c)) (swap_halves lr)) as H. rewrite swap_twice in H.
  rewrite H. unfold lr. by rewrite backward_forward, store_load_halves.
Qed.

Lemma triple_des_output c b : bytes (triple_des_encrypt c b) /\ length (triple_des_encrypt c b) = 8%nat.
Proof.
  unfold triple_des_encrypt, des_store. cbv zeta. destruct (des_forward _ _) as [l r].
  split; [apply be_bytes_bytes|apply length_be_bytes].
Qed.
