(* ===== verification/Crypt.v ===== *)
(** * Packet encryption: [crypt/mod.rs], [crypt/aead.rs] and the dispatch of [crypt/cfb.rs]

    The ciphers of external crates (AES, Blowfish, CAST5, Salsa20, AES-GCM) and PBKDF2 are
    the fields of [Crates]; [CratesLaw] states what their documentation promises. *)
From stdpp Require Import base list.
From Stdlib Require Import ZArith Lia String.
From S2P Require Import Prelude Word Env CipherWord Cfb Tea Sm4 Twofish Des DesSpec.
Local Open Scope Z_scope.

Definition SALTXOR : string := "sH3CIVoF#rWLtJo6".
Definition NONCE_SIZE : nat := 16.
Definition CRC_SIZE : nat := 4.
Definition CRYPT_HEADER_SIZE : nat := NONCE_SIZE + CRC_SIZE.

(** The external ciphers: [new_from_slice] gives [None] on a key it refuses. *)
Class Crates := {
  Aes128 : Type;
  Aes192 : Type;
  Aes256 : Type;
  Blowfish : Type;
  Cast5 : Type;
  aes128_new : list Z -> option Aes128;
  aes192_new : list Z -> option Aes192;
  aes256_new : list Z -> option Aes256;
  blowfish_new : list Z -> option Blowfish;
  cast5_new : list Z -> option Cast5;
  aes128_block :: CfbBlock 16 Aes128;
  aes192_block :: CfbBlock 16 Aes192;
  aes256_block :: CfbBlock 16 Aes256;
  blowfish_block :: CfbBlock 8 Blowfish;
  cast5_block :: CfbBlock 8 Cast5;
  (** [apply_keystream] of the cipher of a key and a nonce, on the data. *)
  salsa20_apply : list Z -> list Z -> list Z -> list Z;
  (** [pbkdf2_hmac::<Sha1>] of a key, a salt and a number of rounds, filling so many bytes. *)
  pbkdf2_hmac_sha1 : list Z -> string -> Z -> nat -> list Z;
  Gcm128 : Type;
  Gcm192 : Type;
  Gcm256 : Type;
  gcm128_new : list Z -> option Gcm128;
  gcm192_new : list Z -> option Gcm192;
  gcm256_new : list Z -> option Gcm256;
  (** [encrypt_inout_detached]: the ciphertext and the tag. *)
  gcm128_seal : Gcm128 -> list Z -> list Z -> option (list Z * list Z);
  gcm192_seal : Gcm192 -> list Z -> list Z -> option (list Z * list Z);
  gcm256_seal : Gcm256 -> list Z -> list Z -> option (list Z * list Z);
  (** [decrypt_inout_detached] of a nonce, a ciphertext and a tag. *)
  gcm128_open : Gcm128 -> list Z -> list Z -> list Z -> option (list Z);
  gcm192_open : Gcm192 -> list Z -> list Z -> list Z -> option (list Z);
  gcm256_open : Gcm256 -> list Z -> list Z -> list Z -> option (list Z);
}.

(** An authenticated cipher: the ciphertext has the plaintext's length, the tag 16 bytes, and
    what was sealed opens. *)
Definition gcm_law {G} (seal : G -> list Z -> list Z -> option (list Z * list Z))
  (open : G -> list Z -> list Z -> list Z -> option (list Z)) : Prop :=
  forall g nonce p c t, seal g nonce p = Some (c, t) ->
    length c = length p /\ length t = 16%nat /\ open g nonce c t = Some p.

(** Sealing only fails on a plaintext longer than GCM's limit. *)
Definition gcm_total {G} (seal : G -> list Z -> list Z -> option (list Z * list Z)) : Prop :=
  forall g nonce p, length nonce = 12%nat -> Z.of_nat (length p) <= 68719476704 -> is_Some (seal g nonce p).

Class CratesLaw `{Crates} := {
  aes128_law :: CfbLaw 16 Aes128;
  aes192_law :: CfbLaw 16 Aes192;
  aes256_law :: CfbLaw 16 Aes256;
  blowfish_law :: CfbLaw 8 Blowfish;
  cast5_law :: CfbLaw 8 Cast5;
  (** A stream cipher exclusive-ors a key stream that does not depend on the data. *)
  salsa20_stream : list Z -> list Z -> nat -> list Z;
  salsa20_law key nonce data : salsa20_apply key nonce data = xor_in_place data (salsa20_stream key nonce (length data));
  aes128_key key : is_Some (aes128_new key) <-> length key = 16%nat;
  aes192_key key : is_Some (aes192_new key) <-> length key = 24%nat;
  aes256_key key : is_Some (aes256_new key) <-> length key = 32%nat;
  blowfish_key key : is_Some (blowfish_new key) <-> (4 <= length key <= 56)%nat;
  cast5_key key : is_Some (cast5_new key) <-> (5 <= length key <= 16)%nat;
  gcm128_total : gcm_total gcm128_seal;
  gcm192_total : gcm_total gcm192_seal;
  gcm256_total : gcm_total gcm256_seal;
  gcm128_law : gcm_law gcm128_seal gcm128_open;
  gcm192_law : gcm_law gcm192_seal gcm192_open;
  gcm256_law : gcm_law gcm256_seal gcm256_open;
  gcm128_key key : is_Some (gcm128_new key) <-> length key = 16%nat;
  gcm192_key key : is_Some (gcm192_new key) <-> length key = 24%nat;
  gcm256_key key : is_Some (gcm256_new key) <-> length key = 32%nat;
}.

Section Crypt.
Context `{Crates}.
Implicit Types (key buf : list Z).

Inductive CfbCipher :=
| CfbAes128 (c : Aes128)
| CfbAes192 (c : Aes192)
| CfbAes256 (c : Aes256)
| CfbBlowfish (c : Blowfish)
| CfbTwofish (c : TwofishCipher)
| CfbCast5 (c : Cast5)
| CfbTripleDes (c : TripleDesCipher)
| CfbSm4 (c : Sm4Cipher)
| CfbTea (c : Tea)
| CfbXtea (c : Xtea).

(** The [dispatch!] macro: the cipher with its block size. *)
Definition dispatch {R : Type} (c : CfbCipher) (body : forall (BS : nat) (C : Type) (HC : CfbBlock BS C), C -> R) : R :=
  match c with
  | CfbAes128 c => body 16%nat _ _ c
  | CfbAes192 c => body 16%nat _ _ c
  | CfbAes256 c => body 16%nat _ _ c
  | CfbBlowfish c => body 8%nat _ _ c
  | CfbTwofish c => body 16%nat _ _ c
  | CfbCast5 c => body 8%nat _ _ c
  | CfbTripleDes c => body 8%nat _ _ c
  | CfbSm4 c => body 16%nat _ _ c
  | CfbTea c => body 8%nat _ _ c
  | CfbXtea c => body 8%nat _ _ c
  end.

Definition block_size (c : CfbCipher) : nat := dispatch c (fun BS _ _ _ => BS).
Definition cfbcipher_encrypt (c : CfbCipher) buf : list Z := dispatch c (fun BS _ _ c => cfb_encrypt BS c buf).
Definition cfbcipher_decrypt (c : CfbCipher) buf : list Z := dispatch c (fun BS _ _ c => cfb_decrypt BS c buf).

Record Salsa20Crypt := mkSalsa20Crypt {
  salsa20_key : list Z;
}.
Record XorCrypt := mkXorCrypt {
  xortbl : list Z;
}.

(** The first 8 bytes are the nonce and stay in clear. *)
Definition xor_key_stream (c : Salsa20Crypt) buf : list Z :=
  if (length buf <? 8)%nat then buf
  else take 8 buf ++ salsa20_apply (salsa20_key c) (take 8 buf) (drop 8 buf).

Definition xor_crypt (c : XorCrypt) buf : list Z :=
  match buf with [] => buf | _ => xor_in_place buf (xortbl c) end.

Inductive BlockCrypt :=
| BlockCfb (c : CfbCipher)
| BlockSalsa20 (c : Salsa20Crypt)
| BlockXor (c : XorCrypt)
| BlockNone.

Definition block_encrypt (b : BlockCrypt) buf : list Z :=
  match b with
  | BlockCfb c => cfbcipher_encrypt c buf
  | BlockSalsa20 c => xor_key_stream c buf
  | BlockXor c => xor_crypt c buf
  | BlockNone => buf
  end.
Definition block_decrypt (b : BlockCrypt) buf : list Z :=
  match b with
  | BlockCfb c => cfbcipher_decrypt c buf
  | BlockSalsa20 c => xor_key_stream c buf
  | BlockXor c => xor_crypt c buf
  | BlockNone => buf
  end.

(** [new_from_slice(key).map_err(|_| err())?]. *)
Definition or_err {A} (o : option A) (e : CryptError) : result CryptError A :=
  match o with Some a => Ok a | None => Err e end.

Definition new_aes_block_crypt key : result CryptError BlockCrypt :=
  let err := KeySize "aes" (length key) in
  c ← (if (length key =? 16)%nat then c ← or_err (aes128_new key) err; Ok (CfbAes128 c)
       else if (length key =? 24)%nat then c ← or_err (aes192_new key) err; Ok (CfbAes192 c)
       else if (length key =? 32)%nat then c ← or_err (aes256_new key) err; Ok (CfbAes256 c)
       else Err err);
  Ok (BlockCfb c).

Definition new_sm4_block_crypt key : result CryptError BlockCrypt :=
  block ← sm4_new_cipher key; Ok (BlockCfb (CfbSm4 block)).
Definition new_twofish_block_crypt key : result CryptError BlockCrypt :=
  block ← twofish_new_cipher key; Ok (BlockCfb (CfbTwofish block)).
Definition new_triple_des_block_crypt key : result CryptError BlockCrypt :=
  block ← new_triple_des_cipher key; Ok (BlockCfb (CfbTripleDes block)).

Definition new_cast5_block_crypt key : result CryptError BlockCrypt :=
  if negb (length key =? 16)%nat then Err Cast5KeySize
  else block ← or_err (cast5_new key) Cast5KeySize; Ok (BlockCfb (CfbCast5 block)).

(** A key shorter than 4 bytes is repeated. *)
Definition blowfish_expand key : list Z :=
  let k := length key in
  let n := (k * ((4 + k - 1) / k))%nat in
  (fun i => key !!! (i mod k)%nat) <$> seq 0 n.
Definition new_blowfish_block_crypt key : result CryptError BlockCrypt :=
  let err := KeySize "blowfish" (length key) in
  let k := length key in
  if negb ((1 <=? k)%nat && (k <=? 56)%nat) then Err err
  else block ← or_err (blowfish_new (blowfish_expand key)) err; Ok (BlockCfb (CfbBlowfish block)).

Definition new_tea_block_crypt key : result CryptError BlockCrypt :=
  block ← tea_new_cipher_with_rounds key 16; Ok (BlockCfb (CfbTea block)).
Definition new_xtea_block_crypt key : result CryptError BlockCrypt :=
  block ← xtea_new_cipher key; Ok (BlockCfb (CfbXtea block)).

Definition new_salsa20_block_crypt key : result CryptError BlockCrypt :=
  let n := Nat.min (length key) 32 in
  Ok (BlockSalsa20 (mkSalsa20Crypt (take n key ++ replicate (32 - n) 0))).
Definition new_simple_xor_block_crypt key : result CryptError BlockCrypt :=
  Ok (BlockXor (mkXorCrypt (pbkdf2_hmac_sha1 key SALTXOR 32 MTU_LIMIT))).
Definition new_none_block_crypt key : result CryptError BlockCrypt := Ok BlockNone.

(** ** The AEAD *)

Inductive AeadError :=
| SealBufferTooSmall
| AeadOpen.

Inductive Gcm :=
| GcmAes128 (g : Gcm128)
| GcmAes192 (g : Gcm192)
| GcmAes256 (g : Gcm256).
Record AeadCrypt := mkAeadCrypt {
  gcm : Gcm;
}.

Definition AEAD_NONCE : nat := 12.
Definition AEAD_OVERHEAD : nat := 16.

Definition aead_new key : result CryptError AeadCrypt :=
  let err := KeySize "aes" (length key) in
  gcm ← (if (length key =? 16)%nat then g ← or_err (gcm128_new key) err; Ok (GcmAes128 g)
         else if (length key =? 24)%nat then g ← or_err (gcm192_new key) err; Ok (GcmAes192 g)
         else if (length key =? 32)%nat then g ← or_err (gcm256_new key) err; Ok (GcmAes256 g)
         else Err err);
  Ok (mkAeadCrypt gcm).
Definition nonce_size (a : AeadCrypt) : nat := AEAD_NONCE.
Definition overhead (a : AeadCrypt) : nat := AEAD_OVERHEAD.

Definition gcm_seal (a : AeadCrypt) (nonce p : list Z) : option (list Z * list Z) :=
  match gcm a with
  | GcmAes128 g => gcm128_seal g nonce p
  | GcmAes192 g => gcm192_seal g nonce p
  | GcmAes256 g => gcm256_seal g nonce p
  end.
Definition gcm_open (a : AeadCrypt) (nonce c t : list Z) : option (list Z) :=
  match gcm a with
  | GcmAes128 g => gcm128_open g nonce c t
  | GcmAes192 g => gcm192_open g nonce c t
  | GcmAes256 g => gcm256_open g nonce c t
  end.

(** The buffer afterwards and the sealed length. *)
Definition seal_in_place (a : AeadCrypt) buf (len : nat) : result AeadError (list Z * nat) :=
  if (18446744073709551615 <? Z.of_nat len + Z.of_nat AEAD_OVERHEAD) then Err SealBufferTooSmall else
  let sealed_len := (len + AEAD_OVERHEAD)%nat in
  if (len <? AEAD_NONCE)%nat || (length buf <? sealed_len)%nat then Err SealBufferTooSmall else
  let nonce := take AEAD_NONCE buf in
  let plaintext := take (len - AEAD_NONCE) (drop AEAD_NONCE buf) in
  match gcm_seal a nonce plaintext with
  | None => Err SealBufferTooSmall
  | Some (ciphertext, tag) => Ok (nonce ++ ciphertext ++ tag ++ drop sealed_len buf, sealed_len)
  end.

Definition open_in_place (a : AeadCrypt) (pkt : list Z) : result AeadError (list Z) :=
  if (length pkt <? AEAD_NONCE)%nat then Err AeadOpen else
  let nonce := take AEAD_NONCE pkt in
  let rest := drop AEAD_NONCE pkt in
  if (length rest <? AEAD_OVERHEAD)%nat then Err AeadOpen else
  let ciphertext := take (length rest - AEAD_OVERHEAD) rest in
  let tag := drop (length rest - AEAD_OVERHEAD) rest in
  match gcm_open a nonce ciphertext tag with
  | None => Err AeadOpen
  | Some plaintext => Ok plaintext
  end.

Inductive PacketCrypt :=
| PacketBlock (b : BlockCrypt)
| PacketAead (a : AeadCrypt).
Definition as_block (p : PacketCrypt) : option BlockCrypt :=
  match p with PacketBlock b => Some b | PacketAead _ => None end.
Definition as_aead (p : PacketCrypt) : option AeadCrypt :=
  match p with PacketAead a => Some a | PacketBlock _ => None end.
Definition new_aes_gcm_crypt key : result CryptError PacketCrypt :=
  a ← aead_new key; Ok (PacketAead a).

(** ** Round trips *)

Context `{!CratesLaw}.

Lemma cfbcipher_encrypt_decrypt (c : CfbCipher) buf :
  cfbcipher_decrypt c (cfbcipher_encrypt c buf) = buf /\ length (cfbcipher_encrypt c buf) = length buf.
Proof.
  destruct c; unfold cfbcipher_encrypt, cfbcipher_decrypt, dispatch; apply cfb_encrypt_decrypt; first [exact _ | lia].
Qed.

Lemma cfbcipher_decrypt_encrypt (c : CfbCipher) buf :
  cfbcipher_encrypt c (cfbcipher_decrypt c buf) = buf /\ length (cfbcipher_decrypt c buf) = length buf.
Proof.
  destruct c; unfold cfbcipher_encrypt, cfbcipher_decrypt, dispatch; apply cfb_decrypt_encrypt; first [exact _ | lia].
Qed.

Lemma xor_key_stream_spec (c : Salsa20Crypt) buf :
  xor_key_stream c (xor_key_stream c buf) = buf /\ length (xor_key_stream c buf) = length buf.
Proof.
  unfold xor_key_stream. destruct (Nat.ltb_spec (length buf) 8) as [Hs|Hs].
  - split; [|done]. by destruct (Nat.ltb_spec (length buf) 8); [|lia].
  - set (out := salsa20_apply _ _ _).
    assert (El : length out = length (drop 8 buf)) by (unfold out; by rewrite salsa20_law, length_xor).
    assert (Ht : length (take 8 buf) = 8%nat) by (rewrite length_take; lia).
    rewrite length_app, Ht, El, length_drop. destruct (Nat.ltb_spec (8 + (length buf - 8)) 8); [lia|]. split; [|lia].
    rewrite take_app_length', drop_app_length' by done. rewrite salsa20_law, El. unfold out. rewrite salsa20_law, xor_twice.
    apply take_drop.
Qed.

Lemma xor_crypt_spec (c : XorCrypt) buf : xor_crypt c (xor_crypt c buf) = buf /\ length (xor_crypt c buf) = length buf.
Proof.
  unfold xor_crypt. destruct buf as [|x buf]; [done|]. set (b := x :: buf). rewrite length_xor. split; [|done].
  destruct (xor_in_place b (xortbl c)) eqn:E; [|by rewrite <- E, xor_twice].
  pose proof (length_xor b (xortbl c)) as Hl. by rewrite E in Hl.
Qed.

Lemma block_encrypt_decrypt (b : BlockCrypt) buf :
  block_decrypt b (block_encrypt b buf) = buf /\ length (block_encrypt b buf) = length buf.
Proof.
  destruct b; [apply cfbcipher_encrypt_decrypt|apply xor_key_stream_spec|apply xor_crypt_spec|done].
Qed.

Lemma block_decrypt_encrypt (b : BlockCrypt) buf :
  block_encrypt b (block_decrypt b buf) = buf /\ length (block_decrypt b buf) = length buf.
Proof.
  destruct b; [apply cfbcipher_decrypt_encrypt|apply xor_key_stream_spec|apply xor_crypt_spec|done].
Qed.

Lemma gcm_seal_open (a : AeadCrypt) nonce p c t : gcm_seal a nonce p = Some (c, t) ->
  length c = length p /\ length t = AEAD_OVERHEAD /\ gcm_open a nonce c t = Some p.
Proof.
  unfold gcm_seal, gcm_open. destruct (gcm a); [apply gcm128_law|apply gcm192_law|apply gcm256_law].
Qed.

Lemma gcm_seal_total (a : AeadCrypt) nonce p : length nonce = AEAD_NONCE -> Z.of_nat (length p) <= 68719476704 ->
  is_Some (gcm_seal a nonce p).
Proof. unfold gcm_seal. destruct (gcm a); [apply gcm128_total|apply gcm192_total|apply gcm256_total]. Qed.

(** What was sealed opens; the bytes after the tag are untouched. *)
Lemma seal_open_in_place (a : AeadCrypt) buf len buf' n : seal_in_place a buf len = Ok (buf', n) ->
  n = (len + AEAD_OVERHEAD)%nat /\ length buf' = length buf /\ take AEAD_NONCE buf' = take AEAD_NONCE buf /\
  drop n buf' = drop n buf /\ (AEAD_NONCE <= len)%nat /\ (n <= length buf)%nat /\
  open_in_place a (take n buf') = Ok (take (len - AEAD_NONCE) (drop AEAD_NONCE buf)).
Proof.
  unfold seal_in_place. destruct (_ <? _); [done|]. cbv zeta.
  destruct (Nat.ltb_spec len AEAD_NONCE) as [|Hn]; [done|]. cbn [orb].
  destruct (Nat.ltb_spec (length buf) (len + AEAD_OVERHEAD)) as [|Hb]; [done|].
  set (nonce := take AEAD_NONCE buf). set (p := take (len - AEAD_NONCE) _).
  destruct (gcm_seal a nonce p) as [[c t]|] eqn:Es; [|done]. intros [= <- <-].
  apply gcm_seal_open in Es as (Hc & Ht & Ho). unfold AEAD_NONCE, AEAD_OVERHEAD in *.
  assert (Hnl : length nonce = 12%nat) by (unfold nonce; rewrite length_take; lia).
  assert (Hp : length p = (len - 12)%nat) by (unfold p; rewrite length_take, length_drop; lia).
  assert (Hall : length (nonce ++ c ++ t) = (len + 16)%nat) by (rewrite !length_app; lia).
  rewrite !app_assoc, <- (app_assoc nonce c t). split_and!; [done| | | |lia|lia|].
  - rewrite length_app, Hall, length_drop. lia.
  - rewrite <- !app_assoc. by rewrite take_app_length' by done.
  - by rewrite drop_app_length' by done.
  - rewrite take_app_length' by done. unfold open_in_place, AEAD_NONCE, AEAD_OVERHEAD. cbv zeta.
    rewrite Hall. destruct (Nat.ltb_spec (len + 16) 12); [lia|].
    rewrite take_app_length', drop_app_length' by done. rewrite length_app. replace (length c + length t - 16)%nat with (length c) by lia.
    destruct (Nat.ltb_spec (length c + length t) 16); [lia|]. rewrite take_app_length, drop_app_length, Ho. done.
Qed.
End Crypt.
