(* ===== verification/BufPool.v ===== *)
(** * Pooled packet buffers: [bufpool.rs]

    A pool parks at most a fixed number of buffers of [MTU_LIMIT] bytes.  The bounded queue
    they are parked in belongs to an external crate: [ArrayQueue] is what the pool uses of
    it, with the laws its documentation gives. *)
From stdpp Require Import base list.
From Stdlib Require Import ZArith Lia.
From S2P Require Import Prelude Word Env.

Definition DEFAULT_CAPACITY : nat := 2048.

(** A bounded queue: [push] gives [None] when it is full. *)
Class ArrayQueue (A Q : Type) := {
  q_new : nat -> Q;
  q_push : A -> Q -> option Q;
  q_pop : Q -> option (A * Q);
  q_len : Q -> nat;
  q_capacity : Q -> nat;
  (** the elements, the oldest first *)
  q_elements : Q -> list A;
  q_new_spec n : q_elements (q_new n) = [] /\ q_capacity (q_new n) = n;
  q_len_spec q : q_len q = length (q_elements q);
  q_push_spec a q : match q_push a q with
                    | Some q' => q_elements q' = q_elements q ++ [a] /\ q_capacity q' = q_capacity q /\
                                 length (q_elements q) < q_capacity q
                    | None => q_capacity q <= length (q_elements q)
                    end;
  q_pop_spec q : match q_pop q with
                 | Some (a, q') => q_elements q = a :: q_elements q' /\ q_capacity q' = q_capacity q
                 | None => q_elements q = []
                 end;
}.

(** The queue of lists, for the concrete runs. *)
#[export] Program Instance list_queue {A} : ArrayQueue A (nat * list A) := {
  q_new n := (n, []);
  q_push a q := if (length (snd q) <? fst q)%nat then Some (fst q, snd q ++ [a]) else None;
  q_pop q := match snd q with [] => None | a :: l => Some (a, (fst q, l)) end;
  q_len q := length (snd q);
  q_capacity q := fst q;
  q_elements q := snd q;
}.
Next Obligation. done. Qed.
Next Obligation. done. Qed.
Next Obligation.
  intros A a [n l]. cbn [fst snd]. destruct (Nat.ltb_spec (length l) n); cbn [fst snd]; [split_and!; done|done].
Qed.
Next Obligation. intros A [n [|a l]]; done. Qed.

(** A buffer is its [MTU_LIMIT] bytes. *)
Abbreviation Buffer := (list Z).

Record BufferPool (Q : Type) := mkBufferPool {
  bp_free : Q;
  bp_gets : Z;
  bp_allocated : Z;
  bp_recycled : Z;
  bp_discarded : Z;
}.
Arguments mkBufferPool {Q}.
Arguments bp_free {Q}.
Arguments bp_gets {Q}.
Arguments bp_allocated {Q}.
Arguments bp_recycled {Q}.
Arguments bp_discarded {Q}.

#[export] Instance eta_buffer_pool {Q} : EtaRecord (BufferPool Q) := fun p =>
  mkBufferPool (bp_free p) (bp_gets p) (bp_allocated p) (bp_recycled p) (bp_discarded p).

(** A borrowed buffer, of which the first [pb_len] bytes are the packet. *)
Record PacketBuf := mkPacketBuf {
  pb_buf : Buffer;
  pb_len : nat;
}.
Definition pb_capacity (b : PacketBuf) : nat := MTU_LIMIT.
Definition pb_is_empty (b : PacketBuf) : bool := (pb_len b =? 0)%nat.
Definition set_len (len : nat) (b : PacketBuf) : PacketBuf := mkPacketBuf (pb_buf b) (Nat.min len MTU_LIMIT).
Definition as_slice (b : PacketBuf) : list Z := take (pb_len b) (pb_buf b).
(** The packet's bytes after [as_mut_slice] was written to; the rest of the buffer stays. *)
Definition write_slice (s : list Z) (b : PacketBuf) : PacketBuf := mkPacketBuf (s ++ drop (pb_len b) (pb_buf b)) (pb_len b).

Section Pool.
Context {Q : Type} `{!ArrayQueue Buffer Q}.
Implicit Types (p : BufferPool Q).

Definition bufpool_new (capacity : nat) : BufferPool Q := mkBufferPool (q_new (Nat.max capacity 1)) 0 0 0 0.
Definition with_default_capacity : BufferPool Q := bufpool_new DEFAULT_CAPACITY.

Definition pool_get (len : nat) p : PacketBuf * BufferPool Q :=
  let p := p <| bp_gets := fetch_add (bp_gets p) 1 |> in
  let '(buf, p) := match q_pop (bp_free p) with
                   | Some (buf, free) => (buf, p <| bp_free := free |>)
                   | None => (replicate MTU_LIMIT 0%Z, p <| bp_allocated := fetch_add (bp_allocated p) 1 |>)
                   end in
  (mkPacketBuf buf (Nat.min len MTU_LIMIT), p).

Definition pool_put (buf : Buffer) p : BufferPool Q :=
  match q_push buf (bp_free p) with
  | None => p <| bp_discarded := fetch_add (bp_discarded p) 1 |>
  | Some free => p <| bp_free := free |> <| bp_recycled := fetch_add (bp_recycled p) 1 |>
  end.

(** [PacketBuf]'s [Drop]. *)
Definition pb_drop (b : PacketBuf) p : BufferPool Q := pool_put (pb_buf b) p.
Definition pb_drops (bs : list PacketBuf) p : BufferPool Q := foldl (fun p b => pb_drop b p) p bs.

Definition parked p : nat := q_len (bp_free p).
Definition pool_capacity p : nat := q_capacity (bp_free p).

(** The loop frees one buffer each time, so the number parked is fuel enough. *)
Fixpoint trim_loop (fuel keep freed : nat) p : nat * BufferPool Q :=
  match fuel with
  | O => (freed, p)
  | S fuel =>
      if (keep <? q_len (bp_free p))%nat then
        match q_pop (bp_free p) with
        | Some (_, free) => trim_loop fuel keep (S freed) (p <| bp_free := free |>)
        | None => (freed, p)
        end
      else (freed, p)
  end.
Definition trim (keep : nat) p : nat * BufferPool Q := trim_loop (parked p) keep 0 p.

(** ** Lemmas *)

(** Every parked buffer is whole and the queue within its bound. *)
Definition pool_ok p : Prop :=
  Forall (fun b => length b = MTU_LIMIT) (q_elements (bp_free p)) /\ parked p <= pool_capacity p.
Definition pb_ok (b : PacketBuf) : Prop := length (pb_buf b) = MTU_LIMIT /\ pb_len b <= MTU_LIMIT.

Lemma pool_get_spec len p b p' : pool_ok p -> pool_get len p = (b, p') ->
  pool_ok p' /\ pb_ok b /\ pb_len b = Nat.min len MTU_LIMIT /\ pool_capacity p' = pool_capacity p /\ parked p' = parked p - 1.
Proof.
  intros [Hall Hb]. unfold pool_get. cbn zeta. unfold pool_ok, parked, pool_capacity in *. rewrite q_len_spec in *.
  change (bp_free (p <| bp_gets := fetch_add (bp_gets p) 1 |>)) with (bp_free p).
  pose proof (q_pop_spec (bp_free p)) as Hp. destruct (q_pop (bp_free p)) as [[buf free]|]; intros [= <- <-].
  - destruct Hp as [Ef Ec]. unfold field_update; cbn [bp_free pb_len]. rewrite !q_len_spec, Ec. rewrite Ef in *. cbn [length] in *.
    apply Forall_cons in Hall as [Hl Hall]. split_and!; try done; try lia. split; cbn [pb_buf pb_len]; [done|lia].
  - rewrite q_len_spec. unfold field_update; cbn [bp_free pb_len]. unfold field_update; cbn [bp_free]. rewrite Hp in *. cbn [length].
    split_and!; try done; try lia. split; [exact (length_replicate MTU_LIMIT 0%Z)|cbn [pb_len]; lia].
Qed.

Lemma pool_put_spec buf p : pool_ok p -> length buf = MTU_LIMIT ->
  pool_ok (pool_put buf p) /\ pool_capacity (pool_put buf p) = pool_capacity p.
Proof.
  intros [Hall Hb] Hl. unfold pool_put, pool_ok, parked, pool_capacity in *. rewrite q_len_spec in *.
  pose proof (q_push_spec buf (bp_free p)) as Hp. destruct (q_push buf (bp_free p)) as [free|].
  - destruct Hp as (Ef & Ec & Hlt). unfold field_update; cbn [bp_free]. rewrite Ef, Ec, Forall_app, length_app.
    cbn [length]. split_and!; try done; try lia. by apply Forall_singleton.
  - unfold field_update; cbn [bp_free]. split_and!; try done; try lia.
Qed.
End Pool.

(** ** Runs of the pool *)

Section Runs.
Context {Q : Type} `{!ArrayQueue Buffer Q}.
Implicit Types (p : BufferPool Q).

(** What the users of a pool do: take a buffer, let go of the [i]-th one they hold, trim. *)
Inductive pool_op :=
| PoolGet (len : nat)
| PoolDrop (i : nat)
| PoolTrim (keep : nat).

(** The pool, the buffers that are out and how many [trim] freed. *)
Record PoolState := mkPoolState {
  ps_pool : BufferPool Q;
  ps_out : list PacketBuf;
  ps_trimmed : nat;
}.

Definition pool_step (op : pool_op) (s : PoolState) : PoolState :=
  match op with
  | PoolGet len => let '(b, p) := pool_get len (ps_pool s) in mkPoolState p (b :: ps_out s) (ps_trimmed s)
  | PoolDrop i =>
      match ps_out s !! i with
      | Some b => mkPoolState (pb_drop b (ps_pool s)) (delete i (ps_out s)) (ps_trimmed s)
      | None => s
      end
  | PoolTrim keep => let '(n, p) := trim keep (ps_pool s) in mkPoolState p (ps_out s) (ps_trimmed s + n)
  end.
Definition pool_run (capacity : nat) (ops : list pool_op) : PoolState :=
  foldl (fun s op => pool_step op s) (mkPoolState (bufpool_new capacity) [] 0) ops.

(** Every buffer taken is out, or went back, and every buffer that exists was allocated. *)
Record pool_inv (n : nat) (s : PoolState) : Prop := {
  pi_pool : pool_ok (ps_pool s);
  pi_out : Forall pb_ok (ps_out s);
  pi_bounds : (0 <= bp_gets (ps_pool s) <= Z.of_nat n)%Z /\ (0 <= bp_allocated (ps_pool s) <= bp_gets (ps_pool s))%Z /\
    (0 <= bp_recycled (ps_pool s))%Z /\ (0 <= bp_discarded (ps_pool s))%Z;
  pi_taken : (bp_gets (ps_pool s) = Z.of_nat (length (ps_out s)) + bp_recycled (ps_pool s) + bp_discarded (ps_pool s))%Z;
  pi_parked : (bp_allocated (ps_pool s) = Z.of_nat (length (ps_out s)) + Z.of_nat (parked (ps_pool s)) +
    bp_discarded (ps_pool s) + Z.of_nat (ps_trimmed s))%Z;
}.

Lemma trim_loop_spec fuel keep p : forall freed, pool_ok p -> parked p <= fuel ->
  let '(n, p') := trim_loop fuel keep freed p in
  pool_ok p' /\ pool_capacity p' = pool_capacity p /\ n = freed + (parked p - keep) /\ parked p' = Nat.min (parked p) keep /\
  bp_gets p' = bp_gets p /\ bp_allocated p' = bp_allocated p /\ bp_recycled p' = bp_recycled p /\
  bp_discarded p' = bp_discarded p.
Proof.
  revert p. induction fuel as [|fuel IH]; intros p freed Hok Hf; cbn [trim_loop]; [split_and!; try done; lia|].
  unfold parked in Hf. destruct (Nat.ltb_spec keep (q_len (bp_free p))) as [Hk|Hk].
  2:{ unfold parked. split_and!; try done; lia. }
  pose proof (q_pop_spec (bp_free p)) as Hp. destruct (q_pop (bp_free p)) as [[buf free]|].
  2:{ rewrite q_len_spec, Hp in Hk. cbn [length] in Hk. lia. }
  destruct Hp as [Ef Ec]. destruct Hok as [Hall Hb]. unfold parked, pool_capacity in *. rewrite q_len_spec, Ef in *.
  cbn [length] in *. apply Forall_cons in Hall as [_ Hall].
  assert (El : q_len free = length (q_elements free)) by apply q_len_spec.
  specialize (IH (p <| bp_free := free |>) (S freed)). unfold field_update in IH; cbn [bp_free bp_gets bp_allocated bp_recycled bp_discarded] in IH.
  rewrite El in IH. specialize (IH ltac:(split; unfold parked, pool_capacity; cbn [bp_free]; [done|rewrite El, Ec; lia]) ltac:(lia)).
  unfold field_update. destruct (trim_loop _ _ _ _) as [n p'].
  destruct IH as (I1 & I2 & I3 & I4 & I5 & I6 & I7 & I8). split_and!; try done; try congruence; lia.
Qed.

Lemma pb_drops_ok bs p : Forall pb_ok bs -> pool_ok p -> pool_ok (pb_drops bs p).
Proof.
  intros Hb. revert p. unfold pb_drops. induction Hb as [|x l [Hx _] _ IH]; intros p Hp; cbn [foldl]; [done|].
  by apply IH, pool_put_spec.
Qed.

Lemma pool_get_counts len p b p' : pool_get len p = (b, p') ->
  bp_gets p' = fetch_add (bp_gets p) 1 /\ bp_recycled p' = bp_recycled p /\ bp_discarded p' = bp_discarded p /\
  ((bp_allocated p' = bp_allocated p /\ parked p = S (parked p')) \/
   (bp_allocated p' = fetch_add (bp_allocated p) 1 /\ parked p = 0 /\ parked p' = 0)).
Proof.
  unfold pool_get. cbn zeta. change (bp_free (p <| bp_gets := fetch_add (bp_gets p) 1 |>)) with (bp_free p).
  pose proof (q_pop_spec (bp_free p)) as Hp. unfold parked. destruct (q_pop (bp_free p)) as [[buf free]|]; intros [= <- <-];
    unfold field_update; cbn [bp_gets bp_recycled bp_discarded bp_allocated bp_free]; rewrite !q_len_spec.
  - destruct Hp as [-> _]. split_and!; try done. by left.
  - rewrite Hp. split_and!; try done. by right.
Qed.

Lemma pool_put_counts buf p :
  bp_gets (pool_put buf p) = bp_gets p /\ bp_allocated (pool_put buf p) = bp_allocated p /\
  ((bp_recycled (pool_put buf p) = fetch_add (bp_recycled p) 1 /\ bp_discarded (pool_put buf p) = bp_discarded p /\
    parked (pool_put buf p) = S (parked p)) \/
   (bp_recycled (pool_put buf p) = bp_recycled p /\ bp_discarded (pool_put buf p) = fetch_add (bp_discarded p) 1 /\
    parked (pool_put buf p) = parked p)).
Proof.
  unfold pool_put, parked. pose proof (q_push_spec buf (bp_free p)) as Hp. destruct (q_push buf (bp_free p)) as [free|];
    unfold field_update; cbn [bp_gets bp_recycled bp_discarded bp_allocated bp_free]; rewrite ?q_len_spec.
  - destruct Hp as (-> & _ & _). rewrite length_app. cbn [length]. split_and!; try done. left. split_and!; try done; lia.
  - split_and!; try done. by right.
Qed.

Lemma fetch_add_small c : (0 <= c < 18446744073709551615)%Z -> fetch_add c 1 = (c + 1)%Z.
Proof. intros. unfold fetch_add, u64. apply Z.mod_small. lia. Qed.

Lemma pool_step_inv n op s : (Z.of_nat n < 18446744073709551615)%Z -> pool_inv n s -> pool_inv (S n) (pool_step op s).
Proof.
  intros Hn [Hok Hout (Bg & Ba & Br & Bd) Ht Hpk].
  pose proof (fetch_add_small (bp_gets (ps_pool s)) ltac:(lia)) as Fg.
  pose proof (fetch_add_small (bp_allocated (ps_pool s)) ltac:(lia)) as Fa.
  pose proof (fetch_add_small (bp_recycled (ps_pool s)) ltac:(lia)) as Fr.
  pose proof (fetch_add_small (bp_discarded (ps_pool s)) ltac:(lia)) as Fd.
  destruct op as [len|i|keep]; cbn [pool_step].
  - destruct (pool_get len (ps_pool s)) as [b p] eqn:E. destruct (pool_get_spec _ _ _ _ Hok E) as (H1 & H2 & _ & _ & _).
    destruct (pool_get_counts _ _ _ _ E) as (C1 & C2 & C3 & C4).
    split; cbn [ps_pool ps_out ps_trimmed length]; [done|by constructor| | |];
      destruct C4 as [[C4 C5]|(C4 & C5 & C6)]; lia.
  - destruct (ps_out s !! i) as [b|] eqn:E.
    + assert (Hb : pb_ok b) by (eapply Forall_lookup_1; [exact Hout|exact E]).
      assert (Hlt : i < length (ps_out s)) by (by eapply lookup_lt_Some).
      destruct (pool_put_spec (pb_buf b) (ps_pool s) Hok (proj1 Hb)) as [H1 _].
      destruct (pool_put_counts (pb_buf b) (ps_pool s)) as (C1 & C2 & C3). unfold pb_drop.
      split; cbn [ps_pool ps_out ps_trimmed]; [done|by apply Forall_delete| | |]; rewrite ?length_delete by done;
        destruct C3 as [(C3 & C4 & C5)|(C3 & C4 & C5)]; lia.
    + split; try done. lia.
  - unfold trim. pose proof (trim_loop_spec (parked (ps_pool s)) keep (ps_pool s) 0 Hok ltac:(lia)) as Hs.
    destruct (trim_loop _ _ _ _) as [m p]. destruct Hs as (S1 & S2 & S3 & S4 & S5 & S6 & S7 & S8).
    split; cbn [ps_pool ps_out ps_trimmed]; try done; lia.
Qed.

Lemma pool_run_inv capacity ops : (Z.of_nat (length ops) < 18446744073709551615)%Z -> pool_inv (length ops) (pool_run capacity ops).
Proof.
  unfold pool_run. induction ops as [|op ops IH] using rev_ind; intros Hl.
  - cbn [foldl length]. destruct (q_new_spec (Nat.max capacity 1)) as [E1 E2].
    split; cbn [ps_pool ps_out ps_trimmed length bufpool_new bp_gets bp_allocated bp_recycled bp_discarded]; try done; try lia.
    + split; unfold parked; cbn [bp_free bufpool_new]; rewrite ?q_len_spec, E1; [done|cbn [length]; lia].
    + unfold parked. cbn [bp_free bufpool_new]. rewrite q_len_spec, E1. cbn [length]. lia.
  - rewrite length_app in *. cbn [length] in *. rewrite foldl_snoc, Nat.add_1_r. apply pool_step_inv; [lia|]. apply IH. lia.
Qed.
End Runs.
