(* ===== verification/Packet.v ===== *)
(** * Sealing and opening packets: [tx.rs:seal] and [session.rs:decrypt]

    The layer between a session's packets and the datagrams: a nonce and a checksum, or an
    authenticated cipher's nonce and tag, in front of and after what the FEC layer or KCP
    wrote. *)
From stdpp Require Import base list.
From Stdlib Require Import ZArith Lia.
From S2P Require Import Prelude Word Env CipherWord Cfb Tea Sm4 Twofish Des Crypt BufPool.
Local Open Scope Z_scope.

(** The random bytes of [rand::rng().fill_bytes] and [crc32fast::hash]. *)
Class Rng (R : Type) := {
  fill_bytes : nat -> R -> list Z * R;
  fill_bytes_len n r : length (fst (fill_bytes n r)) = n;
}.
Class Crc := {
  crc32 : list Z -> Z;
  crc32_range l : is_u32 (crc32 l);
}.

Section Packet.
Context `{!Crates} {R : Type} `{!Rng R} `{!Crc}.
Implicit Types (block : option PacketCrypt) (r : R) (data : list Z) (buffer : PacketBuf) (snmp : Snmp).

(** [entropy.rs:fill_nonce] on a slice of [n] bytes. *)
Definition fill_nonce (n : nat) r : list Z * R :=
  if (n =? 0)%nat then ([], r) else fill_bytes n r.

(** The first [n] bytes of the packet replaced by a nonce. *)
Definition put_nonce (n : nat) buffer r : PacketBuf * R :=
  let '(nonce, r) := fill_nonce n r in
  (write_slice (nonce ++ drop n (as_slice buffer)) buffer, r).

(** [tx.rs:seal]: whether the packet was sealed, and the packet. *)
Definition seal_packet block buffer r : bool * PacketBuf * R :=
  match block with
  | None => (true, buffer, r)
  | Some (PacketAead aead) =>
      let len := pb_len buffer in
      if (len <? nonce_size aead)%nat then (false, buffer, r) else
      let '(buffer, r) := put_nonce (nonce_size aead) buffer r in
      match seal_in_place aead (pb_buf buffer) len with
      | Ok (full, sealed) => (true, set_len sealed (mkPacketBuf full (pb_len buffer)), r)
      | Err _ | Panic => (false, buffer, r)
      end
  | Some (PacketBlock block) =>
      if (pb_len buffer <? CRYPT_HEADER_SIZE)%nat then (false, buffer, r) else
      let '(buffer, r) := put_nonce NONCE_SIZE buffer r in
      let packet := as_slice buffer in
      let checksum := crc32 (drop CRYPT_HEADER_SIZE packet) in
      let packet := take NONCE_SIZE packet ++ le_bytes 4 checksum ++ drop CRYPT_HEADER_SIZE packet in
      (true, write_slice (block_encrypt block packet) buffer, r)
  end.

(** [session.rs:decrypt]: the payload of a datagram that passes its checks. *)
Definition decrypt_packet block data snmp : option (list Z) * Snmp :=
  match block with
  | None => (Some data, snmp)
  | Some (PacketAead aead) =>
      if (length data <? nonce_size aead + overhead aead)%nat then (None, snmp) else
      match open_in_place aead data with
      | Ok plaintext => (Some plaintext, snmp)
      | Err _ | Panic => (None, snmp <| in_csum_errors := fetch_add (in_csum_errors snmp) 1 |>)
      end
  | Some (PacketBlock block) =>
      if (length data <? CRYPT_HEADER_SIZE)%nat then (None, snmp) else
      let data := drop NONCE_SIZE (block_decrypt block data) in
      let checksum := le_val (take CRC_SIZE data) in
      let payload := drop CRC_SIZE data in
      if negb (crc32 payload =? checksum) then
        (None, snmp <| in_csum_errors := fetch_add (in_csum_errors snmp) 1 |>)
      else (Some payload, snmp)
  end.

(** The bytes a session leaves in front of a packet for this layer: [UdpSession::new]. *)
Definition crypt_header block : nat :=
  match block with
  | None => 0%nat
  | Some (PacketAead aead) => nonce_size aead
  | Some (PacketBlock _) => CRYPT_HEADER_SIZE
  end.
(** What sealing appends: the part of [set_kcp_mtu] that reads [block]. *)
Definition crypt_trailer block : nat :=
  match block with
  | Some (PacketAead aead) => overhead aead
  | _ => 0%nat
  end.

(** ** Round trips *)

Context `{!CratesLaw}.

Lemma length_fill_nonce n r : length (fst (fill_nonce n r)) = n.
Proof. unfold fill_nonce. destruct (Nat.eqb_spec n 0) as [->|]; [done|]. apply fill_bytes_len. Qed.

Lemma length_as_slice buffer : pb_ok buffer -> length (as_slice buffer) = pb_len buffer.
Proof. intros [Hl Hn]. unfold as_slice. rewrite length_take, Hl. lia. Qed.

Lemma write_slice_ok s buffer : pb_ok buffer -> length s = pb_len buffer ->
  pb_ok (write_slice s buffer) /\ as_slice (write_slice s buffer) = s.
Proof.
  intros [Hl Hn] Hs. unfold write_slice, as_slice, pb_ok. cbn [pb_buf pb_len]. split.
  - rewrite length_app, length_drop, Hl. lia.
  - by rewrite take_app_length'.
Qed.

Lemma put_nonce_ok n buffer r buffer' r' : pb_ok buffer -> (n <= pb_len buffer)%nat -> put_nonce n buffer r = (buffer', r') ->
  pb_ok buffer' /\ pb_len buffer' = pb_len buffer /\ drop n (as_slice buffer') = drop n (as_slice buffer).
Proof.
  intros Hok Hn. unfold put_nonce. pose proof (length_fill_nonce n r) as Hf. destruct (fill_nonce n r) as [nonce r1].
  cbn [fst] in Hf. intros [= <- <-].
  destruct (write_slice_ok (nonce ++ drop n (as_slice buffer)) buffer Hok) as [W1 W2].
  { rewrite length_app, length_drop, length_as_slice by done. lia. }
  split_and!; [done|done|]. rewrite W2. by rewrite drop_app_length'.
Qed.

(** The sealed datagram opens to what was behind the header; it is [crypt_trailer] longer. *)
Lemma seal_packet_opens block buffer r buffer' r' snmp : pb_ok buffer -> seal_packet block buffer r = (true, buffer', r') ->
  decrypt_packet block (as_slice buffer') snmp = (Some (drop (crypt_header block) (as_slice buffer)), snmp) /\
  pb_ok buffer' /\ pb_len buffer' = (pb_len buffer + crypt_trailer block)%nat.
Proof.
  intros Hok. unfold seal_packet. destruct block as [[b|a]|]; cbn [crypt_header crypt_trailer].
  - destruct (Nat.ltb_spec (pb_len buffer) CRYPT_HEADER_SIZE) as [|Hl]; [done|].
    destruct (put_nonce NONCE_SIZE buffer r) as [b1 r1] eqn:Ep.
    unfold CRYPT_HEADER_SIZE, NONCE_SIZE, CRC_SIZE in *. destruct (put_nonce_ok 16 _ _ _ _ Hok ltac:(lia) Ep) as (Hok1 & Hl1 & Hd1).
    cbv zeta. set (packet := take 16 _ ++ _). intros [= <- _].
    assert (Hls : length (as_slice b1) = pb_len b1) by by apply length_as_slice.
    assert (Hp : length packet = pb_len b1).
    { unfold packet. rewrite !length_app, length_take, length_drop, length_le_bytes, Hls. lia. }
    destruct (block_encrypt_decrypt b packet) as [Er El]. rewrite Hp in El.
    destruct (write_slice_ok (block_encrypt b packet) b1 Hok1 El) as [Hw Hs]. rewrite Hs.
    unfold decrypt_packet, CRYPT_HEADER_SIZE, NONCE_SIZE, CRC_SIZE. rewrite El. destruct (Nat.ltb_spec (pb_len b1) (16 + 4)); [lia|].
    cbv zeta. rewrite Er. unfold packet. rewrite drop_app_length' by (rewrite length_take; lia).
    rewrite take_app_length', drop_app_length' by by rewrite length_le_bytes.
    rewrite le_val_word by apply crc32_range. rewrite Z.eqb_refl. cbn [negb].
    split_and!; [|done|unfold write_slice; cbn [pb_len]; lia]. do 2 f_equal.
    by rewrite <- !drop_drop, Hd1.
  - destruct (Nat.ltb_spec (pb_len buffer) (nonce_size a)) as [|Hl]; [done|].
    destruct (put_nonce (nonce_size a) buffer r) as [b1 r1] eqn:Ep.
    destruct (put_nonce_ok _ _ _ _ _ Hok Hl Ep) as (Hok1 & Hl1 & Hd1).
    destruct (seal_in_place a (pb_buf b1) (pb_len buffer)) as [[full sealed]| |] eqn:Es; [|done..]. intros [= <- _].
    apply seal_open_in_place in Es as (-> & Ef & _ & _ & H12 & Hfit & Eo).
    destruct Hok1 as [Hb1 Hn1]. unfold nonce_size, overhead, AEAD_NONCE, AEAD_OVERHEAD, MTU_LIMIT in *.
    assert (Em : Nat.min (pb_len buffer + 16) 1500 = (pb_len buffer + 16)%nat) by lia.
    unfold set_len, as_slice at 1. cbn [pb_buf pb_len]. unfold MTU_LIMIT. rewrite Em.
    unfold decrypt_packet, nonce_size, overhead, AEAD_NONCE, AEAD_OVERHEAD. rewrite Eo.
    assert (El : length (take (pb_len buffer + 16) full) = (pb_len buffer + 16)%nat) by (rewrite length_take; lia).
    rewrite El. destruct (Nat.ltb_spec (pb_len buffer + 16) (12 + 16)); [lia|]. split_and!.
    + do 2 f_equal. rewrite <- Hd1. unfold as_slice. rewrite Hl1, take_drop_commute. do 2 f_equal. lia.
    + split; cbn [pb_buf pb_len]; unfold MTU_LIMIT; lia.
    + done.
  - intros [= <- _]. by rewrite drop_0, Nat.add_0_r.
Qed.

(** Sealing succeeds on every packet with room for the header and the trailer. *)
Lemma seal_packet_total block buffer r : pb_ok buffer -> (crypt_header block <= pb_len buffer)%nat ->
  (pb_len buffer + crypt_trailer block <= MTU_LIMIT)%nat -> fst (fst (seal_packet block buffer r)) = true.
Proof.
  intros Hok Hh Ht. unfold seal_packet. destruct block as [[b|a]|]; cbn [crypt_header crypt_trailer] in *; [| |done].
  - destruct (Nat.ltb_spec (pb_len buffer) CRYPT_HEADER_SIZE); [lia|]. by destruct (put_nonce _ _ _).
  - destruct (Nat.ltb_spec (pb_len buffer) (nonce_size a)); [lia|].
    destruct (put_nonce (nonce_size a) buffer r) as [b1 r1] eqn:Ep.
    destruct (put_nonce_ok _ _ _ _ _ Hok Hh Ep) as ([Hb1 Hn1] & Hl1 & _). unfold seal_in_place. cbv zeta.
    unfold nonce_size, overhead, AEAD_NONCE, AEAD_OVERHEAD, MTU_LIMIT in *.
    destruct (Z.ltb_spec 18446744073709551615 (Z.of_nat (pb_len buffer) + Z.of_nat 16)); [lia|].
    destruct (Nat.ltb_spec (pb_len buffer) 12); [lia|]. cbn [orb].
    destruct (Nat.ltb_spec (length (pb_buf b1)) (pb_len buffer + 16)); [lia|].
    destruct (gcm_seal_total a (take 12 (pb_buf b1)) (take (pb_len buffer - 12) (drop 12 (pb_buf b1)))) as [[c t] ->];
      [rewrite length_take; unfold AEAD_NONCE; lia|rewrite length_take, length_drop; lia|done].
Qed.

(** A datagram is accepted exactly when it is what sealing makes: some nonce, the checksum of
    the payload and the payload, encrypted. *)
Lemma decrypt_block_iff b data snmp p : decrypt_packet (Some (PacketBlock b)) data snmp = (Some p, snmp) <->
  exists nonce checksum, length nonce = NONCE_SIZE /\ length checksum = CRC_SIZE /\ le_val checksum = crc32 p /\
    data = block_encrypt b (nonce ++ checksum ++ p).
Proof.
  unfold decrypt_packet, CRYPT_HEADER_SIZE, NONCE_SIZE, CRC_SIZE. split.
  - destruct (Nat.ltb_spec (length data) (16 + 4)) as [|Hl]; [done|]. destruct (block_decrypt_encrypt b data) as [Ee El].
    set (d := block_decrypt b data) in *. cbv zeta. destruct (Z.eqb_spec (crc32 (drop 4 (drop 16 d))) (le_val (take 4 (drop 16 d)))) as [Ec|];
      [|done]. cbn [negb]. intros [= <-]. exists (take 16 d), (take 4 (drop 16 d)).
    split_and!; [rewrite length_take; lia|rewrite length_take, length_drop; lia|done|]. by rewrite !take_drop.
  - intros (nonce & checksum & Hn & Hc & Ev & ->). destruct (block_encrypt_decrypt b (nonce ++ checksum ++ p)) as [Er El].
    rewrite El, !length_app, Hn, Hc. destruct (Nat.ltb_spec (16 + (4 + length p)) (16 + 4)); [lia|].
    rewrite Er, drop_app_length' by done. rewrite take_app_length', drop_app_length' by done. cbv zeta.
    rewrite Ev, Z.eqb_refl. done.
Qed.
End Packet.

(** ** Bytes in, bytes out *)

(** A cipher makes bytes of bytes, as the type of its slices says. *)
Class CfbBytes (BS : nat) (C : Type) `{CfbBlock BS C} : Prop :=
  encrypt_block_bytes : forall (c : C) x, bytes x -> bytes (encrypt_block BS c x).
Class CratesBytes `{Crates} : Prop := {
  aes128_bytes :: CfbBytes 16 Aes128;
  aes192_bytes :: CfbBytes 16 Aes192;
  aes256_bytes :: CfbBytes 16 Aes256;
  blowfish_bytes :: CfbBytes 8 Blowfish;
  cast5_bytes :: CfbBytes 8 Cast5;
  salsa20_bytes key nonce data : bytes data -> bytes (salsa20_apply key nonce data);
  gcm_open_bytes a nonce c t p : bytes c -> gcm_open a nonce c t = Some p -> bytes p;
}.

(** A block stored word by word. *)
Ltac words_are_bytes := unfold bytes; repeat match goal with |- Forall _ (_ ++ _) => apply Forall_app_2 end; apply be_bytes_bytes || apply le_bytes_bytes.

#[export] Instance tea_bytes : CfbBytes 8 Tea.
Proof. intros c x _. change (bytes (tea_encrypt c x)). unfold tea_encrypt. destruct (load x). destruct (tea_encrypt_loop _ _ _ _ _). unfold store. words_are_bytes. Qed.
#[export] Instance xtea_bytes : CfbBytes 8 Xtea.
Proof. intros c x _. change (bytes (xtea_encrypt c x)). unfold xtea_encrypt. destruct (foldl _ _ _). unfold store. words_are_bytes. Qed.
#[export] Instance sm4_bytes : CfbBytes 16 Sm4Cipher.
Proof.
  intros c x _. change (bytes (sm4_encrypt c x)). unfold sm4_encrypt, sm4_crypt_block. destruct (reverse_words _) as [[[b0 b1] b2] b3].
  unfold sm4_permute_final_block. words_are_bytes.
Qed.
#[export] Instance twofish_bytes : CfbBytes 16 TwofishCipher.
Proof.
  intros c x _. change (bytes (twofish_encrypt c x)). unfold twofish_encrypt. destruct (load32l x) as [[[ia ib] ic] id].
  destruct (foldl _ _ _) as [[[ja jb] jc] jd]. unfold store32l. words_are_bytes.
Qed.
#[export] Instance triple_des_bytes : CfbBytes 8 TripleDesCipher.
Proof. intros c x _. change (bytes (triple_des_encrypt c x)). unfold triple_des_encrypt, des_store. destruct (des_forward _ _). words_are_bytes. Qed.

Lemma xor_bytes dst : forall src, bytes dst -> bytes src -> bytes (xor_in_place dst src).
Proof.
  induction dst as [|d dst IH]; intros [|s src] Hd Hs; cbn [xor_in_place]; [done..|]. apply Forall_cons in Hd as [? ?], Hs as [? ?].
  constructor; [by apply lxor_byte|by apply IH].
Qed.

Lemma decrypt_ref_bytes {BS C} `{!CfbBlock BS C, !CfbBytes BS C} (c : C) blocks : forall x rem,
  bytes x -> Forall bytes blocks -> bytes rem -> bytes (decrypt_ref BS c x blocks rem).
Proof.
  induction blocks as [|b blocks IH]; intros x rem Hx Hb Hr; cbn [decrypt_ref].
  - apply xor_bytes; [done|by apply encrypt_block_bytes].
  - apply Forall_cons in Hb as [? ?]. apply Forall_app_2; [apply xor_bytes; [done|by apply encrypt_block_bytes]|by apply IH].
Qed.

Lemma as_chunks_bytes n l : bytes l -> Forall bytes (fst (as_chunks n l)) /\ bytes (snd (as_chunks n l)).
Proof.
  intros Hl. unfold as_chunks. cbn [fst snd]. split; [|by apply Forall_drop]. apply Forall_fmap, Forall_forall. intros i _. cbn.
  by apply Forall_take, Forall_drop.
Qed.

Lemma cfb_decrypt_bytes {BS C} `{!CfbBlock BS C, !CfbLaw BS C, !CfbBytes BS C} (c : C) buf : (0 < BS)%nat -> bytes buf -> bytes (cfb_decrypt BS c buf).
Proof.
  intros HBS Hb. rewrite cfb_decrypt_ref by done. destruct (as_chunks_bytes BS buf Hb). apply decrypt_ref_bytes; [|done..].
  apply Forall_take. repeat constructor; unfold is_u8; lia.
Qed.

(** The XOR cipher's table is bytes. *)
Definition cipher_ok `{!Crates} (block : option PacketCrypt) : Prop :=
  match block with Some (PacketBlock (BlockXor c)) => bytes (xortbl c) | _ => True end.

Lemma decrypt_packet_bytes `{!Crates, !CratesLaw, !CratesBytes, !Crc} block data snmp p snmp' : cipher_ok block -> bytes data ->
  decrypt_packet block data snmp = (Some p, snmp') -> bytes p.
Proof.
  intros Hc Hb. unfold decrypt_packet. destruct block as [[b|a]|]; [| |by intros [= <- _]].
  - destruct (_ <? _)%nat; [done|]. cbv zeta. case_goal; [done|]. intros [= <- _]. do 2 apply Forall_drop.
    destruct b as [c|c|c|]; cbn [block_decrypt cipher_ok] in *; [| | |done].
    + destruct c; unfold cfbcipher_decrypt, dispatch; apply cfb_decrypt_bytes; (done || lia).
    + unfold xor_key_stream. case_goal; [done|]. apply Forall_app_2; [by apply Forall_take|]. by apply salsa20_bytes, Forall_drop.
    + unfold xor_crypt. destruct data; [done|]. by apply xor_bytes.
  - case_goal; [done|]. unfold open_in_place. case_goal; [done|]. case_goal; [done|]. destruct (gcm_open _ _ _ _) eqn:Eg; [|done].
    intros [= <- _]. eapply gcm_open_bytes; [|exact Eg]. by apply Forall_take, Forall_drop.
Qed.
