(* ===== verification/CryptTheorems.v ===== *)
(** * What the packet ciphers guarantee

    The round trips of the block ciphers, of the feedback mode and of whole packets, the
    batched decryption, the key sizes and the packets that are accepted.  The crates the
    ciphers come from are instantiated for the witnesses by [toy_crates]. *)
From stdpp Require Import base list.
From Stdlib Require Import ZArith Lia String.
From S2P Require Import Prelude Word Env CipherWord Cfb Tea Sm4 Twofish Des DesSpec Crypt BufPool Packet.
Local Open Scope Z_scope.

(** ** External ciphers for the witnesses *)

(** A cipher that only remembers its key and encrypts a block by rotating it. *)
Definition rotate_block (c : list Z) (b : list Z) : list Z := drop 1 b ++ take 1 b.
Definition sized (ok : nat -> bool) (key : list Z) : option (list Z) := if ok (length key) then Some key else None.
#[export] Instance toy_cfb BS : CfbBlock BS (list Z) :=
  { encrypt_block := rotate_block; encrypt_blocks := each_block rotate_block }.
#[export] Instance toy_cfb_law BS : CfbLaw BS (list Z).
Proof. intros c ks _. unfold encrypt_blocks, encrypt_block, toy_cfb, each_block. reflexivity. Qed.

Definition toy_stream (key nonce : list Z) (n : nat) : list Z := replicate n 85.
Definition toy_seal (g nonce p : list Z) : option (list Z * list Z) := Some (xor_in_place p (toy_stream g nonce (length p)), replicate 16 7).
Definition toy_open (g nonce c t : list Z) : option (list Z) :=
  if decide (t = replicate 16 7) then Some (xor_in_place c (toy_stream g nonce (length c))) else None.

#[export] Instance toy_crates : Crates := {
  Aes128 := list Z; Aes192 := list Z; Aes256 := list Z; Blowfish := list Z; Cast5 := list Z;
  aes128_new := sized (fun n => (n =? 16)%nat);
  aes192_new := sized (fun n => (n =? 24)%nat);
  aes256_new := sized (fun n => (n =? 32)%nat);
  blowfish_new := sized (fun n => (4 <=? n)%nat && (n <=? 56)%nat);
  cast5_new := sized (fun n => (5 <=? n)%nat && (n <=? 16)%nat);
  aes128_block := toy_cfb 16; aes192_block := toy_cfb 16; aes256_block := toy_cfb 16;
  blowfish_block := toy_cfb 8; cast5_block := toy_cfb 8;
  salsa20_apply key nonce data := xor_in_place data (toy_stream key nonce (length data));
  pbkdf2_hmac_sha1 key salt rounds n := replicate n 3;
  Gcm128 := list Z; Gcm192 := list Z; Gcm256 := list Z;
  gcm128_new := sized (fun n => (n =? 16)%nat);
  gcm192_new := sized (fun n => (n =? 24)%nat);
  gcm256_new := sized (fun n => (n =? 32)%nat);
  gcm128_seal := toy_seal; gcm192_seal := toy_seal; gcm256_seal := toy_seal;
  gcm128_open := toy_open; gcm192_open := toy_open; gcm256_open := toy_open;
}.

Lemma sized_some ok key : is_Some (sized ok key) <-> ok (length key) = true.
Proof. unfold sized. destruct (ok _); split; try done; intros []; done. Qed.

Lemma toy_total : gcm_total toy_seal.
Proof. intros g nonce p _ _. unfold toy_seal. eauto. Qed.

Lemma toy_law : gcm_law toy_seal toy_open.
Proof.
  intros g nonce p c t [= <- <-]. unfold toy_open. rewrite length_xor. split_and!; [done|done|].
  rewrite decide_True by done. by rewrite xor_twice.
Qed.

#[export] Instance toy_crates_law : CratesLaw.
Proof.
  refine {| salsa20_stream := toy_stream |}; try exact (toy_cfb_law 16); try exact (toy_cfb_law 8); try exact toy_total;
    try exact toy_law; try done; intros key; unfold aes128_new, aes192_new, aes256_new, blowfish_new, cast5_new,
    gcm128_new, gcm192_new, gcm256_new, toy_crates; rewrite sized_some, ?andb_true_iff, ?Nat.leb_le, ?Nat.eqb_eq; lia.
Qed.

Section Statements.
Context `{CratesLaw}.

(** C11: every block cipher's [decrypt] undoes its [encrypt], on every block: TEA, XTEA, DES and
    Triple DES with any key schedule, SM4, and Twofish with the schedule of any key. *)
Theorem block_ciphers_invert b :
  bytes b ->
  (length b = 8%nat ->
    (forall c, tea_decrypt c (tea_encrypt c b) = b) /\ (forall c, xtea_decrypt c (xtea_encrypt c b) = b) /\
    (forall c, des_decrypt c (des_encrypt c b) = b) /\ (forall c, triple_des_decrypt c (triple_des_encrypt c b) = b)) /\
  (length b = 16%nat ->
    (forall c, sm4_decrypt c (sm4_encrypt c b) = b) /\
    (forall key c, twofish_new_cipher key = Ok c -> twofish_decrypt c (twofish_encrypt c b) = b)).
Proof.
  intros Hb. split; intros Hl; split_and!; intros.
  - by apply tea_inverse.
  - by apply xtea_inverse.
  - by apply des_inverse.
  - by apply triple_des_inverse.
  - by apply sm4_inverse.
  - apply twofish_inverse; [by eapply twofish_new_keyed|done..].
Qed.

(** C10: the eight-way batched decryption of the feedback mode computes the textbook chain block
    by block, and is the inverse of the encryption in both directions, on every length. *)
Theorem cfb_batched {C : Type} (BS : nat) `{CfbLaw BS C} (c : C) buf :
  (0 < BS)%nat ->
  cfb_decrypt BS c buf = decrypt_ref BS c (take BS INITIAL_VECTOR) (fst (as_chunks BS buf)) (snd (as_chunks BS buf)) /\
  cfb_decrypt BS c (cfb_encrypt BS c buf) = buf /\ cfb_encrypt BS c (cfb_decrypt BS c buf) = buf /\
  length (cfb_encrypt BS c buf) = length buf.
Proof.
  intros HBS. destruct (cfb_encrypt_decrypt BS HBS c buf) as [E El]. destruct (cfb_decrypt_encrypt BS HBS c buf) as [D Dl].
  split_and!; try done. by apply cfb_decrypt_ref.
Qed.

(** a packet cipher is a bijection on the packets of every length: what one side encrypts
    the other decrypts, whatever the cipher, and the length does not change. *)
Theorem packet_cipher_bijection (b : BlockCrypt) buf :
  block_decrypt b (block_encrypt b buf) = buf /\ block_encrypt b (block_decrypt b buf) = buf /\
  length (block_encrypt b buf) = length buf.
Proof.
  destruct (block_encrypt_decrypt b buf) as [E El]. destruct (block_decrypt_encrypt b buf) as [D Dl]. by split_and!.
Qed.

(** C8: a packet with room for its crypto header and trailer is sealed, and the datagram opens
    to the bytes behind the header, without counting an error; it is longer by the trailer. *)
Theorem sealed_packet_opens {R : Type} `{!Rng R} `{!Crc} block buffer (r : R) snmp :
  pb_ok buffer -> (crypt_header block <= pb_len buffer)%nat -> (pb_len buffer + crypt_trailer block <= MTU_LIMIT)%nat ->
  exists buffer' r', seal_packet block buffer r = (true, buffer', r') /\
    decrypt_packet block (as_slice buffer') snmp = (Some (drop (crypt_header block) (as_slice buffer)), snmp) /\
    length (as_slice buffer') = (pb_len buffer + crypt_trailer block)%nat.
Proof.
  intros Hok Hh Ht. pose proof (seal_packet_total block buffer r Hok Hh Ht) as Hs.
  destruct (seal_packet block buffer r) as [[ok buffer'] r'] eqn:E. cbn [fst] in Hs. subst ok.
  destruct (seal_packet_opens block buffer r buffer' r' snmp Hok E) as (Ho & Hok' & Hl). exists buffer', r'.
  split_and!; [done|done|]. by rewrite length_as_slice, Hl.
Qed.

(** C9: with a whole-packet cipher a datagram is accepted exactly when it is a sealed packet: a
    nonce, the checksum of the payload and the payload, encrypted.  Anything else is dropped,
    and counted as a checksum error unless it is shorter than the header. *)
Theorem packet_accepted_iff `{!Crc} b data snmp :
  (forall p, decrypt_packet (Some (PacketBlock b)) data snmp = (Some p, snmp) <->
    exists nonce checksum, length nonce = NONCE_SIZE /\ length checksum = CRC_SIZE /\ le_val checksum = crc32 p /\
      data = block_encrypt b (nonce ++ checksum ++ p)) /\
  (fst (decrypt_packet (Some (PacketBlock b)) data snmp) = None ->
    snd (decrypt_packet (Some (PacketBlock b)) data snmp) =
    if (length data <? CRYPT_HEADER_SIZE)%nat then snmp
    else snmp <| in_csum_errors := fetch_add (in_csum_errors snmp) 1 |>).
Proof.
  split; [intros p; apply decrypt_block_iff|]. unfold decrypt_packet. destruct (_ <? _)%nat; [done|]. cbv zeta.
  by destruct (negb _).
Qed.

(** Whether a constructor takes a key, and its error when it does not. *)
Definition accepts {A} (m : result CryptError A) (P : Prop) (e : CryptError) : Prop :=
  (P -> exists a, m = Ok a) /\ (~ P -> m = Err e).

Lemma accepts_some {A} (o : option A) e (P : Prop) : (is_Some o <-> P) -> accepts (or_err o e) P e.
Proof. intros HP. destruct o as [a|]; split; intros Hp; [by exists a|by destruct Hp; apply HP|by apply HP in Hp as []|done]. Qed.

Lemma accepts_bind {A B} (m : result CryptError A) (f : A -> B) P e : accepts m P e -> accepts (a ← m; Ok (f a)) P e.
Proof. intros [HP HN]. split; intros H'; [destruct (HP H') as [a ->]; by exists (f a)|by rewrite (HN H')]. Qed.

Lemma accepts_if {A} n k (m m' : result CryptError A) (P : Prop) e : accepts m (n = k) e -> accepts m' P e ->
  accepts (if (n =? k)%nat then m else m') (n = k \/ P) e.
Proof.
  intros [Y N] [Y' N']. destruct (Nat.eqb_spec n k); split; intros H'; [by apply Y|tauto| |apply N'; tauto].
  apply Y'. tauto.
Qed.

Lemma accepts_err {A} P e : ~ P -> accepts (A := A) (Err e) P e.
Proof. intros HP. by split; intros H'. Qed.

Lemma accepts_iff {A} (m : result CryptError A) P Q e : (P <-> Q) -> accepts m P e -> accepts m Q e.
Proof. intros HPQ [Y N]. split; intros H'; [apply Y|apply N]; tauto. Qed.

Lemma accepts_size {A} n k (a : A) e : accepts (if negb (n =? k)%nat then Err e else Ok a) (n = k) e.
Proof. destruct (Nat.eqb_spec n k); split; intros H'; try done. by exists a. Qed.

(** The three sizes of AES. *)
Lemma accepts_aes {A} (m16 m24 m32 : result CryptError A) n e : accepts m16 (n = 16%nat) e -> accepts m24 (n = 24%nat) e ->
  accepts m32 (n = 32%nat) e ->
  accepts (if (n =? 16)%nat then m16 else if (n =? 24)%nat then m24 else if (n =? 32)%nat then m32 else Err e)
    (n = 16 \/ n = 24 \/ n = 32)%nat e.
Proof.
  intros. apply (accepts_iff _ (n = 16 \/ n = 24 \/ n = 32 \/ False)%nat); [tauto|].
  repeat apply accepts_if; try done.
Qed.

Lemma blowfish_expand_length key : (1 <= length key <= 56)%nat -> (4 <= length (blowfish_expand key) <= 56)%nat.
Proof.
  intros Hk. unfold blowfish_expand. cbv zeta. rewrite length_fmap, length_seq. set (k := length key) in *. clearbody k.
  destruct (decide (4 <= k)%nat).
  - replace ((4 + k - 1) / k)%nat with 1%nat; [lia|]. apply (Nat.div_unique _ _ _ 3); lia.
  - destruct k as [|[|[|[|]]]]; cbn; lia.
Qed.

(** every constructor takes the keys of its cipher's sizes and gives Go's error for any other;
    the stream ciphers take every key, and Blowfish a key of 1 to 3 bytes, which is repeated. *)
Theorem crypt_key_sizes key :
  let n := length key in
  accepts (new_aes_block_crypt key) (n = 16 \/ n = 24 \/ n = 32)%nat (KeySize "aes" n) /\
  accepts (new_sm4_block_crypt key) (n = 16%nat) (Sm4KeySize n) /\
  accepts (new_twofish_block_crypt key) (n = 16 \/ n = 24 \/ n = 32)%nat (KeySize "twofish" n) /\
  accepts (new_triple_des_block_crypt key) (n = 24%nat) (KeySize "des" n) /\
  accepts (new_cast5_block_crypt key) (n = 16%nat) Cast5KeySize /\
  accepts (new_blowfish_block_crypt key) (1 <= n <= 56)%nat (KeySize "blowfish" n) /\
  accepts (new_tea_block_crypt key) (n = 16%nat) TeaKeySize /\
  accepts (new_xtea_block_crypt key) (n = 16%nat) (KeySize "xtea" n) /\
  accepts (new_aes_gcm_crypt key) (n = 16 \/ n = 24 \/ n = 32)%nat (KeySize "aes" n) /\
  (exists b, new_salsa20_block_crypt key = Ok b) /\ (exists b, new_simple_xor_block_crypt key = Ok b) /\
  (exists b, new_none_block_crypt key = Ok b).
Proof.
  cbv zeta. split_and!; try by eexists.
  - unfold new_aes_block_crypt. cbv zeta. apply accepts_bind, accepts_aes; apply accepts_bind, accepts_some;
      [apply aes128_key|apply aes192_key|apply aes256_key].
  - apply accepts_bind, accepts_size.
  - apply accepts_bind. unfold twofish_new_cipher. cbv zeta.
    destruct (Nat.eqb_spec (length key) 16), (Nat.eqb_spec (length key) 24), (Nat.eqb_spec (length key) 32); cbn [negb andb];
      split; intros Hk; first [by eexists|tauto|done].
  - apply accepts_bind. unfold new_triple_des_cipher. destruct (Nat.eqb_spec (length key) 24); split; intros Hk; try done. by eexists.
  - unfold new_cast5_block_crypt. destruct (Nat.eqb_spec (length key) 16); cbn [negb]; [|by apply accepts_err].
    apply accepts_bind, accepts_some. rewrite cast5_key. lia.
  - unfold new_blowfish_block_crypt. cbv zeta.
    destruct (Nat.leb_spec 1 (length key)), (Nat.leb_spec (length key) 56); cbn [negb andb]; try (apply accepts_err; lia).
    apply accepts_bind, accepts_some. rewrite blowfish_key. pose proof (blowfish_expand_length key). lia.
  - apply accepts_bind. unfold tea_new_cipher_with_rounds. change (negb (Nat.land 16 1 =? 0)%nat) with false. apply accepts_size.
  - apply accepts_bind, accepts_size.
  - apply accepts_bind, accepts_bind. apply accepts_aes; apply accepts_bind, accepts_some;
      [apply gcm128_key|apply gcm192_key|apply gcm256_key].
Qed.
End Statements.

(** C12: the bit exchanges of DES compute the standard's initial and final permutations on every
    block, and undo each other. *)
Theorem des_permutations x :
  is_u64 x ->
  permute_initial_block x = permute_block x INITIAL_PERMUTATION /\
  permute_final_block x = permute_block x FINAL_PERMUTATION /\
  permute_final_block (permute_initial_block x) = x /\ permute_initial_block (permute_final_block x) = x.
Proof.
  intros Hx. split_and!; [by apply permute_initial_table|by apply permute_final_table|by apply final_initial|by apply initial_final_block].
Qed.

(** ** Witnesses *)

Definition example_block : list Z := [1; 2; 3; 4; 5; 6; 7; 8].

Lemma example_block_bytes : bytes example_block.
Proof. unfold example_block, bytes, is_u8. repeat (apply Forall_cons; split; [lia|]). by apply Forall_nil. Qed.

Lemma block_ciphers_invert_witness :
  xtea_decrypt (xtea_init_cipher (replicate 16 9)) (xtea_encrypt (xtea_init_cipher (replicate 16 9)) example_block) = example_block.
Proof.
  destruct (block_ciphers_invert example_block example_block_bytes) as [H8 _]. destruct (H8 eq_refl) as (_ & Hx & _). exact (Hx _).
Defined.

Lemma cfb_batched_witness :
  cfb_decrypt 8 (xtea_init_cipher (replicate 16 9)) (cfb_encrypt 8 (xtea_init_cipher (replicate 16 9)) (replicate 100 5)) =
  replicate 100 5.
Proof.
  destruct (cfb_batched 8 (xtea_init_cipher (replicate 16 9)) (replicate 100 5) ltac:(lia)) as (_ & E & _). exact E.
Defined.

Lemma packet_cipher_bijection_witness :
  block_decrypt (BlockXor (mkXorCrypt [7; 8])) (block_encrypt (BlockXor (mkXorCrypt [7; 8])) example_block) = example_block.
Proof. destruct (packet_cipher_bijection (BlockXor (mkXorCrypt [7; 8])) example_block) as [E _]. exact E. Defined.

(** A generator that counts, and a checksum that adds. *)
#[export] Program Instance counting_rng : Rng Z := { fill_bytes n r := ((fun i => u8 (r + Z.of_nat i)) <$> seq 0 n, r + 1) }.
Next Obligation. intros. cbn [fst]. by rewrite length_fmap, length_seq. Qed.
#[export] Program Instance sum_crc : Crc := { crc32 l := u32 (foldr Z.add 0 l) }.
Next Obligation. intros. apply u32_range. Qed.

Definition example_packet : PacketBuf := mkPacketBuf (replicate 1500 0) 60.
Lemma example_packet_ok : pb_ok example_packet.
Proof. split; [apply length_replicate|cbn [pb_len example_packet]; unfold MTU_LIMIT; lia]. Qed.

Definition example_aead : AeadCrypt := mkAeadCrypt (GcmAes128 ([1; 2] : list Z)).

Lemma sealed_packet_opens_witness :
  exists buffer' r', seal_packet (Some (PacketAead example_aead)) example_packet 1 = (true, buffer', r') /\
    decrypt_packet (Some (PacketAead example_aead)) (as_slice buffer') snmp_new =
      (Some (replicate 48 0), snmp_new) /\ length (as_slice buffer') = 76%nat.
Proof.
  apply (sealed_packet_opens (Some (PacketAead example_aead)) example_packet 1 snmp_new example_packet_ok).
  - apply Nat.leb_le. vm_compute. reflexivity.
  - apply Nat.leb_le. vm_compute. reflexivity.
Defined.

Lemma packet_accepted_iff_witness :
  decrypt_packet (Some (PacketBlock BlockNone)) (replicate 16 1 ++ le_bytes 4 3 ++ [1; 2]) snmp_new = (Some [1; 2], snmp_new).
Proof.
  destruct (packet_accepted_iff BlockNone (replicate 16 1 ++ le_bytes 4 3 ++ [1; 2]) snmp_new) as [Hiff _]. apply Hiff. exists (replicate 16 1), (le_bytes 4 3).
  split_and!; reflexivity.
Defined.

Lemma crypt_key_sizes_witness : exists b, new_blowfish_block_crypt [1; 2] = Ok b.
Proof. destruct (crypt_key_sizes [1; 2]) as (_ & _ & _ & _ & _ & [Y _] & _). apply Y. cbn. lia. Defined.

Lemma des_permutations_witness : permute_initial_block 255 = permute_block 255 INITIAL_PERMUTATION.
Proof. destruct (des_permutations 255 ltac:(unfold is_u64; lia)) as [E _]. exact E. Defined.
