(* ===== verification/Tx.v ===== *)
(** * The outgoing packet pipeline: [tx.rs] and [error_slot.rs]

    [TxHandle::send] is the bounded channel of [Env].  Here is the task that drains it: FEC
    encoding, sealing, the batch, and writing the batch to the socket.  The socket is the
    class [PacketConn]; how long a batch is paced for by the rate limiter changes nothing
    but time and is left out. *)
From stdpp Require Import base list.
From Stdlib Require Import ZArith Lia.
From S2P Require Import Prelude Word Env Fec CipherWord Cfb Crypt BufPool Packet.
Local Open Scope Z_scope.

Definition MAX_BATCH_SIZE : nat := 64.
Definition DEV_BACKLOG : nat := 2048.

(** [packet_conn.rs:PacketConn::send_batch]: how many datagrams the socket took. *)
Class PacketConn (E N : Type) := {
  send_batch : list (list Z) -> N -> (E + nat) * N;
}.

(** [ErrorSlot]: the first error stays. *)
Definition ErrorSlot (E : Type) : Type := option E.
Definition error_slot_new {E} : ErrorSlot E := None.
Definition error_slot_set {E} (err : E) (s : ErrorSlot E) : bool * ErrorSlot E :=
  match s with None => (true, Some err) | Some _ => (false, s) end.
Definition error_slot_is_set {E} (s : ErrorSlot E) : bool := match s with Some _ => true | None => false end.

Record SendRequest := mkSendRequest {
  sr_buffer : PacketBuf;
  sr_oob : bool;
}.
Definition request_data (buffer : PacketBuf) : SendRequest := mkSendRequest buffer false.
Definition request_oob (buffer : PacketBuf) : SendRequest := mkSendRequest buffer true.

Section Tx.
Context `{!Crates} {R : Type} `{!Rng R} `{!Crc}.
Context {Q : Type} `{!ArrayQueue Buffer Q}.
Context {C : Type} `{!Clock C}.
Context {E N : Type} `{!PacketConn E N}.

(** The task's state, with what it shares: the count of duplicates and the write error. *)
Record TxPipeline := mkTxPipeline {
  tx_dup : nat;
  tx_write_error : ErrorSlot E;
  tx_conn : N;
  tx_block : option PacketCrypt;
  tx_fec_encoder : option FecEncoder;
  tx_pool : BufferPool Q;
  tx_clock : MonotonicMs C;
  tx_rng : R;
  tx_queue : list PacketBuf;
  tx_parity : list PacketBuf;
  tx_bytes_to_send : nat;
  tx_snmp : Snmp;
}.

#[export] Instance eta_tx : EtaRecord TxPipeline := fun t =>
  mkTxPipeline (tx_dup t) (tx_write_error t) (tx_conn t) (tx_block t) (tx_fec_encoder t) (tx_pool t) (tx_clock t)
    (tx_rng t) (tx_queue t) (tx_parity t) (tx_bytes_to_send t) (tx_snmp t).

Implicit Types (t : TxPipeline) (buffer : PacketBuf).

(** [channel]: the task of a new session. *)
Definition tx_new (conn : N) (block : option PacketCrypt) (fec_encoder : option FecEncoder) (pool : BufferPool Q)
    (clock : C) (rng : R) (snmp : Snmp) : TxPipeline :=
  mkTxPipeline 0 error_slot_new conn block fec_encoder pool (monotonic_new clock) rng [] [] 0 snmp.

Definition tx_drop buffer t : TxPipeline := t <| tx_pool := pb_drop buffer (tx_pool t) |>.

(** [pool.get(src.len())] and [copy_from_slice], which panics on another length. *)
Definition pooled_copy (src : list Z) t : io (PacketBuf * TxPipeline) :=
  let '(b, pool) := pool_get (length src) (tx_pool t) in
  let t := t <| tx_pool := pool |> in
  if (pb_len b =? length src)%nat then Ok (write_slice src b, t) else Panic.

Fixpoint copy_shards (shards : list (list Z)) t : io TxPipeline :=
  match shards with
  | [] => Ok t
  | shard :: shards =>
      r ← pooled_copy shard t;
      let '(parity, t) := r in
      copy_shards shards (t <| tx_parity := tx_parity t ++ [parity] |>)
  end.

(** Step 1, FEC: the packet, or [None] when it is dropped. *)
Definition process_fec buffer (oob : bool) t : io (option PacketBuf * TxPipeline) :=
  match tx_fec_encoder t with
  | None => Ok (Some buffer, t)
  | Some encoder =>
      if oob then
        match encode_oob (as_slice buffer) encoder with
        | Ok b => Ok (Some (write_slice b buffer), t)
        | Err _ => Ok (None, tx_drop buffer t)
        | Panic => Panic
        end
      else
        let '(now, clock) := monotonic_now_ms (tx_clock t) in
        let t := t <| tx_clock := clock |> in
        match encode (as_slice buffer) MAX_FEC_ENCODE_LATENCY now encoder (tx_snmp t) with
        | Ok (shards, b, encoder, snmp) =>
            t ← copy_shards (parity_iter shards) (t <| tx_fec_encoder := Some encoder |> <| tx_snmp := snmp |>);
            Ok (Some (write_slice b buffer), t)
        | Err _ => Ok (None, tx_drop buffer t)
        | Panic => Panic
        end
  end.

(** The loop over the parity shards stops at the first that cannot be sealed. *)
Fixpoint seal_parity (block : option PacketCrypt) (parity : list PacketBuf) (r : R) : bool * list PacketBuf * R :=
  match parity with
  | [] => (true, [], r)
  | p :: parity =>
      let '(ok, p, r) := seal_packet block p r in
      if (ok : bool) then let '(ok, parity, r) := seal_parity block parity r in (ok, p :: parity, r)
      else (false, p :: parity, r)
  end.

(** Step 2, encryption: whether everything was sealed. *)
Definition process_seal buffer t : bool * PacketBuf * TxPipeline :=
  let '(sealed, buffer, r) := seal_packet (tx_block t) buffer (tx_rng t) in
  let '(sealed, parity, r) :=
    if (sealed : bool) then seal_parity (tx_block t) (tx_parity t) r else (false, tx_parity t, r) in
  (sealed, buffer, t <| tx_parity := parity |> <| tx_rng := r |>).

(** [self.txqueue.push] with the count of bytes. *)
Definition queue_push buffer t : TxPipeline :=
  t <| tx_bytes_to_send := (tx_bytes_to_send t + pb_len buffer)%nat |> <| tx_queue := tx_queue t ++ [buffer] |>.

Fixpoint queue_dups (dup : nat) (original : list Z) t : io TxPipeline :=
  match dup with
  | O => Ok t
  | S dup => r ← pooled_copy original t; let '(copy, t) := r in queue_dups dup original (queue_push copy t)
  end.

(** [process]. *)
Definition process (request : SendRequest) t : io TxPipeline :=
  r ← process_fec (sr_buffer request) (sr_oob request) t;
  match r with
  | (None, t) => Ok t
  | (Some buffer, t) =>
      let '(sealed, buffer, t) := process_seal buffer t in
      if negb sealed then
        let t := t <| tx_pool := pb_drops (tx_parity t) (tx_pool t) |> <| tx_parity := [] |> in
        Ok (tx_drop buffer t)
      else
        let t := queue_push buffer t in
        t ← queue_dups (tx_dup t) (as_slice buffer) t;
        let parity := tx_parity t in
        Ok (foldl (fun t p => queue_push p t) (t <| tx_parity := [] |>) parity)
  end.

(** The loop of [transmit] over what is left of the batch; each round sends a datagram at
    least, so the number left is fuel enough.  The counts of packets and bytes sent. *)
Fixpoint send_loop_batch (fuel : nat) (msgs : list (list Z)) (npkts nbytes : nat) t : nat * nat * TxPipeline :=
  match fuel with
  | O => (npkts, nbytes, t)
  | S fuel =>
      match msgs with
      | [] => (npkts, nbytes, t)
      | _ =>
          let '(r, conn) := send_batch msgs (tx_conn t) in
          let t := t <| tx_conn := conn |> in
          match r with
          | inr O => (npkts, nbytes, t)
          | inr n =>
              let n := Nat.min n (length msgs) in
              send_loop_batch fuel (drop n msgs) (npkts + n) (nbytes + sum_list (length <$> take n msgs)) t
          | inl err => (npkts, nbytes, t <| tx_write_error := snd (error_slot_set err (tx_write_error t)) |>)
          end
      end
  end.

(** [transmit]. *)
Definition transmit_batch t : TxPipeline :=
  match tx_queue t with
  | [] => t <| tx_bytes_to_send := 0%nat |>
  | _ =>
      let msgs := as_slice <$> tx_queue t in
      let '(npkts, nbytes, t) := send_loop_batch (length msgs) msgs 0 0 t in
      let snmp := tx_snmp t in
      let snmp := snmp <| out_pkts := fetch_add (out_pkts snmp) (Z.of_nat npkts) |> in
      let snmp := snmp <| out_bytes := fetch_add (out_bytes snmp) (Z.of_nat nbytes) |> in
      t <| tx_snmp := snmp |> <| tx_pool := pb_drops (tx_queue t) (tx_pool t) |> <| tx_queue := [] |>
        <| tx_bytes_to_send := 0%nat |>
  end.

(** One round of [run] with the request received; [empty] is whether the channel was then empty. *)
Definition tx_round (request : SendRequest) (empty : bool) t : io TxPipeline :=
  t ← process request t;
  Ok (if empty || (MAX_BATCH_SIZE <=? length (tx_queue t))%nat then transmit_batch t else t).

(** [run] over the requests received until the session dies. *)
Fixpoint tx_run (requests : list (SendRequest * bool)) t : io TxPipeline :=
  match requests with
  | [] => Ok (match tx_queue t with [] => t | _ => transmit_batch t end)
  | (request, empty) :: requests => t ← tx_round request empty t; tx_run requests t
  end.
End Tx.
