(* ===== verification/TxSpec.v ===== *)
(** * What the outgoing pipeline puts on the wire

    [tx_inv]: every datagram queued or sent opens to one of the packets the task was given, or
    to a packet of the FEC stream they make ([carries], [tx_payload]).  [process_ok] and
    [tx_round_ok]: taking one more packet from the channel keeps it, and nothing panics. *)
From stdpp Require Import base list.
From Stdlib Require Import ZArith Lia.
From S2P Require Import Prelude Word Env Galois GfVector Matrix Codec CodecSpec Fec FecLayout FecEncoderSpec.
From S2P Require Import FecDecoderSpec FecRun CipherWord Cfb Crypt BufPool Packet Tx.
Local Open Scope Z_scope.

(** The 16-bit field that tells FEC packets from KCP packets. *)
Definition packet_flag (p : list Z) : Z := le_val (take 2 (drop 4 p)).

Lemma packet_flag_fec seqid type region : is_u16 type -> packet_flag (fec_packet seqid type region) = type.
Proof.
  intros Ht. unfold packet_flag, fec_packet. rewrite drop_app_length' by by rewrite length_le_bytes.
  rewrite take_app_length' by by rewrite length_le_bytes. rewrite le_val_le_bytes. apply Z.mod_small. unfold is_u16 in Ht. lia.
Qed.

(** A FEC stream: the shard counts and the code. *)
Record FecMode := mkFecMode { fm_data : nat; fm_parity : nat; fm_codec : Codec }.

(** The stream of the packets [bodies], and its packets. *)
Definition stream_of (m : FecMode) (bodies : list (list Z)) : Z -> list (list Z) := group_of (fm_data m) (shard_region <$> bodies).
Definition stream_packet (m : FecMode) (bodies : list (list Z)) (p : list Z) : Prop :=
  exists a, arrival_ok (fm_data m) (fm_parity m) (fm_codec m) (stream_of m bodies) a /\ p = arrival_packet (fm_data m) (fm_parity m) a.

(** What a datagram opens to. *)
Definition tx_payload (mode : option FecMode) (bodies : list (list Z)) (p : list Z) : Prop :=
  match mode with
  | None => p ∈ bodies
  | Some m => packet_flag p = TYPE_OOB \/ stream_packet m bodies p
  end.

(** ** More packets *)

Lemma group_of_more ds (a b : list (list Z)) id : group_of ds a id `prefix_of` group_of ds (a ++ b) id.
Proof.
  unfold group_of. destruct (decide (Z.to_nat id * ds <= length a)%nat) as [Hl|Hl].
  - rewrite drop_app_le by done. set (x := drop _ a). destruct (decide (ds <= length x)%nat) as [Hd|Hd].
    + by rewrite take_app_le.
    + rewrite (take_ge x) by lia. rewrite take_app_ge by lia. by eexists.
  - rewrite (drop_ge a) by lia. rewrite take_nil. apply prefix_nil.
Qed.

Lemma length_group_of ds (a : list (list Z)) id : (length (group_of ds a id) <= ds)%nat.
Proof. unfold group_of. rewrite length_take. lia. Qed.

Lemma full_group ds (a b : list (list Z)) id : length (group_of ds a id) = ds -> group_of ds (a ++ b) id = group_of ds a id.
Proof.
  intros Hl. destruct (group_of_more ds a b id) as [k E]. pose proof (length_group_of ds (a ++ b) id) as Hb.
  rewrite E, length_app in Hb. assert (k = []) as -> by (apply length_zero_iff_nil; lia). by rewrite E, app_nil_r.
Qed.

Lemma genuine_more ds c (a b : list (list Z)) id k r :
  genuine ds c (group_of ds a) id k r -> genuine ds c (group_of ds (a ++ b)) id k r.
Proof.
  unfold genuine. destruct (k <? ds)%nat.
  - intros Hk. by eapply prefix_lookup_Some, group_of_more.
  - intros [Hl Hk]. by rewrite full_group.
Qed.

Lemma stream_packet_more m a b p : stream_packet m a p -> stream_packet m (a ++ b) p.
Proof.
  intros (x & (Hid & Hk & Hg) & ->). exists x. split; [|done]. split_and!; [done|done|].
  unfold stream_of in *. rewrite fmap_app. by apply genuine_more.
Qed.

Lemma tx_payload_more mode a b p : tx_payload mode a p -> tx_payload mode (a ++ b) p.
Proof.
  destruct mode as [m|]; cbn [tx_payload]; [|intros ?; apply elem_of_app; by left].
  intros [?|?]; [by left|right; by apply stream_packet_more].
Qed.

(** A socket that remembers the datagrams it was given and took. *)
Class SocketLog (E N : Type) `{PacketConn E N} := {
  on_wire : N -> list (list Z);
  on_wire_sent msgs n d : d ∈ on_wire (snd (send_batch msgs n)) -> d ∈ on_wire n \/ d ∈ msgs;
}.

(** ** The task *)

Section Pipeline.
Context `{!Crates} `{!CratesLaw} {R : Type} `{!Rng R} `{!Crc}.
Context {Q : Type} `{!ArrayQueue Buffer Q}.
Context {C : Type} `{!Clock C}.
Context {E N : Type} `{!PacketConn E N, !SocketLog E N}.
Implicit Types (t : TxPipeline (R := R) (Q := Q) (C := C) (E := E) (N := N)) (buffer : PacketBuf) (bodies : list (list Z)).
Context (mode : option FecMode) (block : option PacketCrypt).
Let ho := crypt_header block.

(** The datagram [d] opens to a payload [P]. *)
Definition carries (P : list Z -> Prop) (d : list Z) : Prop :=
  exists p, P p /\ forall snmp, decrypt_packet block d snmp = (Some p, snmp).

Lemma carries_mono (P P' : list Z -> Prop) d : (forall p, P p -> P' p) -> carries P d -> carries P' d.
Proof. intros HP (p & Hp & Hd). exists p. split; [by apply HP|done]. Qed.

(** A packet before it is sealed. *)
Definition packed (P : list Z -> Prop) buffer : Prop := pb_ok buffer /\ P (drop ho (as_slice buffer)).

(** The encoder is where the packets [bodies] leave it. *)
Definition encoder_at bodies t : Prop :=
  match mode, tx_fec_encoder t with
  | None, None => True
  | Some m, Some e =>
      enc_stream (fm_data m) (fm_parity m) ho (fm_codec m) e /\
      exists g regs, enc_ok e g regs /\ (Z.to_nat g * fm_data m + length regs = length bodies)%nat /\
        drop (Z.to_nat g * fm_data m) (shard_region <$> bodies) = regs
  | _, _ => False
  end.

(** What a step of the task leaves alone, and the pool. *)
Definition same_tx t t' : Prop :=
  tx_block t' = tx_block t /\ tx_conn t' = tx_conn t /\ tx_queue t' = tx_queue t /\ (pool_ok (tx_pool t) -> pool_ok (tx_pool t')).

#[export] Instance same_tx_refl : Reflexive same_tx.
Proof. intros t. by split_and!. Qed.
#[export] Instance same_tx_trans : Transitive same_tx.
Proof. intros t1 t2 t3 (A1 & A2 & A3 & A4) (B1 & B2 & B3 & B4). split_and!; [congruence..|auto]. Qed.

Lemma drop_pool buffer t : pb_ok buffer -> same_tx t (tx_drop buffer t) /\ tx_fec_encoder (tx_drop buffer t) = tx_fec_encoder t /\
  tx_parity (tx_drop buffer t) = tx_parity t.
Proof. intros [Hl _]. split; [|done]. split_and!; [done..|]. intros Hp. by apply pool_put_spec. Qed.

Lemma pooled_copy_ok src t : pool_ok (tx_pool t) -> (length src <= MTU_LIMIT)%nat ->
  exists b t', pooled_copy src t = Ok (b, t') /\ same_tx t t' /\ pb_ok b /\ as_slice b = src /\
    tx_fec_encoder t' = tx_fec_encoder t /\ tx_parity t' = tx_parity t /\ tx_dup t' = tx_dup t.
Proof.
  intros Hp Hl. unfold pooled_copy. destruct (pool_get (length src) (tx_pool t)) as [b pool] eqn:Eg.
  destruct (pool_get_spec _ _ _ _ Hp Eg) as (Hp' & Hb & El & _). rewrite Nat.min_l in El by done. rewrite El, Nat.eqb_refl.
  destruct (write_slice_ok src b Hb (eq_sym El)) as [Hw Es]. eexists _, _. split; [done|]. split_and!; try done.
Qed.

Lemma copy_shards_ok P shards : forall t, pool_ok (tx_pool t) -> Forall (fun s => (length s <= MTU_LIMIT)%nat /\ P (drop ho s)) shards ->
  exists t', copy_shards shards t = Ok t' /\ same_tx t t' /\ tx_fec_encoder t' = tx_fec_encoder t /\
    exists ps, tx_parity t' = tx_parity t ++ ps /\ Forall (packed P) ps.
Proof.
  induction shards as [|s shards IH]; intros t Hp Hs; cbn [copy_shards].
  { exists t. split_and!; try done. exists []. by rewrite app_nil_r. }
  apply Forall_cons in Hs as [[Hl HP] Hs]. destruct (pooled_copy_ok s t Hp Hl) as (b & t1 & -> & Hs1 & Hb & Es & Ef & Epar & _).
  cbn [mbind result_bind]. destruct (IH (t1 <| tx_parity := tx_parity t1 ++ [b] |>)) as (t2 & -> & Hs2 & Ef2 & ps & Eps & Hps).
  { by apply Hs1. } { done. }
  exists t2. split; [done|]. split_and!.
  - etrans; [exact Hs1|]. exact Hs2.
  - rewrite Ef2. exact Ef.
  - exists (b :: ps). split; [rewrite Eps; change (tx_parity (t1 <| tx_parity := tx_parity t1 ++ [b] |>)) with (tx_parity t1 ++ [b]); by rewrite Epar, <- (assoc_L (++))|].
    constructor; [|done]. split; [done|by rewrite Es].
Qed.

(** The request's packet: room for the headers and a body. *)
Definition request_of (room body : list Z) (oob : bool) (request : SendRequest) : Prop :=
  sr_oob request = oob /\ pb_ok (sr_buffer request) /\ as_slice (sr_buffer request) = room ++ body /\
  length room = (ho + match mode with Some _ => FEC_HEADER_SIZE_PLUS2 | None => 0 end)%nat /\ bytes room /\ bytes body.

(** The packets of the stream once the request is taken: out-of-band ones are not part of it. *)
Definition bodies_after bodies (body : list Z) (oob : bool) : list (list Z) :=
  match mode with Some _ => if oob then bodies else bodies ++ [body] | None => bodies ++ [body] end.

(** Sequence numbers do not wrap. *)
Definition no_wrap bodies : Prop :=
  match mode with
  | Some m => (zlen bodies + 3) * Z.of_nat (fm_data m + fm_parity m) <= paws (fm_data m + fm_parity m)
  | None => True
  end.

Lemma write_packed (P : list Z -> Prop) s buffer : pb_ok buffer -> length s = length (as_slice buffer) -> P (drop ho s) ->
  packed P (write_slice s buffer).
Proof.
  intros Hb Hl HP. rewrite length_as_slice in Hl by done. destruct (write_slice_ok s buffer Hb Hl) as [Hw Es].
  split; [done|by rewrite Es].
Qed.

Lemma encoder_same bodies t t' : tx_fec_encoder t' = tx_fec_encoder t -> encoder_at bodies t -> encoder_at bodies t'.
Proof. unfold encoder_at. by intros ->. Qed.

(** Encoding a packet of the stream. *)
Lemma encode_data_ok m e bodies room body now snmp g regs : mode = Some m ->
  enc_stream (fm_data m) (fm_parity m) ho (fm_codec m) e -> enc_ok e g regs ->
  (Z.to_nat g * fm_data m + length regs = length bodies)%nat -> drop (Z.to_nat g * fm_data m) (shard_region <$> bodies) = regs ->
  no_wrap bodies -> length room = (ho + FEC_HEADER_SIZE_PLUS2)%nat -> bytes room -> bytes body ->
  (length (room ++ body) <= MTU_LIMIT)%nat ->
  exists shards b e', encode (room ++ body) MAX_FEC_ENCODE_LATENCY now e snmp = Ok (shards, b, e', snmp) /\
    length b = length (room ++ body) /\ stream_packet m (bodies ++ [body]) (drop ho b) /\
    Forall (fun s => (length s <= MTU_LIMIT)%nat /\ stream_packet m (bodies ++ [body]) (drop ho s)) (parity_iter shards) /\
    enc_stream (fm_data m) (fm_parity m) ho (fm_codec m) e' /\
    exists g' regs', enc_ok e' g' regs' /\ (Z.to_nat g' * fm_data m + length regs' = length (bodies ++ [body]))%nat /\
      drop (Z.to_nat g' * fm_data m) (shard_region <$> bodies ++ [body]) = regs'.
Proof.
  intros Emode Hs He Hl Hd Hw Hroom Hbr Hbb Hmtu. destruct m as [ds ps c]. unfold no_wrap in Hw. rewrite Emode in Hw. cbn [fm_data fm_parity fm_codec] in *.
  pose proof Hs as (E1 & E2 & E3 & E4). pose proof He as [Hp _ Hg Hn _ Hr _ _ _].
  pose proof Hp as [[Hcs _] Hcd Hcp Hss (Hds & Hps & Hmax) Hpaws Hoff]. unfold FEC_HEADER_SIZE_PLUS2, FEC_HEADER_SIZE in Hroom.
  destruct (fec_encode_spec e g regs (room ++ body) MAX_FEC_ENCODE_LATENCY now snmp He) as (par & e1 & Eenc & Hsame & _ & Hcase).
  { rewrite length_app. rewrite length_app in Hmtu. lia. } { by apply bytes_app. }
  set (done_ := shard_region <$> bodies) in *. assert (Hld : length done_ = length bodies) by apply length_fmap.
  assert (Hdrop : drop (ho + 8) (room ++ body) = body) by (apply drop_app_length'; lia).
  pose proof (data_packet_wire ds ps ho c e g regs done_ (room ++ body) [] He Hs ltac:(lia) Hd) as Hdata. cbv zeta in Hdata.
  rewrite Hdrop in Hdata. rewrite Hoff, E3, E1 in Hcase. replace (ho + 6 + 2)%nat with (ho + 8)%nat in Hcase by lia. rewrite Hdrop in Hcase.
  set (r := shard_region body) in *. assert (Er : shard_region <$> bodies ++ [body] = done_ ++ [r]) by by rewrite fmap_app.
  assert (Hwire : forall s, wire_ok ds ps c (group_of ds (done_ ++ [r])) ho s -> stream_packet (mkFecMode ds ps c) (bodies ++ [body]) (drop ho s)).
  { intros s (rm & a & Hrm & Ha & ->). exists a. rewrite drop_app_length' by done. unfold stream_of. cbn [fm_data fm_parity fm_codec]. by rewrite Er. }
  assert (Hdr : drop (Z.to_nat g * ds) (done_ ++ [r]) = regs ++ [r]) by (rewrite drop_app_le by lia; by rewrite Hd).
  exists par, (data_packet e (room ++ body)), e1. split; [done|]. split_and!.
  - unfold data_packet. rewrite length_app, length_fec_packet, length_shard_region, Hoff, E3. replace (ho + 6 + 2)%nat with (ho + 8)%nat by lia.
    rewrite Hdrop, length_take, length_app. lia.
  - apply Hwire, Hdata. rewrite length_app. lia.
  - destruct (Nat.eqb_spec (length regs + 1) ds) as [Ec|Ec]; [|destruct Hcase as [_ ->]; constructor].
    destruct Hcase as [_ Hpar]. destruct (_ <? _); [|rewrite Hpar; constructor]. apply Forall_lookup. intros j p Hj.
    destruct (Forall2_lookup_r _ _ _ _ _ Hpar Hj) as (k & Hk & Hpp). apply lookup_seq in Hk as [-> Hk]. split.
    + destruct Hpp as (rm & w & Hrm & Hw' & ->). pose proof (eo_regs _ _ _ He) as Hcol.
      assert (Hlw : length w = longest (regs ++ [r])).
      { pose proof (group_word_ok (fe_codec e) (regs ++ [r]) Hcs) as Hrows. eapply Forall_lookup_1 in Hrows as [_ Hx]; [exact Hx| |exact Hw'].
        apply Forall_app. split; [by eapply collected_bytes|]. apply Forall_singleton. by apply shard_region_bytes. }
      rewrite length_app, length_fec_packet, Hlw, longest_snoc. subst r. rewrite length_shard_region. rewrite length_app in Hmtu.
      assert (ho + 6 + longest regs <= MTU_LIMIT)%nat; [|lia]. destruct regs as [|r0 regs'] eqn:Er0; [change (longest []) with 0%nat; lia|].
      destruct (collected_longest e (r0 :: regs') Hcol ltac:(done)) as [_ Hx]. lia.
    + apply Hwire. apply (parity_packet_wire ds ps ho c e g (regs ++ [r]) (ds + j) p Hp Hs); try done.
      * unfold group_ok. rewrite <- E1, <- E2, <- Hss, <- Hpaws. lia.
      * lia.
      * rewrite length_app. cbn [length]. lia.
      * unfold group_of. rewrite Hdr. apply take_ge. rewrite length_app. cbn [length]. lia.
      * by rewrite E4 in Hpp.
  - by eapply enc_stream_same.
  - rewrite Er. assert (Hlb : length (bodies ++ [body]) = (length bodies + 1)%nat) by by rewrite length_app.
    destruct (Nat.eqb_spec (length regs + 1) ds) as [Ec|Ec].
    + destruct Hcase as [He1 _]. assert (Eg : next_group e g = g + 1).
      { unfold next_group. rewrite Hpaws, Hss, E1, E2. destruct (paws_spec (ds + ps)) as (q & Eq & Hq & _); [lia|].
        rewrite Eq in Hw |- *. rewrite Z.div_mul by lia. apply Z.mod_small.
        assert (Z.to_nat g <= length bodies)%nat by nia. apply Z.mul_le_mono_pos_r in Hw; [|lia]. unfold zlen in Hw. lia. }
      rewrite Eg in He1. exists (g + 1), []. split; [done|]. rewrite Z2Nat.inj_add by lia. cbn [length]. split; [lia|].
      apply drop_ge. rewrite length_app. cbn [length]. lia.
    + destruct Hcase as [He1 _]. exists g, (regs ++ [r]). split; [done|]. rewrite length_app. cbn [length]. split; [lia|done].
Qed.

(** The first step of [process]. *)
Lemma process_fec_ok bodies room body oob request t : request_of room body oob request -> pool_ok (tx_pool t) ->
  tx_parity t = [] -> encoder_at bodies t -> no_wrap bodies ->
  let P := tx_payload mode (bodies_after bodies body oob) in
  exists buffer t', process_fec (sr_buffer request) oob t = Ok (Some buffer, t') /\ same_tx t t' /\ packed P buffer /\
    Forall (packed P) (tx_parity t') /\ encoder_at (bodies_after bodies body oob) t'.
Proof.
  intros (_ & Hb & Es & Hroom & Hbr & Hbb) Hpool Hpar Henc Hw P. unfold process_fec, bodies_after in *. set (buffer := sr_buffer request) in *.
  unfold encoder_at in Henc. destruct mode as [m|] eqn:Emode; destruct (tx_fec_encoder t) as [e|] eqn:Ee; try done.
  2: { exists buffer, t. split_and!; try done.
    - split; [done|]. subst P. cbn [tx_payload]. rewrite Es, drop_app_length' by lia. apply elem_of_app. right. by apply list_elem_of_singleton.
    - by rewrite Hpar.
    - unfold encoder_at. by rewrite Emode, Ee. }
  destruct Henc as (Hs & g & regs & He & Hl & Hd).
  assert (Hlen : (length (room ++ body) <= MTU_LIMIT)%nat) by (rewrite <- Es, length_as_slice by done; apply Hb).
  destruct oob.
  - pose proof (ep_offset _ (eo_params _ _ _ He)) as Hoff. pose proof Hs as (_ & _ & Eho & _).
    unfold FEC_HEADER_SIZE_PLUS2, FEC_HEADER_SIZE in Hroom.
    rewrite Es, encode_oob_ok by (rewrite ?length_app; lia). set (b := oob_packet e (room ++ body)).
    exists (write_slice b buffer), t. split_and!; try done.
    + apply write_packed; [done| |].
      * rewrite Es. unfold b, oob_packet. rewrite length_app, length_fec_packet, Hoff, Eho. lens. rewrite !length_app. lia.
      * unfold P. left. unfold b, oob_packet. rewrite Eho. rewrite drop_app_length' by (lens; rewrite ?length_app; lia). by apply packet_flag_fec.
    + by rewrite Hpar.
    + unfold encoder_at. rewrite Emode, Ee. split; [done|]. by exists g, regs.
  - destruct (monotonic_now_ms (tx_clock t)) as [now clock]. rewrite Es. cbv zeta.
    change (tx_snmp (t <| tx_clock := clock |>)) with (tx_snmp t).
    destruct (encode_data_ok m e bodies room body now (tx_snmp t) g regs Emode Hs He Hl Hd Hw Hroom Hbr Hbb Hlen)
      as (shards & b & e' & -> & Hlb & Hpk & Hpars & Hs' & Hg').
    destruct (copy_shards_ok P (parity_iter shards) (t <| tx_clock := clock |> <| tx_fec_encoder := Some e' |> <| tx_snmp := tx_snmp t |>))
      as (t' & -> & Hsame & Ef & ps & Eps & Hps).
    { exact Hpool. }
    { eapply Forall_impl; [exact Hpars|]. intros s [? ?]. split; [done|unfold P; by right]. }
    cbn [mbind result_bind]. exists (write_slice b buffer), t'. split_and!; [done|exact Hsame| | |].
    + apply write_packed; [done|by rewrite Es|unfold P; by right].
    + rewrite Eps. change (tx_parity (_ <| tx_clock := _ |> <| tx_fec_encoder := _ |> <| tx_snmp := _ |>)) with (tx_parity t). by rewrite Hpar.
    + unfold encoder_at. rewrite Emode, Ef. split; [exact Hs'|exact Hg'].
Qed.

(** Sealing: what is sealed opens to the packet; what is not is dropped. *)
Lemma seal_carries P buffer r : packed P buffer ->
  let '(ok, buffer', r') := seal_packet block buffer r in
  pb_ok buffer' /\ (ok = true -> carries P (as_slice buffer')).
Proof.
  intros [Hb HP]. destruct (seal_packet block buffer r) as [[ok buffer'] r'] eqn:Es. destruct ok.
  - pose proof (fun snmp => seal_packet_opens block buffer r buffer' r' snmp Hb Es) as Ho. destruct (Ho snmp_new) as (_ & Hb' & _).
    split; [done|]. intros _. exists (drop ho (as_slice buffer)). split; [done|]. intros snmp. by destruct (Ho snmp).
  - split; [|done]. unfold seal_packet in Es. destruct block as [[b|a]|]; [| |done].
    + case_match; [by injection Es as <- _|]. by destruct (put_nonce _ _ _).
    + destruct (Nat.ltb_spec (pb_len buffer) (nonce_size a)) as [|Hn]; [by injection Es as <- _|].
      destruct (put_nonce _ _ _) as [b1 r1] eqn:Ep. destruct (put_nonce_ok _ _ _ _ _ Hb Hn Ep) as (Hb1 & _).
      repeat case_match; simplify_eq; done.
Qed.

Lemma seal_parity_carries P parity r : Forall (packed P) parity ->
  let '(ok, parity', r') := seal_parity block parity r in
  Forall pb_ok parity' /\ (ok = true -> Forall (fun b => carries P (as_slice b)) parity').
Proof.
  intros Hp. revert r. induction Hp as [|p parity Hp Hps IH]; intros r; cbn [seal_parity]; [done|].
  pose proof (seal_carries P p r Hp) as Hs. destruct (seal_packet block p r) as [[ok p'] r1]. destruct Hs as [Hb Hc].
  destruct ok.
  - specialize (IH r1). destruct (seal_parity block parity r1) as [[ok parity'] r2]. destruct IH as [Hb' Hc'].
    split; [by constructor|]. intros ->. constructor; auto.
  - split; [|done]. constructor; [done|]. eapply Forall_impl; [exact Hps|]. by intros ? [? _].
Qed.

(** ** The invariant of the task *)

Record tx_inv bodies t : Prop := {
  ti_pool : pool_ok (tx_pool t);
  ti_parity : tx_parity t = [];
  ti_block : tx_block t = block;
  ti_encoder : encoder_at bodies t;
  ti_queue : Forall (fun b => pb_ok b /\ carries (tx_payload mode bodies) (as_slice b)) (tx_queue t);
  ti_wire : Forall (carries (tx_payload mode bodies)) (on_wire (tx_conn t));
}.

Lemma bodies_after_more bodies body oob : exists more, bodies_after bodies body oob = bodies ++ more.
Proof. unfold bodies_after. destruct mode; [destruct oob|]; eexists; try done. by rewrite app_nil_r. Qed.

Lemma queue_pushes_ok ps t : let t' := foldl (fun t p => queue_push p t) t ps in
  tx_queue t' = tx_queue t ++ ps /\ tx_block t' = tx_block t /\ tx_conn t' = tx_conn t /\ tx_pool t' = tx_pool t /\
  tx_fec_encoder t' = tx_fec_encoder t /\ tx_parity t' = tx_parity t.
Proof.
  revert t; induction ps as [|p ps IH]; intros t; cbn [foldl]; [by rewrite app_nil_r|].
  destruct (IH (queue_push p t)) as (-> & -> & -> & -> & -> & ->). split_and!; try done.
  change (tx_queue (queue_push p t)) with (tx_queue t ++ [p]). by rewrite <- (assoc_L (++)).
Qed.

Lemma queue_dups_ok original : (length original <= MTU_LIMIT)%nat -> forall dup t, pool_ok (tx_pool t) ->
  exists t' copies, queue_dups dup original t = Ok t' /\ tx_queue t' = tx_queue t ++ copies /\
    Forall (fun b => pb_ok b /\ as_slice b = original) copies /\ length copies = dup /\ pool_ok (tx_pool t') /\
    tx_block t' = tx_block t /\ tx_conn t' = tx_conn t /\ tx_fec_encoder t' = tx_fec_encoder t /\ tx_parity t' = tx_parity t.
Proof.
  intros Hl. induction dup as [|dup IH]; intros t Hp; cbn [queue_dups].
  { exists t, []. rewrite app_nil_r. by split_and!. }
  destruct (pooled_copy_ok original t Hp Hl) as (b & t1 & -> & (S1 & S2 & S3 & S4) & Hb & Es & Ef & Epar & _). cbn [mbind result_bind].
  destruct (IH (queue_push b t1)) as (t2 & copies & -> & Eq & Hc & Elen & Hp2 & E1 & E2 & E3 & E4); [by apply S4|].
  exists t2, (b :: copies). split; [done|]. split_and!.
  - rewrite Eq. change (tx_queue (queue_push b t1)) with (tx_queue t1 ++ [b]). by rewrite S3, <- (assoc_L (++)).
  - by constructor.
  - cbn [length]. lia.
  - done.
  - rewrite E1. exact S1.
  - rewrite E2. exact S2.
  - rewrite E3. exact Ef.
  - rewrite E4. exact Epar.
Qed.

(** What one packet adds to the queue: itself sealed, its duplicates, the parity packets; or
    nothing when it cannot be sealed. *)
Lemma process_ok bodies room body oob request t : request_of room body oob request -> tx_inv bodies t -> no_wrap bodies ->
  exists t', process request t = Ok t' /\ tx_inv (bodies_after bodies body oob) t' /\ tx_conn t' = tx_conn t.
Proof.
  intros Hreq [Hpool Hpar Hblock Henc Hqueue Hwire] Hw.
  destruct (process_fec_ok bodies room body oob request t Hreq Hpool Hpar Henc Hw) as (buffer & t1 & Efec & Hsame & Hpk & Hps & Henc1).
  set (P := tx_payload mode (bodies_after bodies body oob)) in *. destruct Hsame as (S1 & S2 & S3 & S4).
  assert (Hmono : forall p, tx_payload mode bodies p -> P p).
  { intros p Hp. unfold P. destruct (bodies_after_more bodies body oob) as [more ->]. by apply tx_payload_more. }
  assert (Hqueue1 : Forall (fun b => pb_ok b /\ carries P (as_slice b)) (tx_queue t)).
  { eapply Forall_impl; [exact Hqueue|]. intros b [Hb Hc]. split; [done|]. by eapply carries_mono. }
  assert (Hwire1 : Forall (carries P) (on_wire (tx_conn t))).
  { eapply Forall_impl; [exact Hwire|]. intros b. by apply carries_mono. }
  unfold process. destruct Hreq as (-> & _). rewrite Efec. cbn [mbind result_bind]. unfold process_seal. rewrite S1, Hblock.
  pose proof (seal_carries P buffer (tx_rng t1) Hpk) as Hs. destruct (seal_packet block buffer (tx_rng t1)) as [[ok b2] r2].
  destruct Hs as [Hb2 Hc2]. set (par := if ok then _ else _).
  assert (Hpar2 : Forall pb_ok (snd (fst par)) /\ (fst (fst par) = true -> ok = true /\ Forall (fun b => carries P (as_slice b)) (snd (fst par)))).
  { subst par. destruct ok; cbn [fst snd].
    - pose proof (seal_parity_carries P (tx_parity t1) r2 Hps) as Hsp. destruct (seal_parity block (tx_parity t1) r2) as [[ok' ps] r3].
      destruct Hsp as [A1 A2]. cbn [fst snd]. split; [done|]. intros ->. split; [done|by apply A2].
    - split; [|done]. eapply Forall_impl; [exact Hps|]. by intros ? [? _]. }
  destruct par as [[ok' ps] r3]. cbn [fst snd] in Hpar2. destruct Hpar2 as [Hbps Hcps]. cbv zeta.
  set (t2 := t1 <| tx_parity := ps |> <| tx_rng := r3 |>).
  assert (Hpool2 : pool_ok (tx_pool t2)) by by apply S4. assert (Henc2 : encoder_at (bodies_after bodies body oob) t2) by exact Henc1.
  destruct ok'; cbn [negb].
  - destruct (Hcps eq_refl) as [-> Hcps']. specialize (Hc2 eq_refl).
    destruct (queue_dups_ok (as_slice b2)) with (dup := tx_dup (queue_push b2 t2)) (t := queue_push b2 t2)
      as (t3 & copies & -> & Eq & Hcop & _ & Hpool3 & E1 & E2 & E3 & E4); [rewrite length_as_slice by done; apply Hb2|exact Hpool2|].
    cbn [mbind result_bind]. eexists. split; [done|].
    pose proof (queue_pushes_ok (tx_parity t3) (t3 <| tx_parity := [] |>)) as Hq. cbv zeta in Hq.
    set (t4 := foldl _ _ _) in *. destruct Hq as (Q1 & Q2 & Q3 & Q4 & Q5 & Q6).
    change (tx_queue (t3 <| tx_parity := [] |>)) with (tx_queue t3) in Q1.
    change (tx_queue (queue_push b2 t2)) with (tx_queue t1 ++ [b2]) in Eq. change (tx_parity (queue_push b2 t2)) with ps in E4.
    assert (Econn : tx_conn t4 = tx_conn t) by (rewrite Q3; etrans; [exact E2|]; exact S2).
    split; [|done]. constructor.
    + by rewrite Q4.
    + by rewrite Q6.
    + rewrite Q2. etrans; [exact E1|]. etrans; [exact S1|done].
    + eapply encoder_same; [|exact Henc2]. rewrite Q5. exact E3.
    + rewrite Q1, Eq, E4, S3. rewrite !Forall_app. split_and!; [done|by apply Forall_singleton| |].
      * eapply Forall_impl; [exact Hcop|]. intros b [Hb Eb]. by rewrite Eb.
      * apply Forall_forall. intros b Hb. rewrite Forall_forall in Hbps, Hcps'. split; auto.
    + by rewrite Econn.
  - eexists. split; [done|]. split; [|exact S2]. set (t3 := t2 <| tx_pool := _ |> <| tx_parity := _ |>).
    assert (Hpool3 : pool_ok (tx_pool t3)).
    { unfold t3. unfold field_update; cbn [tx_pool]. by apply pb_drops_ok. }
    destruct (drop_pool b2 t3 Hb2) as ((D1 & D2 & D3 & D4) & D5 & D6). constructor.
    + by apply D4.
    + by rewrite D6.
    + rewrite D1. etrans; [exact S1|done].
    + eapply encoder_same; [|exact Henc2]. by rewrite D5.
    + rewrite D3. change (tx_queue t3) with (tx_queue t1). by rewrite S3.
    + rewrite D2. change (tx_conn t3) with (tx_conn t1). by rewrite S2.
Qed.

(** ** The socket *)

Lemma send_loop_ok (P : list Z -> Prop) fuel : forall msgs np nb t, Forall P msgs -> Forall P (on_wire (tx_conn t)) ->
  let t' := snd (send_loop_batch fuel msgs np nb t) in
  Forall P (on_wire (tx_conn t')) /\ tx_pool t' = tx_pool t /\ tx_parity t' = tx_parity t /\ tx_block t' = tx_block t /\
  tx_fec_encoder t' = tx_fec_encoder t /\ tx_queue t' = tx_queue t.
Proof.
  induction fuel as [|fuel IH]; intros msgs np nb t Hm Hw; cbn [send_loop_batch]; [done|]. destruct msgs as [|m msgs]; [done|].
  assert (Hw' : Forall P (on_wire (snd (send_batch (m :: msgs) (tx_conn t))))).
  { apply Forall_forall. intros d [Hd|Hd]%on_wire_sent; [by eapply (proj1 (Forall_forall _ _) Hw)|by eapply (proj1 (Forall_forall _ _) Hm)]. }
  destruct (send_batch (m :: msgs) (tx_conn t)) as [[err|[|n]] conn]; [done..|]. cbn [snd] in Hw'.
  destruct (IH (drop (Nat.min (S n) (length (m :: msgs))) (m :: msgs)) (np + Nat.min (S n) (length (m :: msgs)))%nat
    (nb + sum_list (length <$> take (Nat.min (S n) (length (m :: msgs))) (m :: msgs)))%nat (t <| tx_conn := conn |>)) as (A1 & A2 & A3 & A4 & A5 & A6);
    [by apply Forall_drop|done|]. split_and!; assumption.
Qed.

Lemma transmit_ok bodies t : tx_inv bodies t -> tx_inv bodies (transmit_batch t) /\ tx_queue (transmit_batch t) = [].
Proof.
  intros [Hpool Hpar Hblock Henc Hqueue Hwire]. unfold transmit_batch. destruct (tx_queue t) as [|b q] eqn:Eq.
  { split; [|exact Eq]. constructor; try done. change (Forall (fun b => pb_ok b /\ carries (tx_payload mode bodies) (as_slice b)) (tx_queue t)). by rewrite Eq. }
  cbv zeta. assert (Hmsgs : Forall (carries (tx_payload mode bodies)) (as_slice <$> b :: q)).
  { rewrite Forall_fmap. eapply Forall_impl; [exact Hqueue|]. by intros ? [_ ?]. }
  pose proof (send_loop_ok _ (length (as_slice <$> b :: q)) (as_slice <$> b :: q) 0 0 t Hmsgs Hwire) as Hl. cbv zeta in Hl.
  destruct (send_loop_batch _ _ 0 0 t) as [[np nb] t1]. cbn [snd] in Hl. destruct Hl as (A1 & A2 & A3 & A4 & A5 & A6).
  split; [|done]. set (t2 := _ <| tx_bytes_to_send := 0%nat |>). constructor.
  - change (tx_pool t2) with (pb_drops (tx_queue t1) (tx_pool t1)). rewrite A2, A6, Eq.
    assert (Hb : Forall pb_ok (b :: q)) by (eapply Forall_impl; [exact Hqueue|]; by intros ? [? _]).
    by apply pb_drops_ok.
  - change (tx_parity t2) with (tx_parity t1). by rewrite A3.
  - change (tx_block t2) with (tx_block t1). by rewrite A4.
  - eapply encoder_same; [|exact Henc]. exact A5.
  - constructor.
  - exact A1.
Qed.

Lemma tx_round_ok bodies room body oob request empty t : request_of room body oob request -> tx_inv bodies t -> no_wrap bodies ->
  exists t', tx_round request empty t = Ok t' /\ tx_inv (bodies_after bodies body oob) t'.
Proof.
  intros Hreq Ht Hw. unfold tx_round. destruct (process_ok bodies room body oob request t Hreq Ht Hw) as (t1 & -> & Ht1 & _).
  cbn [mbind result_bind]. eexists. split; [done|]. case_goal; [by apply transmit_ok|done].
Qed.
End Pipeline.

(** ** The count of the batch's bytes *)

Section Count.
Context `{!Crates} `{!CratesLaw} {R : Type} `{!Rng R} `{!Crc}.
Context {Q : Type} `{!ArrayQueue Buffer Q}.
Context {C : Type} `{!Clock C}.
Context {E N : Type} `{!PacketConn E N, !SocketLog E N}.
Implicit Types (t : TxPipeline (R := R) (Q := Q) (C := C) (E := E) (N := N)) (buffer : PacketBuf) (bodies : list (list Z)).

Definition counted t : Prop :=
  tx_bytes_to_send t = sum_list (pb_len <$> tx_queue t) /\ Forall (fun d => (length d <= MTU_LIMIT)%nat) (on_wire (tx_conn t)).

(** Steps that leave the batch alone. *)
Definition same_batch t t' : Prop :=
  tx_bytes_to_send t' = tx_bytes_to_send t /\ tx_queue t' = tx_queue t /\ tx_conn t' = tx_conn t.

#[export] Instance same_batch_refl : Reflexive same_batch.
Proof. intros t. by split_and!. Qed.
#[export] Instance same_batch_trans : Transitive same_batch.
Proof. intros t1 t2 t3 (A1 & A2 & A3) (B1 & B2 & B3). split_and!; congruence. Qed.

Lemma same_batch_counted t t' : same_batch t t' -> counted t -> counted t'.
Proof. intros (E1 & E2 & E3) [A1 A2]. unfold counted. by rewrite E1, E2, E3. Qed.

Lemma pooled_copy_batch src t b t' : pooled_copy src t = Ok (b, t') -> same_batch t t'.
Proof.
  unfold pooled_copy. destruct (pool_get (length src) (tx_pool t)) as [b0 pool]. case_goal; [|done]. by intros [= <- <-].
Qed.

Lemma copy_shards_batch shards : forall t t', copy_shards shards t = Ok t' -> same_batch t t'.
Proof.
  induction shards as [|x shards IH]; intros t t'; cbn [copy_shards]; [by intros [= <-]|].
  destruct (pooled_copy x t) as [[b t1]| |] eqn:Ep; cbn [mbind result_bind]; try done. intros Ec%IH.
  etrans; [by eapply pooled_copy_batch|]. exact Ec.
Qed.

Lemma process_fec_batch buffer oob t r t' : process_fec buffer oob t = Ok (r, t') -> same_batch t t'.
Proof.
  unfold process_fec. destruct (tx_fec_encoder t) as [e|]; [|by intros [= _ <-]]. destruct oob.
  - destruct (encode_oob (as_slice buffer) e); [by intros [= _ <-]..|done].
  - destruct (monotonic_now_ms (tx_clock t)) as [now clock]. cbv zeta.
    destruct (encode _ _ _ _ _) as [[[[shards b] e'] snmp]| |]; [|by intros [= _ <-]|done].
    destruct (copy_shards _ _) as [t1| |] eqn:Ec; cbn [mbind result_bind]; try done. intros [= _ <-].
    by apply copy_shards_batch in Ec.
Qed.

Lemma batch_bytes_snoc q b : sum_list (pb_len <$> q ++ [b]) = (sum_list (pb_len <$> q) + pb_len b)%nat.
Proof. induction q as [|b0 q IH]; [cbn; lia|]. change (pb_len b0 + sum_list (pb_len <$> q ++ [b]) = pb_len b0 + sum_list (pb_len <$> q) + pb_len b)%nat. lia. Qed.

Lemma queue_push_counted buffer t : counted t -> counted (queue_push buffer t).
Proof.
  intros [E1 E2]. split; [|done]. change (tx_bytes_to_send t + pb_len buffer = sum_list (pb_len <$> tx_queue t ++ [buffer]))%nat.
  by rewrite batch_bytes_snoc, E1.
Qed.

Lemma queue_pushes_counted ps t : counted t -> counted (foldl (fun t p => queue_push p t) t ps).
Proof. revert t; induction ps as [|p ps IH]; intros t Ht; [done|]. cbn [foldl]. by apply IH, queue_push_counted. Qed.

Lemma queue_dups_counted original dup : forall t t', counted t -> queue_dups dup original t = Ok t' -> counted t'.
Proof.
  induction dup as [|dup IH]; intros t t' Ht; cbn [queue_dups]; [by intros [= <-]|].
  destruct (pooled_copy original t) as [[b t1]| |] eqn:Ep; cbn [mbind result_bind]; try done.
  apply IH, queue_push_counted. by eapply same_batch_counted, Ht; eapply pooled_copy_batch.
Qed.

Lemma process_counted request t t' : counted t -> process request t = Ok t' -> counted t'.
Proof.
  intros Ht. unfold process. destruct (process_fec _ _ t) as [[r t1]| |] eqn:Ef; cbn [mbind result_bind]; try done.
  pose proof (same_batch_counted _ _ (process_fec_batch _ _ _ _ _ Ef) Ht) as Ht1. destruct r as [buffer|]; [|by intros [= <-]].
  unfold process_seal. destruct (seal_packet _ buffer _) as [[ok b2] r2]. destruct (if ok then _ else _) as [[ok' ps] r3].
  destruct ok'; cbn [negb]; [|by intros [= <-]]. cbv zeta.
  destruct (queue_dups _ _ _) as [t3| |] eqn:Eq; cbn [mbind result_bind]; try done. intros [= <-].
  apply queue_pushes_counted. eapply queue_dups_counted in Eq; [exact Eq|]. by apply queue_push_counted.
Qed.

(** What a batch sends fits the buffers. *)
Lemma transmit_counted mode block bodies t : tx_inv mode block bodies t -> counted t -> counted (transmit_batch t) /\ tx_queue (transmit_batch t) = [].
Proof.
  intros Hi [E1 E2]. destruct (transmit_ok mode block bodies t Hi) as [_ Eq]. split; [|done].
  unfold transmit_batch in *. destruct (tx_queue t) as [|b q] eqn:Et; [split; [unfold field_update; cbn; by rewrite Et|done]|].
  pose proof (send_loop_ok (fun d => (length d <= MTU_LIMIT)%nat) (length (as_slice <$> b :: q)) (as_slice <$> b :: q) 0 0 t) as Hl. cbv zeta in Hl.
  destruct (send_loop_batch _ _ 0 0 t) as [[np nb] t1]. cbn [snd] in Hl. destruct Hl as (A1 & _); [|done|].
  - pose proof (ti_queue _ _ _ _ Hi) as Hq. rewrite Et in Hq. rewrite Forall_fmap. eapply Forall_impl; [exact Hq|]. cbv beta. intros x [Hx _]. cbn.
    rewrite length_as_slice by done. apply Hx.
  - split; [done|exact A1].
Qed.

Lemma batch_bytes_bound q : Forall pb_ok q -> (sum_list (pb_len <$> q) <= length q * MTU_LIMIT)%nat.
Proof.
  induction 1 as [|b q [_ Hb] _ IH]; [done|]. change (pb_len b + sum_list (pb_len <$> q) <= MTU_LIMIT + length q * MTU_LIMIT)%nat. lia.
Qed.
End Count.
