(* ===== verification/Session.v ===== *)
(** * The session: [session.rs]

    [UdpSession] over the KCP state machine: reading and writing the byte stream, the incoming
    half of the packet pipeline (decryption, FEC, KCP), out-of-band packets, the flush of the
    updater, closing and the options.  An operation is one locked section of the source; what
    it does to the outside - waking a reader or writer, calling the out-of-band handler,
    closing the socket - is the list of [Effect]s it returns.  Waiting (deadlines, the
    notifications themselves) belongs to the asynchronous runtime and is not modelled. *)
From stdpp Require Import base list.
From Stdlib Require Import ZArith Lia.
From S2P Require Import Prelude Word Env Segment Queue Heap KcpState KcpSend KcpFlush KcpInput Fec CipherWord.
From S2P Require Import Cfb Crypt BufPool Packet Tx.
Local Open Scope Z_scope.

Definition CONV_SIZE : nat := 4.
Definition MIN_PACKET_SIZE : nat :=
  if (IKCP_OVERHEAD <? Z.of_nat (FEC_HEADER_SIZE_PLUS2 + CONV_SIZE))%Z then Z.to_nat IKCP_OVERHEAD
  else (FEC_HEADER_SIZE_PLUS2 + CONV_SIZE)%nat.
Definition FEC_FLAG_OFFSET : nat := 4.

(** [timeout], [closed_pipe], [oob_requires_fec], [oob_payload_too_large], and a socket's error. *)
Inductive session_error (E : Type) :=
| Timeout
| ClosedPipe
| OobRequiresFec
| OobPayloadTooLarge
| InvalidOperation
| SocketError (err : E).
Arguments Timeout {E}.
Arguments ClosedPipe {E}.
Arguments OobRequiresFec {E}.
Arguments OobPayloadTooLarge {E}.
Arguments InvalidOperation {E}.
Arguments SocketError {E}.

(** [SessionError]. *)
Inductive SessionError := FecFailed (err : FecError) | OverheadTooLarge.

(** What an operation does besides changing the session. *)
Inductive Effect (Hd : Type) :=
| NotifyRead
| NotifyWrite
| CallOob (callback : Hd) (payload : list Z)
| CloseSession
| CloseConn.
Arguments NotifyRead {Hd}.
Arguments NotifyWrite {Hd}.
Arguments CallOob {Hd}.
Arguments CloseSession {Hd}.
Arguments CloseConn {Hd}.

(** [session.rs:copy]: what [dst] becomes, and how many bytes were copied. *)
Definition copy (dst src : list Z) : nat * list Z :=
  let n := Nat.min (length dst) (length src) in (n, take n src ++ drop n dst).

Section Session.
Context `{!Crates} `{!Crc} {C : Type} `{Clock C}.
(** The socket's errors and the out-of-band handlers. *)
Context {E Hd : Type}.

Record SessionState := mkSessionState {
  ss_kcp : Kcp KcpOutput C;
  ss_fec_decoder : option FecDecoder;
  ss_recvbuf : list Z;
  ss_recvcap : nat;          (** [recvbuf.capacity()] *)
  ss_bufptr : nat;
  ss_ack_no_delay : bool;
  ss_write_delay : bool;
}.
#[export] Instance eta_session_state : EtaRecord SessionState := fun s =>
  mkSessionState (ss_kcp s) (ss_fec_decoder s) (ss_recvbuf s) (ss_recvcap s) (ss_bufptr s) (ss_ack_no_delay s) (ss_write_delay s).

(** The counters are the process's, kept in the state machine ([k_snmp]). *)
Record UdpSession := mkUdpSession {
  us_state : SessionState;
  us_block : option PacketCrypt;
  us_header_size : nat;
  us_fec_enabled : bool;
  us_conv : Z;
  us_own_conn : bool;
  us_listener : bool;
  us_die : bool;
  us_die_once : bool;
  us_read_error : ErrorSlot E;
  us_write_error : ErrorSlot E;
  us_oob_handler : option Hd;
}.
#[export] Instance eta_session : EtaRecord UdpSession := fun s =>
  mkUdpSession (us_state s) (us_block s) (us_header_size s) (us_fec_enabled s) (us_conv s) (us_own_conn s) (us_listener s)
    (us_die s) (us_die_once s) (us_read_error s) (us_write_error s) (us_oob_handler s).

Implicit Types (s : UdpSession) (state : SessionState) (kcp : Kcp KcpOutput C).

Definition us_kcp s : Kcp KcpOutput C := ss_kcp (us_state s).
Definition with_kcp (kcp : Kcp KcpOutput C) s : UdpSession := s <| us_state := (us_state s) <| ss_kcp := kcp |> |>.

(** A counter that counts [n] more: [DEFAULT_SNMP.c.fetch_add(n)]. *)
Definition count_kcp (f : Snmp -> Snmp) kcp : Kcp KcpOutput C := kcp <| k_snmp := f (k_snmp kcp) |>.
Definition count (f : Snmp -> Snmp) s : UdpSession := with_kcp (count_kcp f (us_kcp s)) s.

(** ** Building a session *)

(** [set_kcp_mtu]. *)
Definition set_kcp_mtu (mtu : Z) (header_size : nat) (block : option PacketCrypt) kcp : bool * Kcp KcpOutput C :=
  let mtu := Z.min mtu (Z.of_nat MTU_LIMIT) in
  let mtu := mtu - Z.of_nat header_size in
  let mtu := mtu - Z.of_nat (crypt_trailer block) in
  let '(c, kcp) := set_mtu mtu kcp in (c =? 0, kcp).

(** The counters of a new session. *)
Definition count_open (listener : bool) (snmp : Snmp) : Snmp :=
  let snmp :=
    if listener then snmp <| passive_opens := fetch_add (passive_opens snmp) 1 |>
    else snmp <| active_opens := fetch_add (active_opens snmp) 1 |> in
  let currestab := u64 (curr_estab snmp + 1) in
  let snmp := snmp <| curr_estab := currestab |> in
  if max_conn snmp <? currestab then snmp <| max_conn := currestab |> else snmp.

(** [UdpSession::new], with the channel of a task that runs; the task itself is [tx_new]. *)
Definition session_new (conv data_shards parity_shards : Z) (own_conn listener : bool) (block : option PacketCrypt)
    (clock : C) (drained : list nat) (snmp : Snmp) : result SessionError (UdpSession * option FecEncoder) :=
  let header_size := crypt_header block in
  match fec_decoder_new data_shards parity_shards, fec_encoder_new data_shards parity_shards header_size with
  | Panic, _ | _, Panic => Panic
  | Err e, _ => match e : Empty_set with end
  | _, Err e => Err (FecFailed e)
  | Ok fec_decoder, Ok fec_encoder =>
      let fec_enabled := match fec_encoder with Some _ => true | None => false end in
      let header_size := if fec_enabled then (header_size + FEC_HEADER_SIZE_PLUS2)%nat else header_size in
      let kcp := with_clock conv (mkKcpOutput header_size (mkChannel false DEV_BACKLOG [] [] drained)) clock snmp in
      let '(fits, kcp) := set_kcp_mtu IKCP_MTU_DEF header_size block kcp in
      if negb fits then Err OverheadTooLarge
      else
        let kcp := count_kcp (count_open listener) kcp in
        Ok ({|
          us_state := mkSessionState kcp fec_decoder (replicate MTU_LIMIT 0) MTU_LIMIT MTU_LIMIT false false;
          us_block := block; us_header_size := header_size; us_fec_enabled := fec_enabled; us_conv := conv;
          us_own_conn := own_conn; us_listener := listener; us_die := false; us_die_once := false;
          us_read_error := error_slot_new; us_write_error := error_slot_new; us_oob_handler := None;
        |}, fec_encoder)
  end.

(** ** Reading *)

(** [bufptr_len]. *)
Definition bufptr_len state : nat := (length (ss_recvbuf state) - ss_bufptr state)%nat.

Definition count_received (n : Z) (snmp : Snmp) : Snmp :=
  snmp <| bytes_received := fetch_add (bytes_received snmp) n |>.

(** [try_read]: the count, and the caller's buffer; [None] when there is nothing to read. *)
Definition try_read (b : list Z) s : option nat * list Z * UdpSession :=
  let state := us_state s in
  if (0 <? bufptr_len state)%nat then
    let '(n, b) := copy b (drop (ss_bufptr state) (ss_recvbuf state)) in
    let s := s <| us_state := state <| ss_bufptr := (ss_bufptr state + n)%nat |> |> in
    (Some n, b, count (count_received (Z.of_nat n)) s)
  else
    let size := peek_size (ss_kcp state) in
    if 0 <? size then
      let size := Z.to_nat size in
      if (size <=? length b)%nat then
        let '(_, b, kcp) := recv b (ss_kcp state) in
        let s := s <| us_state := state <| ss_kcp := kcp |> |> in
        (Some size, b, count (count_received (Z.of_nat size)) s)
      else
        let state :=
          if (ss_recvcap state <? size)%nat then state <| ss_recvbuf := replicate size 0 |> <| ss_recvcap := size |>
          else state in
        let state := state <| ss_recvbuf := resize size 0 (ss_recvbuf state) |> in
        let '(_, recvbuf, kcp) := recv (ss_recvbuf state) (ss_kcp state) in
        let state := state <| ss_recvbuf := recvbuf |> <| ss_kcp := kcp |> in
        let '(n, b) := copy b (ss_recvbuf state) in
        let s := s <| us_state := state <| ss_bufptr := n |> |> in
        (Some n, b, count (count_received (Z.of_nat n)) s)
    else (None, b, s).

(** The error a blocked [read] wakes up to, once the slot is filled or the session closed. *)
Definition read_wakes s : list (session_error E) :=
  (match us_read_error s with Some err => [SocketError err] | None => [] end) ++
  (if us_die s then [ClosedPipe] else []).

(** ** Writing *)

(** The inner loop of [try_write] over one slice, which cuts it at [mss]; each round takes
    bytes off when [mss] is not 0. *)
Fixpoint write_slice_kcp (fuel : nat) (b : list Z) kcp : Kcp KcpOutput C :=
  match fuel with
  | O => kcp
  | S fuel =>
      let mss := Z.to_nat (k_mss kcp) in
      if (length b <=? mss)%nat then snd (send b kcp)
      else write_slice_kcp fuel (drop mss b) (snd (send (take mss b) kcp))
  end.
Definition write_fuel (b : list Z) : nat := S (length b).

Definition write_slices (v : list (list Z)) kcp : Kcp KcpOutput C :=
  foldl (fun kcp b => write_slice_kcp (write_fuel b) b kcp) kcp v.

Definition count_sent (n : Z) (snmp : Snmp) : Snmp := snmp <| bytes_sent := fetch_add (bytes_sent snmp) n |>.

Definition window_full kcp : bool := k_snd_wnd kcp <=? Z.of_nat (wait_snd kcp).

(** [try_write]. *)
Definition try_write (v : list (list Z)) s : option nat * UdpSession :=
  let kcp := us_kcp s in
  if window_full kcp then (None, s)
  else
    let n := sum_list (length <$> v) in
    let kcp := write_slices v kcp in
    let kcp := if window_full kcp || negb (ss_write_delay (us_state s)) then snd (flush Full kcp) else kcp in
    (Some n, with_kcp (count_kcp (count_sent (Z.of_nat n)) kcp) s).

(** One pass of [write_buffers]: it fails, writes everything, or has to wait. *)
Inductive write_result := WriteFails (err : session_error E) | Written (n : nat) | WriteWaits.

Definition write_buffers (v : list (list Z)) s : write_result * UdpSession :=
  match us_write_error s with
  | Some err => (WriteFails (SocketError err), s)
  | None =>
      if us_die s then (WriteFails ClosedPipe, s)
      else
        match try_write v s with
        | (Some n, s) => (Written n, s)
        | (None, s) => (WriteWaits, s)
        end
  end.

(** ** The incoming packets *)

(** [Wakeups::of], and the notifications [wake] sends. *)
Definition wakeups state : list (Effect Hd) :=
  (if 0 <? peek_size (ss_kcp state) then [NotifyRead] else []) ++
  (if window_full (ss_kcp state) then [] else [NotifyWrite]).

Definition count_errors (n : Z) (snmp : Snmp) : Snmp := snmp <| kcp_in_errors := fetch_add (kcp_in_errors snmp) n |>.

(** Feeding a packet to the state machine; whether it was refused. *)
Definition feed (pt : PacketType) (data : list Z) state : bool * SessionState :=
  let '(c, kcp) := input data pt (ss_ack_no_delay state) (ss_kcp state) in
  (negb (c =? 0), state <| ss_kcp := kcp |>).

(** The loop over the recovered packets: each in its own size field. *)
Fixpoint feed_recovered (recovers : list (list Z)) (kcp_in_errors : Z) state : Z * SessionState :=
  match recovers with
  | [] => (kcp_in_errors, state)
  | r :: recovers =>
      let '(bad, state) :=
        if (2 <=? length r)%nat then
          let sz := Z.to_nat (le_val (take 2 r)) in
          if (sz <=? length r)%nat && (2 <=? sz)%nat then feed KcpState.Fec (drop 2 (take sz r)) state else (false, state)
        else (false, state) in
      feed_recovered recovers (if (bad : bool) then kcp_in_errors + 1 else kcp_in_errors) state
  end.

(** The decoder's turn: what it recovered. *)
Definition session_decode (data : list Z) state : io (list (list Z) * SessionState) :=
  match ss_fec_decoder state with
  | None => Ok ([], state)
  | Some decoder =>
      r ← decode data decoder (k_snmp (ss_kcp state));
      let '(recovers, decoder, snmp) := r in
      Ok (recovers, state <| ss_fec_decoder := Some decoder |> <| ss_kcp := (ss_kcp state) <| k_snmp := snmp |> |>)
  end.

(** The branch of [kcp_input] for a packet with FEC. *)
Definition fec_input (fec_flag : Z) (data : list Z) s : io (list (Effect Hd) * UdpSession) :=
  if (length data <? FEC_HEADER_SIZE_PLUS2)%nat then
    Ok ([], count (fun snmp => snmp <| in_errs := fetch_add (in_errs snmp) 1 |>) s)
  else
    let state := us_state s in
    fec_decoder ← (match ss_fec_decoder state with None => fec_decoder_new 1 1 | Some d => Ok (Some d) end);
    let state := state <| ss_fec_decoder := fec_decoder |> in
    let '(bad, state) :=
      if fec_flag =? TYPE_DATA then feed Regular (drop FEC_HEADER_SIZE_PLUS2 data) state else (false, state) in
    let kcp_in_errors := if (bad : bool) then 1 else 0 in
    r ← session_decode data state;
    let '(recovers, state) := r in
    let '(kcp_in_errors, state) := feed_recovered recovers kcp_in_errors state in
    let wake := wakeups state in
    let s := s <| us_state := state |> in
    Ok (wake, if 0 <? kcp_in_errors then count (count_errors kcp_in_errors) s else s).

(** [kcp_input]. *)
Definition kcp_input (data : list Z) s : io (list (Effect Hd) * UdpSession) :=
  let s := count (fun snmp => snmp <| in_pkts := fetch_add (in_pkts snmp) 1 |>) s in
  let s := count (fun snmp => snmp <| in_bytes := fetch_add (in_bytes snmp) (zlen data) |>) s in
  if (length data <? FEC_FLAG_OFFSET + 2)%nat then Ok ([], s)
  else
    let fec_flag := le_val (take 2 (drop FEC_FLAG_OFFSET data)) in
    if (fec_flag =? TYPE_DATA) || (fec_flag =? TYPE_PARITY) then fec_input fec_flag data s
    else if fec_flag =? TYPE_OOB then
      let s := count (fun snmp => snmp <| oob_packets := fetch_add (oob_packets snmp) 1 |>) s in
      let called :=
        match us_oob_handler s with
        | None => []
        | Some callback =>
            if (length data <? FEC_HEADER_SIZE_PLUS2 + CONV_SIZE)%nat then []
            else [CallOob callback (drop (FEC_HEADER_SIZE_PLUS2 + CONV_SIZE) data)]
        end in
      Ok (called, s)
    else
      let '(bad, state) := feed Regular data (us_state s) in
      let s := s <| us_state := state |> in
      let s := if (bad : bool) then count (count_errors 1) s else s in
      Ok (wakeups state, s).

(** [packet_input]: a datagram. *)
Definition packet_input (data : list Z) s : io (list (Effect Hd) * UdpSession) :=
  let '(r, snmp) := decrypt_packet (us_block s) data (k_snmp (us_kcp s)) in
  let s := count (fun _ => snmp) s in
  match r with
  | None => Ok ([], s)
  | Some data =>
      if (length data <? MIN_PACKET_SIZE)%nat then Ok ([], count (count_errors 1) s)
      else kcp_input data s
  end.

(** ** The updater, closing and the options *)

(** [update]: the time until the next one. *)
Definition update_session s : Z * list (Effect Hd) * UdpSession :=
  let '(interval, kcp) := flush Full (us_kcp s) in
  (interval, if window_full kcp then [] else [NotifyWrite], with_kcp kcp s).

(** [shrink_idle] apart from the spare capacity of the state machine's queues. *)
Definition shrink_recvbuf s : bool * UdpSession :=
  let state := us_state s in
  if (length (ss_recvbuf state) <=? ss_bufptr state)%nat && (MTU_LIMIT <? ss_recvcap state)%nat then
    (true, s <| us_state := state <| ss_recvbuf := [] |> <| ss_recvcap := 0%nat |> <| ss_bufptr := 0%nat |> |>)
  else (false, s).

(** [close]. *)
Definition close s : session_error E + list (Effect Hd) * UdpSession :=
  if us_die_once s then inl ClosedPipe
  else
    let s := s <| us_die_once := true |> in
    let s := count (fun snmp => snmp <| curr_estab := u64 (curr_estab snmp - 1) |>) s in
    let s := with_kcp (snd (flush Full (us_kcp s))) s in
    let s := s <| us_die := true |> in
    inr (if us_listener s then [CloseSession] else if us_own_conn s then [CloseConn] else [], s).

(** [notify_read_error]. *)
Definition notify_read_error (err : E) s : UdpSession := s <| us_read_error := snd (error_slot_set err (us_read_error s)) |>.

Definition set_write_delay (delay : bool) s : UdpSession := s <| us_state := (us_state s) <| ss_write_delay := delay |> |>.
Definition set_window_size (sndwnd rcvwnd : Z) s : UdpSession := with_kcp (snd (wnd_size sndwnd rcvwnd (us_kcp s))) s.
Definition session_set_mtu (mtu : Z) s : bool * UdpSession :=
  let '(fits, kcp) := set_kcp_mtu mtu (us_header_size s) (us_block s) (us_kcp s) in (fits, with_kcp kcp s).
Definition set_stream_mode (enable : bool) s : UdpSession :=
  with_kcp ((us_kcp s) <| k_stream := if enable then 1 else 0 |>) s.
Definition set_ack_no_delay (nodelay : bool) s : UdpSession := s <| us_state := (us_state s) <| ss_ack_no_delay := nodelay |> |>.
Definition set_no_delay (nodelay_ interval resend nc : Z) s : UdpSession :=
  with_kcp (snd (nodelay nodelay_ interval resend nc (us_kcp s))) s.

Definition get_conv s : Z := us_conv s.
Definition get_rto s : Z := k_rx_rto (us_kcp s).
Definition get_srtt s : Z := k_rx_srtt (us_kcp s).
Definition get_srttvar s : Z := k_rx_rttvar (us_kcp s).

(** ** Out-of-band packets *)

(** [get_oob_max_size]; the subtraction is of [usize]s, and the MTU is 50 at least. *)
Definition get_oob_max_size s : nat :=
  if negb (us_fec_enabled s) then 0 else (Z.to_nat (k_mtu (us_kcp s)) - CONV_SIZE)%nat.

(** [send_oob]: the packet is the conversation and the payload, behind the room for the headers. *)
Definition send_oob (data : list Z) s : result (session_error E) UdpSession :=
  if negb (us_fec_enabled s) then Err OobRequiresFec
  else
    let size := (CONV_SIZE + length data)%nat in
    if k_mtu (us_kcp s) <? Z.of_nat size then Err OobPayloadTooLarge
    else if (MTU_LIMIT <? size + us_header_size s)%nat then Err OobPayloadTooLarge
    else
      let body := le_bytes 4 (k_conv (us_kcp s)) ++ data in
      let o := k_output (us_kcp s) in
      let '(outcome, tx) := channel_send (mkMessage true body) (ko_tx o) in
      let s := with_kcp ((us_kcp s) <| k_output := mkKcpOutput (ko_header_size o) tx |>) s in
      match outcome with
      | Queued | Dropped => Ok s
      | Closed => Err ClosedPipe
      end.

(** [set_oob_handler]. *)
Definition set_oob_handler (callback : option Hd) s : result (session_error E) UdpSession :=
  if negb (us_fec_enabled s) then Err OobRequiresFec else Ok (s <| us_oob_handler := callback |>).
End Session.

(** ** [SourceFilter]: which datagrams the read loop accepts *)

(** [addr.rs:unmap], [scope_id], [ip_equal], [same_udp_addr]. *)
Definition unmap (ip : IpAddr) : IpAddr :=
  match ip with
  | IpV6 v6 => match to_ipv4_mapped v6 with Some v4 => IpV4 v4 | None => ip end
  | IpV4 _ => ip
  end.
Definition scope_id (addr : SocketAddr) : Z := match sa_ip addr with IpV6 _ => sa_scope addr | IpV4 _ => 0 end.
Definition ip_equal (a b : IpAddr) : bool := bool_decide (unmap a = unmap b).
Definition same_udp_addr (a b : SocketAddr) : bool :=
  (sa_port a =? sa_port b) && (scope_id a =? scope_id b) && ip_equal (sa_ip a) (sa_ip b).

Record SourceFilter := mkSourceFilter { sf_src : option SocketAddr; sf_strict : bool }.

(** [SourceFilter::accept]. *)
Definition accept (addr : option SocketAddr) (f : SourceFilter) (snmp : Snmp) : bool * SourceFilter * Snmp :=
  match sf_src f with
  | None => (true, mkSourceFilter addr (sf_strict f), snmp)
  | Some src =>
      if match addr with Some addr => same_udp_addr src addr | None => false end then (true, f, snmp)
      else if negb (sf_strict f) then (true, f, snmp)
      else (false, f, snmp <| in_errs := fetch_add (in_errs snmp) 1 |>)
  end.
