(* ===== verification/SessionSpec.v ===== *)
(** * What a session does to its state machine

    A session's locked sections, seen from the machine ([k_moves]): calls of its operations,
    with data from the network, and changes of what the machine does not look at - the
    counters, the mode of [send], and the channel, which takes out-of-band messages.  The
    invariants of two connections ([KcpPeers]) hold over such moves; the rest of the file
    gives each section of [Session] as moves, with the bytes it takes and hands out.

    At the end, the incoming half of the pipeline ([packet_input], [kcp_input]) as moves of the
    machine, for any notion of a good FEC packet and of a good decoder: [GoodFec] says what is
    asked of them.  Two uses: packets of a peer's FEC stream ([FecRun]), whose recovered packets
    are the peer's, and packets of any bytes. *)
From stdpp Require Import base list.
From Stdlib Require Import ZArith Lia.
From S2P Require Import Prelude Word Env Segment Queue Heap KcpState KcpSend KcpFlush KcpInput KcpInv KcpWriter.
From S2P Require Import KcpFlushInv KcpSink KcpDelivery KcpStream KcpSpec KcpSource KcpAcked KcpPeers.
From S2P Require Import Codec Fec FecLayout FecDecoderSpec FecRun CipherWord Cfb Crypt BufPool Packet Tx TxSpec Session.
Local Open Scope Z_scope.

(** ** The channel only grows *)

(** Whether out-of-band messages are allowed: they need FEC. *)
Class OobAllowed := oob_allowed : bool.

Section Messages.
Context `{OobAllowed}.

Definition message_ok (h : nat) (m : ChannelMessage) : Prop :=
  (h + length (cm_body m) <= MTU_LIMIT)%nat /\ bytes (cm_body m) /\ (cm_oob m = true -> oob_allowed = true).
Definition output_grows (o o' : KcpOutput) : Prop :=
  ko_header_size o' = ko_header_size o /\
  exists more, ch_sent (ko_tx o') = ch_sent (ko_tx o) ++ more /\ Forall (message_ok (ko_header_size o)) more.

#[export] Instance output_grows_refl : Reflexive output_grows.
Proof. intros o. split; [done|]. exists []. by rewrite app_nil_r. Qed.
#[export] Instance output_grows_trans : Transitive output_grows.
Proof.
  intros o1 o2 o3 (H1 & m1 & E1 & F1) (H2 & m2 & E2 & F2). split; [congruence|]. exists (m1 ++ m2).
  rewrite E2, E1, (assoc_L (++)). split; [done|]. apply Forall_app. rewrite <- H1 at 2. done.
Qed.

Lemma channel_send_grows m o : exists more, ch_sent (snd (channel_send m o)) = ch_sent o ++ more /\ (more = [] \/ more = [m]).
Proof.
  unfold channel_send. destruct (ch_closed o); [exists []; rewrite app_nil_r; auto|].
  destruct (ch_room o); [exists []; rewrite app_nil_r; auto|exists [m]; auto].
Qed.

Lemma output_output_grows o p : bytes p -> output_grows o (output o p).
Proof.
  intros Hb. change (output o p) with (kcp_output_output o p). unfold kcp_output_output. destruct (Nat.ltb_spec (length p) 24); [done|].
  destruct (Nat.ltb_spec MTU_LIMIT (ko_header_size o + length p)) as [|Hl]; [done|]. split; [done|]. cbn [ko_tx ko_header_size].
  destruct (channel_send_grows (mkMessage false p) (ko_tx o)) as (more & -> & [-> | ->]); eexists; (split; [done|]); [done|].
  by apply Forall_singleton.
Qed.

Lemma output_capacity_grows o : output_grows o (snd (capacity o)).
Proof.
  change (capacity o) with (kcp_output_capacity o). unfold kcp_output_capacity, channel_capacity.
  destruct (ch_closed (ko_tx o)); (split; [done|]); exists []; by rewrite app_nil_r.
Qed.

End Messages.

(** ** Moves *)

Section Moves.
Context `{OobAllowed} {C : Type} `{Clock C}.
Implicit Types (k : Kcp KcpOutput C).

Lemma kcp_step_grows op k : op_ok op -> kcp_wf k -> output_grows (k_output k) (k_output (snd (kcp_step op k))).
Proof.
  intros Hop Hwf. apply (kcp_step_ind (fun k' => output_grows (k_output k) (k_output k'))); try done.
  - by intros k1 k2 (_ & _ & _ & -> & _).
  - intros ft k1 Hwf1 Hg. etrans; [exact Hg|].
    apply (flush_packets (output_grows (k_output k1)) (sendable (k_conv k1)) False (k_mtu k1)) with (P := fun _ => True); try done.
    + intros o p (_ & segs & _ & Hs & ->) Ho. etrans; [exact Ho|]. by eapply output_output_grows, wire_u8.
    + intros o Ho. etrans; [exact Ho|apply output_capacity_grows].
    + by apply Forall_forall.
  - intros b ->. destruct (send_frame b k) as (-> & _). done.
  - intros m ->. by rewrite set_mtu_output.
Qed.

(** The same machine but for what its invariants do not look at. *)
Definition same_machine k k' : Prop :=
  exists snmp stream o, k' = k <| k_snmp := snmp |> <| k_stream := stream |> <| k_output := o |> /\
    sent o = sent (k_output k) /\ output_grows (k_output k) o.

Lemma same_machine_wf k k' : same_machine k k' -> kcp_wf k -> kcp_wf k'.
Proof.
  intros (snmp & stream & o & -> & _) Hwf. wf_open Hwf; wf_same. destruct wf_snd0; by constructor.
Qed.

(** [k_moves N k t r k']: [t] is what the application gave and [r] what it got, the packets fed
    to the machine hold [N]. *)
Inductive k_moves (N : list Z -> Prop) : Kcp KcpOutput C -> list Z -> list Z -> Kcp KcpOutput C -> Prop :=
| moves_refl k : k_moves N k [] [] k
| moves_op op k t r k' : op_ok op -> match op with OpInput data _ _ => N data | _ => True end ->
    k_moves N (snd (kcp_step op k)) t r k' -> k_moves N k (taken_bytes op k ++ t) (ret_bytes (fst (kcp_step op k)) ++ r) k'
| moves_same k k1 t r k' : same_machine k k1 -> k_moves N k1 t r k' -> k_moves N k t r k'.

Lemma moves_trans N k t r k1 t1 r1 k2 : k_moves N k t r k1 -> k_moves N k1 t1 r1 k2 -> k_moves N k (t ++ t1) (r ++ r1) k2.
Proof.
  induction 1; intros Hm; [done| |].
  - rewrite <- !(assoc_L (++)). constructor; auto.
  - econstructor; eauto.
Qed.

Lemma moves_step N op k : op_ok op -> match op with OpInput data _ _ => N data | _ => True end ->
  k_moves N k (taken_bytes op k) (ret_bytes (fst (kcp_step op k))) (snd (kcp_step op k)).
Proof. intros Hop HN. rewrite <- (app_nil_r (taken_bytes op k)), <- (app_nil_r (ret_bytes _)). constructor; try done. constructor. Qed.

Lemma moves_same_1 N k k' : same_machine k k' -> k_moves N k [] [] k'.
Proof. intros Hs. econstructor; [exact Hs|constructor]. Qed.

Lemma moves_mono (N N' : list Z -> Prop) k t r k' : (forall x, N x -> N' x) -> k_moves N k t r k' -> k_moves N' k t r k'.
Proof. intros HN. induction 1; econstructor; eauto. destruct op; auto. Qed.

Lemma moves_wf N k t r k' : k_moves N k t r k' -> kcp_wf k -> kcp_wf k'.
Proof.
  induction 1; intros Hwf; [done| |].
  - apply IHk_moves. by apply kcp_step_wf.
  - apply IHk_moves. by eapply same_machine_wf.
Qed.

Lemma moves_grow N k t r k' : k_moves N k t r k' -> kcp_wf k -> output_grows (k_output k) (k_output k').
Proof.
  induction 1 as [|op k t r k' Hop HN _ IH|k k1 t r k' Hs _ IH]; intros Hwf; [done| |].
  - etrans; [by apply kcp_step_grows|]. apply IH. by apply kcp_step_wf.
  - pose proof (same_machine_wf _ _ Hs Hwf). destruct Hs as (? & ? & o & -> & _ & Hg). etrans; [exact Hg|]. by apply IH.
Qed.

Lemma same_machine_snmp snmp k : same_machine k (k <| k_snmp := snmp |>).
Proof. exists snmp, (k_stream k), (k_output k). split_and!; [by destruct k|done|done]. Qed.
Lemma same_machine_stream x k : same_machine k (k <| k_stream := x |>).
Proof. exists (k_snmp k), x, (k_output k). split_and!; [by destruct k|done|done]. Qed.

(** ** Two ends *)

Implicit Types (p : Peers (O := KcpOutput) (C := C)) (log : bool -> list (Z * list Z)).

Lemma same_machine_peers c k' p log : same_machine (p c) k' -> sound log p ->
  sound log (set_peer c k' p) /\ (forall d, outbox (log d) (set_peer c k' p d) = outbox (log d) (p d)) /\
  forall L rlog, streams L rlog p -> streams L rlog (set_peer c k' p).
Proof.
  intros Hsame Hs. pose proof (same_machine_wf _ _ Hsame) as Hwf. destruct Hsame as (snmp & stream & o & -> & Eo & _).
  set (upd := fun k : Kcp KcpOutput C => k <| k_snmp := snmp |> <| k_stream := stream |> <| k_output := o |>).
  change (kcp_wf (p c) -> kcp_wf (upd (p c))) in Hwf. change ((p c) <| k_snmp := _ |> <| k_stream := _ |> <| k_output := _ |>) with (upd (p c)).
  assert (Hf : forall d, set_peer c (upd (p c)) p d = p d \/ d = c /\ set_peer c (upd (p c)) p d = upd (p d)).
  { intros d. destruct (Bool.bool_dec d c) as [->|Hd]; [right; by rewrite set_peer_same|left; by rewrite set_peer_other]. }
  set (p' := set_peer _ _ p) in *.
  assert (Hv : forall d, k_conv (p' d) = k_conv (p d)) by (intros d; destruct (Hf d) as [->|[_ ->]]; done).
  assert (Hsent : forall d, sent (k_output (p' d)) = sent (k_output (p d))) by (intros d; destruct (Hf d) as [->|[-> ->]]; done).
  split_and!.
  - intros d. destruct (Hs d) as (H1 & H2 & H3). rewrite !Hv. split_and!; [| |done].
    + destruct (Hf d) as [->|[-> ->]]; [done|by apply Hwf].
    + destruct H2 as (A1 & A2 & A3 & A4). unfold source_inv. rewrite Hsent, Hv. destruct (Hf d) as [->|[_ ->]]; done.
  - intros d. destruct (Hf d) as [->|[_ ->]]; done.
  - intros L rlog Hst d.
    assert (Hr : forall e, received rlog p' e = received rlog p e).
    { intros e. unfold received, rx_next. destruct (Hf e) as [->|[_ ->]]; done. }
    rewrite !Hr, Hsent, Hv. destruct (Hst d) as (B1 & B2 & n & B3). split_and!; [|done|].
    + destruct (Hf d) as [->|[-> ->]]; [done|]. destruct B1 as (? & ? & ? & ? & ?). split_and!; try done. by apply Hwf.
    + exists n. destruct (Hf d) as [->|[_ ->]]; done.
Qed.

Lemma sound_pext log log' p p' : (forall d, log d = log' d) -> (forall d, p d = p' d) -> sound log p -> sound log' p'.
Proof. intros El E Hs d. rewrite <- El, <- !E. apply Hs. Qed.
Lemma streams_pext L rlog p p' : (forall d, p d = p' d) -> streams L rlog p -> streams L rlog p'.
Proof. intros E Hs d. unfold received. rewrite <- !E. apply Hs. Qed.
Lemma set_peer_id c p d : p d = set_peer c (p c) p d.
Proof. unfold set_peer. by destruct (Bool.eqb_spec d c) as [->|]. Qed.
Lemma set_peer_twice c k1 k2 p d : set_peer c k2 (set_peer c k1 p) d = set_peer c k2 p d.
Proof. unfold set_peer. by destruct (Bool.eqb d c). Qed.

Lemma only_nil {A} (c : bool) (x : list A) d : x ++ only c [] d = x.
Proof. unfold only. destruct (Bool.eqb d c); apply app_nil_r. Qed.
Lemma only_app {A} (c : bool) (x a b : list A) d : x ++ only c (a ++ b) d = (x ++ only c a d) ++ only c b d.
Proof. unfold only. destruct (Bool.eqb d c); [apply (assoc_L (++))|by rewrite !app_nil_r]. Qed.
Lemma only_same {A} c (x : list A) : only c x c = x.
Proof. unfold only. by rewrite Bool.eqb_reflx. Qed.

(** One operation, as a step of the two ends. *)
Lemma op_peers c op p log : op_ok op -> match op with OpInput data _ _ => data ∈ sent (k_output (p (negb c))) | _ => True end ->
  sound log p -> let k' := snd (kcp_step op (p c)) in
  exists more, sound (fun d => log d ++ only c more d) (set_peer c k' p) /\
    outbox (log c ++ more) k' = outbox (log c) (p c) ++ taken_bytes op (p c) /\
    forall L rlog, (forall d, zlen (L d) <= 2147483648 /\ Forall entry_ok (L d) /\ exists m, L d = log d ++ m) -> streams L rlog p ->
      exists taken, streams L (fun d => rlog d ++ only c taken d) (set_peer c k' p) /\
        ret_bytes (fst (kcp_step op (p c))) = mjoin (snd <$> taken).
Proof.
  intros Hop HN Hs k'. destruct (Hs c) as (Hwf & Hsrc & Hconv).
  assert (Hcall : exists o, local_ok o /\ peers_call o p = Some (c, op)).
  { destruct (match op with OpInput _ _ _ => true | _ => false end) eqn:E; [|exists (Local c op); by destruct op].
    destruct op as [| |data pt nd| | | | | |]; try done.
    apply list_elem_of_lookup in HN as [n Hn]. exists (Arrive c n pt nd). split; [done|]. cbn [peers_call]. by rewrite Hn. }
  destruct Hcall as (o & Ho & Hc). destruct (peers_call_ok o p log c op Ho Hs Hc) as (_ & Hg & Hu).
  destruct (kcp_step_source op (log c) (p c) Hop Hwf Hsrc) as (more & Hsrc' & Hout). exists more. split_and!; [|done|].
  - intros d. pose proof (kcp_step_conv op (p c) Hop Hwf) as Hcv. destruct (Bool.bool_dec d c) as [->|Hd].
    + rewrite only_same, set_peer_same, set_peer_other by by destruct c. split_and!; [by apply kcp_step_wf|done|]. unfold k'. congruence.
    + assert (d = negb c) as -> by (destruct c, d; done). rewrite negb_involutive, set_peer_same, set_peer_other by done.
      unfold only. destruct (Bool.eqb_spec (negb c) c); [by destruct c|]. rewrite app_nil_r. destruct (Hs (negb c)) as (? & ? & E).
      rewrite negb_involutive in E. split_and!; [done|done|]. unfold k'. congruence.
  - intros L rlog HL Hst. destruct (HL (negb c)) as (Hlen & _ & m & Em).
    apply (streams_step L rlog p log c op Hs Hop Hst HL); [by apply (Hg _ m)|by apply (Hu L)].
Qed.

(** What a move means to the two streams. *)
Lemma moves_peers N c k t r k' : k_moves N k t r k' -> forall p log, p c = k ->
  (forall data, N data -> data ∈ sent (k_output (p (negb c)))) -> sound log p ->
  exists more, sound (fun d => log d ++ only c more d) (set_peer c k' p) /\
    outbox (log c ++ more) k' = outbox (log c) k ++ t /\
    forall L rlog, (forall d, zlen (L d) <= 2147483648 /\ Forall entry_ok (L d) /\ exists m, L d = (log d ++ only c more d) ++ m) ->
      streams L rlog p ->
      exists taken, streams L (fun d => rlog d ++ only c taken d) (set_peer c k' p) /\ r = mjoin (snd <$> taken).
Proof.
  induction 1 as [k|op k t r k' Hop Hn _ IH|k k1 t r k' Hsame _ IH]; intros p log Ek HN Hs.
  - exists []. subst k. split_and!.
    + eapply sound_pext; [| |exact Hs]; intros d; [symmetry; apply only_nil|apply set_peer_id].
    + by rewrite !app_nil_r.
    + intros L rlog _ Hst. exists []. split; [|done]. apply (streams_pext _ _ p); [apply set_peer_id|].
      eapply streams_ext; [|exact Hst]. intros d. apply only_nil.
  - subst k. destruct (op_peers c op p log Hop) as (m1 & Hs1 & Ho1 & Hr1); [destruct op; auto|done|].
    set (k1 := snd (kcp_step op (p c))) in *. set (p1 := set_peer c k1 p) in *.
    destruct (IH p1 (fun d => log d ++ only c m1 d)) as (m2 & Hs2 & Ho2 & Hr2).
    { unfold p1. apply set_peer_same. } { unfold p1. rewrite set_peer_other by by destruct c. done. } { done. }
    exists (m1 ++ m2). rewrite only_same in Ho2. split_and!.
    + eapply sound_pext; [| |exact Hs2]; intros d; [symmetry; apply only_app|apply set_peer_twice].
    + rewrite (assoc_L (++)), Ho2, Ho1. by rewrite (assoc_L (++)).
    + intros L rlog HL Hst. destruct (Hr1 L rlog) as (t1 & Hst1 & Er1); [|done|].
      { intros d. destruct (HL d) as (? & ? & m & E). split_and!; [done|done|]. exists (only c (m1 ++ m2) d ++ m). by rewrite E, (assoc_L (++)). }
      destruct (Hr2 L (fun d => rlog d ++ only c t1 d)) as (t2 & Hst2 & Er2); [|done|].
      { intros d. destruct (HL d) as (? & ? & m & E). split_and!; [done|done|]. exists m. by rewrite E, only_app. }
      exists (t1 ++ t2). split; [|by rewrite Er1, Er2, fmap_app, join_app].
      apply (streams_pext _ _ (set_peer c k' p1)); [intros e; apply set_peer_twice|].
      eapply streams_ext; [|exact Hst2]. intros d. apply only_app.
  - subst k. destruct (same_machine_peers c k1 p log Hsame Hs) as (Hs1 & Ho1 & Hst1). set (p1 := set_peer c k1 p) in *.
    destruct (IH p1 log) as (m2 & Hs2 & Ho2 & Hr2).
    { unfold p1. apply set_peer_same. } { unfold p1. rewrite set_peer_other by by destruct c. done. } { done. }
    exists m2. split_and!.
    + eapply sound_pext; [done| |exact Hs2]. intros d. apply set_peer_twice.
    + rewrite Ho2. f_equal. specialize (Ho1 c). unfold p1 in Ho1. by rewrite set_peer_same in Ho1.
    + intros L rlog HL Hst. destruct (Hr2 L rlog HL (Hst1 L rlog Hst)) as (t2 & Hst2 & Er2). exists t2. split; [|done].
      apply (streams_pext _ _ (set_peer c k' p1)); [intros e; apply set_peer_twice|done].
Qed.
End Moves.

(** ** The sections of a session *)

Section Sections.
Context `{OobAllowed} `{!Crates} `{!Crc} {C : Type} `{Clock C} {E Hd : Type}.
Implicit Types (k : Kcp KcpOutput C) (s : UdpSession (C := C) (E := E) (Hd := Hd)) (N : list Z -> Prop).

(** What [try_read] took from the machine and has not handed out. *)
Definition pending s : list Z := drop (ss_bufptr (us_state s)) (ss_recvbuf (us_state s)).

Definition same_config s s' : Prop :=
  us_block s' = us_block s /\ us_header_size s' = us_header_size s /\ us_fec_enabled s' = us_fec_enabled s.
Definition same_fec s s' : Prop := ss_fec_decoder (us_state s') = ss_fec_decoder (us_state s).

(** [session_moves N s t r s']: the application gave [t] and got [r]. *)
Definition session_moves N s (t r : list Z) s' : Prop :=
  exists got, k_moves N (us_kcp s) t got (us_kcp s') /\ r ++ pending s' = pending s ++ got /\ same_config s s'.

Lemma session_moves_trans N s t r s1 t1 r1 s2 : session_moves N s t r s1 -> session_moves N s1 t1 r1 s2 ->
  session_moves N s (t ++ t1) (r ++ r1) s2.
Proof.
  intros (g & Hm & E1 & C1) (g1 & Hm1 & E2 & C2). exists (g ++ g1). split_and!.
  - by eapply moves_trans.
  - by rewrite <- (assoc_L (++)), E2, !(assoc_L (++)), E1.
  - destruct C1 as (? & ? & ?), C2 as (? & ? & ?). split_and!; congruence.
Qed.

Lemma session_moves_refl N s : session_moves N s [] [] s.
Proof. exists []. rewrite app_nil_r. split_and!; [constructor|done|done..]. Qed.

Lemma with_kcp_moves N t k s : k_moves N (us_kcp s) t [] k -> session_moves N s t [] (with_kcp k s).
Proof. intros Hm. exists []. rewrite app_nil_r. split_and!; [exact Hm|done|done..]. Qed.

Lemma count_moves N f s : session_moves N s [] [] (count f s).
Proof. apply with_kcp_moves, moves_same_1, same_machine_snmp. Qed.

(** Changes around the machine. *)
Lemma around_moves N s s' : us_kcp s' = us_kcp s -> pending s' = pending s -> same_config s s' -> session_moves N s [] [] s'.
Proof. intros Ek Ep Hc. exists []. rewrite Ek, Ep, app_nil_r. split_and!; [constructor|done|done..]. Qed.

Lemma flush_moves N ft k : k_moves N k [] [] (snd (flush ft k)).
Proof.
  pose proof (moves_step N (OpFlush ft) k I I) as Hm. cbn [kcp_step] in Hm. by destruct (flush ft k).
Qed.

Lemma call_moves N op s : op_ok op -> match op with OpInput data _ _ => N data | _ => True end -> taken_bytes op (us_kcp s) = [] ->
  ret_bytes (fst (kcp_step op (us_kcp s))) = [] -> session_moves N s [] [] (with_kcp (snd (kcp_step op (us_kcp s))) s).
Proof. intros Hop HN Et Er. apply with_kcp_moves. rewrite <- Et, <- Er at 1. by apply moves_step. Qed.

(** *** Reading *)

Lemma copy_spec dst src : let '(n, b) := copy dst src in
  n = Nat.min (length dst) (length src) /\ take n b = take n src /\ length b = length dst.
Proof.
  unfold copy. split_and!; [done| |].
  - rewrite take_app_le by (rewrite length_take; lia). by rewrite take_take, Nat.min_id.
  - rewrite length_app, length_take, length_drop. lia.
Qed.

(** [recv] into a buffer that fits the message. *)
Lemma recv_moves N b k : kcp_wf k -> 0 < peek_size k <= zlen b -> exists got k',
  recv b k = (peek_size k, got ++ drop (Z.to_nat (peek_size k)) b, k') /\ zlen got = peek_size k /\ k_moves N k [] got k'.
Proof.
  intros Hwf Hp. pose proof (moves_step N (OpRecv b) k I I) as Hm. cbn [kcp_step taken_bytes] in Hm.
  destruct (recv_spec b k Hwf) as [[? _]|[[? _]|(_ & Et & probe & Er)]]; [lia..|]. rewrite Er in Hm |- *. cbn [fst snd ret_bytes] in Hm.
  set (m := mjoin (sg_data <$> recv_taken b k)) in *.
  assert (Em : zlen m = peek_size k).
  { unfold m. rewrite Et. rewrite (peek_size_sum k ltac:(lia)). by rewrite peek_sum_first. }
  assert (El : Z.to_nat (peek_size k) = length m) by (rewrite <- Em; unfold zlen; lia).
  rewrite Em in Hm |- *. rewrite El in Hm |- *. rewrite take_app_length in Hm. by eexists m, _.
Qed.

Lemma length_nat_zlen (b : list Z) n : (n <= length b)%nat -> Z.of_nat n <= zlen b.
Proof. unfold zlen. lia. Qed.

(** The bytes of the caller's buffer that are the answer of [try_read]. *)
Definition bytes_read (res : option nat * list Z * UdpSession (C := C) (E := E) (Hd := Hd)) : list Z :=
  match fst (fst res) with Some n => take n (snd (fst res)) | None => [] end.

Lemma try_read_moves N b s : kcp_wf (us_kcp s) ->
  session_moves N s [] (bytes_read (try_read b s)) (snd (try_read b s)) /\ same_fec s (snd (try_read b s)) /\
  match fst (fst (try_read b s)) with
  | Some n => (n <= length b)%nat /\ ((0 < length b)%nat -> (0 < n)%nat)
  | None => pending s = [] /\ peek_size (us_kcp s) <= 0
  end.
Proof.
  intros Hwf. unfold try_read. destruct (Nat.ltb_spec 0 (bufptr_len (us_state s))) as [Hl|Hl].
  - pose proof (copy_spec b (pending s)) as Hc. fold (pending s). destruct (copy b (pending s)) as [n b']. destruct Hc as (En & Et & _).
    cbn [bytes_read fst snd]. rewrite Et. assert (Hlen : length (pending s) = bufptr_len (us_state s)) by apply length_drop. split_and!; [|done|lia|lia].
    match goal with |- session_moves _ _ _ _ (count ?f ?s1) => set (g := f); set (s2 := s1) end.
    exists []. split_and!; [exact (moves_same_1 N (us_kcp s) _ (same_machine_snmp _ _))| |done..]. rewrite app_nil_r.
    change (pending (count g s2)) with (drop (ss_bufptr (us_state s) + n) (ss_recvbuf (us_state s))).
    rewrite <- drop_drop. apply take_drop.
  - assert (Hp : pending s = []) by (apply length_zero_iff_nil; unfold pending; rewrite length_drop; unfold bufptr_len in Hl; lia).
    change (ss_kcp (us_state s)) with (us_kcp s). destruct (Z.ltb_spec 0 (peek_size (us_kcp s))) as [Hz|Hz].
    2: { cbn [bytes_read fst snd]. split_and!; [apply session_moves_refl|done|done|lia]. }
    destruct (Nat.leb_spec (Z.to_nat (peek_size (us_kcp s))) (length b)) as [Hb|Hb].
    + destruct (recv_moves N b (us_kcp s) Hwf) as (got & k' & -> & Hg & Hm); [unfold zlen; lia|]. cbn [bytes_read fst snd].
      unfold zlen in Hg. rewrite take_app_length' by lia. split_and!; [|done|lia|lia].
      match goal with |- session_moves _ _ _ _ (count ?f ?s1) => set (g := f); set (s2 := s1) end.
      exists got. rewrite Hp. change (pending (count g s2)) with (pending s). rewrite Hp, app_nil_r. split_and!; [|done|done..].
      pose proof (moves_trans _ _ _ _ _ _ _ _ Hm (moves_same_1 N k' _ (same_machine_snmp (g (k_snmp k')) k'))) as Hm2.
      by rewrite !app_nil_r in Hm2.
    + set (state := (if (ss_recvcap _ <? _)%nat then _ else _) <| ss_recvbuf := _ |>). 
      assert (Hlen : length (ss_recvbuf state) = Z.to_nat (peek_size (us_kcp s))) by (subst state; unfold field_update; cbn [ss_recvbuf]; apply length_resize).
      assert (Ek : ss_kcp state = us_kcp s) by (subst state; case_goal; done).
      assert (Ef : ss_fec_decoder state = ss_fec_decoder (us_state s)) by (subst state; case_goal; done).
      rewrite Ek. destruct (recv_moves N (ss_recvbuf state) (us_kcp s) Hwf) as (got & k' & -> & Hg & Hm); [unfold zlen; lia|].
      rewrite drop_ge, app_nil_r by lia. set (st2 := state <| ss_recvbuf := got |> <| ss_kcp := k' |>).
      pose proof (copy_spec b (ss_recvbuf st2)) as Hc. destruct (copy b (ss_recvbuf st2)) as [n b'] eqn:Ecp. destruct Hc as (En & Et & _).
      cbn [bytes_read fst snd]. rewrite Et. change (ss_recvbuf st2) with got in *. unfold zlen in Hg.
      split_and!; [|exact Ef|lia|lia].
      match goal with |- session_moves _ _ _ _ (count ?f ?s1) => set (g := f); set (s2 := s1) end.
      exists got. rewrite Hp. change (pending (count g s2)) with (drop n got). rewrite take_drop. split_and!; [|done|done..].
      pose proof (moves_trans _ _ _ _ _ _ _ _ Hm (moves_same_1 N k' _ (same_machine_snmp (g (k_snmp k')) k'))) as Hm2.
      by rewrite !app_nil_r in Hm2.
Qed.

(** *** Writing *)

Lemma send_all b k : kcp_wf k -> (length b <= Z.to_nat (k_mss k))%nat -> taken_bytes (OpSend b) k = b.
Proof.
  intros Hwf Hl. cbn [taken_bytes]. destruct (send_queue b k Hwf) as (n & Eq & Hn). rewrite Eq, drop_app_length.
  destruct b as [|x b]; [by rewrite take_nil|]. apply Hn. pose proof (wf_mss _ Hwf). pose proof (wf_mtu _ Hwf). unfold IKCP_OVERHEAD in *.
  destruct (decide (k_stream k = 0)) as [Hs|Hs].
  - rewrite send_message by done. cbn [is_nil]. unfold fragment_count. by rewrite (proj2 (Nat.leb_le _ _)) by done.
  - pose proof (send_stream (x :: b) k Hwf Hs ltac:(done)) as Hx. cbv zeta in Hx. destruct (send (x :: b) k) as [c k'].
    destruct Hx as ([[-> _]|(_ & m & _ & Hm)] & _); [done|lia].
Qed.

Lemma snd_send b k : snd (kcp_step (OpSend b) k) = snd (send b k).
Proof. cbn [kcp_step]. by destruct (send b k). Qed.

Lemma send_moves N b k : bytes b -> kcp_wf k -> (length b <= Z.to_nat (k_mss k))%nat ->
  k_moves N k b [] (snd (send b k)) /\ kcp_wf (snd (send b k)) /\ k_mss (snd (send b k)) = k_mss k.
Proof.
  intros Hb Hwf Hl. pose proof (moves_step N (OpSend b) k Hb I) as Hm. rewrite snd_send, send_all in Hm by done.
  assert (Er : ret_bytes (fst (kcp_step (OpSend b) k)) = []) by (cbn [kcp_step]; by destruct (send b k)). rewrite Er in Hm.
  pose proof (send_wf b k Hb Hwf) as Hwf'. split_and!; [done|done|]. destruct (send_frame b k) as (_ & Em & _).
  rewrite (wf_mss _ Hwf), (wf_mss _ Hwf'). congruence.
Qed.

Lemma write_slice_moves N fuel b k : bytes b -> kcp_wf k -> (length b < fuel)%nat ->
  k_moves N k b [] (write_slice_kcp fuel b k) /\ kcp_wf (write_slice_kcp fuel b k).
Proof.
  revert b k; induction fuel as [|fuel IH]; intros b k Hb Hwf Hf; [lia|]. cbn [write_slice_kcp].
  pose proof (wf_mss _ Hwf). pose proof (wf_mtu _ Hwf). unfold IKCP_OVERHEAD in *.
  destruct (Nat.leb_spec (length b) (Z.to_nat (k_mss k))) as [Hl|Hl]; [by destruct (send_moves N b k Hb Hwf Hl) as (? & ? & _)|].
  set (mss := Z.to_nat (k_mss k)) in *. destruct (send_moves N (take mss b) k) as (Hm & Hwf1 & Em); [by apply Forall_take|done|rewrite length_take; lia|].
  destruct (IH (drop mss b) (snd (send (take mss b) k))) as (Hm2 & Hwf2); [by apply Forall_drop|done|rewrite length_drop; lia|].
  split; [|done]. rewrite <- (take_drop mss b) at 1. by apply (moves_trans _ _ _ _ _ _ _ _ Hm Hm2).
Qed.

Lemma write_slices_moves N v k : Forall bytes v -> kcp_wf k -> k_moves N k (mjoin v) [] (write_slices v k) /\ kcp_wf (write_slices v k).
Proof.
  intros Hv. revert k. unfold write_slices. induction Hv as [|b v Hb _ IH]; intros k Hwf; cbn [foldl]; [split; [constructor|done]|].
  destruct (write_slice_moves N (write_fuel b) b k Hb Hwf) as [Hm Hwf1]; [unfold write_fuel; lia|].
  destruct (IH _ Hwf1) as [Hm2 Hwf2]. split; [|done]. by apply (moves_trans _ _ _ _ _ _ _ _ Hm Hm2).
Qed.

(** What a write gave to the machine: everything, or nothing when the window is full. *)
Definition bytes_written (v : list (list Z)) (n : option nat) : list Z := match n with Some _ => mjoin v | None => [] end.

Lemma length_mjoin (v : list (list Z)) : length (mjoin v) = sum_list (length <$> v).
Proof. induction v as [|b v IH]; [done|]. change (mjoin (b :: v)) with (b ++ mjoin v). rewrite length_app, IH. done. Qed.

Lemma try_write_moves N v s : Forall bytes v -> kcp_wf (us_kcp s) ->
  session_moves N s (bytes_written v (fst (try_write v s))) [] (snd (try_write v s)) /\ same_fec s (snd (try_write v s)) /\
  match fst (try_write v s) with
  | Some n => n = length (mjoin v) /\ window_full (us_kcp s) = false
  | None => snd (try_write v s) = s /\ window_full (us_kcp s) = true
  end.
Proof.
  intros Hv Hwf. unfold try_write. destruct (window_full (us_kcp s)) eqn:Ew; [split_and!; [apply session_moves_refl|done..]|].
  cbn [fst snd bytes_written]. split_and!; [|done|by rewrite length_mjoin|done]. apply with_kcp_moves.
  destruct (write_slices_moves N v (us_kcp s) Hv Hwf) as [Hm Hwf1].
  assert (Hm2 : forall k', k_moves N (write_slices v (us_kcp s)) [] [] k' -> k_moves N (us_kcp s) (mjoin v) [] k').
  { intros k' Hk. pose proof (moves_trans _ _ _ _ _ _ _ _ Hm Hk) as Hx. by rewrite !app_nil_r in Hx. }
  apply Hm2. set (k1 := write_slices v (us_kcp s)). set (k2 := if _ || _ then _ else k1).
  assert (Hk2 : k_moves N k1 [] [] k2) by (subst k2; case_goal; [apply flush_moves|constructor]).
  pose proof (moves_trans _ _ _ _ _ _ _ _ Hk2 (moves_same_1 N k2 _ (same_machine_snmp (count_sent (Z.of_nat (sum_list (length <$> v))) (k_snmp k2)) k2))) as Hx.
  exact Hx.
Qed.

(** *** The updater, closing, the options, out-of-band packets *)

Lemma update_moves N s : session_moves N s [] [] (snd (update_session s)) /\ same_fec s (snd (update_session s)).
Proof.
  unfold update_session. pose proof (flush_moves N Full (us_kcp s)) as Hm. destruct (flush Full (us_kcp s)) as [t k]. cbn [snd] in *.
  split; [by apply with_kcp_moves|done].
Qed.

Lemma shrink_moves N s : session_moves N s [] [] (snd (shrink_recvbuf s)) /\ same_fec s (snd (shrink_recvbuf s)).
Proof.
  unfold shrink_recvbuf. cbv zeta. destruct (Nat.leb_spec (length (ss_recvbuf (us_state s))) (ss_bufptr (us_state s))) as [Hl|];
    [|split; [apply session_moves_refl|done]].
  case_goal; [|split; [apply session_moves_refl|done]]. split; [|done].
  apply around_moves; [done| |done]. unfold pending. by rewrite (drop_ge (ss_recvbuf (us_state s))).
Qed.

Lemma close_moves N s : match close s with
  | inl _ => us_die_once s = true
  | inr (_, s') => session_moves N s [] [] s' /\ same_fec s s' /\ us_die s' = true /\ us_die_once s = false
  end.
Proof.
  unfold close. destruct (us_die_once s) eqn:Ed; [done|]. cbv zeta. split_and!; [|done|done|done].
  set (s1 := count _ (s <| us_die_once := true |>)).
  assert (H1' : session_moves N s [] [] s1).
  { apply (session_moves_trans N s [] [] (s <| us_die_once := true |>) [] []); [by apply around_moves|apply count_moves]. }
  assert (H2' : session_moves N s1 [] [] (with_kcp (snd (flush Full (us_kcp s1))) s1)) by apply with_kcp_moves, flush_moves.
  pose proof (session_moves_trans _ _ _ _ _ _ _ _ H1' H2') as H3'.
  refine (session_moves_trans _ _ _ _ _ [] [] _ H3' _). by apply around_moves.
Qed.

Lemma set_window_size_moves N snd_ rcv s : session_moves N s [] [] (set_window_size snd_ rcv s).
Proof.
  pose proof (call_moves N (OpWndSize snd_ rcv) s I I eq_refl) as Hm. cbn [kcp_step] in Hm. unfold set_window_size.
  destruct (wnd_size snd_ rcv (us_kcp s)). by apply Hm.
Qed.
Lemma set_no_delay_moves N a b c d s : session_moves N s [] [] (set_no_delay a b c d s).
Proof.
  pose proof (call_moves N (OpNodelay a b c d) s I I eq_refl) as Hm. cbn [kcp_step] in Hm. unfold set_no_delay.
  destruct (nodelay a b c d (us_kcp s)). by apply Hm.
Qed.
Lemma session_set_mtu_moves N mtu s : session_moves N s [] [] (snd (session_set_mtu mtu s)).
Proof.
  unfold session_set_mtu, set_kcp_mtu. cbv zeta. set (m := _ - _ - _).
  pose proof (call_moves N (OpSetMtu m) s) as Hm. cbn [kcp_step op_ok] in Hm. destruct (set_mtu m (us_kcp s)). apply Hm; try done.
  subst m. unfold MTU_LIMIT. lia.
Qed.
Lemma set_stream_mode_moves N x s : session_moves N s [] [] (set_stream_mode x s).
Proof. apply with_kcp_moves, moves_same_1, same_machine_stream. Qed.

Lemma send_oob_moves N data s : (us_fec_enabled s = true -> oob_allowed = true) -> kcp_wf (us_kcp s) -> bytes data -> ko_header_size (k_output (us_kcp s)) = us_header_size s ->
  match send_oob data s with Ok s' => session_moves N s [] [] s' /\ same_fec s s' | Err _ => True | Panic => False end.
Proof.
  intros Ho Hwf Hb Eh. unfold send_oob. destruct (us_fec_enabled s); cbn [negb]; [|done]. specialize (Ho eq_refl). cbv zeta. case_goal; [done|].
  destruct (Nat.ltb_spec MTU_LIMIT (CONV_SIZE + length data + us_header_size s)) as [|Hl]; [done|].
  set (o := k_output (us_kcp s)) in *. set (m := mkMessage true _). pose proof (channel_send_grows m (ko_tx o)) as Hg.
  destruct (channel_send m (ko_tx o)) as [outcome tx] eqn:Es. cbn [snd] in Hg. destruct Hg as (more & Em & Hmore).
  assert (Hs : same_machine (us_kcp s) ((us_kcp s) <| k_output := mkKcpOutput (ko_header_size o) tx |>)).
  { exists (k_snmp (us_kcp s)), (k_stream (us_kcp s)), (mkKcpOutput (ko_header_size o) tx). split_and!; [by destruct (us_kcp s)| |].
    - change (kcp_packets (ch_sent tx) = kcp_packets (ch_sent (ko_tx o))). rewrite Em. unfold kcp_packets. rewrite omap_app.
      destruct Hmore as [-> | ->]; apply app_nil_r.
    - split; [done|]. exists more. split; [done|]. destruct Hmore as [-> | ->]; [constructor|]. apply Forall_singleton.
      unfold message_ok, m. cbn [cm_body]. rewrite length_app, length_le_bytes. unfold CONV_SIZE in Hl. change (k_output (us_kcp s)) with o.
      split_and!; [lia| |done]. apply bytes_app; [apply le_bytes_bytes|done]. }
  destruct outcome; try done; (split; [by apply with_kcp_moves, moves_same_1|done]).
Qed.
End Sections.

(** ** What a session does with a datagram *)

(** What a recovered shard feeds to the machine. *)
Definition recoverable (N : list Z -> Prop) (r : list Z) : Prop :=
  match region_payload r with Some body => bytes body /\ N body | None => True end.

(** The laws of good FEC packets [good], for decoders that hold [D]. *)
Class GoodFec (N : list Z -> Prop) (good : list Z -> Prop) (D : option FecDecoder -> Prop) : Prop := {
  good_decode p d snmp : good p -> D (Some d) ->
    exists recovered d' snmp', decode p d snmp = Ok (recovered, d', snmp') /\ D (Some d') /\ Forall (recoverable N) recovered;
  good_data p : good p -> (FEC_HEADER_SIZE_PLUS2 <= length p)%nat -> packet_flag p = TYPE_DATA ->
    bytes (drop FEC_HEADER_SIZE_PLUS2 p) /\ N (drop FEC_HEADER_SIZE_PLUS2 p);
  good_lazy d : fec_decoder_new 1 1 = Ok (Some d) -> D None -> D (Some d);
}.

(** A payload the session can be given. *)
Definition payload_ok (N good : list Z -> Prop) (p : list Z) : Prop :=
  if (packet_flag p =? TYPE_DATA) || (packet_flag p =? TYPE_PARITY) then good p
  else packet_flag p = TYPE_OOB \/ bytes p /\ N p \/ (length p < MIN_PACKET_SIZE)%nat.

Section Incoming.
Context `{OobAllowed} `{!Crates} `{!Crc} {C : Type} `{Clock C} {E Hd : Type}.
Implicit Types (k : Kcp KcpOutput C) (s : UdpSession (C := C) (E := E) (Hd := Hd)) (st : SessionState (C := C)).
Context (N good : list Z -> Prop) (D : option FecDecoder -> Prop) `{!GoodFec N good D}.

(** [st'] after feeding packets to [st]'s machine. *)
Definition state_moves st st' : Prop :=
  k_moves N (ss_kcp st) [] [] (ss_kcp st') /\ ss_recvbuf st' = ss_recvbuf st /\ ss_bufptr st' = ss_bufptr st.

Lemma state_moves_refl st : state_moves st st.
Proof. split_and!; [constructor|done..]. Qed.
Lemma state_moves_trans st1 st2 st3 : state_moves st1 st2 -> state_moves st2 st3 -> state_moves st1 st3.
Proof.
  intros (M1 & R1 & B1) (M2 & R2 & B2). split_and!; [|congruence..]. exact (moves_trans _ _ _ _ _ _ _ _ M1 M2).
Qed.

Lemma state_session_moves st s : state_moves (us_state s) st -> session_moves N s [] [] (s <| us_state := st |>).
Proof. intros (M1 & R1 & B1). exists []. rewrite app_nil_r. split_and!; [exact M1| |done..]. unfold pending. cbn. by rewrite R1, B1. Qed.

Lemma feed_moves pt data st : bytes data -> N data -> state_moves st (snd (feed pt data st)) /\
  ss_fec_decoder (snd (feed pt data st)) = ss_fec_decoder st.
Proof.
  intros Hb Hn. unfold feed. pose proof (moves_step N (OpInput data pt (ss_ack_no_delay st)) (ss_kcp st) Hb Hn) as Hm.
  cbn [kcp_step] in Hm. destruct (input data pt _ (ss_kcp st)) as [c k]. by split.
Qed.

Lemma feed_recovered_moves recovers n st : Forall (recoverable N) recovers ->
  state_moves st (snd (feed_recovered recovers n st)) /\ ss_fec_decoder (snd (feed_recovered recovers n st)) = ss_fec_decoder st.
Proof.
  intros Hr. revert n st. induction Hr as [|r recovers Hr _ IH]; intros n st; cbn [feed_recovered]; [by split; [apply state_moves_refl|]|].
  set (fed := if (2 <=? length r)%nat then _ else _).
  assert (Hf : state_moves st (snd fed) /\ ss_fec_decoder (snd fed) = ss_fec_decoder st).
  { assert (H0' : state_moves st st /\ ss_fec_decoder st = ss_fec_decoder st) by (split; [apply state_moves_refl|done]).
    subst fed. unfold recoverable, region_payload in Hr. set (sz := Z.to_nat (le_val (take 2 r))) in *. cbv zeta in Hr |- *.
    destruct (2 <=? length r)%nat; [|exact H0']. rewrite andb_comm in Hr.
    destruct ((sz <=? length r)%nat && (2 <=? sz)%nat) eqn:Es; [|exact H0'].
    destruct Hr as [Hb Hn]. rewrite take_drop_commute in Hb, Hn. apply andb_true_iff in Es as [_ Es%Nat.leb_le].
    replace (2 + (sz - 2))%nat with sz in Hb, Hn by lia. by apply feed_moves. }
  destruct fed as [bad st1]. cbn [snd] in Hf. destruct Hf as [Hm HD]. destruct (IH (if bad then n + 1 else n) st1) as [A1 A2].
  split; [by eapply state_moves_trans|congruence].
Qed.

Lemma session_decode_moves data st : good data -> D (ss_fec_decoder st) -> ss_fec_decoder st <> None ->
  exists recovers st', session_decode data st = Ok (recovers, st') /\ state_moves st st' /\ D (ss_fec_decoder st') /\
    Forall (recoverable N) recovers.
Proof.
  intros Hg HD Hs. unfold session_decode. destruct (ss_fec_decoder st) as [d|]; [|done].
  destruct (good_decode data d (k_snmp (ss_kcp st)) Hg HD) as (rec & d' & snmp' & -> & HD' & Hr). cbn [mbind result_bind].
  eexists _, _. split_and!; [done| |exact HD'|done]. split_and!; [|done..]. apply moves_same_1, same_machine_snmp.
Qed.

Lemma fec_input_moves data s : good data -> D (ss_fec_decoder (us_state s)) ->
  exists eff s', fec_input (packet_flag data) data s = Ok (eff, s') /\ session_moves N s [] [] s' /\ D (ss_fec_decoder (us_state s')).
Proof.
  intros Hg HD. unfold fec_input. destruct (Nat.ltb_spec (length data) FEC_HEADER_SIZE_PLUS2) as [|Hl].
  { eexists _, _. split_and!; [done|apply count_moves|exact HD]. }
  assert (Hnew : exists d, (match ss_fec_decoder (us_state s) with None => fec_decoder_new 1 1 | Some d => Ok (Some d) end) = Ok (Some d) /\ D (Some d)).
  { destruct (ss_fec_decoder (us_state s)) as [d|] eqn:Ed; [by eexists|]. pose proof (fec_decoder_new_ok 1 1) as Hn.
    destruct (fec_decoder_new 1 1) as [[d|]|[]|] eqn:En; [|lia|done]. exists d. split; [done|]. by apply good_lazy. }
  destruct Hnew as (d & -> & HD1). cbn [mbind result_bind]. cbv zeta. set (st1 := (us_state s) <| ss_fec_decoder := Some d |>).
  set (fed := if packet_flag data =? TYPE_DATA then _ else _).
  assert (Hfed : state_moves st1 (snd fed) /\ ss_fec_decoder (snd fed) = Some d).
  { subst fed. destruct (Z.eqb_spec (packet_flag data) TYPE_DATA) as [Ef|]; [|by split; [apply state_moves_refl|]].
    destruct (good_data data Hg Hl Ef) as [Hb Hn]. by apply feed_moves. }
  destruct fed as [bad st2]. cbn [snd] in Hfed. destruct Hfed as [Hm2 Ed2].
  destruct (session_decode_moves data st2 Hg) as (rec & st3 & -> & Hm3 & Hd3 & Hrec); [by rewrite Ed2|by rewrite Ed2|]. cbn [mbind result_bind].
  destruct (feed_recovered_moves rec (if bad then 1 else 0) st3 Hrec) as [Hm4 Ed4].
  destruct (feed_recovered rec _ st3) as [errs st4]. cbn [snd] in *. eexists _, _. split; [done|].
  assert (Hm : state_moves (us_state s) st4).
  { eapply state_moves_trans; [|exact Hm4]. eapply state_moves_trans; [|exact Hm3]. exact Hm2. }
  pose proof (state_session_moves st4 s Hm) as Hs. rewrite <- Ed4 in Hd3. case_goal; [|done]. split; [|exact Hd3].
  exact (session_moves_trans _ _ _ _ _ _ _ _ Hs (count_moves N _ _)).
Qed.

Lemma kcp_input_moves data s : payload_ok N good data -> (MIN_PACKET_SIZE <= length data)%nat -> D (ss_fec_decoder (us_state s)) ->
  exists eff s', kcp_input data s = Ok (eff, s') /\ session_moves N s [] [] s' /\ D (ss_fec_decoder (us_state s')).
Proof.
  intros Hp Hlen HD. unfold kcp_input. cbv zeta. set (s1 := count _ (count _ s)).
  assert (Hs1 : session_moves N s [] [] s1) by exact (session_moves_trans _ _ _ _ _ _ _ _ (count_moves N _ s) (count_moves N _ _)).
  assert (HD1 : D (ss_fec_decoder (us_state s1))) by exact HD. clearbody s1.
  assert (Hthen : forall x : io (list (Effect Hd) * UdpSession (C := C) (E := E) (Hd := Hd)), (exists eff s', x = Ok (eff, s') /\ session_moves N s1 [] [] s' /\ D (ss_fec_decoder (us_state s'))) ->
    exists eff s', x = Ok (eff, s') /\ session_moves N s [] [] s' /\ D (ss_fec_decoder (us_state s'))).
  { intros x (eff & s' & -> & Hm & HD'). eexists _, _. split_and!; [done| |done]. exact (session_moves_trans _ _ _ _ _ _ _ _ Hs1 Hm). }
  apply Hthen. clear Hthen Hs1. unfold payload_ok in Hp. change (le_val (take 2 (drop FEC_FLAG_OFFSET data))) with (packet_flag data).
  destruct (Nat.ltb_spec (length data) (FEC_FLAG_OFFSET + 2)) as [|_].
  { eexists _, _. split_and!; [done|apply session_moves_refl|done]. }
  destruct (_ || _) eqn:Ef; [by apply fec_input_moves|].
  destruct (Z.eqb_spec (packet_flag data) TYPE_OOB) as [Eo|Eo].
  { eexists _, _. split_and!; [done|apply count_moves|exact HD1]. }
  destruct Hp as [|[[Hb Hn]|]]; [done| |lia].
  destruct (feed_moves Regular data (us_state s1) Hb Hn) as [Hm Ed]. destruct (feed Regular data (us_state s1)) as [bad st]. cbn [snd] in *.
  pose proof (state_session_moves st s1 Hm) as Hs. eexists _, _. split; [done|]. rewrite <- Ed in HD1.
  destruct bad; [|by split]. split; [|exact HD1]. exact (session_moves_trans _ _ _ _ _ _ _ _ Hs (count_moves N _ _)).
Qed.

(** A datagram that is dropped, or opens to a payload the session can be given. *)
Lemma packet_input_moves data s :
  (forall p snmp, decrypt_packet (us_block s) data (k_snmp (us_kcp s)) = (Some p, snmp) -> payload_ok N good p) ->
  D (ss_fec_decoder (us_state s)) ->
  exists eff s', packet_input data s = Ok (eff, s') /\ session_moves N s [] [] s' /\ D (ss_fec_decoder (us_state s')).
Proof.
  intros Hp HD. unfold packet_input. destruct (decrypt_packet _ _ _) as [r snmp]. cbv zeta. set (s1 := count _ s).
  assert (Hs1 : session_moves N s [] [] s1) by apply count_moves. assert (HD1 : D (ss_fec_decoder (us_state s1))) by exact HD.
  destruct r as [p|]; [|by eexists _, _]. destruct (Nat.ltb_spec (length p) MIN_PACKET_SIZE) as [|Hl].
  - eexists _, _. split_and!; [done| |exact HD1]. exact (session_moves_trans _ _ _ _ _ _ _ _ Hs1 (count_moves N _ _)).
  - destruct (kcp_input_moves p s1) as (eff & s' & -> & Hm & HD'); [by eapply Hp|done|done|].
    eexists _, _. split_and!; [done| |done]. exact (session_moves_trans _ _ _ _ _ _ _ _ Hs1 Hm).
Qed.
End Incoming.
