(* ===== verification/SessionPeers.v ===== *)
(** * Two sessions, their packet tasks and the network

    An end is a session and the task its packets go through ([Tx]).  The network carries the
    datagrams a task gave to its socket: each may arrive at the other end at any time, any
    number of times, in any order, or never.  The invariant of the two ends: their machines
    are two connections ([KcpPeers]), the datagrams on the wire open to packets of the machine
    or of the FEC stream they make ([TxSpec]), and the decoders follow the peer's stream. *)
From stdpp Require Import base list gmap.
From Stdlib Require Import ZArith Lia.
From S2P Require Import Prelude Word Env Segment Queue Heap KcpState KcpSend KcpFlush KcpInput KcpInv KcpWriter.
From S2P Require Import KcpFlushInv KcpSink KcpDelivery KcpStream KcpSpec KcpSource KcpAcked KcpPeers KcpTheorems.
From S2P Require Import Galois GfVector Matrix Codec CodecSpec Fec FecLayout FecEncoderSpec FecDecoderSpec FecRun.
From S2P Require Import CipherWord Cfb Crypt BufPool Packet Tx TxSpec Session SessionSpec.
Local Open Scope Z_scope.

(** ** The peer's FEC stream *)

(** A FEC code that a session can have. *)
Definition mode_ok (m : FecMode) : Prop :=
  (0 < fm_data m)%nat /\ (0 < fm_parity m)%nat /\ (fm_data m + fm_parity m <= 256)%nat /\
  codec_shape (fm_codec m) /\ data_shards (fm_codec m) = fm_data m /\ parity_shards (fm_codec m) = fm_parity m.

(** A packet a task takes. *)
Definition body_ok (p : list Z) : Prop := bytes p /\ (length p <= MTU_LIMIT)%nat.

(** The packets that arrive from a peer which was given [bodies], and the decoder for them. *)
Definition peer_packet (mode : option FecMode) (bodies : list (list Z)) (p : list Z) : Prop :=
  match mode with Some m => stream_packet m bodies p | None => False end.
Definition decoder_for (mode : option FecMode) (bodies : list (list Z)) (fd : option FecDecoder) : Prop :=
  match mode with
  | Some m => exists d E, fd = Some d /\ tracks (fm_data m) (fm_parity m) (fm_codec m) (stream_of m bodies) d E
  | None => True
  end.

Section Stream.
Context (m : FecMode) (bodies : list (list Z)) (Hm : mode_ok m) (Hb : Forall body_ok bodies).

Lemma stream_region_body id k r : stream_of m bodies id !! k = Some r -> exists p, p ∈ bodies /\ body_ok p /\ r = shard_region p.
Proof using Hb.
  intros (p & -> & Hp)%group_of_lookup_inv%list_elem_of_fmap. exists p. split_and!; [done| |done].
  by apply (proj1 (Forall_forall _ _) Hb).
Qed.

Lemma stream_regions id : Forall (fun r => bytes r /\ (2 <= length r)%nat) (stream_of m bodies id).
Proof using Hb.
  apply Forall_lookup. intros k r (p & _ & [Hp _] & ->)%stream_region_body. split; [by apply shard_region_bytes|].
  rewrite length_shard_region. lia.
Qed.

Lemma recovered_body r : stream_region (stream_of m bodies) r -> recoverable (fun p => p ∈ bodies) r.
Proof using Hb.
  intros (id & k & r0 & Hk & ->). pose proof (longest_le (stream_of m bodies id) r0 ltac:(by eapply list_elem_of_lookup_2)) as Hl.
  destruct (stream_region_body id k r0 Hk) as (p & Hp & [Hbp Hlp] & ->). rewrite length_shard_region in Hl.
  unfold recoverable. rewrite region_payload_padded; [done| |lia]. unfold zlen, MTU_LIMIT in *. lia.
Qed.

Lemma stream_data_body p : stream_packet m bodies p -> packet_flag p = TYPE_DATA ->
  exists b, drop FEC_HEADER_SIZE_PLUS2 p = b /\ body_ok b /\ b ∈ bodies.
Proof using Hb.
  intros (a & (_ & _ & Hg) & ->) Hf. unfold arrival_packet, shard_packet in *.
  assert (Ht : shard_type (fm_data m) (snd (fst a)) = TYPE_DATA).
  { rewrite <- Hf. symmetry. apply packet_flag_fec. unfold shard_type, TYPE_DATA, TYPE_PARITY, is_u16. case_goal; lia. }
  unfold shard_type in Ht. unfold genuine in Hg. destruct (snd (fst a) <? fm_data m)%nat; [|done].
  destruct (stream_region_body _ _ _ Hg) as (b & Hbb & Hok & ->). exists b. split_and!; [|done|done].
  unfold fec_packet, shard_region, FEC_HEADER_SIZE_PLUS2. rewrite !(assoc_L (++)).
  apply drop_app_length'. rewrite !length_app, !length_le_bytes. done.
Qed.
End Stream.

(** The entries of a decoder belong to the longer stream too. *)
Lemma tracks_more m a b d E : tracks (fm_data m) (fm_parity m) (fm_codec m) (stream_of m a) d E ->
  tracks (fm_data m) (fm_parity m) (fm_codec m) (stream_of m (a ++ b)) d E.
Proof.
  intros [A1 A2 A3 A4 A5 HE]. constructor; try done. intros id. destruct (HE id) as (B1 & B2 & B3). split_and!; [done|done|].
  eapply Forall_impl; [exact B3|]. intros e [Hk Hg]. split; [done|]. unfold stream_of in *. rewrite fmap_app. by apply genuine_more.
Qed.

Lemma decoder_for_more mode a b fd : decoder_for mode a fd -> decoder_for mode (a ++ b) fd.
Proof. destruct mode as [m|]; [|done]. intros (d & E & -> & Ht). exists d, E. split; [done|]. by apply tracks_more. Qed.

Section Good.
Context (mode : option FecMode) (bodies : list (list Z)).
Context (Hm : match mode with Some m => mode_ok m | None => True end) (Hb : Forall body_ok bodies).

Lemma peer_good : GoodFec (fun p => p ∈ bodies) (peer_packet mode bodies) (decoder_for mode bodies).
Proof using Hm Hb.
  destruct mode as [m|]; cbn [peer_packet decoder_for]; [|constructor; done].
  pose proof Hm as (Hds & Hps & Hss & Hc & Hcd & Hcp). constructor.
  - intros p d snmp (a & (Hid & Hk & Hg) & ->) (d0 & E & [= <-] & Ht). destruct a as [[id k] r]. cbn [fst snd] in *.
    destruct (decode_genuine (fm_data m) (fm_parity m) (fm_codec m) (stream_of m bodies) Hds Hps Hss Hc Hcd Hcp
      (stream_regions m bodies Hb) d E id k r snmp Ht Hid Hk Hg) as (out & d' & snmp' & E' & Edec & Ht' & Heff).
    exists out, d', snmp'. split_and!; [exact Edec|by exists d', E'|].
    eapply Forall_impl; [|intros x; apply (recovered_body m bodies Hb)].
    by eapply (effect_sound (fm_data m) (fm_parity m) (fm_codec m) (stream_of m bodies) Hds Hps Hss Hc Hcd Hcp (stream_regions m bodies Hb) d E).
  - intros p Hp _ Hf. by destruct (stream_data_body m bodies Hb p Hp Hf) as (b & -> & [? _] & ?).
  - intros d _ (? & ? & ? & _). done.
Qed.
End Good.

(** A packet of the history is not a FEC packet: its fifth byte is a command. *)
Lemma history_flag conv log p : history_packet conv log p -> packet_flag p <> TYPE_DATA /\ packet_flag p <> TYPE_PARITY.
Proof.
  intros (segs & Hs & ->). destruct Hs as [|s segs [(_ & _ & Hc) _] _]; [done|].
  unfold packet_flag. assert (Ew : exists rest, drop 4 (wire (s :: segs)) = u8 (sg_cmd s) :: u8 (sg_frg s) :: rest).
  { eexists. change (wire (s :: segs)) with (wire_bytes s ++ wire segs). unfold wire_bytes, header_bytes.
    rewrite <- !(assoc_L (++)). rewrite drop_app_length' by by rewrite length_le_bytes. reflexivity. }
  destruct Ew as [rest ->]. cbn [take]. unfold le_val. unfold known_cmd in Hc.
  unfold IKCP_CMD_PUSH, IKCP_CMD_ACK, IKCP_CMD_WASK, IKCP_CMD_WINS in Hc. pose proof (u8_range (sg_frg s)) as Hf.
  assert (Hcmd : 81 <= u8 (sg_cmd s) <= 84).
  { assert (81 <= sg_cmd s <= 84) by (destruct (Z.eqb_spec (sg_cmd s) 81), (Z.eqb_spec (sg_cmd s) 82), (Z.eqb_spec (sg_cmd s) 83), (Z.eqb_spec (sg_cmd s) 84); cbn in Hc; try done; lia).
    unfold u8. rewrite Z.mod_small; lia. }
  unfold TYPE_DATA, TYPE_PARITY. cbn. lia.
Qed.

(** What a datagram of the peer opens to can be given to the session. *)
Lemma peer_payload mode bodies p : Forall body_ok bodies ->
  (mode = None -> Forall (fun b => packet_flag b <> TYPE_DATA /\ packet_flag b <> TYPE_PARITY) bodies) ->
  tx_payload mode bodies p -> payload_ok (fun b => b ∈ bodies) (peer_packet mode bodies) p.
Proof.
  intros Hb Hf Hp. unfold payload_ok. destruct mode as [m|]; cbn [tx_payload peer_packet] in *.
  - destruct Hp as [->|Hp]; [by left|]. pose proof Hp as (a & _ & Ea). assert (Hflag : packet_flag p = TYPE_DATA \/ packet_flag p = TYPE_PARITY).
    { rewrite Ea. unfold arrival_packet, shard_packet. rewrite packet_flag_fec; unfold shard_type; case_goal; auto; unfold is_u16, TYPE_DATA, TYPE_PARITY; lia. }
    by destruct Hflag as [-> | ->].
  - specialize (Hf eq_refl). rewrite Forall_forall in Hb, Hf. destruct (Hf p Hp) as [Hd Hq].
    destruct (Z.eqb_spec (packet_flag p) TYPE_DATA), (Z.eqb_spec (packet_flag p) TYPE_PARITY); try done.
    cbn [orb]. right. left. split; [by apply Hb|done].
Qed.

(** ** The system *)

Section System.
Context `{!Crates} `{!CratesLaw} {R : Type} `{!Rng R} `{!Crc}.
Context {Q : Type} `{!ArrayQueue Buffer Q}.
Context {C : Type} `{!Clock C}.
Context {E N Hd : Type} `{!PacketConn E N, !SocketLog E N}.

(** An end: its session, its task, and how many messages of the channel the task took. *)
Record Endpoint := mkEndpoint {
  ep_session : UdpSession (C := C) (E := E) (Hd := Hd);
  ep_tx : TxPipeline (R := R) (Q := Q) (C := C) (E := E) (N := N);
  ep_taken : nat;
}.
Definition Endpoints : Type := bool -> Endpoint.
Implicit Types (ep : Endpoint) (x : Endpoints) (s : UdpSession (C := C) (E := E) (Hd := Hd)).

(** What the application, the timers and the executor may ask of an end.  [EpTransmit]: the
    task takes the next message, in a pooled buffer that held [old]. *)
Inductive ep_op :=
| EpRead (b : list Z)
| EpWrite (v : list (list Z))
| EpUpdate
| EpShrink
| EpClose
| EpReadError (err : E)
| EpWindow (sndwnd rcvwnd : Z)
| EpNoDelay (nodelay interval resend nc : Z)
| EpMtu (mtu : Z)
| EpStreamMode (enable : bool)
| EpAckNoDelay (nodelay : bool)
| EpWriteDelay (delay : bool)
| EpOob (data : list Z)
| EpOobHandler (callback : option Hd)
| EpDup (dup : nat)
| EpTransmit (old : Buffer) (empty : bool).

Definition ep_channel ep : list ChannelMessage := ch_sent (ko_tx (k_output (us_kcp (ep_session ep)))).

(** [KcpOutput::output], [send_oob]: the buffer a message is sent in. *)
Definition request_in (old : Buffer) (header : nat) (m : ChannelMessage) : SendRequest :=
  mkSendRequest (write_slice (take header old ++ cm_body m) (set_len (header + length (cm_body m)) (mkPacketBuf old 0))) (cm_oob m).

(** The end after an operation, what it took from the application and what it handed out. *)
Definition ep_step (op : ep_op) ep : io (Endpoint * list Z * list Z) :=
  let s := ep_session ep in
  let set s := mkEndpoint s (ep_tx ep) (ep_taken ep) in
  match op with
  | EpRead b => let r := try_read b s in Ok (set (snd r), [], bytes_read r)
  | EpWrite v =>
      let '(r, s) := write_buffers v s in Ok (set s, match r with Written _ => mjoin v | _ => [] end, [])
  | EpUpdate => let '(_, s) := update_session s in Ok (set s, [], [])
  | EpShrink => let '(_, s) := shrink_recvbuf s in Ok (set s, [], [])
  | EpClose => Ok (match close s with inl _ => ep | inr (_, s) => set s end, [], [])
  | EpReadError err => Ok (set (notify_read_error err s), [], [])
  | EpWindow sndwnd rcvwnd => Ok (set (set_window_size sndwnd rcvwnd s), [], [])
  | EpNoDelay nodelay interval resend nc => Ok (set (set_no_delay nodelay interval resend nc s), [], [])
  | EpMtu mtu => let '(_, s) := session_set_mtu mtu s in Ok (set s, [], [])
  | EpStreamMode enable => Ok (set (set_stream_mode enable s), [], [])
  | EpAckNoDelay nodelay => Ok (set (set_ack_no_delay nodelay s), [], [])
  | EpWriteDelay delay => Ok (set (set_write_delay delay s), [], [])
  | EpOob data =>
      match send_oob data s with Ok s => Ok (set s, [], []) | Err _ => Ok (ep, [], []) | Panic => Panic end
  | EpOobHandler callback =>
      match set_oob_handler callback s with Ok s => Ok (set s, [], []) | Err _ => Ok (ep, [], []) | Panic => Panic end
  | EpDup dup => Ok (mkEndpoint s ((ep_tx ep) <| tx_dup := dup |>) (ep_taken ep), [], [])
  | EpTransmit old empty =>
      match ep_channel ep !! ep_taken ep with
      | None => Ok (ep, [], [])
      | Some m =>
          tx ← tx_round (request_in old (us_header_size s) m) empty (ep_tx ep);
          Ok (mkEndpoint (s <| us_write_error := tx_write_error tx |>) tx (S (ep_taken ep)), [], [])
      end
  end.

(** The two ends, and the network: datagram [n] of the other end's socket arrives at [c]. *)
Inductive system_op := At (c : bool) (op : ep_op) | Deliver (c : bool) (n : nat).

Definition set_end (c : bool) ep x : Endpoints := fun d => if Bool.eqb d c then ep else x d.

Definition system_step (o : system_op) x : io (list event * Endpoints) :=
  match o with
  | At c op => r ← ep_step op (x c); let '(ep, t, r) := r in Ok ([(c, t, r)], set_end c ep x)
  | Deliver c n =>
      match on_wire (tx_conn (ep_tx (x (negb c)))) !! n with
      | None => Ok ([], x)
      | Some data =>
          r ← packet_input data (ep_session (x c));
          let '(_, s) := r in
          Ok ([], set_end c (mkEndpoint s (ep_tx (x c)) (ep_taken (x c))) x)
      end
  end.

Fixpoint system_run (ops : list system_op) x : io (list event * Endpoints) :=
  match ops with
  | [] => Ok ([], x)
  | o :: ops =>
      r ← system_step o x;
      let '(e, x) := r in
      r ← system_run ops x;
      let '(es, x) := r in
      Ok (e ++ es, x)
  end.

(** Data are bytes, a pooled buffer has its length. *)
Definition system_op_ok (o : system_op) : Prop :=
  match o with
  | At _ (EpWrite v) => Forall bytes v
  | At _ (EpOob data) => bytes data
  | At _ (EpTransmit old _) => bytes old /\ length old = MTU_LIMIT
  | _ => True
  end.

(** The two machines. *)
Definition peers_of x : Peers (O := KcpOutput) (C := C) := fun c => us_kcp (ep_session (x c)).

Lemma set_end_same c ep x : set_end c ep x c = ep.
Proof. unfold set_end. by rewrite Bool.eqb_reflx. Qed.
Lemma set_end_other c d ep x : d <> c -> set_end c ep x d = x d.
Proof. intros Hdc. unfold set_end. destruct (Bool.eqb_spec d c); done. Qed.
Lemma peers_set_end c ep x d : peers_of (set_end c ep x) d = set_peer c (us_kcp (ep_session ep)) (peers_of x) d.
Proof. unfold peers_of, set_end, set_peer. by destruct (Bool.eqb d c). Qed.

(** ** Its invariant *)

Context (mode : option FecMode) (block : option PacketCrypt).
Context (Hmode : match mode with Some m => mode_ok m | None => True end).
#[local] Instance mode_oob : OobAllowed := match mode with Some _ => true | None => false end.

(** The packets the task was given. *)
Definition handed ep : list (list Z) := kcp_packets (take (ep_taken ep) (ep_channel ep)).

Definition header_room : nat := crypt_header block + match mode with Some _ => FEC_HEADER_SIZE_PLUS2 | None => 0 end.

Record ep_inv ep : Prop := {
  ei_config : us_block (ep_session ep) = block /\ us_header_size (ep_session ep) = header_room /\
    us_fec_enabled (ep_session ep) = oob_allowed;
  ei_sink : ko_header_size (k_output (us_kcp (ep_session ep))) = header_room;
  ei_messages : Forall (message_ok header_room) (ep_channel ep);
  ei_taken : (ep_taken ep <= length (ep_channel ep))%nat;
  ei_tx : tx_inv mode block (handed ep) (ep_tx ep);
}.

Definition system_inv (n : Z) x : Prop := forall c, ep_inv (x c) /\ Z.of_nat (ep_taken (x c)) <= n /\
  decoder_for mode (handed (x (negb c))) (ss_fec_decoder (us_state (ep_session (x c)))).

(** What a step means to the two streams. *)
Definition goes (log : bool -> list (Z * list Z)) x es x' : Prop :=
  exists more, sound (fun d => log d ++ more d) (peers_of x') /\
    (forall d, outbox (log d ++ more d) (peers_of x' d) = outbox (log d) (peers_of x d) ++ written_at d es) /\
    forall L rlog, (forall d, zlen (L d) <= 2147483648 /\ Forall entry_ok (L d) /\ exists m, L d = log d ++ more d ++ m) ->
      streams L rlog (peers_of x) ->
      exists taken, streams L (fun d => rlog d ++ taken d) (peers_of x') /\
        forall d, read_at d es ++ pending (ep_session (x' d)) = pending (ep_session (x d)) ++ mjoin (snd <$> taken d).

(** A session's section is such a step. *)
Lemma moves_goes M log x c t r ep' es : session_moves M (ep_session (x c)) t r (ep_session ep') ->
  (forall data, M data -> data ∈ sent (k_output (peers_of x (negb c)))) -> sound log (peers_of x) ->
  (forall d, written_at d es = only c t d) -> (forall d, read_at d es = only c r d) ->
  goes log x es (set_end c ep' x).
Proof.
  intros (got & Hm & Ep & _) HM Hs Hw Hr.
  destruct (moves_peers M c _ _ _ _ Hm (peers_of x) log eq_refl HM Hs) as (more & Hs' & Ho & Hst). exists (only c more). split_and!.
  - eapply sound_pext; [done| |exact Hs']. intros d. symmetry. apply peers_set_end.
  - intros d. rewrite Hw, peers_set_end. destruct (Bool.bool_dec d c) as [->|Hdc].
    + by rewrite !only_same, set_peer_same.
    + unfold only. rewrite set_peer_other by done. destruct (Bool.eqb_spec d c); [done|]. by rewrite !app_nil_r.
  - intros L rlog HL Hstr. destruct (Hst L rlog) as (taken & Hstr' & Eg); [|exact Hstr|].
    { intros d. destruct (HL d) as (A1 & A2 & m & Em). split; [exact A1|]. split; [exact A2|]. exists m. by rewrite Em, (assoc_L (++)). }
    exists (only c taken). split.
    + eapply streams_pext; [|exact Hstr']. intros d. symmetry. apply peers_set_end.
    + intros d. rewrite Hr. destruct (Bool.bool_dec d c) as [->|Hdc].
      * by rewrite !only_same, set_end_same, Ep, Eg.
      * unfold only. rewrite set_end_other by done. destruct (Bool.eqb_spec d c); [done|]. by rewrite app_nil_r.
Qed.

(** The session moved, the task did not. *)
Lemma ep_moves M ep s t r : ep_inv ep -> kcp_wf (us_kcp (ep_session ep)) -> session_moves M (ep_session ep) t r s ->
  let ep' := mkEndpoint s (ep_tx ep) (ep_taken ep) in ep_inv ep' /\ handed ep' = handed ep.
Proof.
  intros [(E1 & E2 & E3) Hk Hms Ht Htx] Hwf (got & Hm & _ & C1 & C2 & C3) ep'.
  destruct (moves_grow _ _ _ _ _ Hm Hwf) as (Eh & more & Em & Hmore). rewrite Hk in Eh, Hmore.
  assert (Hc : ep_channel ep' = ep_channel ep ++ more) by exact Em.
  assert (Hh : handed ep' = handed ep).
  { unfold handed. rewrite Hc. change (ep_taken ep') with (ep_taken ep). by rewrite take_app_le. }
  split; [|done]. constructor.
  - split_and!; [etrans; [exact C1|done]|etrans; [exact C2|done]|etrans; [exact C3|done]].
  - exact Eh.
  - rewrite Hc. by apply Forall_app.
  - rewrite Hc, length_app. change (ep_taken ep') with (ep_taken ep). lia.
  - by rewrite Hh.
Qed.

Lemma handed_ok ep : ep_inv ep -> Forall body_ok (handed ep).
Proof.
  intros Hei. pose proof (ei_messages _ Hei) as Hms. apply Forall_forall. intros p Hp.
  unfold handed, kcp_packets in Hp. apply list_elem_of_omap in Hp as (m & Hin & Hm).
  destruct (cm_oob m); [done|]. injection Hm as <-. apply elem_of_take in Hin as (i & Hi & _).
  destruct (Forall_lookup_1 _ _ _ _ Hms Hi) as (Hl & Hb & _). split; [done|lia].
Qed.

Lemma handed_sent ep p : p ∈ handed ep -> p ∈ sent (k_output (us_kcp (ep_session ep))).
Proof.
  intros Hp. change (p ∈ kcp_packets (ep_channel ep)). unfold handed, kcp_packets in *. apply list_elem_of_omap in Hp as (m & Hin & Hm).
  apply list_elem_of_omap. exists m. split; [|done]. apply elem_of_take in Hin as (i & Hi & _). by eapply list_elem_of_lookup_2.
Qed.

(** ** Its steps *)

(** The operations of the session, as moves of its machine. *)
Lemma ep_step_moves op ep : ep_inv ep -> kcp_wf (us_kcp (ep_session ep)) -> system_op_ok (At true op) ->
  match op with
  | EpDup _ | EpTransmit _ _ => True
  | _ => exists s t r, ep_step op ep = Ok (mkEndpoint s (ep_tx ep) (ep_taken ep), t, r) /\
           session_moves (fun _ => False) (ep_session ep) t r s /\ same_fec (ep_session ep) s
  end.
Proof.
  intros Hei Hwf Hop. set (M := fun _ : list Z => False). destruct ep as [s tx taken]. cbn [ep_session ep_tx ep_taken] in *.
  assert (Hid : exists s0 t r, @Ok Empty_set (Endpoint * list Z * list Z) (mkEndpoint s tx taken, [], []) = Ok (mkEndpoint s0 tx taken, t, r) /\
    session_moves M s t r s0 /\ same_fec s s0) by (exists s, [], []; split_and!; [done|apply session_moves_refl|done]).
  destruct op as [b|v| | | |err|a b|a b c d|m|e|a|a|data|cb|dup|old empty]; try done; cbn [ep_step ep_session ep_tx ep_taken system_op_ok] in *; cbv zeta.
  - destruct (try_read_moves M b s Hwf) as (Hm & Hf & _). by eexists _, _, _.
  - unfold write_buffers. destruct (us_write_error s); [exact Hid|]. destruct (us_die s); [exact Hid|].
    destruct (try_write_moves M v s Hop Hwf) as (Hm & Hf & _). destruct (try_write v s) as [[n|] s']; by eexists _, _, _.
  - destruct (update_moves M s) as [Hm Hf]. destruct (update_session s) as [[i eff] s']. by eexists _, _, _.
  - destruct (shrink_moves M s) as [Hm Hf]. destruct (shrink_recvbuf s) as [i s']. by eexists _, _, _.
  - pose proof (close_moves M s) as Hm. destruct (close s) as [err|[eff s']]; [exact Hid|]. destruct Hm as (Hm & Hf & _). by eexists _, _, _.
  - eexists _, _, _. split_and!; [done|by apply around_moves|done].
  - eexists _, _, _. split_and!; [done|apply set_window_size_moves|]. unfold set_window_size. done.
  - eexists _, _, _. split_and!; [done|apply set_no_delay_moves|done].
  - pose proof (session_set_mtu_moves M m s) as Hm. assert (Hf : same_fec s (snd (session_set_mtu m s))) by (unfold session_set_mtu; by destruct (set_kcp_mtu _ _ _ _)).
    destruct (session_set_mtu m s) as [i s']. by eexists _, _, _.
  - eexists _, _, _. split_and!; [done|apply set_stream_mode_moves|done].
  - eexists _, _, _. split_and!; [done|by apply around_moves|done].
  - eexists _, _, _. split_and!; [done|by apply around_moves|done].
  - destruct (ei_config _ Hei) as (_ & Hh & Hfec). cbn [ep_session] in Hh, Hfec.
    pose proof (send_oob_moves M data s) as Hm. destruct (send_oob data s) as [s'|err|]; [|exact Hid|].
    + destruct Hm as [Hm Hf]; [by rewrite Hfec|done|done|by rewrite Hh; exact (ei_sink _ Hei)|]. by eexists _, _, _.
    + destruct Hm; [by rewrite Hfec|done|done|by rewrite Hh; exact (ei_sink _ Hei)].
  - unfold set_oob_handler. case_goal; [exact Hid|]. eexists _, _, _. split_and!; [done|by apply around_moves|done].
Qed.

Lemma request_in_ok old m : bytes old -> length old = MTU_LIMIT -> message_ok header_room m ->
  request_of mode block (take header_room old) (cm_body m) (cm_oob m) (request_in old header_room m).
Proof.
  intros Hb Hl (Hm & Hbm & _). assert (Hr : length (take header_room old) = header_room) by (rewrite length_take; lia).
  destruct (write_slice_ok (take header_room old ++ cm_body m) (set_len (header_room + length (cm_body m)) (mkPacketBuf old 0))) as [Hw Es].
  - split; [exact Hl|]. cbn [set_len pb_len]. lia.
  - cbn [set_len pb_len]. rewrite length_app, Hr. lia.
  - split_and!; [done|done|done| |by apply Forall_take|done]. rewrite Hr. done.
Qed.

Lemma length_handed ep : (length (handed ep) <= ep_taken ep)%nat.
Proof.
  unfold handed, kcp_packets. set (l := take _ _). assert (length l <= ep_taken ep)%nat by (unfold l; rewrite length_take; lia).
  enough (length (omap (fun m => if cm_oob m then None else Some (cm_body m)) l) <= length l)%nat by lia. clear. induction l as [|m l IH]; [done|].
  csimpl. destruct (cm_oob m); cbn [length]; lia.
Qed.

(** Sequence numbers do not wrap for [n] packets. *)
Definition room_for (n : Z) : Prop :=
  match mode with Some m => (n + 3) * Z.of_nat (fm_data m + fm_parity m) <= paws (fm_data m + fm_parity m) | None => True end.

Lemma room_no_wrap n ep : room_for n -> Z.of_nat (ep_taken ep) <= n -> no_wrap mode (handed ep).
Proof.
  unfold room_for, no_wrap. destruct mode as [m|]; [|done]. intros Hr Hn. etrans; [|exact Hr].
  apply Z.mul_le_mono_nonneg_r; [lia|]. pose proof (length_handed ep). unfold zlen. lia.
Qed.

(** A task's step. *)
Lemma transmit_step old empty ep n : ep_inv ep -> bytes old -> length old = MTU_LIMIT -> room_for n -> Z.of_nat (ep_taken ep) <= n ->
  exists ep', ep_step (EpTransmit old empty) ep = Ok (ep', [], []) /\ ep_inv ep' /\ Z.of_nat (ep_taken ep') <= n + 1 /\
    (exists more, handed ep' = handed ep ++ more) /\ us_kcp (ep_session ep') = us_kcp (ep_session ep) /\
    us_state (ep_session ep') = us_state (ep_session ep) /\
    same_config (ep_session ep) (ep_session ep').
Proof.
  intros Hei Hb Hl Hr Hn. cbn [ep_step]. destruct (ep_channel ep !! ep_taken ep) as [m|] eqn:Em.
  2: { exists ep. split_and!; try done; [lia|]. exists []. by rewrite app_nil_r. }
  pose proof Hei as [(E1 & E2 & E3) Hk Hms Ht Htx]. rewrite E2.
  pose proof (Forall_lookup_1 _ _ _ _ Hms Em) as Hmok. pose proof (request_in_ok old m Hb Hl Hmok) as Hreq.
  destruct (tx_round_ok mode block (handed ep) _ _ _ _ empty (ep_tx ep) Hreq Htx) as (tx & -> & Htx'); [by eapply room_no_wrap|].
  cbn [mbind result_bind]. eexists. split; [done|]. set (ep' := mkEndpoint _ tx _).
  assert (Hh : handed ep' = bodies_after mode (handed ep) (cm_body m) (cm_oob m)).
  { unfold handed. change (ep_channel ep') with (ep_channel ep). change (ep_taken ep') with (S (ep_taken ep)).
    rewrite (take_S_r _ _ _ Em). unfold kcp_packets. rewrite omap_app. unfold bodies_after. destruct Hmok as (_ & _ & Ho). unfold oob_allowed, mode_oob in Ho.
    destruct mode, (cm_oob m) eqn:Eo; csimpl; rewrite ?Eo; try done; [by rewrite app_nil_r|]. by specialize (Ho eq_refl). }
  split_and!; try done.
  - constructor; try done.
    + change (ep_channel ep') with (ep_channel ep). change (ep_taken ep') with (S (ep_taken ep)). apply lookup_lt_Some in Em. lia.
    + by rewrite Hh.
  - change (ep_taken ep') with (S (ep_taken ep)). lia.
  - rewrite Hh. apply bodies_after_more.
Qed.

(** A datagram's arrival. *)
Lemma deliver_step c n data x log k : sound log (peers_of x) -> system_inv k x ->
  on_wire (tx_conn (ep_tx (x (negb c)))) !! n = Some data ->
  let D := handed (x (negb c)) in
  exists eff s, packet_input data (ep_session (x c)) = Ok (eff, s) /\
    session_moves (fun p => p ∈ D) (ep_session (x c)) [] [] s /\ decoder_for mode D (ss_fec_decoder (us_state s)).
Proof.
  intros Hs Hinv Hn D. destruct (Hinv (negb c)) as (Hpe & _ & _). destruct (Hinv c) as (Hce & _ & Hdec).
  pose proof (handed_ok _ Hpe) as Hbodies. destruct (ei_config _ Hce) as (Eb & _ & _).
  pose proof (Forall_lookup_1 _ _ _ _ (ti_wire _ _ _ _ (ei_tx _ Hpe)) Hn) as (p & Hp & Hopen).
  pose proof (peer_good mode D Hmode Hbodies) as Hgood.
  apply (packet_input_moves (fun b => b ∈ D) (peer_packet mode D) (decoder_for mode D)); [|exact Hdec].
  intros p' snmp Ep. rewrite Eb, Hopen in Ep. injection Ep as <- _. apply peer_payload; [done| |done].
  intros ->. apply Forall_forall. intros b Hb. apply handed_sent in Hb.
  destruct (Hs (negb c)) as (_ & (_ & _ & Hhist & _) & _). eapply history_flag, (proj1 (Forall_forall _ _) Hhist). exact Hb.
Qed.

Lemma written_only c (t r : list Z) d : written_at d [(c, t, r)] = only c t d.
Proof. unfold written_at, only. csimpl. cbn [fst snd]. rewrite app_nil_r. done. Qed.
Lemma read_only c (t r : list Z) d : read_at d [(c, t, r)] = only c r d.
Proof. unfold read_at, only. csimpl. cbn [fst snd]. rewrite app_nil_r. done. Qed.
Lemma only_empty (c d : bool) : only c ([] : list Z) d = [].
Proof. unfold only. by destruct (Bool.eqb d c). Qed.

(** The invariant, when the end [c] has become [ep]. *)
Lemma system_inv_set n n' x c ep : system_inv n x -> n <= n' -> ep_inv ep -> Z.of_nat (ep_taken ep) <= n' ->
  (exists more, handed ep = handed (x c) ++ more) ->
  decoder_for mode (handed (x (negb c))) (ss_fec_decoder (us_state (ep_session ep))) -> system_inv n' (set_end c ep x).
Proof.
  intros Hinv Hn Hep Ht (more & Hh) Hfd d. destruct (Bool.bool_dec d c) as [->|Hdc].
  - rewrite set_end_same, set_end_other by by destruct c. by split_and!.
  - assert (d = negb c) as -> by (destruct c, d; done). rewrite set_end_other, negb_involutive, set_end_same by done.
    destruct (Hinv (negb c)) as (A1 & A2 & A3). rewrite negb_involutive in A3. split_and!; [done|lia|].
    rewrite Hh. by apply decoder_for_more.
Qed.

Lemma goes_refl log x : sound log (peers_of x) -> goes log x [] x.
Proof.
  intros Hs. exists (fun _ => []). split_and!.
  - eapply sound_pext; [| |exact Hs]; intros d; [by rewrite app_nil_r|done].
  - intros d. by rewrite !app_nil_r.
  - intros L rlog _ Hst. exists (fun _ => []). split; [|by intros d; rewrite app_nil_r].
    eapply streams_ext; [|exact Hst]. intros d. apply app_nil_r.
Qed.

Lemma goes_pext log x es x1 x2 : (forall d, x1 d = x2 d) -> goes log x es x1 -> goes log x es x2.
Proof.
  intros Ex (more & Hs & Ho & Hr). assert (Ep : forall d, peers_of x1 d = peers_of x2 d) by (intros d; unfold peers_of; by rewrite Ex).
  exists more. split_and!.
  - eapply sound_pext; [done|exact Ep|exact Hs].
  - intros d. rewrite <- Ep. apply Ho.
  - intros L rlog HL Hst. destruct (Hr L rlog HL Hst) as (taken & Hst' & Er). exists taken. split.
    + by eapply streams_pext.
    + intros d. rewrite <- Ex. apply Er.
Qed.

(** One step of the system: it does not panic, and both ends go on. *)
Lemma system_step_ok o x log n : system_op_ok o -> sound log (peers_of x) -> system_inv n x -> room_for n -> 0 <= n ->
  exists es x', system_step o x = Ok (es, x') /\ goes log x es x' /\ system_inv (n + 1) x'.
Proof.
  intros Ho Hs Hinv Hr Hn0. destruct o as [c op|c i]; cbn [system_step].
  - destruct (Hinv c) as (Hei & Hn & Hdec). destruct (Hs c) as (Hwf & _).
    assert (Hsess : (exists s t r, ep_step op (x c) = Ok (mkEndpoint s (ep_tx (x c)) (ep_taken (x c)), t, r) /\
        session_moves (fun _ => False) (ep_session (x c)) t r s /\ same_fec (ep_session (x c)) s) ->
      exists es x', (r ← ep_step op (x c); let '(ep, t, r) := r in Ok ([(c, t, r)], set_end c ep x)) = Ok (es, x') /\
        goes log x es x' /\ system_inv (n + 1) x').
    { intros (s & t & r & -> & Hm & Hf). cbn [mbind result_bind]. set (ep' := mkEndpoint s (ep_tx (x c)) (ep_taken (x c))).
      destruct (ep_moves _ _ _ _ _ Hei Hwf Hm) as [Hei' Hh]. eexists _, _. split_and!; [done| |].
      - eapply (moves_goes _ log x c t r ep'); [exact Hm|done|done|intros d; apply written_only|intros d; apply read_only].
      - eapply system_inv_set; [done|lia|exact Hei'|etrans; [exact Hn|lia]|exists []; rewrite app_nil_r; exact Hh|].
        change (decoder_for mode (handed (x (negb c))) (ss_fec_decoder (us_state s))). unfold same_fec in Hf. by rewrite Hf. }
    pose proof (ep_step_moves op (x c) Hei Hwf Ho) as Hm. destruct op as [| | | | | | | | | | | | | |dup|old empty]; try by apply Hsess.
    + clear Hsess Hm. cbn [ep_step mbind result_bind]. set (ep' := mkEndpoint _ _ _). eexists _, _. split_and!; [done| |].
      * eapply (moves_goes (fun _ => False) log x c [] [] ep'); [apply session_moves_refl|done|done|intros d; apply written_only|intros d; apply read_only].
      * eapply system_inv_set; [done|lia| |etrans; [exact Hn|lia]|exists []; rewrite app_nil_r; done|exact Hdec].
        destruct Hei as [A1 A2 A3 A4 [T1 T2 T3 T4 T5 T6]]. by constructor; [..|constructor].
    + clear Hsess Hm. destruct Ho as [Hb Hl]. destruct (transmit_step old empty (x c) n Hei Hb Hl Hr Hn) as (ep' & -> & Hei' & Ht & Hh & Ek & Es & Hc).
      cbn [mbind result_bind]. eexists _, _. split_and!; [done| |].
      * eapply (moves_goes (fun _ => False) log x c [] [] ep'); [|done|done|intros d; apply written_only|intros d; apply read_only].
        apply around_moves; [done| |done]. unfold pending. by rewrite Es.
      * eapply system_inv_set; [done|lia|done|lia|done|]. by rewrite Es.
  - destruct (on_wire (tx_conn (ep_tx (x (negb c)))) !! i) as [data|] eqn:Ed.
    2: { eexists _, _. split_and!; [done|by apply goes_refl|]. intros d. destruct (Hinv d) as (? & ? & ?). split_and!; [done|lia|done]. }
    destruct (deliver_step c i data x log n Hs Hinv Ed) as (eff & s & -> & Hm & Hfd). cbn [mbind result_bind].
    destruct (Hinv c) as (Hei & Hn & _). destruct (Hs c) as (Hwf & _). destruct (ep_moves _ _ _ _ _ Hei Hwf Hm) as [Hei' Hh].
    eexists _, _. split_and!; [done| |].
    + eapply moves_goes; [exact Hm| |done| |].
      * intros p Hp. by apply handed_sent.
      * intros d. by rewrite only_empty.
      * intros d. by rewrite only_empty.
    + eapply system_inv_set; [done|lia|exact Hei'|etrans; [exact Hn|lia]|exists []; rewrite app_nil_r; exact Hh|exact Hfd].
Qed.

Lemma goes_trans log x es x1 : goes log x es x1 -> exists log1, sound log1 (peers_of x1) /\
  forall es1 x2, goes log1 x1 es1 x2 -> goes log x (es ++ es1) x2.
Proof.
  intros (m1 & Hs1 & Ho1 & Hr1). eexists. split; [exact Hs1|]. intros es1 x2 (m2 & Hs2 & Ho2 & Hr2).
  exists (fun c => m1 c ++ m2 c). split_and!.
  - eapply sound_pext; [| |exact Hs2]; intros d; [by rewrite (assoc_L (++))|done].
  - intros c. by rewrite (assoc_L (++)), Ho2, Ho1, written_at_app, (assoc_L (++)).
  - intros L rlog HL Hst. destruct (Hr1 L rlog) as (t1 & Hst1 & Er1); [|done|].
    { intros c. destruct (HL c) as (A1 & A2 & m & Em). split_and!; [done|done|]. exists (m2 c ++ m). by rewrite Em, <- !(assoc_L (++)). }
    destruct (Hr2 L (fun c => rlog c ++ t1 c)) as (t2 & Hst2 & Er2); [|done|].
    { intros c. destruct (HL c) as (A1 & A2 & m & Em). split_and!; [done|done|]. exists m. by rewrite Em, <- !(assoc_L (++)). }
    exists (fun c => t1 c ++ t2 c). split.
    + eapply streams_ext; [|exact Hst2]. intros c. by rewrite (assoc_L (++)).
    + intros c. by rewrite read_at_app, <- (assoc_L (++)), Er2, (assoc_L (++)), Er1, fmap_app, join_app, (assoc_L (++)).
Qed.

Lemma room_for_less n n' : n <= n' -> room_for n' -> room_for n.
Proof. unfold room_for. destruct mode as [m|]; [|done]. intros Hl Hr. etrans; [|exact Hr]. apply Z.mul_le_mono_nonneg_r; lia. Qed.

(** A run of the system. *)
Lemma system_run_ok ops : forall x log n, Forall system_op_ok ops -> sound log (peers_of x) -> system_inv n x -> 0 <= n ->
  room_for (n + zlen ops) ->
  exists es x', system_run ops x = Ok (es, x') /\ goes log x es x' /\ system_inv (n + zlen ops) x'.
Proof.
  induction ops as [|o ops IH]; intros x log n Hops Hs Hinv Hn Hr; cbn [system_run].
  { exists [], x. split_and!; [done|by apply goes_refl|]. change (zlen []) with 0. by rewrite Z.add_0_r. }
  rewrite zlen_cons in Hr |- *. pose proof (zlen_nonneg ops). apply Forall_cons in Hops as [Ho Hops].
  destruct (system_step_ok o x log n Ho Hs Hinv) as (e1 & x1 & -> & Hg1 & Hinv1); [by eapply room_for_less, Hr; lia|done|].
  cbn [mbind result_bind]. destruct (goes_trans _ _ _ _ Hg1) as (log1 & Hs1 & Hg).
  replace (n + (zlen ops + 1)) with (n + 1 + zlen ops) in * by lia.
  destruct (IH x1 log1 (n + 1) Hops Hs1 Hinv1) as (e2 & x2 & -> & Hg2 & Hinv2); [lia|exact Hr|].
  cbn [mbind result_bind]. eexists _, _. split_and!; [done|by apply Hg|done].
Qed.
End System.
