(* ===== verification/SessionTheorems.v ===== *)
(** * What two sessions guarantee

    The byte stream between two applications through everything in between: sessions, state
    machines, FEC, ciphers, the packet tasks and the network; and the bounds of a task's
    batch. *)
From stdpp Require Import base list gmap.
From Stdlib Require Import ZArith Lia.
From S2P Require Import Prelude Word Env Segment Queue Heap KcpState KcpSend KcpFlush KcpInput KcpInv KcpWriter.
From S2P Require Import KcpFlushInv KcpSink KcpDelivery KcpStream KcpSpec KcpSource KcpAcked KcpPeers KcpTheorems.
From S2P Require Import Galois GfVector Matrix Codec CodecSpec Fec FecLayout FecEncoderSpec FecDecoderSpec FecRun.
From S2P Require Import CipherWord Cfb Crypt BufPool Packet Tx TxSpec Session SessionSpec SessionPeers CryptTheorems.
Local Open Scope Z_scope.

(** ** New ends *)

Section Fresh.
Context `{!Crates} `{!CratesLaw} {R : Type} `{!Rng R} `{!Crc}.
Context {Q : Type} `{!ArrayQueue Buffer Q}.
Context {C : Type} `{!Clock C}.
Context {E N Hd : Type} `{!PacketConn E N, !SocketLog E N}.
Implicit Types (s : UdpSession (C := C) (E := E) (Hd := Hd)).

(** The FEC stream of a new session, from its encoder. *)
Definition mode_of (enc : option FecEncoder) : option FecMode :=
  (fun e => mkFecMode (fe_data_shards e) (fe_parity_shards e) (fe_codec e)) <$> enc.

(** What [session_new] makes: the machine of a new connection, with its MTU set. *)
Lemma session_new_spec conv ds ps own listener block (clock : C) drained snmp s enc :
  session_new conv ds ps own listener block clock drained snmp = Ok (s, enc) ->
  let header := header_room (mode_of enc) block in
  let k := with_clock conv (mkKcpOutput header (mkChannel false DEV_BACKLOG [] [] drained)) clock snmp in
  fec_encoder_new ds ps (crypt_header block) = Ok enc /\ fec_decoder_new ds ps = Ok (ss_fec_decoder (us_state s)) /\
  session_moves (H := mode_oob (mode_of enc)) (fun _ => False) (with_kcp k s) [] [] s /\ pending s = [] /\
  us_block s = block /\ us_header_size s = header /\
  us_fec_enabled s = match mode_of enc with Some _ => true | None => false end /\ ch_sent (ko_tx (k_output (us_kcp s))) = [].
Proof.
  intros Hn. unfold session_new in Hn. destruct (fec_decoder_new ds ps) as [fd|[]|] eqn:Ed; [|done].
  destruct (fec_encoder_new ds ps (crypt_header block)) as [fe| |] eqn:Ee; [|done..]. cbv zeta in Hn.
  set (header := if match fe with Some _ => true | None => false end then _ else _) in Hn.
  set (k := with_clock _ _ _ _) in Hn. destruct (set_kcp_mtu _ _ _ k) as [fits k'] eqn:Ek. destruct fits; [|done]. cbn [negb] in Hn.
  assert (Eh : header = header_room (mode_of enc) block).
  { assert (fe = enc) as -> by (by injection Hn). unfold header, header_room. by destruct enc. }
  injection Hn as <- <-. cbn. rewrite <- Eh.
  assert (Hout : k_output k' = k_output k).
  { unfold set_kcp_mtu in Ek. pose proof (set_mtu_output (Z.min IKCP_MTU_DEF (Z.of_nat MTU_LIMIT) - Z.of_nat header - Z.of_nat (crypt_trailer block)) k) as Ho.
    destruct (set_mtu _ k). injection Ek as _ <-. exact Ho. }
  split_and!; try done.
  - exists []. split_and!; [|done|done..].
    assert (Hm : k_moves (H := mode_oob (mode_of fe)) (fun _ => False) k [] [] k').
    { pose proof (moves_step (H := mode_oob (mode_of fe)) (fun _ => False) (OpSetMtu (Z.min IKCP_MTU_DEF (Z.of_nat MTU_LIMIT) - Z.of_nat header - Z.of_nat (crypt_trailer block))) k) as Hm.
      cbn [kcp_step] in Hm. unfold set_kcp_mtu in Ek. destruct (set_mtu _ k). injection Ek as _ <-. apply Hm; [|done]. cbn [op_ok]. unfold IKCP_MTU_DEF, MTU_LIMIT. lia. }
    pose proof (moves_trans _ _ _ _ _ _ _ _ Hm (moves_same_1 (fun _ => False) k' _ (same_machine_snmp (count_open listener (k_snmp k')) k'))) as Hm2.
    exact Hm2.
  - by destruct fe.
  - change (ch_sent (ko_tx (k_output k')) = []). by rewrite Hout.
Qed.

Lemma mode_of_ok ds ps offset enc : fec_encoder_new ds ps offset = Ok enc ->
  match mode_of enc with Some m => mode_ok m | None => True end.
Proof.
  intros Ee. destruct enc as [e|]; [|done]. cbn [mode_of fmap option_fmap option_map].
  pose proof (fec_encoder_new_ok ds ps offset) as He. rewrite Ee in He. destruct He as (Hpos & _ & Eds & Eps & _).
  destruct (codec_new_shape _ _ _ (encoder_codec _ _ _ _ Ee)) as (Hc & Hcd & Hcp & _).
  unfold mode_ok. cbn [fm_data fm_parity fm_codec]. rewrite Eds, Eps. split_and!; [lia..|done|done|done].
Qed.

(** The decoder of the peer follows any stream of the encoder's code. *)
Lemma new_decoder_for ds ps offset enc fd : fec_encoder_new ds ps offset = Ok enc -> fec_decoder_new ds ps = Ok fd ->
  decoder_for (mode_of enc) [] fd.
Proof.
  intros Ee Ed. destruct enc as [e|]; [|done]. cbn [mode_of fmap option_fmap option_map decoder_for].
  pose proof (fec_encoder_new_ok ds ps offset) as He. rewrite Ee in He. destruct He as (Hpos & _ & Eds & Eps & _).
  pose proof (fec_decoder_new_ok ds ps) as Hfd. rewrite Ed in Hfd. destruct fd as [d|]; [|lia].
  destruct (new_tracks (Z.to_nat ds) (Z.to_nat ps) d (stream_of (mkFecMode (fe_data_shards e) (fe_parity_shards e) (fe_codec e)) [])) as [Ht _].
  { by rewrite !Z2Nat.id by lia. }
  assert (Ec : fd_codec d = fe_codec e) by (pose proof (encoder_codec _ _ _ _ Ee); pose proof (decoder_codec _ _ _ Ed); congruence).
  exists d, (fun _ => []). split; [done|]. cbn [fm_data fm_parity fm_codec]. rewrite Ec in Ht. by rewrite <- Eds, <- Eps in Ht.
Qed.

Lemma tx_new_inv ds ps block enc (conn : N) (pool : BufferPool Q) (clock : C) (rng : R) snmp :
  fec_encoder_new ds ps (crypt_header block) = Ok enc -> pool_ok pool -> on_wire conn = [] ->
  tx_inv (mode_of enc) block [] (tx_new conn block enc pool clock rng snmp).
Proof.
  intros Ee Hp Hw. constructor; try done.
  - unfold encoder_at. destruct enc as [e|]; [|done]. cbn. pose proof (fec_encoder_new_ok ds ps (crypt_header block)) as He. rewrite Ee in He.
    destruct He as (Hpos & He & Eds & Eps & Eho). split; [by split_and!|]. exists 0, []. split_and!; [done|done|].
    cbn [fm_data]. by rewrite drop_nil.
  - cbn [tx_conn tx_new]. rewrite Hw. constructor.
Qed.

(** Sequence numbers last for [n] packets. *)
Lemma mode_of_room ds ps offset enc n : fec_encoder_new ds ps offset = Ok enc -> (n + 3) * (ds + ps) <= 4294967040 ->
  room_for (mode_of enc) n.
Proof.
  intros Ee Hn. unfold room_for. destruct enc as [e|]; [|done]. cbn [mode_of fmap option_fmap option_map fm_data fm_parity].
  pose proof (fec_encoder_new_ok ds ps offset) as He. rewrite Ee in He. destruct He as (Hpos & _ & -> & -> & _).
  rewrite Nat2Z.inj_add, !Z2Nat.id by lia. etrans; [exact Hn|]. unfold paws.
  rewrite Nat2Z.inj_add, !Z2Nat.id by lia. set (ss := ds + ps) in *.
  pose proof (Z.div_mod 4294967295 ss ltac:(lia)). pose proof (Z.mod_pos_bound 4294967295 ss ltac:(lia)). lia.
Qed.

(** ** The two ends of a connection *)

Context (conv ds ps : Z) (block : option PacketCrypt) (snmp : Snmp).
Context (own listener : bool -> bool) (clock clock' : bool -> C) (drained : bool -> list nat).
Context (conn : bool -> N) (pool : bool -> BufferPool Q) (rng : bool -> R).
Context (s : bool -> UdpSession (C := C) (E := E) (Hd := Hd)) (enc : bool -> option FecEncoder).

(** Sessions of one conversation, with the same shard counts and cipher, and their tasks. *)
Definition fresh_ends : Endpoints (R := R) (Q := Q) (C := C) (E := E) (N := N) (Hd := Hd) := fun e =>
  mkEndpoint (s e) (tx_new (conn e) block (enc e) (pool e) (clock' e) (rng e) snmp) 0.

Context (Hnew : forall e, session_new conv ds ps (own e) (listener e) block (clock e) (drained e) snmp = Ok (s e, enc e)).

Lemma same_encoder_new e : enc e = enc true.
Proof.
  pose proof (session_new_spec _ _ _ _ _ _ _ _ _ _ _ (Hnew e)) as (E1 & _).
  pose proof (session_new_spec _ _ _ _ _ _ _ _ _ _ _ (Hnew true)) as (E2 & _). congruence.
Qed.

Let mode := mode_of (enc true).

Context (Hconv : is_u32 conv) (Hpool : forall e, pool_ok (pool e) /\ on_wire (conn e) = []).

Lemma fresh_inv : system_inv mode block 0 fresh_ends.
Proof.
  intros e. destruct (session_new_spec _ _ _ _ _ _ _ _ _ _ _ (Hnew e)) as (Ee & Ed & Hm & Hpend & Eb & Eh & Ef & Es).
  destruct (Hpool e) as [Hpe Hwire]. unfold mode in *. rewrite (same_encoder_new e) in *.
  split_and!; [|done|by eapply new_decoder_for].
  destruct Hm as (got & Hm & _). destruct (moves_grow _ _ _ _ _ Hm) as [Ehs _]; [by apply with_clock_wf|].
  constructor; cbn [fresh_ends ep_session ep_tx ep_taken].
  - by split_and!.
  - exact Ehs.
  - change (Forall (message_ok (H := mode_oob (mode_of (enc true))) (header_room (mode_of (enc true)) block)) (ch_sent (ko_tx (k_output (us_kcp (s e)))))).
    rewrite Es. constructor.
  - lia.
  - change (tx_inv (mode_of (enc true)) block [] (tx_new (conn e) block (enc e) (pool e) (clock' e) (rng e) snmp)). rewrite (same_encoder_new e). by eapply tx_new_inv.
Qed.

(** The ends before their machines' MTU is set: two fresh machines. *)
Definition bare_ends : Endpoints (R := R) (Q := Q) (C := C) (E := E) (N := N) (Hd := Hd) := fun e =>
  mkEndpoint (with_kcp (with_clock conv (mkKcpOutput (header_room mode block) (mkChannel false DEV_BACKLOG [] [] (drained e))) (clock e) snmp) (s e))
    (ep_tx (fresh_ends e)) 0.

Lemma bare_fresh : goes (fun _ => []) bare_ends [] fresh_ends.
Proof.
  assert (Hstep : forall c (x : Endpoints (R := R) (Q := Q) (C := C) (E := E) (N := N) (Hd := Hd)) log, x c = bare_ends c -> sound log (peers_of x) ->
    goes log x [] (set_end c (fresh_ends c) x)).
  { intros c x log Ex Hs. destruct (session_new_spec _ _ _ _ _ _ _ _ _ _ _ (Hnew c)) as (_ & _ & Hm & _).
    rewrite (same_encoder_new c) in Hm. eapply (moves_goes mode (fun _ => False)) with (t := []) (r := []); try done.
    - rewrite Ex. exact Hm.
    - intros d. by rewrite only_empty.
    - intros d. by rewrite only_empty. }
  pose proof (fresh_sound conv (fun e => mkKcpOutput (header_room mode block) (mkChannel false DEV_BACKLOG [] [] (drained e))) clock snmp Hconv (fun _ => eq_refl)) as Hs0.
  change (sound (fun _ => []) (peers_of bare_ends)) in Hs0.
  destruct (goes_trans _ _ _ _ (Hstep true _ _ eq_refl Hs0)) as (log1 & Hs1 & Hg).
  assert (Hg2 : goes log1 (set_end true (fresh_ends true) bare_ends) [] (set_end false (fresh_ends false) (set_end true (fresh_ends true) bare_ends))).
  { by apply Hstep. }
  specialize (Hg _ _ Hg2). eapply goes_pext; [|exact Hg]. by intros [].
Qed.
End Fresh.

(** C1: a reliable, ordered byte stream between two applications, end to end.  Take two new
    sessions of one conversation, with the same cipher (or none) and the same FEC shard counts
    (or none), and let them run anything in any interleaving: reads, writes, timers, closing,
    changes of every option, out-of-band packets, their tasks encoding, sealing and sending
    batches, while the network delivers the datagrams on the wire in any order, any number of
    times, or never.  Nothing panics; what an application has read is a prefix of what the
    other has written (less than 2 GiB); and when nothing written is left unacknowledged, the
    rest is there to be read.  FEC's 32-bit sequence numbers are not to wrap. *)
Theorem session_reliable `{!Crates} `{!CratesLaw} {R : Type} `{!Rng R} `{!Crc} {Q : Type} `{!ArrayQueue Buffer Q}
    {C : Type} `{!Clock C} {E N Hd : Type} `{!PacketConn E N, !SocketLog E N}
    conv ds ps block snmp own listener (clock clock' : bool -> C) drained (conn : bool -> N) (pool : bool -> BufferPool Q)
    (rng : bool -> R) (s : bool -> UdpSession (C := C) (E := E) (Hd := Hd)) enc ops :
  is_u32 conv ->
  (forall e, session_new conv ds ps (own e) (listener e) block (clock e) (drained e) snmp = Ok (s e, enc e)) ->
  (forall e, pool_ok (pool e) /\ on_wire (conn e) = []) ->
  Forall system_op_ok ops -> (zlen ops + 3) * (ds + ps) <= 4294967040 ->
  exists es x, system_run ops (fresh_ends block snmp clock' conn pool rng s enc) = Ok (es, x) /\
    (forall e, k_panic (us_kcp (ep_session (x e))) = false) /\
    ((forall e, zlen (written_at e es) <= 2147483648) -> forall e,
       let peer := ep_session (x (negb e)) in
       read_at (negb e) es `prefix_of` written_at e es /\
       (wait_snd (us_kcp (ep_session (x e))) = 0%nat ->
        written_at e es = read_at (negb e) es ++ pending peer ++ queued_bytes (k_rcv_queue (us_kcp peer)))).
Proof.
  intros Hconv Hnew Hpool Hops Hroom. pose proof (session_new_spec _ _ _ _ _ _ _ _ _ _ _ (Hnew true)) as (Ee & _).
  set (mode := mode_of (enc true)). set (x0 := fresh_ends block snmp clock' conn pool rng s enc).
  pose proof (fresh_inv conv ds ps block snmp own listener clock clock' drained conn pool rng s enc Hnew Hconv Hpool) as Hinv.
  pose proof (bare_fresh conv ds ps block snmp own listener clock clock' drained conn pool rng s enc Hnew Hconv) as Hg0.
  destruct (goes_trans _ _ _ _ Hg0) as (log & Hs & Hg).
  destruct (system_run_ok mode block (mode_of_ok _ _ _ _ Ee) ops x0 log 0 Hops Hs Hinv) as (es & x & Erun & Hrun & _);
    [done|by eapply mode_of_room|].
  exists es, x. split; [exact Erun|]. destruct (Hg _ _ Hrun) as (L & HL & Hout & Hread). cbn [app] in HL, Hout, Hread.
  split; [intros e; by destruct (HL e) as ([] & _)|]. intros Hw.
  assert (Hout' : forall e, outbox (L e) (peers_of x e) = written_at e es) by (intros e; exact (Hout e)).
  pose proof (histories_ok L _ _ HL Hout' Hw) as Hok.
  destruct (Hread L (fun _ => [])) as (rlog & Hst & Er).
  { intros e. destruct (Hok e). split_and!; [done|done|]. exists []. by rewrite app_nil_r. }
  { apply (fresh_streams L conv (fun e => mkKcpOutput (header_room mode block) (mkChannel false DEV_BACKLOG [] [] (drained e))) clock snmp Hconv). done. }
  intros e. destruct (histories_read L rlog _ _ HL Hst Hout' Hw e) as [Hp Hall]. specialize (Er (negb e)).
  pose proof (session_new_spec _ _ _ _ _ _ _ _ _ _ _ (Hnew (negb e))) as (_ & _ & _ & Hpend & _).
  change (pending (ep_session (bare_ends conv block snmp clock clock' drained conn pool rng s enc (negb e)))) with (pending (s (negb e))) in Er.
  rewrite Hpend in Er. cbn [app] in Er. cbv zeta in Hp, Hall |- *. rewrite <- Er in Hp, Hall. split.
  - etrans; [|exact Hp]. by eexists.
  - intros Hz. rewrite (assoc_L (++)). by apply Hall.
Qed.

(** C2: the bounds of the packet task.  From any state its invariant holds in, a round with a
    packet of a session succeeds, and after it fewer than 64 datagrams wait - none, when the
    channel was empty - the count of their bytes is exact and less than 64 buffers' worth, and
    no datagram queued or given to the socket is longer than the MTU limit of 1500 bytes. *)
Theorem batch_bounded `{!Crates} `{!CratesLaw} {R : Type} `{!Rng R} `{!Crc} {Q : Type} `{!ArrayQueue Buffer Q}
    {C : Type} `{!Clock C} {E N : Type} `{!PacketConn E N, !SocketLog E N}
    mode block bodies room body oob request empty (t : TxPipeline (R := R) (Q := Q) (C := C) (E := E) (N := N)) :
  request_of mode block room body oob request -> tx_inv mode block bodies t -> no_wrap mode bodies -> counted t ->
  exists t', tx_round request empty t = Ok t' /\
    (length (tx_queue t') < MAX_BATCH_SIZE)%nat /\ (empty = true -> tx_queue t' = []) /\
    tx_bytes_to_send t' = sum_list (pb_len <$> tx_queue t') /\
    (tx_bytes_to_send t' < MAX_BATCH_SIZE * MTU_LIMIT)%nat /\
    forall d, d ∈ (as_slice <$> tx_queue t') ++ on_wire (tx_conn t') -> (length d <= MTU_LIMIT)%nat.
Proof.
  intros Hreq Ht Hw Hc. destruct (process_ok mode block bodies room body oob request t Hreq Ht Hw) as (t1 & Ep & Ht1 & _).
  assert (Hc1 : counted t1) by (exact (process_counted _ _ _ Hc Ep)). unfold tx_round. rewrite Ep. cbn [mbind result_bind]. eexists. split; [reflexivity|].
  set (t' := if empty || _ then _ else t1).
  assert (Hb : tx_inv mode block (bodies_after mode bodies body oob) t' /\ counted t' /\
    (length (tx_queue t') < MAX_BATCH_SIZE)%nat /\ (empty = true -> tx_queue t' = [])).
  { subst t'. destruct (transmit_ok mode block _ _ Ht1) as [Hi _]. destruct (transmit_counted mode block _ _ Ht1 Hc1) as [Hc2 Eq].
    destruct empty; cbn [orb].
    - split_and!; [done|done| |done]. rewrite Eq. unfold MAX_BATCH_SIZE. cbn [length]. lia.
    - destruct (Nat.leb_spec MAX_BATCH_SIZE (length (tx_queue t1))) as [|Hl]; [|by split_and!].
      split_and!; [done|done| |done]. rewrite Eq. unfold MAX_BATCH_SIZE. cbn [length]. lia. }
  clearbody t'. destruct Hb as ([_ _ _ _ Hq _] & [Eb Hwire] & Hl & He).
  assert (Hq' : Forall pb_ok (tx_queue t')) by (eapply Forall_impl; [exact Hq|]; by intros ? [? _]).
  split_and!; [done|done|done| |].
  - rewrite Eb. pose proof (batch_bytes_bound _ Hq'). unfold MAX_BATCH_SIZE, MTU_LIMIT in *. lia.
  - intros d [Hd|Hd]%elem_of_app; [|by apply (proj1 (Forall_forall _ _) Hwire)].
    apply list_elem_of_fmap in Hd as (b & -> & Hd). pose proof (proj1 (Forall_forall _ _) Hq' b Hd) as Hbo.
    rewrite length_as_slice by done. apply Hbo.
Qed.

(** A socket that takes everything. *)
#[export] Program Instance open_socket : PacketConn Empty_set (list (list Z)) := { send_batch msgs n := (inr (length msgs), n ++ msgs) }.
#[export] Program Instance open_socket_log : SocketLog Empty_set (list (list Z)) := { on_wire n := n }.
Next Obligation. intros msgs n d Hd. by apply elem_of_app in Hd. Qed.

Definition talk_block : option PacketCrypt := Some (PacketAead example_aead).
Definition talk_buffer : list Z := replicate 1500 0.

Abbreviation talk_new :=
  (session_new (C := list Z) (E := Empty_set) (Hd := unit) 7 2 1 true false talk_block [5] [] snmp_new).

Definition talk_ends (s : UdpSession (C := list Z) (E := Empty_set) (Hd := unit)) (enc : option FecEncoder) :=
  fresh_ends talk_block snmp_new (fun _ => [5]) (fun _ => [] : list (list Z)) (fun _ => with_default_capacity (Q := nat * list (list Z))) (fun _ => 1) (fun _ => s) (fun _ => enc).

(** Two messages; the first one's datagram is lost, and comes back from the parity packet. *)
Definition talk_ops : list (system_op (E := Empty_set) (Hd := unit)) :=
  [At true (EpNoDelay 1 10 2 1); At true (EpWrite [[1; 2]; [3]]); At true (EpTransmit talk_buffer true);
   At true (EpWrite [[4; 5; 6]]); At true (EpTransmit talk_buffer true);
   Deliver false 1; Deliver false 1; Deliver false 2; At false (EpRead [0; 0; 0; 0]); At false (EpRead [0]); At false (EpRead [0; 0; 0; 0]);
   At false (EpUpdate); At false (EpTransmit talk_buffer true); Deliver true 0].

(** What the talk came to: the bytes, and what is left. *)
Definition talk_result (x : list event * Endpoints (R := Z) (Q := nat * list (list Z)) (C := list Z) (E := Empty_set) (N := list (list Z)) (Hd := unit)) :=
  (written_at true (fst x), read_at false (fst x), zlen (written_at false (fst x)), wait_snd (us_kcp (ep_session (snd x true)))).
Abbreviation talk := (
  match talk_new with
  | Ok (s, enc) => match system_run talk_ops (talk_ends s enc) with Ok x => Some (talk_result x) | _ => None end
  | _ => None
  end).

Lemma talk_ops_ok : Forall system_op_ok talk_ops.
Proof.
  assert (Hb : bytes talk_buffer /\ length talk_buffer = MTU_LIMIT).
  { split; [|apply length_replicate]. apply Forall_replicate. unfold is_u8. lia. }
  assert (Hw : Forall bytes [[1; 2]; [3]] /\ Forall bytes [[4; 5; 6]]) by (split; repeat constructor; unfold is_u8; lia).
  destruct Hw as [Hw1 Hw2]. unfold talk_ops.
  repeat (apply Forall_cons; split; [first [exact I|exact Hb|exact Hw1|exact Hw2]|]). by apply Forall_nil.
Qed.

Lemma talk_pool_ok : pool_ok (with_default_capacity (Q := nat * list (list Z))).
Proof. split; [constructor|]. cbn. lia. Qed.

Lemma talk_runs : talk = Some ([1; 2; 3; 4; 5; 6], [1; 2; 3; 4; 5; 6], 0, 0%nat).
Proof. vm_compute. reflexivity. Qed.

Lemma session_reliable_witness : exists s enc es x, talk_new = Ok (s, enc) /\ system_run talk_ops (talk_ends s enc) = Ok (es, x) /\
  written_at true es = [1; 2; 3; 4; 5; 6] /\ written_at true es =
    read_at false es ++ pending (ep_session (x false)) ++ queued_bytes (k_rcv_queue (us_kcp (ep_session (x false)))).
Proof.
  pose proof talk_runs as Et. destruct talk_new as [[s enc]| |] eqn:Es; [|discriminate Et..].
  destruct (session_reliable 7 2 1 talk_block snmp_new (fun _ => true) (fun _ => false) (fun _ => [5]) (fun _ => [5]) (fun _ => [])
    (fun _ => []) (fun _ => with_default_capacity (Q := nat * list (list Z))) (fun _ => 1) (fun _ => s) (fun _ => enc) talk_ops)
    as (es & x & Er & _ & Hx).
  - unfold is_u32. lia.
  - intros _. exact Es.
  - intros _. split; [exact talk_pool_ok|reflexivity].
  - exact talk_ops_ok.
  - apply Z.leb_le. vm_compute. reflexivity.
  - change (fresh_ends _ _ _ _ _ _ _ _) with (talk_ends s enc) in Er. rewrite Er in Et. unfold talk_result in Et. cbn [fst snd] in Et.
    injection Et as Ew _ Ez Ewait. exists s, enc, es, x. split; [reflexivity|]. split; [exact Er|]. split; [exact Ew|].
    apply (Hx ltac:(intros []; [rewrite Ew|rewrite Ez]; apply Z.leb_le; vm_compute; reflexivity) true). exact Ewait.
Defined.

(** A task without cipher or FEC, and a packet for it. *)
Definition plain_tx : TxPipeline (R := Z) (Q := nat * list (list Z)) (C := list Z) (E := Empty_set) (N := list (list Z)) :=
  tx_new [] None None with_default_capacity [5] 1 snmp_new.

Lemma batch_bounded_witness : exists t', tx_round (request_in talk_buffer 0 (mkMessage false [1; 2; 3])) false plain_tx = Ok t' /\
  (tx_bytes_to_send t' < MAX_BATCH_SIZE * MTU_LIMIT)%nat.
Proof.
  destruct (batch_bounded None None [] [] [1; 2; 3] false (request_in talk_buffer 0 (mkMessage false [1; 2; 3])) false plain_tx)
    as (t' & Et & _ & _ & _ & Hb & _).
  - apply (request_in_ok None None talk_buffer (mkMessage false [1; 2; 3])); [|apply length_replicate|].
    + apply Forall_replicate. unfold is_u8. lia.
    + split_and!; [apply Nat.leb_le; reflexivity| |discriminate]. repeat constructor; unfold is_u8; lia.
  - apply (tx_new_inv 0 0 None None); [reflexivity|exact talk_pool_ok|reflexivity].
  - exact I.
  - split; [reflexivity|constructor].
  - by exists t'.
Defined.
