(* ===== verification/Listener.v ===== *)
(** * The listener: [listener.rs]

    One socket, the sessions of its peers by address and by conversation, and the queue of
    those not accepted yet.  [listener_packet_input] routes a datagram to the session it
    belongs to, or makes one.  Sessions are shared ([Arc]): they live in a store and are named
    by their place in it; the counters are the process's and are lent to the session an
    operation runs on.  [Server] is the state of the process, [server_step] one call of the
    monitor or of the application.  Waiting, deadlines and socket options are not modelled. *)
From stdpp Require Import base gmap list.
From Stdlib Require Import ZArith Lia.
From S2P Require Import Prelude Word Env Segment KcpState KcpSend KcpFlush KcpInput Fec CipherWord.
From S2P Require Import Cfb Crypt BufPool Packet Tx Session.
Local Open Scope Z_scope.

Definition ACCEPT_BACKLOG : nat := 128.
Definition IKCP_SN_OFFSET : nat := 12.

(** [addr.rs:canonical]. *)
Definition canonical (addr : SocketAddr) : SocketAddr :=
  match sa_ip addr with
  | IpV6 a =>
      match to_ipv4_mapped a with
      | Some ip => if sa_scope addr =? 0 then mkSocketAddr (IpV4 ip) (sa_port addr) 0 0 else addr
      | None => addr
      end
  | IpV4 _ => addr
  end.

(** [le_u16], [le_u32]: 0 behind the end. *)
Definition le_at (n off : nat) (data : list Z) : Z :=
  if (off + n <=? length data)%nat then le_val (take n (drop off data)) else 0.
Definition le_u16 (data : list Z) (off : nat) : Z := le_at 2 off data.
Definition le_u32 (data : list Z) (off : nat) : Z := le_at 4 off data.

(** The [match fec_flag] of [packet_input]: whether there is a conversation, it, and the
    sequence number; [None] for a packet that is dropped. *)
Definition framing (data : list Z) : option (bool * Z * Z) :=
  let fec_flag := le_u16 data 4 in
  if fec_flag =? TYPE_DATA then
    if (FEC_HEADER_SIZE_PLUS2 + Z.to_nat IKCP_OVERHEAD <=? length data)%nat then
      Some (true, le_u32 data FEC_HEADER_SIZE_PLUS2, le_u32 data (FEC_HEADER_SIZE_PLUS2 + IKCP_SN_OFFSET))
    else Some (false, 0, 0)
  else if fec_flag =? TYPE_PARITY then Some (false, 0, 0)
  else if fec_flag =? TYPE_OOB then Some (true, le_u32 data FEC_HEADER_SIZE_PLUS2, 0)
  else if (length data <? Z.to_nat IKCP_OVERHEAD)%nat then None
  else Some (true, le_u32 data 0, le_u32 data IKCP_SN_OFFSET).

Section Listener.
Context `{!Crates} `{!Crc} {C : Type} `{Clock C} {E Hd : Type}.
Abbreviation Sess := (UdpSession (C := C) (E := E) (Hd := Hd)).

(** [Listener], apart from its socket, its pool and the deadline. *)
Record Listener := mkListener {
  ls_block : option PacketCrypt;
  ls_data_shards : Z;
  ls_parity_shards : Z;
  ls_own_conn : bool;
  ls_sessions : gmap SocketAddr nat;
  ls_by_conv : gmap Z nat;
  ls_strict_source : bool;
  ls_accepts : list nat;
  ls_die : bool;
  ls_die_once : bool;
  ls_read_error : ErrorSlot E;
  ls_clock : C;
}.
#[export] Instance eta_listener : EtaRecord Listener := fun l =>
  mkListener (ls_block l) (ls_data_shards l) (ls_parity_shards l) (ls_own_conn l) (ls_sessions l) (ls_by_conv l)
    (ls_strict_source l) (ls_accepts l) (ls_die l) (ls_die_once l) (ls_read_error l) (ls_clock l).

(** A session the listener made, the address it was made for, and the encoder its packet task
    started with. *)
Record Held := mkHeld {
  he_session : Sess;
  he_remote : SocketAddr;
  he_encoder : option FecEncoder;
}.

Record Server := mkServer {
  sv_listener : Listener;
  sv_store : list Held;
  sv_snmp : Snmp;
}.
#[export] Instance eta_server : EtaRecord Server := fun sv => mkServer (sv_listener sv) (sv_store sv) (sv_snmp sv).

Implicit Types (l : Listener) (sv : Server) (s : Sess) (id : nat).

(** What an operation does outside, with the session it concerns. *)
Abbreviation Effects := (list (nat * Effect Hd)).

(** [Listener::new]: the shard counts are checked once. *)
Definition listener_new (block : option PacketCrypt) (data_shards parity_shards : Z) (own_conn strict : bool) (clock : C)
    : result FecError Listener :=
  _ ← fec_encoder_new data_shards parity_shards 0;
  Ok {| ls_block := block; ls_data_shards := data_shards; ls_parity_shards := parity_shards; ls_own_conn := own_conn;
        ls_sessions := ∅; ls_by_conv := ∅; ls_strict_source := strict; ls_accepts := []; ls_die := false;
        ls_die_once := false; ls_read_error := error_slot_new; ls_clock := clock |}.

(** [session], [session_by_conv]. *)
Definition session_at (remote : SocketAddr) l : option nat := ls_sessions l !! canonical remote.
Definition session_by_conv (conv : Z) l : option nat := ls_by_conv l !! conv.

(** ** Running on a session *)

(** The counters are lent to the session, and taken back. *)
Definition lend (snmp : Snmp) s : Sess := count (fun _ => snmp) s.
Definition put_session id s sv : Server :=
  sv <| sv_store := alter (fun h => mkHeld s (he_remote h) (he_encoder h)) id (sv_store sv) |>
     <| sv_snmp := k_snmp (us_kcp s) |>.

Definition on_effects id (effects : list (Effect Hd)) : Effects := pair id <$> effects.

(** [session.kcp_input(data)] of session [id]. *)
Definition session_kcp_input id (data : list Z) sv : io (Effects * Server) :=
  match sv_store sv !! id with
  | None => Ok ([], sv)
  | Some h =>
      r ← kcp_input data (lend (sv_snmp sv) (he_session h));
      let '(effects, s) := r in
      Ok (on_effects id effects, put_session id s sv)
  end.

(** ** Closing a session *)

(** [remove_session]: the alias goes with it while it points at this session. *)
Definition remove_session (remote : SocketAddr) sv : bool * Server :=
  let l := sv_listener sv in
  let removed := ls_sessions l !! remote in
  let l := l <| ls_sessions := delete remote (ls_sessions l) |> in
  match removed ≫= fun id => h ← sv_store sv !! id; Some (id, h) with
  | None => (false, sv <| sv_listener := l |>)
  | Some (id, h) =>
      let conv := get_conv (he_session h) in
      let l :=
        if bool_decide (ls_by_conv l !! conv = Some id) then l <| ls_by_conv := delete conv (ls_by_conv l) |> else l in
      (true, sv <| sv_listener := l |>)
  end.

(** [UdpSession::close] up to [close_session]: what is left to do. *)
Definition session_close_begin id sv : list (Effect Hd) * Server :=
  match sv_store sv !! id with
  | None => ([], sv)
  | Some h =>
      match close (lend (sv_snmp sv) (he_session h)) with
      | inl _ => ([], sv)
      | inr (effects, s) => (effects, put_session id s sv)
      end
  end.

(** [close_session] of a session that said so. *)
Definition session_close_end id (effects : list (Effect Hd)) sv : Server :=
  match effects, sv_store sv !! id with
  | [CloseSession], Some h => snd (remove_session (he_remote h) sv)
  | _, _ => sv
  end.

Definition session_close id sv : Server :=
  let '(effects, sv) := session_close_begin id sv in session_close_end id effects sv.

(** ** The incoming packets *)

(** [register_conv]: the first session of a conversation keeps the alias. *)
Definition register_conv (conv : Z) id l : Listener :=
  match ls_by_conv l !! conv with
  | Some _ => l
  | None => l <| ls_by_conv := <[conv := id]> (ls_by_conv l) |>
  end.

Definition push_accept id l : Listener := l <| ls_accepts := ls_accepts l ++ [id] |>.

(** The rest of [packet_input]: a new session for the packet. *)
Definition open_session (has_conv : bool) (conv : Z) (data : list Z) (addr : SocketAddr) (drained : list nat) sv
    : io (Effects * Server) :=
  let l := sv_listener sv in
  if negb has_conv then Ok ([], sv)
  else if (ACCEPT_BACKLOG <=? length (ls_accepts l))%nat then Ok ([], sv)
  else
    match session_new conv (ls_data_shards l) (ls_parity_shards l) false true (ls_block l) (ls_clock l) drained (sv_snmp sv) with
    | Panic => Panic
    | Err _ => Ok ([], sv)
    | Ok (s, encoder) =>
        let id := length (sv_store sv) in
        let sv := sv <| sv_store := sv_store sv ++ [mkHeld s addr encoder] |> <| sv_snmp := k_snmp (us_kcp s) |> in
        r ← session_kcp_input id data sv;
        let '(effects, sv) := r in
        let l := sv_listener sv in
        let l := l <| ls_sessions := <[addr := id]> (ls_sessions l) |> in
        let l := register_conv conv id l in
        let l := push_accept id l in
        Ok (effects, sv <| sv_listener := l |>)
    end.

(** [packet_input]; [drained] is when the task of a session it makes empties the channel. *)
Definition listener_packet_input (data : list Z) (addr : SocketAddr) (drained : list nat) sv : io (Effects * Server) :=
  let addr := canonical addr in
  let l := sv_listener sv in
  let '(r, snmp) := decrypt_packet (ls_block l) data (sv_snmp sv) in
  let sv := sv <| sv_snmp := snmp |> in
  match r with
  | None => Ok ([], sv)
  | Some data =>
      if (length data <? MIN_PACKET_SIZE)%nat then Ok ([], sv)
      else
        let existing := session_at addr l in
        match framing data with
        | None => Ok ([], sv)
        | Some (has_conv, conv, sn) =>
            let existing :=
              match existing with
              | None => if has_conv && negb (ls_strict_source l) then session_by_conv conv l else None
              | found => found
              end in
            match existing ≫= fun id => h ← sv_store sv !! id; Some (id, h) with
            | Some (id, h) =>
                if negb has_conv || (conv =? get_conv (he_session h)) then session_kcp_input id data sv
                else if negb (sn =? 0) then Ok ([], sv)
                else open_session has_conv conv data addr drained (session_close id sv)
            | None => open_session has_conv conv data addr drained sv
            end
        end
  end.

(** The monitor's loop over a batch: a datagram without a sender is dropped. *)
Fixpoint monitor_batch (msgs : list (list Z * option SocketAddr * list nat)) sv : io (Effects * Server) :=
  match msgs with
  | [] => Ok ([], sv)
  | (_, None, _) :: msgs => monitor_batch msgs sv
  | (data, Some addr, drained) :: msgs =>
      r ← listener_packet_input data addr drained sv;
      let '(effects, sv) := r in
      r ← monitor_batch msgs sv;
      let '(more, sv) := r in
      Ok (effects ++ more, sv)
  end.

(** ** The application's side *)

(** One pass of [accept]: a session, or the errors it may wake up to. *)
Definition listener_accept sv : option nat * Server :=
  match ls_accepts (sv_listener sv) with
  | id :: accepts => (Some id, sv <| sv_listener := (sv_listener sv) <| ls_accepts := accepts |> |>)
  | [] => (None, sv)
  end.
Definition accept_wakes sv : list (session_error E) :=
  (match ls_read_error (sv_listener sv) with Some err => [SocketError err] | None => [] end) ++
  (if ls_die (sv_listener sv) then [ClosedPipe] else []).

(** [close]: whether the socket is to be closed. *)
Definition listener_close sv : session_error E + bool * Server :=
  let l := sv_listener sv in
  if ls_die_once l then inl ClosedPipe
  else inr (ls_own_conn l, sv <| sv_listener := l <| ls_die_once := true |> <| ls_die := true |> |>).

(** [notify_read_error]: the first error goes to every session of the map. *)
Definition listener_notify_read_error (err : E) sv : Server :=
  let l := sv_listener sv in
  let '(first, slot) := error_slot_set err (ls_read_error l) in
  let sv := sv <| sv_listener := l <| ls_read_error := slot |> |> in
  if negb first then sv
  else
    let notify held := mkHeld (notify_read_error err (he_session held)) (he_remote held) (he_encoder held) in
    sv <| sv_store := imap (fun id held =>
      if bool_decide (id ∈ snd <$> map_to_list (ls_sessions l)) then notify held else held) (sv_store sv) |>.

(** The monitor leaving on [die], with the error of a closed socket. *)
Definition monitor_stop (closed : E) sv : Server :=
  if ls_own_conn (sv_listener sv) then listener_notify_read_error closed sv else sv.

(** ** The calls *)

(** What the holder of a session may ask of it. *)
Inductive session_call :=
| SRead (b : list Z)
| SWrite (v : list (list Z))
| SUpdate
| SShrink
| SWindow (sndwnd rcvwnd : Z)
| SNoDelay (nodelay interval resend nc : Z)
| SMtu (mtu : Z)
| SStreamMode (enable : bool)
| SAckNoDelay (nodelay : bool)
| SWriteDelay (delay : bool)
| SOob (data : list Z)
| SOobHandler (callback : option Hd).

Definition session_run (call : session_call) s : Sess :=
  match call with
  | SRead b => snd (try_read b s)
  | SWrite v => snd (write_buffers v s)
  | SUpdate => snd (update_session s)
  | SShrink => snd (shrink_recvbuf s)
  | SWindow sndwnd rcvwnd => set_window_size sndwnd rcvwnd s
  | SNoDelay nodelay interval resend nc => set_no_delay nodelay interval resend nc s
  | SMtu mtu => snd (session_set_mtu mtu s)
  | SStreamMode enable => set_stream_mode enable s
  | SAckNoDelay nodelay => set_ack_no_delay nodelay s
  | SWriteDelay delay => set_write_delay delay s
  | SOob data => match send_oob data s with Ok s => s | _ => s end
  | SOobHandler callback => match set_oob_handler callback s with Ok s => s | _ => s end
  end.

Inductive server_op :=
| Datagram (data : list Z) (addr : SocketAddr) (drained : list nat)
| Accept
| CloseListener
| ReadError (err : E)
| CloseHeld (id : nat)
| CallHeld (id : nat) (call : session_call).

Definition server_step (op : server_op) sv : io (Effects * Server) :=
  match op with
  | Datagram data addr drained => listener_packet_input data addr drained sv
  | Accept => Ok ([], snd (listener_accept sv))
  | CloseListener => Ok ([], match listener_close sv with inl _ => sv | inr (_, sv) => sv end)
  | ReadError err => Ok ([], listener_notify_read_error err sv)
  | CloseHeld id => Ok ([], session_close id sv)
  | CallHeld id call =>
      Ok ([], match sv_store sv !! id with
              | None => sv
              | Some h => put_session id (session_run call (lend (sv_snmp sv) (he_session h))) sv
              end)
  end.

Fixpoint server_run (ops : list server_op) sv : io (Effects * Server) :=
  match ops with
  | [] => Ok ([], sv)
  | op :: ops =>
      r ← server_step op sv;
      let '(effects, sv) := r in
      r ← server_run ops sv;
      let '(more, sv) := r in
      Ok (effects ++ more, sv)
  end.
End Listener.
Arguments Listener {_} C E.
