(* ===== verification/ListenerSpec.v ===== *)
(** * What the listener keeps

    A session survives any datagram ([kcp_input_any]), whatever the bytes; the listener's two
    indexes hold exactly its live sessions ([server_ok]), and every call keeps them so.  The
    theorems: no run of calls and datagrams makes the server panic or breaks its indexes, and
    where a datagram goes. *)
From stdpp Require Import base gmap list.
From Stdlib Require Import ZArith Lia.
From S2P Require Import Prelude Word Env Segment KcpState KcpSend KcpFlush KcpInput KcpInv KcpWriter KcpFlushInv KcpSink.
From S2P Require Import Fec FecLayout FecEncoderSpec FecDecoderSpec FecRun CipherWord Cfb Crypt BufPool Packet Tx TxSpec.
From S2P Require Import Session SessionSpec SessionPeers CryptTheorems SessionTheorems Listener.
Local Open Scope Z_scope.

(** ** Any bytes *)

Definition decoder_ok (fd : option FecDecoder) : Prop := match fd with Some d => dec_ok d | None => True end.

Lemma region_payload_bytes r body : bytes r -> region_payload r = Some body -> bytes body.
Proof.
  intros Hr. unfold region_payload. cbv zeta. case_goal; [|done]. intros [= <-].
  by repeat first [apply Forall_take|apply Forall_drop].
Qed.

#[local] Instance any_good : GoodFec (fun _ => True) bytes decoder_ok.
Proof.
  constructor.
  - intros p d snmp Hp Hd. destruct (decode_bytes p d snmp Hd Hp) as (r & d' & snmp' & E & Hd' & Hr).
    exists r, d', snmp'. split_and!; [done|done|]. eapply Forall_impl; [exact Hr|]. intros x Hx. unfold recoverable.
    destruct (region_payload x) eqn:Ex; [|done]. split; [by eapply region_payload_bytes|done].
  - intros p Hp _ _. split; [by apply Forall_drop|done].
  - intros d Ed _. pose proof (fec_decoder_new_ok 1 1) as Hn. rewrite Ed in Hn. cbn. by destruct Hn as (_ & ? & _).
Qed.

#[local] Instance any_oob : OobAllowed := true.

Lemma any_payload p : bytes p -> payload_ok (fun _ => True) bytes p.
Proof. intros Hp. unfold payload_ok. case_goal; [done|]. right. by left. Qed.

Section Sessions.
Context `{!Crates} `{!Crc} {C : Type} `{Clock C} {E Hd : Type}.
Implicit Types (s : UdpSession (C := C) (E := E) (Hd := Hd)).

(** What a session of a server keeps. *)
Record session_ok s : Prop := {
  sk_wf : kcp_wf (us_kcp s);
  sk_decoder : decoder_ok (ss_fec_decoder (us_state s));
  sk_sink : ko_header_size (k_output (us_kcp s)) = us_header_size s;
  sk_listener : us_listener s = true;
}.

(** Who a session is: its conversation, and whether it is closed. *)
Definition session_identity s : Z * bool * bool * bool := (us_conv s, us_listener s, us_die_once s, us_die s).

Lemma moves_ok s t r s' : session_ok s -> session_moves (fun _ => True) s t r s' -> decoder_ok (ss_fec_decoder (us_state s')) ->
  us_listener s' = us_listener s -> session_ok s'.
Proof.
  intros [Hwf HD Hs Hl] (got & Hm & _ & (_ & Eh & _)) HD' El. constructor; [by eapply moves_wf|done| |congruence].
  destruct (moves_grow _ _ _ _ _ Hm Hwf) as [E1 _]. congruence.
Qed.

Lemma lend_ok snmp s : session_ok s -> session_ok (lend snmp s) /\ session_identity (lend snmp s) = session_identity s.
Proof. intros Hs. split; [|done]. eapply moves_ok; [done|apply count_moves|apply Hs|done]. Qed.

Lemma fec_input_identity flag data s eff s' : fec_input flag data s = Ok (eff, s') -> session_identity s' = session_identity s.
Proof.
  unfold fec_input. case_goal; [by intros [= _ <-]|]. destruct (match ss_fec_decoder _ with None => _ | Some _ => _ end) as [d|[]|]; [|done].
  cbn [mbind result_bind]. destruct (if flag =? TYPE_DATA then _ else _) as [bad st]. destruct (session_decode data st) as [[rec st2]|[]|]; [|done].
  cbn [mbind result_bind]. destruct (feed_recovered rec _ st2) as [errs st3]. intros [= _ <-]. by case_goal.
Qed.

Lemma kcp_input_identity data s eff s' : kcp_input data s = Ok (eff, s') -> session_identity s' = session_identity s.
Proof.
  unfold kcp_input. case_goal; [by intros [= _ <-]|]. case_goal; [intros E1; by rewrite (fec_input_identity _ _ _ _ _ E1)|].
  case_goal; [by intros [= _ <-]|]. destruct (feed _ _ _) as [bad st]. intros [= _ <-]. by destruct bad.
Qed.

(** Whatever bytes arrive, the session takes them. *)
Lemma kcp_input_any data s : session_ok s -> bytes data -> (MIN_PACKET_SIZE <= length data)%nat ->
  exists eff s', kcp_input data s = Ok (eff, s') /\ session_ok s' /\ session_identity s' = session_identity s.
Proof.
  intros Hs Hb Hl. destruct (kcp_input_moves (fun _ => True) bytes decoder_ok data s) as (eff & s' & Ei & Hm & HD);
    [by apply any_payload|done|apply Hs|].
  pose proof (kcp_input_identity _ _ _ _ Ei) as Hid. exists eff, s'. split_and!; [done| |done].
  eapply moves_ok; try done. by injection Hid.
Qed.

Definition call_ok (call : session_call (Hd := Hd)) : Prop :=
  match call with SWrite v => Forall bytes v | SOob data => bytes data | _ => True end.

Lemma session_call_ok call s : session_ok s -> call_ok call ->
  session_ok (session_run call s) /\ session_identity (session_run call s) = session_identity s.
Proof.
  intros Hs Hc. pose proof (sk_wf _ Hs) as Hwf. set (N := fun _ : list Z => True).
  assert (Hmove : forall t r s', session_moves N s t r s' -> same_fec s s' -> session_identity s' = session_identity s ->
    session_ok s' /\ session_identity s' = session_identity s).
  { intros t r s' Hm Hf Hid. split; [|done]. eapply moves_ok; [done|exact Hm|rewrite Hf; apply Hs|by injection Hid]. }
  destruct call as [b|v| | |a b|a b c d|m|e|a|a|data|cb]; cbn [session_run call_ok] in *.
  - destruct (try_read_moves N b s Hwf) as (Hm & Hf & _). eapply Hmove; [exact Hm|exact Hf|].
    unfold try_read. case_goal; [by destruct (copy _ _)|]. case_goal; [|done]. case_goal; [by destruct (recv _ _) as [[? ?] ?]|].
    destruct (recv _ _) as [[? ?] ?]. by destruct (copy _ _).
  - unfold write_buffers. destruct (us_write_error s); [done|]. destruct (us_die s) eqn:Ed; [done|].
    destruct (try_write_moves N v s Hc Hwf) as (Hm & Hf & _).
    assert (Hid : session_identity (snd (try_write v s)) = session_identity s) by (unfold try_write; by case_goal).
    destruct (try_write v s) as [[n|] s']; by eapply Hmove.
  - destruct (update_moves N s) as [Hm Hf]. eapply Hmove; [exact Hm|exact Hf|]. unfold update_session. by destruct (flush _ _).
  - destruct (shrink_moves N s) as [Hm Hf]. eapply Hmove; [exact Hm|exact Hf|]. unfold shrink_recvbuf. cbv zeta. by case_goal.
  - eapply Hmove; [apply set_window_size_moves|done|done].
  - eapply Hmove; [apply set_no_delay_moves|done|done].
  - eapply Hmove; [apply session_set_mtu_moves|unfold session_set_mtu; by destruct (set_kcp_mtu _ _ _ _)|].
    unfold session_set_mtu. by destruct (set_kcp_mtu _ _ _ _).
  - eapply Hmove; [apply set_stream_mode_moves|done|done].
  - eapply Hmove; [by apply around_moves|done|done].
  - eapply Hmove; [by apply around_moves|done|done].
  - pose proof (send_oob_moves N data s ltac:(done) Hwf Hc (sk_sink _ Hs)) as Hm.
    assert (Hid : forall s', send_oob data s = Ok s' -> session_identity s' = session_identity s).
    { intros s'. unfold send_oob. case_goal; [done|]. case_goal; [done|]. case_goal; [done|]. destruct (channel_send _ _) as [[]]; by intros [= <-]. }
    destruct (send_oob data s) as [s'|err|]; [|done..]. destruct Hm as [Hm Hf]. eapply Hmove; [exact Hm|exact Hf|by apply Hid].
  - unfold set_oob_handler. case_goal; [done|]. eapply Hmove; [by apply around_moves|done|done].
Qed.

Lemma close_ok s : session_ok s ->
  match close s with
  | inl _ => us_die_once s = true
  | inr (eff, s') => eff = [CloseSession] /\ session_ok s' /\ us_die_once s = false /\ us_die_once s' = true /\ us_conv s' = us_conv s
  end.
Proof.
  intros Hs. pose proof (close_moves (fun _ => True) s) as Hm. pose proof (sk_listener _ Hs) as El.
  assert (Hid : match close s with inl _ => True | inr (eff, s') => eff = [CloseSession] /\ us_die_once s' = true /\ us_conv s' = us_conv s /\ us_listener s' = us_listener s end).
  { unfold close. case_goal; [done|]. cbn. by rewrite El. }
  destruct (close s) as [err|[eff s']]; [done|]. destruct Hm as (Hm & Hf & _ & Ed). destruct Hid as (-> & E1 & E2 & E3).
  split_and!; try done. eapply moves_ok; [done|exact Hm|rewrite Hf; apply Hs|done].
Qed.

Lemma notify_ok err s : session_ok s -> session_ok (notify_read_error err s) /\ session_identity (notify_read_error err s) = session_identity s.
Proof. intros Hs. split; [|done]. eapply moves_ok; [done|by apply around_moves|apply Hs|done]. Qed.
End Sessions.

(** ** The indexes *)

Section Indexes.
Context `{!Crates} {C E : Type}.
Implicit Types (l : Listener C E) (view : list (SocketAddr * Z * bool)).

(** A listener over sessions with these addresses and conversations, closed or not. *)
Record index_ok view l : Prop := {
  ix_sessions a id : ls_sessions l !! a = Some id <-> exists c, view !! id = Some (a, c, false);
  ix_canonical a c d id : view !! id = Some (a, c, d) -> canonical a = a;
  ix_alias c id : ls_by_conv l !! c = Some id -> exists a, view !! id = Some (a, c, false);
  ix_backlog : (length (ls_accepts l) <= ACCEPT_BACKLOG)%nat;
  ix_accepts : NoDup (ls_accepts l) /\ forall id, id ∈ ls_accepts l -> (id < length view)%nat;
}.

(** The index with a new session. *)
Definition index_open (a : SocketAddr) (c : Z) (id : nat) l : Listener C E :=
  push_accept id (register_conv c id (l <| ls_sessions := <[a := id]> (ls_sessions l) |>)).

Lemma index_open_eq a c id l : index_open a c id l =
  l <| ls_sessions := <[a := id]> (ls_sessions l) |> <| ls_by_conv := <[c := default id (ls_by_conv l !! c)]> (ls_by_conv l) |>
    <| ls_accepts := ls_accepts l ++ [id] |>.
Proof.
  unfold index_open, register_conv, push_accept. change (ls_by_conv (l <| ls_sessions := _ |>)) with (ls_by_conv l).
  destruct (ls_by_conv l !! c) as [id'|] eqn:Ea; [|done]. cbn [from_option Datatypes.id]. rewrite (insert_id (ls_by_conv l) c id' Ea). by destruct l.
Qed.

Lemma index_open_ok view l a c : index_ok view l -> canonical a = a -> ls_sessions l !! a = None ->
  (length (ls_accepts l) < ACCEPT_BACKLOG)%nat -> index_ok (view ++ [(a, c, false)]) (index_open a c (length view) l).
Proof.
  intros [Hs Hc Ha Hb [Hn Hq]] Hca Hfree Hroom.
  assert (Hold : forall id x, view !! id = Some x -> (view ++ [(a, c, false)]) !! id = Some x).
  { intros id x Hx. by apply lookup_app_l_Some. }
  assert (Hnew : (view ++ [(a, c, false)]) !! length view = Some (a, c, false)) by by apply list_lookup_middle.
  assert (Hinv : forall id x, (view ++ [(a, c, false)]) !! id = Some x -> view !! id = Some x \/ id = length view /\ x = (a, c, false)).
  { intros id x [Hx|[Hl Hx]]%lookup_app_Some; [by left|right]. apply list_lookup_singleton_Some in Hx as [E1 <-]. split; [lia|done]. }
  assert (Eacc : ls_accepts (index_open a c (length view) l) = ls_accepts l ++ [length view]).
  { unfold index_open, register_conv. by case_goal. }
  constructor.
  - intros a' id. assert (ls_sessions (index_open a c (length view) l) = <[a := length view]> (ls_sessions l)) as -> by (unfold index_open, register_conv; by case_goal).
    destruct (decide (a' = a)) as [->|Hne].
    + rewrite lookup_insert_eq. split; [intros [= <-]; by exists c|]. intros (c' & [Hx|[-> _]]%Hinv); [|done].
      pose proof (proj2 (Hs a id) (ex_intro _ c' Hx)) as Hy. congruence.
    + rewrite lookup_insert_ne by done. rewrite Hs. split; intros (c' & Hx); exists c'; [by apply Hold|].
      apply Hinv in Hx as [|[_ [= -> _]]]; done.
  - intros a' c' d id [Hx|[_ [= -> _ _]]]%Hinv; [by eapply Hc|done].
  - intros c' id. unfold index_open, register_conv, push_accept. cbn [ls_by_conv field_update].
    destruct (ls_by_conv l !! c) as [id'|] eqn:Ec.
    + intros Hx. change (ls_by_conv l !! c' = Some id) in Hx. destruct (Ha _ _ Hx) as [a' ?]. exists a'. by apply Hold.
    + change (<[c := length view]> (ls_by_conv l) !! c' = Some id -> exists a0, (view ++ [(a, c, false)]) !! id = Some (a0, c', false)).
      intros [[-> <-]|[_ Hx]]%lookup_insert_Some; [by exists a|]. destruct (Ha _ _ Hx) as [a' ?]. exists a'. by apply Hold.
  - rewrite Eacc, length_app. cbn [length]. lia.
  - rewrite Eacc. split.
    + apply NoDup_app. split_and!; [done| |apply NoDup_singleton]. intros id Hid ->%list_elem_of_singleton. specialize (Hq _ Hid). lia.
    + intros id. rewrite elem_of_app, length_app. cbn [length]. intros [Hid| ->%list_elem_of_singleton]; [specialize (Hq _ Hid)|]; lia.
Qed.

(** The index without session [id]. *)
Definition index_close (a : SocketAddr) (c : Z) (id : nat) l : Listener C E :=
  let l := l <| ls_sessions := delete a (ls_sessions l) |> in
  if bool_decide (ls_by_conv l !! c = Some id) then l <| ls_by_conv := delete c (ls_by_conv l) |> else l.

Lemma index_close_eq a c id l : index_close a c id l =
  l <| ls_sessions := delete a (ls_sessions l) |>
    <| ls_by_conv := if bool_decide (ls_by_conv l !! c = Some id) then delete c (ls_by_conv l) else ls_by_conv l |>.
Proof. unfold index_close. cbv zeta. change (ls_by_conv (l <| ls_sessions := _ |>)) with (ls_by_conv l). case_goal; by destruct l. Qed.

Lemma index_close_ok view l id a c : index_ok view l -> view !! id = Some (a, c, false) ->
  index_ok (<[id := (a, c, true)]> view) (index_close a c id l).
Proof.
  intros [Hs Hc Ha Hb [Hn Hq]] Hid. pose proof (lookup_lt_Some _ _ _ Hid) as Hlt.
  assert (Hinv : forall j x, <[id := (a, c, true)]> view !! j = Some x -> j <> id /\ view !! j = Some x \/ j = id /\ x = (a, c, true)).
  { intros j x [(<- & <- & _)|[? ?]]%list_lookup_insert_Some; [by right|by left]. }
  assert (Hold : forall j x, j <> id -> view !! j = Some x -> <[id := (a, c, true)]> view !! j = Some x).
  { intros j x Hj Hx. by rewrite list_lookup_insert_ne. }
  assert (Esess : ls_sessions (index_close a c id l) = delete a (ls_sessions l)) by (unfold index_close; cbv zeta; by case_goal).
  assert (Eacc : ls_accepts (index_close a c id l) = ls_accepts l) by (unfold index_close; cbv zeta; by case_goal).
  constructor.
  - intros a' j. rewrite Esess, lookup_delete_Some, Hs. split.
    + intros (Hne & c' & Hx). exists c'. apply Hold; [|done]. intros ->. congruence.
    + intros (c' & [[Hj Hx]|[_ [= ]]]%Hinv). split; [|by exists c']. intros <-.
      pose proof (proj2 (Hs a j) (ex_intro _ c' Hx)). pose proof (proj2 (Hs a id) (ex_intro _ c Hid)). congruence.
  - intros a' c' d j [[_ Hx]|[_ [= -> _ _]]]%Hinv; by eapply Hc.
  - intros c' j Hx. assert (Hj : j <> id /\ ls_by_conv l !! c' = Some j).
    { unfold index_close in Hx. cbv zeta in Hx. change (ls_by_conv (l <| ls_sessions := _ |>)) with (ls_by_conv l) in Hx.
      destruct (bool_decide_reflect (ls_by_conv l !! c = Some id)) as [Hal|Hal].
      - change (delete c (ls_by_conv l) !! c' = Some j) in Hx. apply lookup_delete_Some in Hx as [Hne Hx]. split; [|done].
        intros ->. destruct (Ha _ _ Hx) as [a' Hx']. congruence.
      - change (ls_by_conv l !! c' = Some j) in Hx. split; [|done]. intros ->. destruct (Ha _ _ Hx) as [a' Hx']. congruence. }
    destruct Hj as [Hj Hy]. destruct (Ha _ _ Hy) as [a' Hz]. exists a'. by apply Hold.
  - by rewrite Eacc.
  - rewrite Eacc. split; [done|]. intros j Hj. rewrite length_insert. by apply Hq.
Qed.
End Indexes.

(** ** Making a session *)

Section New.
Context `{!Crates} `{!Crc} {C : Type} `{Clock C} {E Hd : Type}.

(** A session is always made once the shard counts are good. *)
Lemma udp_session_new_ok conv ds ps block (clock : C) drained snmp enc0 : is_u32 conv -> fec_encoder_new ds ps 0 = Ok enc0 ->
  exists (s : UdpSession (C := C) (E := E) (Hd := Hd)) enc,
    session_new conv ds ps false true block clock drained snmp = Ok (s, enc) /\
    session_ok s /\ session_identity s = (conv, true, false, false) /\ us_block s = block.
Proof.
  intros Hconv E0.
  assert (Hsome : exists s enc, session_new (E := E) (Hd := Hd) conv ds ps false true block clock drained snmp = Ok (s, enc) /\
    session_identity s = (conv, true, false, false)).
  { unfold session_new. pose proof (fec_decoder_new_ok ds ps) as Hdec. destruct (fec_decoder_new ds ps) as [fd|[]|]; [|done].
    pose proof (fec_encoder_new_ok ds ps (crypt_header block)) as He. pose proof (fec_encoder_new_ok ds ps 0) as He0. rewrite E0 in He0.
    destruct (fec_encoder_new ds ps (crypt_header block)) as [enc|err|]; [|destruct He as (_ & He), enc0; cbv iota in He0; [destruct He0 as (He0 & _)|]; lia|done].
    cbv zeta. set (header := if match enc with Some _ => true | None => false end then _ else _). unfold set_kcp_mtu, set_mtu.
    assert (Hh : (header <= 28)%nat /\ (crypt_trailer block <= 16)%nat).
    { unfold header, crypt_header, crypt_trailer, nonce_size, overhead, AEAD_NONCE, AEAD_OVERHEAD, FEC_HEADER_SIZE_PLUS2, CRYPT_HEADER_SIZE, NONCE_SIZE, CRC_SIZE.
      destruct enc, block as [[]|]; cbn; lia. }
    unfold IKCP_MTU_DEF, MTU_LIMIT, IKCP_OVERHEAD. rewrite (proj2 (Z.ltb_ge _ _)), (proj2 (Z.ltb_ge _ _)) by lia. cbn [orb]. change (0 =? 0) with true. cbn [negb].
    eexists _, _. split; [reflexivity|done]. }
  destruct Hsome as (s & enc & Es & Hid). exists s, enc. pose proof (session_new_spec _ _ _ _ _ _ _ _ _ _ _ Es) as (_ & Ed & Hm & _ & Eb & Eh & _).
  split_and!; [done| |done|done]. destruct Hm as (got & Hm & _).
  assert (Hwf0 : kcp_wf (with_clock conv (mkKcpOutput (header_room (mode_of enc) block) (mkChannel false DEV_BACKLOG [] [] drained)) clock snmp)) by by apply with_clock_wf.
  constructor.
  - exact (moves_wf _ _ _ _ _ Hm Hwf0).
  - pose proof (fec_decoder_new_ok ds ps) as Hdec. rewrite Ed in Hdec. destruct (ss_fec_decoder (us_state s)); [|done]. apply Hdec.
  - destruct (moves_grow _ _ _ _ _ Hm Hwf0) as [E1 _]. rewrite Eh. exact E1.
  - by injection Hid.
Qed.
End New.

Lemma le_at_range n off data : bytes data -> 0 <= le_at n off data < 256 ^ Z.of_nat n.
Proof.
  intros Hb. unfold le_at. case_goal; [|lia]. destruct (Nat.leb_spec (off + n) (length data)) as [Hl|]; [|done].
  apply le_val_take_range; [by apply Forall_drop|rewrite length_drop; lia].
Qed.

Lemma framing_conv data hc conv sn : bytes data -> framing data = Some (hc, conv, sn) -> is_u32 conv.
Proof.
  intros Hb. assert (H32 : forall off, is_u32 (le_u32 data off)) by (intros off; exact (le_at_range 4 off data Hb)).
  assert (H0 : is_u32 0) by (unfold is_u32; lia). unfold framing. cbv zeta. repeat case_goal; intros [= _ <- _]; done.
Qed.

(** ** What a payload carries

    The wire format, from the writer's side: behind a FEC header (four bytes of sequence number,
    the type, and the size of a data packet) or not, a segment starts with its conversation and
    has its sequence number eight bytes behind that. *)
Inductive cargo := Segment_of (conv sn : Z) | Unnamed | Garbage.

Definition fec_tagged (p : list Z) : Prop := exists t, t ∈ [241; 242; 243] /\ take 2 (drop 4 p) = [t; 0].

Inductive carries : list Z -> cargo -> Prop :=
| carries_data seqid size conv mid sn rest :
    length seqid = 4%nat -> length size = 2%nat -> length mid = 8%nat -> (8 <= length rest)%nat -> is_u32 conv -> is_u32 sn ->
    carries (seqid ++ [241; 0] ++ size ++ le_bytes 4 conv ++ mid ++ le_bytes 4 sn ++ rest) (Segment_of conv sn)
| carries_short_data seqid rest : length seqid = 4%nat -> (length rest < 26)%nat -> carries (seqid ++ [241; 0] ++ rest) Unnamed
| carries_parity seqid rest : length seqid = 4%nat -> carries (seqid ++ [242; 0] ++ rest) Unnamed
| carries_oob seqid size conv rest : length seqid = 4%nat -> length size = 2%nat -> is_u32 conv ->
    carries (seqid ++ [243; 0] ++ size ++ le_bytes 4 conv ++ rest) (Segment_of conv 0)
| carries_plain conv mid sn rest : length mid = 8%nat -> (8 <= length rest)%nat -> is_u32 conv -> is_u32 sn ->
    ~ fec_tagged (le_bytes 4 conv ++ mid ++ le_bytes 4 sn ++ rest) ->
    carries (le_bytes 4 conv ++ mid ++ le_bytes 4 sn ++ rest) (Segment_of conv sn)
| carries_stub p : ~ fec_tagged p -> (length p < 24)%nat -> carries p Garbage.

Definition framing_of (w : cargo) : option (bool * Z * Z) :=
  match w with Segment_of conv sn => Some (true, conv, sn) | Unnamed => Some (false, 0, 0) | Garbage => None end.

Lemma le_at_app n off a b : length a = off -> le_at n off (a ++ b) = le_at n 0 b.
Proof.
  intros Hl. unfold le_at. rewrite length_app, drop_app_length' by done. rewrite drop_0.
  destruct (Nat.leb_spec (off + n) (length a + length b)), (Nat.leb_spec (0 + n) (length b)); try done; lia.
Qed.

Lemma le_at_bytes n v rest : 0 <= v < 256 ^ Z.of_nat n -> le_at n 0 (le_bytes n v ++ rest) = v.
Proof.
  intros Hv. unfold le_at. rewrite drop_0, length_app, length_le_bytes, take_app_length' by by rewrite length_le_bytes.
  rewrite le_val_le_bytes. destruct (Nat.leb_spec (0 + n) (n + length rest)); [by apply Z.mod_small|lia].
Qed.

(** The bytes at an offset, as a number and back. *)
Lemma le_at_split n off p : bytes p -> (off + n <= length p)%nat ->
  p = take off p ++ le_bytes n (le_at n off p) ++ drop (off + n) p.
Proof.
  intros Hb Hl. unfold le_at. rewrite (proj2 (Nat.leb_le _ _)) by done.
  assert (E : le_bytes n (le_val (take n (drop off p))) = take n (drop off p)).
  { rewrite <- (le_bytes_le_val (take n (drop off p))) at 2 by by apply Forall_take, Forall_drop.
    by rewrite length_take, length_drop, Nat.min_l by lia. }
  rewrite E, <- drop_drop, take_drop, take_drop. done.
Qed.

Lemma flag_tagged p t : bytes p -> 0 < t < 256 -> le_u16 p 4 = t <-> take 2 (drop 4 p) = [t; 0].
Proof.
  intros Hb Ht. unfold le_u16, le_at. destruct (Nat.leb_spec (4 + 2) (length p)) as [Hl|Hl].
  - assert (Hb' : bytes (take 2 (drop 4 p))) by by apply Forall_take, Forall_drop. assert (Hl' : length (take 2 (drop 4 p)) = 2%nat) by (rewrite length_take, length_drop; lia).
    destruct (take 2 (drop 4 p)) as [|x [|y [|z l]]]; try done. apply Forall_cons in Hb' as [Hx [Hy _]%Forall_cons]. unfold is_u8 in *.
    cbn [le_val]. split; [intros E; f_equal; [lia|f_equal; lia]|intros [= -> ->]; lia].
  - split; [lia|]. intros E. apply (f_equal length) in E. rewrite length_take, length_drop in E. cbn [length] in E. lia.
Qed.

Lemma flag_app seqid t rest : length seqid = 4%nat -> 0 <= t < 256 -> le_u16 (seqid ++ [t; 0] ++ rest) 4 = t.
Proof.
  intros Hl Ht. unfold le_u16. rewrite le_at_app by done. unfold le_at. change (take 2 (drop 0 ([t; 0] ++ rest))) with [t; 0]. change (Nat.leb (0 + 2) (length ([t; 0] ++ rest))) with true. cbn [le_val]. lia.
Qed.

Lemma untagged p : bytes p -> ~ fec_tagged p -> (le_u16 p 4 =? TYPE_DATA) = false /\ (le_u16 p 4 =? TYPE_PARITY) = false /\ (le_u16 p 4 =? TYPE_OOB) = false.
Proof.
  intros Hb Hn. unfold TYPE_DATA, TYPE_PARITY, TYPE_OOB. split_and!; apply Z.eqb_neq; intros E; apply Hn; eexists; (split; [|apply flag_tagged; [done| |exact E]; lia]); set_solver.
Qed.

Lemma is_u32_bytes z : is_u32 z -> 0 <= z < 256 ^ Z.of_nat 4.
Proof. done. Qed.

(** The match of [packet_input] reads what a payload carries. *)
Lemma carries_framing p w : bytes p -> carries p w -> framing p = framing_of w.
Proof.
  intros Hb Hc. destruct Hc as [seqid size conv mid sn rest L1 L2 L3 L4 Hu Hs|seqid rest L1 L2|seqid rest L1|seqid size conv rest L1 L2 Hu|conv mid sn rest L3 L4 Hu Hs Hn|p Hn L];
    unfold framing; cbv zeta; change FEC_HEADER_SIZE_PLUS2 with 8%nat; change (Z.to_nat IKCP_OVERHEAD) with 24%nat; change IKCP_SN_OFFSET with 12%nat.
  - rewrite flag_app by (done || lia). change (241 =? TYPE_DATA) with true. cbv iota.
    rewrite !length_app, !length_le_bytes, L1, L2, L3. cbn [length]. rewrite (proj2 (Nat.leb_le _ _)) by lia.
    unfold le_u32. cbn [framing_of]. do 2 f_equal; [f_equal|].
    + rewrite (assoc_L (++) seqid), (assoc_L (++) _ size), le_at_app by (rewrite !length_app, L1, L2; done). by apply le_at_bytes.
    + rewrite (assoc_L (++) seqid), (assoc_L (++) _ size), (assoc_L (++) _ (le_bytes 4 conv)), (assoc_L (++) _ mid), le_at_app
        by (rewrite !length_app, length_le_bytes, L1, L2, L3; done). by apply le_at_bytes.
  - rewrite flag_app by (done || lia). change (241 =? TYPE_DATA) with true. cbv iota.
    rewrite !length_app, L1. cbn [length]. by rewrite (proj2 (Nat.leb_gt _ _)) by lia.
  - by rewrite flag_app by (done || lia).
  - rewrite flag_app by (done || lia). change (243 =? TYPE_DATA) with false. change (243 =? TYPE_PARITY) with false. change (243 =? TYPE_OOB) with true. cbv iota.
    cbn [framing_of]. do 3 f_equal. unfold le_u32.
    rewrite (assoc_L (++) seqid), (assoc_L (++) _ size), le_at_app by (rewrite !length_app, L1, L2; done). by apply le_at_bytes.
  - destruct (untagged _ Hb Hn) as (-> & -> & ->). rewrite !length_app, !length_le_bytes, L3.
    rewrite (proj2 (Nat.ltb_ge _ _)) by lia. unfold le_u32. cbn [framing_of]. do 2 f_equal; [f_equal|].
    + by apply le_at_bytes.
    + rewrite (assoc_L (++) _ mid), le_at_app by (rewrite length_app, length_le_bytes, L3; done). by apply le_at_bytes.
  - destruct (untagged _ Hb Hn) as (-> & -> & ->). by rewrite (proj2 (Nat.ltb_lt _ _)) by lia.
Qed.

(** Every payload of the least size carries something. *)
Lemma payload_carries p : bytes p -> (12 <= length p)%nat -> exists w, carries p w.
Proof.
  intros Hb Hl. assert (H32 : forall off, is_u32 (le_u32 p off)) by (intros off; exact (le_at_range 4 off p Hb)).
  assert (Hsplit : forall t, le_u16 p 4 = t -> 0 < t < 256 -> p = take 4 p ++ [t; 0] ++ drop 6 p).
  { intros t Et Ht. apply flag_tagged in Et; [|done|done]. rewrite <- Et. change 6%nat with (4 + 2)%nat. by rewrite <- drop_drop, take_drop, take_drop. }
  assert (L4 : length (take 4 p) = 4%nat) by (rewrite length_take; lia).
  destruct (decide (le_u16 p 4 = 241)) as [E1|N1].
  { pose proof (Hsplit _ E1 ltac:(lia)) as Ep. destruct (Nat.leb_spec 32 (length p)) as [Hl32|Hs].
    - exists (Segment_of (le_u32 p 8) (le_u32 p 20)). rewrite Ep at 1.
      assert (E6 : drop 6 p = take 2 (drop 6 p) ++ le_bytes 4 (le_u32 p 8) ++ take 8 (drop 12 p) ++ le_bytes 4 (le_u32 p 20) ++ drop 24 p).
      { unfold le_u32, le_at. rewrite !(proj2 (Nat.leb_le _ _)) by lia.
        assert (Eb : forall off, (off + 4 <= length p)%nat -> le_bytes 4 (le_val (take 4 (drop off p))) = take 4 (drop off p)).
        { intros off Hoff. rewrite <- (le_bytes_le_val (take 4 (drop off p))) at 2 by by apply Forall_take, Forall_drop.
          by rewrite length_take, length_drop, Nat.min_l by lia. }
        rewrite !Eb by lia. change 24%nat with (20 + 4)%nat. rewrite <- drop_drop, (take_drop 4). change 20%nat with (12 + 8)%nat.
        rewrite <- drop_drop, (take_drop 8). change 12%nat with (8 + 4)%nat. rewrite <- drop_drop, (take_drop 4).
        change 8%nat with (6 + 2)%nat. by rewrite <- drop_drop, take_drop. }
      rewrite E6. apply carries_data; try done; rewrite ?length_take, ?length_drop; lia.
    - exists Unnamed. rewrite Ep. apply carries_short_data; [done|rewrite length_drop; lia]. }
  destruct (decide (le_u16 p 4 = 242)) as [E2|N2].
  { exists Unnamed. rewrite (Hsplit _ E2 ltac:(lia)). by apply carries_parity. }
  destruct (decide (le_u16 p 4 = 243)) as [E3|N3].
  { exists (Segment_of (le_u32 p 8) 0). rewrite (Hsplit _ E3 ltac:(lia)) at 1.
    assert (E6 : drop 6 p = take 2 (drop 6 p) ++ le_bytes 4 (le_u32 p 8) ++ drop 12 p).
    { pose proof (le_at_split 4 2 (drop 6 p) ltac:(by apply Forall_drop) ltac:(rewrite length_drop; lia)) as E.
      unfold le_u32. assert (Eo : le_at 4 8 p = le_at 4 2 (drop 6 p)).
      { rewrite <- (take_drop 6 p) at 1. unfold le_at. rewrite take_drop, length_drop, drop_drop.
        destruct (Nat.leb_spec (8 + 4) (length p)), (Nat.leb_spec (2 + 4) (length p - 6)); try done; lia. }
      rewrite Eo. rewrite drop_drop in E. exact E. }
    rewrite E6. apply carries_oob; [done|rewrite length_take, length_drop; lia|done]. }
  assert (Hn : ~ fec_tagged p).
  { intros (t & Ht & Et). assert (Hr : 0 < t < 256) by set_solver by lia. apply flag_tagged in Et; [|done|done]. set_solver. }
  destruct (Nat.leb_spec 24 (length p)) as [Hl24|Hs].
  - exists (Segment_of (le_u32 p 0) (le_u32 p 12)).
    assert (E6 : p = le_bytes 4 (le_u32 p 0) ++ take 8 (drop 4 p) ++ le_bytes 4 (le_u32 p 12) ++ drop 16 p).
    { pose proof (le_at_split 4 0 p Hb ltac:(lia)) as E. rewrite take_0 in E. cbn [app Nat.add] in E.
      pose proof (le_at_split 4 8 (drop 4 p) ltac:(by apply Forall_drop) ltac:(rewrite length_drop; lia)) as E'. rewrite drop_drop in E'. cbn [Nat.add] in E'.
      assert (Eo : le_at 4 8 (drop 4 p) = le_u32 p 12).
      { unfold le_u32, le_at. rewrite length_drop, drop_drop.
        destruct (Nat.leb_spec (8 + 4) (length p - 4)), (Nat.leb_spec (12 + 4) (length p)); try done; lia. }
      rewrite Eo in E'. rewrite E at 1. by rewrite E' at 1. }
    rewrite E6 at 1. rewrite E6 in Hn at 1. apply carries_plain; try done; rewrite ?length_take, ?length_drop; lia.
  - exists Garbage. by apply carries_stub.
Qed.

(** ** The server *)

Section Server.
Context `{!Crates} `{!Crc} {C : Type} `{Clock C} {E Hd : Type}.
Implicit Types (sv : Server (C := C) (E := E) (Hd := Hd)) (h : Held (C := C) (E := E) (Hd := Hd)) (s : UdpSession (C := C) (E := E) (Hd := Hd)).

(** A session as the indexes see it. *)
Definition held_view h : SocketAddr * Z * bool := (he_remote h, us_conv (he_session h), us_die_once (he_session h)).

(** Every session is sound; the listener has a cipher and shard counts a codec can serve; its
    indexes are those of its sessions. *)
Record server_ok sv : Prop := {
  so_cipher : cipher_ok (ls_block (sv_listener sv));
  so_sessions : Forall (fun h => session_ok (he_session h)) (sv_store sv);
  so_shards : exists enc, fec_encoder_new (ls_data_shards (sv_listener sv)) (ls_parity_shards (sv_listener sv)) 0 = Ok enc;
  so_index : index_ok (held_view <$> sv_store sv) (sv_listener sv);
}.

Lemma snmp_ok snmp sv : server_ok sv -> server_ok (sv <| sv_snmp := snmp |>).
Proof. by intros []. Qed.

Lemma view_lookup sv id h : sv_store sv !! id = Some h -> (held_view <$> sv_store sv) !! id = Some (held_view h).
Proof. intros Hh. by rewrite list_lookup_fmap, Hh. Qed.

Lemma view_held sv id x : (held_view <$> sv_store sv) !! id = Some x -> exists h, sv_store sv !! id = Some h /\ held_view h = x.
Proof. intros (h & -> & Hh)%list_lookup_fmap_Some. by exists h. Qed.

Lemma put_store sv id h s : sv_store sv !! id = Some h ->
  sv_store (put_session id s sv) = <[id := mkHeld s (he_remote h) (he_encoder h)]> (sv_store sv).
Proof.
  intros Hh. change (alter (fun h => mkHeld s (he_remote h) (he_encoder h)) id (sv_store sv) = <[id := mkHeld s (he_remote h) (he_encoder h)]> (sv_store sv)).
  apply list_eq. intros j. destruct (decide (j = id)) as [->|Hj].
  - rewrite list_lookup_alter_eq, Hh, list_lookup_insert_eq by by eapply lookup_lt_Some. done.
  - by rewrite list_lookup_alter_ne, list_lookup_insert_ne by done.
Qed.

Lemma session_of sv id h : server_ok sv -> sv_store sv !! id = Some h -> session_ok (he_session h).
Proof. intros Hsv Hh. exact (Forall_lookup_1 _ _ _ _ (so_sessions _ Hsv) Hh). Qed.

Lemma put_sessions sv id h s : server_ok sv -> sv_store sv !! id = Some h -> session_ok s ->
  Forall (fun h => session_ok (he_session h)) (sv_store (put_session id s sv)).
Proof. intros Hsv Hh Hs. rewrite (put_store _ _ _ _ Hh). apply Forall_insert; [apply Hsv|done]. Qed.

(** An operation that leaves the session who it is. *)
Lemma put_ok sv id h s : server_ok sv -> sv_store sv !! id = Some h -> session_ok s -> session_identity s = session_identity (he_session h) ->
  server_ok (put_session id s sv).
Proof.
  intros Hsv Hh Hs Hid. constructor; [apply Hsv|by eapply put_sessions|apply Hsv|]. change (sv_listener (put_session id s sv)) with (sv_listener sv).
  rewrite (put_store _ _ _ _ Hh). assert (held_view <$> <[id := mkHeld s (he_remote h) (he_encoder h)]> (sv_store sv) = held_view <$> sv_store sv) as ->; [|apply Hsv].
  rewrite list_fmap_insert. apply list_insert_id. rewrite (view_lookup _ _ _ Hh). unfold held_view. cbn. by injection Hid as -> _ -> _.
Qed.

Lemma session_kcp_input_runs sv id h p : sv_store sv !! id = Some h -> session_ok (he_session h) -> bytes p -> (MIN_PACKET_SIZE <= length p)%nat ->
  exists effects s, kcp_input p (lend (sv_snmp sv) (he_session h)) = Ok (effects, s) /\
    session_kcp_input id p sv = Ok (on_effects id effects, put_session id s sv) /\ session_ok s /\ session_identity s = session_identity (he_session h).
Proof.
  intros Hh Hok Hb Hl. destruct (lend_ok (sv_snmp sv) (he_session h) Hok) as [Hs Hid].
  destruct (kcp_input_any p _ Hs Hb Hl) as (eff & s & Ei & Hs' & Hid'). exists eff, s. unfold session_kcp_input. rewrite Hh, Ei.
  split_and!; [done|done|done|congruence].
Qed.

(** Closing a live session takes it out of the indexes; closing it again does nothing. *)
Lemma session_close_ok sv id h : server_ok sv -> sv_store sv !! id = Some h -> server_ok (session_close id sv) /\
  if us_die_once (he_session h) then session_close id sv = sv
  else exists s, close (lend (sv_snmp sv) (he_session h)) = inr ([CloseSession], s) /\ session_close id sv =
    (put_session id s sv) <| sv_listener := index_close (he_remote h) (us_conv (he_session h)) id (sv_listener sv) |>.
Proof.
  intros Hsv Hh. unfold session_close, session_close_begin. rewrite Hh.
  destruct (lend_ok (sv_snmp sv) (he_session h) (session_of _ _ _ Hsv Hh)) as [Hs Hid].
  pose proof (close_ok _ Hs) as Hc. pose proof (view_lookup _ _ _ Hh) as Hv. unfold held_view in Hv.
  change (us_die_once (lend _ _)) with (us_die_once (he_session h)) in Hc. change (us_conv (lend _ _)) with (us_conv (he_session h)) in Hc.
  destruct (us_die_once (he_session h)) eqn:Ed.
  { destruct (close (lend _ _)) as [err|[eff s]]; [done|]. by destruct Hc as (_ & _ & ? & _). }
  destruct (close (lend _ _)) as [err|[eff s]]; [done|]. destruct Hc as (-> & Hs' & _ & Ed' & Ec).
  assert (Eend : session_close_end id [CloseSession] (put_session id s sv) =
    (put_session id s sv) <| sv_listener := index_close (he_remote h) (us_conv (he_session h)) id (sv_listener sv) |>).
  { unfold session_close_end. rewrite (put_store _ _ _ _ Hh), list_lookup_insert_eq by by eapply lookup_lt_Some.
    unfold remove_session. change (sv_listener (put_session id s sv)) with (sv_listener sv). cbn [he_remote].
    rewrite (proj2 (ix_sessions _ _ (so_index _ Hsv) (he_remote h) id)) by by eexists. cbn [mbind option_bind].
    rewrite (put_store _ _ _ _ Hh), list_lookup_insert_eq by by eapply lookup_lt_Some. cbn [mbind option_bind he_session].
    unfold get_conv. rewrite Ec. unfold index_close. cbv zeta. by case_goal. }
  rewrite Eend. split; [|by exists s]. constructor.
  - unfold index_close. cbv zeta. cbn [sv_listener field_update]. case_goal; apply Hsv.
  - by eapply put_sessions.
  - unfold index_close. cbv zeta. cbn [sv_listener field_update]. case_goal; apply Hsv.
  - change (index_ok (held_view <$> sv_store (put_session id s sv)) (index_close (he_remote h) (us_conv (he_session h)) id (sv_listener sv))).
    rewrite (put_store _ _ _ _ Hh), list_fmap_insert.
    assert (held_view (mkHeld s (he_remote h) (he_encoder h)) = (he_remote h, us_conv (he_session h), true)) as -> by (unfold held_view; cbn; by rewrite Ec, Ed').
    apply index_close_ok; [apply Hsv|done].
Qed.

(** ** Where a datagram goes *)

(** The datagram's payload was given to session [id]. *)
Definition fed (id : nat) (p : list Z) sv (effects : list (nat * Effect Hd)) sv' : Prop :=
  exists h eff s, sv_store sv !! id = Some h /\ kcp_input p (lend (sv_snmp sv) (he_session h)) = Ok (eff, s) /\
    effects = on_effects id eff /\ sv' = put_session id s sv.

(** A session of conversation [conv] was made for address [a] and given the payload; it is
    known by both, unless the conversation already has an alias, and the last in the queue. *)
Definition opened (a : SocketAddr) (conv : Z) (p : list Z) drained sv (effects : list (nat * Effect Hd)) sv' : Prop :=
  let l := sv_listener sv in
  let id := length (sv_store sv) in
  exists s0 enc eff s,
    session_new conv (ls_data_shards l) (ls_parity_shards l) false true (ls_block l) (ls_clock l) drained (sv_snmp sv) = Ok (s0, enc) /\
    kcp_input p (lend (k_snmp (us_kcp s0)) s0) = Ok (eff, s) /\ effects = on_effects id eff /\
    session_identity s = (conv, true, false, false) /\
    sv' = sv <| sv_store := sv_store sv ++ [mkHeld s a enc] |> <| sv_snmp := k_snmp (us_kcp s) |>
             <| sv_listener := l <| ls_sessions := <[a := id]> (ls_sessions l) |>
                                 <| ls_by_conv := <[conv := default id (ls_by_conv l !! conv)]> (ls_by_conv l) |>
                                 <| ls_accepts := ls_accepts l ++ [id] |> |>.

Lemma open_session_ok sv conv p a drained : server_ok sv -> canonical a = a -> ls_sessions (sv_listener sv) !! a = None ->
  is_u32 conv -> bytes p -> (MIN_PACKET_SIZE <= length p)%nat ->
  exists eff sv', open_session true conv p a drained sv = Ok (eff, sv') /\ server_ok sv' /\
    if (ACCEPT_BACKLOG <=? length (ls_accepts (sv_listener sv)))%nat then eff = [] /\ sv' = sv else opened a conv p drained sv eff sv'.
Proof.
  intros Hsv Hca Hfree Hconv Hb Hl. unfold open_session. cbn [negb].
  destruct (Nat.leb_spec ACCEPT_BACKLOG (length (ls_accepts (sv_listener sv)))) as [|Hroom]; [by eexists _, _|].
  destruct (so_shards _ Hsv) as [enc0 Hsh]. set (l := sv_listener sv) in *.
  destruct (udp_session_new_ok (E := E) (Hd := Hd) conv _ _ (ls_block l) (ls_clock l) drained (sv_snmp sv) enc0 Hconv Hsh)
    as (s0 & enc & En & Hs0 & Hid0 & _). rewrite En. set (id := length (sv_store sv)).
  set (sv1 := sv <| sv_store := _ |> <| sv_snmp := _ |>).
  assert (Hh : sv_store sv1 !! id = Some (mkHeld s0 a enc)) by by apply list_lookup_middle.
  destruct (session_kcp_input_runs sv1 id _ p Hh Hs0 Hb Hl) as (eff & s & Ei & -> & Hs & Hid). cbn [mbind result_bind].
  cbn [he_session] in Ei, Hid. change (sv_listener (put_session id s sv1)) with l.
  assert (Est : sv_store (put_session id s sv1) = sv_store sv ++ [mkHeld s a enc]).
  { rewrite (put_store _ _ _ _ Hh). unfold sv1, id. cbn [sv_store field_update he_remote he_encoder].
    replace (length (sv_store sv)) with (length (sv_store sv) + 0)%nat at 1 by lia. by rewrite insert_app_r. }
  assert (Hopen : exists enc0, fec_encoder_new (ls_data_shards (index_open a conv id l)) (ls_parity_shards (index_open a conv id l)) 0 = Ok enc0).
  { unfold index_open, register_conv. case_goal; apply Hsv. }
  eexists _, _. split; [reflexivity|]. change (push_accept id (register_conv conv id (l <| ls_sessions := <[a := id]> (ls_sessions l) |>))) with (index_open a conv id l).
  rewrite Hid0 in Hid. split.
  - constructor; [| |exact Hopen|].
    + unfold index_open, register_conv. cbn [sv_listener field_update]. case_goal; apply Hsv.
    + change (Forall (fun h => session_ok (he_session h)) (sv_store (put_session id s sv1))). rewrite Est. apply Forall_app_2; [apply Hsv|by apply Forall_singleton].
    + change (index_ok (held_view <$> sv_store (put_session id s sv1)) (index_open a conv id l)). rewrite Est, fmap_app.
      assert (held_view <$> [mkHeld s a enc] = [(a, conv, false)]) as -> by (unfold held_view; cbn; by injection Hid as -> _ -> _).
      unfold id. rewrite <- (length_fmap held_view). apply index_open_ok; [apply Hsv|done|done|done].
  - exists s0, enc, eff, s. split_and!; try done. fold l id.
    rewrite index_open_eq.
    change (put_session id s sv1) with (sv1 <| sv_store := sv_store (put_session id s sv1) |> <| sv_snmp := k_snmp (us_kcp s) |>). by rewrite Est.
Qed.

(** A new session for the datagram, if the queue has room. *)
Definition made (a : SocketAddr) (conv : Z) (p : list Z) drained sv (effects : list (nat * Effect Hd)) sv' : Prop :=
  if (ACCEPT_BACKLOG <=? length (ls_accepts (sv_listener sv)))%nat then effects = [] /\ sv' = sv
  else opened a conv p drained sv effects sv'.

(** Session [id] of address [a] was closed, and left the listener's indexes. *)
Definition closed (a : SocketAddr) (id : nat) sv sv1 : Prop :=
  let l := sv_listener sv in
  exists h s, sv_store sv !! id = Some h /\ close (lend (sv_snmp sv) (he_session h)) = inr ([CloseSession], s) /\ us_die s = true /\
    let conv := us_conv (he_session h) in
    sv1 = sv <| sv_store := <[id := mkHeld s (he_remote h) (he_encoder h)]> (sv_store sv) |> <| sv_snmp := k_snmp (us_kcp s) |>
             <| sv_listener := l <| ls_sessions := delete a (ls_sessions l) |>
                                 <| ls_by_conv := if bool_decide (ls_by_conv l !! conv = Some id) then delete conv (ls_by_conv l)
                                                  else ls_by_conv l |> |>.

(** What is to happen to a payload from [a] that carries this: the rules of the wire format's
    document. *)
Inductive verdict := Dropped | Feed (id : nat) | Reset (id : nat) (conv : Z) | New (conv : Z).

Definition verdict_of (a : SocketAddr) (w : cargo) sv : verdict :=
  let l := sv_listener sv in
  match w, ls_sessions l !! a with
  | Garbage, _ | Unnamed, None => Dropped
  | Unnamed, Some id => Feed id
  | Segment_of conv sn, Some id =>
      match sv_store sv !! id with
      | None => Dropped
      | Some h => if conv =? us_conv (he_session h) then Feed id else if sn =? 0 then Reset id conv else Dropped
      end
  | Segment_of conv sn, None =>
      match (if ls_strict_source l then None else ls_by_conv l !! conv) with Some id => Feed id | None => New conv end
  end.

(** The verdict was carried out: these effects and this state, and no other change. *)
Definition carried_out (v : verdict) (a : SocketAddr) (p : list Z) drained sv (effects : list (nat * Effect Hd)) sv' : Prop :=
  match v with
  | Dropped => effects = [] /\ sv' = sv
  | Feed id => fed id p sv effects sv'
  | Reset id conv => exists sv1, closed a id sv sv1 /\ made a conv p drained sv1 effects sv'
  | New conv => made a conv p drained sv effects sv'
  end.

Lemma canonical_idemp a : canonical (canonical a) = canonical a.
Proof.
  unfold canonical. destruct (sa_ip a) as [x|x] eqn:Ea; [by rewrite Ea|]. destruct (to_ipv4_mapped x) eqn:Em; [|by rewrite Ea, Em].
  destruct (sa_scope a =? 0) eqn:Es; [done|]. by rewrite Ea, Em, Es.
Qed.

(** Closing the session of an address. *)
Lemma session_close_closed sv id h a : server_ok sv -> sv_store sv !! id = Some h -> us_die_once (he_session h) = false -> he_remote h = a ->
  closed a id sv (session_close id sv) /\ ls_sessions (sv_listener (session_close id sv)) !! a = None.
Proof.
  intros Hsv Hh Ed Er. destruct (session_close_ok sv id h Hsv Hh) as [_ Hcase]. rewrite Ed in Hcase. destruct Hcase as (s & Ec & ->).
  assert (Hdie : us_die s = true).
  { pose proof (close_moves (H := any_oob) (fun _ => True) (lend (sv_snmp sv) (he_session h))) as Hm. rewrite Ec in Hm. by destruct Hm as (_ & _ & ? & _). }
  set (conv := us_conv (he_session h)). set (l := sv_listener sv).
  rewrite index_close_eq, Er. fold conv l. split; [|apply lookup_delete_eq]. exists h, s. split_and!; [done|done|done|]. fold conv l.
  change (put_session id s sv) with (sv <| sv_store := sv_store (put_session id s sv) |> <| sv_snmp := k_snmp (us_kcp s) |>).
  by rewrite (put_store sv _ _ _ Hh).
Qed.

Lemma packet_input_verdict sv data addr drained p snmp w : server_ok sv -> bytes p ->
  decrypt_packet (ls_block (sv_listener sv)) data (sv_snmp sv) = (Some p, snmp) -> (MIN_PACKET_SIZE <= length p)%nat ->
  framing p = framing_of w ->
  let a := canonical addr in
  let sv0 := sv <| sv_snmp := snmp |> in
  exists eff sv', listener_packet_input data addr drained sv = Ok (eff, sv') /\ server_ok sv' /\
    carried_out (verdict_of a w sv0) a p drained sv0 eff sv'.
Proof.
  intros Hsv Hb Edec Hl Efr a sv0. pose proof (snmp_ok snmp sv Hsv) as Hsv0. fold sv0 in Hsv0.
  pose proof (canonical_idemp addr) as Hca.
  unfold listener_packet_input. rewrite Edec, (proj2 (Nat.ltb_ge _ _)), Efr by done. unfold session_at, session_by_conv. rewrite Hca.
  fold a in Hca |- *. fold sv0. unfold verdict_of. change (sv_store sv0) with (sv_store sv). change (sv_listener sv0) with (sv_listener sv).
  set (l := sv_listener sv) in *.
  assert (Hfeed : forall id h, sv_store sv !! id = Some h -> exists eff sv', session_kcp_input id p sv0 = Ok (eff, sv') /\ server_ok sv' /\ fed id p sv0 eff sv').
  { intros id h Hh. destruct (session_kcp_input_runs sv0 id h p Hh (session_of _ _ _ Hsv Hh) Hb Hl) as (eff & s & Ei & E1 & Hs & Hid).
    eexists _, _. split; [exact E1|]. split; [by eapply put_ok|]. by exists h, eff, s. }
  destruct w as [conv sn| |]; cbn [framing_of]; [| |by eexists _, _].
  - pose proof (framing_conv _ _ _ _ Hb Efr) as Hconv. cbn [negb andb orb]. destruct (ls_sessions l !! a) as [id|] eqn:Ea.
    + destruct (proj1 (ix_sessions _ _ (so_index _ Hsv) a id) Ea) as (c & Hx). destruct (view_held _ _ _ Hx) as (h & Hh & Ev).
      cbn [mbind option_bind]. rewrite Hh. cbn [mbind option_bind]. unfold get_conv.
      destruct (Z.eqb_spec conv (us_conv (he_session h))) as [|Hne]; [by apply (Hfeed id h)|].
      destruct (Z.eqb_spec sn 0) as [|]; cbn [negb]; [|by eexists _, _].
      unfold held_view in Ev. injection Ev as Er _ Ed. destruct (session_close_closed sv0 id h a Hsv0 Hh Ed Er) as [Hcl Hfree].
      destruct (session_close_ok sv0 id h Hsv0 Hh) as [Hsv1 _].
      destruct (open_session_ok (session_close id sv0) conv p a drained Hsv1 Hca Hfree Hconv Hb Hl) as (eff & sv' & E1 & Hsv' & Hm).
      exists eff, sv'. split; [done|]. split; [done|]. by exists (session_close id sv0).
    + destruct (ls_strict_source l) eqn:Est; cbn [negb].
      { cbn [mbind option_bind]. by apply open_session_ok. }
      destruct (ls_by_conv l !! conv) as [id|] eqn:Ec; cbn [mbind option_bind]; [|by apply open_session_ok].
      destruct (ix_alias _ _ (so_index _ Hsv) conv id Ec) as (a' & Hx). destruct (view_held _ _ _ Hx) as (h & Hh & Ev).
      rewrite Hh. cbn [mbind option_bind]. unfold get_conv. injection Ev as _ <- _. rewrite Z.eqb_refl. by apply (Hfeed id h).
  - cbn [negb andb orb]. destruct (ls_sessions l !! a) as [id|] eqn:Ea; [|by eexists _, _].
    destruct (proj1 (ix_sessions _ _ (so_index _ Hsv) a id) Ea) as (c & Hx). destruct (view_held _ _ _ Hx) as (h & Hh & Ev).
    cbn [mbind option_bind]. rewrite Hh. cbn [mbind option_bind]. by apply (Hfeed id h).
Qed.

Definition server_op_ok (op : server_op (E := E) (Hd := Hd)) : Prop :=
  match op with Datagram data _ _ => bytes data | CallHeld _ call => call_ok call | _ => True end.

Lemma notify_store_ok err sv : server_ok sv -> server_ok (listener_notify_read_error err sv).
Proof.
  intros Hsv. unfold listener_notify_read_error. destruct (error_slot_set err (ls_read_error (sv_listener sv))) as [first slot].
  cbv zeta. assert (Hsv1 : server_ok (sv <| sv_listener := (sv_listener sv) <| ls_read_error := slot |> |>)).
  { constructor; [apply Hsv..|]. destruct (so_index _ Hsv). by constructor. }
  destruct first; cbn [negb]; [|done]. set (sv1 := sv <| sv_listener := _ |>) in *. set (f := fun (id : nat) held => if bool_decide _ then _ else held).
  assert (Hf : forall id h, session_ok (he_session h) -> session_ok (he_session (f id h)) /\ held_view (f id h) = held_view h).
  { intros id h Hh. unfold f. case_goal; [|done]. cbn [he_session]. destruct (notify_ok err _ Hh) as [? _]. done. }
  assert (Hview : held_view <$> imap f (sv_store sv1) = held_view <$> sv_store sv1).
  { apply list_eq. intros i. rewrite !list_lookup_fmap, list_lookup_imap. destruct (sv_store sv1 !! i) as [h|] eqn:Ei; [|done]. cbn.
    f_equal. apply Hf. exact (session_of _ _ _ Hsv1 Ei). }
  constructor; [apply Hsv1| |apply Hsv1|].
  - change (Forall (fun h => session_ok (he_session h)) (imap f (sv_store sv1))). apply Forall_lookup. intros i x Hx.
    rewrite list_lookup_imap in Hx. destruct (sv_store sv1 !! i) as [h|] eqn:Ei; [|done]. injection Hx as <-. apply Hf. exact (session_of _ _ _ Hsv1 Ei).
  - change (index_ok (held_view <$> imap f (sv_store sv1)) (sv_listener sv1)). rewrite Hview. apply Hsv1.
Qed.

Context `{!CratesLaw, !CratesBytes}.

Lemma server_step_ok op sv : server_ok sv -> server_op_ok op -> exists eff sv', server_step op sv = Ok (eff, sv') /\ server_ok sv'.
Proof.
  intros Hsv Hop. destruct op as [data addr drained| | |err|id|id call]; cbn [server_step server_op_ok] in *.
  - destruct (decrypt_packet (ls_block (sv_listener sv)) data (sv_snmp sv)) as [r snmp] eqn:Edec.
    assert (Hdrop : server_ok (sv <| sv_snmp := snmp |>)) by by apply snmp_ok.
    destruct r as [p|]; [|unfold listener_packet_input; rewrite Edec; by eexists _, _].
    destruct (Nat.ltb_spec (length p) MIN_PACKET_SIZE) as [Hs|Hl].
    { unfold listener_packet_input. rewrite Edec, (proj2 (Nat.ltb_lt _ _)) by done. by eexists _, _. }
    pose proof (decrypt_packet_bytes _ _ _ _ _ (so_cipher _ Hsv) Hop Edec) as Hp. destruct (payload_carries p Hp Hl) as (w & Hw).
    destruct (packet_input_verdict sv data addr drained p snmp w Hsv Hp Edec Hl (carries_framing _ _ Hp Hw)) as (eff & sv' & E1 & Hsv' & _).
    by eexists _, _.
  - eexists _, _. split; [done|]. unfold listener_accept. destruct (ls_accepts (sv_listener sv)) as [|id accepts] eqn:Ea; [done|]. cbn [snd].
    constructor; [apply Hsv..|]. destruct (so_index _ Hsv) as [A1 A2 A3 A4 [A5 A6]]. rewrite Ea in A4, A5, A6. constructor; [done..| |].
    + change (length accepts <= ACCEPT_BACKLOG)%nat. cbn [length] in A4. lia.
    + apply NoDup_cons in A5 as [_ A5]. split; [exact A5|]. intros j Hj. apply A6. by right.
  - eexists _, _. split; [done|]. unfold listener_close. case_goal; [done|]. constructor; [apply Hsv..|]. destruct (so_index _ Hsv). by constructor.
  - eexists _, _. split; [done|by apply notify_store_ok].
  - eexists _, _. split; [done|]. destruct (sv_store sv !! id) as [h|] eqn:Eh; [by eapply session_close_ok|].
    unfold session_close, session_close_begin. by rewrite Eh.
  - eexists _, _. split; [done|]. destruct (sv_store sv !! id) as [h|] eqn:Eh; [|done].
    destruct (lend_ok (sv_snmp sv) (he_session h) (session_of _ _ _ Hsv Eh)) as [Hs Hid].
    destruct (session_call_ok call _ Hs Hop) as [Hs' Hid']. eapply put_ok; [done|done|done|congruence].
Qed.

Lemma server_run_ok ops : forall sv, server_ok sv -> Forall server_op_ok ops -> exists eff sv', server_run ops sv = Ok (eff, sv') /\ server_ok sv'.
Proof.
  induction ops as [|op ops IH]; intros sv Hsv Hops; [by eexists _, _|]. apply Forall_cons in Hops as [Hop Hops]. cbn [server_run].
  destruct (server_step_ok op sv Hsv Hop) as (eff & sv1 & -> & Hsv1). cbn [mbind result_bind].
  destruct (IH sv1 Hsv1 Hops) as (more & sv2 & -> & Hsv2). by eexists _, _.
Qed.

Lemma listener_new_ok block ds ps own strict (clock : C) l snmp : listener_new block ds ps own strict clock = Ok l -> cipher_ok block ->
  server_ok (mkServer l [] snmp).
Proof.
  unfold listener_new. destruct (fec_encoder_new ds ps 0) as [enc| |] eqn:Ee; [|done..]. cbn [mbind result_bind]. intros [= <-] Hc.
  constructor; [done|constructor|by exists enc|]. constructor; cbn.
  - intros a id. rewrite lookup_empty. split; [done|]. by intros (c & [=]).
  - done.
  - intros c id. by rewrite lookup_empty.
  - unfold ACCEPT_BACKLOG. lia.
  - split; [constructor|]. intros id Hid. by apply elem_of_nil in Hid.
Qed.
End Server.

(** ** The theorems *)

(** C3: a listener under any traffic.  From a new listener, run any calls in any order:
    datagrams of any bytes from any addresses, accepting, using and closing its sessions, socket
    errors, closing it.  Nothing panics; at most 128 sessions wait to be accepted, none twice; a
    session is found by its address exactly while it is not closed, so a live session has its
    address to itself; and a conversation leads only to a live session of that conversation. *)
Theorem listener_total `{!Crates, !CratesLaw, !CratesBytes, !Crc} {C : Type} `{Clock C} {E Hd : Type}
    block ds ps own strict (clock : C) (l : Listener C E) snmp (ops : list (server_op (E := E) (Hd := Hd))) :
  listener_new block ds ps own strict clock = Ok l -> cipher_ok block -> Forall server_op_ok ops ->
  exists effects sv, server_run ops (mkServer l [] snmp) = Ok (effects, sv) /\
    let l' := sv_listener sv in
    (length (ls_accepts l') <= ACCEPT_BACKLOG)%nat /\ NoDup (ls_accepts l') /\
    (forall id h, sv_store sv !! id = Some h ->
       k_panic (us_kcp (he_session h)) = false /\
       (us_die_once (he_session h) = false <-> session_at (he_remote h) l' = Some id)) /\
    forall conv id, session_by_conv conv l' = Some id ->
      exists h, sv_store sv !! id = Some h /\ us_conv (he_session h) = conv /\ session_at (he_remote h) l' = Some id.
Proof.
  intros Hl Hc Hops. destruct (server_run_ok ops (mkServer l [] snmp)) as (eff & sv & Er & Hsv); [by eapply listener_new_ok|done|].
  exists eff, sv. split; [exact Er|]. destruct Hsv as [_ Hs _ [A1 A2 A3 A4 [A5 A6]]]. cbv zeta. unfold session_at, session_by_conv.
  assert (Hat : forall id h, sv_store sv !! id = Some h -> us_die_once (he_session h) = false <->
    ls_sessions (sv_listener sv) !! canonical (he_remote h) = Some id).
  { intros id h Hh. pose proof (view_lookup _ _ _ Hh) as Hv. destruct (held_view h) as [[a c] d] eqn:Ev. unfold held_view in Ev.
    injection Ev as -> _ ->. rewrite (A2 _ _ _ _ Hv), A1. split.
    - intros ->. by exists c.
    - intros (c' & Hx). rewrite Hv in Hx. by injection Hx. }
  split_and!; [done|done| |].
  - intros id h Hh. split; [|by apply Hat]. apply wf_no_panic. exact (sk_wf _ (Forall_lookup_1 _ _ _ _ Hs Hh)).
  - intros conv id Hx. destruct (A3 _ _ Hx) as (a & Hv). destruct (view_held _ _ _ Hv) as (h & Hh & Ev). exists h.
    unfold held_view in Ev. injection Ev as _ Ec Ed. split_and!; [done|done|by apply (Hat id h)].
Qed.

(** C4: where a datagram goes, on every branch, and that nothing else changes.  A datagram the
    cipher refuses, or whose payload is below twelve bytes or carries nothing, changes the
    counters of [decrypt_packet] only.  A payload with a conversation is given to the session of
    its sender's address if that has this conversation, or, when no session has the address and
    the strict rule is off, to the session of the conversation; from an address of another
    conversation it closes that session - but only with sequence number 0, else it is dropped -
    and, as from an unknown address, a new session takes it, unless 128 already wait.  Without a
    conversation (parity, or a data packet too short for one) it goes to the address's session
    or nowhere. *)
Theorem listener_routes `{!Crates, !CratesLaw, !CratesBytes, !Crc} {C : Type} `{Clock C} {E Hd : Type}
    (sv : Server (C := C) (E := E) (Hd := Hd)) data addr drained :
  server_ok sv -> bytes data ->
  let a := canonical addr in
  let '(payload, snmp) := decrypt_packet (ls_block (sv_listener sv)) data (sv_snmp sv) in
  let sv0 := sv <| sv_snmp := snmp |> in
  exists effects sv', listener_packet_input data addr drained sv = Ok (effects, sv') /\
    match payload with
    | None => effects = [] /\ sv' = sv0
    | Some p =>
        if (length p <? 12)%nat then effects = [] /\ sv' = sv0
        else (exists w, carries p w) /\ forall w, carries p w -> carried_out (verdict_of a w sv0) a p drained sv0 effects sv'
    end.
Proof.
  intros Hsv Hb a. destruct (decrypt_packet _ _ _) as [payload snmp] eqn:Edec. intros sv0.
  destruct payload as [p|]; [|unfold listener_packet_input; rewrite Edec; by eexists _, _].
  destruct (Nat.ltb_spec (length p) 12) as [Hs|Hl].
  { unfold listener_packet_input. rewrite Edec, (proj2 (Nat.ltb_lt _ MIN_PACKET_SIZE)) by exact Hs. by eexists _, _. }
  pose proof (decrypt_packet_bytes _ _ _ _ _ (so_cipher _ Hsv) Hb Edec) as Hp. destruct (payload_carries p Hp Hl) as (w & Hw).
  destruct (packet_input_verdict sv data addr drained p snmp w Hsv Hp Edec Hl (carries_framing _ _ Hp Hw)) as (eff & sv' & E1 & _ & Hv).
  exists eff, sv'. split; [exact E1|]. split; [by exists w|]. intros w' Hw'.
  assert (w' = w) as ->; [|exact Hv]. pose proof (carries_framing _ _ Hp Hw) as F. rewrite (carries_framing _ _ Hp Hw') in F.
  destruct w, w'; by inversion F.
Qed.

(** ** Examples *)

#[export] Instance toy_crates_bytes : CratesBytes.
Proof.
  assert (Hrot : forall BS, CfbBytes BS (list Z)).
  { intros BS c x Hx. change (bytes (rotate_block c x)). unfold rotate_block. apply Forall_app_2; [by apply Forall_drop|by apply Forall_take]. }
  assert (Hstream : forall k n m, bytes (toy_stream k n m)) by (intros k n m; apply Forall_replicate; unfold is_u8; lia).
  constructor; try exact (Hrot 16%nat); try exact (Hrot 8%nat).
  - intros key nonce data Hd. by apply xor_bytes.
  - intros [[g|g|g]] nonce c t p Hb; unfold gcm_open; cbn; unfold toy_open; case_goal; try done; intros [= <-]; by apply xor_bytes.
Qed.

(** A push segment without data. *)
Definition push_packet (conv sn : Z) : list Z :=
  le_bytes 4 conv ++ [81; 0; 128; 0] ++ le_bytes 4 0 ++ le_bytes 4 sn ++ le_bytes 4 0 ++ le_bytes 4 0.
Lemma push_packet_bytes conv sn : bytes (push_packet conv sn).
Proof. unfold push_packet. repeat apply Forall_app_2; try apply le_bytes_bytes. repeat constructor; unfold is_u8; lia. Qed.

Definition peer_a : SocketAddr := mkSocketAddr (IpV4 167772161) 4000 0 0.
Definition peer_b : SocketAddr := mkSocketAddr (IpV4 167772162) 4000 0 0.

Abbreviation example_listener := (listener_new (C := list Z) (E := Empty_set) None 0 0 true false [5]).
Abbreviation example_server l := (mkServer (C := list Z) (E := Empty_set) (Hd := unit) l [] snmp_new).

(** A session for [peer_a]; the same peer from another address; then a new conversation. *)
Definition example_ops : list (server_op (E := Empty_set) (Hd := unit)) :=
  [Datagram (push_packet 1 0) peer_a []; Accept; Datagram (push_packet 1 1) peer_b []; Datagram (push_packet 2 0) peer_a [];
   Datagram (push_packet 3 7) peer_a []; CallHeld 1 (SRead [0]); CloseHeld 1].

Lemma listener_total_witness : exists l effects sv, example_listener = Ok l /\
  server_run example_ops (example_server l) = Ok (effects, sv) /\ (length (ls_accepts (sv_listener sv)) <= ACCEPT_BACKLOG)%nat.
Proof.
  destruct example_listener as [l| |] eqn:El; [|discriminate El..].
  destruct (listener_total (E := Empty_set) (Hd := unit) None 0 0 true false [5] l snmp_new example_ops El) as (eff & sv & Er & Hb & _).
  - exact I.
  - unfold example_ops. repeat (apply Forall_cons_2; [first [apply push_packet_bytes|exact I]|]). by apply Forall_nil.
  - exists l, eff, sv. split; [reflexivity|]. split; [exact Er|exact Hb].
Defined.

Lemma push_carries : carries (push_packet 1 0) (Segment_of 1 0).
Proof.
  apply (carries_plain 1 [81; 0; 128; 0; 0; 0; 0; 0] 0 (replicate 8 0)); try done.
  intros (t & Ht & E). change (take 2 _) with [81; 0] in E. injection E as <-. set_solver.
Qed.

Lemma listener_routes_witness : exists l effects sv', example_listener = Ok l /\
  listener_packet_input (push_packet 1 0) peer_a [] (example_server l) = Ok (effects, sv') /\
  ls_accepts (sv_listener sv') = [0%nat] /\ session_at peer_a (sv_listener sv') = Some 0%nat.
Proof.
  destruct example_listener as [l| |] eqn:El; [|discriminate El..].
  pose proof (listener_routes (example_server l) (push_packet 1 0) peer_a [] (listener_new_ok _ _ _ _ _ _ _ snmp_new El I) (push_packet_bytes 1 0)) as Hr.
  injection El as <-. cbv zeta in Hr. match type of Hr with (let '(_, _) := ?d in _) => change d with (Some (push_packet 1 0), snmp_new) in Hr end.
  cbv iota in Hr. destruct Hr as (eff & sv' & Er & Hv). change (length (push_packet 1 0) <? 12)%nat with false in Hv. destruct Hv as [_ Hv].
  specialize (Hv _ push_carries). match type of Hv with carried_out ?v _ _ _ _ _ _ => change v with (New 1) in Hv end.
  cbn [carried_out] in Hv. unfold made in Hv. match type of Hv with if ?b then _ else _ => change b with false in Hv end. cbv iota in Hv.
  destruct Hv as (s0 & enc & eff0 & s & _ & _ & _ & _ & Es).
  eexists _, eff, sv'. split; [reflexivity|]. split; [exact Er|]. rewrite Es. split; reflexivity.
Defined.

(** A session closed by its holder while a packet arrives.  [close] marks the session before it
    takes its address out of the listener's map; if a packet of a new conversation comes from
    the address in between, its own [close] of the old session does nothing, the new session
    takes the address, and the first call then removes it: the new session is alive and in the
    queue but unreachable, the alias of the old conversation stays and leads to a closed
    session, and the peer's next packet makes yet another session. *)
Definition close_race : option (Server (C := list Z) (E := Empty_set) (Hd := unit)) :=
  match example_listener with
  | Ok l =>
      match listener_packet_input (push_packet 1 0) peer_a [] (example_server l) with
      | Ok (_, sv) =>
          let '(effects, sv) := session_close_begin 0 sv in
          match listener_packet_input (push_packet 2 0) peer_a [] sv with
          | Ok (_, sv) =>
              match listener_packet_input (push_packet 2 1) peer_a [] (session_close_end 0 effects sv) with
              | Ok (_, sv) => Some sv
              | _ => None
              end
          | _ => None
          end
      | _ => None
      end
  | _ => None
  end.

Lemma close_race_orphan :
  (fun sv => ((fun h => (us_conv (he_session h), us_die_once (he_session h))) <$> sv_store sv, session_at peer_a (sv_listener sv),
              session_by_conv 1 (sv_listener sv), ls_accepts (sv_listener sv))) <$> close_race =
  Some ([(1, true); (2, false); (2, false)], Some 2%nat, Some 0%nat, [0; 1; 2]%nat).
Proof. vm_compute. reflexivity. Qed.
