(* ===== verification/Tcp.v ===== *)
(** * TCP segments and flows over raw sockets: [tcpraw]

    The codec of segments ([tcp.rs]), their checksum ([checksum.rs]), the header fields they
    imitate ([fingerprint.rs]), the flow table ([flow.rs]) and the locked sections of a
    connection ([conn.rs]): building a segment for a peer, and what a captured packet does.
    The raw sockets are not modelled; a handle is its local address, the real TCP connection
    of a flow an abstract value, the uptime clock an argument. *)
From stdpp Require Import base gmap list.
From Stdlib Require Import ZArith Lia.
From S2P Require Import Prelude Word Env CipherWord.
Local Open Scope Z_scope.

(** ** [checksum.rs] *)

Definition IP_PROTOCOL_TCP : Z := 6.

Inductive PseudoHeader := PhV4 (src dst : Z) | PhV6 (src dst : Z).

(** The bytes of an address. *)
Definition octets4 (a : Z) : list Z := be_bytes 4 a.
Definition octets6 (a : Z) : list Z := be_bytes 16 a.

(** [checksum.rs:to_v4]. *)
Definition to_v4 (ip : IpAddr) : option Z := match ip with IpV4 a => Some a | IpV6 a => to_ipv4_mapped a end.

(** [PseudoHeader::new]. *)
Definition pseudo_header_new (src dst : IpAddr) : option PseudoHeader :=
  match to_v4 src, to_v4 dst with
  | Some src, Some dst => Some (PhV4 src dst)
  | None, None => match src, dst with IpV6 src, IpV6 dst => Some (PhV6 src dst) | _, _ => None end
  | _, _ => None
  end.

(** [PseudoHeader::partial_checksum]: the sums stay far below [2^32]. *)
Definition partial_checksum (p : PseudoHeader) : Z :=
  match p with
  | PhV4 src dst =>
      let s := octets4 src in
      let d := octets4 dst in
      Z.shiftl (nth 0 s 0 + nth 2 s 0) 8 + (nth 1 s 0 + nth 3 s 0) +
      Z.shiftl (nth 0 d 0 + nth 2 d 0) 8 + (nth 1 d 0 + nth 3 d 0)
  | PhV6 src dst =>
      let s := octets6 src in
      let d := octets6 dst in
      foldl (fun csum i => csum + Z.shiftl (nth i s 0) 8 + nth (i + 1) s 0 + Z.shiftl (nth i d 0) 8 + nth (i + 1) d 0)
        0 [0; 2; 4; 6; 8; 10; 12; 14]%nat
  end.

(** The loop over the words of [tcpip_checksum]; an odd last byte is a high half. *)
Fixpoint sum_words (data : list Z) (csum : Z) : Z :=
  match data with
  | a :: b :: data => sum_words data (wadd32 (wadd32 csum (Z.shiftl a 8)) b)
  | [a] => wadd32 csum (Z.shiftl a 8)
  | [] => csum
  end.

(** [while csum > 0xffff]: two rounds are enough for 32 bits. *)
Fixpoint fold_carries (fuel : nat) (csum : Z) : Z :=
  match fuel with
  | O => csum
  | S fuel => if 65535 <? csum then fold_carries fuel (Z.shiftr csum 16 + Z.land csum 65535) else csum
  end.

Definition tcpip_checksum (data : list Z) (csum : Z) : Z := u16 (Z.lnot (u16 (fold_carries 2 (sum_words data csum)))).

Definition compute_checksum (header_and_payload : list Z) (pseudo : PseudoHeader) (protocol : Z) : Z :=
  let length := u32 (zlen header_and_payload) in
  let csum := partial_checksum pseudo in
  let csum := wadd32 csum protocol in
  let csum := wadd32 csum (Z.land length 65535) in
  let csum := wadd32 csum (Z.shiftr length 16) in
  tcpip_checksum header_and_payload csum.

Definition verify_checksum (header_and_payload : list Z) (pseudo : PseudoHeader) : bool :=
  compute_checksum header_and_payload pseudo IP_PROTOCOL_TCP =? 0.

(** ** [tcp.rs] *)

Definition MIN_HEADER_LEN : nat := 20.
Definition OPTION_KIND_END_LIST : Z := 0.
Definition OPTION_KIND_NOP : Z := 1.
Definition OPTION_KIND_TIMESTAMPS : Z := 8.

(** [TcpFlags]: the nine bits. *)
Definition TCP_NONE : Z := 0.
Definition TCP_FIN : Z := 1.
Definition TCP_SYN : Z := 2.
Definition TCP_RST : Z := 4.
Definition TCP_PSH : Z := 8.
Definition TCP_ACK : Z := 16.
Definition TCP_URG : Z := 32.
Definition TCP_ECE : Z := 64.
Definition TCP_CWR : Z := 128.
Definition TCP_NS : Z := 256.
Definition TCP_ALL : Z := 511.
Definition flags_from_bits (bits : Z) : Z := Z.land bits TCP_ALL.
Definition flags_contains (self other : Z) : bool := Z.land self other =? other.
Definition flags_syn (f : Z) : bool := flags_contains f TCP_SYN.
Definition flags_fin (f : Z) : bool := flags_contains f TCP_FIN.
Definition flags_psh (f : Z) : bool := flags_contains f TCP_PSH.
Definition flags_ack (f : Z) : bool := flags_contains f TCP_ACK.

Record TcpHeader := mkTcpHeader {
  th_src_port : Z;
  th_dst_port : Z;
  th_seq : Z;
  th_ack : Z;
  th_data_offset : Z;
  th_flags : Z;
  th_window : Z;
  th_checksum : Z;
  th_urgent : Z;
}.
#[export] Instance tcp_header_eta : EtaRecord TcpHeader := fun h =>
  mkTcpHeader (th_src_port h) (th_dst_port h) (th_seq h) (th_ack h) (th_data_offset h) (th_flags h) (th_window h)
    (th_checksum h) (th_urgent h).

Definition flags_and_offset (h : TcpHeader) : Z := Z.lor (u16 (Z.shiftl (th_data_offset h) 12)) (th_flags h).

Record TcpOption := mkTcpOption { to_kind : Z; to_length : Z; to_data : list Z }.
Definition option_single (kind : Z) : TcpOption := mkTcpOption kind 0 [].
Definition option_with_data (kind : Z) (data : list Z) : TcpOption := mkTcpOption kind (u8 (Z.of_nat (length data + 2))) data.

(** The kinds without a length byte. *)
Definition one_byte_kind (kind : Z) : bool := (kind =? OPTION_KIND_END_LIST) || (kind =? OPTION_KIND_NOP).

Definition wire_len (o : TcpOption) : nat := if one_byte_kind (to_kind o) then 1 else 2 + length (to_data o).

(** An option as [serialize]'s loop writes it. *)
Definition put_option (o : TcpOption) : list Z :=
  if one_byte_kind (to_kind o) then [to_kind o]
  else [to_kind o; u8 (Z.of_nat (length (to_data o) + 2))] ++ to_data o.

Definition option_padding (option_length : nat) : nat :=
  match (option_length mod 4)%nat with O => 0 | rem => 4 - rem end.

(** [serialize]: the header with its two outputs, and the segment. *)
Definition serialize (header : TcpHeader) (options : list TcpOption) (payload : list Z) (pseudo : PseudoHeader)
    : TcpHeader * list Z :=
  let option_length := sum_list (wire_len <$> options) in
  let padding := option_padding option_length in
  let header := header <| th_data_offset := u8 (Z.of_nat ((padding + option_length + MIN_HEADER_LEN) / 4)) |> in
  let front := be_bytes 2 (th_src_port header) ++ be_bytes 2 (th_dst_port header) ++ be_bytes 4 (th_seq header) ++
    be_bytes 4 (th_ack header) ++ be_bytes 2 (flags_and_offset header) ++ be_bytes 2 (th_window header) in
  let back := be_bytes 2 (th_urgent header) ++ mjoin (put_option <$> options) ++ replicate padding 0 ++ payload in
  let csum := compute_checksum (front ++ [0; 0] ++ back) pseudo IP_PROTOCOL_TCP in
  (header <| th_checksum := csum |>, front ++ be_bytes 2 csum ++ back).

(** [ParseError]. *)
Inductive ParseError := HeaderTooShort (n : nat).

Record Segment := mkSegment { sg_header : TcpHeader; sg_option_bytes : list Z; sg_payload : list Z }.

(** [u16::from_be_bytes], [u32::from_be_bytes] at an offset. *)
Definition be_at (n off : nat) (data : list Z) : Z := be_val (take n (drop off data)).

(** [Segment::decode]. *)
Definition decode (data : list Z) : result ParseError Segment :=
  if (length data <? MIN_HEADER_LEN)%nat then Err (HeaderTooShort (length data))
  else
    let header := {|
      th_src_port := be_at 2 0 data;
      th_dst_port := be_at 2 2 data;
      th_seq := be_at 4 4 data;
      th_ack := be_at 4 8 data;
      th_data_offset := Z.shiftr (nth 12 data 0) 4;
      th_flags := flags_from_bits (Z.lor (nth 13 data 0) (Z.shiftl (Z.land (nth 12 data 0) 1) 8));
      th_window := be_at 2 14 data;
      th_checksum := be_at 2 16 data;
      th_urgent := be_at 2 18 data;
    |} in
    let data_start := (Z.to_nat (th_data_offset header) * 4)%nat in
    if (th_data_offset header <? 5) || (length data <? data_start)%nat then Ok (mkSegment header [] [])
    else Ok (mkSegment header (take (data_start - MIN_HEADER_LEN) (drop MIN_HEADER_LEN data)) (drop data_start data)).

Record OptionRef := mkOptionRef { or_kind : Z; or_length : Z; or_data : list Z }.

(** [Options::next]. *)
Definition options_next (data : list Z) : option (OptionRef * list Z) :=
  match data with
  | [] => None
  | kind :: _ =>
      Some (
        if kind =? OPTION_KIND_END_LIST then (mkOptionRef kind 1 [], [])
        else if kind =? OPTION_KIND_NOP then (mkOptionRef kind 1 [], drop 1 data)
        else if (length data <? 2)%nat then (mkOptionRef kind 0 [], [])
        else
          let len := nth 1 data 0 in
          if (len <? 2) || (length data <? Z.to_nat len)%nat then (mkOptionRef kind len [], [])
          else let end_ := Z.to_nat len in (mkOptionRef kind len (take (end_ - 2) (drop 2 data)), drop end_ data))
  end.

(** The walk: each option takes a byte at least. *)
Fixpoint options_walk (fuel : nat) (data : list Z) : list OptionRef :=
  match fuel with
  | O => []
  | S fuel => match options_next data with None => [] | Some (o, data) => o :: options_walk fuel data end
  end.
Definition options (s : Segment) : list OptionRef := options_walk (S (length (sg_option_bytes s))) (sg_option_bytes s).

Record Timestamps := mkTimestamps { ts_val : Z; ts_ecr : Z }.

(** [Segment::timestamps]. *)
Definition is_timestamps (o : OptionRef) : bool :=
  (or_kind o =? OPTION_KIND_TIMESTAMPS) && ((length (or_data o) =? 8)%nat || (length (or_data o) =? 10)%nat).
Definition timestamps (s : Segment) : option Timestamps :=
  (fun o => mkTimestamps (be_at 4 0 (or_data o)) (be_at 4 4 (or_data o))) <$> List.find is_timestamps (options s).

(** [Segment::next_seq]. *)
Definition next_seq (s : Segment) : Z :=
  let n := wadd32 (th_seq (sg_header s)) (u32 (zlen (sg_payload s))) in
  let n := if flags_syn (th_flags (sg_header s)) then wadd32 n 1 else n in
  if flags_fin (th_flags (sg_header s)) then wadd32 n 1 else n.

(** [strip_ipv4_header]: the length that remains, and the buffer. *)
Definition strip_ipv4_header (n : nat) (buf : list Z) : nat * list Z :=
  if (length buf <? MIN_HEADER_LEN)%nat then (n, buf)
  else
    let l := Z.to_nat (Z.shiftl (Z.land (nth 0 buf 0) 15) 2) in
    if (l <? MIN_HEADER_LEN)%nat || (length buf <? l)%nat then (n, buf)
    else if negb (Z.shiftr (nth 0 buf 0) 4 =? 4) then (n, buf)
    else ((n - l)%nat, drop l buf ++ drop (length buf - l) buf).

(** ** [fingerprint.rs] *)

Inductive FingerPrintType := Linux.
Record FingerPrint := mkFingerPrint {
  fp_kind : FingerPrintType;
  fp_window : Z;
  fp_options : list TcpOption;
  fp_ttl : Z;
}.

Definition TS_OPTION_DATA_LEN : nat := 8.

(** [FingerPrint::linux]. *)
Definition fingerprint_linux : FingerPrint := {|
  fp_kind := Linux; fp_window := 65535;
  fp_options := [option_single OPTION_KIND_NOP; option_single OPTION_KIND_NOP;
                 mkTcpOption OPTION_KIND_TIMESTAMPS 10 (replicate TS_OPTION_DATA_LEN 0)];
  fp_ttl := 64;
|}.

(** The loop of [make_option_with]: the first timestamp option is filled. *)
Fixpoint fill_timestamps (stamp : list Z) (opts : list TcpOption) : list TcpOption :=
  match opts with
  | [] => []
  | o :: opts =>
      if (to_kind o =? OPTION_KIND_TIMESTAMPS) && (length (to_data o) =? TS_OPTION_DATA_LEN)%nat
      then mkTcpOption (to_kind o) (to_length o) (stamp ++ drop 8 (to_data o)) :: opts
      else o :: fill_timestamps stamp opts
  end.

Definition make_option_with (val ecr : Z) (f : FingerPrint) : FingerPrint :=
  match fp_kind f with
  | Linux => mkFingerPrint Linux (fp_window f) (fill_timestamps (be_bytes 4 val ++ be_bytes 4 ecr) (fp_options f)) (fp_ttl f)
  end.

(** ** [flow.rs] *)

(** In nanoseconds, as [Instant]s. *)
Definition EXPIRE : Z := 60 * 1000000000.
Definition ORPHAN_EXPIRE : Z := 5 * 1000000000.

Section Flow.
(** The real kernel connections. *)
Context {RealConn : Type}.

(** Without the serialisation buffer, which is reused for its allocation. *)
Record TcpFlow := mkTcpFlow {
  tf_conn : option RealConn;
  tf_handle : option nat;
  tf_seq : Z;
  tf_ack : Z;
  tf_ts_ecr : Z;
  tf_ts : Z;
}.
#[export] Instance tcp_flow_eta : EtaRecord TcpFlow := fun f =>
  mkTcpFlow (tf_conn f) (tf_handle f) (tf_seq f) (tf_ack f) (tf_ts_ecr f) (tf_ts f).

(** [TcpFlow::new]. *)
Definition flow_new (now : Z) : TcpFlow := mkTcpFlow None None 0 0 0 now.

(** [TcpFlow::capture_update]: whether the flow was an orphan. *)
Definition capture_update (seg : Segment) (handle : nat) (now : Z) (f : TcpFlow) : bool * TcpFlow :=
  let orphan := match tf_conn f with None => true | Some _ => false end in
  let f := f <| tf_ts := now |> in
  let f := if flags_ack (th_flags (sg_header seg)) then f <| tf_seq := th_ack (sg_header seg) |> else f in
  let f := match timestamps seg with Some ts => f <| tf_ts_ecr := ts_val ts |> | None => f end in
  let next := next_seq seg in
  let f :=
    if negb (next =? th_seq (sg_header seg)) then
      if (tf_ack f =? 0) || (tf_ack f =? th_seq (sg_header seg)) then f <| tf_ack := next |> else f
    else f in
  (orphan, f <| tf_handle := Some handle |>).

(** [TcpFlow::build_segment], at the uptime [val]; [None] when the families differ. *)
Definition build_segment (fp : FingerPrint) (lport : Z) (raddr : SocketAddr) (src_ip : IpAddr) (payload : list Z) (val : Z)
    (f : TcpFlow) : option (list Z) * FingerPrint * TcpFlow :=
  match pseudo_header_new src_ip (sa_ip raddr) with
  | None => (None, fp, f)
  | Some pseudo =>
      let header := mkTcpHeader lport (sa_port raddr) (tf_seq f) (tf_ack f) 0 (Z.lor TCP_PSH TCP_ACK) (fp_window fp) 0 0 in
      let fp := make_option_with val (tf_ts_ecr f) fp in
      let '(_, out) := serialize header (fp_options fp) payload pseudo in
      (Some out, fp, f <| tf_seq := wadd32 (tf_seq f) (u32 (zlen payload)) |>)
  end.

(** The flow table. *)
Abbreviation FlowTable := (gmap SocketAddr TcpFlow).

(** [sweep]: the connections to close, and the table. *)
Definition flow_alive (now : Z) (f : TcpFlow) : bool :=
  let ttl := match tf_conn f with None => ORPHAN_EXPIRE | Some _ => EXPIRE end in
  negb (ttl <? Z.max 0 (now - tf_ts f)).
Definition sweep (table : FlowTable) (now : Z) : list RealConn * FlowTable :=
  (omap (fun kv => if flow_alive now (snd kv) then None else tf_conn (snd kv)) (map_to_list table),
   filter (fun kv => Is_true (flow_alive now (snd kv))) table).

(** ** [conn.rs] and [addr.rs] *)

(** [addr.rs:canonical]. *)
Definition canonical (addr : SocketAddr) : SocketAddr :=
  match sa_ip addr with
  | IpV6 a =>
      match to_ipv4_mapped a with
      | Some ip => if sa_scope addr =? 0 then mkSocketAddr (IpV4 ip) (sa_port addr) 0 0 else addr
      | None => addr
      end
  | IpV4 _ => addr
  end.

Record Flows := mkFlows { fl_table : FlowTable; fl_fingerprint : FingerPrint }.

(** [conn.rs:Message]. *)
Record Message := mkMessage { ms_bts : list Z; ms_addr : SocketAddr }.

(** The flow of a peer, created on first sight. *)
Definition flow_entry (key : SocketAddr) (now : Z) (table : FlowTable) : TcpFlow := default (flow_new now) (table !! key).

(** The locked section of [send_to]; [handles] are the raw sockets' local addresses, [None]
    where the packet counts as lost: no socket for the flow, or none of the family. *)
Definition send_section (p : list Z) (target : SocketAddr) (lport : Z) (handles : list IpAddr) (now val : Z) (fl : Flows)
    : option (IpAddr * list Z) * Flows :=
  let key := canonical target in
  let flow := flow_entry key now (fl_table fl) in
  match tf_handle flow ≫= fun index => handles !! index with
  | None => (None, mkFlows (<[key := flow]> (fl_table fl)) (fl_fingerprint fl))
  | Some src_ip =>
      let '(out, fp, flow) := build_segment (fl_fingerprint fl) lport target src_ip p val flow in
      ((fun out => (src_ip, out)) <$> out, mkFlows (<[key := flow]> (fl_table fl)) fp)
  end.

(** The accept loop: the real connection of a peer. *)
Definition accept_section (peer : SocketAddr) (real : RealConn) (now : Z) (fl : Flows) : Flows :=
  let key := canonical peer in
  mkFlows (<[key := (flow_entry key now (fl_table fl)) <| tf_conn := Some real |>]> (fl_table fl)) (fl_fingerprint fl).

(** One round of [capture_flow]: [n] bytes were read into [buf] from [from]. *)
Definition capture_section (v4 : bool) (port : Z) (index : nat) (now : Z) (n : nat) (from : IpAddr) (buf : list Z) (fl : Flows)
    : option Message * Flows :=
  let '(n, buf) := if v4 then strip_ipv4_header n buf else (n, buf) in
  match decode (take n buf) with
  | Ok segment =>
      if negb (th_dst_port (sg_header segment) =? port) then (None, fl)
      else
        let src := canonical (mkSocketAddr from (th_src_port (sg_header segment)) 0 0) in
        let '(orphan, flow) := capture_update segment index now (flow_entry src now (fl_table fl)) in
        let fl := mkFlows (<[src := flow]> (fl_table fl)) (fl_fingerprint fl) in
        (if negb orphan && flags_psh (th_flags (sg_header segment)) then Some (mkMessage (sg_payload segment) src) else None, fl)
  | _ => (None, fl)
  end.
End Flow.
Arguments TcpFlow : clear implicits.
Arguments Flows : clear implicits.
