(* ===== verification/TcpSpec.v ===== *)
(** * What the raw TCP transport guarantees

    The checksum arithmetic, the codec's round trip, and a datagram's way through two
    connections: the segment built for it, captured by the peer, is delivered and keeps the
    sequence numbers of the two flows in step. *)
From stdpp Require Import base gmap list.
From Stdlib Require Import ZArith Lia.
From S2P Require Import Prelude Word Env CipherWord Tcp.
Local Open Scope Z_scope.

(** ** One's complement sums *)

Lemma carry_step c : 0 <= c < 4294967296 ->
  Z.shiftr c 16 + Z.land c 65535 = c / 65536 + c mod 65536.
Proof.
  intros Hc. rewrite Z.shiftr_div_pow2 by lia. change 65535 with (Z.ones 16). rewrite Z.land_ones by lia. done.
Qed.

Lemma fold_carries_spec c : 0 <= c < 4294967296 ->
  0 <= fold_carries 2 c <= 65535 /\ fold_carries 2 c mod 65535 = c mod 65535 /\ (0 < c -> 0 < fold_carries 2 c).
Proof.
  intros Hc. assert (Hstep : forall x, 0 <= x < 4294967296 -> (x / 65536 + x mod 65536) mod 65535 = x mod 65535).
  { intros x Hx. assert (E : x = x / 65536 + x mod 65536 + x / 65536 * 65535) by zlia. rewrite E at 3. by rewrite Z.mod_add by lia. }
  cbn [fold_carries]. destruct (Z.ltb_spec 65535 c) as [H1|H1]; [|split; [lia|split; [done|lia]]].
  rewrite carry_step by lia. set (d := c / 65536 + c mod 65536). assert (Hd : 0 < d <= 131070) by (unfold d; zlia).
  assert (Ed : d mod 65535 = c mod 65535) by by apply Hstep. clearbody d.
  destruct (Z.ltb_spec 65535 d) as [H2|H2]; [|split; [lia|split; [done|lia]]].
  rewrite carry_step by lia. split; [zlia|split; [rewrite Hstep by lia; done|zlia]].
Qed.

(** The sum of the words, without the wrap. *)
Fixpoint word_sum (data : list Z) : Z :=
  match data with
  | a :: b :: data => a * 256 + b + word_sum data
  | [a] => a * 256
  | [] => 0
  end.

Lemma pairs_ind (P : list Z -> Prop) : P [] -> (forall a, P [a]) -> (forall a b l, P l -> P (a :: b :: l)) -> forall l, P l.
Proof.
  intros H0' H1' H2' l. assert (Hb : P l /\ forall a, P (a :: l)); [|apply Hb].
  induction l as [|x l [IH1 IH2]]; [by split|]. split; [apply IH2|]. intros a. by apply H2'.
Qed.

Lemma word_sum_bound data : bytes data -> 0 <= word_sum data <= 32768 * (zlen data + 1).
Proof.
  induction data as [|a|a b l IH] using pairs_ind; intros Hb; cbn [word_sum].
  - unfold zlen. cbn [length]. lia.
  - apply Forall_cons in Hb as [Ha _]. unfold is_u8 in Ha. unfold zlen. cbn. lia.
  - apply Forall_cons in Hb as [Ha Hb]. apply Forall_cons in Hb as [Hb Hl]. specialize (IH Hl). unfold is_u8 in *.
    rewrite !zlen_cons. lia.
Qed.

Lemma sum_words_spec data : forall c, bytes data -> 0 <= c -> c + word_sum data < 4294967296 -> sum_words data c = c + word_sum data.
Proof.
  induction data as [|a|a b l IH] using pairs_ind; intros c Hb Hc Hs; cbn [sum_words word_sum] in *.
  - lia.
  - apply Forall_cons in Hb as [Ha _]. unfold is_u8 in Ha. rewrite Z.shiftl_mul_pow2 by lia. unfold wadd32. apply u32_id. unfold is_u32. lia.
  - apply Forall_cons in Hb as [Ha Hb]. apply Forall_cons in Hb as [Hb Hl]. pose proof (word_sum_bound l Hl). unfold is_u8 in *.
    rewrite Z.shiftl_mul_pow2 by lia. assert (Ew : wadd32 (wadd32 c (a * 2 ^ 8)) b = c + a * 256 + b).
    { unfold wadd32. rewrite !u32_id; unfold is_u32; try lia. rewrite u32_id; unfold is_u32; lia. }
    rewrite Ew, IH by (done || lia). lia.
Qed.

Lemma word_sum_app x : forall y, Nat.Even (length x) -> word_sum (x ++ y) = word_sum x + word_sum y.
Proof.
  induction x as [|a|a b l IH] using pairs_ind; intros y He; cbn [app word_sum].
  - done.
  - destruct He as [k Hk]. cbn [length] in Hk. lia.
  - rewrite IH; [lia|]. destruct He as [k Hk]. cbn [length] in Hk. exists (k - 1)%nat. lia.
Qed.

Lemma word_sum_be c : is_u16 c -> word_sum (be_bytes 2 c) = c.
Proof. intros Hc. unfold be_bytes, is_u16 in *. cbn. unfold u8. zlia. Qed.

(** ** The checksum *)

Lemma nth_u8 i l : bytes l -> 0 <= nth i l 0 < 256.
Proof.
  intros Hb. destruct (le_lt_dec (length l) i) as [Hl|Hl]; [rewrite nth_overflow by done; lia|].
  pose proof (proj1 (Forall_nth _ 0 l) Hb i Hl) as Hx. exact Hx.
Qed.

Lemma partial_bound p : 0 <= partial_checksum p <= 16 * 65535.
Proof.
  destruct p as [s d|s d]; cbn [partial_checksum]; cbv zeta; [set (x := octets4 s); set (y := octets4 d)|set (x := octets6 s); set (y := octets6 d)];
    assert (Hx : forall i, 0 <= nth i x 0 < 256) by (intros i; apply nth_u8, be_bytes_bytes);
    assert (Hy : forall i, 0 <= nth i y 0 < 256) by (intros i; apply nth_u8, be_bytes_bytes); clearbody x y.
  - rewrite !Z.shiftl_mul_pow2 by lia. pose proof (Hx 0%nat); pose proof (Hx 1%nat); pose proof (Hx 2%nat); pose proof (Hx 3%nat).
    pose proof (Hy 0%nat); pose proof (Hy 1%nat); pose proof (Hy 2%nat); pose proof (Hy 3%nat). lia.
  - assert (Hf : forall idx c, 0 <= c -> 0 <= foldl (fun csum i => csum + Z.shiftl (nth i x 0) 8 + nth (i + 1) x 0 + Z.shiftl (nth i y 0) 8 + nth (i + 1) y 0) c idx
        <= c + 2 * 65535 * zlen idx).
    { induction idx as [|i idx IH]; intros c Hc; cbn [foldl]; [unfold zlen; cbn; lia|]. rewrite zlen_cons, !Z.shiftl_mul_pow2 by lia.
      pose proof (Hx i); pose proof (Hx (i + 1)%nat); pose proof (Hy i); pose proof (Hy (i + 1)%nat).
      set (c1 := c + _ + _ + _ + _). specialize (IH c1 ltac:(unfold c1; lia)). unfold c1 in *. lia. }
    specialize (Hf [0; 2; 4; 6; 8; 10; 12; 14]%nat 0 ltac:(lia)). unfold zlen in Hf. cbn [length] in Hf. lia.
Qed.

(** What a segment's sum starts from. *)
Definition pseudo_sum (n : Z) (p : PseudoHeader) : Z := partial_checksum p + IP_PROTOCOL_TCP + n.

Lemma checksum_spec data p : bytes data -> zlen data <= 65535 ->
  let total := pseudo_sum (zlen data) p + word_sum data in
  0 < total < 4294967296 /\ compute_checksum data p IP_PROTOCOL_TCP = 65535 - fold_carries 2 total.
Proof.
  intros Hb Hl total. pose proof (partial_bound p). pose proof (word_sum_bound data Hb). pose proof (zlen_nonneg data).
  assert (Ht : 0 < total < 4294967296) by (unfold total, pseudo_sum, IP_PROTOCOL_TCP; lia). split; [done|].
  unfold compute_checksum, tcpip_checksum. cbv zeta. rewrite (u32_id (zlen data)) by (unfold is_u32; lia).
  assert (E0 : Z.land (zlen data) 65535 = zlen data) by (change 65535 with (Z.ones 16); rewrite Z.land_ones by lia; apply Z.mod_small; lia).
  rewrite E0, Z.shiftr_div_pow2, (Z.div_small (zlen data)) by lia.
  assert (E1 : wadd32 (wadd32 (wadd32 (partial_checksum p) IP_PROTOCOL_TCP) (zlen data)) 0 = pseudo_sum (zlen data) p).
  { unfold wadd32, pseudo_sum, IP_PROTOCOL_TCP. rewrite (u32_id (partial_checksum p + 6)) by (unfold is_u32; lia).
    rewrite (u32_id (partial_checksum p + 6 + zlen data)) by (unfold is_u32; lia). rewrite u32_id by (unfold is_u32; lia). lia. }
  rewrite E1, sum_words_spec; [|done|unfold pseudo_sum, IP_PROTOCOL_TCP; lia|unfold total in Ht; lia]. fold total.
  pose proof (fold_carries_spec total ltac:(lia)) as (Hf & _). set (f := fold_carries 2 total) in *. clearbody f.
  unfold u16. rewrite (Z.mod_small f) by lia. unfold Z.lnot. zlia.
Qed.

(** The checksum makes the whole sum zero. *)
Lemma checksum_closes front back p : bytes front -> bytes back -> Nat.Even (length front) -> zlen front + 2 + zlen back <= 65535 ->
  let c := compute_checksum (front ++ [0; 0] ++ back) p IP_PROTOCOL_TCP in
  is_u16 c /\ verify_checksum (front ++ be_bytes 2 c ++ back) p = true.
Proof.
  intros Hf Hb He Hl c. set (zero := front ++ [0; 0] ++ back) in *.
  assert (Hz : bytes zero) by (repeat apply Forall_app_2; try done; repeat constructor; unfold is_u8; lia).
  assert (Ez : zlen zero = zlen front + 2 + zlen back) by (unfold zero, zlen; rewrite !length_app; cbn [length]; lia).
  destruct (checksum_spec zero p Hz ltac:(lia)) as [Ht Ec]. fold c in Ec.
  set (total := pseudo_sum (zlen zero) p + word_sum zero) in *. destruct (fold_carries_spec total ltac:(lia)) as (Hfold & Hmod & Hpos).
  assert (Hc : is_u16 c) by (rewrite Ec; unfold is_u16; lia). split; [done|].
  set (out := front ++ be_bytes 2 c ++ back).
  assert (Ho : bytes out) by (apply Forall_app_2; [done|]; apply Forall_app_2; [apply be_bytes_bytes|done]).
  assert (Eo : zlen out = zlen zero) by (unfold out, zero, zlen; rewrite !length_app, length_be_bytes; done).
  destruct (checksum_spec out p Ho ltac:(lia)) as [Ht2 Ec2]. unfold verify_checksum. rewrite Ec2.
  assert (Etot : pseudo_sum (zlen out) p + word_sum out = total + c).
  { unfold total. rewrite Eo. unfold out, zero. rewrite !(word_sum_app front) by done.
    rewrite (word_sum_app (be_bytes 2 c)) by (by exists 1%nat). rewrite word_sum_be by done. cbn [app word_sum]. lia. }
  rewrite Etot in *. destruct (fold_carries_spec (total + c) ltac:(lia)) as (Hfold2 & Hmod2 & Hpos2).
  apply Z.eqb_eq. set (f := fold_carries 2 total) in *. set (g := fold_carries 2 (total + c)) in *. clearbody f g.
  assert (Hg : g mod 65535 = 0).
  { rewrite Hmod2, Ec. replace (total + (65535 - f)) with ((total - f) + 1 * 65535) by lia. rewrite Z.mod_add by lia.
    rewrite Zminus_mod, <- Hmod, Z.sub_diag. done. }
  assert (0 < g) by (apply Hpos2; unfold is_u16 in Hc; lia).
  assert (g = 65535) by (destruct (decide (g = 65535)); [done|]; rewrite Z.mod_small in Hg by lia; lia). lia.
Qed.

(** ** The codec *)

(** A header [serialize] can carry, and an option whose length fits its byte. *)
Definition header_ok (h : TcpHeader) : Prop :=
  is_u16 (th_src_port h) /\ is_u16 (th_dst_port h) /\ is_u32 (th_seq h) /\ is_u32 (th_ack h) /\
  0 <= th_flags h <= TCP_ALL /\ is_u16 (th_window h) /\ is_u16 (th_urgent h).
Definition option_ok (o : TcpOption) : Prop :=
  is_u8 (to_kind o) /\ bytes (to_data o) /\ (length (to_data o) + 2 <= 255)%nat.

(** An option as the walk of a parsed segment yields it. *)
Definition option_ref (o : TcpOption) : OptionRef :=
  if one_byte_kind (to_kind o) then mkOptionRef (to_kind o) 1 []
  else mkOptionRef (to_kind o) (Z.of_nat (length (to_data o) + 2)) (to_data o).

(** The options a parsed segment yields of those written: up to an end of the list, which the
    padding is where there is some. *)
Fixpoint read_back (opts : list TcpOption) (pad : nat) : list OptionRef :=
  match opts with
  | [] => match pad with O => [] | _ => [mkOptionRef OPTION_KIND_END_LIST 1 []] end
  | o :: opts =>
      if to_kind o =? OPTION_KIND_END_LIST then [mkOptionRef OPTION_KIND_END_LIST 1 []] else option_ref o :: read_back opts pad
  end.

(** The bytes of the options, how many they are, and the padding. *)
Definition opts_len (opts : list TcpOption) : nat := sum_list (wire_len <$> opts).
Definition opts_bytes (opts : list TcpOption) : list Z := mjoin (put_option <$> opts).
Definition opts_pad (opts : list TcpOption) : list Z := replicate (option_padding (opts_len opts)) 0.

Lemma length_put_option o : length (put_option o) = wire_len o.
Proof. unfold put_option, wire_len. case_goal; [done|]. cbn [length app]. lia. Qed.

Lemma put_option_bytes o : option_ok o -> bytes (put_option o).
Proof.
  intros (Hk & Hb & _). unfold put_option. case_goal; [by apply Forall_singleton|].
  apply Forall_cons_2; [done|]. apply Forall_cons_2; [apply u8_range|done].
Qed.

Lemma length_option_bytes opts : length (mjoin (put_option <$> opts)) = sum_list (wire_len <$> opts).
Proof.
  induction opts as [|o opts IH]; [done|]. change (mjoin (put_option <$> o :: opts)) with (put_option o ++ mjoin (put_option <$> opts)).
  rewrite length_app, length_put_option, IH. done.
Qed.

Lemma padding_spec n : (option_padding n < 4)%nat /\ exists q, (option_padding n + n = 4 * q)%nat.
Proof.
  unfold option_padding. pose proof (Nat.div_mod n 4 ltac:(lia)). pose proof (Nat.mod_upper_bound n 4 ltac:(lia)).
  destruct (n mod 4)%nat as [|r] eqn:E; [split; [lia|exists (n / 4)%nat; lia]|]. split; [lia|]. exists (n / 4 + 1)%nat. lia.
Qed.

(** One option at the front of the option bytes. *)
Lemma next_option o rest : option_ok o -> to_kind o <> OPTION_KIND_END_LIST -> options_next (put_option o ++ rest) = Some (option_ref o, rest).
Proof.
  intros (Hk & Hb & Hl) Hne. unfold put_option, option_ref, one_byte_kind.
  destruct (Z.eqb_spec (to_kind o) OPTION_KIND_END_LIST) as [|_]; [done|]. cbn [orb].
  destruct (Z.eqb_spec (to_kind o) OPTION_KIND_NOP) as [E|E]; cbn [app options_next].
  - rewrite E. done.
  - rewrite (proj2 (Z.eqb_neq _ _) Hne), (proj2 (Z.eqb_neq _ _) E). cbn [length nth].
    rewrite u8_id by (unfold is_u8; lia). rewrite (proj2 (Nat.ltb_ge _ _)) by lia.
    rewrite (proj2 (Z.ltb_ge _ _)) by lia. rewrite Nat2Z.id, length_app, (proj2 (Nat.ltb_ge _ _)) by lia. cbn [orb].
    replace (length (to_data o) + 2)%nat with (S (S (length (to_data o)))) by lia. cbn [drop]. rewrite Nat.sub_succ, Nat.sub_succ, Nat.sub_0_r.
    by rewrite drop_0, take_app_length, drop_app_length.
Qed.

(** The walk over the options, and the zero that pads them. *)
Lemma walk_end fuel rest : options_walk (S fuel) (0 :: rest) = [mkOptionRef OPTION_KIND_END_LIST 1 []].
Proof. cbn [options_walk options_next]. change (0 =? OPTION_KIND_END_LIST) with true. cbv iota. by destruct fuel. Qed.

Lemma walk_options opts pad : Forall option_ok opts -> forall fuel, (length (mjoin (put_option <$> opts)) + pad < fuel)%nat ->
  options_walk fuel (mjoin (put_option <$> opts) ++ replicate pad 0) = read_back opts pad.
Proof.
  induction 1 as [|o opts Ho _ IH]; intros fuel Hf.
  - destruct fuel as [|fuel]; [lia|]. destruct pad as [|pad]; [done|]. apply walk_end.
  - change (mjoin (put_option <$> o :: opts)) with (put_option o ++ mjoin (put_option <$> opts)) in *.
    rewrite length_app, length_put_option in Hf. assert (0 < wire_len o)%nat by (unfold wire_len; case_goal; lia).
    destruct fuel as [|fuel]; [lia|]. rewrite <- (assoc_L (++)). cbn [read_back].
    destruct (Z.eqb_spec (to_kind o) OPTION_KIND_END_LIST) as [E|Hne].
    + unfold put_option, one_byte_kind. rewrite E. apply walk_end.
    + cbn [options_walk]. rewrite next_option by done. f_equal. apply IH. lia.
Qed.

(** The offset and the flags share a word. *)
Lemma flags_word o f : 0 <= o < 16 -> 0 <= f < 512 ->
  let w := Z.lor (u16 (Z.shiftl o 12)) f in
  is_u16 w /\ Z.shiftr (w / 256) 4 = o /\ flags_from_bits (Z.lor (w mod 256) (Z.shiftl (Z.land (w / 256) 1) 8)) = f.
Proof.
  intros Ho Hf w.
  assert (Hall : forallb (fun o => forallb (fun f => let w := Z.lor (u16 (Z.shiftl o 12)) f in
    (0 <=? w) && (w <? 65536) && (Z.shiftr (w / 256) 4 =? o) && (flags_from_bits (Z.lor (w mod 256) (Z.shiftl (Z.land (w / 256) 1) 8)) =? f))
    (seqZ 0 512)) (seqZ 0 16) = true) by (vm_compute; reflexivity).
  rewrite forallb_forall in Hall. specialize (Hall o ltac:(apply list_elem_of_In, elem_of_seqZ; lia)). rewrite forallb_forall in Hall.
  specialize (Hall f ltac:(apply list_elem_of_In, elem_of_seqZ; lia)). cbv zeta in Hall. fold w in Hall.
  apply andb_true_iff in Hall as [Hall H3']. apply andb_true_iff in Hall as [Hall H2']. apply andb_true_iff in Hall as [H0' H1'].
  apply Z.leb_le in H0'. apply Z.ltb_lt in H1'. apply Z.eqb_eq in H2', H3'. unfold is_u16. split; [lia|]. by split.
Qed.

Lemma be_bytes_2 w : is_u16 w -> be_bytes 2 w = [w / 256; w mod 256].
Proof. intros Hw. unfold be_bytes, is_u16 in *. cbn. unfold u8. f_equal. apply Z.mod_small. zlia. Qed.

(** Reading a field. *)
Lemma be_at_here n v rest : 0 <= v < 256 ^ Z.of_nat n -> be_at n 0 (be_bytes n v ++ rest) = v.
Proof.
  intros Hv. unfold be_at. rewrite drop_0, take_app_length' by by rewrite length_be_bytes. rewrite be_val_be_bytes. by apply Z.mod_small.
Qed.
Lemma be_at_skip n m k v rest : be_at n (m + k) (be_bytes m v ++ rest) = be_at n k rest.
Proof. unfold be_at. by rewrite drop_app_add' by by rewrite length_be_bytes. Qed.
Lemma nth_skip m k v rest : nth (m + k) (be_bytes m v ++ rest) 0 = nth k rest 0.
Proof. rewrite app_nth2 by (rewrite length_be_bytes; lia). f_equal. rewrite length_be_bytes. lia. Qed.

(** The twenty bytes of a header. *)
Definition header_wire (h : TcpHeader) : list Z :=
  be_bytes 2 (th_src_port h) ++ be_bytes 2 (th_dst_port h) ++ be_bytes 4 (th_seq h) ++ be_bytes 4 (th_ack h) ++
  be_bytes 2 (flags_and_offset h) ++ be_bytes 2 (th_window h) ++ be_bytes 2 (th_checksum h) ++ be_bytes 2 (th_urgent h).

Lemma length_header_wire h : length (header_wire h) = 20%nat.
Proof. unfold header_wire. by rewrite !length_app, !length_be_bytes. Qed.

(** Reading a header back: a header with its outputs in range. *)
Definition full_header_ok (h : TcpHeader) : Prop := header_ok h /\ 5 <= th_data_offset h < 16 /\ is_u16 (th_checksum h).

Lemma decode_header h opts payload : full_header_ok h -> (Z.to_nat (th_data_offset h) * 4 = 20 + length opts)%nat ->
  decode (header_wire h ++ opts ++ payload) = Ok (mkSegment h opts payload).
Proof.
  intros ((Hs & Hd & Hq & Ha & Hf & Hw & Hu) & Ho & Hc) Hstart. unfold is_u16, is_u32 in *. unfold decode.
  rewrite length_app, length_header_wire, (proj2 (Nat.ltb_ge _ _)) by (unfold MIN_HEADER_LEN; lia).
  destruct (flags_word (th_data_offset h) (th_flags h)) as (Hw16 & Eoff & Efl); [lia|unfold TCP_ALL in Hf; lia|].
  change (Z.lor (u16 (Z.shiftl (th_data_offset h) 12)) (th_flags h)) with (flags_and_offset h) in Hw16, Eoff, Efl.
  set (out := header_wire h ++ opts ++ payload).
  assert (Eout : out = be_bytes 2 (th_src_port h) ++ be_bytes 2 (th_dst_port h) ++ be_bytes 4 (th_seq h) ++ be_bytes 4 (th_ack h) ++
    be_bytes 2 (flags_and_offset h) ++ be_bytes 2 (th_window h) ++ be_bytes 2 (th_checksum h) ++ be_bytes 2 (th_urgent h) ++ opts ++ payload).
  { unfold out, header_wire. by rewrite <- !(assoc_L (++)). }
  assert (E0 : be_at 2 0 out = th_src_port h) by (rewrite Eout; by apply be_at_here).
  assert (E2 : be_at 2 2 out = th_dst_port h).
  { rewrite Eout. change 2%nat with (2 + 0)%nat at 2. rewrite be_at_skip. by apply be_at_here. }
  assert (E4 : be_at 4 4 out = th_seq h).
  { rewrite Eout. change 4%nat with (2 + (2 + 0))%nat at 2. rewrite !be_at_skip. by apply be_at_here. }
  assert (E8 : be_at 4 8 out = th_ack h).
  { rewrite Eout. change 8%nat with (2 + (2 + (4 + 0)))%nat. rewrite !be_at_skip. by apply be_at_here. }
  assert (E14 : be_at 2 14 out = th_window h).
  { rewrite Eout. change 14%nat with (2 + (2 + (4 + (4 + (2 + 0)))))%nat. rewrite !be_at_skip. by apply be_at_here. }
  assert (E16 : be_at 2 16 out = th_checksum h).
  { rewrite Eout. change 16%nat with (2 + (2 + (4 + (4 + (2 + (2 + 0))))))%nat. rewrite !be_at_skip. by apply be_at_here. }
  assert (E18 : be_at 2 18 out = th_urgent h).
  { rewrite Eout. change 18%nat with (2 + (2 + (4 + (4 + (2 + (2 + (2 + 0)))))))%nat. rewrite !be_at_skip. by apply be_at_here. }
  assert (E12 : nth 12 out 0 = flags_and_offset h / 256 /\ nth 13 out 0 = flags_and_offset h mod 256).
  { rewrite Eout. change 12%nat with (2 + (2 + (4 + (4 + 0))))%nat. change 13%nat with (2 + (2 + (4 + (4 + 1))))%nat.
    rewrite !nth_skip, be_bytes_2 by done. done. }
  destruct E12 as [E12 E13]. rewrite E0, E2, E4, E8, E14, E16, E18, E12, E13, Eoff, Efl. cbv zeta. cbn [th_data_offset].
  rewrite (proj2 (Z.ltb_ge _ _)) by lia. cbn [orb]. rewrite Hstart.
  assert (Hl : (20 + length opts <= length out)%nat) by (unfold out; rewrite length_app, length_header_wire, length_app; lia).
  rewrite (proj2 (Nat.ltb_ge _ _)) by exact Hl.
  unfold MIN_HEADER_LEN. rewrite Nat.add_comm, Nat.add_sub. unfold out.
  rewrite (drop_app_length' (header_wire h)) by by rewrite length_header_wire. rewrite take_app_length.
  assert (Ed : drop (length opts + 20) (header_wire h ++ opts ++ payload) = payload).
  { rewrite (assoc_L (++)). apply drop_app_length'. rewrite length_app, length_header_wire. lia. }
  rewrite Ed. by destruct h.
Qed.

(** What [serialize] makes. *)
Lemma serialize_spec h (opts : list TcpOption) payload p : header_ok h -> Forall option_ok opts -> bytes payload ->
  (opts_len opts <= 40)%nat -> 60 + zlen payload <= 65535 ->
  let r := serialize h opts payload p in
  snd r = header_wire (fst r) ++ (opts_bytes opts ++ opts_pad opts) ++ payload /\ full_header_ok (fst r) /\
  (Z.to_nat (th_data_offset (fst r)) * 4 = 20 + length (opts_bytes opts ++ opts_pad opts))%nat /\
  fst r = h <| th_data_offset := th_data_offset (fst r) |> <| th_checksum := th_checksum (fst r) |> /\
  verify_checksum (snd r) p = true.
Proof.
  intros Hh Hopts Hpay Hol Hlen. unfold serialize, opts_bytes, opts_pad, opts_len in *. cbv zeta. set (ol := sum_list (wire_len <$> opts)) in *. set (pad := option_padding ol).
  destruct (padding_spec ol) as (Hpad & q & Hq). fold pad in Hpad, Hq. unfold MIN_HEADER_LEN.
  assert (Eq : ((pad + ol + 20) / 4 = q + 5)%nat) by (rewrite Hq; replace (4 * q + 20)%nat with ((q + 5) * 4)%nat by lia; apply Nat.div_mul; lia).
  rewrite Eq. rewrite u8_id by (unfold is_u8; lia). set (h1 := h <| th_data_offset := _ |>).
  set (back := be_bytes 2 (th_urgent h1) ++ mjoin (put_option <$> opts) ++ replicate pad 0 ++ payload).
  set (front := be_bytes 2 (th_src_port h1) ++ _). set (c := compute_checksum _ _ _).
  assert (Hob : bytes (mjoin (put_option <$> opts))).
  { clear - Hopts. induction Hopts as [|o opts Ho _ IH]; [by apply Forall_nil|].
    change (bytes (put_option o ++ mjoin (put_option <$> opts))). apply Forall_app_2; [by apply put_option_bytes|done]. }
  assert (Hback : bytes back).
  { unfold back. apply Forall_app_2; [apply be_bytes_bytes|]. apply Forall_app_2; [done|]. apply Forall_app_2; [|done].
    apply Forall_replicate. unfold is_u8. lia. }
  assert (Hfront : bytes front).
  { unfold front. repeat (apply Forall_app_2; [apply be_bytes_bytes|]). apply be_bytes_bytes. }
  assert (Lf : length front = 16%nat) by (unfold front; by rewrite !length_app, !length_be_bytes).
  assert (Lb : length back = (2 + ol + pad + length payload)%nat).
  { unfold back. rewrite !length_app, length_be_bytes, length_option_bytes, length_replicate. fold ol. lia. }
  destruct (checksum_closes front back p Hfront Hback) as [Hc Hv]; [rewrite Lf; by exists 8%nat|unfold zlen in *; lia|]. fold c in Hc, Hv.
  cbn [fst snd]. split_and!.
  - unfold header_wire, front, back, h1. cbn. by rewrite <- !(assoc_L (++)).
  - split; [exact Hh|]. split; [|exact Hc]. unfold h1. cbn. lia.
  - rewrite length_app, length_option_bytes, length_replicate. fold ol. unfold h1. cbn. lia.
  - unfold h1. done.
  - exact Hv.
Qed.

(** Options past the forty bytes a header has room for: the offset wraps in its four bits, and
    what is parsed has neither options nor payload. *)
Lemma decode_overfull h (opts : list TcpOption) payload p : header_ok h -> (40 < opts_len opts <= 60)%nat ->
  let r := serialize h opts payload p in
  exists seg, decode (snd r) = Ok seg /\ options seg = [] /\ sg_payload seg = [] /\
    th_data_offset (sg_header seg) = th_data_offset (fst r) - 16.
Proof.
  intros Hh Hol. unfold opts_len in Hol. unfold serialize. cbv zeta. set (ol := sum_list (wire_len <$> opts)) in *.
  set (pad := option_padding ol). destruct (padding_spec ol) as (Hpad & q & Hq). fold pad in Hpad, Hq. unfold MIN_HEADER_LEN.
  assert (Eq : ((pad + ol + 20) / 4 = q + 5)%nat) by (rewrite Hq; replace (4 * q + 20)%nat with ((q + 5) * 4)%nat by lia; apply Nat.div_mul; lia).
  rewrite Eq, u8_id by (unfold is_u8; lia). set (h1 := h <| th_data_offset := _ |>). set (c := compute_checksum _ _ _).
  cbn [fst snd th_data_offset field_update]. set (back := be_bytes 2 (th_urgent h1) ++ _).
  assert (Hfl : 0 <= th_flags h < 512) by (destruct Hh as (_ & _ & _ & _ & Hf & _); unfold TCP_ALL in Hf; lia).
  assert (Ew : flags_and_offset h1 = Z.lor (u16 (Z.shiftl (Z.of_nat (q + 5) - 16) 12)) (th_flags h)).
  { unfold flags_and_offset, h1. cbn [th_data_offset th_flags field_update]. f_equal. rewrite !Z.shiftl_mul_pow2 by lia. unfold u16. zlia. }
  destruct (flags_word (Z.of_nat (q + 5) - 16) (th_flags h)) as (Hw16 & Eoff & _); [lia|done|]. rewrite <- Ew in Hw16, Eoff.
  set (out := (be_bytes 2 (th_src_port h1) ++ _) ++ be_bytes 2 c ++ back).
  assert (E12 : nth 12 out 0 = flags_and_offset h1 / 256).
  { unfold out. rewrite <- !(assoc_L (++)). change 12%nat with (2 + (2 + (4 + (4 + 0))))%nat. rewrite !nth_skip, be_bytes_2 by done. done. }
  assert (Hlen : (20 <= length out)%nat).
  { unfold out, back. rewrite !length_app, !length_be_bytes. lia. }
  unfold decode. rewrite (proj2 (Nat.ltb_ge _ _)) by exact Hlen. cbv zeta. cbn [th_data_offset]. rewrite E12, Eoff.
  rewrite (proj2 (Z.ltb_lt _ _)) by lia. cbn [orb]. eexists. split; [done|]. split; [done|]. split; [done|]. cbn. lia.
Qed.

(** C7: the codec's round trip.  A header, options and a payload are serialised to a segment;
    where the options take the forty bytes a header has room for, or fewer, and the payload is
    below 64 KiB, the checksum verifies and the segment parses to the same header (but for the
    two outputs, the offset and the checksum), the same payload, and the same options up to the
    first end of the list among them, or the one the padding makes.  With forty-one to sixty
    bytes of options the offset does not fit: the parsed segment has neither options nor
    payload. *)
Theorem tcp_roundtrip h opts payload p :
  header_ok h -> Forall option_ok opts -> bytes payload ->
  let '(h', out) := serialize h opts payload p in
  ((opts_len opts <= 40)%nat -> 60 + zlen payload <= 65535 ->
     verify_checksum out p = true /\
     h' = h <| th_data_offset := th_data_offset h' |> <| th_checksum := th_checksum h' |> /\
     exists seg, decode out = Ok seg /\ sg_header seg = h' /\ sg_payload seg = payload /\
       options seg = read_back opts (option_padding (opts_len opts))) /\
  ((40 < opts_len opts <= 60)%nat -> exists seg, decode out = Ok seg /\ options seg = [] /\ sg_payload seg = []).
Proof.
  intros Hh Ho Hp. pose proof (serialize_spec h opts payload p Hh Ho Hp) as Hs. pose proof (decode_overfull h opts payload p Hh) as Hd.
  cbv zeta in Hs, Hd. destruct (serialize h opts payload p) as [h' out]. cbn [fst snd] in Hs, Hd. split.
  - intros Hl Hlen. destruct (Hs Hl Hlen) as (-> & Hfull & Hoff & Eh & Hv).
    split; [done|]. split; [done|]. eexists. split; [by apply decode_header|]. split; [done|]. split; [done|].
    unfold options. cbn [sg_option_bytes]. unfold opts_bytes, opts_pad. apply walk_options; [done|].
    rewrite length_app, length_replicate. lia.
  - intros Hl. destruct (Hd Hl) as (seg & ? & ? & ? & _). by exists seg.
Qed.

(** ** Flows *)

(** The Linux fingerprint, whatever timestamps it was last given. *)
Definition fingerprint_ok (f : FingerPrint) : Prop :=
  exists len data, f = mkFingerPrint Linux 65535
    [option_single OPTION_KIND_NOP; option_single OPTION_KIND_NOP; mkTcpOption OPTION_KIND_TIMESTAMPS len data] 64 /\
    bytes data /\ length data = TS_OPTION_DATA_LEN.

Lemma fingerprint_linux_ok : fingerprint_ok fingerprint_linux.
Proof. exists 10, (replicate 8 0). split_and!; [done| |done]. apply Forall_replicate. unfold is_u8. lia. Qed.

Lemma make_option_ok val ecr f : fingerprint_ok f ->
  fingerprint_ok (make_option_with val ecr f) /\ exists len,
    fp_options (make_option_with val ecr f) = [option_single OPTION_KIND_NOP; option_single OPTION_KIND_NOP;
      mkTcpOption OPTION_KIND_TIMESTAMPS len (be_bytes 4 val ++ be_bytes 4 ecr)].
Proof.
  intros (len & data & -> & Hb & Hl). unfold make_option_with. cbn [fp_kind fp_window fp_options fp_ttl fill_timestamps option_single to_kind to_data to_length].
  change (OPTION_KIND_NOP =? OPTION_KIND_TIMESTAMPS) with false. change (OPTION_KIND_TIMESTAMPS =? OPTION_KIND_TIMESTAMPS) with true.
  rewrite Hl. change (TS_OPTION_DATA_LEN =? TS_OPTION_DATA_LEN)%nat with true. cbn [andb]. unfold TS_OPTION_DATA_LEN in Hl.
  rewrite drop_ge, app_nil_r by lia. split; [|by exists len]. exists len, (be_bytes 4 val ++ be_bytes 4 ecr). split_and!; [done| |].
  - apply Forall_app_2; apply be_bytes_bytes.
  - by rewrite length_app, !length_be_bytes.
Qed.

(** The packet a raw socket reads: an IPv4 one has its header in front. *)
Definition ip_header (hdr : list Z) : Prop :=
  exists ihl, 5 <= ihl <= 15 /\ nth 0 hdr 0 = 64 + ihl /\ length hdr = Z.to_nat (4 * ihl).
Definition arrives (v4 : bool) (out : list Z) (n : nat) (buf : list Z) : Prop :=
  if v4 then exists hdr rest, ip_header hdr /\ buf = hdr ++ out ++ rest /\ n = (length hdr + length out)%nat
  else exists rest, buf = out ++ rest /\ n = length out.

Lemma strip_arrived hdr out rest : ip_header hdr ->
  exists rest', strip_ipv4_header (length hdr + length out) (hdr ++ out ++ rest) = (length out, out ++ rest').
Proof.
  intros (ihl & Hi & H0' & Hl). unfold strip_ipv4_header, MIN_HEADER_LEN.
  rewrite length_app, (proj2 (Nat.ltb_ge _ _)) by lia. assert (En : nth 0 (hdr ++ out ++ rest) 0 = 64 + ihl) by (rewrite app_nth1 by lia; done).
  rewrite En. assert (E1 : Z.shiftl (Z.land (64 + ihl) 15) 2 = 4 * ihl).
  { change 15 with (Z.ones 4). rewrite Z.land_ones, Z.shiftl_mul_pow2 by lia. change (2 ^ 4) with 16. zlia. }
  assert (E2 : Z.shiftr (64 + ihl) 4 = 4) by (rewrite Z.shiftr_div_pow2 by lia; change (2 ^ 4) with 16; zlia).
  rewrite E1, E2, <- Hl. cbv zeta. rewrite (proj2 (Nat.ltb_ge _ _)), (proj2 (Nat.ltb_ge _ _)) by lia. cbn [orb].
  change (4 =? 4) with true. cbn [negb]. rewrite drop_app_length. replace (length hdr + length out - length hdr)%nat with (length out) by lia.
  eexists. by rewrite <- (assoc_L (++)).
Qed.

Section Flows.
Context {RealConn : Type}.
Implicit Types (f : TcpFlow RealConn) (fl : Flows RealConn).

Definition flow_ok f : Prop := is_u32 (tf_seq f) /\ is_u32 (tf_ack f) /\ is_u32 (tf_ts_ecr f).

(** A segment built for a peer, as the peer parses it. *)
Lemma build_spec fp lport raddr src_ip payload val f pseudo : fingerprint_ok fp -> flow_ok f -> is_u16 lport -> is_u16 (sa_port raddr) ->
  is_u32 val -> bytes payload -> 60 + zlen payload <= 65535 -> pseudo_header_new src_ip (sa_ip raddr) = Some pseudo ->
  exists out seg fp', build_segment fp lport raddr src_ip payload val f = (Some out, fp', f <| tf_seq := wadd32 (tf_seq f) (zlen payload) |>) /\
    fingerprint_ok fp' /\ decode out = Ok seg /\ sg_payload seg = payload /\ verify_checksum out pseudo = true /\
    th_src_port (sg_header seg) = lport /\ th_dst_port (sg_header seg) = sa_port raddr /\ th_seq (sg_header seg) = tf_seq f /\
    th_ack (sg_header seg) = tf_ack f /\ th_flags (sg_header seg) = 24 /\ timestamps seg = Some (mkTimestamps val (tf_ts_ecr f)).
Proof.
  intros Hfp (F1 & F2 & F3) Hlp Hrp Hval Hb Hl Hps. unfold build_segment. rewrite Hps. cbv zeta.
  destruct (make_option_ok val (tf_ts_ecr f) fp Hfp) as (Hfp' & len & Eo). set (fp' := make_option_with _ _ fp) in *. rewrite Eo.
  set (opts := [_; _; _]). set (h := mkTcpHeader _ _ _ _ _ _ _ _ _).
  assert (Hh : header_ok h).
  { split_and!; try done. destruct Hfp as (? & ? & -> & _). done. }
  assert (Hopts : Forall option_ok opts).
  { repeat apply Forall_cons_2; try (split_and!; [done|by apply Forall_nil|cbn; lia]); [|by apply Forall_nil].
    split_and!; [done|apply Forall_app_2; apply be_bytes_bytes|cbn [to_data]; rewrite length_app, !length_be_bytes; lia]. }
  assert (Hol : opts_len opts = 12%nat) by done.
  pose proof (serialize_spec h opts payload pseudo Hh Hopts Hb ltac:(lia) Hl) as Hs. cbv zeta in Hs.
  destruct (serialize h opts payload pseudo) as [h' out]. cbn [fst snd] in Hs. destruct Hs as (-> & Hfull & Hoff & Eh & Hv).
  eexists _, _, fp'. rewrite u32_id by (unfold is_u32; pose proof (zlen_nonneg payload); lia).
  split; [done|]. split; [done|]. split; [by apply decode_header|]. cbn [sg_payload sg_header]. split; [done|]. split; [done|].
  rewrite Eh. split_and!; try done. unfold timestamps, options. cbn [sg_option_bytes].
  unfold opts_bytes, opts_pad. rewrite walk_options; [|done|rewrite length_app, length_replicate; lia]. rewrite Hol.
  change (read_back opts (option_padding 12)) with [mkOptionRef 1 1 []; mkOptionRef 1 1 [];
    mkOptionRef OPTION_KIND_TIMESTAMPS (Z.of_nat (length (be_bytes 4 val ++ be_bytes 4 (tf_ts_ecr f)) + 2)) (be_bytes 4 val ++ be_bytes 4 (tf_ts_ecr f))].
  cbn [List.find].
  unfold is_timestamps. cbn [or_kind or_data]. change (1 =? OPTION_KIND_TIMESTAMPS) with false. rewrite length_app, !length_be_bytes.
  change (OPTION_KIND_TIMESTAMPS =? OPTION_KIND_TIMESTAMPS) with true. cbn [Nat.add Nat.eqb orb andb fmap option_fmap option_map or_data].
  assert (Ev : be_at 4 0 (be_bytes 4 val ++ be_bytes 4 (tf_ts_ecr f)) = val) by by apply be_at_here.
  assert (Ee : be_at 4 (4 + 0) (be_bytes 4 val ++ be_bytes 4 (tf_ts_ecr f)) = tf_ts_ecr f).
  { rewrite be_at_skip, <- (app_nil_r (be_bytes 4 (tf_ts_ecr f))). by apply be_at_here. }
  cbn [Nat.add] in Ee. by rewrite Ev, Ee.
Qed.
End Flows.

(** C6: a datagram's way through two connections.  The segment built for it - while the peer has
    a raw socket of the right family - verifies its checksum; the peer that reads it, behind an
    IPv4 header or not, in a buffer of any length, delivers exactly the datagram under the
    sender's address if that flow has a real connection, and nothing otherwise; its own next
    segment continues the sender's numbers and echoes its clock: an acknowledgement in step
    stays in step, a fresh one starts there, and a late segment does not move it.  Other flows
    are untouched. *)
Theorem tcp_datagram_delivered {RA RB : Type} p target lport handles now val (fl_a : Flows RA) i src pseudo
    v4 index now' from (fl_b : Flows RB) :
  let a := flow_entry (canonical target) now (fl_table fl_a) in
  let key := canonical (mkSocketAddr from lport 0 0) in
  let b := flow_entry key now' (fl_table fl_b) in
  fingerprint_ok (fl_fingerprint fl_a) -> flow_ok a -> is_u16 lport -> is_u16 (sa_port target) -> is_u32 val ->
  bytes p -> 60 + zlen p <= 65535 ->
  tf_handle a = Some i -> handles !! i = Some src -> pseudo_header_new src (sa_ip target) = Some pseudo ->
  exists out fl_a', send_section p target lport handles now val fl_a = (Some (src, out), fl_a') /\
    verify_checksum out pseudo = true /\ fingerprint_ok (fl_fingerprint fl_a') /\
    let a' := flow_entry (canonical target) now (fl_table fl_a') in
    tf_seq a' = wadd32 (tf_seq a) (zlen p) /\
    forall n buf, arrives v4 out n buf ->
      let '(msg, fl_b') := capture_section v4 (sa_port target) index now' n from buf fl_b in
      let b' := flow_entry key now' (fl_table fl_b') in
      msg = (match tf_conn b with Some _ => Some (mkMessage p key) | None => None end) /\
      tf_seq b' = tf_ack a /\ tf_ts_ecr b' = val /\ tf_handle b' = Some index /\ tf_conn b' = tf_conn b /\
      (tf_ack b = tf_seq a -> tf_ack b' = tf_seq a') /\
      (tf_ack b = 0 -> p <> [] -> tf_ack b' = tf_seq a') /\
      (tf_ack b <> 0 -> tf_ack b <> tf_seq a -> tf_ack b' = tf_ack b) /\
      forall k, k <> key -> fl_table fl_b' !! k = fl_table fl_b !! k.
Proof.
  intros a key b Hfp Ha Hlp Hrp Hval Hb Hl Hh Hsrc Hps.
  destruct (build_spec (fl_fingerprint fl_a) lport target src p val a pseudo Hfp Ha Hlp Hrp Hval Hb Hl Hps)
    as (out & seg & fp' & Eb & Hfp' & Edec & Epay & Hv & Esp & Edp & Eseq & Eack & Efl & Ets).
  unfold send_section. fold a. rewrite Hh. cbn [mbind option_bind]. rewrite Hsrc, Eb. cbn [fmap option_fmap option_map].
  eexists out, _. split; [done|]. split; [done|]. split; [done|]. cbv zeta. cbn [fl_table].
  assert (Ea : flow_entry (canonical target) now (<[canonical target := a <| tf_seq := wadd32 (tf_seq a) (zlen p) |>]> (fl_table fl_a)) =
    a <| tf_seq := wadd32 (tf_seq a) (zlen p) |>) by (unfold flow_entry; by rewrite lookup_insert_eq).
  rewrite Ea. split; [done|]. intros n buf Harr.
  assert (Hread : (let '(n, buf) := if v4 then strip_ipv4_header n buf else (n, buf) in decode (take n buf)) = Ok seg).
  { destruct v4; cbn [arrives] in Harr.
    - destruct Harr as (hdr & rest & Hhdr & -> & ->). destruct (strip_arrived hdr out rest Hhdr) as [rest' ->]. by rewrite take_app_length.
    - destruct Harr as (rest & -> & ->). by rewrite take_app_length. }
  unfold capture_section. destruct (if v4 then _ else _) as [n1 buf1]. rewrite Hread, Edp, Z.eqb_refl, Esp. cbn [negb]. fold key. cbv zeta.
  fold b. unfold capture_update. rewrite Efl, Ets, Eack, Eseq. change (flags_ack 24) with true. cbv iota zeta.
  assert (En : next_seq seg = wadd32 (tf_seq a) (zlen p)).
  { unfold next_seq. rewrite Efl, Epay, Eseq. change (flags_syn 24) with false. change (flags_fin 24) with false.
    rewrite u32_id; [done|]. unfold is_u32. pose proof (zlen_nonneg p). lia. }
  rewrite En. set (next := wadd32 (tf_seq a) (zlen p)). change (flags_psh 24) with true. rewrite andb_true_r, Epay.
  set (b1 := b <| tf_ts := now' |> <| tf_seq := tf_ack a |> <| tf_ts_ecr := ts_val (mkTimestamps val (tf_ts_ecr a)) |>).
  change (tf_ack b1) with (tf_ack b). set (b2 := if negb (next =? tf_seq a) then _ else b1).
  assert (Hb2 : tf_seq b2 = tf_ack a /\ tf_ts_ecr b2 = val /\ tf_conn b2 = tf_conn b /\
    tf_ack b2 = if negb (next =? tf_seq a) && ((tf_ack b =? 0) || (tf_ack b =? tf_seq a)) then next else tf_ack b).
  { subst b2. destruct (negb (next =? tf_seq a)); cbn [andb]; [destruct (_ || _)|]; by split_and!. }
  destruct Hb2 as (B1 & B2 & B3 & B4). cbn [fl_table]. unfold flow_entry. rewrite lookup_insert_eq. cbn [default from_option id].
  assert (Hne : p <> [] -> next <> tf_seq a).
  { intros Hp. destruct Ha as [Hs _]. unfold next, wadd32, u32, is_u32 in *. assert (0 < zlen p < 65536) by (destruct p; [done|]; rewrite zlen_cons in *; pose proof (zlen_nonneg p); lia). zlia. }
  change (tf_seq (b2 <| tf_handle := Some index |>)) with (tf_seq b2). change (tf_ts_ecr (b2 <| tf_handle := Some index |>)) with (tf_ts_ecr b2).
  change (tf_ack (b2 <| tf_handle := Some index |>)) with (tf_ack b2). change (tf_conn (b2 <| tf_handle := Some index |>)) with (tf_conn b2).
  change (tf_seq (a <| tf_seq := next |>)) with next. rewrite B1, B2, B3, B4. split_and!; try done.
  - by destruct (tf_conn b).
  - intros ->. rewrite Z.eqb_refl, orb_true_r, andb_true_r. destruct (Z.eqb_spec next (tf_seq a)) as [E|]; [|done]. cbn [negb]. by rewrite E.
  - intros -> Hp. specialize (Hne Hp). by rewrite (proj2 (Z.eqb_neq _ _) Hne).
  - intros H1' H2'. by rewrite (proj2 (Z.eqb_neq _ _) H1'), (proj2 (Z.eqb_neq _ _) H2'), andb_false_r.
  - intros k Hk. by rewrite lookup_insert_ne.
Qed.

(** Sweeping keeps exactly the flows that are still alive. *)
Lemma sweep_lookup {R} (table : gmap SocketAddr (TcpFlow R)) now k :
  snd (sweep table now) !! k = table !! k ≫= fun f => if flow_alive now f then Some f else None.
Proof.
  unfold sweep. cbn [snd]. apply option_eq. intros f. rewrite map_lookup_filter_Some. cbn [snd].
  destruct (table !! k) as [f0|]; cbn [mbind option_bind]; [|naive_solver]. destruct (flow_alive now f0) eqn:E; split.
  - by intros [[= <-] _].
  - intros [= <-]. by rewrite E.
  - intros [[= <-] Hf]. by rewrite E in Hf.
  - done.
Qed.

(** ** Witnesses *)

Definition example_header : TcpHeader := mkTcpHeader 29900 443 4000000000 7 0 24 65535 0 0.
Definition example_options : list TcpOption :=
  [option_single OPTION_KIND_NOP; option_with_data 5 [1; 2; 3]; option_single OPTION_KIND_END_LIST; option_single OPTION_KIND_NOP].

Lemma example_header_ok : header_ok example_header.
Proof.
  unfold header_ok, is_u16, is_u32, TCP_ALL, example_header.
  cbn [th_src_port th_dst_port th_seq th_ack th_flags th_window th_urgent]. lia.
Qed.
Lemma single_ok kind : is_u8 kind -> option_ok (option_single kind).
Proof. intros Hk. split_and!; [done|by apply Forall_nil|cbn; lia]. Qed.

(** An option behind an end of the list is lost; forty-one bytes of them are too many. *)
Lemma tcp_roundtrip_witness :
  (exists seg, decode (snd (serialize example_header example_options [9; 8; 7] (PhV4 1 2))) = Ok seg /\ sg_payload seg = [9; 8; 7] /\
     options seg = [mkOptionRef 1 1 []; mkOptionRef 5 5 [1; 2; 3]; mkOptionRef 0 1 []]) /\
  exists seg, decode (snd (serialize example_header (replicate 41 (option_single OPTION_KIND_NOP)) [9; 8; 7] (PhV4 1 2))) = Ok seg /\
     sg_payload seg = [].
Proof.
  assert (Hp : bytes [9; 8; 7]) by (repeat (apply Forall_cons_2; [unfold is_u8; lia|]); by apply Forall_nil). split.
  - pose proof (tcp_roundtrip example_header example_options [9; 8; 7] (PhV4 1 2) example_header_ok) as Hr.
    destruct (serialize _ _ _ _) as [h' out]. cbn [snd]. destruct Hr as [Hr _]; [|exact Hp|destruct Hr as (_ & _ & seg & Hd & _ & Hs & Ho)].
    + repeat apply Forall_cons_2; [apply single_ok| |apply single_ok|apply single_ok|by apply Forall_nil]; try (unfold is_u8, OPTION_KIND_NOP, OPTION_KIND_END_LIST; lia).
      split_and!; [cbn; unfold is_u8; lia| |cbn; lia]. cbn. repeat (apply Forall_cons_2; [unfold is_u8; lia|]). by apply Forall_nil.
    + apply Nat.leb_le. reflexivity.
    + unfold zlen. cbn [length]. lia.
    + exists seg. split; [exact Hd|]. split; [exact Hs|exact Ho].
  - pose proof (tcp_roundtrip example_header (replicate 41 (option_single OPTION_KIND_NOP)) [9; 8; 7] (PhV4 1 2) example_header_ok) as Hr.
    destruct (serialize _ _ _ _) as [h' out]. cbn [snd]. destruct Hr as [_ Hr]; [|exact Hp|destruct Hr as (seg & Hd & _ & Hs)].
    + apply Forall_replicate, single_ok. unfold is_u8, OPTION_KIND_NOP. lia.
    + split; [apply Nat.ltb_lt|apply Nat.leb_le]; reflexivity.
    + exists seg. split; [exact Hd|exact Hs].
Defined.

Definition example_target : SocketAddr := mkSocketAddr (IpV4 167772162) 29900 0 0.
Definition example_sender : Flows unit :=
  mkFlows {[example_target := mkTcpFlow (Some tt) (Some 0%nat) 100 200 5 0]} fingerprint_linux.
Definition example_receiver : Flows unit :=
  mkFlows {[mkSocketAddr (IpV4 167772161) 4000 0 0 := mkTcpFlow (Some tt) None 200 100 0 0]} fingerprint_linux.
Definition example_ip_header : list Z := 69 :: replicate 19 0.

Lemma tcp_datagram_delivered_witness : exists out fl_a' fl_b',
  send_section [1; 2; 3] example_target 4000 [IpV4 167772161] 1 77 example_sender = (Some (IpV4 167772161, out), fl_a') /\
  capture_section true (sa_port example_target) 0 1 (20 + length out) (IpV4 167772161) (example_ip_header ++ out ++ []) example_receiver =
    (Some (mkMessage [1; 2; 3] (mkSocketAddr (IpV4 167772161) 4000 0 0)), fl_b').
Proof.
  destruct (tcp_datagram_delivered [1; 2; 3] example_target 4000 [IpV4 167772161] 1 77 example_sender 0 (IpV4 167772161)
    (PhV4 167772161 167772162) true 0 1 (IpV4 167772161) example_receiver) as (out & fl_a' & Hs & _ & _ & _ & Hc).
  - exact fingerprint_linux_ok.
  - change (flow_ok (mkTcpFlow (Some tt) (Some 0%nat) 100 200 5 0)). unfold flow_ok, is_u32. cbn [tf_seq tf_ack tf_ts_ecr]. lia.
  - unfold is_u16. lia.
  - unfold is_u16. cbn [sa_port example_target]. lia.
  - unfold is_u32. lia.
  - repeat (apply Forall_cons_2; [unfold is_u8; lia|]). by apply Forall_nil.
  - unfold zlen. cbn [length]. lia.
  - vm_compute. reflexivity.
  - reflexivity.
  - vm_compute. reflexivity.
  - specialize (Hc (20 + length out)%nat (example_ip_header ++ out ++ [])).
    exists out, fl_a', (snd (capture_section true (sa_port example_target) 0 1 (20 + length out) (IpV4 167772161) (example_ip_header ++ out ++ []) example_receiver)).
    split; [exact Hs|]. revert Hc.
    generalize (capture_section true (sa_port example_target) 0 1 (20 + length out) (IpV4 167772161) (example_ip_header ++ out ++ []) example_receiver).
    intros [msg fl_b'] Hc. cbn [snd]. destruct Hc as (-> & _); [|vm_compute; reflexivity].
    exists example_ip_header, []. split; [|by split]. exists 5. split; [lia|by split].
Defined.
