(* ===== verification/DataTheorems.v ===== *)
(** * What the data structures of the KCP crate guarantee

    The ring buffer, the segment heap, the segment header and the sort. *)
From Stdlib Require Import Sorted.
From S2P Require Import Prelude Word Env Segment Queue RingBuffer Heap GoSort GoSortSpec.
Local Open Scope Z_scope.

(** the 24-byte header.  What [encode] writes in front of the payload,
    [decode] reads back field by field, leaving the payload; both refuse a slice
    shorter than the header. *)
Theorem header_roundtrip s w r rest snmp :
  wire_segment s ->
  match encode s (w, r) snmp with
  | Some ((w', r'), snmp') =>
      (OVERHEAD <= length r)%nat /\ r' = drop OVERHEAD r /\
      exists header, w' = w ++ header /\ length header = OVERHEAD /\ bytes header /\
        decode (header ++ rest) = Some (header_of s, rest) /\
        forall n, (n < OVERHEAD)%nat -> decode (take n header) = None
  | None => (length r < OVERHEAD)%nat
  end.
Proof.
  intros Hs. destruct (Nat.leb_spec OVERHEAD (length r)) as [Hl|Hl].
  - rewrite encode_spec by done. split_and!; [done|done|].
    exists (header_bytes s). split_and!; [done|apply length_header_bytes|apply header_bytes_bytes| |].
    + by apply decode_header_bytes.
    + intros n Hn. apply decode_short. rewrite length_take, length_header_bytes. lia.
  - by rewrite encode_short.
Qed.

Lemma header_roundtrip_witness :
  exists header, encode (segment_default <| sg_sn := 258 |>) ([], replicate 24 0) snmp_new =
    Some ((header, []), snmp_new <| out_segs := 1 |>) /\
  decode (header ++ [7]) = Some (header_of (segment_default <| sg_sn := 258 |>), [7]).
Proof.
  pose proof (header_roundtrip (segment_default <| sg_sn := 258 |>) [] (replicate 24 0) [7] snmp_new) as Hr.
  destruct (encode (segment_default <| sg_sn := 258 |>) ([], replicate 24 0) snmp_new) as [[[w r] s]|] eqn:E;
    [|vm_compute in E; discriminate].
  destruct Hr as (_ & _ & header & Ew & _ & _ & Hd & _).
  { unfold wire_segment, is_u32, is_u16, is_u8. unfold zlen. split_and!; cbn; try lia; constructor. }
  exists w. rewrite Ew. split; [|exact Hd]. vm_compute in E. injection E as <- <- <-.
  rewrite <- Ew. reflexivity.
Defined.

(** C34: the ring buffer is a queue.  From [new], any sequence of operations on the
    circular array gives the results the same operations give on a plain list,
    whether it wraps, grows or shrinks, and ends with the list's elements. *)
Theorem ring_is_a_queue {T : Type} `{Default T} size ops :
  let '(obs, r) := run_ops ring_step ops (rb_new (T := T) size) in
  run_ops list_step ops [] = (obs, rb_list r) /\ rb_wf r.
Proof.
  destruct (ring_run_refines_from ops (rb_new size) (rb_new_wf size)) as [Hwf Hr].
  rewrite rb_new_list in Hr. destruct (run_ops ring_step ops (rb_new size)). by split.
Qed.

(** Nothing that left the ring is kept alive by it.  After any sequence of
    operations every slot outside the live range holds the default value, so a
    popped or discarded segment's payload is freed. *)
Theorem ring_retains_nothing {T : Type} `{Default T} size ops :
  rb_vacated (snd (run_ops ring_step ops (rb_new (T := T) size))).
Proof. apply ring_run_vacated; [apply rb_new_wf|apply rb_new_vacated]. Qed.

(** Popping a heap until it is empty. *)
Fixpoint sh_drain (fuel : nat) (h : SegmentHeap) : list Segment :=
  match fuel with
  | O => []
  | S fuel => match sh_pop h with None => [] | Some (s, h) => s :: sh_drain fuel h end
  end.

Lemma sh_drain_sorted base : forall fuel h, sh_inv base h -> (sh_len h <= fuel)%nat ->
  sh_drain fuel h ≡ₚ sh_segments h /\ StronglySorted (fun x y => seg_off base x < seg_off base y) (sh_drain fuel h).
Proof.
  induction fuel as [|fuel IH]; intros h Hh Hf; cbn [sh_drain].
  { unfold sh_len in Hf. destruct (sh_segments h); [by repeat constructor|cbn in Hf; lia]. }
  pose proof (sh_pop_spec base h Hh) as Hp. destruct (sh_pop h) as [[s h']|].
  - destruct Hp as (Hh' & Hperm & Hmin).
    destruct (IH h' Hh') as [Hp' Hs'].
    { apply Permutation_length in Hperm. unfold sh_len in *. cbn in Hperm. lia. }
    split; [by rewrite Hp', Hperm|]. constructor; [done|]. by rewrite Hp'.
  - rewrite Hp. by repeat constructor.
Qed.

Lemma sh_push_all_inv base segs : forall h, sh_inv base h -> Forall (seg_in_window base) segs ->
  NoDup (sg_sn <$> (sh_segments h ++ segs)) ->
  sh_inv base (foldl sh_push h segs) /\ sh_segments (foldl sh_push h segs) ≡ₚ sh_segments h ++ segs.
Proof.
  induction segs as [|s segs IH]; intros h Hh Hw Hnd; cbn [foldl]; [by rewrite app_nil_r|].
  apply Forall_cons in Hw as [Hs Hw]. pose proof (sh_push_perm h s) as Hp.
  assert (sh_segments h ++ s :: segs ≡ₚ sh_segments (sh_push h s) ++ segs) as Hpp.
  { rewrite Hp. cbn. by rewrite Permutation_middle. }
  destruct (IH (sh_push h s)) as [Hi Hq]; [|done|by rewrite <- Hpp|].
  - apply sh_push_inv; [done..|]. apply not_true_iff_false. rewrite (sh_has_spec base) by done.
    rewrite fmap_app, fmap_cons in Hnd. apply NoDup_app in Hnd as (_ & Hd & _).
    intros Hx. apply (Hd _ Hx). left.
  - split; [done|]. by rewrite Hq, Hpp.
Qed.

(** The reordering heap sorts by wrapped sequence number.  Segments of one
    half of the number space, each number once, come out in the order of their
    distance from [base], across the wrap of the 32-bit counter. *)
Theorem heap_sorts base segs :
  Forall (seg_in_window base) segs -> NoDup (sg_sn <$> segs) ->
  let out := sh_drain (length segs) (foldl sh_push sh_new segs) in
  out ≡ₚ segs /\ StronglySorted (fun x y => seg_off base x < seg_off base y) out /\
  (forall sn, sh_has (foldl sh_push sh_new segs) sn = true <-> sn ∈ sg_sn <$> segs).
Proof.
  intros Hw Hnd out. destruct (sh_push_all_inv base segs sh_new (sh_new_inv base) Hw Hnd) as [Hi Hp].
  destruct (sh_drain_sorted base (length segs) _ Hi) as [Hd Hs].
  { unfold sh_len. rewrite Hp. cbn. lia. }
  cbn [sh_segments sh_new app] in Hp.
  split_and!; [by rewrite <- Hp|done|]. intros sn. rewrite (sh_has_spec base) by done. by rewrite Hp.
Qed.

Definition example_segments : list Segment :=
  (fun sn => segment_default <| sg_sn := sn |>) <$> [1; 4294967295; 0].

Lemma heap_sorts_witness :
  let out := sh_drain 3 (foldl sh_push sh_new example_segments) in
  StronglySorted (fun x y => seg_off 4294967290 x < seg_off 4294967290 y) out /\
  sg_sn <$> out = [4294967295; 0; 1].
Proof.
  split; [|vm_compute; reflexivity].
  apply (heap_sorts 4294967290 example_segments).
  - repeat constructor; unfold is_u32; cbn; lia.
  - apply (bool_decide_unpack _). vm_compute. exact I.
Defined.

(** C33: [gosort::slice] returns, without a panic, a permutation of its input,
    whatever the comparison answers (even if it is no order at all). *)
Theorem sort_permutes {T : Type} (less_fn : T -> T -> bool) data :
  exists sorted, slice less_fn data = Ok sorted /\ sorted ≡ₚ data.
Proof. apply slice_permutes. Qed.

(** An input in order stays exactly as it is, equal elements included. *)
Theorem sort_keeps_sorted {T : Type} (less_fn : T -> T -> bool) data :
  (forall i j x y, (i < j)%nat -> data !! i = Some x -> data !! j = Some y -> less_fn y x = false) ->
  slice less_fn data = Ok data.
Proof. apply slice_ordered. Qed.

Lemma sort_keeps_sorted_witness : slice Nat.ltb [1; 2; 2; 5]%nat = Ok [1; 2; 2; 5]%nat.
Proof.
  apply (sort_keeps_sorted Nat.ltb). intros i j x y Hij Hx Hy. apply Nat.ltb_ge.
  destruct i as [|[|[|[|i]]]], j as [|[|[|[|j]]]]; cbn in *; try discriminate; try lia;
    injection Hx as <-; injection Hy as <-; lia.
Defined.
